(* ===== verification/_CoqProject ===== *)
-Q . S2P
Prelude.v
IntrusiveList.v
Ffs.v
Kservice.v
Memory.v
Printf.v
PrintfCorrect.v
KState.v
Object.v
Sched.v
Timer.v
KInv.v
WfCheck.v
SchedFacts.v
TimerFacts.v
TimerCheck.v
Thread.v
Ipc.v
IpcFacts.v
Sem.v
Mutex.v
Event.v
Ring.v
Mailbox.v
Fmq.v
MsgQueue.v
MemPool.v
ThreadFacts.v
ObjectFacts.v
FreeRtos.v
SoftTimer.v
DataQueue.v
Completion.v
WorkQueue.v
Device.v
DeviceSpec.v
Pipe.v
MemHeap.v
MemHeapFacts.v
MemHeapSpec.v
MemHeapRealloc.v
Halts.v
FinshState.v
FinshVar.v
FinshHeap.v
FinshNode.v
FinshToken.v
FinshParser.v
FinshVm.v
FinshCompiler.v
FinshSem.v
FinshVmFacts.v
FinshRun.v
FinshTypes.v
FinshCode.v
FinshCorrect.v
FinshLexFacts.v
FinshVarFacts.v
FinshParseFacts.v
FinshEdit.v
FinshEditSpec.v
FinshMsh.v
ScenarioFinsh.v
DfsState.v
DfsPath.v
Dfs.v
DfsFile.v
DfsFs.v
DfsPosix.v
DfsInv.v
DfsCalls.v
DfsPosixSpec.v
RomFs.v
Scenario.v
ScenarioIpc.v
ScenarioHeap.v
ScenarioSoft.v
ScenarioDrivers.v
ScenarioDevice.v
ScenarioDfs.v
