(* ===== verification/Prelude.v ===== *)
(** * The RT-Thread kernel and shell on ESP32

    A verification development for the core of this repository: the real-time
    operating system RT-Thread ([src/rt-thread]) in the configuration the ESP32
    port uses ([src/rtconfig.h]: 32 priorities, hard and software timers, all IPC
    objects, memory pools and heaps, devices, debugging checks on, modules off).

    ** The program and the files that model it

    The kernel is a set of C modules that share static variables and control
    blocks linked into intrusive lists.  Interrupts are locked around every state
    change, so that each critical section is one atomic change of the kernel state;
    a call that blocks gives the processor away inside [rt_schedule] and goes on
    when its thread is chosen again.

    Foundations:
    - [Prelude] (this file): machine integers with explicit wrap-around, the
      state-and-fault monad, total-correctness assertions ([wp]) and their
      automation, the hint database [kernel], lemmas on bits.
    - [IntrusiveList]: the lists of [include/rtservice.h].  Module [Ptr] is the
      pointer code on a heap of [next]/[prev] fields; the rest of the development
      works on families of lists ([lstore] operations), which [Ptr] implements.
    - [Ffs]: [__rt_ffs] of [src/kservice.c], the search of the ready bitmap.
    - [Kservice], [Memory]: the string and memory routines of [src/kservice.c].  In
      [Kservice] a pointer is the rest of its buffer and a read past the end is
      [None]; in [Memory] the word loops work on a byte memory.
    - [Printf], [PrintfCorrect]: the formatted output of
      [src/kservice.c] from [print_number] and [rt_vsnprintf] to [rt_kprintf], with
      the reference text of a format that it is compared with.

    The kernel state and its operations:
    - [KState]: the control blocks of [include/rtdef.h] as records, the objects at
      each address as finite maps, the static variables of the kernel, and the
      reading and writing of fields; a field access through an address with no
      object is the fault [BadPointer], linking a node that is already linked the
      fault [ListCorrupt], a failed [RT_ASSERT] the fault [AssertFailed].
    - [Object] ([src/object.c]), [Sched] ([src/scheduler.c] and the parts of
      [src/timer.c] and [src/thread.c] it depends on mutually), [Timer]
      ([src/timer.c]), [Thread] ([src/thread.c], [src/clock.c], [src/irq.c],
      [src/idle.c], and the look-ups by name that lock the scheduler), [Ipc] (the
      shared code of [src/ipc.c]), [SoftTimer] (the timer thread of [src/timer.c]).
    - [Sem], [Mutex], [Event], [Mailbox], [MsgQueue] ([src/ipc.c]) and [MemPool]
      ([src/mempool.c]): each holds the operations of one kind of object, its
      invariant and its theorems.  [Ring] holds the generic ring buffer
      and the singly linked chains they use.
    - [KInv]: the invariant [wf] of the whole kernel state and the state changes
      that keep it; [WfCheck] decides it on concrete states.  [SchedFacts],
      [TimerFacts], [TimerCheck], [IpcFacts], [ThreadFacts], [ObjectFacts]
      hold the specifications of the operations against it.

    Components on top of the kernel:
    - [layer] (in [KState]): a component that has state of its own beside that of the kernel works
      on a pair of both; [kern] and [own] run the operations of either side, and the
      specifications of kernel calls carry over.
    - [MemHeap], [MemHeapFacts], [MemHeapSpec], [MemHeapRealloc]
      ([src/memheap.c]): the items of a heap as words of memory, the operations on
      them, and the list of blocks they represent; [rt_memheap_realloc] works on the
      contents of the blocks too.  The lock of a heap is the
      semaphore of the kernel state.
    - [Device], [DeviceSpec] ([src/device.c] and the console device of
      [src/kservice.c]): devices over the class [driver_ops] of driver operations,
      whose promises are the class [driver_laws].
    - [Ring] (ring buffers), [DataQueue], [Completion], [WorkQueue], [Pipe] (pipes and
      portals): the data structures of [components/drivers/src].  The waiting
      lists are those of the kernel state; callbacks are section variables.
    - [Fmq], [FreeRtos] ([esp-idf-port/stubs], [fmq.c] and [libcpu.c]): the interface of
      FreeRTOS that the libraries of the ESP32 call, on the objects of the kernel.  A
      queue is a mailbox whose pool holds items; the constants of FreeRTOS are the class
      [freertos], what the port calls in the vendor's library the class [esp_idf].

    - [Scenario], [ScenarioIpc], [ScenarioHeap], [ScenarioSoft], [ScenarioDrivers],
      [ScenarioDevice]: a system booted by the model's own operations, on which
      every theorem with hypotheses is applied.

    The shell FinSH ([components/finsh]), a compiler for a subset of C expressions and
    a stack machine behind a line editor:
    - [FinshState]: the tables and static variables ([finsh.h], [finsh_error.c]); the
      memory of the target is a map from addresses to bytes, the tables the linker
      places and the addresses of the static arrays are the class [finsh_image].
    - [FinshVar], [FinshHeap], [FinshNode] ([finsh_var.c], [finsh_heap.c],
      [finsh_node.c] and the symbol look-up of [finsh_vm.c]), [FinshToken] and
      [FinshParser] (the scanner and the recursive-descent parser), [FinshCompiler]
      (type check and code generation, [finsh_init.c] and [finsh_run_line] of [shell.c]),
      [FinshVm] ([finsh_ops.c], [finsh_vm.c]).
    - [FinshSem]: syntax trees, their types, their evaluation and the code for them, the
      reference the compiler and the machine are proved against in [FinshVmFacts],
      [FinshTypes], [FinshCode] and [FinshCorrect].
    - [Halts], [FinshRun], [FinshLexFacts], [FinshParseFacts]: a computation
      [halts] when it returns or faults, but not for want of fuel; the machine and the
      parser halt.  [FinshVarFacts]: the variable table.
    - [FinshEdit], [FinshEditSpec]: the key loop of [shell.c] and the text with a cursor
      it implements.  [FinshMsh]: the splitting and execution of a
      command line of [msh.c].  [ScenarioFinsh]: sessions and witnesses.

    The device file system ([components/dfs]):
    - [DfsState]: its tables, descriptors and directory streams, the operations a file
      system brings along, the heap of strings ([dfs.h], [dfs_def.h], [dfs_fs.h]).
    - [DfsPath] ([dfs_normalize_path], [dfs_subdir]) with the reference for paths; [Dfs]
      (the lock, descriptors and look-up of [dfs.c] and [dfs_fs.c]), [DfsFile]
      ([dfs_file.c]), [DfsFs] (mounting, [dfs_fs.c]), [DfsPosix] ([dfs_posix.c]): each
      layer calls the one before it.
    - [DfsInv]: what a file system promises ([file_system_laws]) and the invariant of the
      tables, the heap and the lock ([dfs_inv]); [DfsCalls], [DfsPosixSpec]: the calls keep it.
    - [RomFs] ([filesystems/romfs]): a file system on an image that is the class
      [romfs_image], its look-up against the tree of the image, and its promises.
      [ScenarioDfs]: a session on a small image.
    The C library's numbers ([libc]), the allocator ([allocator], with the promises
    [allocator_ok]), the registered file systems ([fs_types]) and the device framework
    ([device_calls]) are classes.

    ** How the code is translated

    A C function is a computation in the monad [SM kstate] (or [SM (layer X)]):
    assignments become record updates in the order of the source, early returns
    become branches, the error codes are returned with their sign.  A blocking call
    returns [Return r] or [Wait w]; the code after its [rt_schedule] is a definition
    with the suffix [_resumed] that runs in the state in which the thread is chosen
    again.  In [MsgQueue], where [rt_mq_send] and [rt_mq_recv] unlock interrupts in
    the middle, every section is a state change of its own and [mq_step] interleaves
    the sections of concurrent calls.  The endless loops of the timer thread and of
    the worker of a work queue are modelled a turn at a time ([timer_entry_turn],
    [worker_test], [worker_suspend], [worker_turn]), so that other threads and
    interrupts can run between the parts.  The functions of the application and of
    drivers that the code calls (timeout functions, cleanup functions, work
    functions, notifications, driver operations) are section variables or classes,
    with the contracts [benign_callback], [soft_callback], [benign_cleanup] and
    [driver_laws]; the results of the memory allocator are arguments.  File systems and the
    allocator of the device file system are classes with the laws [file_system_laws] (which
    [RomFs] discharges), [allocator_ok] and [allocator_room].

    Loops that are not structural take fuel; running out of it is the fault
    [OutOfFuel], so that a proved [wp] includes termination.  The expiry loops need
    one unit per timer of the list, waking all waiters one per waiting thread, the
    acknowledgement of finished work two per waiting thread and one more, the
    search of a heap one per free block, the reaper one per defunct thread, the byte
    loops one per byte, the machine of FinSH one per byte of its text segment, its
    parser six per character and three.

    ** What the theorems show

    - Scheduling ([SchedFacts], [ThreadFacts], [ObjectFacts]): the highest ready
      thread runs, the scheduler lock nests, and every thread operation from
      initialisation to the reaper keeps [wf] and moves the thread between the lists
      as documented; look-up by name.
    - Time ([TimerFacts], [TimerCheck], [SoftTimer]): timer lists stay sorted on
      a tick that wraps around, the expiry loops terminate and leave no timer that is
      due, the timer thread is woken in time for every soft timer it knows of.
      [rt_soft_timer_check_diverges] and [soft_timer_wakeup_lost] are the two cases
      in which soft timers are not served.
    - IPC ([Mutex], [Sem], [Mailbox], [MsgQueue], [Event]): mutexes with ownership,
      recursion and priority inheritance; semaphores refine a counting semaphore with
      a waiting queue; mailboxes and message queues refine bounded FIFO queues, the
      latter also under interleaving of their sections; events serve the waiting
      receivers exactly as a reference on lists does.
    - Memory ([MemPool], [MemHeapSpec]): the blocks of a pool are in one place at a
      time; a heap hands out aligned memory that overlaps nothing, and freeing joins
      neighbours and restores the heap; a block that changes its size keeps its contents
      ([rt_memheap_realloc_correct]).  [rt_mp_free_after_timeout] shows that a
      waiter's timeout leaves a count behind that a later [rt_mp_free] trips over.
    - Output ([PrintfCorrect]): [rt_vsnprintf] stays within its buffer, which
      has a byte at least, for every format of literals and complete conversions with matching
      arguments, and leaves the reference text cut to fit.
    - Devices and their data structures ([DeviceSpec], [Ring],
      [DataQueue], [Completion], [WorkQueue], [Pipe]): reference-counted devices,
      with the calls of their drivers, found by unique names; ring buffer and data queue refine bounded FIFO queues, the
      latter until its 16 bit indices wrap ([rt_data_queue_wrap_overwrites]); a
      completion is a one-place signal; work queues queue work once, and acknowledge
      it to every thread that waits, with two races that lose work
      ([workqueue_wakeup_lost], [workqueue_cancel_faults]); a pipe is a bounded queue of
      bytes with waiting readers and writers, and what goes into one portal comes out of
      the other ([rt_portal_roundtrip]).
    - The FreeRTOS interface ([Fmq], [FreeRtos]): sending and receiving refine a bounded
      queue of items with two ends, from the creation of a queue to its last item
      ([xQueue_roundtrip]); a receiver that peeks keeps the next one waiting
      ([fmq_peek_leaves_receivers]).
    - The shell: a typed program that fits computes what the evaluation of its syntax
      tree gives ([finsh_program_correct]), and one that does not fit overruns the text
      segment ([finsh_compiler_run_bound]); the machine ends on every text and the
      parser on every line of the shell; the line editor refines a text with a cursor
      until a line of 255 characters grows in its middle ([finsh_line_wraps]); the
      words of a command are those between its blanks, of which an eleventh overflows.
    - The device file system: normalisation computes the walk along the names of a path
      ([dfs_normalize_path_correct]), and a path belongs to the file system mounted
      deepest on its way ([dfs_filesystem_lookup_correct]).  A sequence of POSIX calls
      on names that can be resolved and open streams returns and keeps the invariant
      ([posix_calls_keep_inv]): these calls leak no block, reference or lock on file systems
      that do not fail to close a directory; [rename] is left out of it, since two paths on no
      file system make it dereference a null pointer.  The read-only file system finds what the names of
      a path lead to ([dfs_romfs_lookup_correct]) and keeps the promises of the interface.
    - Foundations ([Ffs], [IntrusiveList], [Kservice], [Memory]): find-first-set, the
      list pointer code, memory and string routines against reference definitions.

    ** Limits and what is not modelled

    The context switch is the change of [rt_current_thread]; stacks, registers and
    the contents of thread stacks are not part of the state.  Hooks are unset.
    Timer lists have one skip-list level, the default of the configuration.
    The system heap on top of [src/memheap.c], which this configuration does not use, the aligned allocation of [src/kservice.c], the buses of
    [components/drivers], the network stack and the board code are left out; of [libcpu.c] the hooks
    for stacks and context switches, the start-up, the malloc wrappers and thread-local storage; of the
    shell the listings of [cmd.c], completion, scripts and the start of its thread; of
    the file systems all but romfs, and the commands [ls], [rm], [cat] and [copy].  The
    lock of the device file system is how often the calling thread holds it; a path is
    a list of bytes, and a string on the heap a block of its own. *)

From stdpp Require Import base gmap list strings fin_maps.
From Stdlib Require Import ZArith Lia.

Open Scope Z_scope.

(** ** Machine integers *)

(** The C types of [rtdef.h] are kept as [Z] with the wrap-around of each
    store written out: [rt_uint8_t], [rt_uint16_t], [rt_uint32_t] and the
    signed 16 and 32 bit types. *)
Definition u8 (x : Z) : Z := x mod 2 ^ 8.
Definition u16 (x : Z) : Z := x mod 2 ^ 16.
Definition u32 (x : Z) : Z := x mod 2 ^ 32.
Definition i16 (x : Z) : Z := (x + 2 ^ 15) mod 2 ^ 16 - 2 ^ 15.
Definition i32 (x : Z) : Z := (x + 2 ^ 31) mod 2 ^ 32 - 2 ^ 31.

(** [flag & mask] used as a C condition. *)
Definition flag_test (f m : Z) : bool := negb (Z.land f m =? 0).

(** ** Faults and the state-and-fault monad *)

(** What a C execution can run into instead of returning: a failed
    [RT_ASSERT] (the default handler spins forever), the dereference of a
    pointer that is no live object (or of a list head taken for an object),
    the insertion of a node that is still linked in a list (which corrupts the
    list it is in), an operation that C leaves undefined (a division by zero, a
    shift by more than the width), and, for the bounded versions of loops, running
    out of fuel. *)
Inductive fault := AssertFailed | BadPointer | ListCorrupt | Undefined | OutOfFuel.

Inductive outcome (S A : Type) :=
  | Done (a : A) (s : S)
  | Fault (f : fault).
Arguments Done {S A} a s.
Arguments Fault {S A} f.

Definition SM (S A : Type) : Type := S → outcome S A.

#[global] Instance SM_ret S : MRet (SM S) := λ A a s, Done a s.
#[global] Instance SM_bind S : MBind (SM S) := λ A B f m s,
  match m s with
  | Done a s' => f a s'
  | Fault e => Fault e
  end.

Definition get {S} : SM S S := λ s, Done s s.
Definition modify {S} (f : S → S) : SM S unit := λ s, Done tt (f s).
Definition fail {S A} (e : fault) : SM S A := λ _, Fault e.
Definition RT_ASSERT {S} (b : bool) : SM S unit :=
  if b then mret tt else fail AssertFailed.
Definition when {S} (b : bool) (m : SM S unit) : SM S unit :=
  if b then m else mret tt.
Definition of_option {S A} (e : fault) (o : option A) : SM S A :=
  match o with Some a => mret a | None => fail e end.

(** ** Total-correctness assertions

    [wp m Q s]: run from [s], [m] returns (no fault) and its result and final
    state satisfy [Q].  All triples of the development are of this form, so a
    proved triple always says that the call comes back. *)
Definition wp {S A} (m : SM S A) (Q : A → S → Prop) (s : S) : Prop :=
  match m s with
  | Done a s' => Q a s'
  | Fault _ => False
  end.

Section wp_rules.
Context {S : Type}.
Implicit Types s : S.

Lemma wp_done {A} (m : SM S A) Q s a s' : m s = Done a s' → Q a s' → wp m Q s.
Proof. unfold wp. by intros ->. Qed.
Lemma wp_inv {A} (m : SM S A) Q s : wp m Q s → ∃ a s', m s = Done a s' ∧ Q a s'.
Proof. unfold wp. destruct (m s) as [a s'|]; [eauto|done]. Qed.
Lemma wp_mono {A} (m : SM S A) (Q Q' : A → S → Prop) s :
  wp m Q s → (∀ a s', Q a s' → Q' a s') → wp m Q' s.
Proof. unfold wp. destruct (m s); naive_solver. Qed.
Lemma wp_conj {A} (m : SM S A) (Q Q' : A → S → Prop) s :
  wp m Q s → wp m Q' s → wp m (λ a s', Q a s' ∧ Q' a s') s.
Proof. unfold wp. destruct (m s); naive_solver. Qed.
Lemma wp_ret {A} (a : A) Q s : Q a s → wp (mret a) Q s.
Proof. done. Qed.
Lemma wp_bind {A B} (m : SM S A) (f : A → SM S B) Q s :
  wp m (λ a s', wp (f a) Q s') s → wp (m ≫= f) Q s.
Proof. unfold wp, mbind, SM_bind. by destruct (m s). Qed.
Lemma wp_bind_inv {A B} (m : SM S A) (f : A → SM S B) Q s :
  wp (m ≫= f) Q s → wp m (λ a s', wp (f a) Q s') s.
Proof. unfold wp, mbind, SM_bind. by destruct (m s). Qed.
Lemma wp_bind_assoc {A B C} (m : SM S A) (f : A → SM S B) (g : B → SM S C) Q s :
  wp ((m ≫= f) ≫= g) Q s → wp (m ≫= λ a, f a ≫= g) Q s.
Proof. unfold wp, mbind, SM_bind. by destruct (m s). Qed.
Lemma wp_get Q s : Q s s → wp get Q s.
Proof. done. Qed.
Lemma wp_modify f Q s : Q tt (f s) → wp (modify f) Q s.
Proof. done. Qed.
Lemma wp_assert b Q s : b = true → Q tt s → wp (RT_ASSERT b) Q s.
Proof. by intros ->. Qed.
Lemma wp_when b m Q s :
  (b = true → wp m Q s) → (b = false → Q tt s) → wp (when b m) Q s.
Proof. destruct b; naive_solver. Qed.
Lemma wp_option {A} e (o : option A) Q s a : o = Some a → Q a s → wp (of_option e o) Q s.
Proof. by intros ->. Qed.
Lemma wp_if {A} (b : bool) (m1 m2 : SM S A) Q s :
  (b = true → wp m1 Q s) → (b = false → wp m2 Q s) → wp (if b then m1 else m2) Q s.
Proof. destruct b; naive_solver. Qed.

(** Two computations that agree from [s] satisfy the same assertions. *)
Lemma wp_eq {A} (m m' : SM S A) Q s : m s = m' s → wp m Q s → wp m' Q s.
Proof. unfold wp. by intros ->. Qed.
End wp_rules.

#[global] Instance wp_proper {S A} :
  Proper (eq ==> pointwise_relation A (pointwise_relation S iff) ==> eq ==> iff) (@wp S A).
Proof.
  intros m ? <- Q Q' HQ s ? <-. unfold wp. destruct (m s); [apply HQ|done].
Qed.

(** One symbolic-execution step on a goal [wp m Q s]. *)
Ltac wp_step :=
  lazymatch goal with
  | |- wp (mbind _ _) _ _ => apply wp_bind
  | |- wp (mret _) _ _ => apply wp_ret
  | |- wp get _ _ => apply wp_get
  | |- wp (modify _) _ _ => apply wp_modify
  | |- wp (RT_ASSERT _) _ _ => apply wp_assert
  | |- wp (of_option _ _) _ _ => eapply wp_option
  | |- wp (when _ _) _ _ => apply wp_when; intros
  | |- wp (if _ then _ else _) _ _ => apply wp_if; intros
  end; cbv beta.

Create HintDb kernel discriminated.

(** ** Bits *)

Lemma testbit_pow2 p j : 0 ≤ p → 0 ≤ j → Z.testbit (2 ^ p) j = (p =? j).
Proof.
  intros Hp Hj. destruct (Z.eqb_spec p j) as [<-|Hne]; [by apply Z.pow2_bits_true|].
  by apply Z.pow2_bits_false.
Qed.
Lemma bits_range n x :
  0 ≤ n → (∀ j, n ≤ j → Z.testbit x j = false) → 0 ≤ x < 2 ^ n.
Proof.
  intros Hn Hb. assert (x mod 2 ^ n = x) as <-; [|apply Z.mod_pos_bound; lia].
  apply Z.bits_inj'. intros j Hj. destruct (Z.lt_ge_cases j n).
  - by rewrite Z.mod_pow2_bits_low by lia.
  - by rewrite Z.mod_pow2_bits_high, Hb by lia.
Qed.
Lemma range_bits n x j : 0 ≤ x < 2 ^ n → 0 ≤ n ≤ j → Z.testbit x j = false.
Proof. intros Hx Hj. rewrite <- (Z.mod_small x (2 ^ n)) by done. by apply Z.mod_pow2_bits_high. Qed.
Lemma lor_range a b n : 0 ≤ n → 0 ≤ a < 2 ^ n → 0 ≤ b < 2 ^ n → 0 ≤ Z.lor a b < 2 ^ n.
Proof.
  intros Hn Ha Hb. apply bits_range; [done|]. intros j Hj.
  by rewrite Z.lor_spec, (range_bits n a), (range_bits n b) by lia.
Qed.
Lemma land_range a b n : 0 ≤ n → 0 ≤ a < 2 ^ n → 0 ≤ Z.land a b < 2 ^ n.
Proof.
  intros Hn Ha. apply bits_range; [done|]. intros j Hj.
  by rewrite Z.land_spec, (range_bits n a) by lia.
Qed.
Lemma flag_test_bit f k : 0 ≤ k → flag_test f (2 ^ k) = Z.testbit f k.
Proof.
  intros Hk. unfold flag_test. apply eq_true_iff_eq. rewrite negb_true_iff, Z.eqb_neq. split.
  - intros Hne. destruct (Z.testbit f k) eqn:E; [done|]. exfalso. apply Hne.
    apply Z.bits_inj'. intros j Hj. rewrite Z.land_spec, testbit_pow2, Z.bits_0 by lia.
    destruct (Z.eqb_spec k j) as [<-|]; [by rewrite E|apply andb_false_r].
  - intros E H0. assert (Z.testbit (Z.land f (2 ^ k)) k = true) as Hb.
    { by rewrite Z.land_spec, E, testbit_pow2, Z.eqb_refl by lia. }
    by rewrite H0, Z.bits_0 in Hb.
Qed.
Lemma flag_clear f k j : 0 ≤ k → 0 ≤ j →
  flag_test (Z.land f (Z.lnot (2 ^ k))) (2 ^ j) = flag_test f (2 ^ j) && negb (k =? j).
Proof.
  intros Hk Hj. by rewrite !flag_test_bit, Z.land_spec, Z.lnot_spec, testbit_pow2 by lia.
Qed.
Lemma flag_set f k j : 0 ≤ k → 0 ≤ j →
  flag_test (Z.lor f (2 ^ k)) (2 ^ j) = flag_test f (2 ^ j) || (k =? j).
Proof. intros Hk Hj. by rewrite !flag_test_bit, Z.lor_spec, testbit_pow2 by lia. Qed.
