(* ===== verification/IntrusiveList.v ===== *)
(** The intrusive doubly linked list of [rt-thread/include/rtservice.h].

    [Module Ptr] is the C code: nodes are addresses, a heap gives each its
    [next] and [prev] pointer and the operations are the sequences of pointer
    reads and writes of the source.  [lstore] is what the kernel modules reason
    with: a family of list heads, each with the sequence of nodes linked to it.
    The refinement theorems show that each pointer operation acts on the heap
    the way the [lstore] operation of the same name acts on the family. *)

From stdpp Require Import base gmap list fin_maps.
From Stdlib Require Import ZArith Lia.
From S2P Require Import Prelude.

Open Scope Z_scope.

(** * Families of lists *)

Section lstore.
Context {Hd Nd : Type} `{Countable Hd} `{EqDecision Nd}.

Implicit Types (L : gmap Hd (list Nd)) (h : Hd) (n m : Nd).

(** The nodes linked to the head [h]; a head that was only initialised has
    none. *)
Definition l_get L h : list Nd := default [] (L !! h).
Definition l_isempty L h : bool := match l_get L h with [] => true | _ => false end.
Definition l_linked L n : bool :=
  existsb (λ p : Hd * list Nd, bool_decide (n ∈ p.2)) (map_to_list L).

Definition l_init h L : gmap Hd (list Nd) := <[h := []]> L.
Definition l_remove n L : gmap Hd (list Nd) := (λ l, filter (λ x, x ≠ n) l) <$> L.
Definition l_insert_after h n L : gmap Hd (list Nd) := <[h := n :: l_get L h]> L.
Definition l_insert_before h n L : gmap Hd (list Nd) := <[h := l_get L h ++ [n]]> L.

Fixpoint insert_at_node (m n : Nd) (l : list Nd) : list Nd :=
  match l with
  | [] => []
  | x :: l' => if decide (x = m) then n :: x :: l' else x :: insert_at_node m n l'
  end.
(** [rt_list_insert_before] applied to a node [m] that is not a head. *)
Definition l_insert_before_node m n L : gmap Hd (list Nd) := insert_at_node m n <$> L.

(** No node occurs twice, in one list or in two. *)
Record l_ok L : Prop := {
  ok_nodup h : NoDup (l_get L h);
  ok_excl h1 h2 n : n ∈ l_get L h1 → n ∈ l_get L h2 → h1 = h2;
}.

Lemma l_get_insert h h' l L :
  l_get (<[h := l]> L) h' = if decide (h = h') then l else l_get L h'.
Proof. unfold l_get. rewrite lookup_insert. by case_decide. Qed.
Lemma l_get_fmap (f : list Nd → list Nd) L h :
  f [] = [] → l_get (f <$> L) h = f (l_get L h).
Proof. intros Hf. unfold l_get. rewrite lookup_fmap. by destruct (L !! h). Qed.

Lemma l_get_init h h' L :
  l_get (l_init h L) h' = if decide (h = h') then [] else l_get L h'.
Proof. apply l_get_insert. Qed.
Lemma l_get_remove n L h : l_get (l_remove n L) h = filter (λ x, x ≠ n) (l_get L h).
Proof. unfold l_remove. by rewrite l_get_fmap. Qed.
Lemma l_get_insert_after h n L h' :
  l_get (l_insert_after h n L) h' = if decide (h = h') then n :: l_get L h else l_get L h'.
Proof. apply l_get_insert. Qed.
Lemma l_get_insert_before h n L h' :
  l_get (l_insert_before h n L) h' = if decide (h = h') then l_get L h ++ [n] else l_get L h'.
Proof. apply l_get_insert. Qed.
Lemma l_get_insert_node m n L h :
  l_get (l_insert_before_node m n L) h = insert_at_node m n (l_get L h).
Proof. unfold l_insert_before_node. by rewrite l_get_fmap. Qed.

Lemma l_linked_spec L n : l_linked L n = true ↔ ∃ h, n ∈ l_get L h.
Proof.
  unfold l_linked. rewrite existsb_exists. split.
  - intros ([h l] & Hin & Hn). apply bool_decide_eq_true in Hn.
    exists h. apply list_elem_of_In, elem_of_map_to_list in Hin.
    unfold l_get. by rewrite Hin.
  - intros [h Hn]. unfold l_get in Hn. destruct (L !! h) as [l|] eqn:E; simpl in Hn.
    + exists (h, l). rewrite <- list_elem_of_In, elem_of_map_to_list.
      split; [done|]. by apply bool_decide_eq_true.
    + by apply not_elem_of_nil in Hn.
Qed.
Lemma l_linked_false L n : l_linked L n = false ↔ ∀ h, n ∉ l_get L h.
Proof.
  rewrite <- not_true_iff_false, l_linked_spec. naive_solver.
Qed.

Lemma l_isempty_spec L h : l_isempty L h = true ↔ l_get L h = [].
Proof. unfold l_isempty. by destruct (l_get L h). Qed.
Lemma l_isempty_false L h : l_isempty L h = false ↔ l_get L h ≠ [].
Proof. unfold l_isempty. by destruct (l_get L h). Qed.

Lemma insert_at_node_perm m n l :
  m ∈ l → insert_at_node m n l ≡ₚ n :: l.
Proof.
  induction l as [|x l IH]; simpl; intros Hm; [by apply not_elem_of_nil in Hm|].
  case_decide as E; [done|]. apply elem_of_cons in Hm as [->|Hm]; [done|].
  rewrite IH by done. apply Permutation_swap.
Qed.
Lemma insert_at_node_notin m n l : m ∉ l → insert_at_node m n l = l.
Proof.
  induction l as [|x l IH]; simpl; [done|]. intros Hm.
  case_decide as E; [set_solver|]. rewrite IH; set_solver.
Qed.
Lemma insert_at_node_app m n l1 l2 :
  m ∉ l1 → insert_at_node m n (l1 ++ m :: l2) = l1 ++ n :: m :: l2.
Proof.
  induction l1 as [|x l1 IH]; simpl; intros Hm.
  - by rewrite decide_True.
  - rewrite decide_False by set_solver. rewrite IH; set_solver.
Qed.

(** ** Preservation of [l_ok] *)

Lemma filter_ne_notin n (l : list Nd) : n ∉ l → filter (λ x, x ≠ n) l = l.
Proof.
  induction l as [|x l IH]; simpl; [done|]. intros Hn.
  rewrite filter_cons_True, IH; set_solver.
Qed.

Lemma l_init_ok h L : l_ok L → l_ok (l_init h L).
Proof.
  intros [Hnd Hex]. split.
  - intros h'. rewrite l_get_init. case_decide; [constructor|done].
  - intros h1 h2 n. rewrite !l_get_init. repeat case_decide; try set_solver.
Qed.
Lemma l_remove_ok n L : l_ok L → l_ok (l_remove n L).
Proof.
  intros [Hnd Hex]. split.
  - intros h. rewrite l_get_remove. by apply NoDup_filter.
  - intros h1 h2 m. rewrite !l_get_remove, !list_elem_of_filter.
    intros [_ ?] [_ ?]. by eapply Hex.
Qed.

Lemma l_perm_ok L L' h n :
  l_ok L → (∀ h', n ∉ l_get L h') →
  l_get L' h ≡ₚ n :: l_get L h → (∀ h', h ≠ h' → l_get L' h' = l_get L h') →
  l_ok L'.
Proof.
  intros [Hnd Hex] Hfresh Hp Ho. split.
  - intros h'. destruct (decide (h = h')) as [<-|Hne].
    + rewrite Hp. constructor; auto.
    + rewrite Ho by done. auto.
  - intros h1 h2 m. destruct (decide (h = h1)) as [<-|H1], (decide (h = h2)) as [<-|H2];
      try done; rewrite ?Hp, ?Ho, ?elem_of_cons by done.
    + intros [->|?] ?; [by exfalso; eapply Hfresh|by eapply Hex].
    + intros ? [->|?]; [by exfalso; eapply Hfresh|by eapply Hex].
    + apply Hex.
Qed.
Lemma l_insert_after_ok h n L :
  l_ok L → l_linked L n = false → l_ok (l_insert_after h n L).
Proof.
  intros Hok Hf. apply (l_perm_ok L _ h n); [done|by apply l_linked_false| |].
  - by rewrite l_get_insert_after, decide_True.
  - intros h' Hne. by rewrite l_get_insert_after, decide_False.
Qed.
Lemma l_insert_before_ok h n L :
  l_ok L → l_linked L n = false → l_ok (l_insert_before h n L).
Proof.
  intros Hok Hf. apply (l_perm_ok L _ h n); [done|by apply l_linked_false| |].
  - rewrite l_get_insert_before, decide_True by done. by rewrite Permutation_app_comm.
  - intros h' Hne. by rewrite l_get_insert_before, decide_False.
Qed.
Lemma l_insert_before_node_ok h m n L :
  l_ok L → m ∈ l_get L h → l_linked L n = false → l_ok (l_insert_before_node m n L).
Proof.
  intros Hok Hm Hf. apply (l_perm_ok L _ h n); [done|by apply l_linked_false| |].
  - rewrite l_get_insert_node. by apply insert_at_node_perm.
  - intros h' Hne. rewrite l_get_insert_node. apply insert_at_node_notin.
    intros Hm'. apply Hne. by eapply (ok_excl _ Hok).
Qed.

Lemma l_remove_unlinked n L : l_linked (l_remove n L) n = false.
Proof.
  apply l_linked_false. intros h. rewrite l_get_remove, list_elem_of_filter. naive_solver.
Qed.
Lemma l_remove_linked_other n m L :
  l_linked L m = false → l_linked (l_remove n L) m = false.
Proof.
  rewrite !l_linked_false. intros Hm h. rewrite l_get_remove, list_elem_of_filter.
  naive_solver.
Qed.
Lemma l_empty_ok : l_ok ∅.
Proof.
  split; intros *; unfold l_get; rewrite !lookup_empty; simpl; [constructor|set_solver].
Qed.
End lstore.

(** * The pointer code *)

Module Ptr.

(** [struct rt_list_node]: the two fields of every node, by address. *)
Record heap := Heap { nx : gmap Z Z; pv : gmap Z Z }.

Definition get_next (p : Z) : SM heap Z := λ s,
  match nx s !! p with Some q => Done q s | None => Fault BadPointer end.
Definition get_prev (p : Z) : SM heap Z := λ s,
  match pv s !! p with Some q => Done q s | None => Fault BadPointer end.
Definition set_next (p q : Z) : SM heap unit := λ s,
  match nx s !! p with
  | Some _ => Done tt (Heap (<[p := q]> (nx s)) (pv s))
  | None => Fault BadPointer
  end.
Definition set_prev (p q : Z) : SM heap unit := λ s,
  match pv s !! p with
  | Some _ => Done tt (Heap (nx s) (<[p := q]> (pv s)))
  | None => Fault BadPointer
  end.

Definition rt_list_init (l : Z) : SM heap unit :=
  set_prev l l;; set_next l l.
Definition rt_list_insert_after (l n : Z) : SM heap unit :=
  x ← get_next l; set_prev x n;;
  x ← get_next l; set_next n x;;
  set_next l n;;
  set_prev n l.
Definition rt_list_insert_before (l n : Z) : SM heap unit :=
  x ← get_prev l; set_next x n;;
  x ← get_prev l; set_prev n x;;
  set_prev l n;;
  set_next n l.
Definition rt_list_remove (n : Z) : SM heap unit :=
  x ← get_next n; y ← get_prev n; set_prev x y;;
  y ← get_prev n; x ← get_next n; set_next y x;;
  set_prev n n;;
  set_next n n.
Definition rt_list_isempty (l : Z) : SM heap bool :=
  x ← get_next l; mret (x =? l).

(** ** Representation *)

(** [seg s a l b]: following [next] from [a] passes the nodes [l] and ends in
    [b], and the [prev] pointers lead the same way back. *)
Fixpoint seg (s : heap) (a : Z) (l : list Z) (b : Z) : Prop :=
  match l with
  | [] => nx s !! a = Some b ∧ pv s !! b = Some a
  | x :: l' => nx s !! a = Some x ∧ pv s !! x = Some a ∧ seg s x l' b
  end.

(** A heap represents the family [L] of lists: every head is the start and end
    of a cycle through its nodes, heads are not nodes and nodes belong to one
    list only; the nodes of [U] are allocated and linked to nothing. *)
Record repr (s : heap) (L : gmap Z (list Z)) (U : gset Z) : Prop := {
  r_seg h l : L !! h = Some l → seg s h l h;
  r_ok : l_ok L;
  r_heads h h' l : L !! h = Some l → is_Some (L !! h') → h' ∉ l;
  r_free n : n ∈ U →
    nx s !! n = Some n ∧ pv s !! n = Some n ∧ L !! n = None ∧ ∀ h, n ∉ l_get L h;
}.

Lemma seg_app s a l1 x l2 b :
  seg s a (l1 ++ x :: l2) b ↔ seg s a l1 x ∧ seg s x l2 b.
Proof.
  revert a. induction l1 as [|y l1 IH]; intros a; simpl; [tauto|].
  rewrite IH. tauto.
Qed.

(** A segment only reads the [next] fields of its start and nodes and the
    [prev] fields of its nodes and end. *)
Lemma seg_frame s s' a l b :
  (∀ x, x = a ∨ x ∈ l → nx s' !! x = nx s !! x) →
  (∀ x, x = b ∨ x ∈ l → pv s' !! x = pv s !! x) →
  seg s a l b → seg s' a l b.
Proof.
  revert a. induction l as [|x l IH]; intros a Hn Hp; simpl.
  - rewrite Hn, Hp by auto. done.
  - rewrite Hn, Hp by set_solver. intros (? & ? & ?). split_and!; [done..|].
    apply IH; [set_solver..|done].
Qed.

(** The last node before the end of a segment, and the first one after its
    start. *)
Fixpoint last_node (a : Z) (l : list Z) : Z :=
  match l with [] => a | x :: l' => last_node x l' end.
Definition first_node (l : list Z) (b : Z) : Z := default b (head l).

Lemma seg_adjacent s a l1 l2 b :
  seg s a (l1 ++ l2) b →
  nx s !! last_node a l1 = Some (first_node l2 b) ∧ pv s !! first_node l2 b = Some (last_node a l1).
Proof.
  revert a. induction l1 as [|x l1 IH]; intros a; simpl.
  - destruct l2; simpl; tauto.
  - intros (? & ? & Hs). by apply IH.
Qed.
Lemma last_node_in a l : last_node a l ∈ a :: l.
Proof. revert a. induction l as [|x l IH]; intros a; simpl; [set_solver|]. specialize (IH x). set_solver. Qed.
Lemma first_node_in l b : first_node l b = b ∨ first_node l b ∈ l.
Proof. destruct l; set_solver. Qed.

(** The heap after linking [n] between the neighbours [a] and [b], and after
    taking [n] out from between them. *)
Definition link (a n b : Z) (s : heap) : heap :=
  Heap (<[n := b]> (<[a := n]> (nx s))) (<[b := n]> (<[n := a]> (pv s))).
Definition unlink (a n b : Z) (s : heap) : heap :=
  Heap (<[n := n]> (<[a := b]> (nx s))) (<[n := n]> (<[b := a]> (pv s))).

Ltac seg_frame_tac := eapply seg_frame; [| |eassumption]; intros ? ?; simpl;
  rewrite !lookup_insert_ne by set_solver; done.

Ltac ins_solve :=
  simpl; repeat first [rewrite lookup_insert_eq | rewrite lookup_insert_ne by set_solver]; done.

Lemma seg_link s a l1 l2 e n :
  NoDup (a :: l1 ++ l2) → e ∉ l1 ++ l2 → n ∉ a :: l1 ++ l2 → n ≠ e →
  seg s a (l1 ++ l2) e →
  seg (link (last_node a l1) n (first_node l2 e) s) a (l1 ++ n :: l2) e.
Proof.
  revert a. induction l1 as [|x l1 IH]; intros a Hnd He Hn Hne; simpl in *.
  - apply NoDup_cons in Hnd as [Ha Hnd].
    intros Hs. destruct l2 as [|y l2]; simpl in *.
    + split_and!; ins_solve.
    + destruct Hs as (? & ? & Hs). apply NoDup_cons in Hnd as [Hy Hnd].
      split_and!; [ins_solve..|].
      seg_frame_tac.
  - intros (? & ? & Hs). apply NoDup_cons in Hnd as [Ha Hnd].
    pose proof (last_node_in x l1). pose proof (first_node_in l2 e).
    assert (first_node l2 e ≠ x). { apply NoDup_cons in Hnd as [Hx _]. set_solver. }
    split_and!; [rewrite !lookup_insert_ne by set_solver; done..|].
    apply IH; [done|set_solver..|done].
Qed.

Lemma seg_unlink s a l1 l2 e n :
  NoDup (a :: l1 ++ n :: l2) → e ∉ l1 ++ n :: l2 →
  seg s a (l1 ++ n :: l2) e →
  seg (unlink (last_node a l1) n (first_node l2 e) s) a (l1 ++ l2) e.
Proof.
  revert a. induction l1 as [|x l1 IH]; intros a Hnd He; simpl in *.
  - intros (? & ? & Hs). apply NoDup_cons in Hnd as [Ha Hnd].
    apply NoDup_cons in Hnd as [Hn Hnd].
    destruct l2 as [|y l2]; simpl in *.
    + split; ins_solve.
    + destruct Hs as (? & ? & Hs). apply NoDup_cons in Hnd as [Hy Hnd].
      split_and!; [ins_solve..|].
      seg_frame_tac.
  - intros (? & ? & Hs). apply NoDup_cons in Hnd as [Ha Hnd].
    pose proof (last_node_in x l1). pose proof (first_node_in l2 e).
    assert (Hx : x ∉ l1 ++ n :: l2) by (by apply NoDup_cons in Hnd as [Hx _]).
    split_and!; [rewrite !lookup_insert_ne by set_solver; done..|].
    apply IH; [done|set_solver..|done].
Qed.

(** ** The operations as heap updates *)

Lemma insert_after_link s a n b :
  nx s !! a = Some b → pv s !! b = Some a →
  is_Some (nx s !! n) → is_Some (pv s !! n) → n ≠ a → n ≠ b →
  rt_list_insert_after a n s = Done tt (link a n b s).
Proof.
  intros Hn Hp [xn Hnn] [xp Hnp] Ha Hb. unfold rt_list_insert_after, link.
  unfold mbind, SM_bind, get_next, get_prev, set_next, set_prev.
  rewrite Hn, Hp. simpl. rewrite Hn. simpl. rewrite Hnn. simpl.
  rewrite (lookup_insert_ne _ n a), Hn by done. simpl.
  rewrite (lookup_insert_ne _ b n), Hnp by done. simpl.
  rewrite (insert_insert_ne _ a n), (insert_insert_ne (pv s)) by done. done.
Qed.

Lemma insert_before_link s a n b :
  nx s !! a = Some b → pv s !! b = Some a →
  is_Some (nx s !! n) → is_Some (pv s !! n) → n ≠ a → n ≠ b →
  rt_list_insert_before b n s = Done tt (link a n b s).
Proof.
  intros Hn Hp [xn Hnn] [xp Hnp] Ha Hb. unfold rt_list_insert_before, link.
  unfold mbind, SM_bind, get_next, get_prev, set_next, set_prev.
  rewrite Hp, Hn. simpl. rewrite Hp. simpl. rewrite Hnp. simpl.
  rewrite (lookup_insert_ne _ n b), Hp by done. simpl.
  rewrite (lookup_insert_ne _ a n), Hnn by done. done.
Qed.

Lemma remove_unlink s a n b :
  nx s !! a = Some n → pv s !! n = Some a → nx s !! n = Some b → pv s !! b = Some a ∨ pv s !! b = Some n →
  n ≠ a → n ≠ b →
  rt_list_remove n s = Done tt (unlink a n b s).
Proof.
  intros Hna Hpn Hnn Hpb Ha Hb. unfold rt_list_remove, unlink.
  unfold mbind, SM_bind, get_next, get_prev, set_next, set_prev.
  rewrite Hnn, Hpn. simpl. assert (is_Some (pv s !! b)) as [xb ->] by naive_solver. simpl.
  rewrite (lookup_insert_ne _ b n), Hpn by done. simpl. rewrite Hnn. simpl. rewrite Hna. simpl.
  rewrite (lookup_insert_ne _ b n), Hpn by done. simpl.
  rewrite (lookup_insert_ne _ a n), Hnn by done. done.
Qed.

(** ** Refinement *)

Section refinement.
Context (s : heap) (L : gmap Z (list Z)) (U : gset Z) (HR : repr s L U).

Lemma repr_cycle h l : L !! h = Some l → NoDup (h :: l) ∧ h ∉ l.
Proof.
  intros Hl. assert (h ∉ l) by (by eapply (r_heads _ _ _ HR)).
  split; [|done]. constructor; [done|].
  pose proof (ok_nodup _ (r_ok _ _ _ HR) h) as Hnd. unfold l_get in Hnd. by rewrite Hl in Hnd.
Qed.
Lemma repr_disjoint h l h' l' :
  L !! h = Some l → L !! h' = Some l' → h ≠ h' → ∀ x, x ∈ h :: l → x ∉ h' :: l'.
Proof.
  intros Hl Hl' Hne x Hx Hx'.
  pose proof (r_heads _ _ _ HR h h' l Hl (mk_is_Some _ _ Hl')).
  pose proof (r_heads _ _ _ HR h' h l' Hl' (mk_is_Some _ _ Hl)).
  apply elem_of_cons in Hx, Hx'. destruct Hx as [->|Hx], Hx' as [->|Hx']; try done.
  apply Hne, (ok_excl _ (r_ok _ _ _ HR) h h' x); unfold l_get; by rewrite ?Hl, ?Hl'.
Qed.

(** Linking a free node [n] into the list of [h] between [l1] and [l2]. *)
Lemma link_repr h l1 l2 n :
  L !! h = Some (l1 ++ l2) → n ∈ U →
  repr (link (last_node h l1) n (first_node l2 h) s) (<[h := l1 ++ n :: l2]> L) (U ∖ {[n]}).
Proof.
  intros Hl Hn. destruct (repr_cycle _ _ Hl) as [Hnd Hh].
  destruct (r_free _ _ _ HR n Hn) as (Hnn & Hnp & Hnh & Hnl).
  assert (Hnhl : n ∉ h :: l1 ++ l2).
  { rewrite elem_of_cons. specialize (Hnl h). unfold l_get in Hnl. rewrite Hl in Hnl. simpl in Hnl.
    intros [->|?]; congruence. }
  pose proof (last_node_in h l1) as Hla. pose proof (first_node_in l2 h) as Hfi.
  split.
  - intros h' l'. rewrite lookup_insert. case_decide as E; [subst h'; intros [= <-]|intros Hl'].
    + apply seg_link; [done|done|done|set_solver|by apply (r_seg _ _ _ HR)].
    + pose proof (repr_disjoint _ _ _ _ Hl Hl' E) as Hdis.
      assert (n ∉ h' :: l').
      { specialize (Hnl h'). unfold l_get in Hnl. rewrite Hl' in Hnl. simpl in Hnl.
        rewrite elem_of_cons. intros [->|?]; congruence. }
      pose proof (Hdis (last_node h l1) ltac:(set_solver)).
      pose proof (Hdis (first_node l2 h) ltac:(set_solver)).
      pose proof (r_seg _ _ _ HR _ _ Hl'). seg_frame_tac.
  - apply (l_perm_ok L _ h n); [apply (r_ok _ _ _ HR)|done| |].
    + rewrite l_get_insert, decide_True by done. unfold l_get. rewrite Hl. simpl.
      by rewrite Permutation_middle.
    + intros h' Hne. by rewrite l_get_insert, decide_False.
  - intros h1 h2 l. rewrite !lookup_insert.
    assert (is_Some (L !! h)) as Hsh by eauto.
    assert (∀ h2, is_Some (L !! h2) → h2 ∉ l1 ++ l2) by (intros ? ?; by eapply (r_heads _ _ _ HR)).
    case_decide as E1; [intros [= <-]|intros Hl1]; intros Hs2;
      assert (is_Some (L !! h2)) as Hs2' by (case_decide; subst; eauto).
    + specialize (H h2 Hs2'). destruct (decide (h2 = n)) as [->|]; [|set_solver].
      rewrite Hnh in Hs2'. by destruct Hs2'.
    + by eapply (r_heads _ _ _ HR).
  - intros m Hm. apply elem_of_difference in Hm as [Hm Hmn]. rewrite elem_of_singleton in Hmn.
    destruct (r_free _ _ _ HR m Hm) as (Hmn' & Hmp & Hmh & Hml).
    assert (m ∉ h :: l1 ++ l2).
    { rewrite elem_of_cons. specialize (Hml h). unfold l_get in Hml. rewrite Hl in Hml. simpl in Hml.
      intros [->|?]; congruence. }
    simpl. rewrite !lookup_insert_ne by set_solver. split_and!; [done..|].
    intros h'. rewrite l_get_insert. case_decide; [set_solver|auto].
Qed.

Lemma l_remove_lookup n h l' :
  l_remove n L !! h = Some l' → ∃ l, L !! h = Some l ∧ l' = filter (λ x, x ≠ n) l.
Proof.
  unfold l_remove. rewrite lookup_fmap. destruct (L !! h) as [l|]; simpl; intros [= <-]. eauto.
Qed.
Lemma filter_middle n (l1 l2 : list Z) :
  NoDup (l1 ++ n :: l2) → filter (λ x, x ≠ n) (l1 ++ n :: l2) = l1 ++ l2.
Proof.
  rewrite NoDup_app. intros (_ & Hd & [Hn _]%NoDup_cons).
  rewrite filter_app, filter_cons_False by naive_solver.
  rewrite !filter_ne_notin; [done|done|]. intros Hx. eapply Hd; [done|]. set_solver.
Qed.

Lemma unlink_repr h l1 l2 n :
  L !! h = Some (l1 ++ n :: l2) →
  repr (unlink (last_node h l1) n (first_node l2 h) s) (l_remove n L) (U ∪ {[n]}).
Proof.
  intros Hl. destruct (repr_cycle _ _ Hl) as [Hnd Hh].
  pose proof (last_node_in h l1) as Hla. pose proof (first_node_in l2 h) as Hfi.
  pose proof Hnd as [_ Hndl]%NoDup_cons.
  assert (Hnhd : L !! n = None).
  { destruct (L !! n) eqn:E; [|done]. exfalso.
    assert (n ∉ l1 ++ n :: l2) by (by eapply (r_heads _ _ _ HR)). set_solver. }
  split.
  - intros h' l' Hl'. apply l_remove_lookup in Hl' as (l & Hl' & ->).
    destruct (decide (h = h')) as [<-|E].
    + rewrite Hl in Hl'. simplify_eq. rewrite filter_middle by done.
      apply seg_unlink; [done|done|by apply (r_seg _ _ _ HR)].
    + pose proof (repr_disjoint _ _ _ _ Hl Hl' E) as Hdis.
      pose proof (Hdis n ltac:(set_solver)).
      pose proof (Hdis (last_node h l1) ltac:(set_solver)).
      pose proof (Hdis (first_node l2 h) ltac:(set_solver)).
      rewrite filter_ne_notin by set_solver.
      pose proof (r_seg _ _ _ HR _ _ Hl'). seg_frame_tac.
  - apply l_remove_ok, (r_ok _ _ _ HR).
  - intros h1 h2 l' Hl' [l2' Hl2]. apply l_remove_lookup in Hl' as (l & Hl' & ->).
    apply l_remove_lookup in Hl2 as (? & Hl2 & ->).
    rewrite list_elem_of_filter. intros [_ Hx]. revert Hx.
    by eapply (r_heads _ _ _ HR).
  - intros m Hm. destruct (decide (m = n)) as [->|Hmn].
    + simpl. rewrite !lookup_insert_eq. split_and!; [done..| |].
      * unfold l_remove. by rewrite lookup_fmap, Hnhd.
      * apply l_linked_false, l_remove_unlinked.
    + assert (m ∈ U) as HmU by set_solver.
      destruct (r_free _ _ _ HR m HmU) as (Hmn' & Hmp & Hmh & Hml).
      assert (m ∉ h :: l1 ++ n :: l2).
      { rewrite elem_of_cons. specialize (Hml h). unfold l_get in Hml. rewrite Hl in Hml. simpl in Hml.
        intros [->|?]; congruence. }
      simpl. rewrite !lookup_insert_ne by set_solver. split_and!; [done..| |].
      * unfold l_remove. by rewrite lookup_fmap, Hmh.
      * apply l_linked_false, l_remove_linked_other. by apply l_linked_false.
Qed.

Lemma free_node h l n : L !! h = Some l → n ∈ U →
  is_Some (nx s !! n) ∧ is_Some (pv s !! n) ∧ n ∉ h :: l.
Proof.
  intros Hl Hn. destruct (r_free _ _ _ HR n Hn) as (-> & -> & Hnh & Hnl).
  split_and!; [eauto..|]. specialize (Hnl h). unfold l_get in Hnl. rewrite Hl in Hnl.
  rewrite elem_of_cons. intros [->|?]; [congruence|done].
Qed.
End refinement.

(** [rt_list_insert_after] called on any element of a cycle (the head, or
    the last node of [l1]) and [rt_list_insert_before] called on its successor
    (the first node of [l2], or the head) both return and leave the heap
    representing the family in which the new node stands between [l1] and
    [l2]; every other list is unchanged. *)
Theorem rt_list_insert_refines s L U h l1 l2 n :
  repr s L U → L !! h = Some (l1 ++ l2) → n ∈ U →
  ∃ s', rt_list_insert_after (last_node h l1) n s = Done tt s' ∧
        rt_list_insert_before (first_node l2 h) n s = Done tt s' ∧
        repr s' (<[h := l1 ++ n :: l2]> L) (U ∖ {[n]}).
Proof.
  intros HR Hl Hn. exists (link (last_node h l1) n (first_node l2 h) s).
  destruct (free_node _ _ _ HR _ _ _ Hl Hn) as (? & ? & Hnl).
  destruct (seg_adjacent _ _ _ _ _ (r_seg _ _ _ HR _ _ Hl)) as [Hx Hp].
  pose proof (last_node_in h l1). pose proof (first_node_in l2 h).
  split_and!; [apply insert_after_link; set_solver|apply insert_before_link; set_solver|].
  by apply link_repr.
Qed.

(** [rt_list_remove] of a linked node returns, takes the node out of the
    one list it is in and leaves it linked to itself; removing a node that is
    linked to nothing changes nothing. *)
Theorem rt_list_remove_refines s L U n :
  repr s L U → (n ∈ U ∨ ∃ h, n ∈ l_get L h) →
  ∃ s', rt_list_remove n s = Done tt s' ∧ repr s' (l_remove n L) (U ∪ {[n]}).
Proof.
  intros HR [Hn|[h Hn]].
  - destruct (r_free _ _ _ HR n Hn) as (Hx & Hp & Hh & Hl). exists s.
    assert (l_remove n L = L) as ->.
    { apply map_eq. intros h. unfold l_remove. rewrite lookup_fmap.
      destruct (L !! h) as [l|] eqn:E; simpl; [|done]. rewrite filter_ne_notin; [done|].
      specialize (Hl h). unfold l_get in Hl. by rewrite E in Hl. }
    replace (U ∪ {[n]}) with U by set_solver. split; [|done].
    destruct s as [nxs pvs]. simpl in *. unfold rt_list_remove.
    unfold mbind, SM_bind, get_next, get_prev, set_next, set_prev. simpl.
    repeat (first [rewrite Hx | rewrite Hp | rewrite insert_id by done]; simpl). done.
  - unfold l_get in Hn. destruct (L !! h) as [l|] eqn:E; [|by apply not_elem_of_nil in Hn].
    simpl in Hn. apply list_elem_of_split in Hn as (l1 & l2 & ->).
    exists (unlink (last_node h l1) n (first_node l2 h) s). split; [|by apply unlink_repr].
    destruct (repr_cycle _ _ _ HR _ _ E) as [Hnd Hh].
    pose proof (r_seg _ _ _ HR _ _ E) as Hs.
    destruct (seg_adjacent _ _ _ _ _ Hs) as [Hx Hp]. simpl in Hx, Hp.
    replace (l1 ++ n :: l2) with ((l1 ++ [n]) ++ l2) in Hs by by rewrite <- app_assoc.
    destruct (seg_adjacent _ _ _ _ _ Hs) as [Hx' Hp'].
    assert (last_node h (l1 ++ [n]) = n) as HL.
    { clear. revert h. induction l1; intros h; simpl; auto. }
    rewrite HL in Hx', Hp'.
    pose proof (last_node_in h l1). pose proof (first_node_in l2 h).
    rewrite app_comm_cons, NoDup_app in Hnd. destruct Hnd as (_ & Hd & [Hnl _]%NoDup_cons).
    apply remove_unlink; [done|done|done|by right| |].
    + intros E'. apply (Hd n); [by rewrite E'|set_solver].
    + set_solver.
Qed.
(** The head 1 with the node 2, and the node 3 linked to nothing. *)
Definition ring1 : heap := Heap {[1 := 2; 2 := 1; 3 := 3]} {[1 := 2; 2 := 1; 3 := 3]}.
Lemma ring1_repr : repr ring1 {[1 := [2]]} {[3]}.
Proof.
  assert (Hl : ∀ h, l_get ({[1 := [2]]} : gmap Z (list Z)) h = if decide (1 = h) then [2] else []).
  { intros h. unfold l_get. rewrite lookup_singleton. by case_decide. }
  split.
  - intros h l [<- <-]%lookup_singleton_Some. by split_and!.
  - split.
    + intros h. rewrite Hl. case_decide; [apply NoDup_singleton|constructor].
    + intros h1 h2 n. rewrite !Hl. repeat case_decide; set_solver.
  - intros h h' l [<- <-]%lookup_singleton_Some [? [<- _]%lookup_singleton_Some]. set_solver.
  - intros n ->%elem_of_singleton. split_and!; try done. intros h. rewrite Hl. case_decide; set_solver.
Qed.

Lemma rt_list_insert_refines_witness :
  ∃ s', rt_list_insert_after 2 3 ring1 = Done tt s' ∧ rt_list_insert_before 1 3 ring1 = Done tt s' ∧
        repr s' (<[1 := [2; 3]]> {[1 := [2]]}) ({[3]} ∖ {[3]}).
Proof.
  apply (rt_list_insert_refines ring1 {[1 := [2]]} {[3]} 1 [2] [] 3); [apply ring1_repr|done|set_solver].
Defined.
Lemma rt_list_remove_refines_witness :
  ∃ s', rt_list_remove 2 ring1 = Done tt s' ∧ repr s' (l_remove 2 {[1 := [2]]}) ({[3]} ∪ {[2]}).
Proof.
  apply (rt_list_remove_refines ring1 {[1 := [2]]} {[3]} 2); [apply ring1_repr|].
  right. exists 1. by left.
Defined.
End Ptr.
