(* ===== verification/Ffs.v ===== *)
(** [__rt_ffs] of [rt-thread/src/kservice.c]: the table-driven search for the
    lowest bit set in a 32 bit word, which the scheduler uses to find the
    highest ready priority.  The theorem shows that the four table look-ups
    agree with the definition of find-first-set. *)

From stdpp Require Import base list.
From Stdlib Require Import ZArith Lia.
From S2P Require Import Prelude.

Open Scope Z_scope.

Definition lowest_bit_bitmap : list Z :=
  [0; 0; 1; 0; 2; 0; 1; 0; 3; 0; 1; 0; 2; 0; 1; 0;
   4; 0; 1; 0; 2; 0; 1; 0; 3; 0; 1; 0; 2; 0; 1; 0;
   5; 0; 1; 0; 2; 0; 1; 0; 3; 0; 1; 0; 2; 0; 1; 0;
   4; 0; 1; 0; 2; 0; 1; 0; 3; 0; 1; 0; 2; 0; 1; 0;
   6; 0; 1; 0; 2; 0; 1; 0; 3; 0; 1; 0; 2; 0; 1; 0;
   4; 0; 1; 0; 2; 0; 1; 0; 3; 0; 1; 0; 2; 0; 1; 0;
   5; 0; 1; 0; 2; 0; 1; 0; 3; 0; 1; 0; 2; 0; 1; 0;
   4; 0; 1; 0; 2; 0; 1; 0; 3; 0; 1; 0; 2; 0; 1; 0;
   7; 0; 1; 0; 2; 0; 1; 0; 3; 0; 1; 0; 2; 0; 1; 0;
   4; 0; 1; 0; 2; 0; 1; 0; 3; 0; 1; 0; 2; 0; 1; 0;
   5; 0; 1; 0; 2; 0; 1; 0; 3; 0; 1; 0; 2; 0; 1; 0;
   4; 0; 1; 0; 2; 0; 1; 0; 3; 0; 1; 0; 2; 0; 1; 0;
   6; 0; 1; 0; 2; 0; 1; 0; 3; 0; 1; 0; 2; 0; 1; 0;
   4; 0; 1; 0; 2; 0; 1; 0; 3; 0; 1; 0; 2; 0; 1; 0;
   5; 0; 1; 0; 2; 0; 1; 0; 3; 0; 1; 0; 2; 0; 1; 0;
   4; 0; 1; 0; 2; 0; 1; 0; 3; 0; 1; 0; 2; 0; 1; 0].

(** An access of the table, as C indexes it. *)
Definition bitmap_at (i : Z) : Z := default 0 (lowest_bit_bitmap !! Z.to_nat i).

Definition rt_ffs (value : Z) : Z :=
  if value =? 0 then 0
  else if flag_test value 0xff then bitmap_at (Z.land value 0xff) + 1
  else if flag_test value 0xff00 then
    bitmap_at (Z.shiftr (Z.land value 0xff00) 8) + 9
  else if flag_test value 0xff0000 then
    bitmap_at (Z.shiftr (Z.land value 0xff0000) 16) + 17
  else bitmap_at (Z.shiftr (Z.land value 0xff000000) 24) + 25.

(** The definition: [k] is the position of the lowest bit set. *)
Definition is_lowest_bit (v k : Z) : Prop :=
  0 ≤ k ∧ Z.testbit v k = true ∧ ∀ j, 0 ≤ j < k → Z.testbit v j = false.

Lemma is_lowest_bit_unique v k k' : is_lowest_bit v k → is_lowest_bit v k' → k = k'.
Proof.
  intros (? & Hk & Hl) (? & Hk' & Hl').
  destruct (Z.lt_trichotomy k k') as [Hlt|[?|Hlt]]; [|done|].
  - rewrite Hl' in Hk by lia. done.
  - rewrite Hl in Hk' by lia. done.
Qed.

(** ** The table *)

Definition lowest_bit_check (b k : Z) : bool :=
  Z.testbit b k && forallb (λ j, negb (Z.testbit b (Z.of_nat j))) (seq 0 (Z.to_nat k)).

Lemma bitmap_checked :
  forallb (λ i, let b := Z.of_nat i in
    (0 <=? bitmap_at b) && (bitmap_at b <? 8) && lowest_bit_check b (bitmap_at b)) (seq 1 255) = true.
Proof. vm_compute. reflexivity. Qed.

Lemma bitmap_at_spec b :
  0 < b < 256 → bitmap_at b < 8 ∧ is_lowest_bit b (bitmap_at b).
Proof.
  intros Hb. pose proof bitmap_checked as Hc. rewrite forallb_forall in Hc.
  specialize (Hc (Z.to_nat b)). rewrite in_seq, Z2Nat.id in Hc by lia.
  specialize (Hc ltac:(lia)). cbv zeta in Hc.
  apply andb_prop in Hc as [[H0 H8]%andb_prop [Ht Hf]%andb_prop].
  rewrite forallb_forall in Hf.
  split; [lia|]. split_and!; [lia|done|].
  intros j Hj. specialize (Hf (Z.to_nat j)). rewrite in_seq, Z2Nat.id in Hf by lia.
  by apply negb_true_iff, Hf; lia.
Qed.

(** ** Bytes of a word *)

Definition byte_of (v k : Z) : Z := Z.shiftr (Z.land v (Z.shiftl 0xff k)) k.

Lemma byte_of_bits v k j :
  0 ≤ k → 0 ≤ j → Z.testbit (byte_of v k) j = (j <? 8) && Z.testbit v (k + j).
Proof.
  intros Hk Hj. unfold byte_of.
  rewrite Z.shiftr_spec, Z.land_spec, Z.shiftl_spec by lia.
  replace (j + k - k) with j by lia. replace (j + k) with (k + j) by lia.
  change 255 with (Z.ones 8). rewrite Z.testbit_ones by lia.
  rewrite (proj2 (Z.leb_le 0 j) Hj), andb_true_l, andb_comm. done.
Qed.
Lemma byte_of_range v k : 0 ≤ k → 0 ≤ v → 0 ≤ byte_of v k < 256.
Proof.
  intros Hk Hv. unfold byte_of. rewrite Z.shiftr_land, Z.shiftr_shiftl_l, Z.sub_diag by lia.
  change (Z.shiftl 255 0) with (Z.ones 8). rewrite Z.land_ones by lia.
  apply (Z.mod_pos_bound _ 256). lia.
Qed.
Lemma byte_of_lowest v k m :
  0 ≤ k → is_lowest_bit (byte_of v k) m → m < 8 →
  (∀ j, 0 ≤ j < k → Z.testbit v j = false) → is_lowest_bit v (k + m).
Proof.
  intros Hk (Hm & Ht & Hl) Hm8 Hlow. split_and!; [lia| |].
  - rewrite byte_of_bits in Ht by lia. by apply andb_prop in Ht as [_ ?].
  - intros j Hj. destruct (Z.lt_ge_cases j k); [apply Hlow; lia|].
    specialize (Hl (j - k)). rewrite byte_of_bits in Hl by lia.
    replace (k + (j - k)) with j in Hl by lia. rewrite (proj2 (Z.ltb_lt _ _)) in Hl by lia.
    apply Hl. lia.
Qed.
Lemma byte_zero_bits v k j :
  0 ≤ k → byte_of v k = 0 → k ≤ j < k + 8 → Z.testbit v j = false.
Proof.
  intros Hk H0 Hj. pose proof (byte_of_bits v k (j - k)) as Hb.
  rewrite H0, Z.bits_0, (proj2 (Z.ltb_lt _ _)) in Hb by lia.
  replace (k + (j - k)) with j in Hb by lia. symmetry. apply Hb; lia.
Qed.
Lemma byte_of_zero v k : 0 ≤ k → (Z.land v (Z.shiftl 255 k) =? 0) = (byte_of v k =? 0).
Proof.
  intros Hk. apply eq_true_iff_eq. rewrite !Z.eqb_eq. split.
  - unfold byte_of. intros ->. apply Z.shiftr_0_l.
  - intros H0. apply Z.bits_inj'. intros j Hj. rewrite Z.bits_0, Z.land_spec, Z.shiftl_spec by lia.
    change 255 with (Z.ones 8). rewrite Z.testbit_ones by lia.
    destruct (Z.leb_spec 0 (j - k)), (Z.ltb_spec (j - k) 8); simpl; rewrite ?andb_false_r; try done.
    rewrite (byte_zero_bits v k j); [done|lia|done|lia].
Qed.

(** One look-up: the byte at [k] is the first non-zero one. *)
Lemma ffs_lookup v k :
  0 ≤ v → 0 ≤ k ≤ 24 → byte_of v k ≠ 0 → (∀ j, 0 ≤ j < k → Z.testbit v j = false) →
  is_lowest_bit v (bitmap_at (byte_of v k) + (k + 1) - 1) ∧
  1 ≤ bitmap_at (byte_of v k) + (k + 1) ≤ 32.
Proof.
  intros Hv Hk Hne Hlow. pose proof (byte_of_range v k ltac:(lia) Hv).
  destruct (bitmap_at_spec (byte_of v k) ltac:(lia)) as [H8 Hl].
  replace (bitmap_at (byte_of v k) + (k + 1) - 1) with (k + bitmap_at (byte_of v k)) by lia.
  split; [apply byte_of_lowest; auto with lia|]. destruct Hl as (? & _). lia.
Qed.

Lemma low_bits_extend v k :
  0 ≤ k → byte_of v k = 0 → (∀ j, 0 ≤ j < k → Z.testbit v j = false) →
  ∀ j, 0 ≤ j < k + 8 → Z.testbit v j = false.
Proof.
  intros Hk H0 Hlow j Hj. destruct (Z.lt_ge_cases j k); [apply Hlow; lia|].
  apply (byte_zero_bits v k); auto with lia.
Qed.

Lemma low_bits_zero v : 0 ≤ v < 2 ^ 32 → (∀ j, 0 ≤ j < 32 → Z.testbit v j = false) → v = 0.
Proof.
  intros Hv Hlow. apply Z.bits_inj'. intros j Hj. rewrite Z.bits_0.
  destruct (Z.lt_ge_cases j 32); [apply Hlow; lia|].
  rewrite <- (Z.mod_small v (2 ^ 32)) by lia. apply Z.mod_pow2_bits_high. lia.
Qed.

(** [__rt_ffs] in terms of the bytes of its argument. *)
Lemma rt_ffs_bytes v :
  v ≠ 0 → rt_ffs v =
    if byte_of v 0 =? 0 then
      if byte_of v 8 =? 0 then
        if byte_of v 16 =? 0 then bitmap_at (byte_of v 24) + (24 + 1)
        else bitmap_at (byte_of v 16) + (16 + 1)
      else bitmap_at (byte_of v 8) + (8 + 1)
    else bitmap_at (byte_of v 0) + (0 + 1).
Proof.
  intros Hv. unfold rt_ffs, flag_test. rewrite (proj2 (Z.eqb_neq v 0)) by done.
  change 0xff with (Z.shiftl 0xff 0). change 0xff00 with (Z.shiftl 0xff 8).
  change 0xff0000 with (Z.shiftl 0xff 16). change 0xff000000 with (Z.shiftl 0xff 24).
  rewrite !byte_of_zero by lia.
  replace (Z.land v (Z.shiftl 255 0)) with (byte_of v 0)
    by (unfold byte_of; by rewrite Z.shiftr_0_r).
  fold (byte_of v 8) (byte_of v 16) (byte_of v 24).
  by destruct (byte_of v 0 =? 0), (byte_of v 8 =? 0), (byte_of v 16 =? 0).
Qed.

Lemma rt_ffs_lowest v :
  0 < v < 2 ^ 32 → is_lowest_bit v (rt_ffs v - 1) ∧ 1 ≤ rt_ffs v ≤ 32.
Proof.
  intros Hv. rewrite rt_ffs_bytes by lia.
  assert (Hlow0 : ∀ j, 0 ≤ j < 0 → Z.testbit v j = false) by (intros; lia).
  destruct (Z.eqb_spec (byte_of v 0) 0) as [E0|E0]; [|apply ffs_lookup; auto with lia].
  pose proof (low_bits_extend v 0 ltac:(lia) E0 Hlow0) as Hlow8.
  destruct (Z.eqb_spec (byte_of v 8) 0) as [E8|E8]; [|apply ffs_lookup; auto with lia].
  pose proof (low_bits_extend v 8 ltac:(lia) E8 Hlow8) as Hlow16.
  destruct (Z.eqb_spec (byte_of v 16) 0) as [E16|E16]; [|apply ffs_lookup; auto with lia].
  pose proof (low_bits_extend v 16 ltac:(lia) E16 Hlow16) as Hlow24.
  apply ffs_lookup; [lia|lia| |auto]. intros E24.
  enough (v = 0) by lia. apply low_bits_zero; [lia|].
  exact (low_bits_extend v 24 ltac:(lia) E24 Hlow24).
Qed.

(** [__rt_ffs] is find-first-set: on every non-zero 32 bit word it returns
    [k + 1] exactly for the position [k] of the lowest bit set, which is below
    32, and on zero it returns 0. *)
Theorem rt_ffs_correct v k :
  0 ≤ v < 2 ^ 32 →
  (rt_ffs v = k + 1 ∧ 0 ≤ k ↔ is_lowest_bit v k ∧ k < 32) ∧ (rt_ffs v = 0 ↔ v = 0).
Proof.
  intros Hv. destruct (Z.eq_dec v 0) as [->|Hne].
  - split; [|done]. split; [cbn; lia|]. intros [(_ & Hb & _) _]. by rewrite Z.bits_0 in Hb.
  - destruct (rt_ffs_lowest v ltac:(lia)) as [Hl Hr]. split; [|lia]. split.
    + intros [E ?]. rewrite E in Hl. replace (k + 1 - 1) with k in Hl by lia. split; [done|lia].
    + intros [Hk ?]. pose proof (is_lowest_bit_unique _ _ _ Hl Hk). destruct Hk. lia.
Qed.

Lemma rt_ffs_correct_witness :
  (rt_ffs 0x8400 = 10 + 1 ∧ 0 ≤ 10 ↔ is_lowest_bit 0x8400 10 ∧ 10 < 32) ∧
  (rt_ffs 0x8400 = 0 ↔ 0x8400 = 0).
Proof. apply (rt_ffs_correct 0x8400 10). lia. Defined.
