(* ===== verification/Kservice.v ===== *)
(** The string routines of [rt-thread/src/kservice.c].

    A pointer into a buffer is the list of the bytes from it to the end of the
    buffer, so that [*p++] takes the head of the list and a read past the end
    of the buffer is visible: it yields [None].  Bytes are unsigned ([char] is
    unsigned on Xtensa).  A C string is a list with a terminating zero
    ([cstr]). *)

From stdpp Require Import base list option.
From Stdlib Require Import ZArith Lia.
From S2P Require Import Prelude.

Open Scope Z_scope.

(** [(signed char)] of a difference. *)
Definition i8 (x : Z) : Z := (x + 2 ^ 7) mod 2 ^ 8 - 2 ^ 7.

Fixpoint rt_strlen (s : list Z) : option Z :=
  match s with
  | [] => None
  | c :: s' => if c =? 0 then Some 0 else n ← rt_strlen s'; Some (n + 1)
  end.

(** The loop tests [*sc] before the bound, as the source does. *)
Fixpoint rt_strnlen (s : list Z) (maxlen : nat) : option Z :=
  match s with
  | [] => None
  | c :: s' =>
    if c =? 0 then Some 0
    else match maxlen with
         | O => Some 0
         | S m => n ← rt_strnlen s' m; Some (n + 1)
         end
  end.

Fixpoint rt_strcmp (cs ct : list Z) : option Z :=
  match cs, ct with
  | c :: cs', d :: ct' =>
    if negb (c =? 0) && (c =? d) then rt_strcmp cs' ct' else Some (c - d)
  | _, _ => None
  end.

(** [res] is the value of [__res] when the loop is entered. *)
Fixpoint rt_strncmp_loop (res : Z) (cs ct : list Z) (count : nat) : option Z :=
  match count with
  | O => Some res
  | S count' =>
    match cs, ct with
    | c :: cs', d :: ct' =>
      let r := i8 (c - d) in
      if negb (r =? 0) || (c =? 0) then Some r else rt_strncmp_loop r cs' ct' count'
    | _, _ => None
    end
  end.
Definition rt_strncmp (cs ct : list Z) (count : nat) : option Z := rt_strncmp_loop 0 cs ct count.

Definition to_lower (c : Z) : Z := if (65 <=? c) && (c <=? 90) then c + 32 else c.
Fixpoint rt_strcasecmp (a b : list Z) : option Z :=
  match a, b with
  | x :: a', y :: b' =>
    let ca := to_lower (Z.land x 0xff) in
    let cb := to_lower (Z.land y 0xff) in
    if (ca =? cb) && negb (ca =? 0) then rt_strcasecmp a' b' else Some (u32 (ca - cb))
  | _, _ => None
  end.

Fixpoint rt_memcmp (cs ct : list Z) (count : nat) : option Z :=
  match count with
  | O => Some 0
  | S count' =>
    match cs, ct with
    | c :: cs', d :: ct' => if c - d =? 0 then rt_memcmp cs' ct' count' else Some (c - d)
    | _, _ => None
    end
  end.

(** The buffer at [dst] after the zero padding of its next [n] bytes. *)
Fixpoint nul_pad (dst : list Z) (n : nat) : option (list Z) :=
  match n, dst with
  | O, _ => Some dst
  | S n', _ :: dst' => r ← nul_pad dst' n'; Some (0 :: r)
  | S _, [] => None
  end.
(** The buffer at [dst] after the call. *)
Fixpoint rt_strncpy (dst src : list Z) (n : nat) : option (list Z) :=
  match n with
  | O => Some dst
  | S n' =>
    match dst, src with
    | _ :: dst', c :: src' =>
      if c =? 0 then r ← nul_pad dst' n'; Some (c :: r)
      else r ← rt_strncpy dst' src' n'; Some (c :: r)
    | _, _ => None
    end
  end.

(** The scan of [rt_strstr], from [s1] with [l1] characters left: the offset of
    the occurrence in the original string. *)
Fixpoint rt_strstr_loop (fuel : nat) (s1 s2 : list Z) (l1 l2 off : Z) : option (option Z) :=
  if l1 >=? l2 then
    match fuel with
    | O => None
    | S fuel' =>
      r ← rt_memcmp s1 s2 (Z.to_nat l2);
      if r =? 0 then Some (Some off)
      else match s1 with
           | _ :: s1' => rt_strstr_loop fuel' s1' s2 (l1 - 1) l2 (off + 1)
           | [] => None
           end
    end
  else Some None.
Definition rt_strstr (s1 s2 : list Z) : option (option Z) :=
  l2 ← rt_strlen s2;
  if l2 =? 0 then Some (Some 0)
  else l1 ← rt_strlen s1; rt_strstr_loop (S (length s1)) s1 s2 l1 l2 0.

(** * Properties *)

(** The characters of a C string: bytes other than zero. *)
Definition chars (s : list Z) : Prop := Forall (λ c, 0 < c < 2 ^ 8) s.

Lemma i8_zero c d : 0 ≤ c < 2 ^ 8 → 0 ≤ d < 2 ^ 8 → i8 (c - d) = 0 ↔ c = d.
Proof.
  intros Hc Hd. unfold i8. split; [|intros ->; by rewrite Z.sub_diag].
  intros E. Z.to_euclidean_division_equations. lia.
Qed.

Lemma strlen_chars s r : chars s → rt_strlen (s ++ 0 :: r) = Some (Z.of_nat (length s)).
Proof.
  induction 1 as [|c s Hc Hs IH]; [done|]. simpl. rewrite (proj2 (Z.eqb_neq c 0)) by lia.
  rewrite IH. simpl. f_equal. lia.
Qed.

Lemma strcmp_chars s t r q :
  chars s → chars t →
  ∃ v, rt_strcmp (s ++ 0 :: r) (t ++ 0 :: q) = Some v ∧ (v = 0 ↔ s = t).
Proof.
  intros Hs. revert t. induction Hs as [|c s Hc Hs IH]; intros t Ht; destruct Ht as [|d t Hd Ht]; simpl.
  - by exists 0.
  - exists (0 - d). split; [done|]. split; [lia|done].
  - rewrite (proj2 (Z.eqb_neq c 0)) by lia. simpl. exists (c - 0). split; [|split; [lia|done]].
    by destruct s.
  - rewrite (proj2 (Z.eqb_neq c 0)) by lia. simpl. destruct (Z.eqb_spec c d) as [->|Hne].
    + destruct (IH t Ht) as (v & -> & Hv). exists v. split; [done|]. rewrite Hv. naive_solver.
    + exists (c - d). split; [done|]. split; [lia|naive_solver].
Qed.

(** [v] is the value [__res] has before the first character is read. *)
Lemma strncmp_chars n s t r q v :
  chars s → chars t → (0 < n)%nat ∨ v = 0 →
  ∃ w, rt_strncmp_loop v (s ++ 0 :: r) (t ++ 0 :: q) n = Some w ∧ (w = 0 ↔ take n s = take n t).
Proof.
  intros Hs. revert t n v.
  induction Hs as [|c s Hc Hs IH]; intros t [|n] v Ht Hv; [exists v; naive_solver lia| |exists v; naive_solver lia|];
    destruct Ht as [|d t Hd Ht]; simpl.
  - by exists 0.
  - exists (i8 (0 - d)). rewrite (proj2 (Z.eqb_neq _ 0)) by (rewrite i8_zero; lia). simpl.
    split; [done|]. rewrite i8_zero by lia. split; [lia|done].
  - exists (i8 (c - 0)). rewrite (proj2 (Z.eqb_neq (i8 _) 0)) by (rewrite i8_zero; lia). simpl.
    split; [done|]. rewrite i8_zero by lia. split; [lia|done].
  - rewrite (proj2 (Z.eqb_neq c 0)), orb_false_r by lia. destruct (Z.eqb_spec (i8 (c - d)) 0) as [E|Hne]; simpl.
    + rewrite E. apply i8_zero in E as ->; [|lia..]. destruct (IH t n 0 Ht) as (w & -> & Hw); [by right|].
      exists w. split; [done|]. rewrite Hw. simpl. split; [by intros ->|by intros [= ->]].
    + exists (i8 (c - d)). split; [done|]. split; [done|]. intros [= -> ?].
      destruct Hne. apply i8_zero; lia.
Qed.

Lemma memcmp_prefix s t r q :
  (length t ≤ length s)%nat →
  ∃ v, rt_memcmp (s ++ r) (t ++ q) (length t) = Some v ∧ (v = 0 ↔ t `prefix_of` s).
Proof.
  revert s. induction t as [|d t IH]; intros s Hl; simpl.
  { exists 0. split; [by destruct (s ++ r)|]. split; [intros _; apply prefix_nil|done]. }
  destruct s as [|c s]; simpl in Hl; [lia|]. simpl. destruct (Z.eqb_spec (c - d) 0) as [E|Hne].
  - assert (c = d) as -> by lia. destruct (IH s) as (v & -> & Hv); [lia|]. exists v. split; [done|].
    rewrite Hv. split; [apply prefix_cons|apply prefix_cons_inv_2].
  - exists (c - d). split; [done|]. split; [done|]. intros H%prefix_cons_inv_1. lia.
Qed.

(** The offset of the first occurrence of [t] in [s]. *)
Definition first_occurrence (s t : list Z) (off : nat) : Prop :=
  t `prefix_of` drop off s ∧ ∀ k, (k < off)%nat → ¬ t `prefix_of` drop k s.

Lemma strstr_loop_spec fuel s t r q off :
  chars s → chars t → t ≠ [] → (length s < fuel)%nat →
  match rt_strstr_loop fuel (s ++ 0 :: r) (t ++ 0 :: q) (Z.of_nat (length s)) (Z.of_nat (length t)) off with
  | Some (Some o) => ∃ k, o = off + Z.of_nat k ∧ first_occurrence s t k
  | Some None => ∀ k, ¬ t `prefix_of` drop k s
  | None => False
  end.
Proof.
  intros Hs Ht Hnil. revert s Hs off. induction fuel as [|fuel IH]; intros s Hs off Hf; [lia|]. simpl.
  rewrite Z.geb_leb. destruct (Z.leb_spec (Z.of_nat (length t)) (Z.of_nat (length s))) as [Hle|Hgt].
  - rewrite Nat2Z.id. destruct (memcmp_prefix s t (0 :: r) (0 :: q)) as (v & -> & Hv); [lia|]. simpl.
    destruct (Z.eqb_spec v 0) as [Ev|Ev].
    + exists 0%nat. split; [lia|]. split; [by apply Hv|lia].
    + destruct s as [|c s]; [by destruct t|]. simpl. inversion Hs as [|??? Hs']; subst.
      specialize (IH s Hs' (off + 1)). simpl in Hf. replace (Z.of_nat (S (length s)) - 1) with (Z.of_nat (length s)) by lia.
      assert (¬ t `prefix_of` c :: s) as Hno by naive_solver.
      specialize (IH ltac:(lia)). case_match; [|done]. case_match.
      * destruct IH as (k & -> & Hp & Hk). exists (S k). split; [lia|]. split; [done|].
        intros [|j] Hj; [done|]. apply Hk. lia.
      * intros [|k]; [done|]. apply IH.
  - intros k Hp%prefix_length. rewrite length_drop in Hp. lia.
Qed.

(** [rt_strstr] on two C strings stays within them and returns the offset of
    the first occurrence of the second in the first, [RT_NULL] ([Some None])
    when there is none. *)
Theorem rt_strstr_correct s t r q :
  chars s → chars t →
  ∃ res, rt_strstr (s ++ 0 :: r) (t ++ 0 :: q) = Some res ∧
    match res with
    | Some off => ∃ k, off = Z.of_nat k ∧ first_occurrence s t k
    | None => ∀ k, ¬ t `prefix_of` drop k s
    end.
Proof.
  intros Hs Ht. unfold rt_strstr. rewrite (strlen_chars t) by done. simpl. destruct t as [|d t].
  - exists (Some 0). split; [done|]. exists 0%nat. split; [done|]. split; [apply prefix_nil|lia].
  - rewrite (proj2 (Z.eqb_neq _ 0)) by (simpl; lia). rewrite (strlen_chars s) by done.
    pose proof (strstr_loop_spec (S (length (s ++ 0 :: r))) s (d :: t) r q 0 Hs Ht) as H.
    rewrite length_app in H. specialize (H ltac:(done) ltac:(lia)). rewrite length_app.
    change (Some (Z.of_nat (length s)) ≫= ?f) with (f (Z.of_nat (length s))).
    cbv beta. case_match; [|done]. eauto.
Qed.

(** [rt_strcmp] reads no further than the terminators and is zero exactly on
    equal strings; [rt_strncmp] with a bound of [n] is zero exactly when the
    first [n] characters agree; [rt_strlen] is the length of the string. *)
Theorem rt_strcmp_correct s t r q n :
  chars s → chars t →
  rt_strlen (s ++ 0 :: r) = Some (Z.of_nat (length s)) ∧
  (∃ v, rt_strcmp (s ++ 0 :: r) (t ++ 0 :: q) = Some v ∧ (v = 0 ↔ s = t)) ∧
  (∃ v, rt_strncmp (s ++ 0 :: r) (t ++ 0 :: q) n = Some v ∧ (v = 0 ↔ take n s = take n t)).
Proof.
  intros Hs Ht. split_and!; [by apply strlen_chars|by apply strcmp_chars|].
  apply strncmp_chars; auto.
Qed.

Lemma rt_strcmp_correct_witness :
  rt_strlen [97; 98; 0] = Some 2 ∧
  (∃ v, rt_strcmp [97; 98; 0] [97; 99; 0] = Some v ∧ (v = 0 ↔ [97; 98] = [97; 99])) ∧
  (∃ v, rt_strncmp [97; 98; 0] [97; 99; 0] 1 = Some v ∧ (v = 0 ↔ [97] = [97])).
Proof. apply (rt_strcmp_correct [97; 98] [97; 99] [] [] 1); repeat constructor. Defined.
Lemma rt_strstr_correct_witness :
  ∃ res, rt_strstr [97; 98; 97; 0] [98; 0] = Some res ∧
    match res with
    | Some off => ∃ k, off = Z.of_nat k ∧ first_occurrence [97; 98; 97] [98] k
    | None => ∀ k, ¬ [98] `prefix_of` drop k [97; 98; 97]
    end.
Proof. apply (rt_strstr_correct [97; 98; 97] [98] [] []); repeat constructor. Defined.
