(* ===== verification/Memory.v ===== *)
(** The memory routines of [rt-thread/src/kservice.c]: [rt_memset], [rt_memcpy] and
    [rt_memmove] on a byte-addressed memory, with the word loops of the source, and
    their equivalence with the byte-wise reference. *)

From stdpp Require Import base list sets.
From Stdlib Require Import ZArith Lia.
From S2P Require Import Prelude.

Open Scope Z_scope.

(** * Memory *)

(** A byte per address; two memories are equal when they hold the same bytes. *)
Definition memory := Z → Z.
#[global] Instance memory_equiv : Equiv memory := λ m m', ∀ a, m a = m' a.
#[global] Instance memory_equivalence : Equivalence (≡@{memory}).
Proof.
  split; [by intros m a|by intros m m' H a|]. intros m1 m2 m3 H1 H2 a. by rewrite H1.
Qed.

Definition store (p v : Z) (m : memory) : memory := λ a, if a =? p then v else m a.
#[global] Instance store_proper p v : Proper ((≡) ==> (≡)) (store p v).
Proof. intros m m' Hm a. unfold store. case_match; [done|apply Hm]. Qed.

(** The [k]th byte of a word, and 32-bit accesses (little endian). *)
Definition byte (k w : Z) : Z := (w / 2 ^ (8 * k)) mod 2 ^ 8.
Definition store32 (p w : Z) (m : memory) : memory :=
  store (p + 3) (byte 3 w) (store (p + 2) (byte 2 w) (store (p + 1) (byte 1 w) (store p (byte 0 w) m))).
Definition load32 (p : Z) (m : memory) : Z :=
  m p + 2 ^ 8 * m (p + 1) + 2 ^ 16 * m (p + 2) + 2 ^ 24 * m (p + 3).

(** Memory holds bytes. *)
Definition bytes (m : memory) : Prop := ∀ a, 0 ≤ m a < 2 ^ 8.

(** * The routines *)

(** [sizeof(rt_int32_t)] and the test of the two low address bits. *)
Definition LBLOCKSIZE : Z := 4.
Definition UNALIGNED (p : Z) : bool := negb (Z.land p (LBLOCKSIZE - 1) =? 0).

Fixpoint set_bytes (n : nat) (p d : Z) (m : memory) : memory :=
  match n with O => m | S n' => set_bytes n' (p + 1) d (store p d m) end.

(** [while (count >= LBLOCKSIZE * 4)] and [while (count >= LBLOCKSIZE)]: the pointer,
    the count and the memory after the loop. *)
Fixpoint set_big (fuel : nat) (p count w : Z) (m : memory) : option (Z * Z * memory) :=
  if 4 * LBLOCKSIZE <=? count then
    match fuel with
    | O => None
    | S fuel' => set_big fuel' (p + 16) (count - 4 * LBLOCKSIZE) w
        (store32 (p + 12) w (store32 (p + 8) w (store32 (p + 4) w (store32 p w m))))
    end
  else Some (p, count, m).
Fixpoint set_words (fuel : nat) (p count w : Z) (m : memory) : option (Z * Z * memory) :=
  if LBLOCKSIZE <=? count then
    match fuel with
    | O => None
    | S fuel' => set_words fuel' (p + 4) (count - LBLOCKSIZE) w (store32 p w m)
    end
  else Some (p, count, m).

(** The word with the byte [d] in every place. *)
Definition set_word (d : Z) : Z :=
  let buffer := Z.lor (u32 (Z.shiftl d 8)) d in Z.lor buffer (u32 (Z.shiftl buffer 16)).

(** [fuel] bounds the number of passes of the word loops; [None] when it is too
    small. *)
Definition rt_memset (fuel : nat) (s c count : Z) (m : memory) : option memory :=
  let d := Z.land c 0xff in
  if negb (count <? LBLOCKSIZE) && negb (UNALIGNED s) then
    '(p, count, m) ← set_big fuel s count (set_word d) m;
    '(p, count, m) ← set_words fuel p count (set_word d) m;
    Some (set_bytes (Z.to_nat count) p d m)
  else Some (set_bytes (Z.to_nat count) s d m).

Fixpoint copy_bytes (n : nat) (dst src : Z) (m : memory) : memory :=
  match n with O => m | S n' => copy_bytes n' (dst + 1) (src + 1) (store dst (m src) m) end.

Definition copy32 (dst src : Z) (m : memory) : memory := store32 dst (load32 src m) m.

Fixpoint copy_big (fuel : nat) (dst src len : Z) (m : memory) : option (Z * Z * Z * memory) :=
  if 4 * LBLOCKSIZE <=? len then
    match fuel with
    | O => None
    | S fuel' => copy_big fuel' (dst + 16) (src + 16) (len - 4 * LBLOCKSIZE)
        (copy32 (dst + 12) (src + 12) (copy32 (dst + 8) (src + 8)
          (copy32 (dst + 4) (src + 4) (copy32 dst src m))))
    end
  else Some (dst, src, len, m).
Fixpoint copy_words (fuel : nat) (dst src len : Z) (m : memory) : option (Z * Z * Z * memory) :=
  if LBLOCKSIZE <=? len then
    match fuel with
    | O => None
    | S fuel' => copy_words fuel' (dst + 4) (src + 4) (len - LBLOCKSIZE) (copy32 dst src m)
    end
  else Some (dst, src, len, m).

(** For counts within the positive range of [int]. *)
Definition rt_memcpy (fuel : nat) (dst src count : Z) (m : memory) : option memory :=
  if negb (count <? 4 * LBLOCKSIZE) && negb (UNALIGNED src || UNALIGNED dst) then
    '(dst, src, len, m) ← copy_big fuel dst src count m;
    '(dst, src, len, m) ← copy_words fuel dst src len m;
    Some (copy_bytes (Z.to_nat len) dst src m)
  else Some (copy_bytes (Z.to_nat count) dst src m).

(** The downward loop, [tmp] and [s] pointing behind the bytes. *)
Fixpoint copy_down (n : nat) (tmp s : Z) (m : memory) : memory :=
  match n with O => m | S n' => copy_down n' (tmp - 1) (s - 1) (store (tmp - 1) (m (s - 1)) m) end.

Definition rt_memmove (dest src : Z) (n : nat) (m : memory) : memory :=
  if (src <? dest) && (dest <? src + Z.of_nat n)
  then copy_down n (dest + Z.of_nat n) (src + Z.of_nat n) m
  else copy_bytes n dest src m.

(** * The references *)

Definition filled (p n d : Z) (m : memory) : memory :=
  λ a, if (p <=? a) && (a <? p + n) then d else m a.
Definition copied (dst src n : Z) (m : memory) : memory :=
  λ a, if (dst <=? a) && (a <? dst + n) then m (a - dst + src) else m a.

(** Case analysis on all comparisons of addresses. *)
Ltac mem_cases :=
  repeat match goal with
  | |- context [?x =? ?y] => destruct (Z.eqb_spec x y)
  | |- context [?x <=? ?y] => destruct (Z.leb_spec x y)
  | |- context [?x <? ?y] => destruct (Z.ltb_spec x y)
  end; simpl; try done; try lia; try (f_equal; lia).

#[global] Instance filled_proper p n d : Proper ((≡) ==> (≡)) (filled p n d).
Proof. intros m m' Hm a. unfold filled. case_match; [done|apply Hm]. Qed.

Lemma filled_app p n n' d m :
  0 ≤ n → 0 ≤ n' → filled (p + n) n' d (filled p n d m) ≡ filled p (n + n') d m.
Proof. intros Hn Hn' a. unfold filled. mem_cases. Qed.
Lemma filled_nil p d m : filled p 0 d m ≡ m.
Proof. intros a. unfold filled. mem_cases. Qed.

Lemma set_bytes_filled n p d m : set_bytes n p d m ≡ filled p (Z.of_nat n) d m.
Proof.
  revert p m. induction n as [|n IH]; intros p m; simpl set_bytes; [by rewrite filled_nil|].
  rewrite IH. intros a. unfold filled, store. mem_cases.
Qed.

Lemma set_word_byte d k : 0 ≤ d < 2 ^ 8 → k ∈ [0; 1; 2; 3] → byte k (set_word d) = d.
Proof.
  intros Hd Hk.
  assert (Hall : forallb (λ n, forallb (λ k, byte k (set_word (Z.of_nat n)) =? Z.of_nat n) [0; 1; 2; 3])
    (seq 0 256) = true) by (vm_compute; reflexivity).
  rewrite forallb_forall in Hall. specialize (Hall (Z.to_nat d)).
  rewrite in_seq, Z2Nat.id, forallb_forall in Hall by lia.
  apply Z.eqb_eq, Hall; [lia|]. by apply list_elem_of_In.
Qed.

Lemma store32_filled p d m : 0 ≤ d < 2 ^ 8 → store32 p (set_word d) m ≡ filled p 4 d m.
Proof.
  intros Hd a. unfold store32, store, filled. rewrite !set_word_byte by (done || set_solver). mem_cases.
Qed.

(** The word loops write words in front of what is left to do. *)
Lemma set_words_spec fuel p count d m :
  0 ≤ d < 2 ^ 8 → 0 ≤ count → count ≤ Z.of_nat fuel →
  ∃ n m', set_words fuel p count (set_word d) m = Some (p + n, count - n, m') ∧
    0 ≤ n ≤ count ∧ m' ≡ filled p n d m.
Proof.
  intros Hd. revert p count m. induction fuel as [|fuel IH]; intros p count m Hc Hf; simpl; unfold LBLOCKSIZE in *.
  { destruct (Z.leb_spec 4 count); [lia|]. exists 0, m. rewrite Z.add_0_r, Z.sub_0_r, filled_nil. done. }
  destruct (Z.leb_spec 4 count).
  - destruct (IH (p + 4) (count - 4) (store32 p (set_word d) m)) as (n & m' & -> & Hn & Hm); [lia..|].
    exists (4 + n), m'. split_and!; [do 3 f_equal; lia|lia|lia|].
    rewrite Hm, store32_filled by done. apply filled_app; lia.
  - exists 0, m. rewrite Z.add_0_r, Z.sub_0_r, filled_nil. split_and!; (done || lia).
Qed.
Lemma set_big_spec fuel p count d m :
  0 ≤ d < 2 ^ 8 → 0 ≤ count → count ≤ Z.of_nat fuel →
  ∃ n m', set_big fuel p count (set_word d) m = Some (p + n, count - n, m') ∧
    0 ≤ n ≤ count ∧ m' ≡ filled p n d m.
Proof.
  intros Hd. revert p count m. induction fuel as [|fuel IH]; intros p count m Hc Hf; simpl; unfold LBLOCKSIZE in *.
  { destruct (Z.leb_spec (4 * 4) count); [lia|]. exists 0, m. rewrite Z.add_0_r, Z.sub_0_r, filled_nil. done. }
  destruct (Z.leb_spec (4 * 4) count).
  - edestruct (IH (p + 16) (count - 4 * 4)) as (n & m' & -> & Hn & Hm); [lia..|].
    exists (16 + n), m'. split_and!; [do 3 f_equal; lia|lia|lia|].
    rewrite Hm, !store32_filled by done. intros a. unfold filled. mem_cases.
  - exists 0, m. rewrite Z.add_0_r, Z.sub_0_r, filled_nil. split_and!; (done || lia).
Qed.

(** [rt_memset] with its word loops is the byte-wise reference: it returns, the
    [count] bytes from [s] on are the low byte of [c], for every alignment of [s],
    and no other byte changes. *)
Theorem rt_memset_correct fuel s c count m :
  0 ≤ count ≤ Z.of_nat fuel →
  ∃ m', rt_memset fuel s c count m = Some m' ∧ m' ≡ filled s count (Z.land c 0xff) m.
Proof.
  intros Hc. unfold rt_memset. set (d := Z.land c 255).
  assert (Hd : 0 ≤ d < 2 ^ 8).
  { unfold d. change 255 with (Z.ones 8). rewrite Z.land_ones by lia. apply Z.mod_pos_bound. lia. }
  destruct (negb (count <? LBLOCKSIZE) && negb (UNALIGNED s)).
  - destruct (set_big_spec fuel s count d m) as (n1 & m1 & -> & Hn1 & Hm1); [done|lia..|]. simpl.
    destruct (set_words_spec fuel (s + n1) (count - n1) d m1) as (n2 & m2 & -> & Hn2 & Hm2); [done|lia..|]. simpl.
    eexists. split; [done|]. rewrite set_bytes_filled, Z2Nat.id, Hm2, Hm1 by lia.
    intros a. unfold filled. mem_cases.
  - eexists. split; [done|]. by rewrite set_bytes_filled, Z2Nat.id by lia.
Qed.

(** ** Copying *)

Lemma copied_nil dst src m : copied dst src 0 m ≡ m.
Proof. intros a. unfold copied. mem_cases. Qed.

(** Copying upwards is right unless the destination starts inside the source. *)
Lemma copy_bytes_copied n dst src m :
  ¬ (src < dst < src + Z.of_nat n) → copy_bytes n dst src m ≡ copied dst src (Z.of_nat n) m.
Proof.
  revert dst src m. induction n as [|n IH]; intros dst src m Hov; simpl copy_bytes; [by rewrite copied_nil|].
  rewrite IH by lia. intros a. unfold copied, store. mem_cases.
Qed.
(** Copying downwards is right unless the source starts inside the destination. *)
Lemma copy_down_copied n dst src m :
  ¬ (dst < src < dst + Z.of_nat n) →
  copy_down n (dst + Z.of_nat n) (src + Z.of_nat n) m ≡ copied dst src (Z.of_nat n) m.
Proof.
  revert dst src m. induction n as [|n IH]; intros dst src m Hov; simpl copy_down; [by rewrite copied_nil|].
  replace (dst + Z.of_nat (S n) - 1) with (dst + Z.of_nat n) by lia.
  replace (src + Z.of_nat (S n) - 1) with (src + Z.of_nat n) by lia.
  rewrite IH by lia. intros a. unfold copied, store. mem_cases.
Qed.

(** [rt_memmove] copies right for overlapping areas in both directions: every
    byte of the destination is the byte that was in the source before the call, and
    no other byte changes. *)
Theorem rt_memmove_correct dest src n m :
  rt_memmove dest src n m ≡ copied dest src (Z.of_nat n) m.
Proof.
  unfold rt_memmove.
  destruct (Z.ltb_spec src dest), (Z.ltb_spec dest (src + Z.of_nat n)); simpl;
    [apply copy_down_copied; lia|apply copy_bytes_copied; lia..].
Qed.

Lemma load32_byte p m k :
  bytes m → k ∈ [0; 1; 2; 3] → byte k (load32 p m) = m (p + k).
Proof.
  intros Hb Hk. pose proof (Hb p). pose proof (Hb (p + 1)). pose proof (Hb (p + 2)). pose proof (Hb (p + 3)).
  unfold byte, load32. rewrite !elem_of_cons in Hk.
  destruct Hk as [->|[->|[->|[->|[]%not_elem_of_nil]]]]; simpl Z.mul; change (2 ^ 0) with 1;
    rewrite ?Z.div_1_r, ?Z.add_0_r; Z.to_euclidean_division_equations; lia.
Qed.

Lemma copy32_copied dst src m : bytes m → copy32 dst src m ≡ copied dst src 4 m.
Proof.
  intros Hb a. unfold copy32, store32, copied, store. rewrite !load32_byte by (done || set_solver). mem_cases.
Qed.

Definition disjoint (dst src n : Z) : Prop := dst + n ≤ src ∨ src + n ≤ dst.

Lemma copied_bytes dst src n m : bytes m → bytes (copied dst src n m).
Proof. intros Hb a. unfold copied. case_match; apply Hb. Qed.
Lemma bytes_equiv m m' : m ≡ m' → bytes m → bytes m'.
Proof. intros Hm Hb a. rewrite <- Hm. apply Hb. Qed.

#[global] Instance copied_proper dst src n : Proper ((≡) ==> (≡)) (copied dst src n).
Proof. intros m m' Hm a. unfold copied. case_match; apply Hm. Qed.

Lemma copied_app dst src n n' m :
  0 ≤ n → 0 ≤ n' → disjoint dst src (n + n') →
  copied (dst + n) (src + n) n' (copied dst src n m) ≡ copied dst src (n + n') m.
Proof. intros Hn Hn' Hd a. unfold copied, disjoint in *. mem_cases. Qed.

(** Two word copies in a row are one longer copy. *)
Lemma copy32_app dst src n m m' :
  bytes m → 0 ≤ n → disjoint dst src (n + 4) → m' ≡ copied dst src n m →
  copy32 (dst + n) (src + n) m' ≡ copied dst src (n + 4) m.
Proof.
  intros Hb Hn Hd Hm. rewrite copy32_copied, Hm by (eapply bytes_equiv; [by symmetry|by apply copied_bytes]).
  by apply copied_app.
Qed.

Lemma copy_words_spec fuel dst src len m :
  bytes m → 0 ≤ len ≤ Z.of_nat fuel → disjoint dst src len →
  ∃ n m', copy_words fuel dst src len m = Some (dst + n, src + n, len - n, m') ∧
    0 ≤ n ≤ len ∧ m' ≡ copied dst src n m.
Proof.
  revert dst src len m. induction fuel as [|fuel IH]; intros dst src len m Hb Hl Hd; simpl; unfold LBLOCKSIZE in *.
  { destruct (Z.leb_spec 4 len); [lia|]. exists 0, m. rewrite !Z.add_0_r, Z.sub_0_r, copied_nil. split_and!; (done || lia). }
  destruct (Z.leb_spec 4 len).
  - pose proof (copy32_copied dst src m Hb) as Hc.
    destruct (IH (dst + 4) (src + 4) (len - 4) (copy32 dst src m)) as (n & m' & -> & Hn & Hm).
    { eapply bytes_equiv; [by symmetry|by apply copied_bytes]. } { lia. } { unfold disjoint in *; lia. }
    exists (4 + n), m'. split_and!; [by rewrite !Z.add_assoc, Z.sub_add_distr|lia|lia|].
    rewrite Hm, Hc. apply copied_app; [lia|lia|]. unfold disjoint in *; lia.
  - exists 0, m. rewrite !Z.add_0_r, Z.sub_0_r, copied_nil. split_and!; (done || lia).
Qed.
Lemma copy_big_spec fuel dst src len m :
  bytes m → 0 ≤ len ≤ Z.of_nat fuel → disjoint dst src len →
  ∃ n m', copy_big fuel dst src len m = Some (dst + n, src + n, len - n, m') ∧
    0 ≤ n ≤ len ∧ m' ≡ copied dst src n m.
Proof.
  revert dst src len m. induction fuel as [|fuel IH]; intros dst src len m Hb Hl Hd; simpl; unfold LBLOCKSIZE in *.
  { destruct (Z.leb_spec (4 * 4) len); [lia|]. exists 0, m. rewrite !Z.add_0_r, Z.sub_0_r, copied_nil. split_and!; (done || lia). }
  destruct (Z.leb_spec (4 * 4) len).
  - set (m4 := copy32 (dst + 12) _ _).
    assert (Hc : m4 ≡ copied dst src 16 m).
    { unfold disjoint in *.
      apply (copy32_app dst src 12); [done|lia|unfold disjoint; lia|].
      apply (copy32_app dst src 8); [done|lia|unfold disjoint; lia|].
      apply (copy32_app dst src 4); [done|lia|unfold disjoint; lia|]. by apply copy32_copied. }
    destruct (IH (dst + 16) (src + 16) (len - 4 * 4) m4) as (n & m' & -> & Hn & Hm).
    { eapply bytes_equiv; [by symmetry|by apply copied_bytes]. } { lia. } { unfold disjoint in *; lia. }
    exists (16 + n), m'. split_and!; [by rewrite !Z.add_assoc, Z.sub_add_distr|lia|lia|].
    rewrite Hm, Hc. apply copied_app; [lia|lia|]. unfold disjoint in *; lia.
  - exists 0, m. rewrite !Z.add_0_r, Z.sub_0_r, copied_nil. split_and!; (done || lia).
Qed.

(** [rt_memcpy] with its unrolled word loops is the byte-wise reference on areas
    that do not overlap, for every alignment: every byte of the destination is the
    byte of the source and no other byte changes. *)
Theorem rt_memcpy_correct fuel dst src count m :
  bytes m → 0 ≤ count ≤ Z.of_nat fuel → disjoint dst src count →
  ∃ m', rt_memcpy fuel dst src count m = Some m' ∧ m' ≡ copied dst src count m.
Proof.
  intros Hb Hc Hd. unfold rt_memcpy.
  destruct (negb (count <? 4 * LBLOCKSIZE) && negb (UNALIGNED src || UNALIGNED dst)).
  - destruct (copy_big_spec fuel dst src count m) as (n1 & m1 & -> & Hn1 & Hm1); [done|lia|done|]. simpl.
    destruct (copy_words_spec fuel (dst + n1) (src + n1) (count - n1) m1) as (n2 & m2 & -> & Hn2 & Hm2).
    { eapply bytes_equiv; [by symmetry|by apply copied_bytes]. } { lia. } { unfold disjoint in *; lia. }
    simpl. eexists. split; [done|]. rewrite copy_bytes_copied by (unfold disjoint in *; lia).
    rewrite Z2Nat.id, Hm2, Hm1 by lia. unfold disjoint in *.
    rewrite copied_app by (unfold disjoint; lia).
    replace (dst + n1 + n2) with (dst + (n1 + n2)) by lia. replace (src + n1 + n2) with (src + (n1 + n2)) by lia.
    rewrite copied_app by (unfold disjoint; lia). 
    replace (n1 + (n2 + (count - n1 - n2))) with count by lia. reflexivity.
  - eexists. split; [done|]. rewrite copy_bytes_copied, Z2Nat.id by (unfold disjoint in *; lia). reflexivity.
Qed.

Definition mem0 : memory := λ a, a mod 2 ^ 8.
Lemma rt_memset_correct_witness :
  ∃ m', rt_memset 20 3 5 19 mem0 = Some m' ∧ m' ≡ filled 3 19 (Z.land 5 0xff) mem0.
Proof. apply (rt_memset_correct 20 3 5 19 mem0). lia. Defined.
Lemma rt_memcpy_correct_witness :
  ∃ m', rt_memcpy 20 100 4 19 mem0 = Some m' ∧ m' ≡ copied 100 4 19 mem0.
Proof.
  apply (rt_memcpy_correct 20 100 4 19 mem0); [|lia|right; lia].
  intros a. apply Z.mod_pos_bound. lia.
Defined.
