(* ===== verification/Printf.v ===== *)
(** The formatted output of [rt-thread/src/kservice.c]: [rt_vsnprintf] and the
    functions built on it, in the configuration of the source ([RT_PRINTF_PRECISION]
    defined, no [long long] and no [#] prefixes).

    The memory is the buffer of the caller from [buf] on; [str] is the offset of the
    write pointer, which moves on behind [end] while nothing is stored there any
    more.  A store outside the buffer, a read behind the format or a missing argument
    is the fault [BadPointer]. *)

From stdpp Require Import base list strings sets.
From Stdlib Require Import ZArith Lia Ascii.
From S2P Require Import Prelude Kservice.

Open Scope Z_scope.

(** A character constant of the source. *)
Definition asc (a : ascii) : Z := Z.of_N (N_of_ascii a).
Fixpoint text (s : string) : list Z :=
  match s with EmptyString => [] | String a s => asc a :: text s end.

(** * The code *)

(** The next argument: an integer or pointer of 32 bits, or a string ([None] is the
    null pointer). *)
Inductive va := VInt (v : Z) | VStr (s : option (list Z)).

Record pstate := PState { w_mem : list Z; w_str : Z; w_args : list va }.

(** [if (buf <= end) *buf = c; ++buf;], [e] is the offset of [end]. *)
Definition put (e c : Z) : SM pstate unit :=
  st ← get;
  when (w_str st <=? e)
    (if w_str st <? Z.of_nat (length (w_mem st))
     then modify (λ st, PState (<[Z.to_nat (w_str st) := c]> (w_mem st)) (w_str st) (w_args st))
     else fail BadPointer);;
  modify (λ st, PState (w_mem st) (w_str st + 1) (w_args st)).
Fixpoint put_n (e c : Z) (n : nat) : SM pstate unit :=
  match n with O => mret tt | S n => put e c;; put_n e c n end.
Fixpoint put_list (e : Z) (l : list Z) : SM pstate unit :=
  match l with [] => mret tt | c :: l => put e c;; put_list e l end.
(** [while (size-- > 0) { if (buf <= end) *buf = c; ++buf; }], the value of [size]
    behind the loop. *)
Definition put_while (e c size : Z) : SM pstate Z :=
  put_n e c (Z.to_nat size);; mret (if 0 <? size then -1 else size - 1).

Definition isdigit (c : Z) : bool := u32 (c - asc "0") <? 10.

(** The digit and the new value of [*n]. *)
Definition divide (n base : Z) : Z * Z :=
  if base =? 10 then (u32 n mod 10, i32 (u32 n / 10)) else (u32 n mod 16, i32 (u32 n / 16)).

Fixpoint skip_atoi (i : Z) (s : list Z) : option (Z * list Z) :=
  match s with
  | [] => None
  | c :: s' => if isdigit c then skip_atoi (i32 (i * 10 + c - asc "0")) s' else Some (i, s)
  end.

Definition ZEROPAD : Z := 2 ^ 0.
Definition SIGN : Z := 2 ^ 1.
Definition PLUS : Z := 2 ^ 2.
Definition SPACE : Z := 2 ^ 3.
Definition LEFT : Z := 2 ^ 4.
Definition SPECIAL : Z := 2 ^ 5.
Definition LARGE : Z := 2 ^ 6.

Definition small_digits : list Z := Eval compute in text "0123456789abcdef".
Definition large_digits : list Z := Eval compute in text "0123456789ABCDEF".

(** [while (num != 0) tmp[i++] = digits[divide(&num, base)];], [room] bytes of [tmp]
    are left. *)
Fixpoint number_digits (room : nat) (digits : list Z) (num base : Z) : option (list Z) :=
  if num =? 0 then Some [] else
  match room with
  | O => None
  | S room =>
    let '(d, num) := divide num base in
    c ← digits !! Z.to_nat d;
    tmp ← number_digits room digits num base;
    Some (c :: tmp)
  end.

Definition print_number (e num base s precision type : Z) : SM pstate unit :=
  let digits := if flag_test type LARGE then large_digits else small_digits in
  let type := if flag_test type LEFT then Z.land type (Z.lnot ZEROPAD) else type in
  let c := if flag_test type ZEROPAD then asc "0" else asc " " in
  let '(sign, num) :=
    if flag_test type SIGN then
      if num <? 0 then (asc "-", i32 (- num))
      else if flag_test type PLUS then (asc "+", num)
      else if flag_test type SPACE then (asc " ", num) else (0, num)
    else (0, num) in
  tmp ← (if num =? 0 then mret [asc "0"]
         else of_option BadPointer (number_digits 16 digits num base));
  let i := Z.of_nat (length tmp) in
  let precision := if precision <? i then i else precision in
  let size := s - precision in
  size ← (if flag_test type (Z.lor ZEROPAD LEFT) then mret size
          else put_while e (asc " ") (if negb (sign =? 0) && (0 <? size) then size - 1 else size));
  size ← (if sign =? 0 then mret size
          else st ← get; put e sign;; mret (if w_str st <=? e then size - 1 else size));
  size ← (if flag_test type LEFT then mret size else put_while e c size);
  put_n e (asc "0") (Z.to_nat (precision - i));;
  put_list e (rev tmp);;
  put_n e (asc " ") (Z.to_nat size).

(** [va_arg] for an [int] or a pointer, and for a string. *)
Definition va_int : SM pstate Z :=
  st ← get;
  match w_args st with
  | VInt v :: args => modify (λ st, PState (w_mem st) (w_str st) args);; mret v
  | _ => fail BadPointer
  end.
Definition va_str : SM pstate (option (list Z)) :=
  st ← get;
  match w_args st with
  | VStr s :: args => modify (λ st, PState (w_mem st) (w_str st) args);; mret s
  | _ => fail BadPointer
  end.
(** The character [fmt] points to. *)
Definition deref (fmt : list Z) : SM pstate Z := of_option BadPointer (head fmt).

Fixpoint flags_loop (flags : Z) (fmt : list Z) : option (Z * list Z) :=
  match fmt with
  | [] => None
  | c :: fmt' =>
    if c =? asc "-" then flags_loop (Z.lor flags LEFT) fmt'
    else if c =? asc "+" then flags_loop (Z.lor flags PLUS) fmt'
    else if c =? asc " " then flags_loop (Z.lor flags SPACE) fmt'
    else if c =? asc "#" then flags_loop (Z.lor flags SPECIAL) fmt'
    else if c =? asc "0" then flags_loop (Z.lor flags ZEROPAD) fmt'
    else Some (flags, fmt)
  end.

Definition get_width (flags : Z) (fmt : list Z) : SM pstate (Z * Z * list Z) :=
  c ← deref fmt;
  if isdigit c then '(w, fmt) ← of_option BadPointer (skip_atoi 0 fmt); mret (w, flags, fmt)
  else if c =? asc "*" then
    v ← va_int;
    let field_width := i32 v in
    if field_width <? 0 then mret (i32 (- field_width), Z.lor flags LEFT, tail fmt)
    else mret (field_width, flags, tail fmt)
  else mret (-1, flags, fmt).

Definition get_precision (fmt : list Z) : SM pstate (Z * list Z) :=
  c ← deref fmt;
  if c =? asc "." then
    let fmt := tail fmt in
    c ← deref fmt;
    '(p, fmt) ←
      (if isdigit c then of_option BadPointer (skip_atoi 0 fmt)
       else if c =? asc "*" then v ← va_int; mret (i32 v, tail fmt)
       else mret (-1, fmt));
    mret (if p <? 0 then 0 else p, fmt)
  else mret (-1, fmt).

Definition get_qualifier (fmt : list Z) : SM pstate (Z * list Z) :=
  c ← deref fmt;
  mret (if (c =? asc "h") || (c =? asc "l") then (c, tail fmt) else (0, fmt)).

Definition print_char (e flags field_width : Z) : SM pstate unit :=
  let pad := Z.to_nat (field_width - 1) in
  when (negb (flag_test flags LEFT)) (put_n e (asc " ") pad);;
  v ← va_int;
  put e (u8 v);;
  when (flag_test flags LEFT) (put_n e (asc " ") pad).

Definition print_string (e flags field_width precision : Z) : SM pstate unit :=
  s ← va_str;
  let s := default (text "(NULL)" ++ [0]) s in
  len ← of_option BadPointer (rt_strlen s);
  let len := if (0 <? precision) && (precision <? len) then precision else len in
  let pad := Z.to_nat (field_width - len) in
  when (negb (flag_test flags LEFT)) (put_n e (asc " ") pad);;
  put_list e (take (Z.to_nat len) s);;
  when (flag_test flags LEFT) (put_n e (asc " ") pad).

(** Behind the [switch]: fetch the number and print it. *)
Definition print_integer (e flags field_width precision qualifier base : Z) : SM pstate unit :=
  v ← va_int;
  let num :=
    if qualifier =? asc "h"
    then if flag_test flags SIGN then u32 (i16 (u16 v)) else u16 v
    else if flag_test flags SIGN then u32 (i32 (u32 v)) else u32 v in
  print_number e (i32 num) base field_width precision flags.

(** The [switch] over the conversion character, with [base] set in its branches; the
    result is [fmt] at the next turn of the loop. *)
Definition convert (e flags field_width precision qualifier : Z) (fmt : list Z) : SM pstate (list Z) :=
  c ← deref fmt;
  if c =? asc "c" then print_char e flags field_width;; mret (tail fmt)
  else if c =? asc "s" then print_string e flags field_width precision;; mret (tail fmt)
  else if c =? asc "p" then
    let '(field_width, flags) :=
      if field_width =? -1 then (8, Z.lor flags ZEROPAD) else (field_width, flags) in
    v ← va_int;
    print_number e (i32 v) 16 field_width precision flags;; mret (tail fmt)
  else if c =? asc "%" then put e (asc "%");; mret (tail fmt)
  else if c =? asc "o" then print_integer e flags field_width precision qualifier 8;; mret (tail fmt)
  else if c =? asc "X" then
    print_integer e (Z.lor flags LARGE) field_width precision qualifier 16;; mret (tail fmt)
  else if c =? asc "x" then print_integer e flags field_width precision qualifier 16;; mret (tail fmt)
  else if (c =? asc "d") || (c =? asc "i") then
    print_integer e (Z.lor flags SIGN) field_width precision qualifier 10;; mret (tail fmt)
  else if c =? asc "u" then print_integer e flags field_width precision qualifier 10;; mret (tail fmt)
  else
    put e (asc "%");;
    if c =? 0 then mret fmt else put e c;; mret (tail fmt).

(** One conversion, [fmt] behind the [%]. *)
Definition conversion (e : Z) (fmt : list Z) : SM pstate (list Z) :=
  '(flags, fmt) ← of_option BadPointer (flags_loop 0 fmt);
  '(field_width, flags, fmt) ← get_width flags fmt;
  '(precision, fmt) ← get_precision fmt;
  '(qualifier, fmt) ← get_qualifier fmt;
  convert e flags field_width precision qualifier fmt.

(** The loop over the format; a turn reads at least one character, so the length of
    the format is enough fuel. *)
Fixpoint format_loop (fuel : nat) (e : Z) (fmt : list Z) : SM pstate unit :=
  match fuel with
  | O => fail OutOfFuel
  | S fuel =>
    c ← deref fmt;
    if c =? 0 then mret tt
    else if negb (c =? asc "%") then put e c;; format_loop fuel e (tail fmt)
    else fmt ← conversion e (tail fmt); format_loop fuel e fmt
  end.

(** The offset of [end] for a buffer at the address [buf]. *)
Definition end_offset (buf size : Z) : Z :=
  let e := u32 (buf + size - 1) in
  (if e <? buf then 2 ^ 32 - 1 else e) - buf.

(** The returned length and the buffer after the call. *)
Definition rt_vsnprintf (buf size : Z) (mem fmt : list Z) (args : list va) : outcome pstate Z :=
  let e := end_offset buf size in
  (format_loop (length fmt) e fmt;;
   st ← get;
   let p := if w_str st <=? e then w_str st else e in
   (if p <? Z.of_nat (length (w_mem st))
    then modify (λ st, PState (<[Z.to_nat p := 0]> (w_mem st)) (w_str st) (w_args st))
    else fail BadPointer);;
   mret (w_str st)) (PState mem 0 args).

Definition rt_snprintf (buf size : Z) (mem fmt : list Z) (args : list va) : outcome pstate Z :=
  rt_vsnprintf buf size mem fmt args.
Definition rt_vsprintf (buf : Z) (mem fmt : list Z) (args : list va) : outcome pstate Z :=
  rt_vsnprintf buf (2 ^ 32 - 1) mem fmt args.
Definition rt_sprintf (buf : Z) (mem fmt : list Z) (args : list va) : outcome pstate Z :=
  rt_vsprintf buf mem fmt args.

(** ** The console *)

Definition RT_CONSOLEBUF_SIZE : Z := 128.
Definition RT_DEVICE_FLAG_STREAM : Z := 0x040.

(** What leaves the kernel: a string for [rt_hw_console_output], or a block for
    [rt_device_write] with the open flag the device has during the call. *)
Inductive console_out := HwOutput (str : list Z) | DeviceWrite (open_flag : Z) (data : list Z).

(** [device] is the open flag of the console device, [None] when none is set; it is
    restored after the call. *)
Definition rt_kputs (device : option Z) (str : list Z) : option (console_out * option Z) :=
  match device with
  | None => Some (HwOutput str, None)
  | Some old_flag =>
    n ← rt_strlen str;
    Some (DeviceWrite (Z.lor old_flag RT_DEVICE_FLAG_STREAM) (take (Z.to_nat n) str), Some old_flag)
  end.
(** [rt_log_buf] is the static buffer at the address [buf]. *)
Definition rt_kprintf (device : option Z) (buf : Z) (rt_log_buf fmt : list Z) (args : list va) :
    outcome pstate (console_out * option Z) :=
  match rt_vsnprintf buf (RT_CONSOLEBUF_SIZE - 1) rt_log_buf fmt args with
  | Done n st =>
    let length := u32 n in
    let length := if RT_CONSOLEBUF_SIZE - 1 <? length then RT_CONSOLEBUF_SIZE - 1 else length in
    Done (match device with
          | None => (HwOutput (w_mem st), None)
          | Some old_flag =>
            (DeviceWrite (Z.lor old_flag RT_DEVICE_FLAG_STREAM) (take (Z.to_nat length) (w_mem st)), Some old_flag)
          end) st
  | Fault f => Fault f
  end.

Example printf_demo :
  match rt_vsnprintf 1000 40 (repeat 1 40) (text "%d|%5d|%-5d|%05d|%x|%.3u|%s|%c" ++ [0])
    [VInt 42; VInt (-7); VInt 7; VInt (-7); VInt 255; VInt 5; VStr (Some (text "ab" ++ [0])); VInt 33] with
  | Done n st => n = 32 ∧ take 34 (w_mem st) = text "42|   -7|7    |-0007|ff|005|ab|!" ++ [0; 1]
  | Fault _ => False
  end.
Proof. vm_compute. split; reflexivity. Qed.

(** * The reference *)

(** ** Numerals *)

(** The digits of [v] in base [b], the most significant first. *)
Fixpoint numeral_aux (fuel : nat) (b v : Z) (acc : list Z) : list Z :=
  match fuel with
  | O => acc
  | S fuel => if v <? b then v :: acc else numeral_aux fuel b (v / b) (v mod b :: acc)
  end.
Definition numeral (b v : Z) : list Z := numeral_aux 32 b v [].
Definition digit_char (upper : bool) (d : Z) : Z :=
  if d <? 10 then asc "0" + d else (if upper then asc "A" else asc "a") + (d - 10).

(** The value of a sequence of digits. *)
Definition positional (b : Z) (l : list Z) : Z := foldl (λ v d, v * b + d) 0 l.

(** ** Conversions *)

Inductive field := FNum (n : Z) | FStar.
Inductive conv := Cc | Cs | Cp | Cpercent | Co | CX | Cx | Cd | Ci | Cu | Cother (c : Z).
Record conversion_spec := Conv {
  cv_flags : list Z;
  cv_width : option field;
  cv_prec : option (option field);
  cv_qual : option Z;
  cv_conv : conv
}.
Inductive item := Lit (c : Z) | Spec (s : conversion_spec).

(** How a format is written. *)
Definition conv_char (c : conv) : Z :=
  match c with
  | Cc => asc "c" | Cs => asc "s" | Cp => asc "p" | Cpercent => asc "%" | Co => asc "o" | CX => asc "X"
  | Cx => asc "x" | Cd => asc "d" | Ci => asc "i" | Cu => asc "u" | Cother c => c
  end.
Definition field_text (f : field) : list Z :=
  match f with FNum n => digit_char false <$> numeral 10 n | FStar => [asc "*"] end.
Definition spec_text (s : conversion_spec) : list Z :=
  cv_flags s ++ from_option field_text [] (cv_width s) ++
  from_option (λ p, asc "." :: from_option field_text [] p) [] (cv_prec s) ++
  option_list (cv_qual s) ++ [conv_char (cv_conv s)].
Definition item_text (i : item) : list Z :=
  match i with Lit c => [c] | Spec s => asc "%" :: spec_text s end.

(** The formats that are read as they are meant: a width does not start with a zero
    (which is a flag), and unknown conversion characters are none of the others. *)
Definition flag_chars : list Z := text "-+ #0".
Definition reserved : list Z := text "-+ #0123456789*.hlcsp%oXxdiu".
Definition item_ok (i : item) : Prop :=
  match i with
  | Lit c => c ≠ 0 ∧ c ≠ asc "%"
  | Spec s =>
    Forall (.∈ flag_chars) (cv_flags s) ∧
    match cv_width s with Some (FNum n) => 0 < n < 2 ^ 31 | _ => True end ∧
    match cv_prec s with Some (Some (FNum n)) => 0 ≤ n < 2 ^ 31 | _ => True end ∧
    match cv_qual s with Some q => q = asc "h" ∨ q = asc "l" | None => True end ∧
    match cv_conv s with Cother c => 0 < c < 2 ^ 8 ∧ c ∉ reserved | _ => True end
  end.

(** ** What is printed *)

Definition spaces (n : Z) : list Z := replicate (Z.to_nat n) (asc " ").
Definition zeros (n : Z) : list Z := replicate (Z.to_nat n) (asc "0").
Definition len (l : list Z) : Z := Z.of_nat (length l).

(** Text padded to the width on the left or on the right. *)
Definition justify (left : bool) (width : Z) (t : list Z) : list Z :=
  if left then t ++ spaces (width - len t) else spaces (width - len t) ++ t.
(** A number: its digits brought to the precision with zeros, its sign, and the
    padding outside the sign (spaces) or inside of it (zeros). *)
Definition number_text (left zero : bool) (width prec : Z) (sign ds : list Z) : list Z :=
  let body := zeros (prec - len ds) ++ ds in
  if zero && negb left then sign ++ zeros (width - len sign - len body) ++ body
  else justify left width (sign ++ body).

Definition sign_text (plus space : bool) (v : Z) : list Z :=
  if v <? 0 then [asc "-"] else if plus then [asc "+"] else if space then [asc " "] else [].
Definition is_h (q : option Z) : bool := bool_decide (q = Some (asc "h")).

(** The field values of a conversion and the remaining arguments.  (A width of
    [INT_MIN] is undefined behaviour.) *)
Definition resolve_width (f : option field) (args : list va) : option (Z * bool * list va) :=
  match f, args with
  | None, _ => Some (-1, false, args)
  | Some (FNum n), _ => Some (n, false, args)
  | Some FStar, VInt v :: args =>
    if i32 v =? - 2 ^ 31 then None else Some (Z.abs (i32 v), i32 v <? 0, args)
  | _, _ => None
  end.
Definition resolve_prec (f : option (option field)) (args : list va) : option (Z * list va) :=
  match f, args with
  | None, _ => Some (-1, args)
  | Some None, _ => Some (0, args)
  | Some (Some (FNum n)), _ => Some (n, args)
  | Some (Some FStar), VInt v :: args => Some (Z.max 0 (i32 v), args)
  | _, _ => None
  end.

Definition render_conv (c : conv) (left zero plus space : bool) (h : bool) (w p : Z) (args : list va) :
    option (list Z * list va) :=
  let number upper base v sign := number_text left zero w p sign (digit_char upper <$> numeral base v) in
  let unsigned a := if h then u16 a else u32 a in
  let signed a := if h then i16 a else i32 a in
  match c, args with
  | Cpercent, _ => Some ([asc "%"], args)
  | Cother c, _ => Some ([asc "%"; c], args)
  | Cc, VInt v :: args => Some (justify left w [u8 v], args)
  | Cs, VStr str :: args =>
    let t := default (text "(NULL)") str in
    Some (justify left w (if 0 <? p then take (Z.to_nat p) t else t), args)
  | Cp, VInt v :: args =>
    Some (if w =? -1 then number_text left true 8 p [] (digit_char false <$> numeral 16 (u32 v))
          else number false 16 (u32 v) [], args)
  | Co, VInt v :: args => Some (number false 16 (unsigned v) [], args)
  | CX, VInt v :: args => Some (number true 16 (unsigned v) [], args)
  | Cx, VInt v :: args => Some (number false 16 (unsigned v) [], args)
  | Cu, VInt v :: args => Some (number false 10 (unsigned v) [], args)
  | (Cd | Ci), VInt v :: args =>
    let v := signed v in Some (number false 10 (Z.abs v) (sign_text plus space v), args)
  | _, _ => None
  end.
Definition render_spec (s : conversion_spec) (args : list va) : option (list Z * list va) :=
  '(w, neg, args) ← resolve_width (cv_width s) args;
  '(p, args) ← resolve_prec (cv_prec s) args;
  let has c := bool_decide (asc c ∈ cv_flags s) in
  render_conv (cv_conv s) (has "-"%char || neg) (has "0"%char) (has "+"%char) (has " "%char)
    (is_h (cv_qual s)) w p args.
Fixpoint render (its : list item) (args : list va) : option (list Z) :=
  match its with
  | [] => Some []
  | Lit c :: its => t ← render its args; Some (c :: t)
  | Spec s :: its => '(t, args) ← render_spec s args; t' ← render its args; Some (t ++ t')
  end.

(** The arguments in memory: strings have no zero but their terminating one. *)
Definition va_ok (a : va) : Prop :=
  match a with VStr (Some s) => chars s | _ => True end.
Definition va_mem (a : va) : va :=
  match a with VStr (Some s) => VStr (Some (s ++ [0])) | _ => a end.

(** [rt_vsnprintf] against its reference: the text of a format is produced in full,
    and the part of it that fits is stored. *)

(** * Machine integers *)

Lemma u32_i32 x : u32 (i32 x) = u32 x.
Proof. unfold u32, i32. rewrite Zminus_mod_idemp_l, <- Z.add_sub_assoc. by rewrite Z.sub_diag, Z.add_0_r. Qed.
Lemma i32_u32 x : i32 (u32 x) = i32 x.
Proof. unfold u32, i32. by rewrite Zplus_mod_idemp_l. Qed.
Lemma i32_small x : - 2 ^ 31 ≤ x < 2 ^ 31 → i32 x = x.
Proof. intros Hx. unfold i32. rewrite Z.mod_small; lia. Qed.
Lemma i32_range x : - 2 ^ 31 ≤ i32 x < 2 ^ 31.
Proof. unfold i32. pose proof (Z.mod_pos_bound (x + 2 ^ 31) (2 ^ 32)). lia. Qed.
Lemma u32_range x : 0 ≤ u32 x < 2 ^ 32.
Proof. apply Z.mod_pos_bound. lia. Qed.
Lemma flag_test_lor f a b : flag_test f (Z.lor a b) = flag_test f a || flag_test f b.
Proof.
  unfold flag_test. rewrite Z.land_lor_distr_r. apply eq_true_iff_eq.
  rewrite orb_true_iff, !negb_true_iff, !Z.eqb_neq, Z.lor_eq_0_iff.
  destruct (decide (Z.land f a = 0)); tauto.
Qed.

(** * Numerals *)

Lemma digits_lookup (upper : bool) d :
  0 ≤ d < 16 →
  (if upper then large_digits else small_digits) !! Z.to_nat d = Some (digit_char upper d).
Proof.
  intros Hd.
  assert (Hall : forallb (λ n, bool_decide ((if upper then large_digits else small_digits) !! n =
    Some (digit_char upper (Z.of_nat n)))) (seq 0 16) = true) by (by destruct upper; vm_compute).
  rewrite forallb_forall in Hall. specialize (Hall (Z.to_nat d)).
  rewrite in_seq, bool_decide_eq_true, Z2Nat.id in Hall by lia. apply Hall. lia.
Qed.

Definition print_base (base : Z) : Z := if base =? 10 then 10 else 16.
Lemma print_base_range base : 10 ≤ print_base base ≤ 16.
Proof. unfold print_base. case_match; lia. Qed.
Lemma divide_spec n base :
  divide n base = (u32 n mod print_base base, u32 n / print_base base).
Proof.
  pose proof (u32_range n). unfold divide, print_base. case_match;
    (rewrite i32_small; [done|]; Z.to_euclidean_division_equations; lia).
Qed.

(** The digits the code collects, from the last to the first, are the numeral. *)
Lemma number_digits_numeral room f num base (upper : bool) acc :
  0 < u32 num < print_base base ^ Z.of_nat room → (room ≤ f)%nat →
  ∃ tmp, number_digits room (if upper then large_digits else small_digits) num base = Some tmp ∧
    digit_char upper <$> numeral_aux f (print_base base) (u32 num) acc =
      rev tmp ++ (digit_char upper <$> acc).
Proof.
  pose proof (print_base_range base) as Hb. set (b := print_base base) in *.
  revert f num acc. induction room as [|room IH]; intros f num acc Hv Hf; [change (b ^ Z.of_nat 0) with 1 in Hv; lia|].
  destruct f as [|f]; [lia|]. simpl number_digits. rewrite divide_spec. fold b.
  assert ((num =? 0) = false) as ->. { apply Z.eqb_neq. intros ->. by destruct Hv. }
  assert (Hm : 0 ≤ u32 num mod b < b) by (apply Z.mod_pos_bound; lia).
  rewrite digits_lookup by lia. simpl. pose proof (u32_range num) as Hr.
  destruct (Z.ltb_spec (u32 num) b) as [Hlt|Hge].
  - rewrite Z.div_small, Z.mod_small by lia. exists [digit_char upper (u32 num)]. by destruct room.
  - assert (Hq : 0 < u32 num / b) by (apply Z.div_str_pos; lia).
    assert (Hu : u32 (u32 num / b) = u32 num / b).
    { unfold u32 at 1. rewrite Z.mod_small; [done|]. split; [lia|]. apply Z.div_lt_upper_bound; nia. }
    destruct (IH f (u32 num / b) (u32 num mod b :: acc)) as (tmp & -> & Ht); [|lia|].
    { rewrite Hu. split; [done|]. rewrite Nat2Z.inj_succ, Z.pow_succ_r in Hv by lia. apply Z.div_lt_upper_bound; lia. }
    exists (digit_char upper (u32 num mod b) :: tmp). split; [done|]. rewrite Hu in Ht. rewrite Ht. simpl.
    by rewrite <- app_assoc.
Qed.

(** The numeral is the number: it stands for its value, has digits of the base only
    and no leading zero. *)
Lemma numeral_aux_value f b v acc :
  2 ≤ b → 0 ≤ v < b ^ Z.of_nat f →
  positional b (numeral_aux f b v acc) = foldl (λ x d, x * b + d) v acc.
Proof.
  intros Hb. revert v acc. induction f as [|f IH]; intros v acc Hv; simpl.
  { change (b ^ Z.of_nat 0) with 1 in Hv. by replace v with 0 by lia. }
  destruct (Z.ltb_spec v b); [done|].
  rewrite IH.
  - simpl. f_equal. rewrite Z.mul_comm. symmetry. apply Z.div_mod. lia.
  - rewrite Nat2Z.inj_succ, Z.pow_succ_r in Hv by lia. split; [apply Z.div_pos; lia|].
    apply Z.div_lt_upper_bound; lia.
Qed.
Lemma numeral_aux_digits f b v acc :
  2 ≤ b → 0 ≤ v → Forall (λ d, 0 ≤ d < b) acc → Forall (λ d, 0 ≤ d < b) (numeral_aux f b v acc).
Proof.
  intros Hb. revert v acc. induction f as [|f IH]; intros v acc Hv Ha; simpl; [done|].
  destruct (Z.ltb_spec v b); [constructor; [lia|done]|].
  apply IH; [apply Z.div_pos; lia|]. constructor; [apply Z.mod_pos_bound; lia|done].
Qed.
Lemma pow_enough b : 2 ≤ b → 2 ^ 32 ≤ b ^ Z.of_nat 32.
Proof. intros Hb. apply Z.pow_le_mono_l. lia. Qed.
Lemma numeral_value b v : 2 ≤ b → 0 ≤ v < 2 ^ 32 → positional b (numeral b v) = v.
Proof. intros Hb Hv. pose proof (pow_enough b Hb). unfold numeral. rewrite numeral_aux_value; [done|done|lia]. Qed.
Lemma numeral_digits b v : 2 ≤ b → 0 ≤ v → Forall (λ d, 0 ≤ d < b) (numeral b v).
Proof. intros Hb Hv. by apply numeral_aux_digits. Qed.
Lemma numeral_aux_nil f b v acc : (0 < f)%nat → numeral_aux f b v acc ≠ [].
Proof.
  intros Hf. destruct f as [|f]; [lia|]. clear Hf. revert v acc.
  induction f as [|f IH]; intros v acc; simpl; destruct (v <? b); try done. apply IH.
Qed.
Lemma numeral_aux_head f b v acc :
  2 ≤ b → 0 < v < b ^ Z.of_nat f → ∃ d l, numeral_aux f b v acc = d :: l ∧ 0 < d.
Proof.
  intros Hb. revert v acc. induction f as [|f IH]; intros v acc Hv; simpl; [change (b ^ Z.of_nat 0) with 1 in Hv; lia|].
  destruct (Z.ltb_spec v b); [eexists _, _; split; [done|lia]|].
  apply IH. rewrite Nat2Z.inj_succ, Z.pow_succ_r in Hv by lia. split; [apply Z.div_str_pos; lia|].
  apply Z.div_lt_upper_bound; lia.
Qed.
Lemma numeral_aux_length f b v acc k :
  2 ≤ b → 0 ≤ v < b ^ Z.of_nat (S k) → (length (numeral_aux f b v acc) ≤ S k + length acc)%nat.
Proof.
  intros Hb. revert f v acc. induction k as [|k IH]; intros f v acc Hv; (destruct f as [|f]; simpl; [lia|]).
  - rewrite Z.pow_1_r in Hv. by rewrite (proj2 (Z.ltb_lt v b)) by lia.
  - destruct (Z.ltb_spec v b); simpl; [lia|].
    etrans; [apply IH|simpl; lia]. rewrite Nat2Z.inj_succ, Z.pow_succ_r in Hv by lia.
    split; [apply Z.div_pos; lia|]. apply Z.div_lt_upper_bound; lia.
Qed.
Lemma numeral_length b v k : 2 ≤ b → (0 < k)%nat → 0 ≤ v < b ^ Z.of_nat k → (length (numeral b v) ≤ k)%nat.
Proof.
  intros Hb Hk Hv. destruct k as [|k]; [lia|].
  etrans; [exact (numeral_aux_length 32 b v [] k Hb Hv)|]. cbn [length]. lia.
Qed.
Lemma numeral_head b v : 2 ≤ b → 0 < v < 2 ^ 32 → ∃ d l, numeral b v = d :: l ∧ 0 < d.
Proof. intros Hb Hv. pose proof (pow_enough b Hb). apply numeral_aux_head; lia. Qed.

(** * The bounded writer *)

(** The text [out] has been produced since the start: the part of it up to [end] is
    stored, and the write pointer counts it; behind [end] the pointer may be up to [x]
    characters further (a sign that is not stored is not taken off the padding). *)
Record wrote (e : Z) (mem0 : list Z) (x : Z) (out : list Z) (args : list va) (st : pstate) : Prop := {
  wr_mem : w_mem st = list_inserts 0 (take (Z.to_nat (e + 1)) out) mem0;
  wr_args : w_args st = args;
  wr_str : if len out <=? e + 1 then w_str st = len out else len out ≤ w_str st ≤ len out + x;
  wr_extra : 0 ≤ x
}.
(** What is stored of [out] fits into the buffer. *)
Definition fits (e : Z) (mem0 out : list Z) : Prop := 0 ≤ e ∧ Z.min (len out) (e + 1) ≤ len mem0.

(** [m] produces the text [t] and touches no arguments. *)
Definition emits (e : Z) (m : SM pstate unit) (t : list Z) : Prop :=
  ∀ mem0 x out args st, fits e mem0 (out ++ t) → wrote e mem0 x out args st →
    wp m (λ _, wrote e mem0 x (out ++ t) args) st.
(** The same with at most one character counted too much. *)
Definition emits1 (e : Z) (m : SM pstate unit) (t : list Z) : Prop :=
  ∀ mem0 x out args st, fits e mem0 (out ++ t) → wrote e mem0 x out args st →
    wp m (λ _, wrote e mem0 (x + 1) (out ++ t) args) st.

Lemma len_app l l' : len (l ++ l') = len l + len l'.
Proof. unfold len. rewrite length_app. lia. Qed.
Lemma len_cons c l : len (c :: l) = 1 + len l.
Proof. unfold len. simpl length. lia. Qed.
Lemma len_nil : len [] = 0.
Proof. done. Qed.
Lemma len_pos l : 0 ≤ len l.
Proof. unfold len. lia. Qed.
Lemma len_replicate n (c : Z) : len (replicate n c) = Z.of_nat n.
Proof. unfold len. by rewrite length_replicate. Qed.
Create Rewrite HintDb len.
#[export] Hint Rewrite len_app len_cons len_nil len_replicate : len.
Ltac len_lia :=
  unfold spaces, zeros in *; autorewrite with len in *;
  repeat match goal with
  | |- context [len ?l] => lazymatch goal with H : 0 ≤ len l |- _ => fail | _ => pose proof (len_pos l) end
  | _ : context [len ?l] |- _ => lazymatch goal with H : 0 ≤ len l |- _ => fail | _ => pose proof (len_pos l) end
  end; lia.

Lemma fits_prefix e mem0 out t : fits e mem0 (out ++ t) → fits e mem0 out.
Proof. unfold fits. intros [He Hf]. split; [done|]. len_lia. Qed.

Lemma wrote_more e mem0 x out args st : wrote e mem0 x out args st → wrote e mem0 (x + 1) out args st.
Proof. intros [Hm Ha Hs Hx]. constructor; [done|done| |lia]. case_match; lia. Qed.

Lemma emits_put e c : emits e (put e c) [c].
Proof.
  intros mem0 x out args st [He Hf] [Hm Ha Hs Hx]. unfold put. wp_step. wp_step. wp_step.
  rewrite len_app, len_cons, len_nil in Hf. pose proof (len_pos out) as Hp.
  apply wp_when; intros Hle.
  - apply Z.leb_le in Hle. destruct (Z.leb_spec (len out) (e + 1)); [|lia].
    assert (Hlen : length (w_mem st) = length mem0) by (by rewrite Hm, length_inserts).
    rewrite (proj2 (Z.ltb_lt _ _)) by (unfold len in *; lia).
    apply wp_modify, wp_modify. constructor; simpl; [|done| |done].
    + rewrite Hs, Hm, !take_ge by (rewrite ?length_app; unfold len in *; simpl; lia).
      rewrite list_inserts_app_l, Nat.add_0_r. simpl. f_equal. unfold len. lia.
    + rewrite Hs, len_app, (proj2 (Z.leb_le _ _)) by len_lia. done.
  - apply Z.leb_gt in Hle. apply wp_modify. constructor; simpl; [|done| |done].
    + rewrite Hm. f_equal. rewrite take_app_le; [done|].
      destruct (Z.leb_spec (len out) (e + 1)); unfold len in *; lia.
    + rewrite len_app, len_cons, len_nil.
      destruct (Z.leb_spec (len out) (e + 1)), (Z.leb_spec (len out + (1 + 0)) (e + 1)); lia.
Qed.

Lemma emits_nil e : emits e (mret tt) [].
Proof. intros mem0 x out args st _ Hw. by rewrite app_nil_r. Qed.
Lemma emits_seq e m m' t t' : emits e m t → emits e m' t' → emits e (m;; m') (t ++ t').
Proof.
  intros Hm Hm' mem0 x out args st Hf Hw. rewrite (assoc_L (++)) in *. wp_step.
  eapply wp_mono; [by apply Hm; [eapply fits_prefix|]|]. simpl. intros _ st' Hw'. by apply Hm'.
Qed.
Lemma emits_n e c n : emits e (put_n e c n) (replicate n c).
Proof.
  induction n as [|n IH]; [apply emits_nil|]. change (replicate (S n) c) with ([c] ++ replicate n c).
  by apply emits_seq; [apply emits_put|].
Qed.
Lemma emits_list e l : emits e (put_list e l) l.
Proof.
  induction l as [|c l IH]; [apply emits_nil|]. change (c :: l) with ([c] ++ l).
  by apply emits_seq; [apply emits_put|].
Qed.
Lemma emits_when e (b : bool) m t : emits e m t → emits e (when b m) (if b then t else []).
Proof. intros Hm. destruct b; [done|apply emits_nil]. Qed.

(** Behind [end], producing more than the text counts as producing the text. *)
Lemma put_n_past e c n k mem0 x out args st :
  fits e mem0 out → wrote e mem0 x out args st → e + 1 < len out → (k ≤ n ≤ S k)%nat →
  wp (put_n e c n) (λ _, wrote e mem0 (x + 1) (out ++ replicate k c) args) st.
Proof.
  intros Hf Hw Hl Hk.
  assert (Hfn : ∀ t, fits e mem0 (out ++ t)). { intros t. destruct Hf as [He Hf]. split; [done|]. len_lia. }
  eapply wp_mono; [apply emits_n; [apply Hfn|done]|]. simpl. intros _ st' [Hm Ha Hs Hx]. constructor; [|done| |lia].
  - rewrite Hm, !take_app_le by (unfold len in *; lia). done.
  - rewrite len_app, len_replicate in *. rewrite (proj2 (Z.leb_gt _ _)) in Hs by lia.
    rewrite (proj2 (Z.leb_gt _ _)) by lia. lia.
Qed.

(** The sign, and the width left behind it. *)
Definition width_left (e size size' : Z) (out : list Z) : Prop :=
  size' = size ∨ size' = size + 1 ∧ e + 1 < len out.
Lemma sign_spec e sign size mem0 x out args st :
  fits e mem0 (out ++ [sign]) → wrote e mem0 x out args st →
  wp (st ← get; put e sign;; mret (if w_str st <=? e then size - 1 else size))
    (λ size' st', wrote e mem0 x (out ++ [sign]) args st' ∧ width_left e (size - 1) size' (out ++ [sign])) st.
Proof.
  intros Hf Hw. wp_step. wp_step. wp_step. eapply wp_mono; [by apply emits_put|]. simpl. intros _ st' Hw'.
  wp_step. split; [done|]. destruct Hw as [_ _ Hs _]. unfold width_left. rewrite len_app, len_cons, len_nil.
  destruct (Z.leb_spec (len out) (e + 1)), (Z.leb_spec (w_str st) e); lia.
Qed.
Lemma pad_spec e c size size' mem0 x out args st :
  fits e mem0 (out ++ replicate (Z.to_nat size) c) → wrote e mem0 x out args st → width_left e size size' out →
  wp (put_n e c (Z.to_nat size')) (λ _, wrote e mem0 (x + 1) (out ++ replicate (Z.to_nat size) c) args) st.
Proof.
  intros Hf Hw [->|[-> Hl]].
  { eapply wp_mono; [by apply emits_n|]. intros [] st'. apply wrote_more. }
  apply put_n_past; [by eapply fits_prefix|done|done|lia].
Qed.

(** * Numbers *)

(** The part of [print_number] behind the sign and the digits. *)
Definition layout_number (e c sign : Z) (tmp : list Z) (s precision : Z) (left zero : bool) : SM pstate unit :=
  let i := Z.of_nat (length tmp) in
  let precision := if precision <? i then i else precision in
  let size := s - precision in
  size ← (if zero || left then mret size
          else put_while e (asc " ") (if negb (sign =? 0) && (0 <? size) then size - 1 else size));
  size ← (if sign =? 0 then mret size
          else st ← get; put e sign;; mret (if w_str st <=? e then size - 1 else size));
  size ← (if left then mret size else put_while e c size);
  put_n e (asc "0") (Z.to_nat (precision - i));;
  put_list e (rev tmp);;
  put_n e (asc " ") (Z.to_nat size).

Definition sign_list (sign : Z) : list Z := if sign =? 0 then [] else [sign].

(** The sign step for every sign: nothing is done for none. *)
Lemma sign_step e sign size mem0 x out args st :
  fits e mem0 (out ++ sign_list sign) → wrote e mem0 x out args st →
  wp (if sign =? 0 then mret size
      else st ← get; put e sign;; mret (if w_str st <=? e then size - 1 else size))
    (λ size' st', wrote e mem0 x (out ++ sign_list sign) args st' ∧
       width_left e (size - len (sign_list sign)) size' (out ++ sign_list sign)) st.
Proof.
  unfold sign_list. destruct (sign =? 0); intros Hf Hw; [|by apply sign_spec].
  wp_step. rewrite app_nil_r, len_nil, Z.sub_0_r. split; [done|by left].
Qed.
Lemma width_left_app e size size' out t : width_left e size size' out → width_left e size size' (out ++ t).
Proof. unfold width_left. intros [?|[? ?]]; [by left|right]. split; [done|]. len_lia. Qed.

(** The body: precision zeros, digits and the padding on the right, which is [size]
    characters wide if the width is used up. *)
Lemma body_spec e tmp k size size' mem0 x out args st :
  let t := replicate k (asc "0") ++ rev tmp ++ spaces size in
  fits e mem0 (out ++ t) → wrote e mem0 x out args st → width_left e size size' out →
  wp (put_n e (asc "0") k;; put_list e (rev tmp);; put_n e (asc " ") (Z.to_nat size'))
    (λ _, wrote e mem0 (x + 1) (out ++ t) args) st.
Proof.
  intros t Hf Hw Hs. unfold t in *. rewrite !(assoc_L (++)) in *.
  wp_step. eapply wp_mono; [apply emits_n; [by do 2 eapply fits_prefix|done]|]. simpl. intros _ st1 Hw1.
  wp_step. eapply wp_mono; [apply emits_list; [by eapply fits_prefix|done]|]. simpl. intros _ st2 Hw2.
  apply pad_spec; [done|done|by do 2 apply width_left_app].
Qed.

Lemma body_done e tmp k size' :
  size' ≤ 0 →
  emits e (put_n e (asc "0") k;; put_list e (rev tmp);; put_n e (asc " ") (Z.to_nat size'))
    (replicate k (asc "0") ++ rev tmp).
Proof.
  intros Hs. rewrite Z2Nat.nonpos by done.
  pose proof (emits_seq _ _ _ _ _ (emits_list e (rev tmp)) (emits_nil e)) as H. rewrite app_nil_r in H.
  by apply emits_seq; [apply emits_n|].
Qed.
(** The width behind a padding loop is used up. *)
Lemma while_done (size : Z) : (if 0 <? size then -1 else size - 1) ≤ -1.
Proof. destruct (Z.ltb_spec 0 size); lia. Qed.

Lemma layout_number_spec e c sign tmp s precision (left zero : bool) :
  tmp ≠ [] → c = (if zero then asc "0" else asc " ") → (left = true → zero = false) →
  emits1 e (layout_number e c sign tmp s precision left zero)
    (number_text left zero s precision (sign_list sign) (rev tmp)).
Proof.
  intros Hne Hc Hlz mem0 x out args st Hf Hw. unfold layout_number.
  set (i := Z.of_nat (length tmp)). set (pr := if precision <? i then i else precision).
  assert (Hi : len (rev tmp) = i) by (unfold len; by rewrite length_rev).
  assert (Hsl : len (sign_list sign) = if sign =? 0 then 0 else 1) by (unfold sign_list; by destruct (sign =? 0)).
  assert (Hz : Z.to_nat (pr - i) = Z.to_nat (precision - i)).
  { unfold pr. destruct (Z.ltb_spec precision i); lia. }
  assert (Hpr : i + Z.of_nat (Z.to_nat (precision - i)) = pr).
  { unfold pr. destruct (Z.ltb_spec precision i); lia. }
  clearbody pr. rewrite Hz. unfold number_text in *. rewrite Hi in *. unfold zeros in *.
  set (z := Z.to_nat (precision - i)) in *. clearbody i.
  destruct left; [rewrite (Hlz eq_refl) in *|destruct zero]; simpl in Hf |- *.
  - (* padding on the right *)
    unfold justify in *. rewrite !len_app, len_replicate, Hi in *.
    set (n := s - _) in *. rewrite <- !(assoc_L (++)) in *.
    wp_step. wp_step. wp_step. eapply wp_mono; [apply sign_step; [rewrite (assoc_L (++)) in Hf; by eapply fits_prefix|done]|].
    intros size' st' [Hw' Hl']. wp_step. wp_step. rewrite (assoc_L (++)) in *.
    apply body_spec; [done|done|]. replace n with (s - pr - len (sign_list sign)) by lia. done.
  - (* zeros *)
    subst c. rewrite len_app, len_replicate, Hi in *. set (n := s - _ - _) in *.
    wp_step. wp_step. wp_step. rewrite !(assoc_L (++)) in *.
    eapply wp_mono; [apply sign_step; [by do 3 eapply fits_prefix|done]|].
    intros size' st' [Hw' Hl']. unfold put_while. wp_step. wp_step. replace (s - pr - _) with n in Hl' by lia.
    eapply wp_mono; [apply (pad_spec e (asc "0") n); [by do 2 eapply fits_prefix|done|done]|].
    intros [] st2 Hw2. wp_step. pose proof (while_done size').
    rewrite <- (assoc_L (++) _ (replicate z _)) in Hf |- *. apply body_done; [lia|done|done].
  - (* spaces on the left *)
    subst c. unfold justify in *. rewrite !len_app, len_replicate, Hi in *. set (n := s - _) in *.
    rewrite !(assoc_L (++)) in *. unfold put_while. wp_step. wp_step.
    assert (Hn : Z.to_nat (if negb (sign =? 0) && (0 <? s - pr) then s - pr - 1 else s - pr) = Z.to_nat n).
    { unfold n. rewrite Hsl. destruct (sign =? 0), (Z.ltb_spec 0 (s - pr)); simpl; lia. }
    rewrite Hn. eapply wp_mono; [apply emits_n; [by do 3 eapply fits_prefix|done]|].
    intros [] st1 Hw1. wp_step. fold (spaces n) in Hw1.
    pose proof (while_done (if negb (sign =? 0) && (0 <? s - pr) then s - pr - 1 else s - pr)) as Hs1.
    set (size1 := if _ : bool then -1 else _) in *. clearbody size1.
    wp_step. eapply wp_mono; [apply sign_step; [by do 2 eapply fits_prefix|done]|].
    intros size2 st2 [Hw2 Hl2].
    assert (Hs2 : size2 ≤ 0) by (destruct Hl2 as [->|[-> _]]; rewrite Hsl; destruct (sign =? 0); lia).
    rewrite Z2Nat.nonpos by done. wp_step. wp_step. apply wp_ret. wp_step.
    pose proof (while_done size2). rewrite <- (assoc_L (++) _ (replicate z _)) in Hf |- *.
    eapply wp_mono; [apply body_done; [lia|done|done]|]. intros [] st'. apply wrote_more.
Qed.

(** The digits of a number as the code stores them. *)
Lemma digits_of (upper : bool) num base :
  - 2 ^ 31 ≤ num < 2 ^ 31 →
  ∃ tmp, tmp ≠ [] ∧ rev tmp = digit_char upper <$> numeral (print_base base) (u32 num) ∧
    (if num =? 0 then Some [asc "0"]
     else number_digits 16 (if upper then large_digits else small_digits) num base) = Some tmp.
Proof.
  intros Hn. pose proof (print_base_range base) as Hb. pose proof (u32_range num) as Hr.
  destruct (Z.eqb_spec num 0) as [->|Hne].
  { exists [asc "0"]. unfold print_base. by destruct (base =? 10), upper. }
  assert (H0 : u32 num ≠ 0) by (unfold u32; Z.to_euclidean_division_equations; lia).
  destruct (number_digits_numeral 16 32 num base upper []) as (tmp & Hd & Ht); [|lia|].
  { split; [lia|]. enough (10 ^ 16 ≤ print_base base ^ Z.of_nat 16) by lia. apply Z.pow_le_mono_l. lia. }
  exists tmp. rewrite fmap_nil, app_nil_r in Ht. split_and!; [|done|done].
  intros ->. apply fmap_nil_inv in Ht. by apply numeral_aux_nil in Ht; [|lia].
Qed.

(** [print_number] writes its reference. *)
Lemma print_number_spec e num base s precision type :
  - 2 ^ 31 ≤ num < 2 ^ 31 →
  let sgn := flag_test type SIGN in
  emits1 e (print_number e num base s precision type)
    (number_text (flag_test type LEFT) (flag_test type ZEROPAD) s precision
       (if sgn then sign_text (flag_test type PLUS) (flag_test type SPACE) num else [])
       (digit_char (flag_test type LARGE) <$> numeral (print_base base) (if sgn then Z.abs num else u32 num))).
Proof.
  intros Hn sgn. unfold print_number.
  set (ty := if flag_test type LEFT then Z.land type (Z.lnot ZEROPAD) else type).
  assert (Hty : ∀ j, 0 ≤ j → flag_test ty (2 ^ j) = flag_test type (2 ^ j) && negb ((j =? 0) && flag_test type LEFT)).
  { intros j Hj. unfold ty. destruct (flag_test type LEFT); [|by rewrite !andb_false_r, andb_true_r].
    unfold ZEROPAD. rewrite flag_clear by lia. f_equal. by rewrite Z.eqb_sym, andb_true_r. }
  assert (HL : flag_test ty LEFT = flag_test type LEFT) by (unfold LEFT; rewrite Hty by lia; apply andb_true_r).
  assert (HZ : flag_test ty ZEROPAD = flag_test type ZEROPAD && negb (flag_test type LEFT)).
  { unfold ZEROPAD. by rewrite Hty by lia. }
  assert (HS : flag_test ty SIGN = sgn) by (unfold SIGN; rewrite Hty by lia; apply andb_true_r).
  assert (HP : flag_test ty PLUS = flag_test type PLUS) by (unfold PLUS; rewrite Hty by lia; apply andb_true_r).
  assert (HX : flag_test ty SPACE = flag_test type SPACE) by (unfold SPACE; rewrite Hty by lia; apply andb_true_r).
  rewrite flag_test_lor, HL, HZ, HS, HP, HX. clearbody ty sgn. clear Hty HL HZ HS HP HX.
  set (left := flag_test type LEFT). set (zero := flag_test type ZEROPAD). set (upper := flag_test type LARGE).
  set (plus := flag_test type PLUS). set (space := flag_test type SPACE).
  set (sn := if sgn then _ else (0, num)).
  assert (Hsn : - 2 ^ 31 ≤ sn.2 < 2 ^ 31 ∧ u32 (sn.2) = (if sgn then Z.abs num else u32 num) ∧
    sign_list (sn.1) = if sgn then sign_text plus space num else []).
  { unfold sn, sign_text. destruct sgn; [|done]. destruct (Z.ltb_spec num 0); simpl.
    - split_and!; [apply i32_range..| |done]. rewrite u32_i32. unfold u32. rewrite Z.mod_small; lia.
    - destruct plus, space; simpl; (split_and!; [lia..| |done]); unfold u32; rewrite Z.mod_small; lia. }
  destruct sn as [sign num']. simpl in Hsn. destruct Hsn as (Hr & <- & <-). clear Hn.
  destruct (digits_of upper num' base Hr) as (tmp & Hne & <- & Ed).
  replace (number_text left zero) with (number_text left (zero && negb left)) by (by destruct left, zero).
  intros mem0 x out args st Hf Hw. wp_step.
  assert (Hd : ∀ Q, Q tmp st → wp (if num' =? 0 then mret [asc "0"] else of_option BadPointer
    (number_digits 16 (if upper then large_digits else small_digits) num' base)) Q st).
  { intros Q HQ. destruct (num' =? 0); [by simplify_eq|by eapply wp_option]. }
  apply Hd.
  apply (layout_number_spec e _ sign tmp s precision left (zero && negb left)); [done|done| |done|done].
  intros ->. apply andb_false_r.
Qed.

(** * Reading the format *)

(** The next character is none of [bad]. *)
Definition starts_not (bad : string) (l : list Z) : Prop :=
  match l with c :: _ => 0 < c < 2 ^ 8 ∧ c ∉ text bad | [] => False end.
Lemma starts_not_mono bad bad' l :
  bool_decide (text bad ⊆ text bad') = true → starts_not bad' l → starts_not bad l.
Proof. intros Hb%bool_decide_eq_true. destruct l; simpl; [done|]. set_solver. Qed.
Ltac starts := eapply starts_not_mono; [|eassumption]; vm_compute; reflexivity.

Lemma isdigit_text c : 0 < c < 2 ^ 8 → isdigit c = bool_decide (c ∈ text "0123456789").
Proof.
  intros Hc.
  assert (Hall : forallb (λ n, Bool.eqb (isdigit (Z.of_nat n)) (bool_decide (Z.of_nat n ∈ text "0123456789")))
    (seq 0 256) = true) by (vm_compute; reflexivity).
  rewrite forallb_forall in Hall. specialize (Hall (Z.to_nat c)).
  rewrite in_seq, Z2Nat.id in Hall by lia. apply eqb_prop, Hall. lia.
Qed.
Lemma starts_not_digit bad l c l' :
  bool_decide (text "0123456789" ⊆ text bad) = true → starts_not bad l → l = c :: l' → isdigit c = false.
Proof.
  intros Hb%bool_decide_eq_true Hs ->. destruct Hs as [Hc Hs].
  rewrite isdigit_text, bool_decide_eq_false by done. set_solver.
Qed.
Lemma starts_not_char bad l c l' a :
  bool_decide (asc a ∈ text bad) = true → starts_not bad l → l = c :: l' → (c =? asc a) = false.
Proof. intros Ha%bool_decide_eq_true Hs ->. destruct Hs as [_ Hs]. apply Z.eqb_neq. by intros ->. Qed.

(** What the next character is not. *)
Ltac not_digit c HT :=
  assert (isdigit c = false) as -> by (eapply starts_not_digit; [|exact HT|reflexivity]; vm_compute; reflexivity).
Ltac not_char c a HT :=
  assert ((c =? asc a) = false) as -> by (eapply starts_not_char; [|exact HT|reflexivity]; vm_compute; reflexivity).

Lemma digit_char_isdigit d : 0 ≤ d < 10 → isdigit (digit_char false d) = true ∧ digit_char false d - asc "0" = d.
Proof.
  intros Hd. unfold digit_char. rewrite (proj2 (Z.ltb_lt d 10)) by lia. split; [|lia].
  unfold isdigit. replace (asc "0" + d - asc "0") with d by lia. unfold u32. rewrite Z.mod_small by lia.
  apply Z.ltb_lt. lia.
Qed.

(** [skip_atoi] reads a decimal numeral. *)
Lemma foldl_positional_le i ds :
  0 ≤ i → Forall (λ d, 0 ≤ d < 10) ds → i ≤ foldl (λ v d, v * 10 + d) i ds.
Proof.
  intros Hi Hd. revert i Hi. induction Hd as [|d ds Hd _ IH]; intros i Hi; simpl; [done|].
  etrans; [|apply IH]; lia.
Qed.
Lemma skip_atoi_spec i ds T :
  0 ≤ i → Forall (λ d, 0 ≤ d < 10) ds → foldl (λ v d, v * 10 + d) i ds < 2 ^ 31 →
  starts_not "0123456789" T →
  skip_atoi i ((digit_char false <$> ds) ++ T) = Some (foldl (λ v d, v * 10 + d) i ds, T).
Proof.
  intros Hi Hd. revert i Hi. induction Hd as [|d ds Hd Hds IH]; intros i Hi Hv HT; simpl.
  - destruct T as [|c T]; [done|]. simpl. by not_digit c HT.
  - destruct (digit_char_isdigit d Hd) as [-> Hc]. simpl in Hv.
    pose proof (foldl_positional_le (i * 10 + d) ds). 
    replace (i * 10 + digit_char false d - asc "0") with (i * 10 + d) by lia.
    rewrite i32_small by (specialize (H ltac:(lia) Hds); lia). apply IH; [lia|done|done].
Qed.
Lemma skip_atoi_numeral n T :
  0 ≤ n < 2 ^ 31 → starts_not "0123456789" T →
  skip_atoi 0 ((digit_char false <$> numeral 10 n) ++ T) = Some (n, T).
Proof.
  intros Hn HT. pose proof (numeral_value 10 n) as Hv. unfold positional in Hv.
  rewrite skip_atoi_spec; [by rewrite Hv by lia|done|apply numeral_digits; lia|rewrite Hv; lia|done].
Qed.

(** A numeral starts with a digit. *)
Lemma numeral_first n T :
  0 ≤ n → ∃ c T', (digit_char false <$> numeral 10 n) ++ T = c :: T' ∧ isdigit c = true.
Proof.
  intros Hn. pose proof (numeral_digits 10 n ltac:(lia) Hn) as Hd.
  destruct (numeral 10 n) as [|d ds] eqn:E; [by apply numeral_aux_nil in E; [|lia]|].
  eexists _, _. split; [done|]. apply digit_char_isdigit. by inversion Hd.
Qed.

(** ** Flags *)

Definition flag_bit (c : Z) : Z :=
  if c =? asc "-" then 4 else if c =? asc "+" then 2 else if c =? asc " " then 3
  else if c =? asc "#" then 5 else 0.
Definition flags_of (flags : Z) (fs : list Z) : Z := foldl (λ f c, Z.lor f (2 ^ flag_bit c)) flags fs.

Lemma flags_loop_spec fs flags T :
  Forall (.∈ flag_chars) fs → starts_not "-+ #0" T →
  flags_loop flags (fs ++ T) = Some (flags_of flags fs, T).
Proof.
  intros Hfs HT. revert flags. induction Hfs as [|c fs Hc _ IH]; intros flags; simpl.
  - destruct T as [|c T]; [done|]. simpl.
    rewrite !(starts_not_char "-+ #0" (c :: T) c T) by (done || (vm_compute; reflexivity)). done.
  - unfold flags_of in *. simpl. rewrite <- IH. clear IH. unfold flag_chars in Hc. simpl in Hc.
    rewrite !elem_of_cons in Hc. destruct Hc as [->|[->|[->|[->|[->|[]%not_elem_of_nil]]]]]; done.
Qed.
Lemma flags_of_test fs flags a j :
  Forall (.∈ flag_chars) fs → asc a ∈ flag_chars → flag_bit (asc a) = j →
  flag_test (flags_of flags fs) (2 ^ j) = flag_test flags (2 ^ j) || bool_decide (asc a ∈ fs).
Proof.
  intros Hfs Ha <-. revert flags. unfold flags_of.
  assert (Hpos : ∀ c, 0 ≤ flag_bit c) by (intros c; unfold flag_bit; repeat case_match; lia).
  induction Hfs as [|c fs Hc _ IH]; intros flags; simpl; [by rewrite orb_false_r|].
  rewrite IH, flag_set by done. rewrite <- orb_assoc. f_equal.
  assert ((flag_bit c =? flag_bit (asc a)) = bool_decide (asc a = c)) as ->.
  { unfold flag_chars in *. simpl in Hc, Ha. rewrite !elem_of_cons in Hc, Ha.
    destruct Hc as [->|[->|[->|[->|[->|[]%not_elem_of_nil]]]]],
      Ha as [->|[->|[->|[->|[->|[]%not_elem_of_nil]]]]]; done. }
  apply eq_true_iff_eq. rewrite orb_true_iff, !bool_decide_eq_true, elem_of_cons. done.
Qed.
Lemma flags_of_none fs flags j :
  j = 1 ∨ j = 6 → flag_test (flags_of flags fs) (2 ^ j) = flag_test flags (2 ^ j).
Proof.
  intros Hj. revert flags. unfold flags_of. induction fs as [|c fs IH]; intros flags; simpl; [done|].
  rewrite IH, flag_set by (unfold flag_bit; repeat case_match; lia).
  unfold flag_bit. destruct Hj as [->| ->]; repeat case_match; by rewrite orb_false_r.
Qed.

(** ** Fields *)

(** Reading a character that is there. *)
Ltac read_char := wp_step; first [apply wp_ret | eapply wp_option; [reflexivity|]]; cbv beta.

Section fields.
Context (e : Z) (mem0 : list Z) (x : Z) (out : list Z).
Local Abbreviation state args := (wrote e mem0 x out (va_mem <$> args)).

Lemma va_int_spec v args st : state (VInt v :: args) st → wp va_int (λ r st', r = v ∧ state args st') st.
Proof.
  intros [Hm Ha Hs]. unfold va_int. wp_step. wp_step. rewrite Ha. simpl. wp_step. wp_step. wp_step.
  by split; [|constructor].
Qed.
Lemma va_str_spec s args st :
  state (VStr s :: args) st → wp va_str (λ r st', r = (s' ← s; Some (s' ++ [0])) ∧ state args st') st.
Proof.
  intros [Hm Ha Hs]. unfold va_str. wp_step. wp_step. rewrite Ha. simpl.
  destruct s as [s|]; simpl; wp_step; wp_step; wp_step; by split; [|constructor].
Qed.

Definition field_ok (lo : Z) (f : option field) : Prop :=
  match f with Some (FNum n) => lo ≤ n < 2 ^ 31 | _ => True end.

Lemma get_width_spec flags f args w neg args' T st :
  resolve_width f args = Some (w, neg, args') → field_ok 1 f → starts_not "0123456789*" T →
  state args st →
  wp (get_width flags (from_option field_text [] f ++ T))
    (λ r st', r = (w, if neg : bool then Z.lor flags LEFT else flags, T) ∧ state args' st') st.
Proof.
  intros Hr Hok HT Hst. unfold get_width, deref. destruct f as [[n|]|]; simpl in *.
  - simplify_eq. destruct (numeral_first w T ltac:(lia)) as (c & T' & E & Hc).
    rewrite E. read_char. rewrite Hc. rewrite <- E. clear E Hc. wp_step.
    eapply wp_option; [apply skip_atoi_numeral; [lia|starts]|].
    simpl. by wp_step.
  - destruct args as [|[v|] args]; [done| |done]. case_match eqn:Hmin; [done|]. simplify_eq.
    apply Z.eqb_neq in Hmin. read_char. simpl. wp_step.
    eapply wp_mono; [by apply va_int_spec|]. intros r st' [-> Hst']. simpl.
    pose proof (i32_range v). destruct (Z.ltb_spec (i32 v) 0); wp_step; (split; [|done]).
    + rewrite i32_small, Z.abs_neq by lia. done.
    + by rewrite Z.abs_eq by lia.
  - simplify_eq. destruct T as [|c T]; [done|]. read_char.
    not_digit c HT. not_char c "*"%char HT.
    by wp_step.
Qed.

Lemma get_precision_spec f args p args' T st :
  resolve_prec f args = Some (p, args') → match f with Some f => field_ok 0 f | None => True end →
  starts_not "0123456789*." T → state args st →
  wp (get_precision (from_option (λ p, asc "." :: from_option field_text [] p) [] f ++ T))
    (λ r st', r = (p, T) ∧ state args' st') st.
Proof.
  intros Hr Hok HT Hst. unfold get_precision, deref. destruct f as [[[n|]|]|]; simpl in *.
  - simplify_eq. read_char. simpl.
    destruct (numeral_first p T ltac:(lia)) as (c & T' & E & Hc).
    rewrite E. read_char. rewrite Hc. rewrite <- E. clear E Hc. wp_step.
    eapply wp_option; [apply skip_atoi_numeral; [lia|starts]|].
    simpl. wp_step. by rewrite (proj2 (Z.ltb_ge p 0)) by lia.
  - destruct args as [|[v|] args]; [done| |done]. simplify_eq. read_char. simpl.
    read_char. simpl. wp_step. wp_step.
    eapply wp_mono; [by apply va_int_spec|]. intros r st' [-> Hst']. wp_step. wp_step.
    split; [|done]. destruct (Z.ltb_spec (i32 v) 0); [by rewrite Z.max_l by lia|by rewrite Z.max_r by lia].
  - simplify_eq. read_char. simpl. destruct T as [|c T]; [done|]. read_char.
    not_digit c HT. not_char c "*"%char HT.
    wp_step. wp_step. by wp_step.
  - simplify_eq. destruct T as [|c T]; [done|]. read_char.
    not_char c "."%char HT. by wp_step.
Qed.

Lemma get_qualifier_spec q args T st :
  match q with Some q => q = asc "h" ∨ q = asc "l" | None => True end →
  starts_not "hl" T → state args st →
  wp (get_qualifier (option_list q ++ T)) (λ r st', r = (default 0 q, T) ∧ state args st') st.
Proof.
  intros Hq HT Hst. unfold get_qualifier, deref. destruct q as [q|]; simpl.
  - read_char. wp_step. by destruct Hq as [->| ->].
  - destruct T as [|c T]; [done|]. read_char. wp_step.
    not_char c "h"%char HT. by not_char c "l"%char HT.
Qed.
End fields.

(** ** The conversions *)

Lemma i16_small_i32 v : i32 (u32 (i16 (u16 v))) = i16 v.
Proof.
  rewrite i32_u32. assert (i16 (u16 v) = i16 v) as -> by (unfold i16, u16; by rewrite Zplus_mod_idemp_l).
  apply i32_small. unfold i16. pose proof (Z.mod_pos_bound (v + 2 ^ 15) (2 ^ 16)). lia.
Qed.
Lemma u16_small_u32 v : u32 (i32 (u16 v)) = u16 v.
Proof.
  rewrite u32_i32. unfold u32. apply Z.mod_small. unfold u16. pose proof (Z.mod_pos_bound v (2 ^ 16)). lia.
Qed.

Section conversions.
Context (e : Z) (mem0 : list Z) (x : Z) (out : list Z) (args : list va) (st : pstate) (flags w : Z).
Local Abbreviation state out args := (wrote e mem0 x out (va_mem <$> args)).

Lemma print_char_spec v :
  let t := justify (flag_test flags LEFT) w [u8 v] in
  fits e mem0 (out ++ t) → state out (VInt v :: args) st →
  wp (print_char e flags w) (λ _, state (out ++ t) args) st.
Proof.
  intros t Hf Hst. unfold print_char, t, justify in *. rewrite len_cons, len_nil, Z.add_0_r in *.
  destruct (flag_test flags LEFT); simpl negb; unfold when.
  - wp_step. wp_step. wp_step. eapply wp_mono; [by apply va_int_spec|]. intros ? st1 [-> Hst1].
    by apply (emits_seq e _ _ [u8 v] (spaces (w - 1)) (emits_put e (u8 v)) (emits_n e _ _)).
  - wp_step. rewrite (assoc_L (++)) in *.
    eapply wp_mono; [apply emits_n; [by eapply fits_prefix|done]|]. intros [] st1 Hst1.
    wp_step. eapply wp_mono; [by apply va_int_spec|]. intros ? st2 [-> Hst2]. wp_step.
    eapply wp_mono; [by apply emits_put|]. intros [] st3 Hst3. by wp_step.
Qed.

Lemma print_string_spec s p :
  let t := default (text "(NULL)") s in
  let t := justify (flag_test flags LEFT) w (if 0 <? p then take (Z.to_nat p) t else t) in
  va_ok (VStr s) → fits e mem0 (out ++ t) → state out (VStr s :: args) st →
  wp (print_string e flags w p) (λ _, state (out ++ t) args) st.
Proof.
  intros str t Hok Hf Hst. unfold print_string. wp_step.
  eapply wp_mono; [by apply va_str_spec|]. intros ? st1 [-> Hst1]. cbv beta.
  assert (default (text "(NULL)" ++ [0]) (s' ← s; Some (s' ++ [0])) = str ++ [0]) as -> by (unfold str; by destruct s).
  assert (Hch : chars str). { unfold str. destruct s; [done|]. simpl. repeat constructor; done. }
  cbv zeta. wp_step. eapply wp_option; [by apply (strlen_chars str [])|].
  set (n := if _ && _ then p else Z.of_nat (length str)).
  assert (Hn : take (Z.to_nat n) (str ++ [0]) = (if 0 <? p then take (Z.to_nat p) str else str) ∧
               len (if 0 <? p then take (Z.to_nat p) str else str) = n).
  { unfold n, len. destruct (Z.ltb_spec 0 p); simpl; [destruct (Z.ltb_spec p (Z.of_nat (length str)))|].
    - rewrite take_app_le, length_take by lia. split; [done|lia].
    - rewrite (take_ge str (Z.to_nat p)), Nat2Z.id, take_app_length by lia. done.
    - by rewrite Nat2Z.id, take_app_length. }
  destruct Hn as [-> Hl]. unfold t, justify in *. rewrite Hl in *. clear Hl t.
  set (u := if 0 <? p then _ else _) in *. clearbody u n.
  destruct (flag_test flags LEFT); simpl negb; unfold when.
  - wp_step. wp_step. by apply (emits_seq e _ _ u (spaces (w - n)) (emits_list e u) (emits_n e _ _)).
  - pose proof (emits_seq e _ _ _ _ (emits_list e u) (emits_nil e)) as Hl. rewrite app_nil_r in Hl.
    by apply (emits_seq e _ _ (spaces (w - n)) u (emits_n e _ _) Hl).
Qed.

Lemma print_integer_spec v p q base :
  let sgn := flag_test flags SIGN in
  let h := (q =? asc "h") in
  let s := if h then i16 v else i32 v in
  let u := if h then u16 v else u32 v in
  let t := number_text (flag_test flags LEFT) (flag_test flags ZEROPAD) w p
       (if sgn then sign_text (flag_test flags PLUS) (flag_test flags SPACE) s else [])
       (digit_char (flag_test flags LARGE) <$> numeral (print_base base) (if sgn then Z.abs s else u)) in
  fits e mem0 (out ++ t) → state out (VInt v :: args) st →
  wp (print_integer e flags w p q base) (λ _, wrote e mem0 (x + 1) (out ++ t) (va_mem <$> args)) st.
Proof.
  intros sgn h s u t Hf Hst. unfold print_integer. wp_step.
  eapply wp_mono; [by apply va_int_spec|]. intros ? st1 [-> Hst1]. cbv beta zeta.
  fold sgn h. set (num := i32 _).
  assert (Hs : if sgn then num = s else u32 num = u).
  { unfold num, s, u. destruct sgn, h; [apply i16_small_i32| |apply u16_small_u32|].
    - rewrite !i32_u32. apply i32_small, i32_range.
    - rewrite u32_i32. unfold u32. apply Z.mod_mod. lia. }
  pose proof (print_number_spec e num base w p flags (i32_range _)) as Hp. cbv zeta in Hp. fold sgn in Hp.
  assert (t = number_text (flag_test flags LEFT) (flag_test flags ZEROPAD) w p
       (if sgn then sign_text (flag_test flags PLUS) (flag_test flags SPACE) num else [])
       (digit_char (flag_test flags LARGE) <$> numeral (print_base base) (if sgn then Z.abs num else u32 num))) as Ht.
  { unfold t. destruct sgn; by rewrite Hs. }
  rewrite Ht in *. by apply Hp.
Qed.
End conversions.

(** ** A whole conversion *)

(** What can follow each part of a conversion. *)
Definition no_conv : string := "-+ #0123456789*.hl".
Lemma conv_starts c T :
  match c with Cother c => 0 < c < 2 ^ 8 ∧ c ∉ reserved | _ => True end → starts_not no_conv (conv_char c :: T).
Proof.
  intros Hc. unfold starts_not. destruct c as [| | | | | | | | | |c]; simpl conv_char;
    try (split; [by vm_compute|vm_compute; set_solver]).
  destruct Hc as [Hr Hc]. split; [done|]. unfold reserved in Hc. set_solver.
Qed.
Lemma qual_starts q T :
  match q with Some q => q = asc "h" ∨ q = asc "l" | None => True end → starts_not no_conv T →
  starts_not "-+ #0123456789*." (option_list q ++ T).
Proof.
  intros Hq HT. destruct q as [q|]; simpl; [|starts].
  destruct Hq as [->| ->]; (split; [by vm_compute|vm_compute; set_solver]).
Qed.
Lemma prec_starts (p : option (option field)) T :
  starts_not "-+ #0123456789*." T →
  starts_not "-+ #0123456789*" (from_option (λ p, asc "." :: from_option field_text [] p) [] p ++ T).
Proof.
  intros HT. destruct p as [p|]; simpl; [|starts].
  split; [by vm_compute|vm_compute; set_solver].
Qed.
Lemma width_starts f T :
  field_ok 1 f → starts_not "-+ #0123456789*" T → starts_not "-+ #0" (from_option field_text [] f ++ T).
Proof.
  intros Hf HT. destruct f as [[n|]|]; simpl; [| |starts].
  - simpl in Hf. destruct (numeral_head 10 n) as (d & l & E & Hd); [lia..|]. rewrite E. simpl.
    pose proof (numeral_digits 10 n) as Hall. rewrite E in Hall. specialize (Hall ltac:(lia) ltac:(lia)).
    inversion Hall; subst. unfold digit_char. rewrite (proj2 (Z.ltb_lt d 10)) by lia.
    change (asc "0") with 48. change (asc "-") with 45. change (asc "+") with 43.
    change (asc " ") with 32. change (asc "#") with 35. split; [lia|].
    intros Hin. rewrite !elem_of_cons, elem_of_nil in Hin. lia.
  - split; [by vm_compute|vm_compute; set_solver].
Qed.

(** The flags of a conversion, with the width read from an argument. *)
Lemma conv_flags fs (neg : bool) :
  Forall (.∈ flag_chars) fs →
  let fl := if neg then Z.lor (flags_of 0 fs) LEFT else flags_of 0 fs in
  flag_test fl LEFT = bool_decide (asc "-" ∈ fs) || neg ∧
  flag_test fl ZEROPAD = bool_decide (asc "0" ∈ fs) ∧
  flag_test fl PLUS = bool_decide (asc "+" ∈ fs) ∧
  flag_test fl SPACE = bool_decide (asc " " ∈ fs) ∧
  flag_test fl SIGN = false ∧ flag_test fl LARGE = false.
Proof.
  intros Hfs.
  assert (Ht : ∀ j, 0 ≤ j → flag_test (if neg then Z.lor (flags_of 0 fs) LEFT else flags_of 0 fs) (2 ^ j) =
    flag_test (flags_of 0 fs) (2 ^ j) || ((4 =? j) && neg)).
  { intros j Hj. unfold LEFT. destruct neg; [by rewrite flag_set, andb_true_r by lia|].
    by rewrite andb_false_r, orb_false_r. }
  unfold LEFT at 2, ZEROPAD, PLUS, SPACE, SIGN, LARGE. cbv zeta.
  rewrite !Ht, (flags_of_none fs 0 1), (flags_of_none fs 0 6) by lia. simpl.
  rewrite (flags_of_test fs 0 "-"), (flags_of_test fs 0 "0"), (flags_of_test fs 0 "+"), (flags_of_test fs 0 " ")
    by (done || set_solver).
  by rewrite !orb_false_r.
Qed.
