(* ===== verification/PrintfCorrect.v ===== *)
(** The theorems on the formatted output: every format of literal characters and
    conversions is rendered as the reference says, within the bounds of the buffer. *)

From stdpp Require Import base list strings sets.
From Stdlib Require Import ZArith Lia Ascii.
From S2P Require Import Prelude Kservice Printf.

Open Scope Z_scope.

(** * Conversions *)

Section conversion.
Context (e : Z) (mem0 : list Z) (x : Z) (out : list Z).
Local Abbreviation state out args := (wrote e mem0 x out (va_mem <$> args)).
Local Abbreviation state1 out args := (wrote e mem0 (x + 1) out (va_mem <$> args)).

Lemma is_h_default q :
  match q with Some q => q = asc "h" ∨ q = asc "l" | None => True end →
  (default 0 q =? asc "h") = is_h q.
Proof. intros Hq. destruct q as [q|]; [|done]. by destruct Hq as [->| ->]. Qed.

(** The flags in effect when a number is printed. *)
Definition flags_are (f : Z) (left zero plus space sgn large : bool) : Prop :=
  flag_test f LEFT = left ∧ flag_test f ZEROPAD = zero ∧ flag_test f PLUS = plus ∧
  flag_test f SPACE = space ∧ flag_test f SIGN = sgn ∧ flag_test f LARGE = large.
Lemma flags_are_sign f l z p s g u : flags_are f l z p s g u → flags_are (Z.lor f SIGN) l z p s true u.
Proof.
  unfold flags_are, LEFT, ZEROPAD, PLUS, SPACE, SIGN, LARGE. intros (<- & <- & <- & <- & _ & <-).
  rewrite !flag_set by lia. simpl. by rewrite !orb_false_r, orb_true_r.
Qed.
Lemma flags_are_large f l z p s g u : flags_are f l z p s g u → flags_are (Z.lor f LARGE) l z p s g true.
Proof.
  unfold flags_are, LEFT, ZEROPAD, PLUS, SPACE, SIGN, LARGE. intros (<- & <- & <- & <- & <- & _).
  rewrite !flag_set by lia. simpl. by rewrite !orb_false_r, orb_true_r.
Qed.
Lemma flags_are_zero f l z p s g u : flags_are f l z p s g u → flags_are (Z.lor f ZEROPAD) l true p s g u.
Proof.
  unfold flags_are, LEFT, ZEROPAD, PLUS, SPACE, SIGN, LARGE. intros (<- & _ & <- & <- & <- & <-).
  rewrite !flag_set by lia. simpl. by rewrite !orb_false_r, orb_true_r.
Qed.

(** Integers, with the flags as booleans. *)
Lemma integer_spec st args flags w p q base v left zero plus space (sgn upper : bool) T :
  flags_are flags left zero plus space sgn upper →
  let s := if q =? asc "h" then i16 v else i32 v in
  let u := if q =? asc "h" then u16 v else u32 v in
  let t := number_text left zero w p (if sgn then sign_text plus space s else [])
             (digit_char upper <$> numeral (print_base base) (if sgn then Z.abs s else u)) in
  fits e mem0 (out ++ t) → state out (VInt v :: args) st →
  wp (print_integer e flags w p q base;; mret T) (λ (r : list Z) st', r = T ∧ state1 (out ++ t) args st') st.
Proof.
  intros (<- & <- & <- & <- & <- & <-) s u t Hf Hst. wp_step.
  eapply wp_mono; [exact (print_integer_spec e mem0 x out args st flags w v p q base Hf Hst)|].
  intros [] st' Hst'. by wp_step.
Qed.

Lemma convert_other flags w p q c T Q st :
  0 < c < 2 ^ 8 → c ∉ reserved →
  wp (put e (asc "%");; put e c;; mret T) Q st → wp (convert e flags w p q (c :: T)) Q st.
Proof.
  intros Hc Hr HQ. unfold convert, deref. wp_step. apply wp_ret. cbv beta.
  assert (Hne : ∀ a, bool_decide (asc a ∈ reserved) = true → (c =? asc a) = false).
  { intros a Ha%bool_decide_eq_true. apply Z.eqb_neq. by intros ->. }
  rewrite (proj2 (Z.eqb_neq c 0)) by lia. by rewrite !Hne by (vm_compute; reflexivity).
Qed.

Lemma convert_spec st args args' c flags w p q t left zero plus space T :
  flags_are flags left zero plus space false false → Forall va_ok args →
  match c with Cother c => 0 < c < 2 ^ 8 ∧ c ∉ reserved | _ => True end →
  render_conv c left zero plus space (q =? asc "h") w p args = Some (t, args') →
  fits e mem0 (out ++ t) → state out args st →
  wp (convert e flags w p q (conv_char c :: T)) (λ r st', r = T ∧ state1 (out ++ t) args' st') st.
Proof.
  intros Hfl Hok Hc Hr Hf Hst.
  assert (Hint : ∀ v args0 flags' sgn upper base t', args = VInt v :: args0 →
    flags_are flags' left zero plus space sgn upper →
    t = t' → args' = args0 →
    t' = number_text left zero w p
      (if sgn then sign_text plus space (if q =? asc "h" then i16 v else i32 v) else [])
      (digit_char upper <$> numeral (print_base base)
         (if sgn then Z.abs (if q =? asc "h" then i16 v else i32 v)
          else if q =? asc "h" then u16 v else u32 v)) →
    wp (print_integer e flags' w p q base;; mret T) (λ r st', r = T ∧ state1 (out ++ t) args' st') st).
  { intros v args0 flags' sgn upper base t' -> Hfl' -> -> ->. by eapply integer_spec. }
  destruct c as [| | | | | | | | | |c]; cbn [render_conv conv_char] in *;
    try (destruct args as [|[v|str] args]; [discriminate Hr| |discriminate Hr]);
    try (destruct args as [|[v|str] args]; [discriminate Hr|discriminate Hr|]).
  - (* c *) simplify_eq. pose proof Hfl as (<- & _). unfold convert, deref. wp_step. apply wp_ret. simpl. wp_step.
    eapply wp_mono; [by apply print_char_spec|]. intros [] st' Hst'. wp_step. split; [done|by apply wrote_more].
  - (* s *) simplify_eq. pose proof Hfl as (<- & _). unfold convert, deref. wp_step. apply wp_ret. simpl. wp_step.
    eapply wp_mono; [apply (print_string_spec e mem0 x out args' st flags w str p); [by inversion Hok|done|done]|].
    intros [] st' Hst'. wp_step. split; [done|by apply wrote_more].
  - (* p *) simplify_eq. unfold convert, deref. wp_step. apply wp_ret. simpl.
    assert (Hn : ∀ flags' w' z, flags_are flags' left z plus space false false →
      fits e mem0 (out ++ number_text left z w' p [] (digit_char false <$> numeral 16 (u32 v))) →
      wp (v ← va_int; print_number e (i32 v) 16 w' p flags';; mret T)
        (λ r st', r = T ∧ state1 (out ++ number_text left z w' p [] (digit_char false <$> numeral 16 (u32 v))) args' st') st).
    { intros flags' w' z (<- & <- & _ & _ & Hs & Hl) Hf'. wp_step.
      eapply wp_mono; [by apply va_int_spec|]. intros ? st1 [-> Hst1]. wp_step.
      pose proof (print_number_spec e (i32 v) 16 w' p flags' (i32_range v)) as Hp. cbv zeta in Hp.
      rewrite Hs, Hl, u32_i32 in Hp. eapply wp_mono; [by apply Hp|]. intros [] st2 Hst2. by wp_step. }
    destruct (w =? -1); [apply (Hn _ _ true)|by apply (Hn _ _ zero)]; [by eapply flags_are_zero|done].
  - (* % *) simplify_eq. unfold convert, deref. wp_step. apply wp_ret. simpl. wp_step.
    eapply wp_mono; [by apply emits_put|]. intros [] st' Hst'. wp_step. split; [done|by apply wrote_more].
  - injection Hr as <- <-. unfold convert, deref. wp_step. apply wp_ret. by eapply (Hint v args _ false false 8).
  - injection Hr as <- <-. unfold convert, deref. wp_step. apply wp_ret.
    by eapply (Hint v args _ false true 16); [..|eapply flags_are_large| | |].
  - injection Hr as <- <-. unfold convert, deref. wp_step. apply wp_ret. by eapply (Hint v args _ false false 16).
  - injection Hr as <- <-. unfold convert, deref. wp_step. apply wp_ret.
    by eapply (Hint v args _ true false 10); [..|eapply flags_are_sign| | |].
  - injection Hr as <- <-. unfold convert, deref. wp_step. apply wp_ret.
    by eapply (Hint v args _ true false 10); [..|eapply flags_are_sign| | |].
  - injection Hr as <- <-. unfold convert, deref. wp_step. apply wp_ret. by eapply (Hint v args _ false false 10).
  - destruct Hc as [Hc Hr']. simplify_eq. apply convert_other; [done|done|].
    wp_step. change [asc "%"; c] with ([asc "%"] ++ [c]) in *. rewrite (assoc_L (++)) in *.
    eapply wp_mono; [apply emits_put; [by eapply fits_prefix|done]|]. intros [] st1 Hst1. wp_step.
    eapply wp_mono; [by apply emits_put|]. intros [] st2 Hst2. wp_step. split; [done|by apply wrote_more].
Qed.
Lemma va_ok_width f args w neg args' :
  resolve_width f args = Some (w, neg, args') → Forall va_ok args → Forall va_ok args'.
Proof.
  intros Hr Hok. destruct f as [[n|]|]; simpl in Hr; [by simplify_eq| |by simplify_eq].
  destruct Hok as [|[v|] args]; simplify_eq. case_match; by simplify_eq.
Qed.
Lemma va_ok_prec f args p args' :
  resolve_prec f args = Some (p, args') → Forall va_ok args → Forall va_ok args'.
Proof.
  intros Hr Hok. destruct f as [[[n|]|]|]; simpl in Hr; [by simplify_eq| |by simplify_eq..].
  destruct Hok as [|[v|] args]; by simplify_eq.
Qed.

Lemma render_spec_ok s args t args' :
  render_spec s args = Some (t, args') → Forall va_ok args → Forall va_ok args'.
Proof.
  unfold render_spec. intros Hr Hok.
  destruct (resolve_width _ args) as [[[w neg] args1]|] eqn:Ew; [|done]. simpl in Hr.
  destruct (resolve_prec _ args1) as [[p args2]|] eqn:Ep; [|done]. simpl in Hr.
  assert (Hok2 : Forall va_ok args2) by eauto using va_ok_width, va_ok_prec.
  destruct (cv_conv s), Hok2 as [|[v|str] args2]; simpl in Hr; simplify_eq; auto.
Qed.

Lemma conversion_correct st s args t args' T :
  item_ok (Spec s) → Forall va_ok args → render_spec s args = Some (t, args') →
  fits e mem0 (out ++ t) → state out args st →
  wp (conversion e (spec_text s ++ T)) (λ r st', r = T ∧ state1 (out ++ t) args' st') st.
Proof.
  destruct s as [fs wd pr ql cv]. unfold item_ok, render_spec, spec_text. simpl.
  intros (Hfs & Hwd & Hpr & Hql & Hcv) Hok Hr Hf Hst.
  destruct (resolve_width wd args) as [[[w neg] args1]|] eqn:Ew; [|done]. simpl in Hr.
  destruct (resolve_prec pr args1) as [[p args2]|] eqn:Ep; [|done]. simpl in Hr.
  assert (Hok2 : Forall va_ok args2) by eauto using va_ok_width, va_ok_prec.
  unfold conversion. rewrite <- !(assoc_L (++)). simpl.
  pose proof (conv_starts cv T Hcv) as HT1. pose proof (qual_starts ql _ Hql HT1) as HT2.
  pose proof (prec_starts pr _ HT2) as HT3.
  assert (Hfw : field_ok 1 wd) by (destruct wd as [[n|]|]; simpl in *; [lia|done..]).
  pose proof (width_starts wd _ Hfw HT3) as HT4.
  wp_step. eapply wp_option; [by apply flags_loop_spec|]. simpl. wp_step.
  eapply wp_mono; [eapply get_width_spec; [done|done| |done]|].
  { starts. }
  intros r st1 [-> Hst1]. wp_step.
  eapply wp_mono; [eapply get_precision_spec; [done| | |done]|].
  { by destruct pr as [[[n|]|]|]. } { starts. }
  intros r st2 [-> Hst2]. wp_step.
  eapply wp_mono; [eapply get_qualifier_spec; [done| |done]|].
  { starts. }
  intros r st3 [-> Hst3]. rewrite <- is_h_default in Hr by done.
  eapply convert_spec; [|done|done|done|done|done]. by apply conv_flags.
Qed.

End conversion.

(** The loop over the format. *)
Lemma format_loop_spec e mem0 fuel : ∀ its x out args st t rest,
  Forall item_ok its → Forall va_ok args → render its args = Some t →
  (length its < fuel)%nat → fits e mem0 (out ++ t) →
  wrote e mem0 x out (va_mem <$> args) st →
  wp (format_loop fuel e (concat (item_text <$> its) ++ 0 :: rest))
    (λ _ st', ∃ args', wrote e mem0 (x + Z.of_nat (length its)) (out ++ t) args' st') st.
Proof.
  induction fuel as [|fuel IH]; intros its x out args st t rest Hits Hok Hr Hfl Hf Hst; [lia|].
  destruct Hits as [|[c|s] its Hit Hits]; simpl in Hr.
  - simplify_eq. simpl. unfold deref. read_char. simpl. rewrite app_nil_r, Z.add_0_r. by eexists.
  - destruct (render its args) as [t1|] eqn:E1; [|done]. simpl in Hr. simplify_eq. destruct Hit as [Hc0 Hc1].
    simpl. unfold deref. read_char. rewrite (proj2 (Z.eqb_neq c 0)), (proj2 (Z.eqb_neq c _)) by done. simpl. wp_step.
    change (c :: t1) with ([c] ++ t1) in *. rewrite (assoc_L (++)) in *.
    eapply wp_mono; [apply emits_put; [by eapply fits_prefix|done]|]. intros [] st1 Hst1.
    apply wrote_more in Hst1. cbn [length]. replace (x + Z.of_nat _) with (x + 1 + Z.of_nat (length its)) by lia.
    apply (IH its _ _ args); try done. simpl in Hfl. lia.
  - destruct (render_spec s args) as [[t1 args1]|] eqn:E1; [|done]. simpl in Hr.
    destruct (render its args1) as [t2|] eqn:E2; [|done]. simpl in Hr. simplify_eq.
    simpl. unfold deref. read_char. simpl. wp_step. rewrite (assoc_L (++)) in Hf |- *. rewrite <- (assoc_L (++) (spec_text s)).
    eapply wp_mono; [eapply conversion_correct; [done|done|done|by eapply fits_prefix|done]|].
    intros fmt st1 [-> Hst1]. cbn [length].
    replace (x + Z.of_nat _) with (x + 1 + Z.of_nat (length its)) by lia.
    apply (IH its _ _ args1); try done; [by eapply render_spec_ok|]. simpl in Hfl. lia.
Qed.

(** * The theorems *)

(** The offset of [end]. *)
Lemma end_offset_size buf size : 0 ≤ buf → 0 < size → buf + size ≤ 2 ^ 32 → end_offset buf size = size - 1.
Proof.
  intros Hb Hs He. unfold end_offset, u32. rewrite Z.mod_small by lia.
  rewrite (proj2 (Z.ltb_ge _ buf)) by lia. lia.
Qed.
Lemma end_offset_max buf : 2 ≤ buf < 2 ^ 32 → end_offset buf (2 ^ 32 - 1) = 2 ^ 32 - 1 - buf.
Proof.
  intros Hb. unfold end_offset, u32. replace (buf + (2 ^ 32 - 1) - 1) with (buf - 2 + 1 * 2 ^ 32) by lia.
  rewrite Z.mod_add, Z.mod_small by lia. rewrite (proj2 (Z.ltb_lt _ buf)) by lia. lia.
Qed.
Lemma end_offset_zero buf : 1 ≤ buf < 2 ^ 32 → end_offset buf 0 = 2 ^ 32 - 1 - buf.
Proof.
  intros Hb. unfold end_offset, u32. rewrite Z.mod_small by lia. by rewrite (proj2 (Z.ltb_lt _ buf)) by lia.
Qed.

(** Every item has at least one character. *)
Lemma items_length its : (length its ≤ length (concat (item_text <$> its)))%nat.
Proof.
  induction its as [|i its IH]; [done|]. rewrite fmap_cons. simpl. rewrite length_app.
  enough (0 < length (item_text i))%nat by lia. destruct i; simpl; lia.
Qed.

(** The terminating zero behind the text, or at [end]. *)
Lemma terminate e mem t :
  0 ≤ e → Z.min (len t) e < len mem →
  <[Z.to_nat (Z.min (len t) e) := 0]> (list_inserts 0 (take (Z.to_nat (e + 1)) t) mem) =
  list_inserts 0 (take (Z.to_nat e) t ++ [0]) mem.
Proof.
  intros He Hm. rewrite list_inserts_app_l, Nat.add_0_r, length_take. simpl.
  replace (Z.to_nat (Z.min (len t) e)) with (Z.to_nat e `min` length t)%nat by (unfold len; lia).
  destruct (decide (Z.of_nat (length t) ≤ e)) as [Hle|Hgt]; [by rewrite !take_ge by lia|].
  replace (Z.to_nat (e + 1)) with (S (Z.to_nat e)) by lia.
  destruct (lookup_lt_is_Some_2 t (Z.to_nat e) ltac:(lia)) as [c Hc].
  rewrite (take_S_r _ _ c Hc), list_inserts_app_l, Nat.add_0_r, length_take. simpl. apply list_insert_insert_eq.
Qed.

(** The format loop and the final zero, for any place of [end]. *)
Lemma vsnprintf_spec buf size mem its args t rest :
  let e := end_offset buf size in
  Forall item_ok its → Forall va_ok args → render its args = Some t →
  0 ≤ e → Z.min (len t) e < len mem →
  ∃ n st, rt_vsnprintf buf size mem (concat (item_text <$> its) ++ 0 :: rest) (va_mem <$> args) = Done n st ∧
    w_mem st = list_inserts 0 (take (Z.to_nat e) t ++ [0]) mem ∧
    (len t ≤ e + 1 → n = len t) ∧ (e + 1 < len t → len t ≤ n ≤ len t + Z.of_nat (length its)).
Proof.
  intros e Hits Hok Hr He Hm. unfold rt_vsnprintf. fold e. clearbody e.
  enough (Hwp : wp (format_loop (length (concat (item_text <$> its) ++ 0 :: rest)) e (concat (item_text <$> its) ++ 0 :: rest);;
    st ← get;
    let p := if w_str st <=? e then w_str st else e in
    (if p <? Z.of_nat (length (w_mem st))
     then modify (λ st, PState (<[Z.to_nat p := 0]> (w_mem st)) (w_str st) (w_args st))
     else fail BadPointer);;
    mret (w_str st))
    (λ n st, w_mem st = list_inserts 0 (take (Z.to_nat e) t ++ [0]) mem ∧
       (len t ≤ e + 1 → n = len t) ∧ (e + 1 < len t → len t ≤ n ≤ len t + Z.of_nat (length its))) (PState mem 0 (va_mem <$> args))).
  { apply wp_inv in Hwp as (n & st & E & H). by exists n, st. }
  wp_step. eapply wp_mono; [apply (format_loop_spec e mem _ its 0 [] args)|]; [done|done|done| | | |].
  { rewrite length_app. pose proof (items_length its). simpl. lia. }
  { split; [done|]. simpl. lia. }
  { by constructor; [rewrite take_nil| |simpl; case_match|]. }
  simpl. intros _ st [args' [Hmem _ Hs _]]. wp_step. wp_step. cbv zeta.
  set (p := if w_str st <=? e then _ else _).
  assert (Hp : p = Z.min (len t) e).
  { unfold p. destruct (Z.leb_spec (len t) (e + 1)), (Z.leb_spec (w_str st) e); lia. }
  assert (Hlen : Z.of_nat (length (w_mem st)) = len mem) by (unfold len; by rewrite Hmem, length_inserts).
  rewrite Hlen, Hp, (proj2 (Z.ltb_lt _ _)) by done. wp_step. wp_step. wp_step. simpl.
  split; [by rewrite Hmem, terminate|]. destruct (Z.leb_spec (len t) (e + 1)); lia.
Qed.

(** C19. [rt_vsnprintf] into a buffer of [size] bytes, for every format of literal
    characters and conversions (flags, width and precision given or taken from the
    arguments, [h] and [l], all conversion characters, unknown ones included) and
    matching arguments: the call returns, stores the first [size - 1] characters of the
    text the reference renders and a terminating zero, and nothing outside the buffer;
    it returns the length of the text if the text has at most [size] characters, and
    otherwise a number between its length and its length plus the number of items of the
    format. *)
Theorem rt_vsnprintf_correct buf size mem its args t rest :
  0 ≤ buf → 0 < size → buf + size ≤ 2 ^ 32 → len mem = size →
  Forall item_ok its → Forall va_ok args → render its args = Some t →
  ∃ n st, rt_vsnprintf buf size mem (concat (item_text <$> its) ++ 0 :: rest) (va_mem <$> args) = Done n st ∧
    w_mem st = list_inserts 0 (take (Z.to_nat (size - 1)) t ++ [0]) mem ∧
    (len t ≤ size → n = len t) ∧ (size < len t → len t ≤ n ≤ len t + Z.of_nat (length its)).
Proof.
  intros Hb Hs He Hm Hits Hok Hr. pose proof (end_offset_size buf size Hb Hs He) as Ho.
  destruct (vsnprintf_spec buf size mem its args t rest) as (n & st & E & Hmem & H1 & H2); [done..|lia|lia|].
  rewrite Ho in Hmem, H1, H2. exists n, st. split; [done|]. split; [done|]. split; intros; [apply H1|apply H2]; lia.
Qed.
Definition demo_items : list item :=
  [Lit (asc "x"); Spec (Conv (text "-") (Some FStar) (Some (Some (FNum 3))) (Some (asc "h")) Cd);
   Spec (Conv [] None (Some (Some (FNum 2))) None Cs); Spec (Conv (text "+0") (Some (FNum 6)) None None Ci)].
Definition demo_args : list va := [VInt 5; VInt (-7); VStr (Some (text "abc")); VInt 12].
Lemma rt_vsnprintf_correct_witness :
  ∃ n st, rt_vsnprintf 1000 10 (repeat 1 10) (concat (item_text <$> demo_items) ++ [0]) (va_mem <$> demo_args)
      = Done n st ∧
    w_mem st = list_inserts 0 (take (Z.to_nat (10 - 1)) (text "x-007 ab+00012") ++ [0]) (repeat 1 10) ∧
    (len (text "x-007 ab+00012") ≤ 10 → n = 14) ∧ (10 < len (text "x-007 ab+00012") → 14 ≤ n ≤ 14 + 4).
Proof.
  apply (rt_vsnprintf_correct 1000 10 (repeat 1 10) demo_items demo_args (text "x-007 ab+00012") []);
    [lia|lia|lia|done| | |reflexivity].
  - repeat constructor; vm_compute; try done; set_solver.
  - repeat constructor; vm_compute; done.
Defined.

Lemma sprintf_spec buf mem its args t rest :
  2 ≤ buf → buf + len t + 1 < 2 ^ 32 → len t < len mem →
  Forall item_ok its → Forall va_ok args → render its args = Some t →
  ∃ st, rt_sprintf buf mem (concat (item_text <$> its) ++ 0 :: rest) (va_mem <$> args) = Done (len t) st ∧
    w_mem st = t ++ 0 :: drop (S (length t)) mem.
Proof.
  intros Hb He Hm Hits Hok Hr. pose proof (len_pos t) as Hp.
  assert (Ho : end_offset buf (2 ^ 32 - 1) = 2 ^ 32 - 1 - buf) by (apply end_offset_max; lia).
  destruct (vsnprintf_spec buf (2 ^ 32 - 1) mem its args t rest) as (n & st & E & Hmem & H1 & H2); [done..|lia|lia|].
  rewrite Ho in *. exists st. rewrite H1 in E by lia. split; [done|]. rewrite Hmem, take_ge by (unfold len in *; lia).
  rewrite <- (take_drop (S (length t)) mem) at 1. rewrite list_inserts_0_r; [by rewrite <- app_assoc|].
  rewrite length_app, length_take. change (length [0]) with 1%nat. unfold len in *. lia.
Qed.
(** [rt_sprintf] stores the whole text and its terminating zero, and returns its
    length, when the memory behind [buf] is large enough for it. *)
Theorem rt_sprintf_correct buf mem its args t rest :
  2 ≤ buf → buf + len t + 1 < 2 ^ 32 → len t < len mem →
  Forall item_ok its → Forall va_ok args → render its args = Some t →
  ∃ st, rt_sprintf buf mem (concat (item_text <$> its) ++ 0 :: rest) (va_mem <$> args) = Done (len t) st ∧
    w_mem st = t ++ 0 :: drop (S (length t)) mem.
Proof. apply sprintf_spec. Qed.
Lemma rt_sprintf_correct_witness :
  ∃ st, rt_sprintf 1000 (repeat 1 20) (concat (item_text <$> demo_items) ++ [0]) (va_mem <$> demo_args) = Done 14 st ∧
    w_mem st = text "x-007 ab+00012" ++ 0 :: repeat 1 5.
Proof.
  apply (rt_sprintf_correct 1000 (repeat 1 20) demo_items demo_args (text "x-007 ab+00012") []);
    [lia|by vm_compute|by vm_compute| | |reflexivity].
  - repeat constructor; vm_compute; try done; set_solver.
  - repeat constructor; vm_compute; done.
Defined.

(** ** Numbers read back *)

(** A signed decimal number at the start of a buffer, read with [skip_atoi]. *)
Definition parse_int (s : list Z) : option Z :=
  match s with
  | c :: s' => if c =? asc "-" then '(n, _) ← skip_atoi 0 s'; Some (- n)
               else '(n, _) ← skip_atoi 0 s; Some n
  | [] => None
  end.

Lemma skip_atoi_nul n r :
  0 ≤ n < 2 ^ 31 → skip_atoi 0 ((digit_char false <$> numeral 10 n) ++ 0 :: r) = Some (n, 0 :: r).
Proof.
  intros Hn.
  assert (Hgen : ∀ ds i, 0 ≤ i → Forall (λ d, 0 ≤ d < 10) ds → foldl (λ v d, v * 10 + d) i ds < 2 ^ 31 →
    skip_atoi i ((digit_char false <$> ds) ++ 0 :: r) = Some (foldl (λ v d, v * 10 + d) i ds, 0 :: r)).
  { intros ds i Hi Hd. revert i Hi. induction Hd as [|d ds Hd Hds IH]; intros i Hi Hv; simpl; [done|].
    destruct (digit_char_isdigit d Hd) as [-> Hc]. simpl in Hv.
    pose proof (foldl_positional_le (i * 10 + d) ds ltac:(lia) Hds).
    replace (i * 10 + digit_char false d - asc "0") with (i * 10 + d) by lia.
    rewrite i32_small by lia. apply IH; [lia|done]. }
  pose proof (numeral_value 10 n ltac:(lia) ltac:(lia)) as Hv. unfold positional in Hv.
  rewrite Hgen; [by rewrite Hv|done|by apply numeral_digits; lia|rewrite Hv; lia].
Qed.

(** Decimal output is read back: a number printed with [%d], then read with the
    kernel's own decimal reader, is the number that was printed, for every 32-bit number
    whose absolute value the reader can hold. *)
Theorem rt_sprintf_parse_roundtrip buf mem v :
  2 ≤ buf < 2 ^ 31 → 12 ≤ len mem → - 2 ^ 31 < v < 2 ^ 31 →
  ∃ n st, rt_sprintf buf mem (text "%d" ++ [0]) [VInt v] = Done n st ∧ parse_int (w_mem st) = Some v.
Proof.
  intros Hb Hm Hv. set (t := sign_text false false v ++ (digit_char false <$> numeral 10 (Z.abs v))).
  assert (Hr : render [Spec (Conv [] None None None Cd)] [VInt v] = Some t).
  { simpl. rewrite (i32_small v) by lia. unfold number_text, justify, t. simpl.
    unfold zeros, spaces. rewrite !Z2Nat.nonpos by (unfold len; lia). simpl. by rewrite app_nil_r. }
  assert (Hl : len t ≤ 11).
  { unfold t, sign_text. rewrite len_app. unfold len at 2. rewrite length_fmap.
    pose proof (numeral_length 10 (Z.abs v) 10 ltac:(lia) ltac:(lia) ltac:(lia)).
    destruct (v <? 0); simpl; unfold len; simpl; lia. }
  destruct (sprintf_spec buf mem [Spec (Conv [] None None None Cd)] [VInt v] t []) as (st & E & Hmem).
  { lia. } { lia. } { lia. } { repeat constructor. } { repeat constructor. } { done. }
  exists (len t), st. split; [done|]. rewrite Hmem. unfold t, sign_text, parse_int.
  destruct (Z.ltb_spec v 0) as [Hneg|Hpos]; simpl.
  - rewrite skip_atoi_nul by lia. simpl. f_equal. lia.
  - destruct (numeral_first (Z.abs v) (0 :: drop (S (length t)) mem) ltac:(lia)) as (c & T' & E' & Hc).
    pose proof (skip_atoi_nul (Z.abs v) (drop (S (length t)) mem) ltac:(lia)) as Hs. unfold t, sign_text in *.
    rewrite (proj2 (Z.ltb_ge v 0)) in * by lia. simpl in *. rewrite E' in *.
    destruct (Z.eqb_spec c (asc "-")) as [->|_]; [done|]. rewrite Hs. simpl. f_equal. lia.
Qed.
Lemma rt_sprintf_parse_roundtrip_witness :
  ∃ n st, rt_sprintf 1000 (repeat 1 12) (text "%d" ++ [0]) [VInt (-1234567)] = Done n st ∧
    parse_int (w_mem st) = Some (-1234567).
Proof. apply rt_sprintf_parse_roundtrip; [lia|by vm_compute|lia]. Defined.

(** ** Where the bounds fail *)

(** A size of zero does not mean that nothing may be written: [end] becomes the end
    of the address space and [rt_snprintf] behaves as [rt_sprintf], which stores the
    whole text. *)
Theorem rt_snprintf_size_zero buf mem fmt args :
  2 ≤ buf < 2 ^ 32 → rt_snprintf buf 0 mem fmt args = rt_sprintf buf mem fmt args.
Proof.
  intros Hb. unfold rt_snprintf, rt_sprintf, rt_vsprintf, rt_vsnprintf.
  by rewrite end_offset_zero, end_offset_max by lia.
Qed.
Lemma rt_snprintf_size_zero_witness :
  rt_snprintf 1000 0 [] (text "a" ++ [0]) [] = rt_sprintf 1000 [] (text "a" ++ [0]) [] ∧
  rt_sprintf 1000 [] (text "a" ++ [0]) [] = Fault BadPointer.
Proof. split; [apply rt_snprintf_size_zero; lia|reflexivity]. Defined.

(** The returned count of a truncated call is not always the length of the text: a
    sign that falls behind the end of the buffer is not taken off the width, so a padded
    negative number counts one character more than it has. *)
Theorem rt_snprintf_truncated_count :
  (∃ st, rt_sprintf 1000 (repeat 1 9) (text "a%03d" ++ [0]) [VInt (-5)] = Done 4 st ∧
         take 5 (w_mem st) = text "a-05" ++ [0]) ∧
  (∃ st, rt_snprintf 1000 1 (repeat 1 9) (text "a%03d" ++ [0]) [VInt (-5)] = Done 5 st).
Proof. split; eexists; [split|]; vm_compute; reflexivity. Qed.

(** ** The console *)

(** [rt_kprintf] with a console device: text of at most 126 characters is written
    to the device as it is; longer text is cut to its first 126 characters, but 127
    bytes are written, the last one the terminating zero.  The open flag of the device
    is the same after the call. *)
Theorem rt_kprintf_correct flag buf log its args t rest :
  0 ≤ buf → buf + 128 ≤ 2 ^ 32 → len log = 128 → len t + Z.of_nat (length its) < 2 ^ 32 →
  Forall item_ok its → Forall va_ok args → render its args = Some t →
  ∃ st, rt_kprintf (Some flag) buf log (concat (item_text <$> its) ++ 0 :: rest) (va_mem <$> args) =
    Done (DeviceWrite (Z.lor flag RT_DEVICE_FLAG_STREAM)
            (if len t <=? 126 then t else take 126 t ++ [0]), Some flag) st.
Proof.
  intros Hb He Hm Hl Hits Hok Hr. unfold rt_kprintf. pose proof (len_pos t) as Hp.
  pose proof (end_offset_size buf 127 Hb ltac:(lia) ltac:(lia)) as Ho.
  destruct (vsnprintf_spec buf 127 log its args t rest) as (n & st & E & Hmem & H1 & H2); [done..|lia|lia|].
  change (RT_CONSOLEBUF_SIZE - 1) with 127. rewrite E. exists st. rewrite Ho in Hmem, H1, H2. do 3 f_equal.
  set (k := if 127 <? u32 n then 127 else u32 n).
  assert (Hk : Z.to_nat k = Z.to_nat (Z.min (len t) 127)).
  { unfold k, u32. destruct (Z.le_gt_cases (len t) 127).
    - rewrite H1, Z.mod_small by lia. destruct (Z.ltb_spec 127 (len t)); lia.
    - specialize (H2 ltac:(lia)). rewrite Z.mod_small by lia. rewrite (proj2 (Z.ltb_lt 127 n)) by lia. lia. }
  rewrite Hk, Hmem. change (Z.to_nat (127 - 1)) with 126%nat.
  assert (Hlen : length (take 126 t ++ [0]) = S (Z.to_nat (Z.min (len t) 126))).
  { rewrite length_app, length_take. change (length [0]) with 1%nat. unfold len. lia. }
  rewrite <- (take_drop (S (Z.to_nat (Z.min (len t) 126))) log) at 1.
  rewrite list_inserts_0_r by (rewrite Hlen, length_take; unfold len in *; lia).
  destruct (Z.leb_spec (len t) 126).
  - rewrite (take_ge t 126), <- app_assoc by (unfold len in *; lia). apply take_app_length'. unfold len in *. lia.
  - apply take_app_length'. rewrite Hlen. lia.
Qed.
Lemma rt_kprintf_correct_witness :
  let t := replicate 127 (asc "x") in
  ∃ st, rt_kprintf (Some 3) 1000 (repeat 0 128) (concat (item_text <$> replicate 127 (Lit (asc "x"))) ++ [0]) []
    = Done (DeviceWrite (Z.lor 3 RT_DEVICE_FLAG_STREAM) (take 126 t ++ [0]), Some 3) st.
Proof.
  apply (rt_kprintf_correct 3 1000 (repeat 0 128) (replicate 127 (Lit (asc "x"))) [] (replicate 127 (asc "x")) []);
    [lia|lia|done|by vm_compute| |constructor|reflexivity].
  apply Forall_replicate. by vm_compute.
Defined.
