(* ===== verification/KState.v ===== *)
(** The kernel's data: the structures of [rt-thread/include/rtdef.h], the
    objects that live at each address and the static variables of the kernel
    modules, gathered in one state record.  Thread, timer and object lists are
    families of intrusive lists ([IntrusiveList.lstore] operations). *)

From stdpp Require Import base gmap list strings fin_maps tactics.
From Stdlib Require Import ZArith Lia.
From S2P Require Import Prelude IntrusiveList.

Open Scope Z_scope.

(** * Constants of rtdef.h and rtconfig.h *)

Definition RT_EOK : Z := 0.
Definition RT_ERROR : Z := 1.
Definition RT_ETIMEOUT : Z := 2.
Definition RT_EFULL : Z := 3.
Definition RT_EEMPTY : Z := 4.
Definition RT_ENOMEM : Z := 5.
Definition RT_ENOSYS : Z := 6.
Definition RT_EBUSY : Z := 7.
Definition RT_EIO : Z := 8.
Definition RT_TICK_MAX : Z := 0xffffffff.
Definition RT_THREAD_PRIORITY_MAX : Z := 32.
Definition RT_NAME_MAX : nat := 8.
Definition RT_ALIGN_SIZE : Z := 4.
(** [RT_ALIGN] and [RT_ALIGN_DOWN] on 32-bit sizes. *)
Definition RT_ALIGN (size align : Z) : Z := u32 (Z.land (size + align - 1) (Z.lnot (align - 1))).
Definition RT_ALIGN_DOWN (size align : Z) : Z := u32 (Z.land size (Z.lnot (align - 1))).

Definition RT_TIMER_FLAG_ACTIVATED : Z := 1.
Definition RT_TIMER_FLAG_PERIODIC : Z := 2.
Definition RT_TIMER_FLAG_SOFT_TIMER : Z := 4.

Definition RT_THREAD_INIT : Z := 0.
Definition RT_THREAD_READY : Z := 1.
Definition RT_THREAD_SUSPEND : Z := 2.
Definition RT_THREAD_CLOSE : Z := 4.

Definition RT_IPC_FLAG_FIFO : Z := 0.
Definition RT_IPC_FLAG_PRIO : Z := 1.
Definition RT_IPC_CMD_RESET : Z := 1.

Definition RT_EVENT_FLAG_AND : Z := 1.
Definition RT_EVENT_FLAG_OR : Z := 2.
Definition RT_EVENT_FLAG_CLEAR : Z := 4.

Definition RT_Object_Class_Static : Z := 0x80.

(** * Addresses

    Threads and IPC objects are named by the address of their control block, a
    [Z].  The timer embedded in a thread control block is named after the
    thread. *)

Inductive timer_id := TThread (t : Z) | TUser (a : Z).
#[global] Instance timer_id_eq_dec : EqDecision timer_id.
Proof. solve_decision. Defined.
#[global] Instance timer_id_countable : Countable timer_id.
Proof.
  refine (inj_countable' (λ x, match x with TThread t => inl t | TUser a => inr a end)
    (λ x, match x with inl t => TThread t | inr a => TUser a end) _).
  by intros [].
Defined.

(** [enum rt_object_class_type], with the classes this configuration enables:
    the index of a class in [rt_object_container]. *)
Inductive object_class :=
  | ClassThread | ClassSemaphore | ClassMutex | ClassEvent | ClassMailBox
  | ClassMessageQueue | ClassMemHeap | ClassMemPool | ClassDevice | ClassTimer.
Definition class_index (c : object_class) : Z :=
  match c with
  | ClassThread => 0 | ClassSemaphore => 1 | ClassMutex => 2 | ClassEvent => 3
  | ClassMailBox => 4 | ClassMessageQueue => 5 | ClassMemHeap => 6 | ClassMemPool => 7
  | ClassDevice => 8 | ClassTimer => 9
  end.
Definition RT_Object_Class_Unknown : Z := 10.

(** Kernel objects, by what they are and where they are. *)
Inductive oid :=
  | OThread (t : Z) | OTimer (i : timer_id) | OSem (a : Z) | OMutex (a : Z) | OEvent (a : Z)
  | OMailBox (a : Z) | OMq (a : Z) | OMemPool (a : Z) | OMemHeap (a : Z) | ODevice (a : Z).
#[global] Instance oid_eq_dec : EqDecision oid.
Proof. solve_decision. Defined.
#[global] Instance oid_countable : Countable oid.
Proof.
  refine (inj_countable' (λ x, match x with
      | OThread t => (0, inl t) | OTimer i => (1, inr i) | OSem a => (2, inl a)
      | OMutex a => (3, inl a) | OEvent a => (4, inl a) | OMailBox a => (5, inl a)
      | OMq a => (6, inl a) | OMemPool a => (7, inl a) | OMemHeap a => (8, inl a)
      | ODevice a => (9, inl a) end)
    (λ x : Z * (Z + timer_id), match x with
      | (0, inl t) => OThread t | (1, inr i) => OTimer i | (2, inl a) => OSem a
      | (3, inl a) => OMutex a | (4, inl a) => OEvent a | (5, inl a) => OMailBox a
      | (6, inl a) => OMq a | (7, inl a) => OMemPool a | (8, inl a) => OMemHeap a
      | (_, inl a) => ODevice a | (_, inr i) => OTimer i end) _).
  by intros [].
Defined.

(** The list heads a thread's [tlist] node can be linked to: the ready queue of
    a priority, the defunct list, and the waiting list of an object. *)
Inductive lhead :=
  | LReady (p : Z) | LDefunct | LSem (a : Z) | LMutex (a : Z) | LEvent (a : Z)
  | LMbRecv (a : Z) | LMbSend (a : Z) | LMq (a : Z) | LMemPool (a : Z)
  | LDqPush (a : Z) | LDqPop (a : Z) | LCompletion (a : Z) | LPipeRead (a : Z) | LPipeWrite (a : Z).
#[global] Instance lhead_eq_dec : EqDecision lhead.
Proof. solve_decision. Defined.
#[global] Instance lhead_countable : Countable lhead.
Proof.
  refine (inj_countable' (λ x, match x with
      | LReady p => (0, p) | LDefunct => (1, 0) | LSem a => (2, a) | LMutex a => (3, a)
      | LEvent a => (4, a) | LMbRecv a => (5, a) | LMbSend a => (6, a) | LMq a => (7, a)
      | LMemPool a => (8, a) | LDqPush a => (9, a) | LDqPop a => (10, a) | LCompletion a => (11, a)
      | LPipeRead a => (12, a) | LPipeWrite a => (13, a) end)
    (λ x : Z * Z, match x with
      | (0, p) => LReady p | (1, _) => LDefunct | (2, a) => LSem a | (3, a) => LMutex a
      | (4, a) => LEvent a | (5, a) => LMbRecv a | (6, a) => LMbSend a | (7, a) => LMq a
      | (8, a) => LMemPool a | (9, a) => LDqPush a | (10, a) => LDqPop a | (11, a) => LCompletion a
      | (12, a) => LPipeRead a | (_, a) => LPipeWrite a end) _).
  by intros [].
Defined.

(** The two timer lists: [rt_timer_list] and [rt_soft_timer_list]. *)
Inductive trow := HardRow | SoftRow.
#[global] Instance trow_eq_dec : EqDecision trow.
Proof. solve_decision. Defined.
#[global] Instance trow_countable : Countable trow.
Proof.
  refine (inj_countable' (λ x, match x with HardRow => true | SoftRow => false end)
    (λ b : bool, if b then HardRow else SoftRow) _).
  by intros [].
Defined.

(** * Control blocks *)

(** [struct rt_object]: the name and type of an object.  Its [flag] is kept with
    the structure that embeds it, its [list] node in [ks_containers]. *)
Record rt_object := mk_object {
  o_name : list Z;
  o_type : Z;
}.
Definition set_o_name (v : list Z) (o : rt_object) : rt_object :=
  mk_object v (o_type o).
Definition set_o_type (v : Z) (o : rt_object) : rt_object :=
  mk_object (o_name o) v.

(** The timeout function of a timer: [rt_thread_timeout] for the timer of a
    thread, application code for the others. *)
Inductive timer_func := FThreadTimeout | FUser (f : Z).

(** [struct rt_timer]; the [row] node is in [ks_rows]. *)
Record rt_timer := mk_timer {
  tm_flag : Z;
  tm_func : timer_func;
  tm_parameter : Z;
  tm_init_tick : Z;
  tm_timeout_tick : Z;
}.
Definition set_tm_flag (v : Z) (tm : rt_timer) : rt_timer :=
  mk_timer v (tm_func tm) (tm_parameter tm) (tm_init_tick tm) (tm_timeout_tick tm).
Definition set_tm_func (v : timer_func) (tm : rt_timer) : rt_timer :=
  mk_timer (tm_flag tm) v (tm_parameter tm) (tm_init_tick tm) (tm_timeout_tick tm).
Definition set_tm_parameter (v : Z) (tm : rt_timer) : rt_timer :=
  mk_timer (tm_flag tm) (tm_func tm) v (tm_init_tick tm) (tm_timeout_tick tm).
Definition set_tm_init_tick (v : Z) (tm : rt_timer) : rt_timer :=
  mk_timer (tm_flag tm) (tm_func tm) (tm_parameter tm) v (tm_timeout_tick tm).
Definition set_tm_timeout_tick (v : Z) (tm : rt_timer) : rt_timer :=
  mk_timer (tm_flag tm) (tm_func tm) (tm_parameter tm) (tm_init_tick tm) v.

(** [struct rt_thread] less the stack pointer and the ESP32 port's fields; the
    [tlist] node is in [ks_lists], the embedded timer in [ks_timers]. *)
Record rt_thread := mk_thread {
  th_entry : Z;
  th_parameter : Z;
  th_stack_addr : Z;
  th_stack_size : Z;
  th_error : Z;
  th_stat : Z;
  th_current_priority : Z;
  th_init_priority : Z;
  th_number_mask : Z;
  th_event_set : Z;
  th_event_info : Z;
  th_init_tick : Z;
  th_remaining_tick : Z;
  th_cleanup : option Z;
  th_user_data : Z;
}.
Definition set_th_entry (v : Z) (th : rt_thread) : rt_thread :=
  mk_thread v (th_parameter th) (th_stack_addr th) (th_stack_size th) (th_error th) (th_stat th) (th_current_priority th) (th_init_priority th) (th_number_mask th) (th_event_set th) (th_event_info th) (th_init_tick th) (th_remaining_tick th) (th_cleanup th) (th_user_data th).
Definition set_th_parameter (v : Z) (th : rt_thread) : rt_thread :=
  mk_thread (th_entry th) v (th_stack_addr th) (th_stack_size th) (th_error th) (th_stat th) (th_current_priority th) (th_init_priority th) (th_number_mask th) (th_event_set th) (th_event_info th) (th_init_tick th) (th_remaining_tick th) (th_cleanup th) (th_user_data th).
Definition set_th_stack_addr (v : Z) (th : rt_thread) : rt_thread :=
  mk_thread (th_entry th) (th_parameter th) v (th_stack_size th) (th_error th) (th_stat th) (th_current_priority th) (th_init_priority th) (th_number_mask th) (th_event_set th) (th_event_info th) (th_init_tick th) (th_remaining_tick th) (th_cleanup th) (th_user_data th).
Definition set_th_stack_size (v : Z) (th : rt_thread) : rt_thread :=
  mk_thread (th_entry th) (th_parameter th) (th_stack_addr th) v (th_error th) (th_stat th) (th_current_priority th) (th_init_priority th) (th_number_mask th) (th_event_set th) (th_event_info th) (th_init_tick th) (th_remaining_tick th) (th_cleanup th) (th_user_data th).
Definition set_th_error (v : Z) (th : rt_thread) : rt_thread :=
  mk_thread (th_entry th) (th_parameter th) (th_stack_addr th) (th_stack_size th) v (th_stat th) (th_current_priority th) (th_init_priority th) (th_number_mask th) (th_event_set th) (th_event_info th) (th_init_tick th) (th_remaining_tick th) (th_cleanup th) (th_user_data th).
Definition set_th_stat (v : Z) (th : rt_thread) : rt_thread :=
  mk_thread (th_entry th) (th_parameter th) (th_stack_addr th) (th_stack_size th) (th_error th) v (th_current_priority th) (th_init_priority th) (th_number_mask th) (th_event_set th) (th_event_info th) (th_init_tick th) (th_remaining_tick th) (th_cleanup th) (th_user_data th).
Definition set_th_current_priority (v : Z) (th : rt_thread) : rt_thread :=
  mk_thread (th_entry th) (th_parameter th) (th_stack_addr th) (th_stack_size th) (th_error th) (th_stat th) v (th_init_priority th) (th_number_mask th) (th_event_set th) (th_event_info th) (th_init_tick th) (th_remaining_tick th) (th_cleanup th) (th_user_data th).
Definition set_th_init_priority (v : Z) (th : rt_thread) : rt_thread :=
  mk_thread (th_entry th) (th_parameter th) (th_stack_addr th) (th_stack_size th) (th_error th) (th_stat th) (th_current_priority th) v (th_number_mask th) (th_event_set th) (th_event_info th) (th_init_tick th) (th_remaining_tick th) (th_cleanup th) (th_user_data th).
Definition set_th_number_mask (v : Z) (th : rt_thread) : rt_thread :=
  mk_thread (th_entry th) (th_parameter th) (th_stack_addr th) (th_stack_size th) (th_error th) (th_stat th) (th_current_priority th) (th_init_priority th) v (th_event_set th) (th_event_info th) (th_init_tick th) (th_remaining_tick th) (th_cleanup th) (th_user_data th).
Definition set_th_event_set (v : Z) (th : rt_thread) : rt_thread :=
  mk_thread (th_entry th) (th_parameter th) (th_stack_addr th) (th_stack_size th) (th_error th) (th_stat th) (th_current_priority th) (th_init_priority th) (th_number_mask th) v (th_event_info th) (th_init_tick th) (th_remaining_tick th) (th_cleanup th) (th_user_data th).
Definition set_th_event_info (v : Z) (th : rt_thread) : rt_thread :=
  mk_thread (th_entry th) (th_parameter th) (th_stack_addr th) (th_stack_size th) (th_error th) (th_stat th) (th_current_priority th) (th_init_priority th) (th_number_mask th) (th_event_set th) v (th_init_tick th) (th_remaining_tick th) (th_cleanup th) (th_user_data th).
Definition set_th_init_tick (v : Z) (th : rt_thread) : rt_thread :=
  mk_thread (th_entry th) (th_parameter th) (th_stack_addr th) (th_stack_size th) (th_error th) (th_stat th) (th_current_priority th) (th_init_priority th) (th_number_mask th) (th_event_set th) (th_event_info th) v (th_remaining_tick th) (th_cleanup th) (th_user_data th).
Definition set_th_remaining_tick (v : Z) (th : rt_thread) : rt_thread :=
  mk_thread (th_entry th) (th_parameter th) (th_stack_addr th) (th_stack_size th) (th_error th) (th_stat th) (th_current_priority th) (th_init_priority th) (th_number_mask th) (th_event_set th) (th_event_info th) (th_init_tick th) v (th_cleanup th) (th_user_data th).
Definition set_th_cleanup (v : option Z) (th : rt_thread) : rt_thread :=
  mk_thread (th_entry th) (th_parameter th) (th_stack_addr th) (th_stack_size th) (th_error th) (th_stat th) (th_current_priority th) (th_init_priority th) (th_number_mask th) (th_event_set th) (th_event_info th) (th_init_tick th) (th_remaining_tick th) v (th_user_data th).
Definition set_th_user_data (v : Z) (th : rt_thread) : rt_thread :=
  mk_thread (th_entry th) (th_parameter th) (th_stack_addr th) (th_stack_size th) (th_error th) (th_stat th) (th_current_priority th) (th_init_priority th) (th_number_mask th) (th_event_set th) (th_event_info th) (th_init_tick th) (th_remaining_tick th) (th_cleanup th) v.

(** [struct rt_semaphore]. *)
Record rt_semaphore := mk_sem {
  sem_flag : Z;
  sem_value : Z;
}.
Definition set_sem_flag (v : Z) (x : rt_semaphore) : rt_semaphore :=
  mk_sem v (sem_value x).
Definition set_sem_value (v : Z) (x : rt_semaphore) : rt_semaphore :=
  mk_sem (sem_flag x) v.
(** [struct rt_mutex]. *)
Record rt_mutex := mk_mutex {
  mtx_flag : Z;
  mtx_value : Z;
  mtx_original_priority : Z;
  mtx_hold : Z;
  mtx_owner : option Z;
}.
Definition set_mtx_flag (v : Z) (x : rt_mutex) : rt_mutex :=
  mk_mutex v (mtx_value x) (mtx_original_priority x) (mtx_hold x) (mtx_owner x).
Definition set_mtx_value (v : Z) (x : rt_mutex) : rt_mutex :=
  mk_mutex (mtx_flag x) v (mtx_original_priority x) (mtx_hold x) (mtx_owner x).
Definition set_mtx_original_priority (v : Z) (x : rt_mutex) : rt_mutex :=
  mk_mutex (mtx_flag x) (mtx_value x) v (mtx_hold x) (mtx_owner x).
Definition set_mtx_hold (v : Z) (x : rt_mutex) : rt_mutex :=
  mk_mutex (mtx_flag x) (mtx_value x) (mtx_original_priority x) v (mtx_owner x).
Definition set_mtx_owner (v : option Z) (x : rt_mutex) : rt_mutex :=
  mk_mutex (mtx_flag x) (mtx_value x) (mtx_original_priority x) (mtx_hold x) v.
(** [struct rt_event]. *)
Record rt_event := mk_event {
  evt_flag : Z;
  evt_set : Z;
}.
Definition set_evt_flag (v : Z) (x : rt_event) : rt_event :=
  mk_event v (evt_set x).
Definition set_evt_set (v : Z) (x : rt_event) : rt_event :=
  mk_event (evt_flag x) v.
(** [struct rt_mailbox]; [mb_msgs] is the array at [mb_msg_pool]. *)
Record rt_mailbox := mk_mailbox {
  mb_flag : Z;
  mb_msg_pool : Z;
  mb_msgs : list Z;
  mb_size : Z;
  mb_entry : Z;
  mb_in_offset : Z;
  mb_out_offset : Z;
}.
Definition set_mb_flag (v : Z) (x : rt_mailbox) : rt_mailbox :=
  mk_mailbox v (mb_msg_pool x) (mb_msgs x) (mb_size x) (mb_entry x) (mb_in_offset x) (mb_out_offset x).
Definition set_mb_msg_pool (v : Z) (x : rt_mailbox) : rt_mailbox :=
  mk_mailbox (mb_flag x) v (mb_msgs x) (mb_size x) (mb_entry x) (mb_in_offset x) (mb_out_offset x).
Definition set_mb_msgs (v : list Z) (x : rt_mailbox) : rt_mailbox :=
  mk_mailbox (mb_flag x) (mb_msg_pool x) v (mb_size x) (mb_entry x) (mb_in_offset x) (mb_out_offset x).
Definition set_mb_size (v : Z) (x : rt_mailbox) : rt_mailbox :=
  mk_mailbox (mb_flag x) (mb_msg_pool x) (mb_msgs x) v (mb_entry x) (mb_in_offset x) (mb_out_offset x).
Definition set_mb_entry (v : Z) (x : rt_mailbox) : rt_mailbox :=
  mk_mailbox (mb_flag x) (mb_msg_pool x) (mb_msgs x) (mb_size x) v (mb_in_offset x) (mb_out_offset x).
Definition set_mb_in_offset (v : Z) (x : rt_mailbox) : rt_mailbox :=
  mk_mailbox (mb_flag x) (mb_msg_pool x) (mb_msgs x) (mb_size x) (mb_entry x) v (mb_out_offset x).
Definition set_mb_out_offset (v : Z) (x : rt_mailbox) : rt_mailbox :=
  mk_mailbox (mb_flag x) (mb_msg_pool x) (mb_msgs x) (mb_size x) (mb_entry x) (mb_in_offset x) v.
(** [struct rt_messagequeue]; [mq_next] and [mq_data] are the [next] field and the
    payload of the [struct rt_mq_message] at each address of the pool. *)
Record rt_messagequeue := mk_mq {
  mq_flag : Z;
  mq_msg_pool : Z;
  mq_next : gmap Z (option Z);
  mq_data : gmap Z (list Z);
  mq_msg_size : Z;
  mq_max_msgs : Z;
  mq_entry : Z;
  mq_queue_head : option Z;
  mq_queue_tail : option Z;
  mq_queue_free : option Z;
}.
Definition set_mq_flag (v : Z) (x : rt_messagequeue) : rt_messagequeue :=
  mk_mq v (mq_msg_pool x) (mq_next x) (mq_data x) (mq_msg_size x) (mq_max_msgs x) (mq_entry x) (mq_queue_head x) (mq_queue_tail x) (mq_queue_free x).
Definition set_mq_msg_pool (v : Z) (x : rt_messagequeue) : rt_messagequeue :=
  mk_mq (mq_flag x) v (mq_next x) (mq_data x) (mq_msg_size x) (mq_max_msgs x) (mq_entry x) (mq_queue_head x) (mq_queue_tail x) (mq_queue_free x).
Definition set_mq_next (v : gmap Z (option Z)) (x : rt_messagequeue) : rt_messagequeue :=
  mk_mq (mq_flag x) (mq_msg_pool x) v (mq_data x) (mq_msg_size x) (mq_max_msgs x) (mq_entry x) (mq_queue_head x) (mq_queue_tail x) (mq_queue_free x).
Definition set_mq_data (v : gmap Z (list Z)) (x : rt_messagequeue) : rt_messagequeue :=
  mk_mq (mq_flag x) (mq_msg_pool x) (mq_next x) v (mq_msg_size x) (mq_max_msgs x) (mq_entry x) (mq_queue_head x) (mq_queue_tail x) (mq_queue_free x).
Definition set_mq_msg_size (v : Z) (x : rt_messagequeue) : rt_messagequeue :=
  mk_mq (mq_flag x) (mq_msg_pool x) (mq_next x) (mq_data x) v (mq_max_msgs x) (mq_entry x) (mq_queue_head x) (mq_queue_tail x) (mq_queue_free x).
Definition set_mq_max_msgs (v : Z) (x : rt_messagequeue) : rt_messagequeue :=
  mk_mq (mq_flag x) (mq_msg_pool x) (mq_next x) (mq_data x) (mq_msg_size x) v (mq_entry x) (mq_queue_head x) (mq_queue_tail x) (mq_queue_free x).
Definition set_mq_entry (v : Z) (x : rt_messagequeue) : rt_messagequeue :=
  mk_mq (mq_flag x) (mq_msg_pool x) (mq_next x) (mq_data x) (mq_msg_size x) (mq_max_msgs x) v (mq_queue_head x) (mq_queue_tail x) (mq_queue_free x).
Definition set_mq_queue_head (v : option Z) (x : rt_messagequeue) : rt_messagequeue :=
  mk_mq (mq_flag x) (mq_msg_pool x) (mq_next x) (mq_data x) (mq_msg_size x) (mq_max_msgs x) (mq_entry x) v (mq_queue_tail x) (mq_queue_free x).
Definition set_mq_queue_tail (v : option Z) (x : rt_messagequeue) : rt_messagequeue :=
  mk_mq (mq_flag x) (mq_msg_pool x) (mq_next x) (mq_data x) (mq_msg_size x) (mq_max_msgs x) (mq_entry x) (mq_queue_head x) v (mq_queue_free x).
Definition set_mq_queue_free (v : option Z) (x : rt_messagequeue) : rt_messagequeue :=
  mk_mq (mq_flag x) (mq_msg_pool x) (mq_next x) (mq_data x) (mq_msg_size x) (mq_max_msgs x) (mq_entry x) (mq_queue_head x) (mq_queue_tail x) v.
(** [struct rt_mempool]; [mp_blocks] is the first word of each block: the next
    free block ([inr]), or the pool an allocated block belongs to ([inl]). *)
Record rt_mempool := mk_mempool {
  mp_start_address : Z;
  mp_size : Z;
  mp_block_size : Z;
  mp_block_list : option Z;
  mp_blocks : gmap Z (Z + option Z);
  mp_block_total_count : Z;
  mp_block_free_count : Z;
  mp_suspend_thread_count : Z;
}.
Definition set_mp_start_address (v : Z) (x : rt_mempool) : rt_mempool :=
  mk_mempool v (mp_size x) (mp_block_size x) (mp_block_list x) (mp_blocks x) (mp_block_total_count x) (mp_block_free_count x) (mp_suspend_thread_count x).
Definition set_mp_size (v : Z) (x : rt_mempool) : rt_mempool :=
  mk_mempool (mp_start_address x) v (mp_block_size x) (mp_block_list x) (mp_blocks x) (mp_block_total_count x) (mp_block_free_count x) (mp_suspend_thread_count x).
Definition set_mp_block_size (v : Z) (x : rt_mempool) : rt_mempool :=
  mk_mempool (mp_start_address x) (mp_size x) v (mp_block_list x) (mp_blocks x) (mp_block_total_count x) (mp_block_free_count x) (mp_suspend_thread_count x).
Definition set_mp_block_list (v : option Z) (x : rt_mempool) : rt_mempool :=
  mk_mempool (mp_start_address x) (mp_size x) (mp_block_size x) v (mp_blocks x) (mp_block_total_count x) (mp_block_free_count x) (mp_suspend_thread_count x).
Definition set_mp_blocks (v : gmap Z (Z + option Z)) (x : rt_mempool) : rt_mempool :=
  mk_mempool (mp_start_address x) (mp_size x) (mp_block_size x) (mp_block_list x) v (mp_block_total_count x) (mp_block_free_count x) (mp_suspend_thread_count x).
Definition set_mp_block_total_count (v : Z) (x : rt_mempool) : rt_mempool :=
  mk_mempool (mp_start_address x) (mp_size x) (mp_block_size x) (mp_block_list x) (mp_blocks x) v (mp_block_free_count x) (mp_suspend_thread_count x).
Definition set_mp_block_free_count (v : Z) (x : rt_mempool) : rt_mempool :=
  mk_mempool (mp_start_address x) (mp_size x) (mp_block_size x) (mp_block_list x) (mp_blocks x) (mp_block_total_count x) v (mp_suspend_thread_count x).
Definition set_mp_suspend_thread_count (v : Z) (x : rt_mempool) : rt_mempool :=
  mk_mempool (mp_start_address x) (mp_size x) (mp_block_size x) (mp_block_list x) (mp_blocks x) (mp_block_total_count x) (mp_block_free_count x) v.

(** * The state *)

(** The objects at each address; the object containers, thread lists and timer
    lists; and the static variables [rt_thread_ready_priority_group],
    [rt_current_thread], [rt_current_priority], [rt_scheduler_lock_nest],
    [rt_interrupt_nest], [rt_tick] and [random_nr].  [ks_freed] records the
    blocks handed to [RT_KERNEL_FREE], latest first. *)
Record kstate := mk_kstate {
  ks_threads : gmap Z rt_thread;
  ks_timers : gmap timer_id rt_timer;
  ks_sems : gmap Z rt_semaphore;
  ks_mutexes : gmap Z rt_mutex;
  ks_events : gmap Z rt_event;
  ks_mailboxes : gmap Z rt_mailbox;
  ks_mqs : gmap Z rt_messagequeue;
  ks_mempools : gmap Z rt_mempool;
  ks_objects : gmap oid rt_object;
  ks_containers : gmap Z (list oid);
  ks_lists : gmap lhead (list Z);
  ks_rows : gmap trow (list timer_id);
  ks_group : Z;
  ks_current : option Z;
  ks_current_priority : Z;
  ks_lock_nest : Z;
  ks_interrupt_nest : Z;
  ks_tick : Z;
  ks_random_nr : Z;
  ks_freed : list Z;
}.
Definition set_ks_threads (v : gmap Z rt_thread) (s : kstate) : kstate :=
  mk_kstate v (ks_timers s) (ks_sems s) (ks_mutexes s) (ks_events s) (ks_mailboxes s) (ks_mqs s) (ks_mempools s) (ks_objects s) (ks_containers s) (ks_lists s) (ks_rows s) (ks_group s) (ks_current s) (ks_current_priority s) (ks_lock_nest s) (ks_interrupt_nest s) (ks_tick s) (ks_random_nr s) (ks_freed s).
Definition set_ks_timers (v : gmap timer_id rt_timer) (s : kstate) : kstate :=
  mk_kstate (ks_threads s) v (ks_sems s) (ks_mutexes s) (ks_events s) (ks_mailboxes s) (ks_mqs s) (ks_mempools s) (ks_objects s) (ks_containers s) (ks_lists s) (ks_rows s) (ks_group s) (ks_current s) (ks_current_priority s) (ks_lock_nest s) (ks_interrupt_nest s) (ks_tick s) (ks_random_nr s) (ks_freed s).
Definition set_ks_sems (v : gmap Z rt_semaphore) (s : kstate) : kstate :=
  mk_kstate (ks_threads s) (ks_timers s) v (ks_mutexes s) (ks_events s) (ks_mailboxes s) (ks_mqs s) (ks_mempools s) (ks_objects s) (ks_containers s) (ks_lists s) (ks_rows s) (ks_group s) (ks_current s) (ks_current_priority s) (ks_lock_nest s) (ks_interrupt_nest s) (ks_tick s) (ks_random_nr s) (ks_freed s).
Definition set_ks_mutexes (v : gmap Z rt_mutex) (s : kstate) : kstate :=
  mk_kstate (ks_threads s) (ks_timers s) (ks_sems s) v (ks_events s) (ks_mailboxes s) (ks_mqs s) (ks_mempools s) (ks_objects s) (ks_containers s) (ks_lists s) (ks_rows s) (ks_group s) (ks_current s) (ks_current_priority s) (ks_lock_nest s) (ks_interrupt_nest s) (ks_tick s) (ks_random_nr s) (ks_freed s).
Definition set_ks_events (v : gmap Z rt_event) (s : kstate) : kstate :=
  mk_kstate (ks_threads s) (ks_timers s) (ks_sems s) (ks_mutexes s) v (ks_mailboxes s) (ks_mqs s) (ks_mempools s) (ks_objects s) (ks_containers s) (ks_lists s) (ks_rows s) (ks_group s) (ks_current s) (ks_current_priority s) (ks_lock_nest s) (ks_interrupt_nest s) (ks_tick s) (ks_random_nr s) (ks_freed s).
Definition set_ks_mailboxes (v : gmap Z rt_mailbox) (s : kstate) : kstate :=
  mk_kstate (ks_threads s) (ks_timers s) (ks_sems s) (ks_mutexes s) (ks_events s) v (ks_mqs s) (ks_mempools s) (ks_objects s) (ks_containers s) (ks_lists s) (ks_rows s) (ks_group s) (ks_current s) (ks_current_priority s) (ks_lock_nest s) (ks_interrupt_nest s) (ks_tick s) (ks_random_nr s) (ks_freed s).
Definition set_ks_mqs (v : gmap Z rt_messagequeue) (s : kstate) : kstate :=
  mk_kstate (ks_threads s) (ks_timers s) (ks_sems s) (ks_mutexes s) (ks_events s) (ks_mailboxes s) v (ks_mempools s) (ks_objects s) (ks_containers s) (ks_lists s) (ks_rows s) (ks_group s) (ks_current s) (ks_current_priority s) (ks_lock_nest s) (ks_interrupt_nest s) (ks_tick s) (ks_random_nr s) (ks_freed s).
Definition set_ks_mempools (v : gmap Z rt_mempool) (s : kstate) : kstate :=
  mk_kstate (ks_threads s) (ks_timers s) (ks_sems s) (ks_mutexes s) (ks_events s) (ks_mailboxes s) (ks_mqs s) v (ks_objects s) (ks_containers s) (ks_lists s) (ks_rows s) (ks_group s) (ks_current s) (ks_current_priority s) (ks_lock_nest s) (ks_interrupt_nest s) (ks_tick s) (ks_random_nr s) (ks_freed s).
Definition set_ks_objects (v : gmap oid rt_object) (s : kstate) : kstate :=
  mk_kstate (ks_threads s) (ks_timers s) (ks_sems s) (ks_mutexes s) (ks_events s) (ks_mailboxes s) (ks_mqs s) (ks_mempools s) v (ks_containers s) (ks_lists s) (ks_rows s) (ks_group s) (ks_current s) (ks_current_priority s) (ks_lock_nest s) (ks_interrupt_nest s) (ks_tick s) (ks_random_nr s) (ks_freed s).
Definition set_ks_containers (v : gmap Z (list oid)) (s : kstate) : kstate :=
  mk_kstate (ks_threads s) (ks_timers s) (ks_sems s) (ks_mutexes s) (ks_events s) (ks_mailboxes s) (ks_mqs s) (ks_mempools s) (ks_objects s) v (ks_lists s) (ks_rows s) (ks_group s) (ks_current s) (ks_current_priority s) (ks_lock_nest s) (ks_interrupt_nest s) (ks_tick s) (ks_random_nr s) (ks_freed s).
Definition set_ks_lists (v : gmap lhead (list Z)) (s : kstate) : kstate :=
  mk_kstate (ks_threads s) (ks_timers s) (ks_sems s) (ks_mutexes s) (ks_events s) (ks_mailboxes s) (ks_mqs s) (ks_mempools s) (ks_objects s) (ks_containers s) v (ks_rows s) (ks_group s) (ks_current s) (ks_current_priority s) (ks_lock_nest s) (ks_interrupt_nest s) (ks_tick s) (ks_random_nr s) (ks_freed s).
Definition set_ks_rows (v : gmap trow (list timer_id)) (s : kstate) : kstate :=
  mk_kstate (ks_threads s) (ks_timers s) (ks_sems s) (ks_mutexes s) (ks_events s) (ks_mailboxes s) (ks_mqs s) (ks_mempools s) (ks_objects s) (ks_containers s) (ks_lists s) v (ks_group s) (ks_current s) (ks_current_priority s) (ks_lock_nest s) (ks_interrupt_nest s) (ks_tick s) (ks_random_nr s) (ks_freed s).
Definition set_ks_group (v : Z) (s : kstate) : kstate :=
  mk_kstate (ks_threads s) (ks_timers s) (ks_sems s) (ks_mutexes s) (ks_events s) (ks_mailboxes s) (ks_mqs s) (ks_mempools s) (ks_objects s) (ks_containers s) (ks_lists s) (ks_rows s) v (ks_current s) (ks_current_priority s) (ks_lock_nest s) (ks_interrupt_nest s) (ks_tick s) (ks_random_nr s) (ks_freed s).
Definition set_ks_current (v : option Z) (s : kstate) : kstate :=
  mk_kstate (ks_threads s) (ks_timers s) (ks_sems s) (ks_mutexes s) (ks_events s) (ks_mailboxes s) (ks_mqs s) (ks_mempools s) (ks_objects s) (ks_containers s) (ks_lists s) (ks_rows s) (ks_group s) v (ks_current_priority s) (ks_lock_nest s) (ks_interrupt_nest s) (ks_tick s) (ks_random_nr s) (ks_freed s).
Definition set_ks_current_priority (v : Z) (s : kstate) : kstate :=
  mk_kstate (ks_threads s) (ks_timers s) (ks_sems s) (ks_mutexes s) (ks_events s) (ks_mailboxes s) (ks_mqs s) (ks_mempools s) (ks_objects s) (ks_containers s) (ks_lists s) (ks_rows s) (ks_group s) (ks_current s) v (ks_lock_nest s) (ks_interrupt_nest s) (ks_tick s) (ks_random_nr s) (ks_freed s).
Definition set_ks_lock_nest (v : Z) (s : kstate) : kstate :=
  mk_kstate (ks_threads s) (ks_timers s) (ks_sems s) (ks_mutexes s) (ks_events s) (ks_mailboxes s) (ks_mqs s) (ks_mempools s) (ks_objects s) (ks_containers s) (ks_lists s) (ks_rows s) (ks_group s) (ks_current s) (ks_current_priority s) v (ks_interrupt_nest s) (ks_tick s) (ks_random_nr s) (ks_freed s).
Definition set_ks_interrupt_nest (v : Z) (s : kstate) : kstate :=
  mk_kstate (ks_threads s) (ks_timers s) (ks_sems s) (ks_mutexes s) (ks_events s) (ks_mailboxes s) (ks_mqs s) (ks_mempools s) (ks_objects s) (ks_containers s) (ks_lists s) (ks_rows s) (ks_group s) (ks_current s) (ks_current_priority s) (ks_lock_nest s) v (ks_tick s) (ks_random_nr s) (ks_freed s).
Definition set_ks_tick (v : Z) (s : kstate) : kstate :=
  mk_kstate (ks_threads s) (ks_timers s) (ks_sems s) (ks_mutexes s) (ks_events s) (ks_mailboxes s) (ks_mqs s) (ks_mempools s) (ks_objects s) (ks_containers s) (ks_lists s) (ks_rows s) (ks_group s) (ks_current s) (ks_current_priority s) (ks_lock_nest s) (ks_interrupt_nest s) v (ks_random_nr s) (ks_freed s).
Definition set_ks_random_nr (v : Z) (s : kstate) : kstate :=
  mk_kstate (ks_threads s) (ks_timers s) (ks_sems s) (ks_mutexes s) (ks_events s) (ks_mailboxes s) (ks_mqs s) (ks_mempools s) (ks_objects s) (ks_containers s) (ks_lists s) (ks_rows s) (ks_group s) (ks_current s) (ks_current_priority s) (ks_lock_nest s) (ks_interrupt_nest s) (ks_tick s) v (ks_freed s).
Definition set_ks_freed (v : list Z) (s : kstate) : kstate :=
  mk_kstate (ks_threads s) (ks_timers s) (ks_sems s) (ks_mutexes s) (ks_events s) (ks_mailboxes s) (ks_mqs s) (ks_mempools s) (ks_objects s) (ks_containers s) (ks_lists s) (ks_rows s) (ks_group s) (ks_current s) (ks_current_priority s) (ks_lock_nest s) (ks_interrupt_nest s) (ks_tick s) (ks_random_nr s) v.

Abbreviation K := (SM kstate).

(** ** Reading and writing control blocks

    A field access through the address of an object that does not exist is the
    fault [BadPointer]. *)

Definition get_thread (a : Z) : K rt_thread :=
  s ← get; of_option BadPointer (ks_threads s !! a).
Definition put_thread (a : Z) (x : rt_thread) : K unit :=
  modify (λ s, set_ks_threads (<[a := x]> (ks_threads s)) s).
Definition upd_thread (a : Z) (f : rt_thread → rt_thread) : K unit :=
  x ← get_thread a; put_thread a (f x).
Definition get_timer (a : timer_id) : K rt_timer :=
  s ← get; of_option BadPointer (ks_timers s !! a).
Definition put_timer (a : timer_id) (x : rt_timer) : K unit :=
  modify (λ s, set_ks_timers (<[a := x]> (ks_timers s)) s).
Definition upd_timer (a : timer_id) (f : rt_timer → rt_timer) : K unit :=
  x ← get_timer a; put_timer a (f x).
Definition get_sem (a : Z) : K rt_semaphore :=
  s ← get; of_option BadPointer (ks_sems s !! a).
Definition put_sem (a : Z) (x : rt_semaphore) : K unit :=
  modify (λ s, set_ks_sems (<[a := x]> (ks_sems s)) s).
Definition upd_sem (a : Z) (f : rt_semaphore → rt_semaphore) : K unit :=
  x ← get_sem a; put_sem a (f x).
Definition get_mutex (a : Z) : K rt_mutex :=
  s ← get; of_option BadPointer (ks_mutexes s !! a).
Definition put_mutex (a : Z) (x : rt_mutex) : K unit :=
  modify (λ s, set_ks_mutexes (<[a := x]> (ks_mutexes s)) s).
Definition upd_mutex (a : Z) (f : rt_mutex → rt_mutex) : K unit :=
  x ← get_mutex a; put_mutex a (f x).
Definition get_event (a : Z) : K rt_event :=
  s ← get; of_option BadPointer (ks_events s !! a).
Definition put_event (a : Z) (x : rt_event) : K unit :=
  modify (λ s, set_ks_events (<[a := x]> (ks_events s)) s).
Definition upd_event (a : Z) (f : rt_event → rt_event) : K unit :=
  x ← get_event a; put_event a (f x).
Definition get_mailbox (a : Z) : K rt_mailbox :=
  s ← get; of_option BadPointer (ks_mailboxes s !! a).
Definition put_mailbox (a : Z) (x : rt_mailbox) : K unit :=
  modify (λ s, set_ks_mailboxes (<[a := x]> (ks_mailboxes s)) s).
Definition upd_mailbox (a : Z) (f : rt_mailbox → rt_mailbox) : K unit :=
  x ← get_mailbox a; put_mailbox a (f x).
Definition get_mq (a : Z) : K rt_messagequeue :=
  s ← get; of_option BadPointer (ks_mqs s !! a).
Definition put_mq (a : Z) (x : rt_messagequeue) : K unit :=
  modify (λ s, set_ks_mqs (<[a := x]> (ks_mqs s)) s).
Definition upd_mq (a : Z) (f : rt_messagequeue → rt_messagequeue) : K unit :=
  x ← get_mq a; put_mq a (f x).
Definition get_mempool (a : Z) : K rt_mempool :=
  s ← get; of_option BadPointer (ks_mempools s !! a).
Definition put_mempool (a : Z) (x : rt_mempool) : K unit :=
  modify (λ s, set_ks_mempools (<[a := x]> (ks_mempools s)) s).
Definition upd_mempool (a : Z) (f : rt_mempool → rt_mempool) : K unit :=
  x ← get_mempool a; put_mempool a (f x).

(** ** Thread lists *)

Definition tlist_remove (t : Z) : K unit :=
  modify (λ s, set_ks_lists (l_remove t (ks_lists s)) s).
Definition tlist_init (h : lhead) : K unit :=
  modify (λ s, set_ks_lists (l_init h (ks_lists s)) s).
(** Linking a node that is still linked would corrupt the list it is in. *)
Definition tlist_link (t : Z) (f : gmap lhead (list Z) → gmap lhead (list Z)) : K unit :=
  s ← get;
  if l_linked (ks_lists s) t then fail ListCorrupt
  else modify (λ s, set_ks_lists (f (ks_lists s)) s).
Definition tlist_insert_before (h : lhead) (t : Z) : K unit :=
  tlist_link t (l_insert_before h t).
Definition tlist_insert_after (h : lhead) (t : Z) : K unit :=
  tlist_link t (l_insert_after h t).
Definition tlist_insert_before_node (m t : Z) : K unit :=
  tlist_link t (l_insert_before_node m t).
Definition tlist_isempty (h : lhead) : K bool :=
  s ← get; mret (l_isempty (ks_lists s) h).
(** [rt_list_entry(list->next, ...)]: on an empty list the "entry" is the head
    itself, not a thread. *)
Definition tlist_first (h : lhead) : K Z :=
  s ← get; of_option BadPointer (head (l_get (ks_lists s) h)).

Definition rt_thread_self : K (option Z) := s ← get; mret (ks_current s).
Definition rt_tick_get : K Z := s ← get; mret (ks_tick s).
Definition rt_interrupt_get_nest : K Z := s ← get; mret (ks_interrupt_nest s).

(** The context checks of [rtdebug.h]. *)
Definition RT_DEBUG_NOT_IN_INTERRUPT : K unit :=
  n ← rt_interrupt_get_nest; RT_ASSERT (n =? 0).
Definition RT_DEBUG_IN_THREAD_CONTEXT : K unit :=
  c ← rt_thread_self; RT_ASSERT (bool_decide (c ≠ None));; RT_DEBUG_NOT_IN_INTERRUPT.
(** A use of [rt_thread_self()] as a thread. *)
Definition self : K Z := c ← rt_thread_self; of_option BadPointer c.

(** [rt_free] of a block. *)
Definition RT_KERNEL_FREE (p : Z) : K unit :=
  modify (λ s, set_ks_freed (p :: ks_freed s) s).

(** Components above the kernel keep a state of their own beside that of the kernel:
    memory heaps, data queues, work queues, devices.  Their code runs on both. *)

Record layer (X : Type) := Layer { l_kernel : kstate; l_own : X }.
Arguments Layer {_} _ _.
Arguments l_kernel {_} _.
Arguments l_own {_} _.

Section layer.
Context {X A : Type}.

(** A call of the kernel, and an access to the own state. *)
Definition kern (m : K A) : SM (layer X) A := λ s,
  match m (l_kernel s) with Done r k => Done r (Layer k (l_own s)) | Fault f => Fault f end.
Definition own (m : SM X A) : SM (layer X) A := λ s,
  match m (l_own s) with Done r x => Done r (Layer (l_kernel s) x) | Fault f => Fault f end.

Lemma wp_own (m : SM X A) (Q : A → layer X → Prop) k x :
  wp m (λ r x', Q r (Layer k x')) x → wp (own m) Q (Layer k x).
Proof. unfold wp, own. simpl. by destruct (m x). Qed.
Lemma wp_kern (m : K A) (Q : A → layer X → Prop) k x :
  wp m (λ r k', Q r (Layer k' x)) k → wp (kern m) Q (Layer k x).
Proof. unfold wp, kern. simpl. by destruct (m k). Qed.
Lemma wp_kern_done (m : K A) (Q : A → layer X → Prop) k x r k' :
  m k = Done r k' → Q r (Layer k' x) → wp (kern m) Q (Layer k x).
Proof. intros E HQ. unfold wp, kern. simpl. by rewrite E. Qed.
End layer.
