(* ===== verification/Object.v ===== *)
(** Kernel object management, [rt-thread/src/object.c]: the containers that
    list the objects of each class, creation, detaching and look-up by name. *)

From stdpp Require Import base gmap list fin_maps.
From Stdlib Require Import ZArith Lia.
From S2P Require Import Prelude IntrusiveList Kservice KState.

Open Scope Z_scope.

(** [rt_object_container[type]]: the array has one entry per class, an index
    outside it is a bad access. *)
Definition container_at (type : Z) : K unit :=
  if (0 <=? type) && (type <? RT_Object_Class_Unknown) then mret tt else fail BadPointer.

Definition olist_insert_after (c : Z) (o : oid) : K unit :=
  s ← get;
  if l_linked (ks_containers s) o then fail ListCorrupt
  else modify (λ s, set_ks_containers (l_insert_after c o (ks_containers s)) s).
Definition olist_remove (o : oid) : K unit :=
  modify (λ s, set_ks_containers (l_remove o (ks_containers s)) s).

Definition get_object (o : oid) : K rt_object :=
  s ← get; of_option BadPointer (ks_objects s !! o).
Definition put_object (o : oid) (x : rt_object) : K unit :=
  modify (λ s, set_ks_objects (<[o := x]> (ks_objects s)) s).

(** The bytes [rt_strncpy(object->name, name, RT_NAME_MAX)] stores, for a C
    string [name]. *)
Definition object_name (name : list Z) : K (list Z) :=
  of_option BadPointer (rt_strncpy (replicate RT_NAME_MAX 0) (name ++ [0]) RT_NAME_MAX).

Definition rt_object_init (o : oid) (type : object_class) (name : list Z) : K unit :=
  n ← object_name name;
  put_object o (mk_object n (Z.lor (class_index type) RT_Object_Class_Static));;
  olist_insert_after (class_index type) o.

Definition rt_object_detach (o : oid) : K unit := olist_remove o.

(** [block] is the result of [RT_KERNEL_MALLOC] ([None] for [RT_NULL]) and
    [mk] names the object at that address. *)
Definition rt_object_allocate (type : object_class) (name : list Z) (block : option Z)
    (mk : Z → oid) : K (option Z) :=
  RT_DEBUG_NOT_IN_INTERRUPT;;
  match block with
  | None => mret None
  | Some p =>
    n ← object_name name;
    put_object (mk p) (mk_object n (class_index type));;
    olist_insert_after (class_index type) (mk p);;
    mret (Some p)
  end.

Definition rt_object_delete (o : oid) (p : Z) : K unit :=
  x ← get_object o;
  RT_ASSERT (negb (flag_test (o_type x) RT_Object_Class_Static));;
  olist_remove o;;
  RT_KERNEL_FREE p.

Definition rt_object_is_systemobject (o : oid) : K bool :=
  x ← get_object o; mret (flag_test (o_type x) RT_Object_Class_Static).

(** The search loop over the objects of a container. *)
Fixpoint object_scan (l : list oid) (name : list Z) : K (option oid) :=
  match l with
  | [] => mret None
  | o :: l' =>
    x ← get_object o;
    r ← of_option BadPointer (rt_strncmp (o_name x) (name ++ [0]) RT_NAME_MAX);
    if r =? 0 then mret (Some o) else object_scan l' name
  end.
