(* ===== verification/Sched.v ===== *)
(** The scheduler, [rt-thread/src/scheduler.c], and the part of
    [rt-thread/src/timer.c] and [rt-thread/src/thread.c] it is mutually
    dependent with: stopping a timer, suspending, resuming and re-prioritising
    a thread. *)

From stdpp Require Import base gmap list fin_maps.
From Stdlib Require Import ZArith Lia.
From S2P Require Import Prelude IntrusiveList Ffs Kservice KState Object.

Open Scope Z_scope.

(** * scheduler.c *)

(** [rt_thread_priority_table[p]]. *)
Definition priority_table (p : Z) : K lhead :=
  if (0 <=? p) && (p <? RT_THREAD_PRIORITY_MAX) then mret (LReady p) else fail BadPointer.

Fixpoint priority_table_init (n : nat) : K unit :=
  match n with
  | O => mret tt
  | S n' => priority_table_init n';; tlist_init (LReady (Z.of_nat n'))
  end.
Definition rt_system_scheduler_init : K unit :=
  modify (set_ks_lock_nest 0);;
  priority_table_init (Z.to_nat RT_THREAD_PRIORITY_MAX);;
  modify (set_ks_current_priority (RT_THREAD_PRIORITY_MAX - 1));;
  modify (set_ks_current None);;
  modify (set_ks_group 0);;
  tlist_init LDefunct.

Definition rt_system_scheduler_start : K unit :=
  s ← get;
  h ← priority_table (rt_ffs (ks_group s) - 1);
  to ← tlist_first h;
  modify (set_ks_current (Some to)).

(** The context switch itself is the hardware's; what the kernel state records
    of it is the change of [rt_current_thread].  From interrupt context the
    switch is deferred, the state changes the same way. *)
Definition rt_schedule : K unit :=
  s ← get;
  if ks_lock_nest s =? 0 then
    let highest := rt_ffs (ks_group s) - 1 in
    h ← priority_table highest;
    to ← tlist_first h;
    if decide (Some to = ks_current s) then mret tt
    else
      _ ← self;
      modify (set_ks_current_priority (u8 highest));;
      modify (set_ks_current (Some to))
  else mret tt.

Definition rt_schedule_insert_thread (t : Z) : K unit :=
  upd_thread t (set_th_stat RT_THREAD_READY);;
  th ← get_thread t;
  h ← priority_table (th_current_priority th);
  tlist_insert_before h t;;
  modify (λ s, set_ks_group (Z.lor (ks_group s) (th_number_mask th)) s).

Definition rt_schedule_remove_thread (t : Z) : K unit :=
  th ← get_thread t;
  tlist_remove t;;
  h ← priority_table (th_current_priority th);
  e ← tlist_isempty h;
  when e (modify (λ s, set_ks_group (Z.land (ks_group s) (u32 (Z.lnot (th_number_mask th)))) s)).

Definition rt_enter_critical : K unit :=
  modify (λ s, set_ks_lock_nest (i16 (ks_lock_nest s + 1)) s).
Definition rt_exit_critical : K unit :=
  modify (λ s, set_ks_lock_nest (i16 (ks_lock_nest s - 1)) s);;
  s ← get;
  if ks_lock_nest s <=? 0 then
    modify (set_ks_lock_nest 0);; rt_schedule
  else mret tt.
Definition rt_critical_level : K Z := s ← get; mret (u16 (ks_lock_nest s)).

(** * timer.c: removing and stopping *)

Definition timer_remove (i : timer_id) : K unit :=
  modify (λ s, set_ks_rows (l_remove i (ks_rows s)) s).

Definition rt_timer_stop (i : timer_id) : K Z :=
  tm ← get_timer i;
  if flag_test (tm_flag tm) RT_TIMER_FLAG_ACTIVATED then
    timer_remove i;;
    upd_timer i (λ tm, set_tm_flag (Z.land (tm_flag tm) (Z.lnot RT_TIMER_FLAG_ACTIVATED)) tm);;
    mret RT_EOK
  else mret (- RT_ERROR).

Definition rt_timer_detach (i : timer_id) : K Z :=
  timer_remove i;; rt_object_detach (OTimer i);; mret (- RT_EOK).

(** The commands of [rt_timer_control]; [TimerGetTime] returns the value it
    stores through [arg]. *)
Inductive timer_cmd :=
  | TimerSetTime (tick : Z) | TimerGetTime | TimerSetOneshot | TimerSetPeriodic | TimerOther.
Definition rt_timer_control (i : timer_id) (cmd : timer_cmd) : K (Z * option Z) :=
  match cmd with
  | TimerGetTime => tm ← get_timer i; mret (RT_EOK, Some (tm_init_tick tm))
  | TimerSetTime tick => upd_timer i (set_tm_init_tick (u32 tick));; mret (RT_EOK, None)
  | TimerSetOneshot =>
    upd_timer i (λ tm, set_tm_flag (Z.land (tm_flag tm) (Z.lnot RT_TIMER_FLAG_PERIODIC)) tm);;
    mret (RT_EOK, None)
  | TimerSetPeriodic =>
    upd_timer i (λ tm, set_tm_flag (Z.lor (tm_flag tm) RT_TIMER_FLAG_PERIODIC) tm);;
    mret (RT_EOK, None)
  | TimerOther => mret (RT_EOK, None)
  end.

(** * thread.c: state changes *)

Definition rt_thread_suspend (t : Z) : K Z :=
  th ← get_thread t;
  if th_stat th =? RT_THREAD_READY then
    upd_thread t (set_th_stat RT_THREAD_SUSPEND);;
    rt_schedule_remove_thread t;;
    _ ← rt_timer_stop (TThread t);
    mret RT_EOK
  else mret (- RT_ERROR).

Definition rt_thread_resume (t : Z) : K Z :=
  th ← get_thread t;
  if th_stat th =? RT_THREAD_SUSPEND then
    tlist_remove t;;
    _ ← rt_timer_stop (TThread t);
    rt_schedule_insert_thread t;;
    mret RT_EOK
  else mret (- RT_ERROR).

Definition rt_thread_timeout (t : Z) : K unit :=
  th ← get_thread t;
  RT_ASSERT (th_stat th =? RT_THREAD_SUSPEND);;
  upd_thread t (set_th_error (- RT_ETIMEOUT));;
  tlist_remove t;;
  rt_schedule_insert_thread t;;
  rt_schedule.

(** [rt_thread_control] with [RT_THREAD_CTRL_CHANGE_PRIORITY]. *)
Definition set_priority (p : Z) (th : rt_thread) : rt_thread :=
  set_th_number_mask (u32 (Z.shiftl 1 p)) (set_th_current_priority p th).
Definition change_priority (t p : Z) : K unit :=
  th ← get_thread t;
  if th_stat th =? RT_THREAD_READY then
    rt_schedule_remove_thread t;;
    upd_thread t (set_priority p);;
    rt_schedule_insert_thread t
  else upd_thread t (set_priority p).
