(* ===== verification/Timer.v ===== *)
(** Timers, [rt-thread/src/timer.c] (with one skip-list level, the default), and
    the tick of [rt-thread/src/clock.c].

    Timer lists are kept in the order of expiry on a 32 bit tick that wraps
    around.  The timeout function of an application timer is application code:
    the section variable [user_timeout]. *)

From stdpp Require Import base gmap list fin_maps.
From Stdlib Require Import ZArith Lia.
From S2P Require Import Prelude IntrusiveList Ffs Kservice KState Object Sched.

Open Scope Z_scope.

(** The software timer thread's control block, [static struct rt_thread
    timer_thread]. *)
Definition timer_thread : Z := 1.
Definition RT_TIMER_THREAD_PRIO : Z := 4.

(** [rt_list_init] of the [row] node of a timer that is still linked would
    leave its neighbours pointing at it. *)
Definition row_init (i : timer_id) : K unit :=
  s ← get; if l_linked (ks_rows s) i then fail ListCorrupt else mret tt.

Definition timer_init_fields (i : timer_id) (timeout : timer_func) (parameter time flag : Z) : K unit :=
  put_timer i (mk_timer (Z.land (u8 flag) (Z.lnot RT_TIMER_FLAG_ACTIVATED)) timeout parameter (u32 time) 0);;
  row_init i.

Definition rt_timer_init (i : timer_id) (name : list Z) (timeout : timer_func)
    (parameter time flag : Z) : K unit :=
  rt_object_init (OTimer i) ClassTimer name;;
  timer_init_fields i timeout parameter time flag.

Definition rt_timer_create (block : option Z) (name : list Z) (timeout : timer_func)
    (parameter time flag : Z) : K (option Z) :=
  p ← rt_object_allocate ClassTimer name block (λ a, OTimer (TUser a));
  match p with
  | None => mret None
  | Some a => timer_init_fields (TUser a) timeout parameter time flag;; mret (Some a)
  end.

Definition rt_timer_delete (a : Z) : K Z :=
  timer_remove (TUser a);; rt_object_delete (OTimer (TUser a)) a;; mret (- RT_EOK).

(** The head's "timeout" of a timer list. *)
Definition rt_timer_list_next_timeout (r : trow) : K Z :=
  s ← get;
  match l_get (ks_rows s) r with
  | [] => mret RT_TICK_MAX
  | i :: _ => tm ← get_timer i; mret (tm_timeout_tick tm)
  end.
Definition rt_timer_next_timeout_tick : K Z := rt_timer_list_next_timeout HardRow.

(** The walk of [rt_timer_start] along a row: the timers up to [row_head] and
    the ones after it. *)
Fixpoint row_position (timers : gmap timer_id rt_timer) (new : Z) (l : list timer_id) :
    option (list timer_id * list timer_id) :=
  match l with
  | [] => Some ([], [])
  | i :: l' =>
    tm ← timers !! i;
    let d := u32 (tm_timeout_tick tm - new) in
    if d =? 0 then p ← row_position timers new l'; Some (i :: p.1, p.2)
    else if d <? RT_TICK_MAX / 2 then Some ([], l)
    else p ← row_position timers new l'; Some (i :: p.1, p.2)
  end.

Definition row_of_flag (flag : Z) : trow :=
  if flag_test flag RT_TIMER_FLAG_SOFT_TIMER then SoftRow else HardRow.

Definition row_insert (i : timer_id) (r : trow) (new : Z) : K unit :=
  s ← get;
  p ← of_option BadPointer (row_position (ks_timers s) new (l_get (ks_rows s) r));
  modify (λ s, set_ks_random_nr (u32 (ks_random_nr s + 1)) s);;
  modify (λ s, set_ks_rows (<[r := p.1 ++ i :: p.2]> (ks_rows s)) s).

Definition clear_activated (tm : rt_timer) : rt_timer :=
  set_tm_flag (Z.land (tm_flag tm) (Z.lnot RT_TIMER_FLAG_ACTIVATED)) tm.
Definition set_activated (tm : rt_timer) : rt_timer :=
  set_tm_flag (Z.lor (tm_flag tm) RT_TIMER_FLAG_ACTIVATED) tm.

(** The part of [rt_timer_start] up to the activation of the timer. *)
Definition timer_arm (i : timer_id) : K unit :=
  timer_remove i;;
  upd_timer i clear_activated;;
  tm ← get_timer i;
  RT_ASSERT (tm_init_tick tm <? RT_TICK_MAX / 2);;
  now ← rt_tick_get;
  upd_timer i (set_tm_timeout_tick (u32 (now + tm_init_tick tm)));;
  tm ← get_timer i;
  row_insert i (row_of_flag (tm_flag tm)) (tm_timeout_tick tm);;
  upd_timer i set_activated.

Definition rt_timer_start (i : timer_id) : K Z :=
  timer_arm i;;
  tm ← get_timer i;
  when (flag_test (tm_flag tm) RT_TIMER_FLAG_SOFT_TIMER) (
    th ← get_thread timer_thread;
    when (negb (th_stat th =? RT_THREAD_READY)) (
      _ ← rt_thread_resume timer_thread; rt_schedule));;
  mret (- RT_EOK).

Section check.
Context (user_timeout : Z → Z → K unit).

Definition run_timeout (tm : rt_timer) : K unit :=
  match tm_func tm with
  | FThreadTimeout => rt_thread_timeout (tm_parameter tm)
  | FUser f => user_timeout f (tm_parameter tm)
  end.

(** The body of the [while] of [rt_timer_check] for the expired timer [i]. *)
Definition timer_expire (i : timer_id) : K unit :=
  timer_remove i;;
  tm ← get_timer i;
  run_timeout tm;;
  tm ← get_timer i;
  if flag_test (tm_flag tm) RT_TIMER_FLAG_PERIODIC &&
     flag_test (tm_flag tm) RT_TIMER_FLAG_ACTIVATED
  then upd_timer i clear_activated;; _ ← rt_timer_start i; mret tt
  else upd_timer i clear_activated.

Fixpoint timer_check_loop (fuel : nat) (current_tick : Z) : K unit :=
  s ← get;
  match l_get (ks_rows s) HardRow with
  | [] => mret tt
  | i :: _ =>
    tm ← get_timer i;
    if u32 (current_tick - tm_timeout_tick tm) <? RT_TICK_MAX / 2 then
      match fuel with
      | O => fail OutOfFuel
      | S fuel' =>
        timer_expire i;;
        now ← rt_tick_get;
        timer_check_loop fuel' now
      end
    else mret tt
  end.

Definition rt_timer_check (fuel : nat) : K unit :=
  now ← rt_tick_get; timer_check_loop fuel now.
End check.

Definition rt_system_timer_init : K unit :=
  modify (λ s, set_ks_rows (l_init HardRow (ks_rows s)) s).
