(* ===== verification/KInv.v ===== *)
(** The invariant of the kernel state and the state changes that preserve it.

    [wf] ties together what the modules of the kernel rely on of each other: a
    thread is linked in at most one list, in the one its state asks for; the
    ready bitmap has the bit of a priority set exactly when its queue is not
    empty; the timer of a thread is only armed while the thread is suspended,
    so that [rt_thread_timeout] finds the state it asserts. *)

From stdpp Require Import base gmap list fin_maps.
From Stdlib Require Import ZArith Lia.
From S2P Require Import Prelude IntrusiveList Ffs Kservice KState Object Sched Timer.

Open Scope Z_scope.

(** The state a thread is in when it is linked to a list. *)
Definition home (h : lhead) (th : rt_thread) : Prop :=
  match h with
  | LReady p => th_stat th = RT_THREAD_READY ∧ th_current_priority th = p
  | LDefunct => th_stat th = RT_THREAD_CLOSE
  | _ => th_stat th = RT_THREAD_SUSPEND
  end.

Definition live (th : rt_thread) : Prop :=
  th_stat th = RT_THREAD_READY ∨ th_stat th = RT_THREAD_SUSPEND.

Record prio_ok (th : rt_thread) : Prop := {
  po_init : 0 ≤ th_init_priority th < RT_THREAD_PRIORITY_MAX;
  po_cur : 0 ≤ th_current_priority th < RT_THREAD_PRIORITY_MAX;
  po_mask : live th → th_number_mask th = 2 ^ th_current_priority th;
}.

(** The timer embedded in a thread control block. *)
Record thread_timer_ok (t : Z) (tm : rt_timer) : Prop := {
  tt_func : tm_func tm = FThreadTimeout;
  tt_param : tm_parameter tm = t;
  tt_hard : flag_test (tm_flag tm) RT_TIMER_FLAG_SOFT_TIMER = false;
  tt_once : flag_test (tm_flag tm) RT_TIMER_FLAG_PERIODIC = false;
}.

Definition activated (tm : rt_timer) : Prop :=
  flag_test (tm_flag tm) RT_TIMER_FLAG_ACTIVATED = true.

Record wf (s : kstate) : Prop := {
  wf_lists : l_ok (ks_lists s);
  wf_home h t : t ∈ l_get (ks_lists s) h → ∃ th, ks_threads s !! t = Some th ∧ home h th;
  wf_ready t th : ks_threads s !! t = Some th → th_stat th = RT_THREAD_READY →
    t ∈ l_get (ks_lists s) (LReady (th_current_priority th));
  wf_prio t th : ks_threads s !! t = Some th → th_stat th ≠ RT_THREAD_INIT → prio_ok th;
  wf_group_range : 0 ≤ ks_group s < 2 ^ 32;
  wf_group p : 0 ≤ p < 32 →
    Z.testbit (ks_group s) p = negb (l_isempty (ks_lists s) (LReady p));
  wf_rows : l_ok (ks_rows s);
  wf_row r i : i ∈ l_get (ks_rows s) r →
    ∃ tm, ks_timers s !! i = Some tm ∧ row_of_flag (tm_flag tm) = r;
  wf_timer t th : ks_threads s !! t = Some th → th_stat th ≠ RT_THREAD_INIT →
    ∃ tm, ks_timers s !! TThread t = Some tm ∧ thread_timer_ok t tm;
  wf_armed t r : TThread t ∈ l_get (ks_rows s) r →
    ∃ th tm, ks_threads s !! t = Some th ∧ th_stat th = RT_THREAD_SUSPEND ∧
      ks_timers s !! TThread t = Some tm ∧ activated tm;
}.

(** Fields of the state [wf] does not depend on. *)
Lemma wf_ext s s' :
  ks_threads s' = ks_threads s → ks_lists s' = ks_lists s → ks_group s' = ks_group s →
  ks_timers s' = ks_timers s → ks_rows s' = ks_rows s → wf s → wf s'.
Proof. intros E1 E2 E3 E4 E5 []. split; rewrite ?E1, ?E2, ?E3, ?E4, ?E5; done. Qed.

(** What scheduling and timer code leaves alone: everything but the thread
    lists, the control blocks of threads and timers, the timer lists, the ready
    bitmap and the choice of the running thread. *)
Record frame (s s' : kstate) : Prop := {
  fr_sems : ks_sems s' = ks_sems s;
  fr_mutexes : ks_mutexes s' = ks_mutexes s;
  fr_events : ks_events s' = ks_events s;
  fr_mailboxes : ks_mailboxes s' = ks_mailboxes s;
  fr_mqs : ks_mqs s' = ks_mqs s;
  fr_mempools : ks_mempools s' = ks_mempools s;
  fr_objects : ks_objects s' = ks_objects s;
  fr_containers : ks_containers s' = ks_containers s;
  fr_lock : ks_lock_nest s' = ks_lock_nest s;
  fr_irq : ks_interrupt_nest s' = ks_interrupt_nest s;
  fr_tick : ks_tick s' = ks_tick s;
  fr_freed : ks_freed s' = ks_freed s;
}.
#[global] Instance frame_refl : Reflexive frame.
Proof. by intros s. Qed.
#[global] Instance frame_trans : Transitive frame.
Proof. intros s1 s2 s3 [] []. split; congruence. Qed.
#[export] Hint Extern 0 (frame _ _) => (by split) : kernel.

(** ** Bits of the ready group *)

Lemma testbit_clear g p j :
  0 ≤ p < 32 → 0 ≤ j < 32 →
  Z.testbit (Z.land g (u32 (Z.lnot (2 ^ p)))) j = Z.testbit g j && negb (p =? j).
Proof.
  intros Hp Hj. rewrite Z.land_spec. unfold u32.
  rewrite Z.mod_pow2_bits_low, Z.lnot_spec, testbit_pow2 by lia. done.
Qed.

(** ** State changes that preserve the invariant *)

Lemma live_not_init th : live th → th_stat th ≠ RT_THREAD_INIT.
Proof. by intros [->| ->]. Qed.
#[export] Hint Resolve live_not_init : kernel.

Section preserve.
Context (s s' : kstate) (Hwf : wf s) (t : Z) (th th' : rt_thread).
Context (Ht : ks_threads s !! t = Some th).

(** A thread linked in the ready queue of [p] has priority [p]. *)
Lemma ready_home p : t ∈ l_get (ks_lists s) (LReady p) → th_current_priority th = p.
Proof.
  intros Hin. destruct (wf_home _ Hwf _ _ Hin) as (th2 & Ht2 & _ & Hp). congruence.
Qed.
Lemma armed_suspended r : TThread t ∈ l_get (ks_rows s) r → th_stat th = RT_THREAD_SUSPEND.
Proof. intros Hin. destruct (wf_armed _ Hwf _ _ Hin) as (? & ? & ? & ? & _). congruence. Qed.

(** The thread leaves the list it is in; the ready bit of its priority goes
    with the last thread of the queue. *)
Definition group_without : Z :=
  if l_isempty (l_remove t (ks_lists s)) (LReady (th_current_priority th))
  then Z.land (ks_group s) (u32 (Z.lnot (th_number_mask th))) else ks_group s.

Lemma group_without_bits p :
  live th → 0 ≤ p < 32 →
  Z.testbit group_without p = negb (l_isempty (l_remove t (ks_lists s)) (LReady p)).
Proof.
  intros Hlive Hp. destruct (wf_prio _ Hwf _ _ Ht ltac:(auto with kernel)) as [_ Hc Hm].
  unfold group_without, RT_THREAD_PRIORITY_MAX in *.
  rewrite Hm by done.
  destruct (decide (p = th_current_priority th)) as [->|Hne].
  - destruct (l_isempty _ _) eqn:E.
    + rewrite testbit_clear, Z.eqb_refl, andb_false_r by lia. done.
    + rewrite (wf_group _ Hwf) by lia. apply l_isempty_false in E.
      rewrite l_get_remove in E. rewrite (proj2 (l_isempty_false _ _)); [done|].
      intros E'. by rewrite E' in E.
  - assert (l_isempty (l_remove t (ks_lists s)) (LReady p) = l_isempty (ks_lists s) (LReady p)) as E2.
    { unfold l_isempty. rewrite l_get_remove, filter_ne_notin; [done|].
      intros Hin%ready_home. congruence. }
    rewrite E2, <- (wf_group _ Hwf) by lia.
    destruct (l_isempty _ (LReady (th_current_priority th))); [|done].
    rewrite testbit_clear by lia. rewrite (proj2 (Z.eqb_neq _ _)) by done. apply andb_true_r.
Qed.

Lemma wf_take_out :
  live th →
  ks_threads s' = <[t := th']> (ks_threads s) → ks_lists s' = l_remove t (ks_lists s) →
  ks_group s' = group_without → ks_timers s' = ks_timers s → ks_rows s' = ks_rows s →
  th_stat th' ≠ RT_THREAD_READY → prio_ok th' →
  (th_stat th' = RT_THREAD_SUSPEND ∨ ∀ r, TThread t ∉ l_get (ks_rows s) r) → wf s'.
Proof.
  intros Hlive E1 E2 E3 E4 E5 Hst Hpo Harm. split; rewrite ?E1, ?E2, ?E3, ?E4, ?E5.
  - apply l_remove_ok, Hwf.
  - intros h x. rewrite l_get_remove, list_elem_of_filter. intros [Hne Hin].
    rewrite lookup_insert_ne by done. by apply (wf_home _ Hwf).
  - intros x thx. rewrite lookup_insert, l_get_remove, list_elem_of_filter.
    case_decide; intros Hx Hs; [congruence|]. split; [done|]. by apply (wf_ready _ Hwf).
  - intros x thx. rewrite lookup_insert. case_decide; [intros [= <-]; done|apply (wf_prio _ Hwf)].
  - unfold group_without. case_match; [apply land_range; [lia|]|]; apply Hwf.
  - intros p Hp. by apply group_without_bits.
  - apply Hwf.
  - apply (wf_row _ Hwf).
  - intros x thx. rewrite lookup_insert. case_decide; [|apply (wf_timer _ Hwf)].
    subst x. intros _ _. apply (wf_timer _ Hwf _ _ Ht). auto with kernel.
  - intros x r Hin. rewrite lookup_insert. destruct (wf_armed _ Hwf _ _ Hin) as (thx & tm & ?&?&?&?).
    case_decide; [|eauto 10]. subst x. exists th', tm. destruct Harm as [?|Hno]; [done|].
    by destruct (Hno r).
Qed.

(** A thread that is linked nowhere enters the ready queue. *)
Lemma wf_put_in :
  l_linked (ks_lists s) t = false →
  ks_threads s' = <[t := th']> (ks_threads s) →
  ks_lists s' = l_insert_before (LReady (th_current_priority th')) t (ks_lists s) →
  ks_group s' = Z.lor (ks_group s) (th_number_mask th') →
  ks_timers s' = ks_timers s → ks_rows s' = ks_rows s →
  th_stat th' = RT_THREAD_READY → prio_ok th' → th_stat th ≠ RT_THREAD_INIT →
  (∀ r, TThread t ∉ l_get (ks_rows s) r) → wf s'.
Proof.
  intros Hl E1 E2 E3 E4 E5 Hst Hpo Hni Harm.
  pose proof Hpo as [_ Hc Hm]. specialize (Hm (or_introl Hst)).
  unfold RT_THREAD_PRIORITY_MAX in Hc.
  pose proof (proj1 (l_linked_false _ _) Hl) as Hnl.
  split; rewrite ?E1, ?E2, ?E3, ?E4, ?E5.
  - apply l_insert_before_ok; [apply Hwf|done].
  - intros h x. rewrite l_get_insert_before, lookup_insert.
    case_decide as Eh; [subst h; rewrite elem_of_app, list_elem_of_singleton|]; intros Hin.
    + case_decide; [exists th'; by split|]. apply (wf_home _ Hwf). naive_solver.
    + rewrite decide_False; [by apply (wf_home _ Hwf)|]. intros <-. by eapply Hnl.
  - intros x thx. rewrite lookup_insert, l_get_insert_before. case_decide.
    + intros [= <-] _. rewrite decide_True by done. set_solver.
    + intros Hx Hs. pose proof (wf_ready _ Hwf _ _ Hx Hs). case_decide as Ep; [|done].
      injection Ep as ->. set_solver.
  - intros x thx. rewrite lookup_insert. case_decide; [intros [= <-]; done|apply (wf_prio _ Hwf)].
  - apply lor_range; [lia|apply Hwf|]. rewrite Hm. split; [lia|]. apply Z.pow_lt_mono_r; lia.
  - intros p Hp. rewrite Z.lor_spec, (wf_group _ Hwf), Hm, testbit_pow2 by lia.
    unfold l_isempty. rewrite l_get_insert_before. case_decide as Ep.
    + injection Ep as <-. rewrite Z.eqb_refl, orb_true_r.
      by destruct (l_get (ks_lists s) (LReady (th_current_priority th'))).
    + rewrite (proj2 (Z.eqb_neq _ _)), orb_false_r by congruence. done.
  - apply Hwf.
  - apply (wf_row _ Hwf).
  - intros x thx. rewrite lookup_insert. case_decide; [|apply (wf_timer _ Hwf)].
    subst x. intros _ _. by apply (wf_timer _ Hwf _ _ Ht).
  - intros x r Hin. destruct (wf_armed _ Hwf _ _ Hin) as (thx & tm & ?&?&?&?).
    rewrite lookup_insert_ne; [eauto 10|]. intros <-. by eapply Harm.
Qed.

(** A thread that is not ready is taken out of the list it is in. *)
Lemma wf_unlink :
  th_stat th ≠ RT_THREAD_READY →
  ks_threads s' = ks_threads s → ks_lists s' = l_remove t (ks_lists s) →
  ks_group s' = ks_group s → ks_timers s' = ks_timers s → ks_rows s' = ks_rows s → wf s'.
Proof.
  intros Hst E1 E2 E3 E4 E5. split; rewrite ?E1, ?E2, ?E3, ?E4, ?E5; try apply Hwf.
  - apply l_remove_ok, Hwf.
  - intros h x. rewrite l_get_remove, list_elem_of_filter. intros [_ Hin]. by apply (wf_home _ Hwf).
  - intros x thx Hx Hs. rewrite l_get_remove, list_elem_of_filter.
    split; [|by apply (wf_ready _ Hwf)]. intros ->. by simplify_eq.
  - intros p Hp. rewrite (wf_group _ Hwf) by done. unfold l_isempty.
    rewrite l_get_remove, filter_ne_notin; [done|].
    intros Hin. destruct (wf_home _ Hwf _ _ Hin) as (th2 & Ht2 & Hr & _). by simplify_eq.
Qed.
Lemma wf_unwait :
  th_stat th = RT_THREAD_SUSPEND →
  ks_threads s' = ks_threads s → ks_lists s' = l_remove t (ks_lists s) →
  ks_group s' = ks_group s → ks_timers s' = ks_timers s → ks_rows s' = ks_rows s → wf s'.
Proof. intros Hst. apply wf_unlink. by rewrite Hst. Qed.

(** A suspended thread that is linked nowhere enters a waiting list. *)
Definition wait_head (h : lhead) : Prop :=
  match h with LReady _ | LDefunct => False | _ => True end.
Lemma home_wait h x : wait_head h → home h x ↔ th_stat x = RT_THREAD_SUSPEND.
Proof. by destruct h. Qed.

Lemma wf_wait h :
  wait_head h → th_stat th = RT_THREAD_SUSPEND → l_linked (ks_lists s) t = false →
  l_get (ks_lists s') h ≡ₚ t :: l_get (ks_lists s) h →
  (∀ h', h ≠ h' → l_get (ks_lists s') h' = l_get (ks_lists s) h') →
  ks_threads s' = ks_threads s → ks_group s' = ks_group s →
  ks_timers s' = ks_timers s → ks_rows s' = ks_rows s → wf s'.
Proof.
  intros Hh Hst Hl Hp Ho E1 E3 E4 E5. split; rewrite ?E1, ?E3, ?E4, ?E5; try apply Hwf.
  - eapply (l_perm_ok (ks_lists s) _ h t); [apply Hwf|by apply l_linked_false|done|done].
  - intros h' x. destruct (decide (h = h')) as [<-|Hne].
    + rewrite Hp, elem_of_cons. intros [->|Hin]; [|by apply (wf_home _ Hwf)].
      exists th. split; [done|]. by apply home_wait.
    + rewrite Ho by done. apply (wf_home _ Hwf).
  - intros x thx Hx Hs. rewrite Ho; [by apply (wf_ready _ Hwf)|]. by intros ->.
  - intros p Hpr. rewrite (wf_group _ Hwf) by done. unfold l_isempty.
    rewrite Ho; [done|]. by intros ->.
Qed.

(** Fields of a thread the invariant does not depend on. *)
Lemma wf_thread_field :
  ks_threads s' = <[t := th']> (ks_threads s) → ks_lists s' = ks_lists s →
  ks_group s' = ks_group s → ks_timers s' = ks_timers s → ks_rows s' = ks_rows s →
  th_stat th' = th_stat th → (th_stat th ≠ RT_THREAD_INIT → prio_ok th') →
  (th_stat th = RT_THREAD_READY → th_current_priority th' = th_current_priority th) → wf s'.
Proof.
  intros E1 E2 E3 E4 E5 Es Hpo Ep. split; rewrite ?E1, ?E2, ?E3, ?E4, ?E5; try apply Hwf.
  - intros h x Hin. destruct (wf_home _ Hwf _ _ Hin) as (thx & Hx & Hh).
    rewrite lookup_insert. case_decide; [|eauto]. subst x. exists th'. split; [done|].
    assert (thx = th) as -> by congruence.
    destruct h; simpl in *; rewrite ?Es; try done. destruct Hh as [Hr Hp]. split; [done|].
    rewrite Ep; done.
  - intros x thx. rewrite lookup_insert. case_decide; [|apply (wf_ready _ Hwf)].
    intros [= <-] Hs. rewrite Es in Hs. rewrite Ep by done. subst x. by apply (wf_ready _ Hwf).
  - intros x thx. rewrite lookup_insert. case_decide; [|apply (wf_prio _ Hwf)].
    intros [= <-] Hs. apply Hpo. by rewrite <- Es.
  - intros x thx. rewrite lookup_insert. case_decide; [|apply (wf_timer _ Hwf)].
    intros [= <-] Hs. subst x. apply (wf_timer _ Hwf _ _ Ht). by rewrite <- Es.
  - intros x r Hin. destruct (wf_armed _ Hwf _ _ Hin) as (thx & tm & ?&?&?&?).
    rewrite lookup_insert. case_decide; [|eauto 10]. subst x.
    exists th', tm. split_and!; [done| |done|done]. congruence.
Qed.
End preserve.

(** ** Timer changes *)

Section preserve_timer.
Context (s s' : kstate) (Hwf : wf s) (i : timer_id) (tm tm' : rt_timer).
Context (Hi : ks_timers s !! i = Some tm).
Context (E1 : ks_threads s' = ks_threads s) (E2 : ks_lists s' = ks_lists s)
  (E3 : ks_group s' = ks_group s) (E4 : ks_timers s' = <[i := tm']> (ks_timers s)).

(** The timer keeps its kind: its list and, for the timer of a thread, its
    function and mode. *)
Definition same_kind : Prop :=
  row_of_flag (tm_flag tm') = row_of_flag (tm_flag tm) ∧
  ∀ t, thread_timer_ok t tm → thread_timer_ok t tm'.
Context (Hk : same_kind).

Lemma kind_timer t th :
  ks_threads s !! t = Some th → th_stat th ≠ RT_THREAD_INIT →
  ∃ tm0, <[i := tm']> (ks_timers s) !! TThread t = Some tm0 ∧ thread_timer_ok t tm0.
Proof.
  intros Hx Hs. destruct (wf_timer _ Hwf _ _ Hx Hs) as (tm0 & Htm & Hok).
  rewrite lookup_insert. case_decide; [|eauto]. subst i. exists tm'. split; [done|].
  apply Hk. congruence.
Qed.
Lemma kind_row r j :
  j ∈ l_get (ks_rows s) r →
  ∃ tm0, <[i := tm']> (ks_timers s) !! j = Some tm0 ∧ row_of_flag (tm_flag tm0) = r.
Proof.
  intros Hj. destruct (wf_row _ Hwf _ _ Hj) as (tm0 & Htm & Hr).
  rewrite lookup_insert. case_decide; [|eauto]. subst j. exists tm'. split; [done|].
  rewrite (proj1 Hk). congruence.
Qed.

(** The timer is taken out of the list it is in. *)
Lemma wf_timer_off : ks_rows s' = l_remove i (ks_rows s) → wf s'.
Proof.
  intros E5. split; rewrite ?E1, ?E2, ?E3, ?E4, ?E5; try apply Hwf.
  - apply l_remove_ok, Hwf.
  - intros r j. rewrite l_get_remove, list_elem_of_filter. intros [_ Hj]. by apply kind_row.
  - apply kind_timer.
  - intros t r. rewrite l_get_remove, list_elem_of_filter. intros [Hne Hj].
    rewrite lookup_insert_ne by congruence. by apply (wf_armed _ Hwf _ r).
Qed.

(** The timer, linked nowhere, enters the list of its kind. *)
Lemma wf_timer_on r :
  l_linked (ks_rows s) i = false → row_of_flag (tm_flag tm') = r →
  l_get (ks_rows s') r ≡ₚ i :: l_get (ks_rows s) r →
  (∀ r', r ≠ r' → l_get (ks_rows s') r' = l_get (ks_rows s) r') →
  (∀ t, i = TThread t → activated tm' ∧
    ∃ th, ks_threads s !! t = Some th ∧ th_stat th = RT_THREAD_SUSPEND) → wf s'.
Proof.
  intros Hl Hr Hp Ho Harm. split; rewrite ?E1, ?E2, ?E3, ?E4; try apply Hwf.
  - eapply (l_perm_ok (ks_rows s) _ r i); [apply Hwf|by apply l_linked_false|done|done].
  - intros r' j. destruct (decide (r = r')) as [<-|Hne].
    + rewrite Hp, elem_of_cons. intros [->|Hj]; [rewrite lookup_insert_eq; eauto|by apply kind_row].
    + rewrite Ho by done. apply kind_row.
  - apply kind_timer.
  - intros t r' Hin. destruct (decide (i = TThread t)) as [->|Hne].
    + destruct (Harm t eq_refl) as (Hact & th & Hth & Hst). exists th, tm'.
      by rewrite lookup_insert_eq.
    + rewrite lookup_insert_ne by done. apply (wf_armed _ Hwf _ r').
      destruct (decide (r = r')) as [<-|Hne']; [|by rewrite Ho in Hin].
      rewrite Hp, elem_of_cons in Hin. destruct Hin as [E|?]; congruence.
Qed.

(** Fields of a timer that change nothing about its lists. *)
Lemma wf_timer_field :
  ks_rows s' = ks_rows s →
  (∀ t r, i = TThread t → TThread t ∈ l_get (ks_rows s) r → activated tm') → wf s'.
Proof.
  intros E5 Hact. split; rewrite ?E1, ?E2, ?E3, ?E4, ?E5; try apply Hwf.
  - apply kind_row.
  - apply kind_timer.
  - intros t r Hin. destruct (wf_armed _ Hwf _ _ Hin) as (th & tm0 & ?&?&?&?).
    rewrite lookup_insert. case_decide; [|eauto 10]. exists th, tm'. split_and!; [done..|].
    by eapply Hact.
Qed.
End preserve_timer.
