(* ===== verification/WfCheck.v ===== *)
(** The kernel invariant as a program: [wf_check] decides a sufficient condition
    for [KInv.wf] on a concrete state, so that the hypotheses of a theorem can be
    checked by evaluation on the states the model reaches. *)

From stdpp Require Import base gmap list fin_maps.
From Stdlib Require Import ZArith Lia.
From S2P Require Import Prelude IntrusiveList Ffs Kservice KState Object Sched Timer KInv.

Open Scope Z_scope.

(** A test on every entry of a map. *)
Definition map_all `{Countable Ix} {A} (f : Ix → A → bool) (m : gmap Ix A) : bool :=
  forallb (λ p : Ix * A, f p.1 p.2) (map_to_list m).

Lemma map_all_spec `{Countable Ix} {A} (f : Ix → A → bool) (m : gmap Ix A) i x :
  map_all f m = true → m !! i = Some x → f i x = true.
Proof.
  unfold map_all. rewrite forallb_forall. intros Hf Hi.
  apply (Hf (i, x)), list_elem_of_In. by apply elem_of_map_to_list.
Qed.

Definition lists_check `{Countable Hd} `{EqDecision Nd} (L : gmap Hd (list Nd)) : bool :=
  map_all (λ h1 l1, bool_decide (NoDup l1) &&
    map_all (λ h2 l2, bool_decide (h1 = h2) || forallb (λ n, bool_decide (n ∉ l2)) l1) L) L.

Lemma lists_check_sound `{Countable Hd} `{EqDecision Nd} (L : gmap Hd (list Nd)) :
  lists_check L = true → l_ok L.
Proof.
  intros Hc. assert (Hl : ∀ h l, L !! h = Some l → NoDup l ∧
    ∀ h' l' n, L !! h' = Some l' → n ∈ l → n ∈ l' → h = h').
  { intros h l E. pose proof (map_all_spec _ _ _ _ Hc E) as [Hn Ho]%andb_true_iff.
    split; [by eapply bool_decide_eq_true_1|]. intros h' l' n E' Hin Hin'.
    pose proof (map_all_spec _ _ _ _ Ho E') as [Hh|Hdis]%orb_true_iff; [by eapply bool_decide_eq_true_1|].
    rewrite forallb_forall in Hdis. specialize (Hdis n (proj1 (list_elem_of_In _ _) Hin)).
    by apply bool_decide_eq_true_1 in Hdis. }
  split; unfold l_get.
  - intros h. destruct (L !! h) eqn:E; simpl; [by eapply Hl|constructor].
  - intros h1 h2 n. destruct (L !! h1) eqn:E1; simpl; [|by intros ?%not_elem_of_nil].
    destruct (L !! h2) eqn:E2; simpl; [|by intros _ ?%not_elem_of_nil]. intros. by eapply Hl.
Qed.

(** A test on every linked node. *)
Definition nodes_all `{Countable Hd} {Nd} (f : Hd → Nd → bool) (L : gmap Hd (list Nd)) : bool :=
  map_all (λ h l, forallb (f h) l) L.
Lemma nodes_all_spec `{Countable Hd} {Nd} (f : Hd → Nd → bool) (L : gmap Hd (list Nd)) h n :
  nodes_all f L = true → n ∈ l_get L h → f h n = true.
Proof.
  unfold l_get. intros Hf. destruct (L !! h) as [l|] eqn:E; simpl; [|by intros ?%not_elem_of_nil].
  pose proof (map_all_spec _ _ _ _ Hf E) as Hl. rewrite forallb_forall in Hl.
  intros Hin. apply Hl. by apply list_elem_of_In.
Qed.

Definition home_check (h : lhead) (th : rt_thread) : bool :=
  match h with
  | LReady p => (th_stat th =? RT_THREAD_READY) && (th_current_priority th =? p)
  | LDefunct => th_stat th =? RT_THREAD_CLOSE
  | _ => th_stat th =? RT_THREAD_SUSPEND
  end.
Definition prio_check (th : rt_thread) : bool :=
  (0 <=? th_init_priority th) && (th_init_priority th <? 32) &&
  (0 <=? th_current_priority th) && (th_current_priority th <? 32) &&
  (th_number_mask th =? 2 ^ th_current_priority th).
Definition thread_timer_check (t : Z) (tm : rt_timer) : bool :=
  match tm_func tm with FThreadTimeout => true | _ => false end && (tm_parameter tm =? t) &&
  negb (flag_test (tm_flag tm) RT_TIMER_FLAG_SOFT_TIMER) &&
  negb (flag_test (tm_flag tm) RT_TIMER_FLAG_PERIODIC).

Definition wf_check (s : kstate) : bool :=
  lists_check (ks_lists s) && lists_check (ks_rows s) &&
  nodes_all (λ h t, match ks_threads s !! t with Some th => home_check h th | None => false end) (ks_lists s) &&
  map_all (λ t th, negb (th_stat th =? RT_THREAD_READY) ||
    bool_decide (t ∈ l_get (ks_lists s) (LReady (th_current_priority th)))) (ks_threads s) &&
  map_all (λ t th, (th_stat th =? RT_THREAD_INIT) || (prio_check th &&
    match ks_timers s !! TThread t with Some tm => thread_timer_check t tm | None => false end)) (ks_threads s) &&
  (0 <=? ks_group s) && (ks_group s <? 2 ^ 32) &&
  forallb (λ p, Bool.eqb (Z.testbit (ks_group s) (Z.of_nat p)) (negb (l_isempty (ks_lists s) (LReady (Z.of_nat p))))) (seq 0 32) &&
  nodes_all (λ r i, match ks_timers s !! i with
    | Some tm => bool_decide (row_of_flag (tm_flag tm) = r) &&
      match i with
      | TThread t => flag_test (tm_flag tm) RT_TIMER_FLAG_ACTIVATED &&
          match ks_threads s !! t with Some th => th_stat th =? RT_THREAD_SUSPEND | None => false end
      | TUser _ => true
      end
    | None => false end) (ks_rows s).

Lemma home_check_sound h th : home_check h th = true → home h th.
Proof. destruct h; simpl; rewrite ?andb_true_iff, ?Z.eqb_eq; done. Qed.
Lemma prio_check_sound th : prio_check th = true → prio_ok th.
Proof.
  unfold prio_check. rewrite !andb_true_iff, !Z.leb_le, !Z.ltb_lt, Z.eqb_eq.
  intros [[[[? ?] ?] ?] ?]. by split.
Qed.
Lemma thread_timer_check_sound t tm : thread_timer_check t tm = true → thread_timer_ok t tm.
Proof.
  unfold thread_timer_check. rewrite !andb_true_iff, !negb_true_iff, Z.eqb_eq.
  intros [[[Hf ?] ?] ?]. split; try done. by destruct (tm_func tm).
Qed.

Lemma wf_check_sound s : wf_check s = true → wf s.
Proof.
  unfold wf_check. rewrite !andb_true_iff, Z.leb_le, Z.ltb_lt.
  intros [[[[[[[[Hl Hr] Hh] Hrd] Hp] Hg0] Hg1] Hg] Hrow]. split.
  - by apply lists_check_sound.
  - intros h t Hin. pose proof (nodes_all_spec _ _ _ _ Hh Hin) as H. simpl in H.
    destruct (ks_threads s !! t) as [th|]; [|done]. exists th. split; [done|by apply home_check_sound].
  - intros t th Ht Hs. pose proof (map_all_spec _ _ _ _ Hrd Ht) as H. simpl in H.
    rewrite Hs in H. simpl in H. by apply bool_decide_eq_true_1 in H.
  - intros t th Ht Hs. pose proof (map_all_spec _ _ _ _ Hp Ht) as H. simpl in H.
    rewrite (proj2 (Z.eqb_neq _ _) Hs) in H. apply andb_true_iff in H as [H _]. by apply prio_check_sound.
  - done.
  - intros p Hpr. rewrite forallb_forall in Hg. specialize (Hg (Z.to_nat p)).
    rewrite Z2Nat.id in Hg by lia. apply eqb_prop, Hg, in_seq. lia.
  - by apply lists_check_sound.
  - intros r i Hin. pose proof (nodes_all_spec _ _ _ _ Hrow Hin) as H. simpl in H.
    destruct (ks_timers s !! i) as [tm|]; [|done]. exists tm. split; [done|].
    apply andb_true_iff in H as [H _]. by apply bool_decide_eq_true_1 in H.
  - intros t th Ht Hs. pose proof (map_all_spec _ _ _ _ Hp Ht) as H. simpl in H.
    rewrite (proj2 (Z.eqb_neq _ _) Hs) in H. apply andb_true_iff in H as [_ H].
    destruct (ks_timers s !! TThread t) as [tm|]; [|done]. exists tm. split; [done|by apply thread_timer_check_sound].
  - intros t r Hin. pose proof (nodes_all_spec _ _ _ _ Hrow Hin) as H. simpl in H.
    destruct (ks_timers s !! TThread t) as [tm|]; [|done]. rewrite !andb_true_iff in H. destruct H as (_ & Ha & H).
    destruct (ks_threads s !! t) as [th|]; [|done]. exists th, tm. split_and!; try done. by apply Z.eqb_eq.
Qed.
