(* ===== verification/SchedFacts.v ===== *)
(** Specifications of the scheduler's operations against the kernel invariant. *)

From stdpp Require Import base gmap list fin_maps.
From Stdlib Require Import ZArith Lia.
From S2P Require Import Prelude IntrusiveList Ffs Kservice KState Object Sched Timer KInv.

Open Scope Z_scope.

(** ** Access *)

Section access.
Context (s : kstate).
Lemma wp_get_thread t th Q : ks_threads s !! t = Some th → Q th s → wp (get_thread t) Q s.
Proof. intros Ht HQ. unfold get_thread. wp_step. wp_step. by eapply wp_option. Qed.
Lemma wp_upd_thread t f th (Q : unit → kstate → Prop) : ks_threads s !! t = Some th →
  Q tt (set_ks_threads (<[t := f th]> (ks_threads s)) s) → wp (upd_thread t f) Q s.
Proof. intros Ht HQ. unfold upd_thread. wp_step. by eapply wp_get_thread. Qed.
Lemma wp_get_timer i tm Q : ks_timers s !! i = Some tm → Q tm s → wp (get_timer i) Q s.
Proof. intros Ht HQ. unfold get_timer. wp_step. wp_step. by eapply wp_option. Qed.
Lemma wp_upd_timer i f tm (Q : unit → kstate → Prop) : ks_timers s !! i = Some tm →
  Q tt (set_ks_timers (<[i := f tm]> (ks_timers s)) s) → wp (upd_timer i f) Q s.
Proof. intros Ht HQ. unfold upd_timer. wp_step. by eapply wp_get_timer. Qed.
Lemma wp_priority_table p Q : 0 ≤ p < RT_THREAD_PRIORITY_MAX → Q (LReady p) s → wp (priority_table p) Q s.
Proof.
  intros Hp HQ. unfold priority_table. rewrite (proj2 (Z.leb_le 0 p)), (proj2 (Z.ltb_lt p _)) by lia. done.
Qed.
Lemma wp_tlist_link t f (Q : unit → kstate → Prop) : l_linked (ks_lists s) t = false →
  Q tt (set_ks_lists (f (ks_lists s)) s) → wp (tlist_link t f) Q s.
Proof. intros Hl HQ. unfold tlist_link. wp_step. wp_step. by rewrite Hl. Qed.
Lemma wp_tlist_first h t l Q : l_get (ks_lists s) h = t :: l → Q t s → wp (tlist_first h) Q s.
Proof. intros Hl HQ. unfold tlist_first. wp_step. wp_step. eapply wp_option; [by rewrite Hl|done]. Qed.
Lemma wp_tlist_isempty h Q : Q (l_isempty (ks_lists s) h) s → wp (tlist_isempty h) Q s.
Proof. done. Qed.
Lemma wp_self t Q : ks_current s = Some t → Q t s → wp self Q s.
Proof.
  intros Hc HQ. unfold self, rt_thread_self. wp_step. wp_step. wp_step. wp_step. by eapply wp_option.
Qed.
End access.

Lemma not_ready_suspend : RT_THREAD_READY ≠ RT_THREAD_SUSPEND.
Proof. done. Qed.

(** Everything outside threads, timers and their lists is kept, the running
    thread too. *)
Definition quiet (s s' : kstate) : Prop :=
  frame s s' ∧ ks_current s' = ks_current s ∧ ks_current_priority s' = ks_current_priority s.
#[global] Instance quiet_refl : Reflexive quiet.
Proof. by intros s. Qed.
#[global] Instance quiet_trans : Transitive quiet.
Proof. intros s1 s2 s3 (?&?&?) (?&?&?). split_and!; [by etrans|congruence..]. Qed.
#[export] Hint Extern 0 (quiet _ _) => (by repeat split) : kernel.

(** ** Flags of timers *)

Lemma kind_clear tm : same_kind tm (clear_activated tm).
Proof.
  split.
  - unfold row_of_flag, clear_activated. simpl. change 4 with (2 ^ 2). change RT_TIMER_FLAG_SOFT_TIMER with (2 ^ 2).
    change RT_TIMER_FLAG_ACTIVATED with (2 ^ 0). by rewrite flag_clear, andb_true_r by lia.
  - intros t [Hf Hp Hh Ho]. split; [done|done| |]; simpl; change RT_TIMER_FLAG_ACTIVATED with (2 ^ 0).
    + change RT_TIMER_FLAG_SOFT_TIMER with (2 ^ 2) in *. by rewrite flag_clear, Hh by lia.
    + change RT_TIMER_FLAG_PERIODIC with (2 ^ 1) in *. by rewrite flag_clear, Ho by lia.
Qed.
Lemma kind_set tm : same_kind tm (set_activated tm).
Proof.
  split.
  - unfold row_of_flag, set_activated. simpl. change RT_TIMER_FLAG_SOFT_TIMER with (2 ^ 2).
    change RT_TIMER_FLAG_ACTIVATED with (2 ^ 0). by rewrite flag_set, orb_false_r by lia.
  - intros t [Hf Hp Hh Ho]. split; [done|done| |]; simpl; change RT_TIMER_FLAG_ACTIVATED with (2 ^ 0).
    + change RT_TIMER_FLAG_SOFT_TIMER with (2 ^ 2) in *. by rewrite flag_set, Hh by lia.
    + change RT_TIMER_FLAG_PERIODIC with (2 ^ 1) in *. by rewrite flag_set, Ho by lia.
Qed.
Lemma activated_set tm : activated (set_activated tm).
Proof.
  unfold activated. simpl. change RT_TIMER_FLAG_ACTIVATED with (2 ^ 0).
  rewrite flag_set by lia. apply orb_true_r.
Qed.
Lemma activated_clear tm : ¬ activated (clear_activated tm).
Proof.
  unfold activated. simpl. change RT_TIMER_FLAG_ACTIVATED with (2 ^ 0).
  rewrite flag_clear by lia. rewrite andb_false_r. done.
Qed.

(** ** Stopping the timer of a thread *)

(** After the call the timer is in no list; only it and its list changed. *)
Record timer_stopped (i : timer_id) (s s' : kstate) : Prop := {
  ts_wf : wf s';
  ts_threads : ks_threads s' = ks_threads s;
  ts_lists : ks_lists s' = ks_lists s;
  ts_group : ks_group s' = ks_group s;
  ts_quiet : quiet s s';
  ts_rows r : l_get (ks_rows s') r = filter (λ x, x ≠ i) (l_get (ks_rows s) r);
  ts_timers j : j ≠ i → ks_timers s' !! j = ks_timers s !! j;
}.

Lemma timer_stop_spec s t th :
  wf s → ks_threads s !! t = Some th → th_stat th ≠ RT_THREAD_INIT →
  wp (rt_timer_stop (TThread t)) (λ _, timer_stopped (TThread t) s) s.
Proof.
  intros Hwf Ht Hs. destruct (wf_timer _ Hwf _ _ Ht Hs) as (tm & Htm & Hok).
  unfold rt_timer_stop. wp_step. eapply wp_get_timer; [done|]. cbv beta. wp_step.
  - wp_step. unfold timer_remove. wp_step. wp_step. eapply wp_upd_timer; [done|]. wp_step.
    split; try done.
    + eapply (wf_timer_off s); [done|exact Htm|done..|apply kind_clear|done].
    + intros r. simpl. by rewrite l_get_remove.
    + intros j Hj. simpl. by rewrite lookup_insert_ne.
  - wp_step. split; try done. intros r. rewrite filter_ne_notin; [done|].
    intros Hin. destruct (wf_armed _ Hwf _ _ Hin) as (? & ? & ? & ? & Htm' & Hact).
    unfold activated in Hact. congruence.
Qed.

(** ** Entering and leaving the ready queue *)

(** A thread moved to the end of the ready queue of its priority, from wherever
    it was linked. *)
Record readied (t : Z) (th : rt_thread) (s s' : kstate) : Prop := {
  rd_wf : wf s';
  rd_threads : ks_threads s' = <[t := set_th_stat RT_THREAD_READY th]> (ks_threads s);
  rd_lists h : l_get (ks_lists s') h =
    filter (λ x, x ≠ t) (l_get (ks_lists s) h) ++
      (if decide (h = LReady (th_current_priority th)) then [t] else []);
  rd_quiet : quiet s s';
  rd_rows r : l_get (ks_rows s') r = filter (λ x, x ≠ TThread t) (l_get (ks_rows s) r);
  rd_timers j : j ≠ TThread t → ks_timers s' !! j = ks_timers s !! j;
}.

Lemma prio_ok_stat th st :
  prio_ok th → live th → prio_ok (set_th_stat st th).
Proof. intros [? ? Hm] Hl. split; simpl; auto. Qed.
#[export] Hint Resolve prio_ok_stat : kernel.

Lemma schedule_insert_spec s t th :
  wf s → ks_threads s !! t = Some th → th_stat th = RT_THREAD_SUSPEND →
  l_linked (ks_lists s) t = false → (∀ r, TThread t ∉ l_get (ks_rows s) r) →
  wp (rt_schedule_insert_thread t) (λ _ s', readied t th s s' ∧ ks_timers s' = ks_timers s) s.
Proof.
  intros Hwf Ht Hst Hl Harm. unfold rt_schedule_insert_thread.
  assert (live th) as Hlive by (by right).
  pose proof (wf_prio _ Hwf _ _ Ht ltac:(auto with kernel)) as Hpo.
  wp_step. eapply wp_upd_thread; [done|]. wp_step.
  eapply wp_get_thread; [apply lookup_insert_eq|]. wp_step.
  apply wp_priority_table; [apply Hpo|]. wp_step.
  apply wp_tlist_link; [done|]. wp_step. split; [|done]. split; simpl.
  - eapply (wf_put_in s _ Hwf t th (set_th_stat RT_THREAD_READY th)); try done.
    + by apply prio_ok_stat.
    + by rewrite Hst.
  - done.
  - intros h. rewrite l_get_insert_before. rewrite filter_ne_notin by (by apply l_linked_false).
    destruct (decide (LReady (th_current_priority th) = h)) as [<-|Hne].
    + by rewrite decide_True.
    + by rewrite decide_False, app_nil_r.
  - done.
  - intros r. by rewrite filter_ne_notin.
  - done.
Qed.

Lemma thread_resume_spec s t th :
  wf s → ks_threads s !! t = Some th → th_stat th = RT_THREAD_SUSPEND →
  wp (rt_thread_resume t) (λ r s', r = RT_EOK ∧ readied t th s s') s.
Proof.
  intros Hwf Ht Hst. unfold rt_thread_resume. wp_step. eapply wp_get_thread; [done|].
  rewrite Hst. simpl. wp_step. unfold tlist_remove. wp_step. wp_step.
  set (s1 := set_ks_lists _ s).
  assert (Hwf1 : wf s1) by (by eapply (wf_unwait s _ Hwf t th)).
  eapply wp_mono; [by eapply (timer_stop_spec s1 t th); rewrite ?Hst|].
  intros _ s2 [Hwf2 Et El Eg Hq Er Etm]. wp_step.
  eapply wp_mono; [eapply (schedule_insert_spec s2 t th); try done|].
  - by rewrite Et.
  - rewrite El. apply l_remove_unlinked.
  - intros r. rewrite Er, list_elem_of_filter. naive_solver.
  - intros _ s3 [[Hwf3 Et3 El3 Hq3 Er3 Etm3] _]. wp_step. split; [done|]. split; try done.
    + by rewrite Et3, Et.
    + intros h. rewrite El3, El. simpl. rewrite l_get_remove, list_filter_filter.
      f_equal. apply list_filter_iff. naive_solver.
    + transitivity s1; [by repeat split|by etrans].
    + intros r. rewrite Er3, Er. simpl. rewrite list_filter_filter. apply list_filter_iff. naive_solver.
    + intros j Hj. rewrite Etm3, Etm; done.
Qed.

(** A resume of a thread that is not suspended is refused and changes nothing. *)
Lemma thread_resume_refused s t th :
  ks_threads s !! t = Some th → th_stat th ≠ RT_THREAD_SUSPEND →
  rt_thread_resume t s = Done (- RT_ERROR) s.
Proof.
  intros Ht Hst. unfold rt_thread_resume, get_thread, mbind, SM_bind, get. rewrite Ht. simpl.
  by rewrite (proj2 (Z.eqb_neq _ _) Hst).
Qed.

(** ** Suspending *)

Record suspended (t : Z) (th : rt_thread) (s s' : kstate) : Prop := {
  su_wf : wf s';
  su_threads : ks_threads s' = <[t := set_th_stat RT_THREAD_SUSPEND th]> (ks_threads s);
  su_lists h : l_get (ks_lists s') h = filter (λ x, x ≠ t) (l_get (ks_lists s) h);
  su_quiet : quiet s s';
  su_rows r : l_get (ks_rows s') r = filter (λ x, x ≠ TThread t) (l_get (ks_rows s) r);
  su_timers j : j ≠ TThread t → ks_timers s' !! j = ks_timers s !! j;
}.

Lemma thread_suspend_spec s t th :
  wf s → ks_threads s !! t = Some th → th_stat th = RT_THREAD_READY →
  wp (rt_thread_suspend t) (λ r s', r = RT_EOK ∧ suspended t th s s') s.
Proof.
  intros Hwf Ht Hst. assert (live th) as Hlive by (by left).
  pose proof (wf_prio _ Hwf _ _ Ht ltac:(auto with kernel)) as Hpo.
  unfold rt_thread_suspend. wp_step. eapply wp_get_thread; [done|].
  rewrite Hst. simpl. wp_step. eapply wp_upd_thread; [done|]. wp_step.
  unfold rt_schedule_remove_thread. wp_step. eapply wp_get_thread; [apply lookup_insert_eq|].
  wp_step. unfold tlist_remove. wp_step. wp_step. apply wp_priority_table; [apply Hpo|].
  wp_step. apply wp_tlist_isempty. simpl.
  set (th' := set_th_stat RT_THREAD_SUSPEND th).
  eapply (wp_mono _ (λ _ s1, wf s1 ∧ ks_threads s1 = <[t := th']> (ks_threads s) ∧
    ks_lists s1 = l_remove t (ks_lists s) ∧ ks_rows s1 = ks_rows s ∧ ks_timers s1 = ks_timers s ∧ quiet s s1)).
  { assert (Hgo : ∀ s1, ks_threads s1 = <[t := th']> (ks_threads s) →
      ks_lists s1 = l_remove t (ks_lists s) → ks_rows s1 = ks_rows s → ks_timers s1 = ks_timers s →
      ks_group s1 = group_without s t th → wf s1).
    { intros s1 E1 E2 E3 E4 E5. apply (wf_take_out s s1 Hwf t th th' Ht Hlive E1 E2 E5 E4 E3);
        [done|by apply prio_ok_stat|by left]. }
    unfold group_without in Hgo. wp_step.
    - wp_step. split_and!; try done. apply Hgo; try done. simpl. by rewrite H.
    - split_and!; try done. apply Hgo; try done. simpl. by rewrite H. }
  intros _ s1 (Hwf1 & Et & El & Er & Etm & Hq). wp_step.
  eapply wp_mono; [eapply (timer_stop_spec s1 t th'); [done|by rewrite Et, lookup_insert_eq|done]|].
  intros _ s2 [Hwf2 Et2 El2 Eg2 Hq2 Er2 Etm2]. wp_step. split; [done|]. split; try done.
  - by rewrite Et2, Et.
  - intros h. by rewrite El2, El, l_get_remove.
  - by etrans.
  - intros r. by rewrite Er2, Er.
  - intros j Hj. by rewrite Etm2, Etm.
Qed.

(** ** Choosing the running thread *)

(** [t] is the thread the scheduler must run: the first of the queue of the
    highest priority (the smallest number) that has a ready thread. *)
Definition highest_ready (s : kstate) (p t : Z) : Prop :=
  0 ≤ p < RT_THREAD_PRIORITY_MAX ∧ head (l_get (ks_lists s) (LReady p)) = Some t ∧
  ∀ q, 0 ≤ q < p → l_get (ks_lists s) (LReady q) = [].

Definition some_ready (s : kstate) : Prop :=
  ∃ t th, ks_threads s !! t = Some th ∧ th_stat th = RT_THREAD_READY.

Lemma group_lowest s p :
  wf s → is_lowest_bit (ks_group s) p → p < 32 → ∃ t, highest_ready s p t.
Proof.
  intros Hwf (Hp0 & Hb & Hl) Hp. rewrite (wf_group _ Hwf), negb_true_iff, l_isempty_false in Hb by lia.
  destruct (l_get (ks_lists s) (LReady p)) as [|t l] eqn:E; [done|].
  exists t. unfold highest_ready, RT_THREAD_PRIORITY_MAX. rewrite E. split_and!; [lia|lia|done|].
  intros q Hq. specialize (Hl q ltac:(lia)).
  rewrite (wf_group _ Hwf), negb_false_iff, l_isempty_spec in Hl by lia. done.
Qed.

Lemma group_nonzero s : wf s → some_ready s → ks_group s ≠ 0.
Proof.
  intros Hwf (t & th & Ht & Hs) E0.
  destruct (wf_prio _ Hwf _ _ Ht ltac:(by rewrite Hs)) as [_ Hc _].
  pose proof (wf_ready _ Hwf _ _ Ht Hs) as Hin.
  pose proof (wf_group _ Hwf (th_current_priority th) Hc) as Hg.
  rewrite E0, Z.bits_0 in Hg. symmetry in Hg. rewrite negb_false_iff, l_isempty_spec in Hg.
  rewrite Hg in Hin. by apply not_elem_of_nil in Hin.
Qed.

(** Only the running thread changes. *)
Definition switched (s s' : kstate) : Prop :=
  ∃ c p, s' = set_ks_current c (set_ks_current_priority p s).
Lemma switched_refl s : switched s s.
Proof. exists (ks_current s), (ks_current_priority s). by destruct s. Qed.
Lemma switched_wf s s' : switched s s' → wf s → wf s'.
Proof. intros (c & p & ->). by apply wf_ext. Qed.
Lemma switched_frame s s' : switched s s' → frame s s'.
Proof. intros (c & p & ->). by split. Qed.

Lemma schedule_spec s c :
  wf s → some_ready s → ks_current s = Some c →
  wp rt_schedule (λ _ s', switched s s' ∧
    (if ks_lock_nest s =? 0 then ∃ p t, highest_ready s p t ∧ ks_current s' = Some t
     else s' = s)) s.
Proof.
  intros Hwf Hr Hc. unfold rt_schedule. wp_step. wp_step.
  destruct (ks_lock_nest s =? 0) eqn:El; [|wp_step; split; [apply switched_refl|done]].
  pose proof (wf_group_range _ Hwf) as Hg. pose proof (group_nonzero _ Hwf Hr) as Hg0.
  destruct (rt_ffs_lowest (ks_group s) ltac:(lia)) as [Hlow Hrange].
  destruct (group_lowest s _ Hwf Hlow ltac:(lia)) as (t & Ht).
  wp_step. apply wp_priority_table; [apply Ht|]. wp_step.
  pose proof Ht as (_ & Hh & _).
  destruct (l_get (ks_lists s) (LReady (rt_ffs (ks_group s) - 1))) as [|t' l] eqn:Eh; [done|].
  injection Hh as ->. eapply wp_tlist_first; [done|]. case_decide as Ec.
  - wp_step. split; [apply switched_refl|]. rewrite <- Ec. eauto.
  - wp_step. eapply wp_self; [done|]. wp_step. wp_step. wp_step.
    split; [by eexists _, _|]. eauto.
Qed.

(** ** Changing the priority of a thread *)

Record reprioritised (t p : Z) (th : rt_thread) (s s' : kstate) : Prop := {
  rp_wf : wf s';
  rp_threads : ks_threads s' = <[t := set_priority p th]> (ks_threads s);
  rp_lists h : l_get (ks_lists s') h =
    if th_stat th =? RT_THREAD_READY then
      filter (λ x, x ≠ t) (l_get (ks_lists s) h) ++ (if decide (h = LReady p) then [t] else [])
    else l_get (ks_lists s) h;
  rp_quiet : quiet s s';
  rp_rows : ks_rows s' = ks_rows s;
  rp_timers : ks_timers s' = ks_timers s;
}.

Lemma set_priority_ok p th :
  prio_ok th → 0 ≤ p < RT_THREAD_PRIORITY_MAX → prio_ok (set_priority p th).
Proof.
  intros [Hi _ _] Hp. split; [done|done|]. intros _. simpl. unfold u32, RT_THREAD_PRIORITY_MAX in *.
  rewrite Z.shiftl_1_l, Z.mod_small; [done|]. split; [lia|]. apply Z.pow_lt_mono_r; lia.
Qed.

Lemma change_priority_spec s t p th :
  wf s → ks_threads s !! t = Some th → th_stat th ≠ RT_THREAD_INIT → 0 ≤ p < RT_THREAD_PRIORITY_MAX →
  wp (change_priority t p) (λ _, reprioritised t p th s) s.
Proof.
  intros Hwf Ht Hs Hp. pose proof (wf_prio _ Hwf _ _ Ht Hs) as Hpo.
  unfold change_priority. wp_step. eapply wp_get_thread; [done|].
  destruct (Z.eqb_spec (th_stat th) RT_THREAD_READY) as [Hst|Hst].
  2:{ eapply wp_upd_thread; [done|]. split; simpl; try done.
      - eapply (wf_thread_field s _ Hwf t th (set_priority p th)); try done.
        intros _. by apply set_priority_ok.
      - intros h. by rewrite (proj2 (Z.eqb_neq _ _)). }
  assert (live th) as Hlive by (by left).
  set (th0 := set_th_stat RT_THREAD_SUSPEND th).
  set (th' := set_th_stat RT_THREAD_READY (set_priority p th)).
  set (s1 := set_ks_group (group_without s t th) (set_ks_lists (l_remove t (ks_lists s))
    (set_ks_threads (<[t := th0]> (ks_threads s)) s))).
  assert (Hwf1 : wf s1).
  { eapply (wf_take_out s s1 Hwf t th th0); try done; [by apply prio_ok_stat|by left]. }
  assert (Hgo : ∀ s', ks_threads s' = <[t := th']> (ks_threads s) →
    ks_lists s' = l_insert_before (LReady p) t (l_remove t (ks_lists s)) →
    ks_group s' = Z.lor (group_without s t th) (th_number_mask th') →
    ks_timers s' = ks_timers s → ks_rows s' = ks_rows s → wf s').
  { intros s' E1 E2 E3 E4 E5. eapply (wf_put_in s1 s' Hwf1 t th0 th'); try done.
    - apply lookup_insert_eq.
    - apply l_remove_unlinked.
    - simpl. by rewrite insert_insert_eq.
    - apply prio_ok_stat; [by apply set_priority_ok|by left].
    - intros r Hin. destruct (wf_armed _ Hwf _ _ Hin) as (th2 & ? & ? & ? & _).
      assert (th2 = th) by congruence. subst. by rewrite Hst in *. }
  unfold rt_schedule_remove_thread, rt_schedule_insert_thread.
  wp_step. wp_step. eapply wp_get_thread; [done|]. wp_step. unfold tlist_remove. wp_step. wp_step.
  apply wp_priority_table; [apply Hpo|]. wp_step. apply wp_tlist_isempty. simpl.
  eapply (wp_mono _ (λ _ s2, s2 = set_ks_group (group_without s t th)
    (set_ks_lists (l_remove t (ks_lists s)) s))).
  { unfold group_without. destruct (l_isempty _ _); [done|]. unfold when. wp_step. by destruct s. }
  intros _ s2 ->. wp_step. eapply wp_upd_thread; [done|]. wp_step.
  eapply wp_upd_thread; [apply lookup_insert_eq|]. wp_step.
  eapply wp_get_thread; [apply lookup_insert_eq|]. wp_step.
  apply wp_priority_table; [done|]. wp_step.
  apply wp_tlist_link; [apply l_remove_unlinked|]. wp_step. simpl. split; simpl; try done.
  - by apply Hgo; simpl; rewrite ?insert_insert_eq.
  - rewrite insert_insert_eq. f_equal. unfold set_priority. destruct th; simpl in *. by rewrite Hst.
  - intros h. rewrite l_get_insert_before, !l_get_remove. rewrite (proj2 (Z.eqb_eq _ _) Hst).
    destruct (decide (LReady p = h)) as [<-|Hne]; [by rewrite decide_True|].
    by rewrite decide_False, app_nil_r.
Qed.

(** ** Locking the scheduler *)

Lemma wp_enter_critical s (Q : unit → kstate → Prop) :
  0 ≤ ks_lock_nest s < 2 ^ 15 - 1 → Q tt (set_ks_lock_nest (ks_lock_nest s + 1) s) →
  wp rt_enter_critical Q s.
Proof.
  intros Hn HQ. unfold rt_enter_critical. wp_step.
  replace (i16 (ks_lock_nest s + 1)) with (ks_lock_nest s + 1); [done|].
  unfold i16. rewrite Z.mod_small; lia.
Qed.
Lemma exit_critical_spec n s :
  wf s → some_ready s → is_Some (ks_current s) → 0 ≤ n < 2 ^ 15 - 1 → ks_lock_nest s = n + 1 →
  wp rt_exit_critical (λ _ s', wf s' ∧ ks_lock_nest s' = n ∧
    if n =? 0
    then switched (set_ks_lock_nest 0 s) s' ∧ ∃ p t, highest_ready s p t ∧ ks_current s' = Some t
    else s' = set_ks_lock_nest n s) s.
Proof.
  intros Hwf Hr [c Hc] Hn El. unfold rt_exit_critical. wp_step. wp_step. wp_step. wp_step.
  replace (i16 (ks_lock_nest s - 1)) with n by (rewrite El; unfold i16; rewrite Z.mod_small; lia).
  simpl. destruct (Z.leb_spec n 0) as [Hle|Hgt].
  - assert (n = 0) as -> by lia. wp_step. wp_step.
    set (s2 := set_ks_lock_nest 0 (set_ks_lock_nest 0 s)).
    assert (Hwf2 : wf s2) by (by eapply wf_ext, Hwf).
    eapply wp_mono; [apply (schedule_spec s2 c); [done|exact Hr|done]|].
    intros _ s' [Hsw (p & t & Hh & Ht)]. split_and!; [by eapply switched_wf| |].
    + destruct Hsw as (? & ? & ->). done.
    + split; [done|]. by exists p, t.
  - rewrite (proj2 (Z.eqb_neq _ 0)) by lia. wp_step. split_and!; [by eapply wf_ext, Hwf|done|done].
Qed.

(** ** Properties *)

(** C1. Once the scheduler runs and some thread is ready, [rt_schedule] returns
    with the first thread of the highest ready priority running, and changes
    nothing but the choice of the running thread; while the scheduler is locked
    it changes nothing at all. *)
Theorem rt_schedule_runs_highest s c :
  wf s → some_ready s → ks_current s = Some c →
  wp rt_schedule (λ _ s', wf s' ∧ switched s s' ∧
    if ks_lock_nest s =? 0 then ∃ p t, highest_ready s p t ∧ ks_current s' = Some t
    else s' = s) s.
Proof.
  intros Hwf Hr Hc. eapply wp_mono; [by eapply schedule_spec|]. intros _ s' [Hsw H].
  split_and!; [by eapply switched_wf|done|done].
Qed.

(** Code between [rt_enter_critical] and [rt_exit_critical]: it returns with the
    nesting level it was entered with. *)
Definition critical {A} (m : K A) : K A := rt_enter_critical;; a ← m; rt_exit_critical;; mret a.

(** A scheduler-locked section: the code inside runs one level deeper than
    the section was entered, and leaving the section gives the level back.  An
    inner section does not switch threads when it is left; the outermost one
    leaves the first thread of the highest ready priority running. *)
Theorem rt_exit_critical_balanced {A} s (m : K A) (Q : A → kstate → Prop) :
  0 ≤ ks_lock_nest s < 2 ^ 15 - 1 →
  wp m (λ a s1, wf s1 ∧ some_ready s1 ∧ is_Some (ks_current s1) ∧
    ks_lock_nest s1 = ks_lock_nest s + 1 ∧ Q a s1) (set_ks_lock_nest (ks_lock_nest s + 1) s) →
  wp (critical m) (λ a s', wf s' ∧ ks_lock_nest s' = ks_lock_nest s ∧ ∃ s1, Q a s1 ∧
    if ks_lock_nest s =? 0
    then switched (set_ks_lock_nest 0 s1) s' ∧ ∃ p t, highest_ready s1 p t ∧ ks_current s' = Some t
    else s' = set_ks_lock_nest (ks_lock_nest s) s1) s.
Proof.
  intros Hn Hm. unfold critical. wp_step. apply wp_enter_critical; [done|].
  wp_step. eapply wp_mono; [exact Hm|]. intros a s1 (Hwf & Hr & Hc & El & HQ). wp_step.
  eapply wp_mono; [by apply (exit_critical_spec (ks_lock_nest s))|].
  intros _ s' (Hwf' & El' & Hcase). wp_step. split_and!; [done|done|]. by exists s1.
Qed.
