(* ===== verification/TimerFacts.v ===== *)
(** Timers against the kernel invariant: starting, the order of the timer list
    on a tick that wraps around, and the expiry loop of the tick handler. *)

From stdpp Require Import base gmap list fin_maps sorting.
From Stdlib Require Import ZArith Lia.
From S2P Require Import Prelude IntrusiveList Ffs Kservice KState Object Sched Timer KInv SchedFacts.

Open Scope Z_scope.

(** ** The position of a new timer *)

Lemma row_position_split timers new l :
  (∀ i, i ∈ l → is_Some (timers !! i)) →
  ∃ l1 l2, row_position timers new l = Some (l1, l2) ∧ l = l1 ++ l2.
Proof.
  induction l as [|i l IH]; intros Hl; simpl; [by exists [], []|].
  destruct (Hl i ltac:(set_solver)) as [tm ->]. simpl.
  destruct IH as (l1 & l2 & E & ->); [set_solver|]. rewrite E. simpl.
  repeat case_match; by eexists _, _.
Qed.

Definition armed_timer (tick : Z) (tm : rt_timer) : rt_timer :=
  set_activated (set_tm_timeout_tick (u32 (tick + tm_init_tick tm)) (clear_activated tm)).

Record armed (i : timer_id) (tm : rt_timer) (s s' : kstate) : Prop := {
  ar_wf : wf s';
  ar_threads : ks_threads s' = ks_threads s;
  ar_lists : ks_lists s' = ks_lists s;
  ar_group : ks_group s' = ks_group s;
  ar_quiet : quiet s s';
  ar_timers : ks_timers s' = <[i := armed_timer (ks_tick s) tm]> (ks_timers s);
  ar_row : ∃ l1 l2,
    row_position (ks_timers s') (u32 (ks_tick s + tm_init_tick tm))
      (filter (λ x, x ≠ i) (l_get (ks_rows s) (row_of_flag (tm_flag tm)))) = Some (l1, l2) ∧
    filter (λ x, x ≠ i) (l_get (ks_rows s) (row_of_flag (tm_flag tm))) = l1 ++ l2 ∧
    l_get (ks_rows s') (row_of_flag (tm_flag tm)) = l1 ++ i :: l2;
  ar_other r : r ≠ row_of_flag (tm_flag tm) →
    l_get (ks_rows s') r = filter (λ x, x ≠ i) (l_get (ks_rows s) r);
}.

Lemma same_kind_trans tm1 tm2 tm3 : same_kind tm1 tm2 → same_kind tm2 tm3 → same_kind tm1 tm3.
Proof. intros [E1 H1] [E2 H2]. split; [congruence|eauto]. Qed.
Lemma same_kind_timeout v tm : same_kind tm (set_tm_timeout_tick v tm).
Proof. split; [done|]. by intros t []. Qed.
Lemma same_kind_init v tm : same_kind tm (set_tm_init_tick v tm).
Proof. split; [done|]. by intros t []. Qed.
Lemma same_kind_armed tick tm : same_kind tm (armed_timer tick tm).
Proof.
  eapply same_kind_trans; [apply kind_clear|].
  eapply same_kind_trans; [apply same_kind_timeout|apply kind_set].
Qed.

(** Two timer maps that agree on the timers of a row give the same position. *)
Lemma row_position_ext timers timers' new l :
  (∀ j, j ∈ l → timers' !! j = timers !! j) → row_position timers' new l = row_position timers new l.
Proof.
  induction l as [|j l IH]; intros Hl; simpl; [done|].
  rewrite Hl, IH by set_solver. done.
Qed.

Lemma timer_arm_spec s i tm :
  wf s → ks_timers s !! i = Some tm → 0 ≤ tm_init_tick tm < RT_TICK_MAX / 2 →
  (∀ t, i = TThread t → ∃ th, ks_threads s !! t = Some th ∧ th_stat th = RT_THREAD_SUSPEND) →
  wp (timer_arm i) (λ _, armed i tm s) s.
Proof.
  intros Hwf Hi Hinit Harm. unfold timer_arm.
  set (r := row_of_flag (tm_flag tm)). set (new := u32 (ks_tick s + tm_init_tick tm)).
  set (tm2 := set_tm_timeout_tick new (clear_activated tm)).
  set (s2 := set_ks_timers (<[i := tm2]> (ks_timers s)) (set_ks_rows (l_remove i (ks_rows s)) s)).
  assert (Hkind : same_kind tm tm2).
  { eapply same_kind_trans; [apply kind_clear|apply same_kind_timeout]. }
  assert (Hwf2 : wf s2) by (by eapply (wf_timer_off s s2 Hwf i tm tm2)).
  unfold timer_remove. wp_step. wp_step. wp_step. eapply wp_upd_timer; [done|]. wp_step.
  eapply wp_get_timer; [apply lookup_insert_eq|]. wp_step. wp_step; [apply Z.ltb_lt; simpl; lia|].
  wp_step. unfold rt_tick_get. wp_step. wp_step. wp_step. wp_step.
  eapply wp_upd_timer; [apply lookup_insert_eq|]. wp_step.
  eapply wp_get_timer; [apply lookup_insert_eq|]. wp_step. simpl. rewrite insert_insert_eq.
  fold new tm2 s2. replace (row_of_flag _) with r by (symmetry; apply (kind_clear tm)).
  unfold row_insert. wp_step. wp_step. wp_step.
  destruct (row_position_split (ks_timers s2) new (l_get (ks_rows s2) r)) as (l1 & l2 & Epos & Esp).
  { intros j Hj. destruct (wf_row _ Hwf2 _ _ Hj) as (? & -> & _). eauto. }
  eapply wp_option; [exact Epos|]. wp_step. wp_step. wp_step.
  eapply wp_upd_timer; [apply lookup_insert_eq|]. simpl. rewrite insert_insert_eq.
  assert (Hfilter : l_get (ks_rows s2) r = filter (λ x, x ≠ i) (l_get (ks_rows s) r)) by apply l_get_remove.
  split; simpl; try done.
  - eapply (wf_timer_on s2 _ Hwf2 i tm2 (armed_timer (ks_tick s) tm)) with (r := r); try done.
    + apply lookup_insert_eq.
    + simpl. by rewrite insert_insert_eq.
    + apply kind_set.
    + apply l_remove_unlinked.
    + apply same_kind_armed.
    + simpl. rewrite l_get_insert, decide_True by done. rewrite <- Permutation_middle. by rewrite <- Esp.
    + intros r' Hne. simpl. by rewrite l_get_insert, decide_False.
    + intros t Ht. split; [apply activated_set|]. by apply Harm.
  - fold r new. exists l1, l2. rewrite <- Hfilter. split_and!; [|done|].
    + rewrite <- Epos. apply row_position_ext. intros j Hj. simpl.
      rewrite !lookup_insert_ne; [done|..];
        intros <-; rewrite Hfilter, list_elem_of_filter in Hj; naive_solver.
    + by rewrite l_get_insert, decide_True.
  - fold r. intros r' Hne. rewrite l_get_insert, decide_False by done. apply l_get_remove.
Qed.

(** The timer of a suspended thread is a hard timer: starting it only arms it. *)
Lemma thread_timer_start_spec s t th tm :
  wf s → ks_threads s !! t = Some th → th_stat th = RT_THREAD_SUSPEND →
  ks_timers s !! TThread t = Some tm → 0 ≤ tm_init_tick tm < RT_TICK_MAX / 2 →
  wp (rt_timer_start (TThread t)) (λ r s', r = RT_EOK ∧ armed (TThread t) tm s s') s.
Proof.
  intros Hwf Ht Hst Htm Hinit. unfold rt_timer_start. wp_step.
  eapply wp_mono; [eapply timer_arm_spec; try done; intros ? [= <-]; eauto|].
  intros ? s1 Har. wp_step.
  eapply wp_get_timer; [rewrite (ar_timers _ _ _ _ Har); apply lookup_insert_eq|].
  destruct (wf_timer _ Hwf _ _ Ht ltac:(by rewrite Hst)) as (tm' & Htm' & Hok).
  assert (tm' = tm) as E by congruence. rewrite E in Hok.
  destruct (proj2 (same_kind_armed (ks_tick s) tm) t Hok) as [_ _ -> _].
  wp_step. unfold when. wp_step. wp_step. done.
Qed.

(** ** Order on a tick that wraps around

    Ticks are compared by their distance from a base [b]: as long as all the
    ticks in play lie within half the range after [b], the comparisons of the
    code agree with the order of the distances. *)

Definition HALF : Z := RT_TICK_MAX / 2.
Definition off (b x : Z) : Z := u32 (x - b).

Lemma off_range b x : 0 ≤ off b x < 2 ^ 32.
Proof. apply Z.mod_pos_bound. lia. Qed.

Lemma off_diff b x y : u32 (x - y) = u32 (off b x - off b y).
Proof.
  unfold off, u32. rewrite <- Zminus_mod. f_equal. lia.
Qed.

Lemma window_later b x y :
  off b x < HALF → off b y < HALF →
  (u32 (x - y) = 0 ↔ off b x = off b y) ∧
  (u32 (x - y) < HALF ↔ off b y ≤ off b x).
Proof.
  intros Hx Hy. rewrite (off_diff b). pose proof (off_range b x). pose proof (off_range b y).
  change HALF with 2147483647 in *. unfold u32.
  destruct (Z.le_gt_cases (off b y) (off b x)).
  - rewrite Z.mod_small by lia. lia.
  - rewrite <- (Z.mod_add _ 1) by lia. rewrite Z.mod_small by lia. lia.
Qed.

Lemma off_add b x d : off b x < HALF → 0 ≤ d < HALF → off b (u32 (x + d)) = off b x + d.
Proof.
  intros Hx Hd. pose proof (off_range b x). change HALF with 2147483647 in *. unfold off, u32 in *.
  rewrite Zminus_mod_idemp_l. replace (x + d - b) with (x - b + d) by lia.
  rewrite <- Zplus_mod_idemp_l, Z.mod_small by lia. done.
Qed.

(** The timeout of a timer, and lists of timers in the order of their timeouts,
    all of them within the window. *)
Definition timeout_of (timers : gmap timer_id rt_timer) (i : timer_id) : Z :=
  default 0 (tm_timeout_tick <$> timers !! i).
Definition dist (b : Z) (timers : gmap timer_id rt_timer) (i : timer_id) : Z :=
  off b (timeout_of timers i).
Definition row_sorted (b : Z) (timers : gmap timer_id rt_timer) (l : list timer_id) : Prop :=
  Sorted Z.le (dist b timers <$> l) ∧ Forall (λ i, dist b timers i < HALF) l.

Lemma row_position_order b timers new l l1 l2 :
  row_sorted b timers l → off b new < HALF → row_position timers new l = Some (l1, l2) →
  Forall (λ i, dist b timers i ≤ off b new) l1 ∧ Forall (λ i, off b new < dist b timers i) l2.
Proof.
  intros [Hs Hw] Hn. revert l1 l2. induction l as [|i l IH]; simpl; intros l1 l2.
  { intros [= <- <-]. by split; constructor. }
  destruct (timers !! i) as [tm|] eqn:E; simpl; [|done].
  apply Forall_cons in Hw as [Hi Hw].
  assert (dist b timers i = off b (tm_timeout_tick tm)) as Ed
    by (unfold dist, timeout_of; by rewrite E).
  rewrite Ed in Hi. pose proof (window_later b _ _ Hi Hn) as [H0 Hlt].
  assert (Hrec : dist b timers i ≤ off b new → (p ← row_position timers new l; Some (i :: p.1, p.2)) = Some (l1, l2) →
    Forall (λ i, dist b timers i ≤ off b new) l1 ∧ Forall (λ i, off b new < dist b timers i) l2).
  { intros Hle. destruct (row_position timers new l) as [[a c]|] eqn:Ep; simpl; [|done].
    intros [= <- <-]. simpl in Hs. apply Sorted_inv in Hs as [Hs _]. destruct (IH Hs Hw a c eq_refl).
    split; [by constructor|done]. }
  fold HALF. destruct (Z.eqb_spec (u32 (tm_timeout_tick tm - new)) 0) as [E0|E0]; [apply Hrec; lia|].
  destruct (Z.ltb_spec (u32 (tm_timeout_tick tm - new)) HALF) as [E1|E1]; [|apply Hrec; lia].
  intros [= <- <-]. split; [constructor|]. simpl in Hs.
  apply Sorted_StronglySorted in Hs; [|intros ???; lia].
  apply StronglySorted_inv in Hs as [_ Hall]. constructor; [lia|].
  rewrite Forall_fmap in Hall. eapply Forall_impl; [exact Hall|]. simpl. lia.
Qed.

Lemma sorted_insert (f : timer_id → Z) l1 i l2 :
  Sorted Z.le (f <$> l1 ++ l2) → Forall (λ j, f j ≤ f i) l1 → Forall (λ j, f i < f j) l2 →
  Sorted Z.le (f <$> l1 ++ i :: l2).
Proof.
  induction l1 as [|x l1 IH]; simpl; intros Hs H1 H2.
  - constructor; [done|]. destruct l2; constructor. apply Forall_cons in H2 as [? _]. lia.
  - apply Forall_cons in H1 as [Hx H1]. apply Sorted_inv in Hs as [Hs Hh].
    constructor; [by apply IH|]. destruct l1; simpl in *; constructor; [done|].
    by inversion Hh.
Qed.

Lemma Forall_filter_ne (P : timer_id → Prop) i l : Forall P l → Forall P (filter (λ x, x ≠ i) l).
Proof. rewrite !Forall_forall. intros HP j [_ Hj]%list_elem_of_filter. auto. Qed.
Lemma row_sorted_filter b timers i l :
  row_sorted b timers l → row_sorted b timers (filter (λ x, x ≠ i) l).
Proof.
  intros [Hs Hw]. split; [|by apply Forall_filter_ne].
  apply Sorted_StronglySorted in Hs; [|intros ???; lia]. apply StronglySorted_Sorted.
  clear Hw. induction l as [|x l IH]; simpl in *; [constructor|].
  apply StronglySorted_inv in Hs as [Hs Hall]. rewrite Forall_fmap in Hall.
  destruct (decide (x ≠ i)); [rewrite filter_cons_True by done|rewrite filter_cons_False by done; auto].
  simpl. constructor; [auto|]. rewrite Forall_fmap. by apply Forall_filter_ne.
Qed.
Lemma row_sorted_ext b timers timers' l :
  (∀ j, j ∈ l → timers' !! j = timers !! j) → row_sorted b timers l → row_sorted b timers' l.
Proof.
  intros He [Hs Hw].
  assert (Hd : ∀ j, j ∈ l → dist b timers' j = dist b timers j).
  { intros j Hj. unfold dist, timeout_of. by rewrite He. }
  split.
  - replace (dist b timers' <$> l) with (dist b timers <$> l); [done|].
    apply list_fmap_ext. intros ? j Hj%list_elem_of_lookup_2. by rewrite Hd.
  - rewrite Forall_forall in *. intros j Hj. rewrite Hd by done. auto.
Qed.
Lemma row_sorted_insert b timers l1 i l2 :
  row_sorted b timers (l1 ++ l2) → dist b timers i < HALF →
  Forall (λ j, dist b timers j ≤ dist b timers i) l1 →
  Forall (λ j, dist b timers i < dist b timers j) l2 →
  row_sorted b timers (l1 ++ i :: l2).
Proof.
  intros [Hs Hw] Hi H1 H2. split; [by apply sorted_insert|].
  rewrite Forall_app in *. destruct Hw. split; [done|]. by constructor.
Qed.

(** The effect of arming a timer on the order of its row. *)
Lemma armed_sorted b i tm s s' :
  armed i tm s s' → let r := row_of_flag (tm_flag tm) in
  row_sorted b (ks_timers s) (l_get (ks_rows s) r) →
  off b (u32 (ks_tick s + tm_init_tick tm)) < HALF →
  row_sorted b (ks_timers s') (l_get (ks_rows s') r) ∧
  ∃ l1 l2, l_get (ks_rows s') r = l1 ++ i :: l2 ∧
    filter (λ x, x ≠ i) (l_get (ks_rows s) r) = l1 ++ l2 ∧
    Forall (λ j, dist b (ks_timers s') j ≤ dist b (ks_timers s') i) l1 ∧
    Forall (λ j, dist b (ks_timers s') i < dist b (ks_timers s') j) l2.
Proof.
  intros Har r Hs Hn. destruct (ar_row _ _ _ _ Har) as (l1 & l2 & Epos & Esp & Erow). fold r in Epos, Esp, Erow.
  assert (Hs' : row_sorted b (ks_timers s') (l1 ++ l2)).
  { rewrite <- Esp. eapply row_sorted_ext; [|by apply row_sorted_filter].
    intros j [Hj _]%list_elem_of_filter. rewrite (ar_timers _ _ _ _ Har). by rewrite lookup_insert_ne. }
  assert (Ei : dist b (ks_timers s') i = off b (u32 (ks_tick s + tm_init_tick tm))).
  { unfold dist, timeout_of. by rewrite (ar_timers _ _ _ _ Har), lookup_insert_eq. }
  rewrite Esp in Epos. destruct (row_position_order b _ _ _ _ _ Hs' Hn Epos) as [H1 H2].
  rewrite <- Ei in H1, H2. split.
  - rewrite Erow. apply row_sorted_insert; [done| |done|done]. by rewrite Ei.
  - by exists l1, l2.
Qed.

(** ** Expiry *)

Lemma thread_timeout_spec s t th c :
  wf s → ks_threads s !! t = Some th → th_stat th = RT_THREAD_SUSPEND →
  (∀ r, TThread t ∉ l_get (ks_rows s) r) → ks_current s = Some c →
  wp (rt_thread_timeout t) (λ _ s', wf s' ∧ frame s s' ∧
    ks_threads s' = <[t := set_th_stat RT_THREAD_READY (set_th_error (- RT_ETIMEOUT) th)]> (ks_threads s) ∧
    (∀ r, l_get (ks_rows s') r = l_get (ks_rows s) r) ∧
    ks_timers s' = ks_timers s ∧ is_Some (ks_current s') ∧
    (∀ h, wait_head h → l_get (ks_lists s') h = filter (λ x, x ≠ t) (l_get (ks_lists s) h))) s.
Proof.
  intros Hwf Ht Hst Harm Hc. unfold rt_thread_timeout. wp_step. eapply wp_get_thread; [done|].
  wp_step. wp_step; [by rewrite Hst|]. wp_step. eapply wp_upd_thread; [done|]. wp_step.
  unfold tlist_remove. wp_step. wp_step.
  set (th1 := set_th_error (- RT_ETIMEOUT) th). set (s1 := set_ks_lists _ _).
  assert (Hwf1 : wf s1).
  { eapply (wf_unwait (set_ks_threads (<[t := th1]> (ks_threads s)) s) s1) with (t := t) (th := th1);
      try done; [|apply lookup_insert_eq].
    eapply (wf_thread_field s _ Hwf t th th1); try done. intros Hs.
    destruct (wf_prio _ Hwf _ _ Ht Hs) as [? ? ?]. by split. }
  eapply wp_mono; [eapply (schedule_insert_spec s1 t th1); try done; [apply lookup_insert_eq|apply l_remove_unlinked]|].
  intros ? s2 [[Hwf2 Et2 El2 Hq2 Er2 _] Etm2].
  eapply wp_mono; [eapply (schedule_spec s2 c); [done| |]|].
  - eexists t, _. by rewrite Et2, lookup_insert_eq.
  - destruct Hq2 as (_ & -> & _). done.
  - intros ? s3 [Hsw Hif]. split_and!.
    + by eapply switched_wf.
    + transitivity s2; [|by apply switched_frame]. transitivity s1; [by split|]. apply Hq2.
    + destruct Hsw as (? & ? & ->). simpl. rewrite Et2. simpl. by rewrite insert_insert_eq.
    + intros r. destruct Hsw as (? & ? & ->). simpl. rewrite Er2. simpl. by rewrite filter_ne_notin.
    + destruct Hsw as (? & ? & ->). done.
    + case_match.
      * destruct Hif as (? & ? & _ & ->). eauto.
      * subst s3. destruct Hq2 as (_ & -> & _). eauto.
    + intros h Hh. destruct Hsw as (? & ? & ->). simpl. rewrite El2, decide_False by (by intros ->).
      simpl. rewrite app_nil_r, l_get_remove, list_filter_filter. apply list_filter_iff. naive_solver.
Qed.

(** ** Property *)

(** [rt_timer_start] of a timer (also of one that is already running) links
    it exactly once, behind the timers that expire no later and before those that
    expire later, so that its list stays sorted by expiry on a tick that wraps
    around; it expires [init_tick] ticks from now, and no other timer moves. *)
Theorem rt_timer_start_sorted b s i tm :
  wf s → ks_timers s !! i = Some tm → flag_test (tm_flag tm) RT_TIMER_FLAG_SOFT_TIMER = false →
  0 ≤ tm_init_tick tm < HALF →
  (∀ t, i = TThread t → ∃ th, ks_threads s !! t = Some th ∧ th_stat th = RT_THREAD_SUSPEND) →
  row_sorted b (ks_timers s) (l_get (ks_rows s) HardRow) →
  off b (u32 (ks_tick s + tm_init_tick tm)) < HALF →
  wp (rt_timer_start i) (λ r s', r = RT_EOK ∧ wf s' ∧ frame s s' ∧
    ks_timers s' = <[i := armed_timer (ks_tick s) tm]> (ks_timers s) ∧
    row_sorted b (ks_timers s') (l_get (ks_rows s') HardRow) ∧
    ∃ l1 l2, l_get (ks_rows s') HardRow = l1 ++ i :: l2 ∧
      filter (λ x, x ≠ i) (l_get (ks_rows s) HardRow) = l1 ++ l2 ∧
      Forall (λ j, dist b (ks_timers s') j ≤ dist b (ks_timers s') i) l1 ∧
      Forall (λ j, dist b (ks_timers s') i < dist b (ks_timers s') j) l2) s.
Proof.
  intros Hwf Hi Hf Hinit Hthr Hs Hoff. unfold rt_timer_start. wp_step.
  eapply wp_mono; [by eapply timer_arm_spec|]. intros ? s1 Har. wp_step.
  eapply wp_get_timer; [rewrite (ar_timers _ _ _ _ Har); apply lookup_insert_eq|].
  assert (Er : row_of_flag (tm_flag tm) = HardRow) by (unfold row_of_flag; by rewrite Hf).
  assert (Ef : flag_test (tm_flag (armed_timer (ks_tick s) tm)) RT_TIMER_FLAG_SOFT_TIMER = false).
  { pose proof (proj1 (same_kind_armed (ks_tick s) tm)) as E. rewrite Er in E.
    unfold row_of_flag in E. by destruct (flag_test (tm_flag (armed_timer _ _)) _). }
  rewrite Ef. wp_step. unfold when. wp_step. wp_step.
  destruct (armed_sorted b i tm s s1 Har) as [Hs' Hl]; rewrite ?Er; try done. rewrite Er in Hs', Hl.
  split_and!; try done; [apply Har|apply (ar_quiet _ _ _ _ Har)|apply Har].
Qed.
