(* ===== verification/TimerCheck.v ===== *)
(** The expiry loop of the tick handler, [rt_timer_check]: it ends, and leaves no
    expired timer behind.

    The timeout functions of application timers are application code.  What the
    loop needs of them is the contract [benign_callback]: they return, keep the
    kernel invariant, do not move the tick and start no timers; they may stop
    timers and make threads ready, as releasing an IPC object does. *)

From stdpp Require Import base gmap list fin_maps sorting.
From Stdlib Require Import ZArith Lia.
From S2P Require Import Prelude IntrusiveList Ffs Kservice KState Object Sched Timer KInv SchedFacts.
From S2P Require Import TimerFacts.

Open Scope Z_scope.

(** Every timer keeps its function, period, list and pending timeout (its
    activation may change). *)
Record same_timer (tm tm' : rt_timer) : Prop := {
  sm_timeout : tm_timeout_tick tm' = tm_timeout_tick tm;
  sm_init : tm_init_tick tm' = tm_init_tick tm;
  sm_func : tm_func tm' = tm_func tm;
  sm_periodic : flag_test (tm_flag tm') RT_TIMER_FLAG_PERIODIC = flag_test (tm_flag tm) RT_TIMER_FLAG_PERIODIC;
  sm_row : row_of_flag (tm_flag tm') = row_of_flag (tm_flag tm);
}.
#[global] Instance same_timer_refl : Reflexive same_timer.
Proof. by intros tm. Qed.
#[global] Instance same_timer_trans : Transitive same_timer.
Proof. intros ??? [] []. split; congruence. Qed.

Definition timers_kept (s s' : kstate) : Prop :=
  ∀ j tm, ks_timers s !! j = Some tm → ∃ tm', ks_timers s' !! j = Some tm' ∧ same_timer tm tm'.
#[global] Instance timers_kept_refl : Reflexive timers_kept.
Proof. intros s j tm. eauto using same_timer_refl. Qed.
#[global] Instance timers_kept_trans : Transitive timers_kept.
Proof.
  intros s1 s2 s3 H1 H2 j tm Hj. destruct (H1 _ _ Hj) as (tm2 & Hj2 & ?).
  destruct (H2 _ _ Hj2) as (tm3 & ? & ?). exists tm3. split; [done|by etrans].
Qed.

Definition benign_callback (cb : Z → Z → K unit) : Prop :=
  ∀ f p s, wf s → is_Some (ks_current s) →
    wp (cb f p) (λ _ s', wf s' ∧ is_Some (ks_current s') ∧ ks_tick s' = ks_tick s ∧
      timers_kept s s' ∧ sublist (l_get (ks_rows s') HardRow) (l_get (ks_rows s) HardRow)) s.

(** What the loop needs of a timer it may expire at the tick [b + now]: a timer of
    the application runs a function of the application, and a periodic one has a
    period that is positive and stays within the window of the comparisons. *)
Record expirable (now : Z) (i : timer_id) (tm : rt_timer) : Prop := {
  ex_func a : i = TUser a → ∃ f, tm_func tm = FUser f;
  ex_period : flag_test (tm_flag tm) RT_TIMER_FLAG_PERIODIC = true →
    0 < tm_init_tick tm ∧ now + tm_init_tick tm < HALF;
}.

Lemma same_timer_clear tm : same_timer tm (clear_activated tm).
Proof.
  split; try done.
  - simpl. change RT_TIMER_FLAG_ACTIVATED with (2 ^ 0). change RT_TIMER_FLAG_PERIODIC with (2 ^ 1).
    by rewrite flag_clear, andb_true_r by lia.
  - apply kind_clear.
Qed.

Lemma timers_kept_dist b s s' j :
  timers_kept s s' → is_Some (ks_timers s !! j) →
  dist b (ks_timers s') j = dist b (ks_timers s) j.
Proof.
  intros Hk [tm Hj]. destruct (Hk _ _ Hj) as (tm' & Hj' & []).
  unfold dist, timeout_of. rewrite Hj, Hj'. simpl. congruence.
Qed.

Lemma clear_kept s i tm :
  ks_timers s !! i = Some tm →
  timers_kept s (set_ks_timers (<[i := clear_activated tm]> (ks_timers s)) s).
Proof.
  intros Hi j tmj Hj. simpl. rewrite lookup_insert. case_decide; [|eauto using same_timer_refl].
  subst j. simplify_eq. eauto using same_timer_clear.
Qed.

(** The timer of a thread is a one-shot timer. *)
Lemma thread_timer_once s t r tm :
  wf s → TThread t ∈ l_get (ks_rows s) r → ks_timers s !! TThread t = Some tm →
  ¬ flag_test (tm_flag tm) RT_TIMER_FLAG_PERIODIC = true.
Proof.
  intros Hwf Hin Htm. destruct (wf_armed _ Hwf _ _ Hin) as (th & _ & Ht & Hst & _).
  destruct (wf_timer _ Hwf _ _ Ht ltac:(by rewrite Hst)) as (tm' & Htm' & [_ _ _ Ho]).
  simplify_eq. by rewrite Ho.
Qed.

Lemma hard_armed tick tm :
  row_of_flag (tm_flag tm) = HardRow →
  flag_test (tm_flag (armed_timer tick tm)) RT_TIMER_FLAG_SOFT_TIMER = false.
Proof.
  rewrite <- (proj1 (same_kind_armed tick tm)). unfold row_of_flag. by case_match.
Qed.

(** ** Rows under deletion and arming *)

Lemma Forall_sublist {A} (P : A → Prop) l k : sublist l k → Forall P k → Forall P l.
Proof. induction 1; rewrite ?Forall_cons; naive_solver. Qed.
Lemma StronglySorted_sublist {A} (R : A → A → Prop) l k :
  sublist l k → StronglySorted R k → StronglySorted R l.
Proof.
  induction 1 as [|x l k Hs IH|x l k Hs IH]; intros Hk; [done|..];
    apply StronglySorted_inv in Hk as [Hk Hx]; [|auto].
  constructor; [auto|]. by eapply Forall_sublist.
Qed.
Lemma length_filter_sublist {A} (P : A → Prop) `{!∀ x, Decision (P x)} l k :
  sublist l k → (length (filter P l) ≤ length (filter P k))%nat.
Proof. induction 1; rewrite ?filter_cons; repeat case_decide; simpl; lia. Qed.
Lemma length_filter_ext {A} (P Q : A → Prop) `{!∀ x, Decision (P x), !∀ x, Decision (Q x)} l :
  (∀ x, x ∈ l → P x → Q x) → (length (filter P l) ≤ length (filter Q l))%nat.
Proof.
  induction l as [|x l IH]; intros HPQ; [done|]. rewrite !filter_cons.
  specialize (IH ltac:(set_solver)). pose proof (HPQ x ltac:(set_solver)).
  repeat case_decide; simpl; naive_solver lia.
Qed.

(** The timers of a row that are due at [now], a distance from [b]. *)
Definition due (b now : Z) (timers : gmap timer_id rt_timer) (l : list timer_id) : nat :=
  length (filter (λ j, dist b timers j ≤ now) l).
Definition row_ready (b now : Z) (s : kstate) (l : list timer_id) : Prop :=
  row_sorted b (ks_timers s) l ∧
  ∀ i, i ∈ l → ∃ tm, ks_timers s !! i = Some tm ∧ expirable now i tm.

Lemma expirable_same now i tm tm' : same_timer tm tm' → expirable now i tm → expirable now i tm'.
Proof. intros [_ E1 E2 E3 _] [Hf Hp]. split; rewrite ?E1, ?E2, ?E3; done. Qed.

Lemma row_ready_sublist b now s s' l l' :
  row_ready b now s l → sublist l' l → timers_kept s s' →
  row_ready b now s' l' ∧ (due b now (ks_timers s') l' ≤ due b now (ks_timers s) l)%nat.
Proof.
  intros [[Hs Hw] Hex] Hsub Hk.
  assert (Hin : ∀ j, j ∈ l' → j ∈ l) by (intros j Hj; by eapply elem_of_submseteq, sublist_submseteq).
  assert (Hd : ∀ j, j ∈ l' → dist b (ks_timers s') j = dist b (ks_timers s) j).
  { intros j Hj. eapply timers_kept_dist; [done|]. destruct (Hex j (Hin j Hj)) as (? & -> & _). eauto. }
  split; [split; [split|]|].
  - replace (dist b (ks_timers s') <$> l') with (dist b (ks_timers s) <$> l').
    2:{ apply list_fmap_ext. intros ? j Hj%list_elem_of_lookup_2. by rewrite Hd. }
    apply StronglySorted_Sorted. eapply StronglySorted_sublist; [by apply fmap_sublist|].
    apply Sorted_StronglySorted; [intros ???; lia|done].
  - rewrite Forall_forall in *. intros j Hj. rewrite Hd; auto.
  - intros j Hj. destruct (Hex j (Hin j Hj)) as (tm & Ej & He).
    destruct (Hk _ _ Ej) as (tm' & Ej' & Hst). eauto using expirable_same.
  - unfold due. etrans; [|by apply length_filter_sublist].
    apply length_filter_ext. intros j Hj. by rewrite Hd.
Qed.

Lemma same_timer_armed tick tm :
  tm_init_tick (armed_timer tick tm) = tm_init_tick tm ∧ tm_func (armed_timer tick tm) = tm_func tm ∧
  flag_test (tm_flag (armed_timer tick tm)) RT_TIMER_FLAG_PERIODIC = flag_test (tm_flag tm) RT_TIMER_FLAG_PERIODIC.
Proof.
  split_and!; [done..|]. simpl. change RT_TIMER_FLAG_ACTIVATED with (2 ^ 0).
  change RT_TIMER_FLAG_PERIODIC with (2 ^ 1).
  by rewrite flag_set, flag_clear, orb_false_r, andb_true_r by lia.
Qed.

(** A periodic timer that is armed again is not due. *)
Lemma row_ready_armed r b i tm s s' :
  armed i tm s s' → row_of_flag (tm_flag tm) = r → off b (ks_tick s) < HALF →
  0 < tm_init_tick tm → off b (ks_tick s) + tm_init_tick tm < HALF →
  expirable (off b (ks_tick s)) i tm →
  let now := off b (ks_tick s) in
  row_ready b now s (l_get (ks_rows s) r) →
  row_ready b now s' (l_get (ks_rows s') r) ∧
  (due b now (ks_timers s') (l_get (ks_rows s') r)
     ≤ due b now (ks_timers s) (l_get (ks_rows s) r))%nat.
Proof.
  intros Har Hr Hb Hi Hlt Hex now [Hs Hrow].
  assert (Ht : off b (u32 (ks_tick s + tm_init_tick tm)) = now + tm_init_tick tm).
  { pose proof (off_range b (ks_tick s)). apply off_add; lia. }
  pose proof (armed_sorted b _ _ _ _ Har) as Has. rewrite Hr in Has.
  destruct (Has Hs ltac:(lia)) as (Hs' & l1 & l2 & E' & E & _). clear Has.
  assert (Hd : dist b (ks_timers s') i = now + tm_init_tick tm).
  { unfold dist, timeout_of. by rewrite (ar_timers _ _ _ _ Har), lookup_insert_eq. }
  assert (Hne : ∀ j, j ≠ i → ks_timers s' !! j = ks_timers s !! j).
  { intros j Hj. rewrite (ar_timers _ _ _ _ Har). by rewrite lookup_insert_ne. }
  assert (Hmem : ∀ j, j ∈ l1 ++ l2 → j ≠ i ∧ j ∈ l_get (ks_rows s) r).
  { intros j Hj. rewrite <- E in Hj. by apply list_elem_of_filter in Hj. }
  split; [split; [done|]|].
  - intros j Hj. destruct (decide (j = i)) as [->|Hji].
    + rewrite (ar_timers _ _ _ _ Har), lookup_insert_eq. eexists. split; [done|].
      destruct (same_timer_armed (ks_tick s) tm) as (E1 & E2 & E3). destruct Hex as [Hf Hp].
      split; rewrite ?E1, ?E2, ?E3; done.
    + rewrite (Hne j Hji). apply Hrow. rewrite E' in Hj. set_solver.
  - unfold due. rewrite E', filter_app, filter_cons_False, <- filter_app by lia.
    etrans; [apply (length_filter_ext _ (λ j, dist b (ks_timers s) j ≤ now))|].
    + intros j [Hj _]%Hmem. unfold dist, timeout_of. by rewrite Hne.
    + rewrite <- E. apply length_filter_sublist, sublist_filter.
Qed.

(** The test the loop makes on the first timer: it is due, or no timer is. *)
Lemma front_cases r b s :
  off b (ks_tick s) < HALF → row_ready b (off b (ks_tick s)) s (l_get (ks_rows s) r) →
  match l_get (ks_rows s) r with
  | [] => True
  | i :: l => ∃ tm, ks_timers s !! i = Some tm ∧
      if u32 (ks_tick s - tm_timeout_tick tm) <? HALF
      then dist b (ks_timers s) i ≤ off b (ks_tick s)
      else ∀ j, j ∈ i :: l → off b (ks_tick s) < dist b (ks_timers s) j
  end.
Proof.
  intros Hnow [[Hs Hw] Hrow]. destruct (l_get (ks_rows s) r) as [|i l]; [done|].
  destruct (Hrow i ltac:(set_solver)) as (tm & Hi & _). exists tm. split; [done|].
  assert (Ed : dist b (ks_timers s) i = off b (tm_timeout_tick tm)).
  { unfold dist, timeout_of. by rewrite Hi. }
  apply Forall_cons in Hw as [Hwi _]. rewrite Ed in Hwi |- *.
  destruct (window_later b (ks_tick s) (tm_timeout_tick tm) Hnow Hwi) as [_ Hlater].
  destruct (Z.ltb_spec (u32 (ks_tick s - tm_timeout_tick tm)) HALF); [lia|].
  simpl in Hs. apply Sorted_StronglySorted in Hs; [|intros ???; lia].
  apply StronglySorted_inv in Hs as [_ Hall]. rewrite Forall_fmap, Forall_forall in Hall.
  intros j [->|Hj]%elem_of_cons; [lia|]. specialize (Hall _ Hj). simpl in Hall. lia.
Qed.

Section check_facts.
Context (cb : Z → Z → K unit) (Hcb : benign_callback cb).

(** The call of the timeout function of a timer just taken off its list. *)
Lemma run_timeout_spec s i tm :
  wf s → is_Some (ks_current s) → (∀ a, i = TUser a → ∃ f, tm_func tm = FUser f) →
  ks_timers s !! i = Some tm →
  (∀ r, i ∉ l_get (ks_rows s) r) →
  (∀ t, i = TThread t → ∃ th, ks_threads s !! t = Some th ∧ th_stat th = RT_THREAD_SUSPEND) →
  wp (run_timeout cb tm) (λ _ s', wf s' ∧ is_Some (ks_current s') ∧ ks_tick s' = ks_tick s ∧
    timers_kept s s' ∧ sublist (l_get (ks_rows s') HardRow) (l_get (ks_rows s) HardRow)) s.
Proof.
  intros Hwf [c Hc] Huf Hi Hno Hth. unfold run_timeout. destruct i as [t|a].
  - destruct (Hth t eq_refl) as (th & Ht & Hst).
    destruct (wf_timer _ Hwf _ _ Ht ltac:(by rewrite Hst)) as (tm' & Htm' & Hok).
    assert (tm' = tm) as E by congruence. rewrite E in Hok. destruct Hok as [-> -> _ _].
    eapply wp_mono; [by eapply thread_timeout_spec|].
    intros ? s' (? & Hfr & _ & Hr & Hj & ? & _). split_and!; [done|done|apply Hfr| |by rewrite Hr].
    intros j tmj. rewrite Hj. eauto using same_timer_refl.
  - destruct (Huf _ eq_refl) as [f ->]. by apply Hcb.
Qed.

(** One pass of the loop over an expired timer [i] at the front of the list. *)
Lemma timer_expire_spec s i l tm :
  wf s → is_Some (ks_current s) → (∀ a, i = TUser a → ∃ f, tm_func tm = FUser f) →
  l_get (ks_rows s) HardRow = i :: l → ks_timers s !! i = Some tm →
  (flag_test (tm_flag tm) RT_TIMER_FLAG_PERIODIC = true → 0 ≤ tm_init_tick tm < HALF) →
  wp (timer_expire cb i) (λ _ s', wf s' ∧ is_Some (ks_current s') ∧ ks_tick s' = ks_tick s ∧
    ∃ s1, timers_kept s s1 ∧ sublist (l_get (ks_rows s1) HardRow) l ∧ ks_tick s1 = ks_tick s ∧
      ((timers_kept s1 s' ∧ l_get (ks_rows s') HardRow = l_get (ks_rows s1) HardRow) ∨
       (flag_test (tm_flag tm) RT_TIMER_FLAG_PERIODIC = true ∧
        ∃ tm1, same_timer tm tm1 ∧ row_of_flag (tm_flag tm1) = HardRow ∧
          armed i tm1 s1 s'))) s.
Proof.
  intros Hwf Hc Huf Hrow Hi Hper. unfold timer_expire.
  pose proof (ok_nodup _ (wf_rows _ Hwf) HardRow) as Hnd. rewrite Hrow in Hnd.
  apply NoDup_cons in Hnd as [Hil _].
  assert (Hin : i ∈ l_get (ks_rows s) HardRow) by (rewrite Hrow; set_solver).
  destruct (wf_row _ Hwf _ _ Hin) as (tm0 & Htm0 & Hhard). assert (tm0 = tm) as -> by congruence.
  wp_step. unfold timer_remove. wp_step. wp_step. set (s0 := set_ks_rows _ s).
  assert (Hwf0 : wf s0).
  { eapply (wf_timer_off s s0 Hwf i tm tm Hi); try done. simpl. by rewrite insert_id. }
  assert (Hrow0 : l_get (ks_rows s0) HardRow = l).
  { simpl. rewrite l_get_remove, Hrow. rewrite filter_cons_False by naive_solver.
    by apply filter_ne_notin. }
  eapply wp_get_timer; [done|]. wp_step.
  eapply wp_mono; [eapply (run_timeout_spec s0 i tm); try done|].
  { apply l_linked_false, l_remove_unlinked. }
  { intros t ->. destruct (wf_armed _ Hwf _ _ Hin) as (th & ? & ? & ? & _). eauto. }
  intros ? s1 (Hwf1 & Hc1 & Ht1 & Hk1 & Hsub1). wp_step. rewrite Hrow0 in Hsub1.
  destruct (Hk1 i tm Hi) as (tm1 & Hi1 & Hst1).
  assert (Hil1 : i ∉ l_get (ks_rows s1) HardRow).
  { intros Hx. apply Hil. by eapply elem_of_submseteq, sublist_submseteq. }
  assert (Hno1 : ∀ r, i ∉ l_get (ks_rows s1) r).
  { intros [] Hx; [done|]. destruct (wf_row _ Hwf1 _ _ Hx) as (tm2 & Hi2 & Hr2).
    assert (tm2 = tm1) as -> by congruence. rewrite (sm_row _ _ Hst1), Hhard in Hr2. done. }
  eapply wp_get_timer; [done|]. wp_step.
  - apply andb_prop in H as [Hp1 Ha1]. rewrite (sm_periodic _ _ Hst1) in Hp1.
    wp_step. eapply wp_upd_timer; [done|]. set (s2 := set_ks_timers _ s1).
    assert (Hwf2 : wf s2).
    { eapply (wf_timer_field s1 s2 Hwf1 i tm1 (clear_activated tm1) Hi1); try done; [apply kind_clear|].
      intros t r -> Hx. by destruct (Hno1 r). }
    wp_step. unfold rt_timer_start. wp_step.
    eapply wp_mono; [eapply (timer_arm_spec s2 i (clear_activated tm1)); [done|apply lookup_insert_eq| |]|].
    { simpl. rewrite (sm_init _ _ Hst1). by apply Hper. }
    { intros t ->. by destruct (thread_timer_once _ _ _ _ Hwf Hin Hi Hp1). }
    intros ? s3 Har. wp_step. eapply wp_get_timer; [rewrite (ar_timers _ _ _ _ Har); apply lookup_insert_eq|].
    assert (Hr2 : row_of_flag (tm_flag (clear_activated tm1)) = HardRow).
    { rewrite (proj1 (kind_clear tm1)), (sm_row _ _ Hst1). done. }
    rewrite (hard_armed _ _ Hr2). wp_step. unfold when. wp_step. wp_step.
    destruct (ar_quiet _ _ _ _ Har) as (Hfr & Hcur & _). split_and!; [apply Har| | |].
    + by rewrite Hcur.
    + rewrite (fr_tick _ _ Hfr). done.
    + exists s2. split_and!; [|done|done|].
      { etrans; [apply Hk1|]. by apply clear_kept. }
      right. split; [done|]. exists (clear_activated tm1). split_and!; [|done|done].
      etrans; [done|apply same_timer_clear].
  - eapply wp_upd_timer; [done|]. set (s2 := set_ks_timers _ s1). split_and!; [|done|done|].
    + eapply (wf_timer_field s1 s2 Hwf1 i tm1 (clear_activated tm1) Hi1); try done; [apply kind_clear|].
      intros t r -> Hx. by destruct (Hno1 r).
    + exists s1. split_and!; [done|done|done|]. left. split; [|done].
      by apply clear_kept.
Qed.
(** What the loop keeps, and the measure it decreases. *)
Record checkable (b : Z) (s : kstate) : Prop := {
  ck_wf : wf s;
  ck_current : is_Some (ks_current s);
  ck_now : off b (ks_tick s) < HALF;
  ck_row : row_ready b (off b (ks_tick s)) s (l_get (ks_rows s) HardRow);
}.
Definition pending (b : Z) (s : kstate) : nat :=
  due b (off b (ks_tick s)) (ks_timers s) (l_get (ks_rows s) HardRow).

Lemma timer_expire_step b s i l :
  checkable b s → l_get (ks_rows s) HardRow = i :: l →
  dist b (ks_timers s) i ≤ off b (ks_tick s) →
  wp (timer_expire cb i) (λ _ s', checkable b s' ∧ ks_tick s' = ks_tick s ∧
    (pending b s' < pending b s)%nat) s.
Proof.
  intros [Hwf Hc Hnow [Hs Hrow]] Erow Hdue. set (now := off b (ks_tick s)) in *.
  assert (Hrl : row_ready b now s (i :: l)) by (rewrite <- Erow; by split).
  assert (Hpend : pending b s = S (due b now (ks_timers s) l)).
  { unfold pending, due. fold now. by rewrite Erow, filter_cons_True. }
  destruct (Hrow i ltac:(rewrite Erow; set_solver)) as (tm & Hi & Hex).
  pose proof (off_range b (ks_tick s)). fold now in H.
  eapply wp_mono; [eapply timer_expire_spec; try done; [apply Hex|]|].
  { intros [? ?]%(ex_period _ _ _ Hex). lia. }
  intros ? s' (Hwf' & Hc' & Ht' & s1 & Hk1 & Hsub1 & Ht1 & Hcase).
  assert (Hrl' : row_ready b now s l).
  { eapply (row_ready_sublist _ _ s s); [exact Hrl|by apply sublist_cons|done]. }
  destruct (row_ready_sublist _ _ _ _ _ _ Hrl' Hsub1 Hk1) as [Hr1 Hd1].
  rewrite Hpend. unfold pending. rewrite Ht'. fold now.
  cut (row_ready b now s' (l_get (ks_rows s') HardRow) ∧
       (due b now (ks_timers s') (l_get (ks_rows s') HardRow)
          ≤ due b now (ks_timers s1) (l_get (ks_rows s1) HardRow))%nat).
  { intros [Hr' Hd']. split_and!; [split; rewrite ?Ht'; done|done|lia]. }
  destruct Hcase as [[Hk' E']|(Hper & tm1 & Hst1 & Hh1 & Har)].
  - rewrite E'. by eapply row_ready_sublist.
  - assert (Hex1 : expirable now i tm1) by (by eapply expirable_same).
    destruct (ex_period _ _ _ Hex1) as [??]; [by rewrite (sm_periodic _ _ Hst1)|].
    unfold now in *. rewrite <- Ht1 in *. by apply (row_ready_armed HardRow b i tm1).
Qed.

Lemma timer_check_loop_spec b fuel s :
  checkable b s → (pending b s ≤ fuel)%nat →
  wp (timer_check_loop cb fuel (ks_tick s)) (λ _ s', checkable b s' ∧ ks_tick s' = ks_tick s ∧
    ∀ i, i ∈ l_get (ks_rows s') HardRow → off b (ks_tick s') < dist b (ks_timers s') i) s.
Proof.
  revert s. induction fuel as [|fuel IH]; intros s Hck Hfuel; simpl; wp_step; wp_step.
  all: pose proof (front_cases HardRow b s (ck_now _ _ Hck) (ck_row _ _ Hck)) as Hfront.
  all: destruct (l_get (ks_rows s) HardRow) as [|i l] eqn:Erow.
  1,3: wp_step; split_and!; [done|done|by rewrite Erow; set_solver].
  all: destruct Hfront as (tm & Hi & Hfront); wp_step; eapply wp_get_timer; [done|]; fold HALF.
  all: destruct (u32 (ks_tick s - tm_timeout_tick tm) <? HALF).
  2,4: wp_step; split_and!; [done|done|by rewrite Erow].
  - unfold pending, due in Hfuel. rewrite Erow, filter_cons_True in Hfuel by done. simpl in Hfuel. lia.
  - wp_step. eapply wp_mono; [by eapply timer_expire_step|]. intros ? s1 (Hck1 & Ht1 & Hp1).
    wp_step. unfold rt_tick_get. wp_step. wp_step. wp_step.
    eapply wp_mono; [apply IH; [done|lia]|]. simpl. intros ? s2 (? & ? & ?). split_and!; [done|congruence|done].
Qed.

(** C39. The tick handler's expiry loop terminates: with one unit of fuel per
    timer of the list, [rt_timer_check] returns, keeps the kernel invariant, leaves
    the list sorted and leaves no expired timer in it, whatever the (well-behaved)
    timeout functions do, also when the tick counter wraps around. *)
Theorem rt_timer_check_terminates b fuel s :
  checkable b s → (length (l_get (ks_rows s) HardRow) ≤ fuel)%nat →
  wp (rt_timer_check cb fuel) (λ _ s', wf s' ∧ ks_tick s' = ks_tick s ∧
    row_sorted b (ks_timers s') (l_get (ks_rows s') HardRow) ∧
    ∀ i, i ∈ l_get (ks_rows s') HardRow → off b (ks_tick s) < dist b (ks_timers s') i) s.
Proof.
  intros Hck Hf. unfold rt_timer_check. wp_step. unfold rt_tick_get. wp_step. wp_step. wp_step.
  eapply wp_mono; [apply (timer_check_loop_spec b); [done|]|].
  - etrans; [|exact Hf]. apply length_filter.
  - intros ? s' (Hck' & Ht & Hno). rewrite <- Ht. split_and!; [apply Hck'|done|apply Hck'|done].
Qed.
End check_facts.
