(* ===== verification/Thread.v ===== *)
(** Threads, [rt-thread/src/thread.c], with the tick handler of
    [rt-thread/src/clock.c] and the reaper of [rt-thread/src/idle.c].

    Where a function calls [rt_schedule] and goes on afterwards, the code after
    the call runs when the thread is switched in again: it is a definition of
    its own, named with the suffix [_resumed]. *)

From stdpp Require Import base gmap list fin_maps.
From Stdlib Require Import ZArith Lia.
From S2P Require Import Prelude IntrusiveList Ffs Kservice KState Object Sched Timer.

Open Scope Z_scope.

Definition idle : Z := 2.

Definition zero_thread : rt_thread := mk_thread 0 0 0 0 0 0 0 0 0 0 0 0 0 None 0.

(** [rt_list_init(&thread->tlist)]. *)
Definition tnode_init (t : Z) : K unit :=
  s ← get; if l_linked (ks_lists s) t then fail ListCorrupt else mret tt.

(** The assignments of [_rt_thread_init]; the fields it does not write keep
    their previous contents. *)
Definition thread_fields (entry parameter stack_start stack_size priority tick : Z)
    (th : rt_thread) : rt_thread :=
  set_th_user_data 0 (set_th_cleanup None (
  set_th_stat RT_THREAD_INIT (set_th_error RT_EOK (
  set_th_remaining_tick tick (set_th_init_tick tick (
  set_th_current_priority priority (set_th_init_priority priority (
  set_th_stack_size stack_size (set_th_stack_addr stack_start (
  set_th_parameter parameter (set_th_entry entry th))))))))))).

Definition thread_init_fields (t : Z) (entry parameter stack_start stack_size priority tick : Z) : K Z :=
  tnode_init t;;
  s ← get;
  RT_ASSERT (priority <? RT_THREAD_PRIORITY_MAX);;
  put_thread t (thread_fields entry parameter stack_start stack_size priority tick
    (default zero_thread (ks_threads s !! t)));;
  o ← get_object (OThread t);
  rt_timer_init (TThread t) (o_name o) FThreadTimeout t 0 0;;
  mret RT_EOK.

Definition rt_thread_init (t : Z) (name : list Z)
    (entry parameter stack_start stack_size priority tick : Z) : K Z :=
  rt_object_init (OThread t) ClassThread name;;
  thread_init_fields t entry parameter stack_start stack_size priority tick.

(** [block] and [stack] are the results of the two allocations. *)
Definition rt_thread_create (block stack : option Z) (name : list Z)
    (entry parameter stack_size priority tick : Z) : K (option Z) :=
  p ← rt_object_allocate ClassThread name block OThread;
  match p with
  | None => mret None
  | Some t =>
    match stack with
    | None => rt_object_delete (OThread t) t;; mret None
    | Some st =>
      _ ← thread_init_fields t entry parameter st stack_size priority tick;
      mret (Some t)
    end
  end.

Definition rt_thread_startup (t : Z) : K Z :=
  th ← get_thread t;
  RT_ASSERT (th_stat th =? RT_THREAD_INIT);;
  upd_thread t (λ th, set_th_stat RT_THREAD_SUSPEND (set_priority (th_init_priority th) th));;
  _ ← rt_thread_resume t;
  c ← rt_thread_self;
  when (bool_decide (c ≠ None)) rt_schedule;;
  mret RT_EOK.

Definition rt_thread_exit : K unit :=
  t ← self;
  rt_schedule_remove_thread t;;
  upd_thread t (set_th_stat RT_THREAD_CLOSE);;
  _ ← rt_timer_detach (TThread t);
  sys ← rt_object_is_systemobject (OThread t);
  th ← get_thread t;
  (if sys && bool_decide (th_cleanup th = None) then rt_object_detach (OThread t)
   else tlist_insert_after LDefunct t);;
  rt_schedule.

Definition rt_thread_detach (t : Z) : K Z :=
  th ← get_thread t;
  when (negb (th_stat th =? RT_THREAD_INIT)) (rt_schedule_remove_thread t);;
  _ ← rt_timer_detach (TThread t);
  upd_thread t (set_th_stat RT_THREAD_CLOSE);;
  rt_object_detach (OThread t);;
  th ← get_thread t;
  when (bool_decide (th_cleanup th ≠ None)) (tlist_insert_after LDefunct t);;
  mret RT_EOK.

Definition rt_thread_delete (t : Z) : K Z :=
  th ← get_thread t;
  when (negb (th_stat th =? RT_THREAD_INIT)) (rt_schedule_remove_thread t);;
  _ ← rt_timer_detach (TThread t);
  upd_thread t (set_th_stat RT_THREAD_CLOSE);;
  tlist_insert_after LDefunct t;;
  mret RT_EOK.

(** [thread->tlist.next != thread->tlist.prev]: true when the list the thread is
    in holds another thread (the two links of an only element both lead to the
    head), false when it is alone or linked nowhere. *)
Definition tnode_shared (t : Z) : K bool :=
  s ← get;
  mret (existsb (λ p : lhead * list Z, bool_decide (t ∈ p.2) && (1 <? length p.2)%nat)
    (map_to_list (ks_lists s))).

Definition rt_thread_yield : K Z :=
  t ← self;
  th ← get_thread t;
  shared ← tnode_shared t;
  if (th_stat th =? RT_THREAD_READY) && shared then
    tlist_remove t;;
    h ← priority_table (th_current_priority th);
    tlist_insert_before h t;;
    rt_schedule;;
    mret RT_EOK
  else mret RT_EOK.

Definition rt_thread_sleep (tick : Z) : K unit :=
  t ← self;
  _ ← rt_thread_suspend t;
  _ ← rt_timer_control (TThread t) (TimerSetTime tick);
  _ ← rt_timer_start (TThread t);
  rt_schedule.
Definition rt_thread_sleep_resumed (t : Z) : K Z :=
  th ← get_thread t;
  when (th_error th =? - RT_ETIMEOUT) (upd_thread t (set_th_error RT_EOK));;
  mret RT_EOK.
Definition rt_thread_delay : Z → K unit := rt_thread_sleep.

Inductive thread_cmd := ThreadStartup | ThreadClose | ThreadChangePriority (p : Z) | ThreadOther.
Definition rt_thread_control (t : Z) (cmd : thread_cmd) : K Z :=
  match cmd with
  | ThreadChangePriority p => change_priority t (u8 p);; mret RT_EOK
  | ThreadStartup => rt_thread_startup t
  | ThreadClose => rt_thread_delete t
  | ThreadOther => mret RT_EOK
  end.

(** ** Look-up by name *)

Definition rt_thread_find (name : list Z) : K (option Z) :=
  c ← rt_thread_self;
  when (bool_decide (c ≠ None)) rt_enter_critical;;
  s ← get;
  r ← object_scan (l_get (ks_containers s) (class_index ClassThread)) name;
  c ← rt_thread_self;
  when (bool_decide (c ≠ None)) rt_exit_critical;;
  mret (match r with Some (OThread t) => Some t | _ => None end).

Definition rt_object_find (name : option (list Z)) (type : Z) : K (option oid) :=
  match name with
  | None => mret None
  | Some name =>
    if type >? RT_Object_Class_Unknown then mret None
    else
      RT_DEBUG_NOT_IN_INTERRUPT;;
      rt_enter_critical;;
      container_at type;;
      s ← get;
      r ← object_scan (l_get (ks_containers s) type) name;
      rt_exit_critical;;
      mret r
  end.

(** ** clock.c *)

Section tick.
Context (user_timeout : Z → Z → K unit).

Definition rt_tick_set (tick : Z) : K unit := modify (set_ks_tick (u32 tick)).

Definition rt_tick_increase (fuel : nat) : K unit :=
  modify (λ s, set_ks_tick (u32 (ks_tick s + 1)) s);;
  t ← self;
  upd_thread t (λ th, set_th_remaining_tick (u32 (th_remaining_tick th - 1)) th);;
  th ← get_thread t;
  when (th_remaining_tick th =? 0) (
    upd_thread t (λ th, set_th_remaining_tick (th_init_tick th) th);;
    _ ← rt_thread_yield; mret tt);;
  rt_timer_check user_timeout fuel.
End tick.

(** [RT_TICK_PER_SECOND] is [CONFIG_FREERTOS_HZ] of [sdkconfig.h]. *)
Definition RT_TICK_PER_SECOND : Z := 1000.
Definition rt_tick_from_millisecond (ms : Z) : Z :=
  u32 (u32 (RT_TICK_PER_SECOND * ms) + 999) / 1000.

(** ** irq.c *)

Definition rt_interrupt_enter : K unit :=
  modify (λ s, set_ks_interrupt_nest (u8 (ks_interrupt_nest s + 1)) s).
Definition rt_interrupt_leave : K unit :=
  modify (λ s, set_ks_interrupt_nest (u8 (ks_interrupt_nest s - 1)) s).

(** ** idle.c *)

Section idle.
(** [thread->cleanup(thread)], application code. *)
Context (cleanup : Z → Z → K unit).

(** One pass of the [while] loop; [true] when the function returns. *)
Definition idle_reap : K bool :=
  RT_DEBUG_NOT_IN_INTERRUPT;;
  e ← tlist_isempty LDefunct;
  if (e : bool) then mret true
  else
    t ← tlist_first LDefunct;
    tlist_remove t;;
    th ← get_thread t;
    match th_cleanup th with Some f => cleanup f t | None => mret tt end;;
    sys ← rt_object_is_systemobject (OThread t);
    if (sys : bool) then mret true
    else
      th ← get_thread t;
      RT_KERNEL_FREE (th_stack_addr th);;
      rt_object_delete (OThread t) t;;
      mret false.

Fixpoint rt_thread_idle_excute (fuel : nat) : K unit :=
  e ← tlist_isempty LDefunct;
  if (e : bool) then mret tt
  else match fuel with
       | O => fail OutOfFuel
       | S fuel' =>
         stop ← idle_reap;
         if (stop : bool) then mret tt else rt_thread_idle_excute fuel'
       end.
End idle.
