(* ===== verification/Ipc.v ===== *)
(** The waiting lists of IPC objects: [rt_ipc_list_suspend],
    [rt_ipc_list_resume] and [rt_ipc_list_resume_all] of
    [rt-thread/src/ipc.c], and the timed wait every blocking call shares. *)

From stdpp Require Import base gmap list fin_maps.
From Stdlib Require Import ZArith Lia.
From S2P Require Import Prelude IntrusiveList Ffs Kservice KState Object Sched Timer Thread.

Open Scope Z_scope.

Definition rt_ipc_object_init (h : lhead) : K Z := tlist_init h;; mret RT_EOK.

(** The search of the priority order: the first waiting thread with a lower
    priority (a greater number) than [p]. *)
Fixpoint prio_position (p : Z) (l : list Z) : K (option Z) :=
  match l with
  | [] => mret None
  | m :: l' =>
    sth ← get_thread m;
    if p <? th_current_priority sth then mret (Some m) else prio_position p l'
  end.

Definition rt_ipc_list_suspend (h : lhead) (t flag : Z) : K Z :=
  _ ← rt_thread_suspend t;
  (if flag =? RT_IPC_FLAG_FIFO then tlist_insert_before h t
   else if flag =? RT_IPC_FLAG_PRIO then
     th ← get_thread t;
     s ← get;
     m ← prio_position (th_current_priority th) (l_get (ks_lists s) h);
     match m with
     | Some m => tlist_insert_before_node m t
     | None => tlist_insert_before h t
     end
   else mret tt);;
  mret RT_EOK.

Definition rt_ipc_list_resume (h : lhead) : K Z :=
  t ← tlist_first h;
  _ ← rt_thread_resume t;
  mret RT_EOK.

Fixpoint rt_ipc_list_resume_all (fuel : nat) (h : lhead) : K Z :=
  e ← tlist_isempty h;
  if (e : bool) then mret RT_EOK
  else match fuel with
       | O => fail OutOfFuel
       | S fuel' =>
         t ← tlist_first h;
         upd_thread t (set_th_error (- RT_ERROR));;
         _ ← rt_thread_resume t;
         rt_ipc_list_resume_all fuel' h
       end.
(** Enough fuel for the list as it stands: one pass per waiting thread. *)
Definition resume_all (h : lhead) : K Z :=
  s ← get; rt_ipc_list_resume_all (S (length (l_get (ks_lists s) h))) h.

(** [rt_timer_control(.., RT_TIMER_CTRL_SET_TIME, &time); rt_timer_start(..)] on
    the timer of the thread, if there is a waiting time. *)
Definition wait_timer (t time : Z) : K unit :=
  when (0 <? time) (
    _ ← rt_timer_control (TThread t) (TimerSetTime time);
    _ ← rt_timer_start (TThread t); mret tt).

(** What a call that can block does when it is entered (or goes on): it returns,
    or the thread waits and the call goes on from [_resumed] once the thread is
    switched in again. *)
Inductive call (A W : Type) := Return (a : A) | Wait (w : W).
Arguments Return {A W} a.
Arguments Wait {A W} w.

(** The tick a timed wait starts at ([tick_delta]). *)
Definition wait_start (timeout : Z) : K Z :=
  if 0 <? timeout then rt_tick_get else mret 0.
(** The time left of a wait that started at [start]: the conversions are those of
    [timeout -= tick_delta] with a signed [timeout] and an unsigned [tick_delta]. *)
Definition wait_left (timeout start : Z) : K Z :=
  if 0 <? timeout then
    now ← rt_tick_get;
    let timeout := i32 (timeout - u32 (now - start)) in
    mret (if timeout <? 0 then 0 else timeout)
  else mret timeout.
