(* ===== verification/IpcFacts.v ===== *)
(** Specifications of the waiting lists of IPC objects and of the timed wait the
    blocking calls share, against the kernel invariant. *)

From stdpp Require Import base gmap list fin_maps sorting.
From Stdlib Require Import ZArith Lia.
From S2P Require Import Prelude IntrusiveList Ffs Kservice KState Object Sched Timer KInv SchedFacts.
From S2P Require Import TimerFacts Thread Ipc.

Open Scope Z_scope.

(** ** The place of a new waiter *)

Definition prio_of (T : gmap Z rt_thread) (t : Z) : Z :=
  default 0 (th_current_priority <$> T !! t).

Fixpoint prio_insert (T : gmap Z rt_thread) (p t : Z) (l : list Z) : list Z :=
  match l with
  | [] => [t]
  | m :: l' => if p <? prio_of T m then t :: l else m :: prio_insert T p t l'
  end.

(** The waiting list after [t] of priority [p] joins it: at the end, or before the
    first waiter of a lower priority. *)
Definition wait_insert (T : gmap Z rt_thread) (flag p t : Z) (l : list Z) : list Z :=
  if flag =? RT_IPC_FLAG_FIFO then l ++ [t] else prio_insert T p t l.

Lemma prio_insert_split T p t l :
  ∃ l1 l2, l = l1 ++ l2 ∧ prio_insert T p t l = l1 ++ t :: l2 ∧
    Forall (λ m, prio_of T m ≤ p) l1 ∧ (∀ m, head l2 = Some m → p < prio_of T m).
Proof.
  induction l as [|m l (l1 & l2 & -> & E & H1 & H2)]; simpl; [by exists [], []|].
  destruct (Z.ltb_spec p (prio_of T m)).
  - exists [], (m :: l1 ++ l2). split_and!; try done. by intros ? [= <-].
  - exists (m :: l1), l2. rewrite E. split_and!; try done. by constructor.
Qed.

Lemma prio_insert_perm T p t l : prio_insert T p t l ≡ₚ t :: l.
Proof.
  destruct (prio_insert_split T p t l) as (l1 & l2 & -> & -> & _). by rewrite Permutation_middle.
Qed.
Lemma wait_insert_perm T flag p t l : wait_insert T flag p t l ≡ₚ t :: l.
Proof.
  unfold wait_insert. case_match; [by rewrite Permutation_app_comm|apply prio_insert_perm].
Qed.

(** A waiting list in priority order stays in priority order, and the new waiter
    comes after the waiters of its own priority. *)
Definition prio_sorted (T : gmap Z rt_thread) (l : list Z) : Prop := Sorted Z.le (prio_of T <$> l).

Lemma prio_insert_sorted T p t l :
  prio_of T t = p → prio_sorted T l → prio_sorted T (prio_insert T p t l).
Proof.
  intros Hp. unfold prio_sorted. induction l as [|m l IH]; simpl; [by repeat constructor|].
  intros Hs. destruct (Z.ltb_spec p (prio_of T m)); simpl.
  - constructor; [done|]. constructor. lia.
  - apply Sorted_inv in Hs as [Hs Hh]. constructor; [auto|].
    destruct l as [|m' l]; simpl in *; [constructor; lia|].
    case_match; simpl; constructor; [lia|]. by inversion Hh.
Qed.

Lemma prio_position_spec s p l :
  (∀ m, m ∈ l → is_Some (ks_threads s !! m)) →
  wp (prio_position p l) (λ r s', s' = s ∧ ∃ l1 l2, l = l1 ++ l2 ∧ r = head l2 ∧
    ∀ t, prio_insert (ks_threads s) p t l = l1 ++ t :: l2) s.
Proof.
  induction l as [|m l IH]; intros Hl; simpl; [wp_step; split; [done|by exists [], []]|].
  destruct (Hl m ltac:(set_solver)) as [th Hm]. wp_step. eapply wp_get_thread; [done|].
  unfold prio_of. rewrite Hm. simpl. destruct (p <? th_current_priority th).
  - wp_step. split; [done|]. by exists [], (m :: l).
  - eapply wp_mono; [apply IH; set_solver|]. intros r ? (-> & l1 & l2 & -> & -> & E).
    split; [done|]. exists (m :: l1), l2. split_and!; [done..|]. intros t. simpl. by rewrite E.
Qed.

(** ** Suspending on a list *)

(** [t] is suspended and linked into [h], whose list is now [l']; its timer is not
    armed. *)
Record waiting_in (h : lhead) (t : Z) (l' : list Z) (th : rt_thread) (s s' : kstate) : Prop := {
  wt_wf : wf s';
  wt_threads : ks_threads s' = <[t := set_th_stat RT_THREAD_SUSPEND th]> (ks_threads s);
  wt_list : l_get (ks_lists s') h = l';
  wt_other h' : h' ≠ h → l_get (ks_lists s') h' = filter (λ x, x ≠ t) (l_get (ks_lists s) h');
  wt_quiet : quiet s s';
  wt_rows r : TThread t ∉ l_get (ks_rows s') r;
  wt_timers j : j ≠ TThread t → ks_timers s' !! j = ks_timers s !! j;
  wt_rows_other r : l_get (ks_rows s') r = filter (λ x, x ≠ TThread t) (l_get (ks_rows s) r);
}.

Definition waiting (h : lhead) (t flag : Z) (th : rt_thread) (s s' : kstate) : Prop :=
  waiting_in h t (wait_insert (ks_threads s) flag (th_current_priority th) t (l_get (ks_lists s) h)) th s s'.

Lemma wait_head_notin s h t th :
  wf s → wait_head h → ks_threads s !! t = Some th → th_stat th ≠ RT_THREAD_SUSPEND →
  t ∉ l_get (ks_lists s) h.
Proof.
  intros Hwf Hh Ht Hs Hin. destruct (wf_home _ Hwf _ _ Hin) as (th' & ? & Hst).
  rewrite home_wait in Hst by done. congruence.
Qed.

(** The rest of the suspension: linking the suspended thread into the list. *)
Lemma wait_link_spec s s1 h t th L l' :
  wait_head h → suspended t th s s1 → t ∉ l_get (ks_lists s) h →
  l_get L h = l' → l' ≡ₚ t :: l_get (ks_lists s) h →
  (∀ h', h ≠ h' → l_get L h' = l_get (ks_lists s1) h') →
  waiting_in h t l' th s (set_ks_lists L s1).
Proof.
  intros Hh Hsu Hnin EL Hp Ho. destruct Hsu as [Hwf1 Et El Hq Er Etm].
  assert (Hun : l_linked (ks_lists s1) t = false).
  { apply l_linked_false. intros h'. rewrite El, list_elem_of_filter. naive_solver. }
  split; simpl; try done.
  - eapply (wf_wait s1 _ Hwf1 t (set_th_stat RT_THREAD_SUSPEND th)) with (h := h); try done.
    + rewrite Et. apply lookup_insert_eq.
    + simpl. rewrite EL, Hp, El, filter_ne_notin; done.
  - intros h' Hne. rewrite Ho, El by done. done.
  - transitivity s1; [done|by repeat split].
  - intros r. rewrite Er, list_elem_of_filter. naive_solver.
Qed.

Lemma prio_insert_ext T T' p t l :
  (∀ m, m ∈ l → T' !! m = T !! m) → prio_insert T' p t l = prio_insert T p t l.
Proof.
  induction l as [|m l IH]; intros Hl; simpl; [done|]. unfold prio_of. rewrite Hl by set_solver.
  case_match; [done|]. rewrite IH; [done|set_solver].
Qed.

Lemma ipc_list_suspend_spec s h t th flag :
  wf s → wait_head h → ks_threads s !! t = Some th → th_stat th = RT_THREAD_READY →
  flag = RT_IPC_FLAG_FIFO ∨ flag = RT_IPC_FLAG_PRIO →
  wp (rt_ipc_list_suspend h t flag) (λ _, waiting h t flag th s) s.
Proof.
  intros Hwf Hh Ht Hst Hfl. unfold rt_ipc_list_suspend. wp_step.
  pose proof (wait_head_notin s h t th Hwf Hh Ht ltac:(by rewrite Hst)) as Hnin.
  eapply wp_mono; [by apply thread_suspend_spec|]. intros ? s1 [_ Hsu].
  pose proof Hsu as [Hwf1 Et El Hq Er Etm].
  assert (El' : l_get (ks_lists s1) h = l_get (ks_lists s) h) by (by rewrite El, filter_ne_notin).
  assert (Hun : l_linked (ks_lists s1) t = false).
  { apply l_linked_false. intros h'. rewrite El, list_elem_of_filter. naive_solver. }
  wp_step. destruct Hfl as [-> | ->]; simpl.
  - apply wp_tlist_link; [done|]. wp_step. eapply wait_link_spec; try done; [|apply wait_insert_perm|].
    + rewrite l_get_insert_before, decide_True, El' by done. done.
    + intros h' Hne. by rewrite l_get_insert_before, decide_False.
  - wp_step. eapply wp_get_thread; [rewrite Et; apply lookup_insert_eq|]. wp_step. wp_step. wp_step.
    eapply wp_mono; [apply prio_position_spec|].
    { intros m Hm. destruct (wf_home _ Hwf1 _ _ Hm) as (? & ? & _). eauto. }
    intros r ? (-> & l1 & l2 & E & -> & Eins). specialize (Eins t). simpl in Eins.
    rewrite Et, (prio_insert_ext (ks_threads s)) in Eins.
    2:{ intros m Hm. apply lookup_insert_ne. intros <-. by rewrite El' in Hm. }
    rewrite El' in E, Eins. destruct l2 as [|m l2]; simpl.
    + apply wp_tlist_link; [done|]. wp_step. eapply wait_link_spec; try done; [|apply wait_insert_perm|].
      * rewrite l_get_insert_before, decide_True by done. unfold wait_insert. simpl.
        rewrite Eins, El', E. by rewrite app_nil_r.
      * intros h' Hne. by rewrite l_get_insert_before, decide_False.
    + apply wp_tlist_link; [done|]. wp_step. eapply wait_link_spec; try done; [|apply wait_insert_perm|].
      * rewrite l_get_insert_node. unfold wait_insert. simpl. rewrite Eins, El', E.
        apply insert_at_node_app. pose proof (ok_nodup _ (wf_lists _ Hwf) h) as Hnd.
        rewrite E, NoDup_app in Hnd. intros Hm. by eapply Hnd; [|left].
      * intros h' Hne. rewrite l_get_insert_node. apply insert_at_node_notin.
        intros Hm. apply Hne. eapply (ok_excl _ (wf_lists _ Hwf1)); [|done]. rewrite El', E. set_solver.
Qed.

(** The same in code that links the thread itself. *)
Lemma wait_fifo_spec s h t th :
  wf s → wait_head h → ks_threads s !! t = Some th → th_stat th = RT_THREAD_READY →
  wp (_ ← rt_thread_suspend t; tlist_insert_before h t) (λ _, waiting h t RT_IPC_FLAG_FIFO th s) s.
Proof.
  intros Hwf Hh Ht Hst. pose proof (ipc_list_suspend_spec s h t th RT_IPC_FLAG_FIFO Hwf Hh Ht Hst ltac:(by left)) as Hw.
  unfold rt_ipc_list_suspend, wp, mbind, SM_bind in *. destruct (rt_thread_suspend t s) as [r s1|]; [|done].
  simpl in Hw. by destruct (tlist_insert_before h t s1).
Qed.

(** ** The timed wait *)

(** The timer of the waiting thread: armed for [time] ticks from now, or not at all
    when the thread waits forever. *)
Definition wait_deadline (t time : Z) (s s' : kstate) : Prop :=
  if 0 <? time
  then TThread t ∈ l_get (ks_rows s') HardRow ∧
       timeout_of (ks_timers s') (TThread t) = u32 (ks_tick s + time)
  else ∀ r, TThread t ∉ l_get (ks_rows s') r.

Record timed (t time : Z) (s s' : kstate) : Prop := {
  td_wf : wf s';
  td_threads : ks_threads s' = ks_threads s;
  td_lists : ks_lists s' = ks_lists s;
  td_quiet : quiet s s';
  td_deadline : wait_deadline t time s s';
  td_timers j : j ≠ TThread t → ks_timers s' !! j = ks_timers s !! j;
}.

Lemma wait_timer_spec s t th time :
  wf s → ks_threads s !! t = Some th → th_stat th = RT_THREAD_SUSPEND →
  (∀ r, TThread t ∉ l_get (ks_rows s) r) → time < HALF →
  wp (wait_timer t time) (λ _, timed t time s) s.
Proof.
  intros Hwf Ht Hst Hno Htime. unfold wait_timer, when, wait_deadline.
  destruct (Z.ltb_spec 0 time) as [Hpos|Hneg]; simpl.
  2:{ wp_step. split; try done. unfold wait_deadline. by rewrite (proj2 (Z.ltb_ge _ _)). }
  destruct (wf_timer _ Hwf _ _ Ht ltac:(by rewrite Hst)) as (tm & Htm & Hok).
  wp_step. unfold rt_timer_control. wp_step. eapply wp_upd_timer; [done|]. wp_step.
  set (tm1 := set_tm_init_tick (u32 time) tm). set (s1 := set_ks_timers _ s).
  assert (Hu : u32 time = time).
  { apply Z.mod_small. change HALF with 2147483647 in Htime. lia. }
  assert (Hwf1 : wf s1).
  { eapply (wf_timer_field s s1 Hwf _ tm tm1); try done; [apply same_kind_init|].
    intros ? r [= <-] Hin. by destruct (Hno r). }
  wp_step. eapply wp_mono; [eapply (thread_timer_start_spec s1 t th tm1); try done|].
  - apply lookup_insert_eq.
  - simpl. rewrite Hu. change (RT_TICK_MAX / 2) with HALF. lia.
  - intros ? s2 [_ Har]. wp_step. destruct (ar_row _ _ _ _ Har) as (l1 & l2 & _ & _ & Er).
    split; try apply Har.
    + transitivity s1; [by repeat split|apply Har].
    + unfold wait_deadline. rewrite (proj2 (Z.ltb_lt _ _)) by done. split.
      * replace HardRow with (row_of_flag (tm_flag tm1)); [rewrite Er; set_solver|].
        unfold row_of_flag. simpl. by rewrite (tt_hard _ _ Hok).
      * unfold timeout_of. rewrite (ar_timers _ _ _ _ Har), lookup_insert_eq. simpl. by rewrite Hu.
    + intros j Hj. rewrite (ar_timers _ _ _ _ Har), lookup_insert_ne by done. simpl.
      by rewrite lookup_insert_ne.
Qed.

(** ** The blocking tail: suspend on the list, arm the timer, switch away *)

(** The scheduler picks the first thread of the highest ready priority, unless it
    is locked. *)
Definition picked (s : kstate) : Prop :=
  if ks_lock_nest s =? 0 then ∃ p c, highest_ready s p c ∧ ks_current s = Some c else True.

(** [t] waits in [h], whose list is now [l']. *)
Record blocked_in (h : lhead) (t : Z) (l' : list Z) (time : Z) (th : rt_thread) (s s' : kstate) : Prop := {
  bk_wf : wf s';
  bk_threads : ks_threads s' = <[t := set_th_stat RT_THREAD_SUSPEND th]> (ks_threads s);
  bk_list : l_get (ks_lists s') h = l';
  bk_other h' : h' ≠ h → l_get (ks_lists s') h' = filter (λ x, x ≠ t) (l_get (ks_lists s) h');
  bk_frame : frame s s';
  bk_deadline : wait_deadline t time s s';
  bk_current : is_Some (ks_current s') ∧ picked s';
  bk_timers j : j ≠ TThread t → ks_timers s' !! j = ks_timers s !! j;
}.

Definition blocked (h : lhead) (t flag time : Z) (th : rt_thread) (s s' : kstate) : Prop :=
  blocked_in h t (wait_insert (ks_threads s) flag (th_current_priority th) t (l_get (ks_lists s) h))
    time th s s'.

(** The scheduler always has a thread to run besides [t]: the idle thread. *)
Definition other_ready (s : kstate) (t : Z) : Prop :=
  ∃ t' th', t' ≠ t ∧ ks_threads s !! t' = Some th' ∧ th_stat th' = RT_THREAD_READY.

Definition block_on (h : lhead) (t flag time : Z) : K unit :=
  _ ← rt_ipc_list_suspend h t flag; wait_timer t time;; rt_schedule.

Lemma schedule_picked s s' : switched s s' →
  (if ks_lock_nest s =? 0 then ∃ p t, highest_ready s p t ∧ ks_current s' = Some t else s' = s) →
  picked s'.
Proof.
  intros (c & p & ->) Hif. unfold picked. simpl in *. case_match; [|done].
  destruct Hif as (q & t & Hh & ->). by exists q, t.
Qed.

Lemma schedule_ready_spec s :
  wf s → some_ready s → is_Some (ks_current s) →
  wp rt_schedule (λ _ s', switched s s' ∧ is_Some (ks_current s') ∧ picked s') s.
Proof.
  intros Hwf Hr [c Hc]. eapply wp_mono; [by eapply schedule_spec|].
  intros ? s' [Hsw Hif]. split_and!; [done| |by eapply schedule_picked].
  case_match; [|by subst]. destruct Hif as (? & ? & _ & ->). eauto.
Qed.

(** A thread that waits in a list arms its timer and is switched away from. *)
Lemma park_spec s s1 h t th l' time :
  waiting_in h t l' th s s1 → time < HALF → other_ready s t → is_Some (ks_current s) →
  wp (wait_timer t time;; rt_schedule) (λ _, blocked_in h t l' time th s) s1.
Proof.
  intros [Hwf1 Et1 El1 Eo1 Hq1 Hr1 Etm1 _] Htime (t' & th' & Hne & Ht' & Hst') Hc. wp_step.
  eapply wp_mono; [eapply (wait_timer_spec s1 t (set_th_stat RT_THREAD_SUSPEND th)); try done|].
  { rewrite Et1. apply lookup_insert_eq. }
  intros ? s2 [Hwf2 Et2 El2 Hq2 Hd2 Etm2].
  eapply wp_mono; [apply (schedule_ready_spec s2); [done| |]|].
  - exists t', th'. by rewrite Et2, Et1, lookup_insert_ne.
  - destruct Hq1 as (_ & Ec1 & _), Hq2 as (_ & Ec2 & _). by rewrite Ec2, Ec1.
  - intros ? s3 (Hsw & Hc3 & Hpk). pose proof Hsw as (c & p & ->).
    assert (ks_tick s1 = ks_tick s) as Etick by apply Hq1.
    split; simpl; rewrite ?El2, ?Et2, ?Et1; try done.
    + by eapply switched_wf.
    + transitivity s2; [|by apply switched_frame]. transitivity s1; [apply Hq1|apply Hq2].
    + unfold wait_deadline in *. by rewrite <- Etick.
    + intros j Hj. by rewrite Etm2, Etm1.
Qed.

Lemma block_on_spec s h t th flag time :
  wf s → wait_head h → ks_threads s !! t = Some th → th_stat th = RT_THREAD_READY →
  flag = RT_IPC_FLAG_FIFO ∨ flag = RT_IPC_FLAG_PRIO → time < HALF →
  other_ready s t → is_Some (ks_current s) →
  wp (block_on h t flag time) (λ _, blocked h t flag time th s) s.
Proof.
  intros Hwf Hh Ht Hst Hfl Htime Hoth Hc. unfold block_on.
  wp_step. eapply wp_mono; [by apply ipc_list_suspend_spec|].
  intros ? s1 Hw. by apply park_spec.
Qed.

Lemma wp_block_on {A} (k : K A) Q s h t th flag time :
  wf s → wait_head h → ks_threads s !! t = Some th → th_stat th = RT_THREAD_READY →
  flag = RT_IPC_FLAG_FIFO ∨ flag = RT_IPC_FLAG_PRIO → time < HALF →
  other_ready s t → is_Some (ks_current s) →
  (∀ s', blocked h t flag time th s s' → wp k Q s') →
  wp (_ ← rt_ipc_list_suspend h t flag; wait_timer t time;; rt_schedule;; k) Q s.
Proof.
  intros. cut (wp (block_on h t flag time) (λ _ s', wp k Q s') s).
  { intros Hb. apply wp_bind_inv in Hb. wp_step. eapply wp_mono; [exact Hb|].
    intros ? s1 Hb1. apply wp_bind_inv in Hb1. wp_step. eapply wp_mono; [exact Hb1|].
    intros ? s2 Hb2. by wp_step. }
  eapply wp_mono; [by eapply block_on_spec|]. auto.
Qed.

(** ** Waking threads *)

Lemma ipc_list_resume_spec s h t l :
  wf s → wait_head h → l_get (ks_lists s) h = t :: l →
  wp (rt_ipc_list_resume h) (λ _ s', ∃ th, ks_threads s !! t = Some th ∧
    th_stat th = RT_THREAD_SUSPEND ∧ readied t th s s') s.
Proof.
  intros Hwf Hh El. unfold rt_ipc_list_resume. wp_step. eapply wp_tlist_first; [done|]. wp_step.
  destruct (wf_home _ Hwf h t ltac:(rewrite El; set_solver)) as (th & Ht & Hst).
  rewrite home_wait in Hst by done.
  eapply wp_mono; [by apply thread_resume_spec|]. intros ? s1 [_ Hr]. wp_step. eauto.
Qed.

(** The lists after the head of a waiting list was made ready. *)
Lemma readied_front s s' h t l th :
  wf s → wait_head h → l_get (ks_lists s) h = t :: l → readied t th s s' →
  l_get (ks_lists s') h = l ∧
  ∀ h', h' ≠ h → wait_head h' → l_get (ks_lists s') h' = l_get (ks_lists s) h'.
Proof.
  intros Hwf Hh El Hr. pose proof (ok_nodup _ (wf_lists _ Hwf) h) as Hnd. rewrite El in Hnd.
  apply NoDup_cons in Hnd as [Hnin _]. split.
  - rewrite (rd_lists _ _ _ _ Hr), El, filter_cons_False by naive_solver.
    rewrite filter_ne_notin by done. rewrite decide_False by (by intros ->). apply app_nil_r.
  - intros h' Hne Hh'. rewrite (rd_lists _ _ _ _ Hr), decide_False by (by intros ->).
    rewrite app_nil_r, filter_ne_notin; [done|]. intros Hin. apply Hne.
    eapply (ok_excl _ (wf_lists _ Hwf)); [done|]. rewrite El. set_solver.
Qed.

Definition woken (th : rt_thread) : rt_thread :=
  set_th_stat RT_THREAD_READY (set_th_error (- RT_ERROR) th).

Record drained (h : lhead) (s s' : kstate) : Prop := {
  dr_wf : wf s';
  dr_list : l_get (ks_lists s') h = [];
  dr_other h' : h' ≠ h → wait_head h' → l_get (ks_lists s') h' = l_get (ks_lists s) h';
  dr_woken t th : t ∈ l_get (ks_lists s) h → ks_threads s !! t = Some th →
    ks_threads s' !! t = Some (woken th);
  dr_rest t : t ∉ l_get (ks_lists s) h → ks_threads s' !! t = ks_threads s !! t;
  dr_quiet : quiet s s';
}.

Lemma wf_set_error s t th e :
  wf s → ks_threads s !! t = Some th →
  wf (set_ks_threads (<[t := set_th_error e th]> (ks_threads s)) s).
Proof.
  intros Hwf Ht. eapply (wf_thread_field s _ Hwf t th (set_th_error e th)); try done.
  intros Hs. destruct (wf_prio _ Hwf _ _ Ht Hs). by split.
Qed.

Lemma resume_all_step s h t l th :
  wf s → wait_head h → l_get (ks_lists s) h = t :: l → ks_threads s !! t = Some th →
  wp (upd_thread t (set_th_error (- RT_ERROR));; rt_thread_resume t)
    (λ _ s', readied t (set_th_error (- RT_ERROR) th)
      (set_ks_threads (<[t := set_th_error (- RT_ERROR) th]> (ks_threads s)) s) s') s.
Proof.
  intros Hwf Hh El Ht. wp_step. eapply wp_upd_thread; [done|].
  destruct (wf_home _ Hwf h t ltac:(rewrite El; set_solver)) as (th' & Ht' & Hst).
  simplify_eq. rewrite home_wait in Hst by done.
  eapply wp_mono; [eapply thread_resume_spec; [by apply wf_set_error|apply lookup_insert_eq|done]|].
  by intros ? s1 [_ Hr].
Qed.

Lemma resume_all_spec s h fuel :
  wf s → wait_head h → (length (l_get (ks_lists s) h) ≤ fuel)%nat →
  wp (rt_ipc_list_resume_all fuel h) (λ r s', r = RT_EOK ∧ drained h s s') s.
Proof.
  revert s. induction fuel as [|fuel IH]; intros s Hwf Hh Hf; simpl; wp_step;
    apply wp_tlist_isempty; unfold l_isempty; destruct (l_get (ks_lists s) h) as [|t l] eqn:El; simpl in Hf;
    try lia.
  1,2: wp_step; split; [done|]; split; try done; intros ? ? Hin; rewrite El in Hin;
    by apply not_elem_of_nil in Hin.
  destruct (wf_home _ Hwf h t ltac:(rewrite El; set_solver)) as (th & Ht & _).
  set (s0 := set_ks_threads (<[t := set_th_error (- RT_ERROR) th]> (ks_threads s)) s).
  wp_step. eapply wp_tlist_first; [done|].
  cut (wp (upd_thread t (set_th_error (- RT_ERROR));; rt_thread_resume t)
    (λ _ s', wp (rt_ipc_list_resume_all fuel h) (λ r s'', r = RT_EOK ∧ drained h s s'') s') s).
  { intros Hb. apply wp_bind_inv in Hb. wp_step. eapply wp_mono; [exact Hb|]. intros. by wp_step. }
  eapply wp_mono; [by eapply resume_all_step|]. intros ? s1 Hr.
  assert (Hwf0 : wf s0) by (by apply wf_set_error).
  destruct (readied_front s0 s1 h t l _ Hwf0 Hh El Hr) as [El1 Eo1]. destruct Hr as [Hwf1 Et1 _ Hq1 _ _].
  eapply wp_mono; [apply (IH s1); [done|done|rewrite El1; lia]|].
  intros r s2 [-> [Hwf2 E2 Eo2 Hw2 Hrest2 Hq2]]. split; [done|].
  pose proof (ok_nodup _ (wf_lists _ Hwf) h) as Hnd. rewrite El in Hnd. apply NoDup_cons in Hnd as [Hnin _].
  split; try done.
  - intros h' Hne Hh'. by rewrite Eo2, Eo1.
  - rewrite El. intros x thx [->|Hx]%elem_of_cons Hthx.
    + assert (thx = th) as -> by congruence. rewrite Hrest2 by (by rewrite El1). rewrite Et1, lookup_insert_eq. done.
    + apply Hw2; [by rewrite El1|]. assert (x ≠ t) by (by intros ->).
      rewrite Et1, lookup_insert_ne by done. simpl. by rewrite lookup_insert_ne.
  - rewrite El. intros x Hx. rewrite Hrest2 by (rewrite El1; set_solver).
    rewrite Et1, lookup_insert_ne by set_solver. simpl. by rewrite lookup_insert_ne by set_solver.
  - transitivity s1; [|done]. transitivity s0; [by repeat split|done].
Qed.

Lemma resume_all_drains s h :
  wf s → wait_head h → wp (resume_all h) (λ r s', r = RT_EOK ∧ drained h s s') s.
Proof.
  intros Hwf Hh. unfold resume_all. wp_step. wp_step. apply resume_all_spec; [done|done|lia].
Qed.

(** ** Control blocks of IPC objects *)

Section ipc_access.
Context (s : kstate) (a : Z).
Lemma wp_get_sem x Q : ks_sems s !! a = Some x → Q x s → wp (get_sem a) Q s.
Proof. intros Hx HQ. unfold get_sem. wp_step. wp_step. by eapply wp_option. Qed.
Lemma wp_upd_sem f x (Q : unit → kstate → Prop) : ks_sems s !! a = Some x →
  Q tt (set_ks_sems (<[a := f x]> (ks_sems s)) s) → wp (upd_sem a f) Q s.
Proof. intros Hx HQ. unfold upd_sem. wp_step. by eapply wp_get_sem. Qed.
Lemma wp_get_mutex x Q : ks_mutexes s !! a = Some x → Q x s → wp (get_mutex a) Q s.
Proof. intros Hx HQ. unfold get_mutex. wp_step. wp_step. by eapply wp_option. Qed.
Lemma wp_upd_mutex f x (Q : unit → kstate → Prop) : ks_mutexes s !! a = Some x →
  Q tt (set_ks_mutexes (<[a := f x]> (ks_mutexes s)) s) → wp (upd_mutex a f) Q s.
Proof. intros Hx HQ. unfold upd_mutex. wp_step. by eapply wp_get_mutex. Qed.
Lemma wp_get_event x Q : ks_events s !! a = Some x → Q x s → wp (get_event a) Q s.
Proof. intros Hx HQ. unfold get_event. wp_step. wp_step. by eapply wp_option. Qed.
Lemma wp_upd_event f x (Q : unit → kstate → Prop) : ks_events s !! a = Some x →
  Q tt (set_ks_events (<[a := f x]> (ks_events s)) s) → wp (upd_event a f) Q s.
Proof. intros Hx HQ. unfold upd_event. wp_step. by eapply wp_get_event. Qed.
Lemma wp_get_mailbox x Q : ks_mailboxes s !! a = Some x → Q x s → wp (get_mailbox a) Q s.
Proof. intros Hx HQ. unfold get_mailbox. wp_step. wp_step. by eapply wp_option. Qed.
Lemma wp_upd_mailbox f x (Q : unit → kstate → Prop) : ks_mailboxes s !! a = Some x →
  Q tt (set_ks_mailboxes (<[a := f x]> (ks_mailboxes s)) s) → wp (upd_mailbox a f) Q s.
Proof. intros Hx HQ. unfold upd_mailbox. wp_step. by eapply wp_get_mailbox. Qed.
Lemma wp_get_mq x Q : ks_mqs s !! a = Some x → Q x s → wp (get_mq a) Q s.
Proof. intros Hx HQ. unfold get_mq. wp_step. wp_step. by eapply wp_option. Qed.
Lemma wp_upd_mq f x (Q : unit → kstate → Prop) : ks_mqs s !! a = Some x →
  Q tt (set_ks_mqs (<[a := f x]> (ks_mqs s)) s) → wp (upd_mq a f) Q s.
Proof. intros Hx HQ. unfold upd_mq. wp_step. by eapply wp_get_mq. Qed.
Lemma wp_get_mempool x Q : ks_mempools s !! a = Some x → Q x s → wp (get_mempool a) Q s.
Proof. intros Hx HQ. unfold get_mempool. wp_step. wp_step. by eapply wp_option. Qed.
Lemma wp_upd_mempool f x (Q : unit → kstate → Prop) : ks_mempools s !! a = Some x →
  Q tt (set_ks_mempools (<[a := f x]> (ks_mempools s)) s) → wp (upd_mempool a f) Q s.
Proof. intros Hx HQ. unfold upd_mempool. wp_step. by eapply wp_get_mempool. Qed.
End ipc_access.

(** ** Thread context *)

(** [t] runs, outside interrupts, in a well-formed kernel that has another ready
    thread (the idle thread, unless [t] is the idle thread itself). *)
Record running (s : kstate) (t : Z) (th : rt_thread) : Prop := {
  rn_wf : wf s;
  rn_current : ks_current s = Some t;
  rn_thread : ks_threads s !! t = Some th;
  rn_ready : th_stat th = RT_THREAD_READY;
  rn_idle : other_ready s t;
  rn_irq : ks_interrupt_nest s = 0;
}.

Lemma wp_in_thread s t th (Q : unit → kstate → Prop) :
  running s t th → Q tt s → wp RT_DEBUG_IN_THREAD_CONTEXT Q s.
Proof.
  intros Hr HQ. unfold RT_DEBUG_IN_THREAD_CONTEXT, RT_DEBUG_NOT_IN_INTERRUPT, rt_thread_self, rt_interrupt_get_nest.
  repeat wp_step; [by rewrite (rn_current _ _ _ Hr)|by rewrite (rn_irq _ _ _ Hr)|done].
Qed.

Lemma running_some s t th : running s t th → is_Some (ks_current s).
Proof. intros Hr. rewrite (rn_current _ _ _ Hr). eauto. Qed.

Lemma running_error s t th e :
  running s t th →
  running (set_ks_threads (<[t := set_th_error e th]> (ks_threads s)) s) t (set_th_error e th).
Proof.
  intros [Hwf Hc Ht Hst (t' & th' & Hne & Ht' & Hst') Hi]. split; try done.
  - by apply wf_set_error.
  - apply lookup_insert_eq.
  - exists t', th'. simpl. by rewrite lookup_insert_ne.
Qed.

(** A call that finds a waiter to wake, wakes it and reschedules. *)
Lemma wake_first_spec s h t l :
  wf s → wait_head h → is_Some (ks_current s) → l_get (ks_lists s) h = t :: l →
  wp (_ ← rt_ipc_list_resume h; rt_schedule) (λ _ s', ∃ th s1, ks_threads s !! t = Some th ∧
    th_stat th = RT_THREAD_SUSPEND ∧ readied t th s s1 ∧ switched s1 s' ∧ wf s' ∧
    is_Some (ks_current s') ∧ picked s') s.
Proof.
  intros Hwf Hh Hc El. wp_step. eapply wp_mono; [by eapply ipc_list_resume_spec|].
  intros ? s1 (th & Ht & Hst & Hr). eapply wp_mono; [apply (schedule_ready_spec s1); [apply Hr| |]|].
  - exists t, (set_th_stat RT_THREAD_READY th). by rewrite (rd_threads _ _ _ _ Hr), lookup_insert_eq.
  - destruct (rd_quiet _ _ _ _ Hr) as (_ & -> & _). done.
  - intros ? s2 (Hsw & Hc2 & Hpk). exists th, s1. split_and!; try done. eapply switched_wf; [done|apply Hr].
Qed.

(** The blocking tail of a call that notes the tick it started to wait at. *)
Lemma wp_block_on_start {A} (k : Z → K A) Q s h t th flag time :
  wf s → wait_head h → ks_threads s !! t = Some th → th_stat th = RT_THREAD_READY →
  flag = RT_IPC_FLAG_FIFO ∨ flag = RT_IPC_FLAG_PRIO → time < HALF →
  other_ready s t → is_Some (ks_current s) →
  (∀ s', blocked h t flag time th s s' → wp (k (if 0 <? time then ks_tick s else 0)) Q s') →
  wp (_ ← rt_ipc_list_suspend h t flag; start ← wait_start time; wait_timer t time;;
      rt_schedule;; k start) Q s.
Proof.
  intros Hwf Hh Ht Hst Hfl Htime Hoth Hc Hk.
  assert (Hb : wp (block_on h t flag time) (λ _ s', wp (k (if 0 <? time then ks_tick s else 0)) Q s') s).
  { eapply wp_mono; [by eapply block_on_spec|]. auto. }
  apply wp_bind_inv in Hb. wp_step.
  eapply wp_mono; [eapply wp_conj; [exact Hb|by apply ipc_list_suspend_spec]|].
  intros ? s1 [Hb1 Hw]. assert (Et : ks_tick s1 = ks_tick s) by apply Hw. rewrite <- Et in Hb1.
  apply wp_bind_inv in Hb1. wp_step. unfold wait_start.
  assert (Hgo : wp (wait_timer t time;; rt_schedule;; k (if 0 <? time then ks_tick s1 else 0)) Q s1).
  { wp_step. eapply wp_mono; [exact Hb1|]. intros ? s2 Hb2. by wp_step. }
  destruct (0 <? time); [unfold rt_tick_get; do 3 wp_step|wp_step]; done.
Qed.

(** What is left of a wait is computed right as long as less than half the range
    of the tick has passed. *)
Definition time_left (s : kstate) (timeout start : Z) : Z :=
  if 0 <? timeout then Z.max 0 (timeout - u32 (ks_tick s - start)) else timeout.

Lemma wait_left_spec s timeout start (Q : Z → kstate → Prop) :
  timeout < 2 ^ 31 → u32 (ks_tick s - start) ≤ 2 ^ 31 →
  Q (time_left s timeout start) s → wp (wait_left timeout start) Q s.
Proof.
  intros Ht Hd HQ. unfold wait_left. unfold time_left in HQ.
  destruct (Z.ltb_spec 0 timeout); [|by wp_step].
  unfold rt_tick_get. do 4 wp_step.
  pose proof (Z.mod_pos_bound (ks_tick s - start) (2 ^ 32) ltac:(lia)). unfold u32 in *.
  unfold i32. rewrite Z.mod_small by lia.
  destruct (Z.ltb_spec (timeout - (ks_tick s - start) mod 2 ^ 32 + 2 ^ 31 - 2 ^ 31) 0).
  - by rewrite Z.max_l in HQ by lia.
  - rewrite Z.max_r in HQ by lia. by replace (timeout - (ks_tick s - start) mod 2 ^ 32 + 2 ^ 31 - 2 ^ 31)
      with (timeout - (ks_tick s - start) mod 2 ^ 32) by lia.
Qed.

Lemma time_left_range s timeout start : timeout < HALF → time_left s timeout start < HALF.
Proof.
  change HALF with (2 ^ 31 - 1). unfold time_left, u32.
  pose proof (Z.mod_pos_bound (ks_tick s - start) (2 ^ 32) ltac:(lia)). case_match; lia.
Qed.

(** ** Waking the other side *)

(** The first thread waiting in [h] is ready, or nobody waited and nothing was
    done. *)
Definition woke (h : lhead) (s s' : kstate) : Prop :=
  match l_get (ks_lists s) h with
  | [] => ks_threads s' = ks_threads s ∧ ks_current s' = ks_current s ∧ ks_lists s' = ks_lists s
  | w :: ws => l_get (ks_lists s') h = ws ∧
      ∃ th, ks_threads s' !! w = Some th ∧ th_stat th = RT_THREAD_READY
  end.

Lemma wake_spec s h :
  wf s → wait_head h → is_Some (ks_current s) →
  wp (e ← tlist_isempty h; when (negb e) (_ ← rt_ipc_list_resume h; rt_schedule))
    (λ _ s', wf s' ∧ is_Some (ks_current s') ∧ frame s s' ∧ woke h s s') s.
Proof.
  intros Hwf Hh Hc. wp_step. apply wp_tlist_isempty. unfold l_isempty, woke.
  destruct (l_get (ks_lists s) h) as [|w ws] eqn:El; simpl; [by wp_step|].
  eapply wp_mono; [by eapply wake_first_spec|].
  intros ? s' (th & s1 & Ht & Hst & Hrd & Hsw & Hwf' & Hc' & _).
  destruct (readied_front s s1 h w ws th Hwf Hh El Hrd) as [El1 _].
  split; [done|]. split; [done|]. split.
  - transitivity s1; [apply Hrd|by apply switched_frame].
  - destruct Hsw as (c & p & ->). simpl. split; [done|]. eexists.
    by rewrite (rd_threads _ _ _ _ Hrd), lookup_insert_eq.
Qed.
