(* ===== verification/Sem.v ===== *)
(** Semaphores, [rt-thread/src/ipc.c]. *)

From stdpp Require Import base gmap list fin_maps.
From Stdlib Require Import ZArith Lia.
From S2P Require Import Prelude IntrusiveList Ffs Kservice KState Object Sched Timer KInv SchedFacts.
From S2P Require Import TimerFacts Thread Ipc IpcFacts.

Open Scope Z_scope.

Definition rt_sem_init (a : Z) (name : list Z) (value flag : Z) : K Z :=
  rt_object_init (OSem a) ClassSemaphore name;;
  _ ← rt_ipc_object_init (LSem a);
  put_sem a (mk_sem (u8 flag) (u16 value));;
  mret RT_EOK.

Definition rt_sem_detach (a : Z) : K Z :=
  _ ← resume_all (LSem a);
  rt_object_detach (OSem a);;
  mret RT_EOK.

Definition rt_sem_create (block : option Z) (name : list Z) (value flag : Z) : K (option Z) :=
  RT_DEBUG_NOT_IN_INTERRUPT;;
  p ← rt_object_allocate ClassSemaphore name block OSem;
  match p with
  | None => mret None
  | Some a =>
    _ ← rt_ipc_object_init (LSem a);
    put_sem a (mk_sem (u8 flag) (u16 value));;
    mret (Some a)
  end.

Definition rt_sem_delete (a : Z) : K Z :=
  RT_DEBUG_NOT_IN_INTERRUPT;;
  _ ← resume_all (LSem a);
  rt_object_delete (OSem a) a;;
  mret RT_EOK.

(** [rt_sem_take] up to its return or to the context switch. *)
Definition rt_sem_take (a time : Z) : K (call Z unit) :=
  x ← get_sem a;
  if 0 <? sem_value x then
    put_sem a (set_sem_value (u16 (sem_value x - 1)) x);;
    mret (Return RT_EOK)
  else if time =? 0 then mret (Return (- RT_ETIMEOUT))
  else
    RT_DEBUG_IN_THREAD_CONTEXT;;
    t ← self;
    upd_thread t (set_th_error RT_EOK);;
    _ ← rt_ipc_list_suspend (LSem a) t (sem_flag x);
    wait_timer t time;;
    rt_schedule;;
    mret (Wait tt).
(** The code after the switch back, run by the thread [t]. *)
Definition rt_sem_take_resumed (t : Z) : K Z :=
  th ← get_thread t;
  if th_error th =? RT_EOK then mret RT_EOK else mret (th_error th).

Definition rt_sem_trytake (a : Z) : K (call Z unit) := rt_sem_take a 0.

Definition rt_sem_release (a : Z) : K Z :=
  e ← tlist_isempty (LSem a);
  (if (e : bool) then upd_sem a (λ x, set_sem_value (u16 (sem_value x + 1)) x)
   else _ ← rt_ipc_list_resume (LSem a); rt_schedule);;
  mret RT_EOK.

(** [cmd] and [arg] of [rt_sem_control]. *)
Definition rt_sem_control (a cmd arg : Z) : K Z :=
  if cmd =? RT_IPC_CMD_RESET then
    _ ← resume_all (LSem a);
    upd_sem a (set_sem_value (u16 arg));;
    rt_schedule;;
    mret RT_EOK
  else mret (- RT_ERROR).

(** * The abstract counting semaphore

    A count and the queue of threads that wait for it. *)

Record sem_view := SemView { sv_count : Z; sv_waiters : list Z }.

Inductive sem_label :=
  | Acquire (t : Z)   (* [t] takes a unit at once *)
  | Enqueue (t : Z)   (* [t] starts to wait *)
  | Post              (* a unit is added *)
  | Grant (t : Z).    (* a unit is handed to the waiter [t] *)

(** [place] says where a new waiter goes. *)
Inductive sem_step (place : Z → list Z → list Z) : sem_view → sem_label → sem_view → Prop :=
  | sem_acquire n t ws :
      0 < n → sem_step place (SemView n ws) (Acquire t) (SemView (n - 1) ws)
  | sem_enqueue t ws :
      sem_step place (SemView 0 ws) (Enqueue t) (SemView 0 (place t ws))
  | sem_post n :
      n < 2 ^ 16 - 1 → sem_step place (SemView n []) Post (SemView (n + 1) [])
  | sem_grant t ws :
      sem_step place (SemView 0 (t :: ws)) (Grant t) (SemView 0 ws).

Definition view (s : kstate) (a : Z) (x : rt_semaphore) : sem_view :=
  SemView (sem_value x) (l_get (ks_lists s) (LSem a)).

(** The invariant of a semaphore: nobody waits while there are units left. *)
Record sem_ok (s : kstate) (a : Z) (x : rt_semaphore) : Prop := {
  so_range : 0 ≤ sem_value x < 2 ^ 16;
  so_free : 0 < sem_value x → l_get (ks_lists s) (LSem a) = [];
  so_flag : sem_flag x = RT_IPC_FLAG_FIFO ∨ sem_flag x = RT_IPC_FLAG_PRIO;
}.

(** What a call leaves behind: the semaphore is [x'], made by the abstract step
    [l], and the invariants hold. *)
Definition sem_stepped (place : Z → list Z → list Z) (l : sem_label) (a : Z) (x : rt_semaphore)
    (s s' : kstate) : Prop :=
  ∃ x', ks_sems s' = <[a := x']> (ks_sems s) ∧ sem_ok s' a x' ∧ wf s' ∧
    sem_step place (view s a x) l (view s' a x').

(** The place of a new waiter by the flag of the semaphore. *)
Definition sem_place (s : kstate) (x : rt_semaphore) (th : rt_thread) : Z → list Z → list Z :=
  λ t, wait_insert (ks_threads s) (sem_flag x) (th_current_priority th) t.

(** C4. [rt_sem_take] implements the abstract semaphore: with a unit left it takes
    it and returns at once; without one it returns a timeout when asked not to
    wait, and changes nothing; otherwise the calling thread joins the waiting list
    at the place the flag asks for, its timer runs for the given time and another
    thread is switched in.  The invariants hold in each case. *)
Theorem rt_sem_take_refines s t th a x time :
  running s t th → ks_sems s !! a = Some x → sem_ok s a x → time < HALF →
  wp (rt_sem_take a time) (λ r s', match r with
    | Return e =>
        (e = RT_EOK ∧ ks_current s' = Some t ∧ sem_stepped (sem_place s x th) (Acquire t) a x s s') ∨
        (e = - RT_ETIMEOUT ∧ sem_value x = 0 ∧ time = 0 ∧ s' = s)
    | Wait _ => time ≠ 0 ∧ sem_stepped (sem_place s x th) (Enqueue t) a x s s' ∧
        ks_current s' ≠ None ∧ wait_deadline t time s s' ∧
        ks_threads s' !! t = Some (set_th_stat RT_THREAD_SUSPEND (set_th_error RT_EOK th))
    end) s.
Proof.
  intros Hr Hx [Hv Hfree Hfl] Htime. unfold rt_sem_take. wp_step. eapply wp_get_sem; [done|].
  destruct (Z.ltb_spec 0 (sem_value x)) as [Hpos|Hz].
  { repeat wp_step. left. split_and!; [done|apply Hr|].
    unfold u16. rewrite Z.mod_small by lia. eexists. split_and!; [done|split; simpl; auto; lia| |].
    - eapply wf_ext, (rn_wf _ _ _ Hr); done.
    - by constructor. }
  assert (Hv0 : sem_value x = 0) by lia.
  destruct (Z.eqb_spec time 0) as [Ht0|Ht0]; [wp_step; by right|].
  pose proof (running_error _ _ _ RT_EOK Hr) as Hr1. set (s1 := set_ks_threads _ s) in *.
  wp_step. eapply wp_in_thread; [done|]. wp_step. eapply wp_self; [apply Hr|].
  wp_step. eapply wp_upd_thread; [apply Hr|]. fold s1.
  eapply (wp_block_on _ _ s1 (LSem a) t); try done; try apply Hr1; [by eapply running_some|].
  intros s' Hb. wp_step. split; [done|].
  assert (El : l_get (ks_lists s') (LSem a) = sem_place s x th t (l_get (ks_lists s) (LSem a))).
  { rewrite (bk_list _ _ _ _ _ _ _ Hb). unfold sem_place, wait_insert. case_match; [done|].
    apply prio_insert_ext. intros m Hm. apply lookup_insert_ne. intros <-. revert Hm.
    eapply wait_head_notin; try done; try apply Hr. by rewrite (rn_ready _ _ _ Hr). }
  split_and!.
  - exists x. split_and!.
    + rewrite (fr_sems _ _ (bk_frame _ _ _ _ _ _ _ Hb)). simpl. by rewrite insert_id.
    + split; [done|lia|done].
    + apply Hb.
    + unfold view. rewrite El, Hv0. constructor.
  - destruct (bk_current _ _ _ _ _ _ _ Hb) as [[? ->] _]. done.
  - apply Hb.
  - rewrite (bk_threads _ _ _ _ _ _ _ Hb). apply lookup_insert_eq.
Qed.

(** C5. [rt_sem_release] implements the abstract semaphore: it hands the unit to
    the first waiting thread, which becomes ready with its timer stopped, or, when
    nobody waits, adds it to the count, as long as the 16-bit count is not at its
    maximum. *)
Theorem rt_sem_release_refines s a x place :
  wf s → is_Some (ks_current s) → ks_sems s !! a = Some x → sem_ok s a x →
  (l_get (ks_lists s) (LSem a) = [] → sem_value x < 2 ^ 16 - 1) →
  wp (rt_sem_release a) (λ r s', r = RT_EOK ∧ is_Some (ks_current s') ∧
    match l_get (ks_lists s) (LSem a) with
    | [] => sem_stepped place Post a x s s' ∧ ks_threads s' = ks_threads s
    | w :: _ => sem_stepped place (Grant w) a x s s' ∧ picked s' ∧
        (∀ r, TThread w ∉ l_get (ks_rows s') r) ∧
        ∃ th, ks_threads s !! w = Some th ∧
          ks_threads s' = <[w := set_th_stat RT_THREAD_READY th]> (ks_threads s)
    end) s.
Proof.
  intros Hwf Hc Hx [Hv Hfree Hfl] Hmax. unfold rt_sem_release. wp_step. apply wp_tlist_isempty.
  unfold l_isempty. destruct (l_get (ks_lists s) (LSem a)) as [|w l] eqn:El; wp_step.
  - eapply wp_upd_sem; [done|]. wp_step. unfold u16. specialize (Hmax eq_refl).
    rewrite Z.mod_small by lia. split_and!; [done|done| |done]. eexists.
    split_and!; [done|split; simpl; auto; lia| |].
    + by eapply wf_ext, Hwf.
    + unfold view. simpl. rewrite El. by constructor.
  - eapply wp_mono; [by eapply wake_first_spec|].
    intros ? s' (th & s1 & Ht & Hst & Hrd & Hsw & Hwf' & Hc' & Hpk). wp_step.
    destruct (readied_front s s1 (LSem a) w l th Hwf I El Hrd) as [El1 _].
    destruct Hsw as (c & p & ->). assert (Hv0 : sem_value x = 0).
    { destruct (decide (sem_value x = 0)); [done|]. by specialize (Hfree ltac:(lia)). }
    destruct (rd_quiet _ _ _ _ Hrd) as (Hfr & _). split_and!; try done.
    + exists x. split_and!; [|split; simpl; rewrite ?El1; [done|lia|done]|done|].
      * simpl. rewrite (fr_sems _ _ Hfr). by rewrite insert_id.
      * unfold view. simpl. rewrite El, El1, Hv0. constructor.
    + intros r. simpl. rewrite (rd_rows _ _ _ _ Hrd), list_elem_of_filter. naive_solver.
    + exists th. split; [done|]. apply Hrd.
Qed.

(** Resetting a semaphore ([rt_sem_control] with [RT_IPC_CMD_RESET]) empties its
    waiting list: every thread that waited becomes ready and its interrupted
    [rt_sem_take] returns an error; the count is the new value.  Any other command
    is refused and changes nothing. *)
Theorem rt_sem_control_reset s a x cmd arg :
  wf s → is_Some (ks_current s) → some_ready s → ks_sems s !! a = Some x → sem_ok s a x →
  wp (rt_sem_control a cmd arg) (λ r s',
    if cmd =? RT_IPC_CMD_RESET then
      r = RT_EOK ∧ wf s' ∧ ks_sems s' = <[a := set_sem_value (u16 arg) x]> (ks_sems s) ∧
      sem_ok s' a (set_sem_value (u16 arg) x) ∧ l_get (ks_lists s') (LSem a) = [] ∧
      ∀ t, t ∈ l_get (ks_lists s) (LSem a) →
        wp (rt_sem_take_resumed t) (λ e s'', e = - RT_ERROR ∧ s'' = s') s' ∧
        ∃ th, ks_threads s' !! t = Some th ∧ th_stat th = RT_THREAD_READY
    else r = - RT_ERROR ∧ s' = s) s.
Proof.
  intros Hwf Hc Hsr Hx [Hv Hfree Hfl]. unfold rt_sem_control.
  destruct (cmd =? RT_IPC_CMD_RESET); [|by wp_step].
  wp_step. eapply wp_mono; [by apply (resume_all_drains s (LSem a))|].
  intros ? s1 [_ Hdr]. wp_step. destruct (dr_quiet _ _ _ Hdr) as (Hfr & Hcur & _).
  eapply wp_upd_sem; [by rewrite (fr_sems _ _ Hfr)|]. wp_step.
  set (s2 := set_ks_sems _ s1).
  assert (Hsr2 : some_ready s2).
  { destruct Hsr as (t & th & Ht & Hst). exists t, th. split; [|done]. simpl.
    rewrite (dr_rest _ _ _ Hdr); [done|].
    eapply (wait_head_notin s (LSem a)); [done|done|exact Ht|by rewrite Hst]. }
  eapply wp_mono; [apply (schedule_ready_spec s2); [by eapply wf_ext, (dr_wf _ _ _ Hdr)|done|by simpl; rewrite Hcur]|].
  intros ? s3 ((c & p & ->) & Hc3 & _). wp_step. split_and!; simpl; try done.
  - eapply wf_ext, (dr_wf _ _ _ Hdr); done.
  - by rewrite (fr_sems _ _ Hfr).
  - split; simpl; [apply Z.mod_pos_bound; lia| |done]. intros _. apply Hdr.
  - apply Hdr.
  - intros t Hin. destruct (wf_home _ Hwf _ _ Hin) as (th & Ht & _).
    pose proof (dr_woken _ _ _ Hdr _ _ Hin Ht) as Hw. split; [|eauto].
    unfold rt_sem_take_resumed. wp_step. eapply wp_get_thread; [done|]. by wp_step.
Qed.
