(* ===== verification/Mutex.v ===== *)
(** Mutexes with priority inheritance, [rt-thread/src/ipc.c]. *)

From stdpp Require Import base gmap list fin_maps.
From Stdlib Require Import ZArith Lia.
From S2P Require Import Prelude IntrusiveList Ffs Kservice KState Object Sched Timer KInv SchedFacts.
From S2P Require Import TimerFacts Thread Ipc IpcFacts.

Open Scope Z_scope.

Definition new_mutex (flag : Z) : rt_mutex := mk_mutex (u8 flag) 1 0xff 0 None.

Definition rt_mutex_init (a : Z) (name : list Z) (flag : Z) : K Z :=
  rt_object_init (OMutex a) ClassMutex name;;
  _ ← rt_ipc_object_init (LMutex a);
  put_mutex a (new_mutex flag);;
  mret RT_EOK.

Definition rt_mutex_detach (a : Z) : K Z :=
  _ ← resume_all (LMutex a);
  rt_object_detach (OMutex a);;
  mret RT_EOK.

Definition rt_mutex_create (block : option Z) (name : list Z) (flag : Z) : K (option Z) :=
  RT_DEBUG_NOT_IN_INTERRUPT;;
  p ← rt_object_allocate ClassMutex name block OMutex;
  match p with
  | None => mret None
  | Some a =>
    _ ← rt_ipc_object_init (LMutex a);
    put_mutex a (new_mutex flag);;
    mret (Some a)
  end.

Definition rt_mutex_delete (a : Z) : K Z :=
  RT_DEBUG_NOT_IN_INTERRUPT;;
  _ ← resume_all (LMutex a);
  rt_object_delete (OMutex a) a;;
  mret RT_EOK.

(** The mutex once the thread [t] of priority [p] has taken it. *)
Definition mutex_acquire (t p : Z) (x : rt_mutex) : rt_mutex :=
  set_mtx_hold (u8 (mtx_hold x + 1)) (set_mtx_original_priority p (set_mtx_owner (Some t) x)).

(** The wait of [rt_mutex_take]: the owner inherits the priority of [t]. *)
Definition mutex_wait (a t time : Z) (x : rt_mutex) : K (call Z unit) :=
  th ← get_thread t;
  o ← of_option BadPointer (mtx_owner x);
  oth ← get_thread o;
  when (th_current_priority th <? th_current_priority oth)
    (change_priority o (th_current_priority th));;
  _ ← rt_ipc_list_suspend (LMutex a) t (mtx_flag x);
  wait_timer t time;;
  rt_schedule;;
  mret (Wait tt).

Definition rt_mutex_take (a time : Z) : K (call Z unit) :=
  c ← rt_thread_self;
  match c with
  | None => mret (Return RT_EOK)
  | Some t =>
    RT_DEBUG_IN_THREAD_CONTEXT;;
    upd_thread t (set_th_error RT_EOK);;
    x ← get_mutex a;
    if decide (mtx_owner x = Some t) then
      put_mutex a (set_mtx_hold (u8 (mtx_hold x + 1)) x);;
      mret (Return RT_EOK)
    else if 0 <? mtx_value x then
      th ← get_thread t;
      put_mutex a (mutex_acquire t (th_current_priority th)
        (set_mtx_value (u16 (mtx_value x - 1)) x));;
      mret (Return RT_EOK)
    else if time =? 0 then
      upd_thread t (set_th_error (- RT_ETIMEOUT));;
      mret (Return (- RT_ETIMEOUT))
    else mutex_wait a t time x
  end.
Definition rt_mutex_take_resumed (t : Z) : K Z :=
  th ← get_thread t;
  if th_error th =? RT_EOK then mret RT_EOK else mret (th_error th).

(** The end of ownership in [rt_mutex_release], once the hold count is zero: the
    owner [t] gets its priority back and the mutex is handed to the first
    waiting thread or becomes free. *)
Definition mutex_handover (a t : Z) : K unit :=
  x ← get_mutex a;
  oth ← get_thread t;
  when (negb (mtx_original_priority x =? th_current_priority oth))
    (change_priority t (mtx_original_priority x));;
  e ← tlist_isempty (LMutex a);
  if (e : bool) then
    upd_mutex a (λ x, set_mtx_original_priority 0xff (set_mtx_owner None (
      set_mtx_value (u16 (mtx_value x + 1)) x)))
  else
    w ← tlist_first (LMutex a);
    wth ← get_thread w;
    upd_mutex a (mutex_acquire w (th_current_priority wth));;
    _ ← rt_ipc_list_resume (LMutex a);
    rt_schedule.

Definition rt_mutex_release (a : Z) : K Z :=
  c ← rt_thread_self;
  match c with
  | None => mret RT_EOK
  | Some t =>
    RT_DEBUG_IN_THREAD_CONTEXT;;
    x ← get_mutex a;
    if decide (mtx_owner x = Some t) then
      put_mutex a (set_mtx_hold (u8 (mtx_hold x - 1)) x);;
      x ← get_mutex a;
      when (mtx_hold x =? 0) (mutex_handover a t);;
      mret RT_EOK
    else
      upd_thread t (set_th_error (- RT_ERROR));;
      mret (- RT_ERROR)
  end.

Definition rt_mutex_control (a cmd arg : Z) : K Z := mret (- RT_ERROR).

(** * The invariant of a mutex *)

(** A mutex is free, or held by a thread that does not wait for it; the threads
    that wait for it all wait in an [rt_mutex_take] that has not failed. *)
Inductive mutex_phase (s : kstate) (a : Z) (x : rt_mutex) : Prop :=
  | mutex_free :
      mtx_value x = 1 → mtx_owner x = None → mtx_hold x = 0 →
      l_get (ks_lists s) (LMutex a) = [] → mutex_phase s a x
  | mutex_held o oth :
      mtx_value x = 0 → mtx_owner x = Some o → 0 < mtx_hold x < 2 ^ 8 →
      0 ≤ mtx_original_priority x < RT_THREAD_PRIORITY_MAX →
      ks_threads s !! o = Some oth → th_stat oth ≠ RT_THREAD_INIT →
      o ∉ l_get (ks_lists s) (LMutex a) → mutex_phase s a x.

Record mutex_ok (s : kstate) (a : Z) (x : rt_mutex) : Prop := {
  mo_phase : mutex_phase s a x;
  mo_flag : mtx_flag x = RT_IPC_FLAG_FIFO ∨ mtx_flag x = RT_IPC_FLAG_PRIO;
  mo_waiters w : w ∈ l_get (ks_lists s) (LMutex a) →
    ∃ th, ks_threads s !! w = Some th ∧ th_error th = RT_EOK;
}.

Lemma mutex_ok_init s a flag :
  flag = RT_IPC_FLAG_FIFO ∨ flag = RT_IPC_FLAG_PRIO →
  l_get (ks_lists s) (LMutex a) = [] → mutex_ok s a (new_mutex flag).
Proof.
  intros Hfl El. split; [by apply mutex_free| |].
  - by destruct Hfl as [-> | ->]; [left|right].
  - rewrite El. by intros w ?%not_elem_of_nil.
Qed.

(** ** Priority changes *)

(** The priority of [o] is changed to [p] if [b] says so. *)
Record repriced (b : bool) (o p : Z) (oth : rt_thread) (s s' : kstate) : Prop := {
  rc_wf : wf s';
  rc_threads : ks_threads s' = <[o := if b then set_priority p oth else oth]> (ks_threads s);
  rc_quiet : quiet s s';
  rc_waits h : wait_head h → l_get (ks_lists s') h = l_get (ks_lists s) h;
}.

Lemma reprioritised_waits o p oth s s' h :
  wf s → ks_threads s !! o = Some oth → reprioritised o p oth s s' → wait_head h →
  l_get (ks_lists s') h = l_get (ks_lists s) h.
Proof.
  intros Hwf Ho Hrp Hh. rewrite (rp_lists _ _ _ _ _ Hrp).
  destruct (Z.eqb_spec (th_stat oth) RT_THREAD_READY) as [Hst|]; [|done].
  rewrite decide_False, app_nil_r, filter_ne_notin; [done| |by intros ->].
  eapply wait_head_notin; [done|done|done|by rewrite Hst].
Qed.

Lemma reprice_spec b s o oth p :
  wf s → ks_threads s !! o = Some oth → th_stat oth ≠ RT_THREAD_INIT →
  0 ≤ p < RT_THREAD_PRIORITY_MAX →
  wp (when b (change_priority o p)) (λ _, repriced b o p oth s) s.
Proof.
  intros Hwf Ho Hst Hp. unfold when. destruct b.
  - eapply wp_mono; [by apply (change_priority_spec s o p oth Hwf)|]. intros ? s' Hrp.
    split; [apply Hrp..|]. intros h Hh. by apply (reprioritised_waits o p oth s s' h).
  - wp_step. split; try done. by rewrite insert_id.
Qed.

Lemma running_repriced b o p oth s s' t th :
  repriced b o p oth s s' → o ≠ t → ks_threads s !! o = Some oth →
  running s t th → running s' t th.
Proof.
  intros [Hwf' Et (Hfr & Hc & _) _] Hne Ho [Hwf Hcur Ht Hst (t' & th' & Hne' & Ht' & Hst') Hi].
  split; [done|congruence| |done| |by rewrite (fr_irq _ _ Hfr)].
  - by rewrite Et, lookup_insert_ne.
  - destruct (decide (t' = o)) as [->|].
    + exists o, (if b then set_priority p oth else oth). rewrite Et, lookup_insert_eq.
      split_and!; [done..|]. destruct b; simpl; congruence.
    + exists t', th'. by rewrite Et, lookup_insert_ne.
Qed.

(** Priority inheritance: what waiting for a mutex held by [o] does before the
    thread is suspended. *)
Definition inherits (o p : Z) (oth : rt_thread) : kstate → kstate → Prop :=
  repriced (p <? th_current_priority oth) o p oth.

(** ** Taking *)

Lemma mutex_ok_mono s s' a x :
  mutex_ok s a x → l_get (ks_lists s') (LMutex a) = l_get (ks_lists s) (LMutex a) →
  (∀ t th, ks_threads s !! t = Some th → ∃ th', ks_threads s' !! t = Some th' ∧
    (th_stat th ≠ RT_THREAD_INIT → th_stat th' ≠ RT_THREAD_INIT) ∧
    (t ∈ l_get (ks_lists s) (LMutex a) → th_error th' = th_error th)) →
  mutex_ok s' a x.
Proof.
  intros [Hph Hfl Hw] El Hth. split; [|done|].
  - destruct Hph as [? ? ? ?|o oth ? ? ? ? Ho Hst ?]; [apply mutex_free; congruence|].
    destruct (Hth _ _ Ho) as (oth' & ? & ? & _). eapply (mutex_held _ _ _ o oth'); try done; [auto|congruence].
  - intros w. rewrite El. intros Hin. destruct (Hw w Hin) as (th & Ht & He).
    destruct (Hth _ _ Ht) as (th' & ? & _ & He'). exists th'. split; [done|]. rewrite He'; done.
Qed.

(** The error code of a running thread does not matter to the invariant. *)
Lemma mutex_ok_error s t th e a x :
  running s t th → mutex_ok s a x →
  mutex_ok (set_ks_threads (<[t := set_th_error e th]> (ks_threads s)) s) a x.
Proof.
  intros Hr Hok. eapply mutex_ok_mono; [done|done|]. intros t' th' Ht'. simpl.
  rewrite lookup_insert. case_decide; [subst t'|by eauto].
  assert (th' = th) as -> by (pose proof (rn_thread _ _ _ Hr); congruence).
  eexists. split_and!; [done|done|]. intros Hin. exfalso. revert Hin.
  eapply wait_head_notin; [apply Hr|done|apply Hr|by rewrite (rn_ready _ _ _ Hr)].
Qed.

Lemma put_mutex_ok s a x' :
  mutex_ok s a x' → mutex_ok (set_ks_mutexes (<[a := x']> (ks_mutexes s)) s) a x'.
Proof. intros [[]]; split; try done; [by apply mutex_free|by eapply mutex_held]. Qed.

Lemma mutex_recursive s a x t :
  mutex_ok s a x → mtx_owner x = Some t → mtx_hold x < 2 ^ 8 - 1 →
  mutex_ok s a (set_mtx_hold (mtx_hold x + 1) x).
Proof.
  intros [Hph Hfl Hw] Ho Hh. split; [|done|done].
  destruct Hph as [? ? ? ?|o oth ? ? ? ? ? ? ?]; [congruence|].
  eapply (mutex_held _ _ _ o oth); simpl; try done; lia.
Qed.

Lemma mutex_acquired s a x t th :
  running s t th → mutex_ok s a x → mtx_value x = 1 →
  mutex_ok s a (mk_mutex (mtx_flag x) 0 (th_current_priority th) 1 (Some t)).
Proof.
  intros Hr [Hph Hfl Hw] Hv. destruct Hph as [? ? ? El|]; [|congruence]. split; [|done|done].
  assert (th_stat th ≠ RT_THREAD_INIT) by (by rewrite (rn_ready _ _ _ Hr)).
  eapply (mutex_held _ _ _ t th); simpl; try done; try apply Hr.
  - eapply wf_prio; [apply Hr|apply Hr|done].
  - rewrite El. apply not_elem_of_nil.
Qed.

(** A wait on a mutex, once the owner has inherited the priority. *)
Lemma mutex_blocked s s1 s' a x o oth t th time :
  running s t th → mutex_ok s a x → mtx_owner x = Some o → o ≠ t → th_error th = RT_EOK →
  ks_threads s !! o = Some oth → inherits o (th_current_priority th) oth s s1 →
  blocked (LMutex a) t (mtx_flag x) time th s1 s' →
  mutex_ok s' a x ∧
  l_get (ks_lists s') (LMutex a) = wait_insert (ks_threads s) (mtx_flag x) (th_current_priority th) t
    (l_get (ks_lists s) (LMutex a)) ∧
  prio_of (ks_threads s') o = Z.min (prio_of (ks_threads s) o) (th_current_priority th).
Proof.
  intros Hr [Hph Hfl Hw] Ho Hne Herr Hoth [_ Et1 Hq1 Ew1] [_ Et' El' _ _ _ _ _].
  destruct Hph as [? ? ? ?|o' oth' Hv Ho' Hh Hop Hoth' Hst Hnin]; [congruence|].
  assert (o' = o) as -> by congruence. assert (oth' = oth) as -> by congruence.
  rewrite Ew1 in El' by done.
  assert (Hins : wait_insert (ks_threads s1) (mtx_flag x) (th_current_priority th) t
      (l_get (ks_lists s) (LMutex a)) = wait_insert (ks_threads s) (mtx_flag x)
      (th_current_priority th) t (l_get (ks_lists s) (LMutex a))).
  { unfold wait_insert. destruct (mtx_flag x =? RT_IPC_FLAG_FIFO); [done|]. apply prio_insert_ext. intros m Hm.
    rewrite Et1. apply lookup_insert_ne. congruence. }
  rewrite Hins in El'. split_and!; [|done|].
  - split; [|done|].
    + eapply (mutex_held _ _ _ o (if th_current_priority th <? th_current_priority oth
        then set_priority (th_current_priority th) oth else oth)); try done.
      * rewrite Et', lookup_insert_ne, Et1 by done. apply lookup_insert_eq.
      * by destruct (_ <? _).
      * rewrite El', wait_insert_perm. set_solver.
    + intros w. rewrite El', wait_insert_perm, elem_of_cons, Et', lookup_insert.
      intros [->|Hin]; [rewrite decide_True by done; eauto|].
      case_decide; [eauto|]. rewrite Et1, lookup_insert_ne by congruence. auto.
  - unfold prio_of. rewrite Et', lookup_insert_ne, Et1, lookup_insert_eq, Hoth by done. simpl.
    destruct (Z.ltb_spec (th_current_priority th) (th_current_priority oth)); simpl; lia.
Qed.

Definition mutex_waits (a t time : Z) (x : rt_mutex) (th : rt_thread) (s s' : kstate) : Prop :=
  time ≠ 0 ∧ wait_deadline t time s s' ∧
  l_get (ks_lists s') (LMutex a) = wait_insert (ks_threads s) (mtx_flag x)
    (th_current_priority th) t (l_get (ks_lists s) (LMutex a)) ∧
  ∃ o, mtx_owner x = Some o ∧ o ≠ t ∧
    prio_of (ks_threads s') o = Z.min (prio_of (ks_threads s) o) (th_current_priority th).

Lemma mutex_wait_spec s t th a x o time :
  running s t th → mutex_ok s a x → mtx_owner x = Some o → o ≠ t → th_error th = RT_EOK →
  time ≠ 0 → time < HALF →
  wp (mutex_wait a t time x) (λ r s', r = Wait tt ∧ wf s' ∧ ks_mutexes s' = ks_mutexes s ∧
    mutex_ok s' a x ∧ mutex_waits a t time x th s s') s.
Proof.
  intros Hr Hok Ho Hne He Ht0 Htime.
  assert (∃ oth, ks_threads s !! o = Some oth ∧ th_stat oth ≠ RT_THREAD_INIT) as (oth & Hoth & Hst).
  { destruct (mo_phase _ _ _ Hok); [congruence|]. simplify_eq. eauto. }
  unfold mutex_wait. wp_step. eapply wp_get_thread; [apply Hr|]. wp_step. eapply wp_option; [done|].
  wp_step. eapply wp_get_thread; [done|]. wp_step.
  assert (Hpr : 0 ≤ th_current_priority th < RT_THREAD_PRIORITY_MAX).
  { eapply wf_prio; [apply Hr|apply Hr|by rewrite (rn_ready _ _ _ Hr)]. }
  eapply wp_mono; [by eapply reprice_spec; try done; apply Hr|]. intros ? s2 Hih.
  pose proof (running_repriced _ _ _ _ _ _ _ _ Hih Hne Hoth Hr) as Hr2.
  eapply (wp_block_on _ _ s2 (LMutex a) t th); try done; try apply Hr2; [apply Hok|by eapply running_some|].
  intros s' Hb. wp_step. pose proof Hih as [_ _ Hq2 _].
  destruct (mutex_blocked s s2 s' a x o oth t th time) as (Hok' & El' & Hpo); try done.
  split_and!; [done|apply Hb| |done|].
  - by rewrite (fr_mutexes _ _ (bk_frame _ _ _ _ _ _ _ Hb)), (fr_mutexes _ _ (proj1 Hq2)).
  - pose proof (bk_deadline _ _ _ _ _ _ _ Hb) as Hd. unfold wait_deadline in *.
    rewrite (fr_tick _ _ (proj1 Hq2)) in Hd. split_and!; [done|done|done|]. by exists o.
Qed.

Lemma wait_insert_running s t th flag h e :
  running s t th → wait_head h →
  wait_insert (<[t := set_th_error e th]> (ks_threads s)) flag (th_current_priority th) t (l_get (ks_lists s) h) =
  wait_insert (ks_threads s) flag (th_current_priority th) t (l_get (ks_lists s) h).
Proof.
  intros Hr Hh. unfold wait_insert. destruct (_ =? _); [done|]. apply prio_insert_ext. intros m Hm.
  apply lookup_insert_ne. intros <-. revert Hm.
  eapply wait_head_notin; [apply Hr|done|apply Hr|by rewrite (rn_ready _ _ _ Hr)].
Qed.

(** C2. [rt_mutex_take] on every branch.  The owner takes the mutex again by
    counting; a free mutex becomes owned, with the priority of its owner recorded;
    a held one is refused when the caller does not want to wait.  Otherwise the
    caller joins the waiting list and the owner inherits its priority: it runs with
    at least the priority of the thread that waits for it.  The invariants of the
    mutex and of the kernel hold in each case. *)
Theorem rt_mutex_take_correct s t th a x time :
  running s t th → ks_mutexes s !! a = Some x → mutex_ok s a x → time < HALF →
  (mtx_owner x = Some t → mtx_hold x < 2 ^ 8 - 1) →
  wp (rt_mutex_take a time) (λ r s', wf s' ∧ ∃ x', ks_mutexes s' = <[a := x']> (ks_mutexes s) ∧
    mutex_ok s' a x' ∧ match r with
    | Return e => ks_current s' = Some t ∧
        ((e = RT_EOK ∧ mtx_owner x = Some t ∧ x' = set_mtx_hold (mtx_hold x + 1) x) ∨
         (e = RT_EOK ∧ mtx_owner x = None ∧
          x' = mk_mutex (mtx_flag x) 0 (th_current_priority th) 1 (Some t)) ∨
         (e = - RT_ETIMEOUT ∧ time = 0 ∧ mtx_owner x ≠ Some t ∧ mtx_owner x ≠ None ∧ x' = x))
    | Wait _ => x' = x ∧ mutex_waits a t time x th s s'
    end) s.
Proof.
  intros Hr Hx Hok Htime Hhold. unfold rt_mutex_take, rt_thread_self. do 4 wp_step.
  rewrite (rn_current _ _ _ Hr). wp_step. eapply wp_in_thread; [done|]. wp_step.
  eapply wp_upd_thread; [apply Hr|].
  pose proof (running_error _ _ _ RT_EOK Hr) as Hr1.
  pose proof (mutex_ok_error _ _ _ RT_EOK _ _ Hr Hok) as Hok1.
  set (th1 := set_th_error RT_EOK th) in *. set (s1 := set_ks_threads _ s) in *.
  wp_step. eapply wp_get_mutex; [done|]. case_decide as Hown.
  { repeat wp_step. split; [by eapply wf_ext, (rn_wf _ _ _ Hr1)|]. unfold u8.
    pose proof (mutex_recursive _ _ _ _ Hok1 Hown (Hhold Hown)) as Hok'.
    destruct (mo_phase _ _ _ Hok) as [|? ? ? ? Hh]; [congruence|].
    specialize (Hhold Hown). rewrite Z.mod_small by lia. eexists. split_and!; [done|by apply put_mutex_ok|apply Hr|by left]. }
  destruct (mo_phase _ _ _ Hok) as [Hv Ho Hh El|o oth Hv Ho Hh Hop Hoth Hst Hnin]; rewrite Hv.
  { simpl. wp_step. eapply wp_get_thread; [apply Hr1|]. repeat wp_step.
    split; [by eapply wf_ext, (rn_wf _ _ _ Hr1)|].
    pose proof (mutex_acquired _ _ _ _ _ Hr1 Hok1 Hv) as Hok'.
    set (x' := mk_mutex _ _ _ _ _) in Hok'.
    assert (Ex : mutex_acquire t (th_current_priority th1) (set_mtx_value (u16 (1 - 1)) x) = x').
    { unfold mutex_acquire. simpl. by rewrite Hh. }
    rewrite Ex. exists x'. split_and!; [done|by apply put_mutex_ok|apply Hr|right; left; by split_and!]. }
  simpl. destruct (Z.eqb_spec time 0) as [Ht0|Ht0].
  { wp_step. eapply wp_upd_thread; [apply Hr1|]. wp_step.
    split; [by apply wf_set_error; [apply Hr1|apply Hr1]|]. exists x. simpl.
    split_and!; [by rewrite insert_id|by apply (mutex_ok_error s1 t th1)|apply Hr|].
    right; right. split_and!; [done|done|congruence|congruence|done]. }
  assert (Hne : o ≠ t) by congruence.
  eapply wp_mono; [by apply (mutex_wait_spec s1 t th1 a x o)|].
  intros r s' (-> & Hwf' & Em & Hok' & _ & Hd & El' & o' & Ho' & _ & Hpo).
  assert (o' = o) as -> by congruence.
  split; [done|]. exists x. split_and!; [by rewrite Em; simpl; rewrite insert_id|done|done|].
  split_and!; [done|done| |].
  { rewrite El'. by apply (wait_insert_running s t th (mtx_flag x) (LMutex a) RT_EOK). }
  exists o. split_and!; [done|done|]. rewrite Hpo. unfold prio_of. simpl. by rewrite lookup_insert_ne.
Qed.

(** ** Releasing *)

(** The first waiter becomes the owner. *)
Lemma mutex_granted s s' a x t w ws wth :
  wf s → mutex_ok s a x → mtx_owner x = Some t → l_get (ks_lists s) (LMutex a) = w :: ws →
  ks_threads s !! w = Some wth → th_stat wth = RT_THREAD_SUSPEND →
  (∀ u, u ≠ t → u ≠ w → ks_threads s' !! u = ks_threads s !! u) →
  ks_threads s' !! w = Some (set_th_stat RT_THREAD_READY wth) →
  l_get (ks_lists s') (LMutex a) = ws →
  mutex_ok s' a (mk_mutex (mtx_flag x) 0 (th_current_priority wth) 1 (Some w)).
Proof.
  intros Hwf [Hph Hfl Hw] Ho El Hwt Hst Hrest Hw' El'.
  destruct Hph as [|o oth Hv Ho' Hh Hop Hoth Hso Hnin]; [congruence|]. assert (o = t) as -> by congruence.
  pose proof (ok_nodup _ (wf_lists _ Hwf) (LMutex a)) as Hnd. rewrite El in *.
  apply NoDup_cons in Hnd as [Hnw _]. split; [|done|].
  - eapply (mutex_held _ _ _ w); simpl; try done; [|by rewrite El'].
    eapply wf_prio; [exact Hwf|exact Hwt|by rewrite Hst].
  - rewrite El'. intros u Hu. rewrite Hrest; [apply Hw; set_solver|set_solver..].
Qed.

Record handed_over (a t : Z) (x : rt_mutex) (s s' : kstate) : Prop := {
  ho_wf : wf s';
  ho_current : is_Some (ks_current s');
  ho_restored : prio_of (ks_threads s') t = mtx_original_priority x;
  ho_mutex : ∃ x', ks_mutexes s' = <[a := x']> (ks_mutexes s) ∧ mutex_ok s' a x' ∧
    match l_get (ks_lists s) (LMutex a) with
    | [] => x' = mk_mutex (mtx_flag x) 1 0xff 0 None
    | w :: ws => mtx_owner x' = Some w ∧ mtx_hold x' = 1 ∧
        mtx_original_priority x' = prio_of (ks_threads s) w ∧ l_get (ks_lists s') (LMutex a) = ws ∧
        wp (rt_mutex_take_resumed w) (λ e s'', e = RT_EOK ∧ s'' = s') s' ∧
        ∃ wth, ks_threads s' !! w = Some wth ∧ th_stat wth = RT_THREAD_READY
    end;
}.

(** What is left of the hand-over when the old owner has its priority back, the
    state being [s1]. *)
Section handover.
Context (s s1 : kstate) (a t : Z) (x : rt_mutex) (th : rt_thread) (b : bool).
Context (Hwf : wf s) (Hok : mutex_ok s a x) (Hc : is_Some (ks_current s)) (Ho : mtx_owner x = Some t).
Context (Hx : ks_mutexes s !! a = Some (set_mtx_hold 0 x)) (Hv : mtx_value x = 0).
Context (Hnin : t ∉ l_get (ks_lists s) (LMutex a)).
Context (Hrc : repriced b t (mtx_original_priority x) th s s1).
Context (Hb : b = negb (mtx_original_priority x =? th_current_priority th)).

Lemma restored T :
  T !! t = Some (if b then set_priority (mtx_original_priority x) th else th) →
  prio_of T t = mtx_original_priority x.
Proof.
  intros HT. unfold prio_of. rewrite HT, Hb. simpl.
  destruct (Z.eqb_spec (mtx_original_priority x) (th_current_priority th)); simpl; done.
Qed.

Lemma mutex_freed :
  l_get (ks_lists s) (LMutex a) = [] →
  wp (upd_mutex a (λ x, set_mtx_original_priority 0xff (set_mtx_owner None (
    set_mtx_value (u16 (mtx_value x + 1)) x)))) (λ _, handed_over a t x s) s1.
Proof.
  intros El. destruct Hrc as [Hwf1 Et1 (Hfr1 & Hc1 & _) Ew1].
  eapply wp_upd_mutex; [by rewrite (fr_mutexes _ _ Hfr1)|].
  set (x' := set_mtx_original_priority _ _).
  assert (Ex' : x' = mk_mutex (mtx_flag x) 1 0xff 0 None) by (unfold x'; simpl; by rewrite Hv).
  split; simpl.
  - by eapply wf_ext, Hwf1.
  - by rewrite Hc1.
  - apply restored. by rewrite Et1, lookup_insert_eq.
  - rewrite (fr_mutexes _ _ Hfr1), El. exists x'. split_and!; [done| |done]. rewrite Ex'.
    split; [apply mutex_free; try done; simpl; by rewrite Ew1|apply Hok|].
    simpl. rewrite Ew1, El by done. by intros w ?%not_elem_of_nil.
Qed.

Lemma mutex_woken w ws wth :
  l_get (ks_lists s) (LMutex a) = w :: ws → ks_threads s1 !! w = Some wth →
  wp (upd_mutex a (mutex_acquire w (th_current_priority wth));;
      _ ← rt_ipc_list_resume (LMutex a); rt_schedule) (λ _, handed_over a t x s) s1.
Proof.
  intros El Hw1. destruct Hrc as [Hwf1 Et1 (Hfr1 & Hc1 & _) Ew1].
  assert (El1 : l_get (ks_lists s1) (LMutex a) = w :: ws) by (rewrite Ew1; done).
  assert (Hwt : w ≠ t).
  { intros ->. apply Hnin. rewrite El. by left. }
  assert (Hw : ks_threads s !! w = Some wth) by (by rewrite Et1, lookup_insert_ne in Hw1).
  wp_step. eapply wp_upd_mutex; [by rewrite (fr_mutexes _ _ Hfr1)|].
  set (x' := mutex_acquire _ _ _). set (s2 := set_ks_mutexes _ s1).
  assert (Ex' : x' = mk_mutex (mtx_flag x) 0 (th_current_priority wth) 1 (Some w)).
  { unfold x', mutex_acquire, set_mtx_hold, set_mtx_original_priority, set_mtx_owner. simpl. by rewrite Hv. }
  assert (Hwf2 : wf s2) by (by eapply wf_ext, Hwf1).
  eapply wp_mono; [eapply (wake_first_spec s2 (LMutex a) w ws); try done; by simpl; rewrite Hc1|].
  intros ? s' (th' & s3 & Hw2 & Hsw & Hrd & Hsw' & Hwf' & Hc' & _).
  assert (th' = wth) as -> by (simpl in Hw2; congruence).
  destruct (readied_front s2 s3 (LMutex a) w ws wth Hwf2 I El1 Hrd) as [El3 _].
  destruct Hrd as [_ Et3 _ (Hfr3 & _) _ _]. destruct Hsw' as (c & p & ->). simpl in Et3.
  assert (Hw3 : ks_threads s3 !! w = Some (set_th_stat RT_THREAD_READY wth)).
  { by rewrite Et3, lookup_insert_eq. }
  split; simpl; [done|done| |].
  { apply restored. by rewrite Et3, lookup_insert_ne, Et1, lookup_insert_eq by done. }
  exists x'. rewrite El, (fr_mutexes _ _ Hfr3). simpl. rewrite (fr_mutexes _ _ Hfr1), Ex'.
  split_and!; try done; [| | |eauto].
  - eapply (mutex_granted s _ a x t w ws wth); try done.
    intros u Hut Huw. simpl. by rewrite Et3, lookup_insert_ne, Et1, lookup_insert_ne by done.
  - simpl. unfold prio_of. by rewrite Hw.
  - unfold rt_mutex_take_resumed. wp_step. eapply wp_get_thread; [done|]. simpl.
    destruct (mo_waiters _ _ _ Hok w) as (wth' & Hw' & He); [rewrite El; by left|].
    assert (wth' = wth) as -> by congruence. rewrite He. by wp_step.
Qed.
End handover.

(** The hand-over of a mutex whose hold count just fell to zero; [x] is the mutex
    before the release. *)
Lemma mutex_handover_spec s a t th x :
  wf s → is_Some (ks_current s) → ks_threads s !! t = Some th → th_stat th ≠ RT_THREAD_INIT →
  ks_mutexes s !! a = Some (set_mtx_hold 0 x) → mutex_ok s a x → mtx_owner x = Some t →
  wp (mutex_handover a t) (λ _, handed_over a t x s) s.
Proof.
  intros Hwf Hc Ht Hst Hx Hok Ho. unfold mutex_handover. wp_step. eapply wp_get_mutex; [done|].
  wp_step. eapply wp_get_thread; [done|]. wp_step. simpl.
  destruct (mo_phase _ _ _ Hok) as [|o oth Hv Ho' Hh Hop Hoth Hso Hnin]; [congruence|].
  assert (o = t) as -> by congruence. clear oth Hoth Hso.
  eapply wp_mono; [by eapply reprice_spec|]. cbv beta. intros ? s1 Hrc.
  pose proof Hrc as [Hwf1 _ _ Ew1].
  wp_step. apply wp_tlist_isempty. unfold l_isempty. rewrite Ew1 by done.
  destruct (l_get (ks_lists s) (LMutex a)) as [|w ws] eqn:El.
  { by eapply (mutex_freed s s1 a t x th). }
  assert (El1 : l_get (ks_lists s1) (LMutex a) = w :: ws) by (rewrite Ew1; done).
  destruct (wf_home _ Hwf1 (LMutex a) w ltac:(rewrite El1; set_solver)) as (wth & Hw & _).
  wp_step. eapply wp_tlist_first; [done|]. wp_step. eapply wp_get_thread; [done|].
  eapply mutex_woken; try done. by rewrite El.
Qed.

(** C3. [rt_mutex_release] on every branch.  Only the owner may release: any other
    thread gets an error.  Releases balance takes: the mutex is kept until the
    last one.  The last one gives the owner back the priority it had when it took
    the mutex and hands the mutex to the first waiting thread, which becomes ready
    as its owner and whose interrupted [rt_mutex_take] returns success, or leaves
    the mutex free.  The invariants hold in each case. *)
Theorem rt_mutex_release_correct s t th a x :
  running s t th → ks_mutexes s !! a = Some x → mutex_ok s a x →
  wp (rt_mutex_release a) (λ r s', wf s' ∧
    if decide (mtx_owner x = Some t) then
      r = RT_EOK ∧
      (if mtx_hold x =? 1 then handed_over a t x s s'
       else mutex_ok s' a (set_mtx_hold (mtx_hold x - 1) x) ∧
            s' = set_ks_mutexes (<[a := set_mtx_hold (mtx_hold x - 1) x]> (ks_mutexes s)) s)
    else r = - RT_ERROR ∧ ks_mutexes s' = ks_mutexes s ∧ mutex_ok s' a x ∧ ks_current s' = Some t) s.
Proof.
  intros Hr Hx Hok. unfold rt_mutex_release, rt_thread_self. do 4 wp_step.
  rewrite (rn_current _ _ _ Hr). wp_step. eapply wp_in_thread; [done|]. wp_step.
  eapply wp_get_mutex; [done|]. case_decide as Hown.
  2:{ wp_step. eapply wp_upd_thread; [apply Hr|]. wp_step.
      split_and!; [apply wf_set_error; apply Hr|done|done|by apply mutex_ok_error|apply Hr]. }
  destruct (mo_phase _ _ _ Hok) as [|o oth Hv Ho Hh Hop Hoth Hst Hnin]; [congruence|].
  unfold u8, put_mutex. rewrite Z.mod_small by lia. do 2 wp_step. set (s1 := set_ks_mutexes _ s).
  assert (Hwf1 : wf s1) by (by eapply wf_ext, (rn_wf _ _ _ Hr)).
  wp_step. eapply wp_get_mutex; [apply lookup_insert_eq|]. wp_step. simpl.
  destruct (Z.eqb_spec (mtx_hold x) 1) as [E1|E1].
  - rewrite E1. simpl. eapply wp_mono; [eapply (mutex_handover_spec s1 a t th x); try done|].
    + by apply (running_some s t th).
    + apply Hr.
    + by rewrite (rn_ready _ _ _ Hr).
    + simpl. by rewrite lookup_insert_eq, E1.
    + eapply mutex_ok_mono; [done|done|]. eauto.
    + intros ? s' Hho. wp_step. split; [apply Hho|]. split; [done|].
      destruct Hho as [? ? ? (x' & Em & Hrest)]. split; try done. exists x'. split; [|done].
      rewrite Em. simpl. apply insert_insert_eq.
  - rewrite (proj2 (Z.eqb_neq _ _)) by lia. simpl. wp_step. split_and!; [done|done| |done].
    apply put_mutex_ok. destruct Hok as [_ Hfl Hw]. split; [|done|done].
    eapply (mutex_held _ _ _ o oth); simpl; try done; lia.
Qed.
