(* ===== verification/Event.v ===== *)
(** Event sets, [rt-thread/src/ipc.c]. *)

From stdpp Require Import base gmap list fin_maps.
From Stdlib Require Import ZArith Lia.
From S2P Require Import Prelude IntrusiveList Ffs Kservice KState Object Sched Timer KInv SchedFacts.
From S2P Require Import TimerFacts Thread Ipc IpcFacts.

Open Scope Z_scope.

Definition rt_event_init (a : Z) (name : list Z) (flag : Z) : K Z :=
  rt_object_init (OEvent a) ClassEvent name;;
  _ ← rt_ipc_object_init (LEvent a);
  put_event a (mk_event (u8 flag) 0);;
  mret RT_EOK.

Definition rt_event_detach (a : Z) : K Z :=
  _ ← resume_all (LEvent a);
  rt_object_detach (OEvent a);;
  mret RT_EOK.

Definition rt_event_create (block : option Z) (name : list Z) (flag : Z) : K (option Z) :=
  RT_DEBUG_NOT_IN_INTERRUPT;;
  p ← rt_object_allocate ClassEvent name block OEvent;
  match p with
  | None => mret None
  | Some a =>
    _ ← rt_ipc_object_init (LEvent a);
    put_event a (mk_event (u8 flag) 0);;
    mret (Some a)
  end.

Definition rt_event_delete (a : Z) : K Z :=
  RT_DEBUG_NOT_IN_INTERRUPT;;
  _ ← resume_all (LEvent a);
  rt_object_delete (OEvent a) a;;
  mret RT_EOK.

(** The test of a receiver's option and event set against the event: all of the
    bits, or one of them. *)
Definition event_test (info wanted set : Z) : bool :=
  if flag_test info RT_EVENT_FLAG_AND then Z.land wanted set =? wanted
  else if flag_test info RT_EVENT_FLAG_OR then flag_test wanted set
  else false.

(** One pass of the loop of [rt_event_send], on the waiting thread [t]: a thread
    whose condition holds keeps the bits it received (in the OR case), takes them
    from the event if it asked for that, and is resumed.  Tells whether it was. *)
Definition event_visit (a t : Z) : K bool :=
  th ← get_thread t;
  x ← get_event a;
  if event_test (th_event_info th) (th_event_set th) (evt_set x) then
    when (negb (flag_test (th_event_info th) RT_EVENT_FLAG_AND))
      (upd_thread t (set_th_event_set (Z.land (th_event_set th) (evt_set x))));;
    th ← get_thread t;
    when (flag_test (th_event_info th) RT_EVENT_FLAG_CLEAR)
      (upd_event a (λ x, set_evt_set (Z.land (evt_set x) (Z.lnot (th_event_set th))) x));;
    _ ← rt_thread_resume t;
    mret true
  else mret false.

(** The loop of [rt_event_send].  It reads the successor of a node before the
    thread of the node is unlinked, so it visits the list as it stands on entry. *)
Fixpoint event_scan (a : Z) (l : list Z) : K bool :=
  match l with
  | [] => mret false
  | t :: l' => b ← event_visit a t; b' ← event_scan a l'; mret (b || b')
  end.

Definition rt_event_send (a set : Z) : K Z :=
  if set =? 0 then mret (- RT_ERROR)
  else
    upd_event a (λ x, set_evt_set (Z.lor (evt_set x) set) x);;
    s ← get;
    need_schedule ← event_scan a (l_get (ks_lists s) (LEvent a));
    when need_schedule rt_schedule;;
    mret RT_EOK.

(** [rt_event_recv] up to its return or to the context switch.  The result of a
    return is the error code and the event set stored through [recved], if one is
    stored. *)
Definition rt_event_recv (a set option timeout : Z) : K (call (Z * Datatypes.option Z) unit) :=
  RT_DEBUG_IN_THREAD_CONTEXT;;
  if set =? 0 then mret (Return (- RT_ERROR, None))
  else
    t ← self;
    upd_thread t (set_th_error RT_EOK);;
    x ← get_event a;
    RT_ASSERT (flag_test option RT_EVENT_FLAG_AND || flag_test option RT_EVENT_FLAG_OR);;
    if event_test option set (evt_set x) then
      when (flag_test option RT_EVENT_FLAG_CLEAR)
        (put_event a (set_evt_set (Z.land (evt_set x) (Z.lnot set)) x));;
      th ← get_thread t;
      mret (Return (th_error th, Some (Z.land (evt_set x) set)))
    else if timeout =? 0 then
      upd_thread t (set_th_error (- RT_ETIMEOUT));;
      mret (Return (- RT_ETIMEOUT, None))
    else
      upd_thread t (λ th, set_th_event_info option (set_th_event_set set th));;
      _ ← rt_ipc_list_suspend (LEvent a) t (evt_flag x);
      wait_timer t timeout;;
      rt_schedule;;
      mret (Wait tt).
Definition rt_event_recv_resumed (t : Z) : K (Z * option Z) :=
  th ← get_thread t;
  if th_error th =? RT_EOK then mret (th_error th, Some (th_event_set th))
  else mret (th_error th, None).

Definition rt_event_control (a cmd : Z) : K Z :=
  if cmd =? RT_IPC_CMD_RESET then
    _ ← resume_all (LEvent a);
    upd_event a (set_evt_set 0);;
    rt_schedule;;
    mret RT_EOK
  else mret (- RT_ERROR).

(** * The reference for [rt_event_send] *)

(** The bits a satisfied receiver gets, and the event set it leaves. *)
Definition received (th : rt_thread) (set : Z) : Z :=
  if flag_test (th_event_info th) RT_EVENT_FLAG_AND then th_event_set th
  else Z.land (th_event_set th) set.
Definition remaining (th : rt_thread) (set : Z) : Z :=
  if flag_test (th_event_info th) RT_EVENT_FLAG_CLEAR
  then Z.land set (Z.lnot (received th set)) else set.
(** What a receiver waits for, bit by bit: all of the bits it wants are set, or at least one
    of them. *)
Definition wants (info wanted set : Z) : Prop :=
  if flag_test info RT_EVENT_FLAG_AND then ∀ i, 0 ≤ i → Z.testbit wanted i = true → Z.testbit set i = true
  else if flag_test info RT_EVENT_FLAG_OR then ∃ i, 0 ≤ i ∧ Z.testbit wanted i = true ∧ Z.testbit set i = true
  else False.
Lemma event_test_wants info wanted set : event_test info wanted set = true ↔ wants info wanted set.
Proof.
  unfold event_test, wants. destruct (flag_test info RT_EVENT_FLAG_AND); [|destruct (flag_test info RT_EVENT_FLAG_OR); [|naive_solver]].
  - rewrite Z.eqb_eq. split.
    + intros E i _ Hw. rewrite <- E, Z.land_spec in Hw. by apply andb_prop in Hw as [_ ?].
    + intros H. apply Z.bits_inj'. intros i Hi. rewrite Z.land_spec.
      destruct (Z.testbit wanted i) eqn:Hw; [by rewrite H|done].
  - unfold flag_test. rewrite negb_true_iff, Z.eqb_neq. split.
    + intros Hne. assert (∃ i, 0 ≤ i ∧ Z.testbit (Z.land wanted set) i = true) as (i & Hi & Hb).
      { destruct (Z.lt_total (Z.land wanted set) 0) as [Hn|[?|Hp]]; [|done|].
        - exists (Z.succ (Z.log2 (Z.pred (- Z.land wanted set)))). pose proof (Z.log2_nonneg (Z.pred (- Z.land wanted set))).
          split; [lia|apply Z.bits_above_log2_neg; lia].
        - exists (Z.log2 (Z.land wanted set)). split; [apply Z.log2_nonneg|by apply Z.bit_log2]. }
      rewrite Z.land_spec in Hb. exists i. by apply andb_prop in Hb.
    + intros (i & _ & Hw & Hs) E. assert (Hb : Z.testbit (Z.land wanted set) i = false) by (by rewrite E, Z.bits_0).
      rewrite Z.land_spec, Hw, Hs in Hb. done.
Qed.
Lemma event_test_spec info wanted set :
  if event_test info wanted set then wants info wanted set else ¬ wants info wanted set.
Proof. destruct (event_test info wanted set) eqn:E; [by apply event_test_wants|]. by rewrite <- event_test_wants, E. Qed.
#[export] Instance wants_dec info wanted set : Decision (wants info wanted set).
Proof. pose proof (event_test_spec info wanted set). destruct (event_test info wanted set); [by left|by right]. Defined.
Definition satisfied (th : rt_thread) (set : Z) : bool := bool_decide (wants (th_event_info th) (th_event_set th) set).
Lemma satisfied_test th set : satisfied th set = event_test (th_event_info th) (th_event_set th) set.
Proof. apply eq_true_iff_eq. unfold satisfied. by rewrite bool_decide_eq_true, event_test_wants. Qed.

(** The waiting list in order, each receiver against the bits the receivers before
    it left: the final event set, the receivers served with what they got, and the
    receivers that go on waiting. *)
Fixpoint serve (T : gmap Z rt_thread) (set : Z) (l : list Z) : Z * list (Z * Z) * list Z :=
  match l with
  | [] => (set, [], [])
  | t :: l' =>
    match T !! t with
    | Some th =>
      if satisfied th set then
        let '(set', served, rest) := serve T (remaining th set) l' in
        (set', (t, received th set) :: served, rest)
      else let '(set', served, rest) := serve T set l' in (set', served, t :: rest)
    | None => (set, [], l)
    end
  end.

(** ** Fewer bits satisfy fewer receivers *)

Lemma event_test_mono info wanted set m :
  event_test info wanted set = false → event_test info wanted (Z.land set m) = false.
Proof.
  unfold event_test, flag_test. destruct (negb (Z.land info _ =? 0)).
  - rewrite !Z.eqb_neq. intros Hne E. apply Hne. apply Z.bits_inj'. intros i Hi.
    assert (Hb : Z.testbit (Z.land wanted (Z.land set m)) i = Z.testbit wanted i) by (by rewrite E).
    rewrite !Z.land_spec in *. by destruct (Z.testbit wanted i), (Z.testbit set i), (Z.testbit m i).
  - destruct (negb (Z.land info _ =? 0)); [|done]. rewrite !negb_false_iff, !Z.eqb_eq.
    intros E. by rewrite Z.land_assoc, E.
Qed.
Lemma unsatisfied_remaining th th' set :
  satisfied th set = false → satisfied th (remaining th' set) = false.
Proof. rewrite !satisfied_test. unfold remaining. case_match; [apply event_test_mono|done]. Qed.

(** Nobody the scan passes over could be served by what is left. *)
Lemma serve_unsatisfied T set l set' served rest :
  serve T set l = (set', served, rest) → (∀ t, t ∈ l → is_Some (T !! t)) →
  (∀ th, satisfied th set = false → satisfied th set' = false) ∧
  ∀ t th, t ∈ rest → T !! t = Some th → satisfied th set' = false.
Proof.
  revert set set' served rest. induction l as [|t l IH]; simpl; intros set set' served rest E Hl.
  { simplify_eq. split; [done|]. by intros ?? ?%not_elem_of_nil. }
  destruct (Hl t ltac:(by left)) as [th Ht]. rewrite Ht in E.
  assert (Hl' : ∀ t, t ∈ l → is_Some (T !! t)) by (intros; apply Hl; by right).
  destruct (satisfied th set) eqn:Es.
  - destruct (serve T (remaining th set) l) as [[set1 served1] rest1] eqn:E1. simplify_eq.
    destruct (IH _ _ _ _ E1 Hl') as [Hm Hleft]. split; [|done].
    intros th' Hu. by apply Hm, unsatisfied_remaining.
  - destruct (serve T set l) as [[set1 served1] rest1] eqn:E1. simplify_eq.
    destruct (IH _ _ _ _ E1 Hl') as [Hm Hleft]. split; [done|].
    intros x thx [->|Hx]%elem_of_cons Hthx; [|by eapply Hleft]. simplify_eq. auto.
Qed.

Lemma serve_ext T T' set l :
  (∀ t, t ∈ l → T' !! t = T !! t) → serve T' set l = serve T set l.
Proof.
  revert set. induction l as [|t l IH]; simpl; intros set Hl; [done|].
  rewrite Hl by (by left). destruct (T !! t); [|done].
  rewrite !IH by (intros; apply Hl; by right). done.
Qed.

Lemma serve_split T set l set' served rest :
  serve T set l = (set', served, rest) → l ≡ₚ served.*1 ++ rest.
Proof.
  revert set set' served rest. induction l as [|t l IH]; simpl; intros set set' served rest E.
  { by simplify_eq. }
  destruct (T !! t) as [th|]; [|by simplify_eq]. destruct (satisfied th set).
  - destruct (serve T (remaining th set) l) as [[set1 served1] rest1] eqn:E1. simplify_eq. simpl.
    by rewrite (IH _ _ _ _ E1).
  - destruct (serve T set l) as [[set1 served1] rest1] eqn:E1. simplify_eq.
    rewrite (IH _ _ _ _ E1). by rewrite Permutation_middle.
Qed.

(** ** The loop implements the reference *)

Lemma wf_event_set s t th v :
  wf s → ks_threads s !! t = Some th →
  wf (set_ks_threads (<[t := set_th_event_set v th]> (ks_threads s)) s).
Proof.
  intros Hwf Ht. eapply (wf_thread_field s _ Hwf t th (set_th_event_set v th)); try done.
  intros Hs. destruct (wf_prio _ Hwf _ _ Ht Hs). by split.
Qed.
Lemma set_event_set_id th : set_th_event_set (th_event_set th) th = th.
Proof. by destruct th. Qed.

Definition served_state (a t : Z) (th : rt_thread) (x : rt_event) (s : kstate) : kstate :=
  set_ks_events (<[a := set_evt_set (remaining th (evt_set x)) x]> (ks_events s))
    (set_ks_threads (<[t := set_th_event_set (received th (evt_set x)) th]> (ks_threads s)) s).

Lemma event_visit_spec s a t th x :
  wf s → ks_threads s !! t = Some th → th_stat th = RT_THREAD_SUSPEND → ks_events s !! a = Some x →
  wp (event_visit a t) (λ b s', b = satisfied th (evt_set x) ∧
    if b then readied t (set_th_event_set (received th (evt_set x)) th) (served_state a t th x s) s'
    else s' = s) s.
Proof.
  intros Hwf Ht Hst Hx. unfold event_visit. wp_step. eapply wp_get_thread; [done|]. wp_step.
  eapply wp_get_event; [done|]. rewrite <- satisfied_test.
  destruct (satisfied th (evt_set x)) eqn:Es; [|by wp_step].
  set (th1 := set_th_event_set (received th (evt_set x)) th).
  set (s1 := set_ks_threads (<[t := th1]> (ks_threads s)) s).
  wp_step. eapply (wp_mono _ (λ _ s', s' = s1)).
  { unfold when. destruct (flag_test (th_event_info th) RT_EVENT_FLAG_AND) eqn:Ea; simpl.
    - wp_step. unfold s1, th1, received. rewrite Ea, set_event_set_id, insert_id by done. by destruct s.
    - eapply wp_upd_thread; [done|]. unfold s1, th1, received. by rewrite Ea. }
  intros ? ? ->. wp_step. eapply wp_get_thread; [apply lookup_insert_eq|]. wp_step.
  eapply (wp_mono _ (λ _ s', s' = served_state a t th x s)).
  { unfold when, served_state, remaining. simpl.
    destruct (flag_test (th_event_info th) RT_EVENT_FLAG_CLEAR).
    - by eapply wp_upd_event.
    - wp_step. replace (set_evt_set (evt_set x) x) with x by (by destruct x).
      rewrite (insert_id (ks_events s) a x) by done. by destruct s. }
  intros ? ? ->. wp_step.
  assert (Hwf1 : wf s1) by (by apply wf_event_set).
  eapply wp_mono; [eapply (thread_resume_spec (served_state a t th x s) t th1); try done|].
  - by eapply wf_ext, Hwf1.
  - apply lookup_insert_eq.
  - intros ? s' [_ Hrd]. by wp_step.
Qed.

Record event_served (a : Z) (x : rt_event) (set' : Z) (served : list (Z * Z)) (s s' : kstate) : Prop := {
  es_wf : wf s';
  es_events : ks_events s' = <[a := set_evt_set set' x]> (ks_events s);
  es_served t got : (t, got) ∈ served → ∃ th, ks_threads s !! t = Some th ∧
    ks_threads s' !! t = Some (set_th_stat RT_THREAD_READY (set_th_event_set got th));
  es_rest t : t ∉ served.*1 → ks_threads s' !! t = ks_threads s !! t;
  es_current : ks_current s' = ks_current s;
}.

Lemma event_scan_spec a l : ∀ s x kept set' served rest,
  wf s → ks_events s !! a = Some x → l_get (ks_lists s) (LEvent a) = kept ++ l →
  serve (ks_threads s) (evt_set x) l = (set', served, rest) →
  wp (event_scan a l) (λ b s', b = negb (bool_decide (served = [])) ∧
    event_served a x set' served s s' ∧ l_get (ks_lists s') (LEvent a) = kept ++ rest) s.
Proof.
  induction l as [|t l IH]; simpl; intros s x kept set' served rest Hwf Hx El Es.
  { simplify_eq. wp_step. split_and!; [done| |done]. split; try done.
    - rewrite insert_id; [done|]. by destruct x.
    - by intros ?? ?%not_elem_of_nil. }
  destruct (wf_home _ Hwf (LEvent a) t ltac:(rewrite El; set_solver)) as (th & Ht & Hst). simpl in Hst.
  rewrite Ht in Es. wp_step. eapply wp_mono; [by eapply event_visit_spec|]. intros b s1 [-> Hb].
  pose proof (ok_nodup _ (wf_lists _ Hwf) (LEvent a)) as Hnd. rewrite El in Hnd.
  assert (Hl : (t ∉ kept) ∧ (t ∉ l)).
  { apply NoDup_app in Hnd as (_ & Hd & [? _]%NoDup_cons). split; [|done]. intros ?. by eapply Hd; [|left]. }
  destruct (satisfied th (evt_set x)) eqn:Esat.
  - destruct (serve _ (remaining th (evt_set x)) l) as [[set1 served1] rest1] eqn:E1. simplify_eq.
    destruct Hb as [Hwf1 Et1 El1 (Hfr1 & Hc1 & _) _ _]. simpl in Et1.
    assert (Hother : ∀ u, u ≠ t → ks_threads s1 !! u = ks_threads s !! u).
    { intros u Hu. rewrite Et1, lookup_insert_ne by done. by apply lookup_insert_ne. }
    wp_step. eapply wp_mono; [eapply (IH s1 _ kept); [done| | |]|].
    + rewrite (fr_events _ _ Hfr1). apply lookup_insert_eq.
    + rewrite El1, decide_False, app_nil_r by done. simpl. rewrite El, filter_app, filter_cons_False by naive_solver.
      by rewrite !filter_ne_notin by apply Hl.
    + simpl. rewrite <- E1. apply serve_ext. intros u Hu. apply Hother. intros ->. by apply Hl.
    + intros ? s2 (-> & [Hwf2 Ee2 Hs2 Hr2 Hc2] & El2). wp_step.
      pose proof (serve_split _ _ _ _ _ _ E1) as Hperm.
      assert (Htn : t ∉ served1.*1) by (intros Hin; apply Hl; rewrite Hperm; set_solver).
      split_and!; [by destruct served1| |done]. split; [done| | | |by rewrite Hc2, Hc1].
      * rewrite Ee2, (fr_events _ _ Hfr1). simpl. by rewrite insert_insert_eq.
      * intros u got [[= -> ->]|Hu]%elem_of_cons.
        -- exists th. split; [done|]. rewrite Hr2, Et1 by done. apply lookup_insert_eq.
        -- destruct (Hs2 _ _ Hu) as (thu & Hu1 & Hu2). exists thu. split; [|done].
           rewrite <- Hother; [done|]. intros ->. apply Htn. by apply (list_elem_of_fmap_2 fst) in Hu.
      * intros u Hu. apply not_elem_of_cons in Hu as [Hut Hu]. rewrite Hr2 by done. by apply Hother.
  - destruct (serve _ (evt_set x) l) as [[set1 served1] rest1] eqn:E1. simplify_eq.
    wp_step. eapply wp_mono; [eapply (IH s x (kept ++ [t])); try done; by rewrite <- app_assoc|].
    intros ? s2 (-> & Hes & El2). wp_step. split_and!; [by destruct served|done|by rewrite <- app_assoc in El2].
Qed.

(** * The invariant of an event *)

(** No waiting receiver could be served by the bits that are set. *)
Record event_ok (s : kstate) (a : Z) (x : rt_event) : Prop := {
  eo_flag : evt_flag x = RT_IPC_FLAG_FIFO ∨ evt_flag x = RT_IPC_FLAG_PRIO;
  eo_waiters t : t ∈ l_get (ks_lists s) (LEvent a) → ∃ th, ks_threads s !! t = Some th ∧
    th_error th = RT_EOK ∧ satisfied th (evt_set x) = false;
}.

(** C38. [rt_event_send] serves exactly the receivers the reference [serve] serves:
    in the order of the waiting list, each against the bits left by those before
    it.  Every receiver served is ready and its interrupted [rt_event_recv] returns
    the bits it got; every other receiver keeps waiting, in the same order, and no
    receiver that keeps waiting could be served by the bits that remain (no
    wake-up is lost).  An empty set is refused. *)
Theorem rt_event_send_correct s a x set set' served rest :
  wf s → is_Some (ks_current s) → ks_events s !! a = Some x → event_ok s a x →
  serve (ks_threads s) (Z.lor (evt_set x) set) (l_get (ks_lists s) (LEvent a)) = (set', served, rest) →
  wp (rt_event_send a set) (λ r s',
    if set =? 0 then r = - RT_ERROR ∧ s' = s
    else r = RT_EOK ∧ wf s' ∧ is_Some (ks_current s') ∧
      ks_events s' = <[a := set_evt_set set' x]> (ks_events s) ∧
      event_ok s' a (set_evt_set set' x) ∧
      l_get (ks_lists s') (LEvent a) = rest ∧
      ∀ t got, (t, got) ∈ served →
        wp (rt_event_recv_resumed t) (λ r s'', r = (RT_EOK, Some got) ∧ s'' = s') s' ∧
        ∃ th, ks_threads s' !! t = Some th ∧ th_stat th = RT_THREAD_READY) s.
Proof.
  intros Hwf Hc Hx [Hfl Hw] Hserve. unfold rt_event_send. destruct (set =? 0); [by wp_step|].
  wp_step. eapply wp_upd_event; [done|]. wp_step. wp_step. wp_step.
  set (x1 := set_evt_set (Z.lor (evt_set x) set) x). set (s1 := set_ks_events _ s).
  assert (Hwf1 : wf s1) by (by eapply wf_ext, Hwf).
  eapply wp_mono; [eapply (event_scan_spec a _ s1 x1 []); try done; apply lookup_insert_eq|].
  intros b s2 (-> & [Hwf2 Ee2 Hs2 Hr2 Hc2] & El2). simpl in El2, Hs2, Hr2, Hc2, Ee2.
  assert (Hsplit := serve_split _ _ _ _ _ _ Hserve).
  assert (Hnd : NoDup (served.*1 ++ rest)) by (rewrite <- Hsplit; apply (wf_lists _ Hwf)).
  assert (Hlive : ∀ t, t ∈ l_get (ks_lists s) (LEvent a) → is_Some (ks_threads s !! t)).
  { intros t Hin. destruct (Hw t Hin) as (? & ? & _). eauto. }
  assert (Hok2 : event_ok s2 a (set_evt_set set' x)).
  { split; [done|]. rewrite El2. intros t Ht.
    assert (t ∈ l_get (ks_lists s) (LEvent a)) as Hin by (rewrite Hsplit; set_solver).
    destruct (Hw t Hin) as (th & Hth & He & _). exists th. split_and!; [|done|].
    - rewrite Hr2; [done|]. apply NoDup_app in Hnd as (_ & Hd & _). intros Hx'. by eapply Hd.
    - by eapply serve_unsatisfied. }
  assert (Hready : ∀ t got, (t, got) ∈ served → ∃ th, ks_threads s2 !! t = Some th ∧
    th_stat th = RT_THREAD_READY ∧ th_error th = RT_EOK ∧ th_event_set th = got).
  { intros t got Hin. destruct (Hs2 _ _ Hin) as (th & Hth & Hth2). eexists. split_and!; [done..| |done].
    destruct (Hw t) as (th' & ? & He & _); [|simpl; congruence].
    rewrite Hsplit. apply elem_of_app. left. by apply (list_elem_of_fmap_2 fst) in Hin. }
  wp_step. eapply (wp_mono _ (λ _ s3, switched s2 s3 ∧ is_Some (ks_current s3))).
  { unfold when. destruct served as [|[t got] served]; simpl.
    - wp_step. split; [apply switched_refl|by rewrite Hc2].
    - destruct (Hready t got ltac:(by left)) as (th & Hth & Hst & _).
      eapply wp_mono; [apply (schedule_ready_spec s2); [done|by exists t, th|by rewrite Hc2]|]. naive_solver. }
  intros ? s3 [(c & p & ->) Hc3]. wp_step. simpl. split_and!; try done.
  - by eapply wf_ext, Hwf2.
  - rewrite Ee2. apply insert_insert_eq.
  - by destruct Hok2.
  - intros t got Hin. destruct (Hready t got Hin) as (th & Hth & Hst & He & <-). split; [|eauto].
    unfold rt_event_recv_resumed. wp_step. eapply wp_get_thread; [done|]. rewrite He. by wp_step.
Qed.

(** ** Receiving *)

Lemma running_field s t th th' :
  running s t th → th_stat th' = th_stat th → th_current_priority th' = th_current_priority th →
  th_init_priority th' = th_init_priority th → th_number_mask th' = th_number_mask th →
  running (set_ks_threads (<[t := th']> (ks_threads s)) s) t th'.
Proof.
  intros [Hwf Hc Ht Hst (t' & tho & Hne & Ht' & Hst') Hi] E1 E2 E3 E4.
  split; try done; [|apply lookup_insert_eq|congruence|].
  - eapply (wf_thread_field s _ Hwf t th th'); try done. intros Hs.
    destruct (wf_prio _ Hwf _ _ Ht Hs) as [? ? Hm]. split; rewrite ?E2, ?E3, ?E4; try done.
    unfold live in *. by rewrite E1.
  - exists t', tho. simpl. by rewrite lookup_insert_ne.
Qed.

(** The control block of a running thread does not matter to the invariant. *)
Lemma event_ok_running s t th th' a x :
  running s t th → event_ok s a x →
  event_ok (set_ks_threads (<[t := th']> (ks_threads s)) s) a x.
Proof.
  intros Hr [Hfl Hw]. split; [done|]. simpl. intros u Hu. rewrite lookup_insert_ne; [by apply Hw|].
  intros <-. revert Hu.
  eapply wait_head_notin; [apply Hr|done|apply Hr|by rewrite (rn_ready _ _ _ Hr)].
Qed.

Lemma event_ok_clear s a x m :
  event_ok s a x → event_ok s a (set_evt_set (Z.land (evt_set x) m) x).
Proof.
  intros [Hfl Hw]. split; [done|]. intros t Ht. destruct (Hw t Ht) as (th & ? & ? & ?).
  exists th. split_and!; [done..|]. rewrite satisfied_test in *. by apply event_test_mono.
Qed.

Definition event_wait (option set : Z) (th : rt_thread) : rt_thread :=
  set_th_event_info option (set_th_event_set set (set_th_error RT_EOK th)).

Lemma event_blocked s s' t th a x option set timeout :
  running s t th → event_ok s a x → event_test option set (evt_set x) = false →
  th_error th = RT_EOK → th_event_info th = option → th_event_set th = set →
  blocked (LEvent a) t (evt_flag x) timeout th s s' → event_ok s' a x.
Proof.
  intros Hr [Hfl Hw] Htest He Ei Es Hb. split; [done|]. intros u.
  rewrite (bk_list _ _ _ _ _ _ _ Hb), wait_insert_perm, elem_of_cons, (bk_threads _ _ _ _ _ _ _ Hb), lookup_insert.
  intros [->|Hu].
  - rewrite decide_True by done. eexists. split_and!; [done|done|]. rewrite satisfied_test. simpl. congruence.
  - case_decide; [subst u|by apply Hw]. exfalso. revert Hu.
    eapply wait_head_notin; [apply Hr|done|apply Hr|by rewrite (rn_ready _ _ _ Hr)].
Qed.

(** [rt_event_recv] on every branch: an empty set of interest is refused; a
    condition that already holds returns the bits at once and, if asked to, takes
    them from the event; otherwise the call returns a timeout when the caller does
    not want to wait, or the caller waits, with its condition recorded for
    [rt_event_send].  The invariants hold in each case. *)
Theorem rt_event_recv_correct s t th a x set option timeout :
  running s t th → ks_events s !! a = Some x → event_ok s a x → timeout < HALF →
  flag_test option RT_EVENT_FLAG_AND || flag_test option RT_EVENT_FLAG_OR = true →
  wp (rt_event_recv a set option timeout) (λ r s', wf s' ∧ ∃ x',
    ks_events s' = <[a := x']> (ks_events s) ∧ event_ok s' a x' ∧ match r with
    | Return (e, got) => ks_current s' = Some t ∧
        ((set = 0 ∧ e = - RT_ERROR ∧ x' = x) ∨
         (e = RT_EOK ∧ wants option set (evt_set x) ∧ got = Some (Z.land (evt_set x) set) ∧
          x' = if flag_test option RT_EVENT_FLAG_CLEAR
               then set_evt_set (Z.land (evt_set x) (Z.lnot set)) x else x) ∨
         (e = - RT_ETIMEOUT ∧ timeout = 0 ∧ ¬ wants option set (evt_set x) ∧ x' = x))
    | Wait _ => ¬ wants option set (evt_set x) ∧ timeout ≠ 0 ∧ x' = x ∧
        wait_deadline t timeout s s' ∧
        ks_threads s' !! t = Some (set_th_stat RT_THREAD_SUSPEND (event_wait option set th)) ∧
        l_get (ks_lists s') (LEvent a) ≡ₚ t :: l_get (ks_lists s) (LEvent a)
    end) s.
Proof.
  intros Hr Hx Hok Htime Hopt. unfold rt_event_recv. wp_step. eapply wp_in_thread; [done|].
  destruct (Z.eqb_spec set 0) as [Hs0|Hs0].
  { wp_step. split; [apply Hr|]. exists x. rewrite insert_id by done. split_and!; [done|done|apply Hr|by left]. }
  wp_step. eapply wp_self; [apply Hr|]. wp_step. eapply wp_upd_thread; [apply Hr|]. wp_step.
  pose proof (running_error _ _ _ RT_EOK Hr) as Hr1.
  pose proof (event_ok_running _ _ _ (set_th_error RT_EOK th) _ _ Hr Hok) as Hok1.
  set (th1 := set_th_error RT_EOK th) in *. set (s1 := set_ks_threads _ s) in *.
  eapply wp_get_event; [done|]. wp_step. apply wp_assert; [done|].
  pose proof (event_test_spec option set (evt_set x)) as Hwants.
  destruct (event_test option set (evt_set x)) eqn:Etest.
  { wp_step. eapply (wp_mono _ (λ _ s', s' = set_ks_events (<[a :=
      if flag_test option RT_EVENT_FLAG_CLEAR
      then set_evt_set (Z.land (evt_set x) (Z.lnot set)) x else x]> (ks_events s)) s1)).
    { unfold when. case_match; [done|]. wp_step. rewrite insert_id by done. by destruct s. }
    intros ? ? ->. wp_step. eapply wp_get_thread; [apply Hr1|]. wp_step.
    split; [by eapply wf_ext, (rn_wf _ _ _ Hr1)|]. eexists. split_and!; [done| |apply Hr|by right; left].
    case_match; [|by destruct Hok1]. by destruct (event_ok_clear _ _ _ (Z.lnot set) Hok1). }
  destruct (Z.eqb_spec timeout 0) as [Ht0|Ht0].
  { wp_step. eapply wp_upd_thread; [apply Hr1|]. wp_step. split; [apply wf_set_error; apply Hr1|].
    exists x. simpl. rewrite insert_id by done.
    split_and!; [done|by apply (event_ok_running s1 t th1)|apply Hr|right; right; done]. }
  wp_step. eapply wp_upd_thread; [apply Hr1|]. set (th2 := set_th_event_info _ _).
  assert (Hr2 := running_field s1 t th1 th2 Hr1 eq_refl eq_refl eq_refl eq_refl).
  assert (Hok2 := event_ok_running _ _ _ th2 _ _ Hr1 Hok1).
  set (s2 := set_ks_threads _ s1) in *.
  eapply (wp_block_on _ _ s2 (LEvent a) t th2); try done; try apply Hr2; [apply Hok|by eapply running_some|].
  intros s' Hb. wp_step. split; [apply Hb|]. exists x. split_and!; try done.
  - rewrite (fr_events _ _ (bk_frame _ _ _ _ _ _ _ Hb)). simpl. by rewrite insert_id.
  - by eapply (event_blocked s2 s' t th2).
  - apply Hb.
  - rewrite (bk_threads _ _ _ _ _ _ _ Hb). apply lookup_insert_eq.
  - rewrite (bk_list _ _ _ _ _ _ _ Hb). apply wait_insert_perm.
Qed.
