(* ===== verification/Ring.v ===== *)
(** Ring buffers as queues: the [n] elements of a pool from the index [out] on,
    wrapping around at [size]. *)

From stdpp Require Import base list gmap fin_maps.
From Stdlib Require Import Arith Lia ZArith.
From S2P Require Import Prelude.

Open Scope nat_scope.

Section ring.
Context {A : Type} `{Inhabited A}.
Implicit Types (pool : list A).

Definition ring pool (size out n : nat) : list A :=
  (λ i, pool !!! ((out + i) mod size)) <$> seq 0 n.

Lemma ring_length pool size out n : length (ring pool size out n) = n.
Proof. unfold ring. by rewrite length_fmap, length_seq. Qed.

(** Distinct places of the ring. *)
Lemma ring_index_inj size out i j :
  i < size → j < size → (out + i) mod size = (out + j) mod size → i = j.
Proof.
  intros Hi Hj E.
  pose proof (Nat.Div0.div_mod (out + i) size). pose proof (Nat.Div0.div_mod (out + j) size).
  rewrite E in *. set (q := (out + i) / size) in *. set (q' := (out + j) / size) in *.
  destruct (Nat.lt_trichotomy q q') as [Hq|[Hq|Hq]]; [|rewrite Hq in *; lia|].
  - assert (size * (q + 1) <= size * q') by (apply Nat.mul_le_mono_l; lia). lia.
  - assert (size * (q' + 1) <= size * q) by (apply Nat.mul_le_mono_l; lia). lia.
Qed.

(** Storing at the input index appends. *)
Lemma ring_push pool size out n v :
  length pool = size → n < size →
  ring (<[(out + n) mod size := v]> pool) size out (S n) = ring pool size out n ++ [v].
Proof.
  intros Hl Hn. unfold ring. rewrite seq_S, fmap_app. simpl. f_equal.
  - apply list_fmap_ext. intros k i Hi%lookup_seq. destruct Hi as [-> Hi]. simpl.
    rewrite list_lookup_total_insert_ne; [done|]. intros E.
    apply ring_index_inj in E; lia.
  - rewrite list_lookup_total_insert_eq; [done|]. rewrite Hl. apply Nat.mod_upper_bound. lia.
Qed.

(** Reading at the output index takes the first element. *)
Lemma ring_pop pool size out n :
  0 < size →
  ring pool size out (S n) = pool !!! (out mod size) :: ring pool size ((out + 1) mod size) n.
Proof.
  intros Hs. unfold ring. simpl. rewrite Nat.add_0_r. f_equal.
  rewrite <- seq_shift, <- list_fmap_compose. apply list_fmap_ext. intros k i _. simpl.
  f_equal. rewrite Nat.Div0.add_mod_idemp_l. f_equal. lia.
Qed.

(** A store at an index that no element has. *)
Lemma ring_insert_other pool size out n j v :
  (forall i, i < n -> (out + i) mod size <> j) -> ring (<[j := v]> pool) size out n = ring pool size out n.
Proof.
  intros Hne. unfold ring. apply list_fmap_ext. intros k i [-> Hi]%lookup_seq. simpl.
  apply list_lookup_total_insert_ne. intros E. by apply (Hne k Hi).
Qed.
(** Storing in front of the output index, and over the first element. *)
Lemma ring_unshift pool size out n v :
  length pool = size -> n < size -> out < size ->
  let out' := (out + (size - 1)) mod size in
  ring (<[out' := v]> pool) size out' (S n) = v :: ring pool size out n.
Proof.
  intros Hl Hn Ho out'. assert (Hout' : out' < size) by (apply Nat.mod_upper_bound; lia).
  rewrite ring_pop, (Nat.mod_small out') by lia. f_equal; [by apply list_lookup_total_insert_eq; rewrite Hl|].
  assert ((out' + 1) mod size = out) as ->.
  { unfold out'. rewrite Nat.Div0.add_mod_idemp_l. replace (out + (size - 1) + 1) with (out + 1 * size) by lia.
    by rewrite Nat.Div0.mod_add, Nat.mod_small. }
  apply ring_insert_other. intros i Hi E. apply ring_index_inj in E; lia.
Qed.
Lemma ring_overwrite pool size out n v :
  length pool = size -> 0 < n <= size -> out < size ->
  ring (<[out := v]> pool) size out n = v :: tail (ring pool size out n).
Proof.
  intros Hl Hn Ho. destruct n as [|n]; [lia|]. rewrite !ring_pop, Nat.mod_small by lia. simpl.
  f_equal; [by apply list_lookup_total_insert_eq; rewrite Hl|]. apply ring_insert_other. intros i Hi E.
  rewrite Nat.Div0.add_mod_idemp_l in E. replace (out + 1 + i) with (out + (1 + i)) in E by lia.
  assert (E0 : out = (out + 0) mod size) by (rewrite Nat.add_0_r, Nat.mod_small; lia).
  assert (E1 : (out + (1 + i)) mod size = (out + 0) mod size) by congruence. apply ring_index_inj in E1; lia.
Qed.

(** Advancing an index the way the code does: increment, and back to zero at the
    end. *)
Lemma ring_next size i : i < size → (if decide (size <= i + 1) then 0 else i + 1) = (i + 1) mod size.
Proof.
  intros Hi. case_decide.
  - replace (i + 1) with size by lia. by rewrite Nat.Div0.mod_same.
  - rewrite Nat.mod_small; lia.
Qed.
Lemma ring_in_next size out n : 0 < size → ((out + n) mod size + 1) mod size = (out + S n) mod size.
Proof. intros Hs. rewrite Nat.Div0.add_mod_idemp_l. f_equal. lia. Qed.

(** Several elements at once. *)
Lemma ring_app pool size out n m :
  ring pool size out (n + m) = ring pool size out n ++ ring pool size ((out + n) mod size) m.
Proof.
  unfold ring. rewrite seq_app, fmap_app. f_equal. rewrite (Nat.add_comm 0 n), <- (fmap_add_seq n 0 m), <- list_fmap_compose.
  apply list_fmap_ext. intros k i _. simpl. f_equal. rewrite Nat.Div0.add_mod_idemp_l. f_equal. lia.
Qed.
Lemma ring_ext pool pool' size out n :
  (∀ i, i < n → pool !!! ((out + i) mod size) = pool' !!! ((out + i) mod size)) →
  ring pool size out n = ring pool' size out n.
Proof.
  intros Hp. apply list_fmap_ext. intros k i Hi%lookup_seq. apply Hp. lia.
Qed.
Lemma ring_mod pool size out n : ring pool size (out mod size) n = ring pool size out n.
Proof. apply list_fmap_ext. intros k i _. f_equal. apply Nat.Div0.add_mod_idemp_l. Qed.
(** The part of the ring up to its end is a slice of the pool. *)
Lemma ring_slice pool size out n :
  size <= length pool → out + n <= size → ring pool size out n = take n (drop out pool).
Proof.
  intros Hl Hn. apply list_eq. intros i. unfold ring. rewrite list_lookup_fmap.
  destruct (decide (i < n)).
  - rewrite lookup_seq_lt, lookup_take_lt, lookup_drop by lia. simpl.
    rewrite Nat.mod_small by lia. symmetry. apply list_lookup_lookup_total_lt. lia.
  - rewrite lookup_seq_ge, lookup_take_ge by lia. done.
Qed.

(** Copying a block behind the last element, up to the end of the pool, appends it;
    copying a block from the first element takes it. *)
Lemma ring_append pool size out n data :
  size <= length pool → n + length data <= size → (out + n) mod size + length data <= size →
  ring (list_inserts ((out + n) mod size) data pool) size out (n + length data) =
  ring pool size out n ++ data.
Proof.
  intros Hl Hn Hw. rewrite ring_app. f_equal.
  - apply ring_ext. intros i Hi. set (w := (out + n) mod size) in *. set (j := (out + i) mod size).
    destruct (decide (w <= j < w + length data)) as [Hj|Hj].
    + exfalso. assert (Hm : (out + (n + (j - w))) mod size = (out + i) mod size); [|apply ring_index_inj in Hm; lia].
      fold j. replace (out + (n + (j - w))) with (out + n + (j - w)) by lia.
      rewrite <- Nat.Div0.add_mod_idemp_l. fold w. replace (w + (j - w)) with j by lia.
      apply Nat.Div0.mod_mod.
    + destruct (decide (j < w)); [by rewrite list_lookup_total_inserts_lt|].
      by rewrite list_lookup_total_inserts_ge by lia.
  - rewrite ring_slice; [|by rewrite length_inserts|done].
    apply list_eq. intros i. destruct (decide (i < length data)).
    + rewrite lookup_take_lt, lookup_drop, list_lookup_inserts by lia. f_equal. lia.
    + rewrite lookup_take_ge, lookup_ge_None_2 by lia. done.
Qed.
Lemma ring_take pool size out n m :
  size <= length pool → out + m <= size →
  ring pool size out (m + n) = take m (drop out pool) ++ ring pool size (out + m) n.
Proof. intros Hl Hm. by rewrite ring_app, ring_slice, ring_mod by done. Qed.
End ring.

Open Scope Z_scope.

(** The ring buffer of the device drivers ([rt-thread/components/drivers/src/ringbuffer.c]
    and the inline functions of [components/drivers/include/rtdevice.h]), with its
    mirror bits, and its refinement of a bounded queue of bytes.

    The pool is the list of its bytes; a pointer argument is the list of the bytes
    from it to the end of its buffer, as in [Kservice].  A copy that leaves the pool
    or the buffer of the caller is [None]. *)

(** * The code *)

(** [buffer_ptr] is the pool itself.  The indices are bit fields of 15 bits, the
    mirrors of one bit. *)
Record rt_ringbuffer := RingBuffer {
  rb_buffer_ptr : list Z;
  rb_read_mirror : bool;
  rb_read_index : Z;
  rb_write_mirror : bool;
  rb_write_index : Z;
  rb_buffer_size : Z
}.
Definition u15 (x : Z) : Z := x mod 2 ^ 15.

Inductive rt_ringbuffer_state := RT_RINGBUFFER_EMPTY | RT_RINGBUFFER_FULL | RT_RINGBUFFER_HALFFULL.
#[global] Instance rt_ringbuffer_state_eq_dec : EqDecision rt_ringbuffer_state.
Proof. solve_decision. Defined.

(** [memcpy(&dst[off], src, n)]: the destination after the copy, when both areas are
    inside their buffers ([n] is negative when an [int] difference is, which
    [memcpy] takes for a huge count). *)
Definition memcpy_at (dst : list Z) (off : Z) (src : list Z) (n : Z) : option (list Z) :=
  if (0 <=? n) && (0 <=? off) && (off + n <=? Z.of_nat (length dst)) && (n <=? Z.of_nat (length src))
  then Some (list_inserts (Z.to_nat off) (take (Z.to_nat n) src) dst) else None.

(** [&p[off]]. *)
Definition from (p : list Z) (off : Z) : list Z := drop (Z.to_nat off) p.

(** [RT_ALIGN_DOWN(size, 4)]; [None] is a failed assertion. *)
Definition rt_ringbuffer_init (pool : list Z) (size : Z) : option rt_ringbuffer :=
  if 0 <? size then
    Some (RingBuffer pool false 0 false 0 (i16 (Z.land size (Z.lnot (4 - 1)))))
  else None.

Definition rt_ringbuffer_get_size (rb : rt_ringbuffer) : Z := u16 (rb_buffer_size rb).

Definition rt_ringbuffer_status (rb : rt_ringbuffer) : rt_ringbuffer_state :=
  if rb_read_index rb =? rb_write_index rb then
    if Bool.eqb (rb_read_mirror rb) (rb_write_mirror rb) then RT_RINGBUFFER_EMPTY else RT_RINGBUFFER_FULL
  else RT_RINGBUFFER_HALFFULL.

Definition rt_ringbuffer_data_len (rb : rt_ringbuffer) : Z :=
  match rt_ringbuffer_status rb with
  | RT_RINGBUFFER_EMPTY => 0
  | RT_RINGBUFFER_FULL => u16 (rb_buffer_size rb)
  | RT_RINGBUFFER_HALFFULL =>
    if rb_read_index rb <? rb_write_index rb then u16 (rb_write_index rb - rb_read_index rb)
    else u16 (rb_buffer_size rb - (rb_read_index rb - rb_write_index rb))
  end.
(** A macro: the difference is an [int]. *)
Definition rt_ringbuffer_space_len (rb : rt_ringbuffer) : Z :=
  rb_buffer_size rb - rt_ringbuffer_data_len rb.

Definition rt_ringbuffer_put (rb : rt_ringbuffer) (ptr : list Z) (length : Z) : option (Z * rt_ringbuffer) :=
  let size := u16 (rt_ringbuffer_space_len rb) in
  if size =? 0 then Some (0, rb) else
  let length := if size <? length then size else length in
  let '(RingBuffer pool rm r wm w bs) := rb in
  if length <? bs - w then
    pool ← memcpy_at pool w ptr length;
    Some (length, RingBuffer pool rm r wm (u15 (w + length)) bs)
  else
    pool ← memcpy_at pool w ptr (bs - w);
    pool ← memcpy_at pool 0 (from ptr (bs - w)) (length - (bs - w));
    Some (length, RingBuffer pool rm r (negb wm) (u15 (length - (bs - w))) bs).

Definition rt_ringbuffer_put_force (rb : rt_ringbuffer) (ptr : list Z) (length : Z) : option (Z * rt_ringbuffer) :=
  let space_length := u16 (rt_ringbuffer_space_len rb) in
  let '(RingBuffer pool rm r wm w bs) := rb in
  let length := if space_length <? length then u16 bs else length in
  if length <? bs - w then
    pool ← memcpy_at pool w ptr length;
    let w' := u15 (w + length) in
    Some (length, RingBuffer pool rm (if space_length <? length then w' else r) wm w' bs)
  else
    pool ← memcpy_at pool w ptr (bs - w);
    pool ← memcpy_at pool 0 (from ptr (bs - w)) (length - (bs - w));
    let w' := u15 (length - (bs - w)) in
    if space_length <? length
    then Some (length, RingBuffer pool (negb rm) w' (negb wm) w' bs)
    else Some (length, RingBuffer pool rm r (negb wm) w' bs).

(** The count, the caller's buffer and the ring buffer after the call. *)
Definition rt_ringbuffer_get (rb : rt_ringbuffer) (ptr : list Z) (length : Z) : option (Z * list Z * rt_ringbuffer) :=
  let size := rt_ringbuffer_data_len rb in
  if size =? 0 then Some (0, ptr, rb) else
  let length := if size <? length then u16 size else length in
  let '(RingBuffer pool rm r wm w bs) := rb in
  if length <? bs - r then
    ptr ← memcpy_at ptr 0 (from pool r) length;
    Some (length, ptr, RingBuffer pool rm (u15 (r + length)) wm w bs)
  else
    ptr ← memcpy_at ptr 0 (from pool r) (bs - r);
    ptr ← memcpy_at ptr (bs - r) pool (length - (bs - r));
    Some (length, ptr, RingBuffer pool (negb rm) (u15 (length - (bs - r))) wm w bs).

Definition rt_ringbuffer_putchar (rb : rt_ringbuffer) (ch : Z) : option (Z * rt_ringbuffer) :=
  if rt_ringbuffer_space_len rb =? 0 then Some (0, rb) else
  let '(RingBuffer pool rm r wm w bs) := rb in
  pool ← memcpy_at pool w [ch] 1;
  if w =? bs - 1
  then Some (1, RingBuffer pool rm r (negb wm) 0 bs)
  else Some (1, RingBuffer pool rm r wm (u15 (w + 1)) bs).

Definition rt_ringbuffer_putchar_force (rb : rt_ringbuffer) (ch : Z) : option (Z * rt_ringbuffer) :=
  let old_state := rt_ringbuffer_status rb in
  let '(RingBuffer pool rm r wm w bs) := rb in
  pool ← memcpy_at pool w [ch] 1;
  if w =? bs - 1 then
    if decide (old_state = RT_RINGBUFFER_FULL)
    then Some (1, RingBuffer pool (negb rm) 0 (negb wm) 0 bs)
    else Some (1, RingBuffer pool rm r (negb wm) 0 bs)
  else
    let w' := u15 (w + 1) in
    Some (1, RingBuffer pool rm (if decide (old_state = RT_RINGBUFFER_FULL) then w' else r) wm w' bs).

(** The result is the byte stored through [ch], when there is one. *)
Definition rt_ringbuffer_getchar (rb : rt_ringbuffer) : option (Z * option Z * rt_ringbuffer) :=
  if rt_ringbuffer_data_len rb =? 0 then Some (0, None, rb) else
  let '(RingBuffer pool rm r wm w bs) := rb in
  c ← pool !! Z.to_nat r;
  if r =? bs - 1
  then Some (1, Some c, RingBuffer pool (negb rm) 0 wm w bs)
  else Some (1, Some c, RingBuffer pool rm (u15 (r + 1)) wm w bs).

(** * The queue a ring buffer holds *)

(** [rb] holds the bytes [q], the oldest first: they are the [length q] bytes of the
    pool from the read index on, and the write index is where the next byte goes, in
    the mirror of the reader as long as it has not wrapped around. *)
Record rb_holds (rb : rt_ringbuffer) (q : list Z) : Prop := {
  rb_size : 0 < rb_buffer_size rb < 2 ^ 15;
  rb_pool : rb_buffer_size rb ≤ Z.of_nat (length (rb_buffer_ptr rb));
  rb_reader : 0 ≤ rb_read_index rb < rb_buffer_size rb;
  rb_fits : Z.of_nat (length q) ≤ rb_buffer_size rb;
  rb_writer :
    if rb_read_index rb + Z.of_nat (length q) <? rb_buffer_size rb
    then rb_write_mirror rb = rb_read_mirror rb ∧
         rb_write_index rb = rb_read_index rb + Z.of_nat (length q)
    else rb_write_mirror rb = negb (rb_read_mirror rb) ∧
         rb_write_index rb = rb_read_index rb + Z.of_nat (length q) - rb_buffer_size rb;
  rb_data : q = ring (rb_buffer_ptr rb) (Z.to_nat (rb_buffer_size rb))
                  (Z.to_nat (rb_read_index rb)) (length q)
}.

(** The write index as a place of the ring. *)
Lemma holds_write pool rm r wm w bs q :
  rb_holds (RingBuffer pool rm r wm w bs) q →
  0 ≤ w < bs ∧ Z.to_nat w = ((Z.to_nat r + length q) mod Z.to_nat bs)%nat.
Proof.
  intros [Hs _ Hr Hf Hw _]. simpl in *. destruct (Z.ltb_spec (r + Z.of_nat (length q)) bs) as [Hlt|Hge];
    destruct Hw as [_ ->]; (split; [lia|]).
  - rewrite Nat.mod_small by lia. lia.
  - replace (Z.to_nat r + length q)%nat
      with (Z.to_nat (r + Z.of_nat (length q) - bs) + 1 * Z.to_nat bs)%nat by lia.
    rewrite Nat.Div0.mod_add, Nat.mod_small; lia.
Qed.

Lemma holds_data_len rb q : rb_holds rb q → rt_ringbuffer_data_len rb = Z.of_nat (length q).
Proof.
  destruct rb as [pool rm r wm w bs]. intros [Hs _ Hr Hf Hw _].
  unfold rt_ringbuffer_data_len, rt_ringbuffer_status. simpl in *.
  destruct (Z.ltb_spec (r + Z.of_nat (length q)) bs) as [Hlt|Hge]; destruct Hw as [-> ->].
  - rewrite eqb_reflx. destruct (Z.eqb_spec r (r + Z.of_nat (length q))); [lia|].
    rewrite (proj2 (Z.ltb_lt _ _)) by lia. unfold u16. rewrite Z.mod_small; lia.
  - replace (Bool.eqb rm (negb rm)) with false by (by destruct rm).
    destruct (Z.eqb_spec r (r + Z.of_nat (length q) - bs)).
    { unfold u16. rewrite Z.mod_small; lia. }
    destruct (Z.ltb_spec r (r + Z.of_nat (length q) - bs)); [lia|]. unfold u16. rewrite Z.mod_small; lia.
Qed.
Lemma holds_space_len rb q :
  rb_holds rb q → rt_ringbuffer_space_len rb = rb_buffer_size rb - Z.of_nat (length q).
Proof. intros Hq. unfold rt_ringbuffer_space_len. by rewrite (holds_data_len rb q). Qed.
Lemma holds_full rb q :
  rb_holds rb q → rt_ringbuffer_status rb = RT_RINGBUFFER_FULL ↔ Z.of_nat (length q) = rb_buffer_size rb.
Proof.
  destruct rb as [pool rm r wm w bs]. intros [Hs _ Hr Hf Hw _]. unfold rt_ringbuffer_status. simpl in *.
  destruct (Z.ltb_spec (r + Z.of_nat (length q)) bs) as [Hlt|Hge]; destruct Hw as [-> ->].
  - rewrite eqb_reflx. destruct (_ =? _); split; (done || lia).
  - replace (Bool.eqb rm (negb rm)) with false by (by destruct rm).
    destruct (Z.eqb_spec r (r + Z.of_nat (length q) - bs)); split; (done || lia).
Qed.

Lemma memcpy_at_ok dst off src n :
  0 ≤ n ≤ Z.of_nat (length src) → 0 ≤ off → off + n ≤ Z.of_nat (length dst) →
  memcpy_at dst off src n = Some (list_inserts (Z.to_nat off) (take (Z.to_nat n) src) dst).
Proof.
  intros Hn Ho Hd. unfold memcpy_at.
  by rewrite !(proj2 (Z.leb_le _ _)) by lia.
Qed.

(** ** The two moves *)

(** Case analysis on the mirror of the writer before and after a move. *)
Ltac mirror_cases r q bs Hw :=
  destruct (Z.ltb_spec (r + Z.of_nat (length q)) bs); destruct Hw as [-> ->]; case_match;
  rewrite ?Z.ltb_lt, ?Z.ltb_ge in *; (split; [by rewrite ?negb_involutive|lia]) || lia.

(** Bytes copied to the write index and up to the end of the pool are appended,
    and the write index goes behind them, into the other mirror when it is at the
    end. *)
Definition write_move (rb : rt_ringbuffer) (data : list Z) : rt_ringbuffer :=
  let '(RingBuffer pool rm r wm w bs) := rb in
  let pool := list_inserts (Z.to_nat w) data pool in
  let w' := w + Z.of_nat (length data) in
  if w' <? bs then RingBuffer pool rm r wm w' bs else RingBuffer pool rm r (negb wm) (w' - bs) bs.
Lemma write_move_holds rb q data :
  rb_holds rb q → rb_write_index rb + Z.of_nat (length data) ≤ rb_buffer_size rb →
  Z.of_nat (length q + length data) ≤ rb_buffer_size rb →
  rb_holds (write_move rb data) (q ++ data).
Proof.
  destruct rb as [pool rm r wm w bs]. intros Hq Hd Hn. destruct (holds_write _ _ _ _ _ _ _ Hq) as [Hwb Hwm].
  destruct Hq as [Hs Hp Hr Hf Hw Hdata]. simpl in *.
  assert (Hring : q ++ data = ring (list_inserts (Z.to_nat w) data pool) (Z.to_nat bs) (Z.to_nat r)
                    (length (q ++ data))).
  { rewrite length_app, Hwm, ring_append by lia. by rewrite <- Hdata. }
  rewrite length_app, Nat2Z.inj_add in *.
  destruct (Z.ltb_spec (w + Z.of_nat (length data)) bs); constructor; simpl;
    rewrite ?length_inserts, ?length_app, ?Nat2Z.inj_add; try done; try lia.
  - mirror_cases r q bs Hw.
  - mirror_cases r q bs Hw.
Qed.

(** Moving the read index over [n] bytes that lie before the end of the pool drops
    them from the queue. *)
Definition read_move (rb : rt_ringbuffer) (n : Z) : rt_ringbuffer :=
  let '(RingBuffer pool rm r wm w bs) := rb in
  if r + n <? bs then RingBuffer pool rm (r + n) wm w bs else RingBuffer pool (negb rm) (r + n - bs) wm w bs.
Lemma read_move_holds rb q n :
  rb_holds rb q → 0 ≤ n ≤ Z.of_nat (length q) → rb_read_index rb + n ≤ rb_buffer_size rb →
  take (Z.to_nat n) q = take (Z.to_nat n) (from (rb_buffer_ptr rb) (rb_read_index rb)) ∧
  rb_holds (read_move rb n) (drop (Z.to_nat n) q).
Proof.
  destruct rb as [pool rm r wm w bs]. intros [Hs Hp Hr Hf Hw Hdata] Hn He. simpl in *.
  assert (Hring : q = take (Z.to_nat n) (drop (Z.to_nat r) pool) ++
    ring pool (Z.to_nat bs) (Z.to_nat r + Z.to_nat n) (length q - Z.to_nat n)).
  { rewrite Hdata at 1. rewrite <- ring_take by lia. f_equal. lia. }
  assert (Hlen : length (take (Z.to_nat n) (drop (Z.to_nat r) pool)) = Z.to_nat n).
  { rewrite length_take, length_drop. lia. }
  split. { rewrite Hring at 1. by rewrite take_app_length'. }
  assert (Hdrop : drop (Z.to_nat n) q =
    ring pool (Z.to_nat bs) (Z.to_nat r + Z.to_nat n) (length (drop (Z.to_nat n) q))).
  { rewrite Hring at 1. rewrite drop_app_length' by done. f_equal. by rewrite length_drop. }
  destruct (Z.ltb_spec (r + n) bs); constructor; simpl; try done; rewrite ?length_drop in *; try lia.
  - mirror_cases r q bs Hw.
  - rewrite Hdrop at 1. f_equal. lia.
  - mirror_cases r q bs Hw.
  - rewrite Hdrop at 1. replace (Z.to_nat r + Z.to_nat n)%nat with (Z.to_nat bs) by lia.
    rewrite <- ring_mod, Nat.Div0.mod_same. f_equal. lia.
Qed.

(** A block written in the two copies of the code is appended. *)
Lemma write_twice_eq pool rm r wm w bs d1 d2 :
  w + Z.of_nat (length d1) = bs → Z.of_nat (length d2) < bs →
  write_move (write_move (RingBuffer pool rm r wm w bs) d1) d2 =
  RingBuffer (list_inserts 0 d2 (list_inserts (Z.to_nat w) d1 pool)) rm r (negb wm) (Z.of_nat (length d2)) bs.
Proof.
  intros H1 H2. simpl. rewrite (proj2 (Z.ltb_ge _ bs)) by lia. simpl.
  replace (w + Z.of_nat (length d1) - bs) with 0 by lia. by rewrite (proj2 (Z.ltb_lt _ bs)) by lia.
Qed.

Lemma copy_twice pool rm r wm w bs q ptr len :
  rb_holds (RingBuffer pool rm r wm w bs) q → bs - w ≤ len ≤ bs - Z.of_nat (length q) →
  len ≤ Z.of_nat (length ptr) →
  ∃ pool1 pool2, memcpy_at pool w ptr (bs - w) = Some pool1 ∧
    memcpy_at pool1 0 (from ptr (bs - w)) (len - (bs - w)) = Some pool2 ∧
    rb_holds (RingBuffer pool2 rm r (negb wm) (len - (bs - w)) bs) (q ++ take (Z.to_nat len) ptr).
Proof.
  intros Hq Hl Hp. destruct (holds_write _ _ _ _ _ _ _ Hq) as [Hw _].
  pose proof (rb_pool _ _ Hq) as Hpl. pose proof (rb_size _ _ Hq) as Hs. simpl in Hpl, Hs.
  eexists _, _. split_and!; [apply memcpy_at_ok; lia| |].
  { apply memcpy_at_ok; [unfold from; rewrite length_drop; lia|lia|rewrite length_inserts; lia]. }
  change (Z.to_nat 0) with 0%nat. set (d1 := take (Z.to_nat (bs - w)) ptr). set (d2 := take _ (from _ _)).
  assert (H1 : Z.of_nat (length d1) = bs - w) by (unfold d1; rewrite length_take; lia).
  assert (H2 : Z.of_nat (length d2) = len - (bs - w)).
  { unfold d2, from. rewrite length_take, length_drop. lia. }
  assert (take (Z.to_nat len) ptr = d1 ++ d2) as ->.
  { unfold d1, d2, from. rewrite take_take_drop. f_equal. lia. }
  rewrite <- H2, (assoc_L (++)), <- (write_twice_eq pool rm r wm w bs d1 d2) by lia.
  apply write_move_holds; [apply write_move_holds; [done|simpl; lia..]|..].
  - simpl. rewrite (proj2 (Z.ltb_ge _ bs)) by lia. simpl. lia.
  - simpl. rewrite (proj2 (Z.ltb_ge _ bs)) by lia. rewrite length_app. simpl. lia.
Qed.

(** ** The operations *)

(** The ring buffer is empty after its initialisation, of the size rounded down to a
    multiple of four. *)
Lemma init_holds pool size :
  4 ≤ size < 2 ^ 15 → size ≤ Z.of_nat (length pool) →
  ∃ rb, rt_ringbuffer_init pool size = Some rb ∧ rb_holds rb [] ∧
    rb_buffer_size rb = size / 4 * 4 ∧ rb_buffer_ptr rb = pool.
Proof.
  intros Hs Hp. unfold rt_ringbuffer_init. rewrite (proj2 (Z.ltb_lt 0 size)) by lia.
  assert (He : i16 (Z.land size (Z.lnot (4 - 1))) = size / 4 * 4).
  { change (4 - 1) with (Z.ones 2). rewrite <- Z.ldiff_land, Z.ldiff_ones_r, Z.shiftr_div_pow2, Z.shiftl_mul_pow2 by lia.
    change (2 ^ 2) with 4. unfold i16. rewrite Z.mod_small; Z.to_euclidean_division_equations; lia. }
  rewrite He. eexists. split_and!; [done| |done|done].
  constructor; simpl; try done; try (Z.to_euclidean_division_equations; lia).
  rewrite (proj2 (Z.ltb_lt _ _)); [done|]. Z.to_euclidean_division_equations; lia.
Qed.

Lemma put_holds rb q ptr len :
  rb_holds rb q → 0 ≤ len < 2 ^ 16 → len ≤ Z.of_nat (length ptr) →
  let n := Z.min len (rb_buffer_size rb - Z.of_nat (length q)) in
  ∃ rb', rt_ringbuffer_put rb ptr len = Some (n, rb') ∧
    rb_holds rb' (q ++ take (Z.to_nat n) ptr) ∧ rb_buffer_size rb' = rb_buffer_size rb.
Proof.
  intros Hq Hl Hp n. unfold rt_ringbuffer_put. rewrite (holds_space_len rb q) by done.
  pose proof (rb_fits _ _ Hq) as Hf. pose proof (rb_size _ _ Hq) as Hs. pose proof (rb_pool _ _ Hq) as Hpl.
  assert (u16 (rb_buffer_size rb - Z.of_nat (length q)) = rb_buffer_size rb - Z.of_nat (length q)) as ->.
  { unfold u16. rewrite Z.mod_small; lia. }
  destruct (Z.eqb_spec (rb_buffer_size rb - Z.of_nat (length q)) 0) as [H0|H0].
  { exists rb. replace n with 0 by lia. rewrite take_0, app_nil_r. done. }
  replace (if _ <? _ then _ else len) with n by (destruct (Z.ltb_spec (rb_buffer_size rb - Z.of_nat (length q)) len); lia).
  assert (Hn : 0 ≤ n ≤ len ∧ Z.of_nat (length q) + n ≤ rb_buffer_size rb) by lia. clearbody n.
  assert (Hlen : length (take (Z.to_nat n) ptr) = Z.to_nat n) by (rewrite length_take; lia).
  destruct rb as [pool rm r wm w bs].
  destruct (holds_write _ _ _ _ _ _ _ Hq) as [Hw _]. simpl in Hs, Hf, Hpl, H0, Hn. unfold u15.
  destruct (Z.ltb_spec n (bs - w)).
  - rewrite memcpy_at_ok by lia. simpl. eexists. split_and!; [done| |done].
    pose proof (write_move_holds _ _ (take (Z.to_nat n) ptr) Hq) as Hm. simpl in Hm.
    rewrite Hlen, Z2Nat.id, (proj2 (Z.ltb_lt (w + n) bs)) in Hm by lia.
    rewrite Z.mod_small by lia. apply Hm; lia.
  - destruct (copy_twice _ _ _ _ _ _ _ ptr n Hq) as (p1 & p2 & -> & E2 & Hm); [lia..|]. simpl. rewrite E2. simpl.
    eexists. split_and!; [done| |done]. by rewrite Z.mod_small by lia.
Qed.

(** [rt_ringbuffer_put_force] of a block that fits is [rt_ringbuffer_put]. *)
Lemma put_force_fits rb q ptr len :
  rb_holds rb q → 0 ≤ len ≤ rb_buffer_size rb - Z.of_nat (length q) → len ≤ Z.of_nat (length ptr) →
  rt_ringbuffer_put_force rb ptr len = rt_ringbuffer_put rb ptr len.
Proof.
  intros Hq Hl Hp. unfold rt_ringbuffer_put_force, rt_ringbuffer_put. rewrite (holds_space_len rb q) by done.
  destruct rb as [pool rm r wm w bs]. destruct (holds_write _ _ _ _ _ _ _ Hq) as [Hw _].
  destruct Hq as [Hs Hpl Hr Hf _ _]. simpl in *.
  unfold u16, u15. rewrite (Z.mod_small (bs - _)) by lia.
  rewrite !(proj2 (Z.ltb_ge (bs - Z.of_nat (length q)) len)) by lia.
  destruct (Z.eqb_spec (bs - Z.of_nat (length q)) 0); [|done].
  replace len with 0 by lia. rewrite (proj2 (Z.ltb_lt 0 (bs - w))) by lia.
  rewrite memcpy_at_ok by lia. simpl. rewrite Z.add_0_r, Z.mod_small by lia. done.
Qed.

(** A block that does not fit is taken for one of the size of the buffer; what is
    left in the buffer depends on the mirrors. *)
Lemma put_force_over rb q ptr len :
  rb_holds rb q → rb_buffer_size rb - Z.of_nat (length q) < len < 2 ^ 16 → q ≠ [] →
  rb_buffer_size rb ≤ Z.of_nat (length ptr) →
  ∃ rb', rt_ringbuffer_put_force rb ptr len = Some (rb_buffer_size rb, rb') ∧
    rb_holds rb' (if Bool.eqb (rb_read_mirror rb) (rb_write_mirror rb) then []
                  else take (Z.to_nat (rb_buffer_size rb)) ptr).
Proof.
  intros Hq Hl Hne Hp. unfold rt_ringbuffer_put_force. rewrite (holds_space_len rb q) by done.
  destruct rb as [pool rm r wm w bs]. destruct (holds_write _ _ _ _ _ _ _ Hq) as [Hw _].
  destruct Hq as [Hs Hpl Hr Hf _ _]. simpl in *. destruct q as [|c q]; [done|]. simpl in *.
  unfold u16, u15. rewrite !Z.mod_small by lia.
  rewrite (proj2 (Z.ltb_lt _ len)), (proj2 (Z.ltb_ge bs (bs - w))), (proj2 (Z.ltb_lt _ bs)) by lia.
  assert (Hat : ∀ m pool', bs ≤ Z.of_nat (length pool') → rb_holds (RingBuffer pool' m w m w bs) []).
  { intros m pool' Hl'. constructor; simpl; try done; try lia. rewrite (proj2 (Z.ltb_lt _ bs)) by lia. by rewrite Z.add_0_r. }
  destruct (copy_twice _ _ _ _ _ _ [] ptr bs (Hat wm pool Hpl)) as (p1 & p2 & -> & E2 & Hm); [simpl; lia|lia|].
  simpl. rewrite E2. simpl. eexists. split; [done|].
  replace (bs - (bs - w)) with w in * by lia. rewrite (Z.mod_small w) by lia. pose proof (rb_pool _ _ Hm) as Hp2. simpl in Hm, Hp2.
  destruct (Bool.eqb_spec rm wm) as [->|Hrm]; [by apply Hat|]. destruct rm, wm; (exact Hm || by destruct Hrm).
Qed.

(** The caller's buffer after the copies. *)
Lemma memcpy_front dst src n :
  0 ≤ n ≤ Z.of_nat (length src) → n ≤ Z.of_nat (length dst) →
  memcpy_at dst 0 src n = Some (take (Z.to_nat n) src ++ drop (Z.to_nat n) dst).
Proof.
  intros Hn Hd. rewrite memcpy_at_ok by lia. f_equal. change (Z.to_nat 0) with 0%nat.
  rewrite <- (take_drop (Z.to_nat n) dst) at 1. apply list_inserts_0_r. rewrite !length_take. lia.
Qed.
Lemma memcpy_behind d dst src n k :
  0 ≤ n ≤ Z.of_nat (length src) → n ≤ Z.of_nat (length dst) → Z.of_nat (length d) = k →
  memcpy_at (d ++ dst) k src n = Some (d ++ take (Z.to_nat n) src ++ drop (Z.to_nat n) dst).
Proof.
  intros Hn Hd <-. rewrite memcpy_at_ok by (rewrite ?length_app; lia). f_equal.
  pose proof (memcpy_front dst src n Hn Hd) as Hf. rewrite memcpy_at_ok in Hf by lia. injection Hf as <-.
  rewrite Nat2Z.id. rewrite <- (Nat.add_0_r (length d)) at 1. apply list_inserts_app_r.
Qed.

Lemma get_holds rb q ptr len :
  rb_holds rb q → 0 ≤ len < 2 ^ 16 → Z.min len (Z.of_nat (length q)) ≤ Z.of_nat (length ptr) →
  let n := Z.to_nat (Z.min len (Z.of_nat (length q))) in
  ∃ rb', rt_ringbuffer_get rb ptr len = Some (Z.of_nat n, take n q ++ drop n ptr, rb') ∧
    rb_holds rb' (drop n q) ∧ rb_buffer_size rb' = rb_buffer_size rb.
Proof.
  intros Hq Hl Hp n. unfold rt_ringbuffer_get. rewrite (holds_data_len rb q) by done.
  pose proof (rb_fits _ _ Hq) as Hf. pose proof (rb_size _ _ Hq) as Hs. pose proof (rb_pool _ _ Hq) as Hpl.
  pose proof (rb_reader _ _ Hq) as Hr.
  destruct (Z.eqb_spec (Z.of_nat (length q)) 0) as [H0|H0].
  { exists rb. assert (n = 0%nat) as -> by lia. rewrite take_0, !drop_0. done. }
  replace (if _ <? _ then _ else len) with (Z.of_nat n).
  2:{ unfold u16. destruct (Z.ltb_spec (Z.of_nat (length q)) len); [rewrite Z.mod_small|]; lia. }
  assert (Hn : (n ≤ length q ∧ n ≤ length ptr)%nat) by lia. clearbody n.
  destruct rb as [pool rm r wm w bs]. simpl in Hs, Hf, Hpl, Hr. unfold u15.
  destruct (Z.ltb_spec (Z.of_nat n) (bs - r)).
  - destruct (read_move_holds _ _ (Z.of_nat n) Hq) as [Ht Hm]; [lia|simpl; lia|]. simpl in Ht, Hm.
    rewrite Nat2Z.id, (proj2 (Z.ltb_lt _ bs)) in * by lia.
    rewrite memcpy_front; [|unfold from; rewrite length_drop; lia|lia]. simpl. rewrite Nat2Z.id, <- Ht.
    eexists. split_and!; [done|by rewrite Z.mod_small by lia|done].
  - destruct (read_move_holds _ _ (bs - r) Hq) as [Ht Hm]; [lia|simpl; lia|]. simpl in Ht, Hm.
    rewrite (proj2 (Z.ltb_ge _ bs)) in Hm by lia.
    destruct (read_move_holds _ _ (Z.of_nat n - (bs - r)) Hm) as [Ht2 Hm2];
      [rewrite length_drop; lia|simpl; lia|]. simpl in Ht2, Hm2.
    rewrite (proj2 (Z.ltb_lt _ bs)) in Hm2 by lia. rewrite drop_drop in Hm2.
    replace (r + (bs - r) - bs) with 0 in * by lia. unfold from in Ht2 at 1. rewrite drop_0 in Ht2.
    rewrite memcpy_front; [|unfold from; rewrite length_drop; lia|lia]. simpl. rewrite <- Ht.
    rewrite memcpy_behind; [|lia|rewrite length_drop; lia|rewrite length_take; lia]. simpl.
    rewrite Z.mod_small, <- Ht2, drop_drop by lia. rewrite (assoc_L (++)), take_take_drop.
    replace (Z.to_nat (bs - r) + Z.to_nat (Z.of_nat n - (bs - r)))%nat with n in * by lia.
    eexists. split_and!; [done|done|done].
Qed.

Lemma putchar_holds rb q ch :
  rb_holds rb q → Z.of_nat (length q) < rb_buffer_size rb →
  ∃ rb', rt_ringbuffer_putchar rb ch = Some (1, rb') ∧ rb_holds rb' (q ++ [ch]) ∧
    rb_buffer_size rb' = rb_buffer_size rb.
Proof.
  intros Hq Hl. unfold rt_ringbuffer_putchar. rewrite (holds_space_len rb q) by done.
  rewrite (proj2 (Z.eqb_neq _ 0)) by lia.
  destruct rb as [pool rm r wm w bs]. destruct (holds_write _ _ _ _ _ _ _ Hq) as [Hw _].
  pose proof (rb_pool _ _ Hq) as Hpl. pose proof (rb_size _ _ Hq) as Hs. simpl in Hs, Hpl, Hl.
  pose proof (write_move_holds _ _ [ch] Hq) as Hm. simpl in Hm. specialize (Hm ltac:(lia) ltac:(lia)).
  rewrite memcpy_at_ok by (simpl; lia). simpl. unfold u15. rewrite Z.mod_small by lia.
  destruct (Z.eqb_spec w (bs - 1)) as [->|Hne]; eexists; (split; [done|split; [|done]]).
  - rewrite (proj2 (Z.ltb_ge _ bs)) in Hm by lia. by replace (bs - 1 + Z.of_nat 1 - bs) with 0 in Hm by lia.
  - by rewrite (proj2 (Z.ltb_lt _ bs)) in Hm by lia.
Qed.

Lemma getchar_holds rb c q :
  rb_holds rb (c :: q) →
  ∃ rb', rt_ringbuffer_getchar rb = Some (1, Some c, rb') ∧ rb_holds rb' q ∧
    rb_buffer_size rb' = rb_buffer_size rb.
Proof.
  intros Hq. unfold rt_ringbuffer_getchar. rewrite (holds_data_len rb (c :: q)) by done. simpl.
  destruct rb as [pool rm r wm w bs].
  pose proof (rb_pool _ _ Hq) as Hpl. pose proof (rb_size _ _ Hq) as Hs. pose proof (rb_reader _ _ Hq) as Hr.
  simpl in Hs, Hpl, Hr. destruct (read_move_holds _ _ 1 Hq) as [Ht Hm]; [simpl; lia|simpl; lia|].
  simpl in Ht, Hm. unfold from in Ht.
  assert (pool !! Z.to_nat r = Some c) as ->.
  { rewrite <- (Nat.add_0_r (Z.to_nat r)), <- lookup_drop.
    destruct (drop (Z.to_nat r) pool); [done|]. simpl in *. by injection Ht as ->. }
  simpl. unfold u15. rewrite Z.mod_small by lia.
  destruct (Z.eqb_spec r (bs - 1)) as [->|Hne]; eexists; (split; [done|split; [|done]]).
  - rewrite (proj2 (Z.ltb_ge _ bs)), drop_0 in Hm by lia. by replace (bs - 1 + 1 - bs) with 0 in Hm by lia.
  - by rewrite (proj2 (Z.ltb_lt _ bs)), drop_0 in Hm by lia.
Qed.

(** A forced character replaces the oldest one of a full buffer. *)
Lemma putchar_force_holds rb q ch :
  rb_holds rb q →
  ∃ rb', rt_ringbuffer_putchar_force rb ch = Some (1, rb') ∧
    rb_holds rb' (if Z.of_nat (length q) <? rb_buffer_size rb then q ++ [ch] else drop 1 q ++ [ch]) ∧
    rb_buffer_size rb' = rb_buffer_size rb.
Proof.
  intros Hq. pose proof (holds_full rb q Hq) as Hfull. pose proof (rb_fits _ _ Hq) as Hf.
  destruct (Z.ltb_spec (Z.of_nat (length q)) (rb_buffer_size rb)) as [Hlt|Hge].
  - destruct (putchar_holds rb q ch Hq Hlt) as (rb' & E & Hh & Hb). exists rb'. split; [|done].
    rewrite <- E. unfold rt_ringbuffer_putchar, rt_ringbuffer_putchar_force.
    rewrite (holds_space_len rb q), (proj2 (Z.eqb_neq _ 0)) by (done || lia).
    destruct (decide (rt_ringbuffer_status rb = RT_RINGBUFFER_FULL)) as [Ef|_]; [apply Hfull in Ef; lia|].
    by destruct rb.
  - unfold rt_ringbuffer_putchar_force.
    destruct (decide (rt_ringbuffer_status rb = RT_RINGBUFFER_FULL)) as [_|Ef]; [|destruct Ef; apply Hfull; lia].
    destruct rb as [pool rm r wm w bs]. destruct (holds_write _ _ _ _ _ _ _ Hq) as [Hw _].
    pose proof (rb_pool _ _ Hq) as Hpl. pose proof (rb_size _ _ Hq) as Hs. pose proof (rb_reader _ _ Hq) as Hr.
    pose proof (rb_writer _ _ Hq) as Hww. simpl in Hs, Hpl, Hr, Hge, Hf, Hww.
    destruct (read_move_holds _ _ 1 Hq) as [_ Hm]; [simpl; lia|simpl; lia|].
    simpl in Hm. change (Z.to_nat 1) with 1%nat in Hm.
    rewrite (proj2 (Z.ltb_ge _ bs)) in Hww by lia. destruct Hww as [-> ->].
    replace (r + Z.of_nat (length q) - bs) with r in * by lia.
    rewrite memcpy_at_ok by (simpl; lia). simpl.
    unfold u15. rewrite Z.mod_small by lia.
    destruct (Z.eqb_spec r (bs - 1)) as [->|Hne]; eexists; (split; [done|split; [|done]]).
    + rewrite (proj2 (Z.ltb_ge _ bs)) in Hm by lia. replace (bs - 1 + 1 - bs) with 0 in Hm by lia.
      pose proof (write_move_holds _ _ [ch] Hm) as Hm2. simpl in Hm2. rewrite length_drop in Hm2.
      specialize (Hm2 ltac:(lia) ltac:(lia)). rewrite (proj2 (Z.ltb_ge _ bs)) in Hm2 by lia.
      by replace (bs - 1 + Z.of_nat 1 - bs) with 0 in Hm2 by lia.
    + rewrite (proj2 (Z.ltb_lt _ bs)) in Hm by lia.
      pose proof (write_move_holds _ _ [ch] Hm) as Hm2. simpl in Hm2. rewrite length_drop in Hm2.
      specialize (Hm2 ltac:(lia) ltac:(lia)). by rewrite (proj2 (Z.ltb_lt _ bs)) in Hm2 by lia.
Qed.

(** * The bounded queue it refines *)

Inductive rb_op :=
  | OpPut (data : list Z)
  | OpPutchar (ch : Z)
  | OpPutcharForce (ch : Z)
  | OpGet (buf : list Z)
  | OpGetchar.
(** The value a call returns and the bytes it stores for the caller. *)
Definition rb_result : Type := Z * list Z.

Definition rb_exec (op : rb_op) (rb : rt_ringbuffer) : option (rb_result * rt_ringbuffer) :=
  match op with
  | OpPut data => '(n, rb) ← rt_ringbuffer_put rb data (Z.of_nat (length data)); Some (n, [], rb)
  | OpPutchar ch => '(n, rb) ← rt_ringbuffer_putchar rb ch; Some (n, [], rb)
  | OpPutcharForce ch => '(n, rb) ← rt_ringbuffer_putchar_force rb ch; Some (n, [], rb)
  | OpGet buf => rt_ringbuffer_get rb buf (Z.of_nat (length buf))
  | OpGetchar => '(n, ch, rb) ← rt_ringbuffer_getchar rb; Some (n, option_list ch, rb)
  end.
Fixpoint rb_run (ops : list rb_op) (rb : rt_ringbuffer) : option (list rb_result * rt_ringbuffer) :=
  match ops with
  | [] => Some ([], rb)
  | op :: ops => '(x, rb) ← rb_exec op rb; '(xs, rb) ← rb_run ops rb; Some (x :: xs, rb)
  end.

(** The specification: a queue of at most [cap] bytes that takes as many bytes as
    fit and gives as many as it has. *)
Definition fifo_exec (cap : nat) (op : rb_op) (q : list Z) : rb_result * list Z :=
  match op with
  | OpPut data => let d := take (cap - length q) data in (Z.of_nat (length d), [], q ++ d)
  | OpPutchar ch => let d := take (cap - length q) [ch] in (Z.of_nat (length d), [], q ++ d)
  | OpPutcharForce ch => (1, [], drop (S (length q) - cap) (q ++ [ch]))
  | OpGet buf => let d := take (length buf) q in
    (Z.of_nat (length d), d ++ drop (length d) buf, drop (length d) q)
  | OpGetchar => (Z.of_nat (length (take 1 q)), take 1 q, drop 1 q)
  end.
Fixpoint fifo_run (cap : nat) (ops : list rb_op) (q : list Z) : list rb_result * list Z :=
  match ops with
  | [] => ([], q)
  | op :: ops => let '(x, q) := fifo_exec cap op q in
                 let '(xs, q) := fifo_run cap ops q in (x :: xs, q)
  end.

(** The lengths the interface can express. *)
Definition op_ok (op : rb_op) : Prop :=
  match op with
  | OpPut data => Z.of_nat (length data) < 2 ^ 16
  | OpGet buf => Z.of_nat (length buf) < 2 ^ 16
  | _ => True
  end.
#[global] Instance op_ok_dec op : Decision (op_ok op).
Proof. destruct op; apply _. Defined.

Lemma rb_exec_refines op rb q :
  rb_holds rb q → op_ok op →
  let '(x, q') := fifo_exec (Z.to_nat (rb_buffer_size rb)) op q in
  ∃ rb', rb_exec op rb = Some (x, rb') ∧ rb_holds rb' q' ∧ rb_buffer_size rb' = rb_buffer_size rb.
Proof.
  intros Hq Hok. pose proof (rb_fits _ _ Hq) as Hf. pose proof (rb_size _ _ Hq) as Hs.
  destruct op as [data|ch|ch|buf|]; simpl in *.
  - destruct (put_holds rb q data (Z.of_nat (length data))) as (rb' & -> & Hh & Hb); [done|lia..|].
    exists rb'. simpl. rewrite length_take. split_and!; [repeat f_equal; lia| |done].
    replace (take (Z.to_nat (rb_buffer_size rb) - length q) data) with
      (take (Z.to_nat (Z.min (Z.of_nat (length data)) (rb_buffer_size rb - Z.of_nat (length q)))) data); [done|].
    destruct (Z.min_spec (Z.of_nat (length data)) (rb_buffer_size rb - Z.of_nat (length q))) as [[? ->]|[? ->]];
      [|f_equal; lia]. rewrite !take_ge by lia. done.
  - destruct (decide (Z.of_nat (length q) < rb_buffer_size rb)) as [Hlt|Hge].
    + destruct (putchar_holds rb q ch Hq Hlt) as (rb' & -> & Hh & Hb).
      rewrite take_ge by (simpl; lia). by exists rb'.
    + exists rb. unfold rt_ringbuffer_putchar. rewrite (holds_space_len rb q), (proj2 (Z.eqb_eq _ _)) by (done || lia).
      replace (Z.to_nat (rb_buffer_size rb) - length q)%nat with 0%nat by lia. by rewrite take_0, app_nil_r.
  - destruct (putchar_force_holds rb q ch Hq) as (rb' & -> & Hh & Hb). exists rb'. simpl. split_and!; [done| |done].
    destruct (Z.ltb_spec (Z.of_nat (length q)) (rb_buffer_size rb)).
    + by replace (S (length q) - Z.to_nat (rb_buffer_size rb))%nat with 0%nat by lia.
    + replace (S (length q) - Z.to_nat (rb_buffer_size rb))%nat with 1%nat by lia.
      by rewrite drop_app_le by lia.
  - destruct (get_holds rb q buf (Z.of_nat (length buf))) as (rb' & -> & Hh & Hb); [done|lia..|].
    exists rb'. rewrite length_take.
    replace (Z.to_nat (Z.min (Z.of_nat (length buf)) (Z.of_nat (length q))))
      with (length buf `min` length q)%nat in * by lia.
    split_and!; [|done|done]. by rewrite <- take_take, (take_ge q (length q)).
  - destruct q as [|c q].
    + exists rb. unfold rt_ringbuffer_getchar. by rewrite (holds_data_len rb []).
    + destruct (getchar_holds rb c q Hq) as (rb' & -> & Hh & Hb). exists rb'. simpl. by rewrite take_0.
Qed.

(** C31. The ring buffer refines a bounded queue of bytes: initialised on a pool of at
    least four bytes, every sequence of [put], [putchar], [putchar_force], [get] and
    [getchar] calls stays inside the pool and the buffers of the callers and returns
    what the queue of capacity [size] rounded down to a multiple of four returns, and
    the buffer holds that queue at the end.  Wrapping of the indices and the mirror
    bits are invisible. *)
Theorem rt_ringbuffer_refines_fifo pool size ops :
  4 ≤ size < 2 ^ 15 → size ≤ Z.of_nat (length pool) → Forall op_ok ops →
  let '(xs, q) := fifo_run (Z.to_nat (size / 4 * 4)) ops [] in
  ∃ rb rb', rt_ringbuffer_init pool size = Some rb ∧
    rb_run ops rb = Some (xs, rb') ∧ rb_holds rb' q.
Proof.
  intros Hs Hp Hok. destruct (init_holds pool size Hs Hp) as (rb & Hi & Hq & Hb & _). rewrite <- Hb. clear Hb.
  assert (Hrun : let '(xs, q) := fifo_run (Z.to_nat (rb_buffer_size rb)) ops [] in
    ∃ rb', rb_run ops rb = Some (xs, rb') ∧ rb_holds rb' q).
  2:{ destruct (fifo_run _ ops []) as [xs q]. destruct Hrun as (rb' & ? & ?). by exists rb, rb'. }
  clear Hi. revert rb Hq. generalize (@nil Z). induction Hok as [|op ops Hop Hok IH]; intros q rb Hq; simpl; [by exists rb|].
  pose proof (rb_exec_refines op rb q Hq Hop) as Hx. destruct (fifo_exec _ op q) as [x q1].
  destruct Hx as (rb1 & -> & Hq1 & <-). specialize (IH q1 rb1 Hq1). destruct (fifo_run _ ops q1) as [xs q2].
  destruct IH as (rb2 & E & Hq2). simpl. rewrite E. by exists rb2.
Qed.
Lemma rt_ringbuffer_refines_fifo_witness :
  let ops := [OpPut [1; 2; 3; 4; 5; 6; 7]; OpGetchar; OpGet [0; 0; 0]; OpPut [8; 9; 10; 11; 12; 13]; OpPutcharForce 14] in
  let '(xs, q) := fifo_run (Z.to_nat (10 / 4 * 4)) ops [] in
  ∃ rb rb', rt_ringbuffer_init (repeat 0 10) 10 = Some rb ∧ rb_run ops rb = Some (xs, rb') ∧ rb_holds rb' q.
Proof.
  apply (rt_ringbuffer_refines_fifo (repeat 0 10) 10); [lia|simpl; lia|].
  repeat constructor; simpl; lia.
Defined.

(** A block put into a buffer with room for it comes out again behind what was in
    the buffer, byte for byte and across the end of the pool, and the buffer is empty
    afterwards. *)
Theorem rt_ringbuffer_put_get rb q data buf :
  rb_holds rb q → Z.of_nat (length q + length data) ≤ rb_buffer_size rb →
  length buf = (length q + length data)%nat →
  ∃ rb1 rb2, rt_ringbuffer_put rb data (Z.of_nat (length data)) = Some (Z.of_nat (length data), rb1) ∧
    rt_ringbuffer_get rb1 buf (Z.of_nat (length buf)) = Some (Z.of_nat (length buf), q ++ data, rb2) ∧
    rb_holds rb2 [].
Proof.
  intros Hq Hn Hl. pose proof (rb_size _ _ Hq) as Hs.
  destruct (put_holds rb q data (Z.of_nat (length data))) as (rb1 & E1 & Hq1 & _); [done|lia..|].
  rewrite Z.min_l in E1, Hq1 by lia. rewrite Nat2Z.id, take_ge in Hq1 by done.
  destruct (get_holds rb1 (q ++ data) buf (Z.of_nat (length buf))) as (rb2 & E2 & Hq2 & _); [done|lia|rewrite length_app; lia|].
  rewrite length_app, <- Hl, Z.min_id, Nat2Z.id in E2, Hq2.
  rewrite take_ge, (drop_ge buf), app_nil_r in E2 by (rewrite ?length_app; lia).
  rewrite drop_ge in Hq2 by (rewrite length_app; lia). by exists rb1, rb2.
Qed.
Definition rb_demo : rt_ringbuffer := RingBuffer [7; 0; 0; 0; 0; 0; 5; 6] false 6 true 1 8.
Lemma rb_demo_holds : rb_holds rb_demo [5; 6; 7].
Proof. constructor; simpl; try done; lia. Qed.
Lemma rt_ringbuffer_put_get_witness :
  ∃ rb1 rb2, rt_ringbuffer_put rb_demo [8; 9] 2 = Some (2, rb1) ∧
    rt_ringbuffer_get rb1 [0; 0; 0; 0; 0] 5 = Some (5, [5; 6; 7; 8; 9], rb2) ∧ rb_holds rb2 [].
Proof. apply (rt_ringbuffer_put_get rb_demo [5; 6; 7] [8; 9] [0; 0; 0; 0; 0] rb_demo_holds); simpl; (lia || done). Defined.

(** [rt_ringbuffer_put_force] on every branch.  A block that fits is put.  One that
    does not fit is replaced by the first [buffer_size] bytes at the caller's pointer
    (more than the caller passed, when the block is shorter than the buffer), all of
    them are written, and [buffer_size] is returned; but they stay in the buffer only
    when reader and writer are in different mirrors: when they are in the same mirror
    both mirror bits flip, the buffer counts as empty and the old and the new data are
    lost. *)
Theorem rt_ringbuffer_put_force_correct rb q ptr len :
  rb_holds rb q → q ≠ [] → 0 ≤ len < 2 ^ 16 →
  Z.max len (rb_buffer_size rb) ≤ Z.of_nat (length ptr) →
  let space := rb_buffer_size rb - Z.of_nat (length q) in
  ∃ rb', rt_ringbuffer_put_force rb ptr len =
           Some (if len <=? space then len else rb_buffer_size rb, rb') ∧
    rb_holds rb' (if len <=? space then q ++ take (Z.to_nat len) ptr
                  else if Bool.eqb (rb_read_mirror rb) (rb_write_mirror rb) then []
                  else take (Z.to_nat (rb_buffer_size rb)) ptr).
Proof.
  intros Hq Hne Hl Hp space. destruct (Z.leb_spec len space) as [Hle|Hgt].
  - rewrite (put_force_fits rb q) by (done || lia).
    destruct (put_holds rb q ptr len) as (rb' & E & Hh & _); [done|lia..|].
    rewrite Z.min_l in E, Hh by lia. by exists rb'.
  - apply (put_force_over rb q); (done || lia).
Qed.
Lemma rt_ringbuffer_put_force_correct_witness :
  ∃ rb', rt_ringbuffer_put_force (RingBuffer (repeat 0 8) false 0 false 3 8) [1; 2; 3; 4; 5; 6; 7; 8] 6
    = Some (8, rb') ∧ rb_holds rb' [].
Proof.
  apply (rt_ringbuffer_put_force_correct (RingBuffer (repeat 0 8) false 0 false 3 8) [0; 0; 0] [1; 2; 3; 4; 5; 6; 7; 8] 6);
    [constructor; simpl; try done; lia|done|lia|simpl; lia].
Defined.

(** A buffer initialised with fewer than four bytes has no room, and forced
    characters run out of its pool. *)
Example putchar_force_tiny :
  (rb ← rt_ringbuffer_init [0; 0; 0] 3;
   rb_run [OpPutchar 1; OpPutcharForce 2; OpPutcharForce 3; OpPutcharForce 4] rb) =
    Some ([(0, []); (1, []); (1, []); (1, [])], RingBuffer [2; 3; 4] false 0 false 3 0) ∧
  rb_run [OpPutcharForce 5] (RingBuffer [2; 3; 4] false 0 false 3 0) = None.
Proof. split; reflexivity. Qed.

(** Singly linked chains of blocks: the [next] fields of a pool as a map, and the
    sequence of blocks that is reached from a pointer. *)

(** The blocks reached from [p] through the [next] fields. *)
Fixpoint chain (next : gmap Z (option Z)) (p : option Z) (l : list Z) : Prop :=
  match l with
  | [] => p = None
  | b :: l' => p = Some b ∧ ∃ q, next !! b = Some q ∧ chain next q l'
  end.

Lemma chain_ext next next' p l :
  (∀ b, b ∈ l → next' !! b = next !! b) → chain next p l → chain next' p l.
Proof.
  revert p. induction l as [|b l IH]; simpl; intros p Hl; [done|].
  intros (-> & q & Hq & Hc). split; [done|]. exists q. rewrite Hl by (by left).
  split; [done|]. apply IH; [|done]. intros. apply Hl. by right.
Qed.
Lemma chain_insert next b v p l : b ∉ l → chain next p l → chain (<[b := v]> next) p l.
Proof. intros Hb. apply chain_ext. intros c Hc. apply lookup_insert_ne. by intros ->. Qed.

Lemma NoDup_middle (l1 l2 : list Z) b : NoDup (l1 ++ b :: l2) → b ∉ l1 ++ l2.
Proof. rewrite <- Permutation_middle. by intros [? _]%NoDup_cons. Qed.

(** Linking a last block. *)
Lemma chain_append next p l b :
  b ∉ l → NoDup l → next !! b = Some None → chain next p l →
  chain (match last l with Some t => <[t := Some b]> next | None => next end)
    (match p with None => Some b | Some h => Some h end) (l ++ [b]).
Proof.
  revert p. induction l as [|c l IH]; simpl; intros p Hb Hnd Hnb.
  { intros ->. simpl. split; [done|]. by exists None. }
  intros (-> & q & Hq & Hc). apply NoDup_cons in Hnd as [Hcl Hnd].
  split; [done|]. specialize (IH q ltac:(set_solver) Hnd Hnb Hc).
  destruct l as [|d l].
  - simpl in *. subst q. exists (Some b). rewrite lookup_insert_eq. split; [done|]. split; [done|].
    exists None. rewrite lookup_insert_ne by set_solver. done.
  - exists q. replace (last (c :: d :: l)) with (last (d :: l)) by done.
    assert (∃ t, last (d :: l) = Some t ∧ t ∈ d :: l) as (t & Et & Ht).
    { destruct (last (d :: l)) as [t|] eqn:E; [|by apply last_None in E].
      exists t. split; [done|]. apply last_Some in E as [l' ->]. set_solver. }
    rewrite Et in *. rewrite lookup_insert_ne by set_solver. split; [done|].
    destruct q; [done|]. by destruct Hc as [? _].
Qed.

Lemma chain_dom next p l b : chain next p l → b ∈ l → is_Some (next !! b).
Proof.
  revert p. induction l as [|c l IH]; simpl; intros p; [by intros _ ?%not_elem_of_nil|].
  intros (_ & q & Hq & Hc) [->|Hb]%elem_of_cons; eauto.
Qed.
