(* ===== verification/Mailbox.v ===== *)
(** Mailboxes, [rt-thread/src/ipc.c]: a ring of 32-bit mails with blocking send and
    receive. *)

From stdpp Require Import base gmap list fin_maps.
From Stdlib Require Import ZArith Lia.
From S2P Require Import Prelude IntrusiveList Ffs Kservice KState Object Sched Timer KInv SchedFacts.
From S2P Require Import TimerFacts Thread Ipc IpcFacts Ring.

Open Scope Z_scope.

(** [contents] is the memory at [msgpool]. *)
Definition rt_mb_init (a : Z) (name : list Z) (msgpool : Z) (contents : list Z) (size flag : Z) : K Z :=
  rt_object_init (OMailBox a) ClassMailBox name;;
  _ ← rt_ipc_object_init (LMbRecv a);
  put_mailbox a (mk_mailbox (u8 flag) msgpool contents (u16 size) 0 0 0);;
  tlist_init (LMbSend a);;
  mret RT_EOK.

Definition rt_mb_detach (a : Z) : K Z :=
  _ ← resume_all (LMbRecv a);
  _ ← resume_all (LMbSend a);
  rt_object_detach (OMailBox a);;
  mret RT_EOK.

(** [block] is the memory the object is allocated in, [pool] the message pool with
    its contents. *)
Definition rt_mb_create (block : option Z) (pool : option (Z * list Z)) (name : list Z)
    (size flag : Z) : K (option Z) :=
  RT_DEBUG_NOT_IN_INTERRUPT;;
  p ← rt_object_allocate ClassMailBox name block OMailBox;
  match p with
  | None => mret None
  | Some a =>
    _ ← rt_ipc_object_init (LMbRecv a);
    match pool with
    | None => rt_object_delete (OMailBox a) a;; mret None
    | Some (msgpool, contents) =>
      put_mailbox a (mk_mailbox (u8 flag) msgpool contents (u16 size) 0 0 0);;
      tlist_init (LMbSend a);;
      mret (Some a)
    end
  end.

Definition rt_mb_delete (a : Z) : K Z :=
  RT_DEBUG_NOT_IN_INTERRUPT;;
  _ ← resume_all (LMbRecv a);
  _ ← resume_all (LMbSend a);
  x ← get_mailbox a;
  RT_KERNEL_FREE (mb_msg_pool x);;
  rt_object_delete (OMailBox a) a;;
  mret RT_EOK.

(** [++ offset; if (offset >= size) offset = 0;] *)
Definition mb_advance (offset size : Z) : Z :=
  let offset := u16 (offset + 1) in if size <=? offset then 0 else offset.

(** The end of [rt_mb_send_wait]: the mail is stored and a receiver woken. *)
Definition mb_put (a value : Z) : K Z :=
  x ← get_mailbox a;
  if (0 <=? mb_in_offset x) && (mb_in_offset x <? Z.of_nat (length (mb_msgs x))) then
    put_mailbox a (set_mb_entry (u16 (mb_entry x + 1))
      (set_mb_in_offset (mb_advance (mb_in_offset x) (mb_size x))
        (set_mb_msgs (<[Z.to_nat (mb_in_offset x) := u32 value]> (mb_msgs x)) x)));;
    e ← tlist_isempty (LMbRecv a);
    when (negb e) (_ ← rt_ipc_list_resume (LMbRecv a); rt_schedule);;
    mret RT_EOK
  else fail BadPointer.

(** The loop of [rt_mb_send_wait], from the test of its condition to the context
    switch.  A wait carries the timeout and the tick it started at. *)
Definition mb_send_loop (a value timeout : Z) : K (call Z (Z * Z)) :=
  x ← get_mailbox a;
  if mb_entry x =? mb_size x then
    t ← self;
    upd_thread t (set_th_error RT_EOK);;
    if timeout =? 0 then mret (Return (- RT_EFULL))
    else
      RT_DEBUG_IN_THREAD_CONTEXT;;
      _ ← rt_ipc_list_suspend (LMbSend a) t (mb_flag x);
      start ← wait_start timeout;
      wait_timer t timeout;;
      rt_schedule;;
      mret (Wait (timeout, start))
  else r ← mb_put a value; mret (Return r).

Definition rt_mb_send_wait (a value timeout : Z) : K (call Z (Z * Z)) :=
  x ← get_mailbox a;
  if (mb_entry x =? mb_size x) && (timeout =? 0) then mret (Return (- RT_EFULL))
  else mb_send_loop a value timeout.
(** The sender [t] after the switch back. *)
Definition rt_mb_send_wait_resumed (t a value : Z) (w : Z * Z) : K (call Z (Z * Z)) :=
  th ← get_thread t;
  if th_error th =? RT_EOK then
    timeout ← wait_left w.1 w.2;
    mb_send_loop a value timeout
  else mret (Return (th_error th)).

Definition rt_mb_send (a value : Z) : K (call Z (Z * Z)) := rt_mb_send_wait a value 0.

(** The end of [rt_mb_recv]: the mail is taken and a sender woken. *)
Definition mb_take (a : Z) : K (Z * option Z) :=
  x ← get_mailbox a;
  if (0 <=? mb_out_offset x) && (mb_out_offset x <? Z.of_nat (length (mb_msgs x))) then
    let value := mb_msgs x !!! Z.to_nat (mb_out_offset x) in
    put_mailbox a (set_mb_entry (u16 (mb_entry x - 1))
      (set_mb_out_offset (mb_advance (mb_out_offset x) (mb_size x)) x));;
    e ← tlist_isempty (LMbSend a);
    when (negb e) (_ ← rt_ipc_list_resume (LMbSend a); rt_schedule);;
    mret (RT_EOK, Some value)
  else fail BadPointer.

Definition mb_recv_loop (a timeout : Z) : K (call (Z * option Z) (Z * Z)) :=
  x ← get_mailbox a;
  if mb_entry x =? 0 then
    t ← self;
    upd_thread t (set_th_error RT_EOK);;
    if timeout =? 0 then
      upd_thread t (set_th_error (- RT_ETIMEOUT));;
      mret (Return (- RT_ETIMEOUT, None))
    else
      RT_DEBUG_IN_THREAD_CONTEXT;;
      _ ← rt_ipc_list_suspend (LMbRecv a) t (mb_flag x);
      start ← wait_start timeout;
      wait_timer t timeout;;
      rt_schedule;;
      mret (Wait (timeout, start))
  else r ← mb_take a; mret (Return r).

(** The result of a return is the error code and the mail stored through [value],
    if one is stored. *)
Definition rt_mb_recv (a timeout : Z) : K (call (Z * option Z) (Z * Z)) :=
  x ← get_mailbox a;
  if (mb_entry x =? 0) && (timeout =? 0) then mret (Return (- RT_ETIMEOUT, None))
  else mb_recv_loop a timeout.
Definition rt_mb_recv_resumed (t a : Z) (w : Z * Z) : K (call (Z * option Z) (Z * Z)) :=
  th ← get_thread t;
  if th_error th =? RT_EOK then
    timeout ← wait_left w.1 w.2;
    mb_recv_loop a timeout
  else mret (Return (th_error th, None)).

Definition rt_mb_control (a cmd : Z) : K Z :=
  if cmd =? RT_IPC_CMD_RESET then
    _ ← resume_all (LMbRecv a);
    _ ← resume_all (LMbSend a);
    upd_mailbox a (λ x, set_mb_out_offset 0 (set_mb_in_offset 0 (set_mb_entry 0 x)));;
    rt_schedule;;
    mret RT_EOK
  else mret (- RT_ERROR).

(** * The mailbox as a queue *)

Record mb_ok (x : rt_mailbox) : Prop := {
  mb_size_range : 0 < mb_size x < 2 ^ 16;
  mb_pool : length (mb_msgs x) = Z.to_nat (mb_size x);
  mb_entry_range : 0 ≤ mb_entry x ≤ mb_size x;
  mb_out_range : 0 ≤ mb_out_offset x < mb_size x;
  mb_in : mb_in_offset x = (mb_out_offset x + mb_entry x) mod mb_size x;
  mb_flag_ok : mb_flag x = RT_IPC_FLAG_FIFO ∨ mb_flag x = RT_IPC_FLAG_PRIO;
}.

(** The mails in the box, oldest first. *)
Definition mb_queue (x : rt_mailbox) : list Z :=
  ring (mb_msgs x) (Z.to_nat (mb_size x)) (Z.to_nat (mb_out_offset x)) (Z.to_nat (mb_entry x)).

Lemma mb_advance_mod i size : 0 ≤ i < size → size < 2 ^ 16 → mb_advance i size = (i + 1) mod size.
Proof.
  intros Hi Hs. unfold mb_advance, u16. rewrite (Z.mod_small _ (2 ^ 16)) by lia.
  destruct (Z.leb_spec size (i + 1)); [|rewrite Z.mod_small; lia].
  replace (i + 1) with size by lia. by rewrite Z.mod_same by lia.
Qed.

Definition mb_pushed (v : Z) (x : rt_mailbox) : rt_mailbox :=
  set_mb_entry (u16 (mb_entry x + 1))
    (set_mb_in_offset (mb_advance (mb_in_offset x) (mb_size x))
      (set_mb_msgs (<[Z.to_nat (mb_in_offset x) := u32 v]> (mb_msgs x)) x)).
Definition mb_popped (x : rt_mailbox) : rt_mailbox :=
  set_mb_entry (u16 (mb_entry x - 1))
    (set_mb_out_offset (mb_advance (mb_out_offset x) (mb_size x)) x).

Lemma mb_in_range x : mb_ok x → 0 ≤ mb_in_offset x < mb_size x.
Proof. intros []. rewrite mb_in0. apply Z.mod_pos_bound. lia. Qed.

Lemma mb_pushed_queue v x :
  mb_ok x → mb_entry x < mb_size x →
  mb_ok (mb_pushed v x) ∧ mb_queue (mb_pushed v x) = mb_queue x ++ [u32 v].
Proof.
  intros Hok Hlt. pose proof (mb_in_range _ Hok). destruct Hok as [Hs Hp He Ho Hi Hf].
  assert (Eu : u16 (mb_entry x + 1) = mb_entry x + 1) by (unfold u16; rewrite Z.mod_small; lia).
  split.
  - split; simpl; rewrite ?Eu; try done; [by rewrite length_insert|lia|].
    rewrite mb_advance_mod, Hi, Zplus_mod_idemp_l by lia. f_equal. lia.
  - unfold mb_queue, mb_pushed. simpl. rewrite Eu.
    rewrite Z2Nat.inj_add, Nat.add_1_r by lia.
    rewrite Hi, Z2Nat.inj_mod, Z2Nat.inj_add by lia. apply ring_push; lia.
Qed.

Lemma mb_popped_queue x :
  mb_ok x → 0 < mb_entry x →
  mb_ok (mb_popped x) ∧
  mb_queue x = (mb_msgs x !!! Z.to_nat (mb_out_offset x)) :: mb_queue (mb_popped x).
Proof.
  intros [Hs Hp He Ho Hi Hf] Hpos.
  assert (Eu : u16 (mb_entry x - 1) = mb_entry x - 1) by (unfold u16; rewrite Z.mod_small; lia).
  split.
  - split; simpl; rewrite ?Eu; try done; [lia| |].
    + rewrite mb_advance_mod by lia. apply Z.mod_pos_bound. lia.
    + rewrite mb_advance_mod, Hi, Zplus_mod_idemp_l by lia. f_equal. lia.
  - unfold mb_queue, mb_popped. simpl. rewrite Eu, mb_advance_mod by lia.
    rewrite Z2Nat.inj_mod, Z2Nat.inj_add by lia.
    replace (Z.to_nat (mb_entry x)) with (S (Z.to_nat (mb_entry x - 1))) by lia.
    rewrite ring_pop by lia. by rewrite Nat.mod_small by lia.
Qed.

(** ** Sending *)

Definition mb_sent (a t v timeout : Z) (x : rt_mailbox) (s : kstate)
    (r : call Z (Z * Z)) (s' : kstate) : Prop :=
  wf s' ∧ is_Some (ks_current s') ∧ ∃ x', ks_mailboxes s' = <[a := x']> (ks_mailboxes s) ∧ mb_ok x' ∧
  match r with
  | Return e =>
      (e = RT_EOK ∧ mb_queue x' = mb_queue x ++ [u32 v] ∧ woke (LMbRecv a) s s') ∨
      (e = - RT_EFULL ∧ timeout = 0 ∧ mb_entry x = mb_size x ∧ x' = x)
  | Wait w => mb_entry x = mb_size x ∧ x' = x ∧ w.1 = timeout ∧ timeout ≠ 0 ∧
      wait_deadline t timeout s s' ∧
      l_get (ks_lists s') (LMbSend a) ≡ₚ t :: l_get (ks_lists s) (LMbSend a) ∧
      (0 < timeout → w.2 = ks_tick s)
  end.

Lemma mb_put_spec s a x v :
  wf s → is_Some (ks_current s) → ks_mailboxes s !! a = Some x → mb_ok x → mb_entry x < mb_size x →
  wp (mb_put a v) (λ r s', wf s' ∧ is_Some (ks_current s') ∧ r = RT_EOK ∧ ∃ x',
    ks_mailboxes s' = <[a := x']> (ks_mailboxes s) ∧ mb_ok x' ∧
    mb_queue x' = mb_queue x ++ [u32 v] ∧ woke (LMbRecv a) s s') s.
Proof.
  intros Hwf Hc Hx Hok Hlt. pose proof (mb_in_range _ Hok).
  unfold mb_put. wp_step. eapply wp_get_mailbox; [done|].
  rewrite (proj2 (Z.leb_le _ _)), (proj2 (Z.ltb_lt _ _)) by (rewrite ?(mb_pool _ Hok); lia). simpl.
  wp_step. unfold put_mailbox. wp_step. fold (mb_pushed v x).
  destruct (mb_pushed_queue v x Hok Hlt) as [Hok' Hq]. set (s1 := set_ks_mailboxes _ s).
  eapply wp_bind_assoc, wp_bind, wp_mono; [apply (wake_spec s1 (LMbRecv a)); [by eapply wf_ext, Hwf|done|done]|].
  intros ? s' (Hwf' & Hc' & Hfr & Hwk). wp_step. split_and!; [done|done|done|].
  exists (mb_pushed v x). split_and!; [by rewrite (fr_mailboxes _ _ Hfr)|done|done|done].
Qed.

Lemma mb_send_loop_spec s a x t th v timeout :
  running s t th → ks_mailboxes s !! a = Some x → mb_ok x → timeout < HALF →
  wp (mb_send_loop a v timeout) (mb_sent a t v timeout x s) s.
Proof.
  intros Hr Hx Hok Htime. unfold mb_send_loop. wp_step. eapply wp_get_mailbox; [done|].
  destruct (Z.eqb_spec (mb_entry x) (mb_size x)) as [Hfull|Hfull].
  2:{ wp_step. eapply wp_mono; [apply (mb_put_spec s a x v); try done; [apply Hr|by eapply running_some|]|].
      - pose proof (mb_entry_range _ Hok). lia.
      - intros r s' (Hwf' & Hc' & -> & x' & Ex & Hok' & Hq & Hwk). wp_step.
        split; [done|]. split; [done|]. exists x'. split_and!; [done|done|]. by left. }
  wp_step. eapply wp_self; [apply Hr|]. wp_step. eapply wp_upd_thread; [apply Hr|].
  pose proof (running_error _ _ _ RT_EOK Hr) as Hr1. set (s1 := set_ks_threads _ s) in *.
  destruct (Z.eqb_spec timeout 0) as [Ht0|Ht0].
  { wp_step. split; [apply Hr1|]. split; [by eapply (running_some s1)|]. exists x.
    split_and!; [by rewrite insert_id|done|by right]. }
  wp_step. eapply wp_in_thread; [done|].
  eapply (wp_block_on_start _ _ s1 (LMbSend a) t); try done; try apply Hr1; [apply Hok|by eapply running_some|].
  intros s' Hb. wp_step. split; [apply Hb|]. split; [apply Hb|]. exists x. split_and!; try done.
  - rewrite (fr_mailboxes _ _ (bk_frame _ _ _ _ _ _ _ Hb)). simpl. by rewrite insert_id.
  - apply Hb.
  - rewrite (bk_list _ _ _ _ _ _ _ Hb). apply wait_insert_perm.
  - simpl. intros Hpos. by rewrite (proj2 (Z.ltb_lt _ _)).
Qed.

(** C9. [rt_mb_send_wait] implements a bounded FIFO queue: unless the box is full
    the mail is appended and the first waiting receiver made ready; a full box
    makes the call return an error at once (timeout 0) or wait in the list of
    senders; the invariants of the mailbox and of the kernel hold in each case.  A
    sender that is woken without an error goes on in the same way with the time it
    has left. *)
Theorem rt_mb_send_wait_refines s a x t th v timeout :
  running s t th → ks_mailboxes s !! a = Some x → mb_ok x → timeout < HALF →
  wp (rt_mb_send_wait a v timeout) (mb_sent a t v timeout x s) s ∧
  ∀ start, th_error th = RT_EOK → u32 (ks_tick s - start) ≤ 2 ^ 31 →
    wp (rt_mb_send_wait_resumed t a v (timeout, start))
      (mb_sent a t v (time_left s timeout start) x s) s.
Proof.
  intros Hr Hx Hok Htime. split.
  - unfold rt_mb_send_wait. wp_step. eapply wp_get_mailbox; [done|].
    destruct (Z.eqb_spec (mb_entry x) (mb_size x)) as [Hfull|Hfull]; simpl;
      [|by eapply mb_send_loop_spec].
    destruct (Z.eqb_spec timeout 0) as [Ht0|Ht0]; [|by eapply mb_send_loop_spec].
    wp_step. split; [apply Hr|]. split; [by eapply running_some|]. exists x.
    split_and!; [by rewrite insert_id|done|by right].
  - intros start He Hd. unfold rt_mb_send_wait_resumed. wp_step. eapply wp_get_thread; [apply Hr|].
    rewrite He. simpl. wp_step. apply wait_left_spec; [change HALF with (2 ^ 31 - 1) in Htime; lia|done|].
    eapply mb_send_loop_spec; try done. by apply time_left_range.
Qed.

(** ** Receiving *)

Definition mb_received (a t timeout : Z) (x : rt_mailbox) (s : kstate)
    (r : call (Z * option Z) (Z * Z)) (s' : kstate) : Prop :=
  wf s' ∧ is_Some (ks_current s') ∧ ∃ x', ks_mailboxes s' = <[a := x']> (ks_mailboxes s) ∧ mb_ok x' ∧
  match r with
  | Return (e, got) =>
      (e = RT_EOK ∧ (∃ v, got = Some v ∧ mb_queue x = v :: mb_queue x') ∧ woke (LMbSend a) s s') ∨
      (e = - RT_ETIMEOUT ∧ timeout = 0 ∧ mb_queue x = [] ∧ x' = x)
  | Wait w => mb_queue x = [] ∧ x' = x ∧ w.1 = timeout ∧ timeout ≠ 0 ∧
      wait_deadline t timeout s s' ∧
      l_get (ks_lists s') (LMbRecv a) ≡ₚ t :: l_get (ks_lists s) (LMbRecv a) ∧
      (0 < timeout → w.2 = ks_tick s)
  end.

Lemma mb_take_spec s a x :
  wf s → is_Some (ks_current s) → ks_mailboxes s !! a = Some x → mb_ok x → 0 < mb_entry x →
  wp (mb_take a) (λ r s', wf s' ∧ is_Some (ks_current s') ∧ ∃ v x', r = (RT_EOK, Some v) ∧
    ks_mailboxes s' = <[a := x']> (ks_mailboxes s) ∧ mb_ok x' ∧
    mb_queue x = v :: mb_queue x' ∧ woke (LMbSend a) s s') s.
Proof.
  intros Hwf Hc Hx Hok Hpos. pose proof (mb_out_range _ Hok).
  unfold mb_take. wp_step. eapply wp_get_mailbox; [done|].
  rewrite (proj2 (Z.leb_le _ _)), (proj2 (Z.ltb_lt _ _)) by (rewrite ?(mb_pool _ Hok); lia). simpl.
  wp_step. unfold put_mailbox. wp_step. fold (mb_popped x).
  destruct (mb_popped_queue x Hok Hpos) as [Hok' Hq]. set (s1 := set_ks_mailboxes _ s).
  eapply wp_bind_assoc, wp_bind, wp_mono; [apply (wake_spec s1 (LMbSend a)); [by eapply wf_ext, Hwf|done|done]|].
  intros ? s' (Hwf' & Hc' & Hfr & Hwk). wp_step. split_and!; [done|done|].
  eexists _, (mb_popped x). split_and!; [done|by rewrite (fr_mailboxes _ _ Hfr)|done|done|done].
Qed.

Lemma mb_queue_nil x : mb_entry x = 0 → mb_queue x = [].
Proof. intros E. unfold mb_queue. by rewrite E. Qed.

Lemma mb_recv_loop_spec s a x t th timeout :
  running s t th → ks_mailboxes s !! a = Some x → mb_ok x → timeout < HALF →
  wp (mb_recv_loop a timeout) (mb_received a t timeout x s) s.
Proof.
  intros Hr Hx Hok Htime. unfold mb_recv_loop. wp_step. eapply wp_get_mailbox; [done|].
  destruct (Z.eqb_spec (mb_entry x) 0) as [H0|H0].
  2:{ wp_step. eapply wp_mono; [apply (mb_take_spec s a x); try done; [apply Hr|by eapply running_some|]|].
      - pose proof (mb_entry_range _ Hok). lia.
      - intros r s' (Hwf' & Hc' & v & x' & -> & Ex & Hok' & Hq & Hwk). wp_step.
        split; [done|]. split; [done|]. exists x'. split_and!; [done|done|]. left. split_and!; eauto. }
  pose proof (mb_queue_nil _ H0) as Hnil.
  wp_step. eapply wp_self; [apply Hr|]. wp_step. eapply wp_upd_thread; [apply Hr|].
  pose proof (running_error _ _ _ RT_EOK Hr) as Hr1. set (s1 := set_ks_threads _ s) in *.
  destruct (Z.eqb_spec timeout 0) as [Ht0|Ht0].
  { wp_step. eapply wp_upd_thread; [apply Hr1|]. wp_step.
    split; [apply wf_set_error; apply Hr1|]. split; [by eapply (running_some s1)|]. exists x.
    split_and!; [by simpl; rewrite insert_id|done|by right]. }
  wp_step. eapply wp_in_thread; [done|].
  eapply (wp_block_on_start _ _ s1 (LMbRecv a) t); try done; try apply Hr1; [apply Hok|by eapply running_some|].
  intros s' Hb. wp_step. split; [apply Hb|]. split; [apply Hb|]. exists x. split_and!; try done.
  - rewrite (fr_mailboxes _ _ (bk_frame _ _ _ _ _ _ _ Hb)). simpl. by rewrite insert_id.
  - apply Hb.
  - rewrite (bk_list _ _ _ _ _ _ _ Hb). apply wait_insert_perm.
  - simpl. intros Hpos. by rewrite (proj2 (Z.ltb_lt _ _)).
Qed.

(** C10. [rt_mb_recv] implements the other side of the FIFO queue: it returns the
    oldest mail and makes the first waiting sender ready; an empty box makes the
    call return a timeout at once (timeout 0) or wait in the list of receivers.  A
    receiver that is woken without an error goes on in the same way with the time
    it has left. *)
Theorem rt_mb_recv_refines s a x t th timeout :
  running s t th → ks_mailboxes s !! a = Some x → mb_ok x → timeout < HALF →
  wp (rt_mb_recv a timeout) (mb_received a t timeout x s) s ∧
  ∀ start, th_error th = RT_EOK → u32 (ks_tick s - start) ≤ 2 ^ 31 →
    wp (rt_mb_recv_resumed t a (timeout, start))
      (mb_received a t (time_left s timeout start) x s) s.
Proof.
  intros Hr Hx Hok Htime. split.
  - unfold rt_mb_recv. wp_step. eapply wp_get_mailbox; [done|].
    destruct (Z.eqb_spec (mb_entry x) 0) as [H0|H0]; simpl; [|by eapply mb_recv_loop_spec].
    destruct (Z.eqb_spec timeout 0) as [Ht0|Ht0]; [|by eapply mb_recv_loop_spec].
    wp_step. split; [apply Hr|]. split; [by eapply running_some|]. exists x.
    split_and!; [by rewrite insert_id|done|right; split_and!; try done]. by apply mb_queue_nil.
  - intros start He Hd. unfold rt_mb_recv_resumed. wp_step. eapply wp_get_thread; [apply Hr|].
    rewrite He. simpl. wp_step. apply wait_left_spec; [change HALF with (2 ^ 31 - 1) in Htime; lia|done|].
    eapply mb_recv_loop_spec; try done. by apply time_left_range.
Qed.

(** A reset empties the mailbox: no mail is left, both waiting lists are empty
    and every thread that waited is ready with an error; other commands are refused. *)
Theorem rt_mb_control_reset s a x cmd :
  wf s → is_Some (ks_current s) → some_ready s → ks_mailboxes s !! a = Some x → mb_ok x →
  wp (rt_mb_control a cmd) (λ r s',
    if cmd =? RT_IPC_CMD_RESET then
      r = RT_EOK ∧ wf s' ∧ (∃ x', ks_mailboxes s' = <[a := x']> (ks_mailboxes s) ∧ mb_ok x' ∧ mb_queue x' = []) ∧
      l_get (ks_lists s') (LMbRecv a) = [] ∧ l_get (ks_lists s') (LMbSend a) = [] ∧
      ∀ t, t ∈ l_get (ks_lists s) (LMbRecv a) ∨ t ∈ l_get (ks_lists s) (LMbSend a) →
        ∃ th, ks_threads s' !! t = Some th ∧ th_stat th = RT_THREAD_READY ∧ th_error th = - RT_ERROR
    else r = - RT_ERROR ∧ s' = s) s.
Proof.
  intros Hwf Hc Hsr Hx Hok. unfold rt_mb_control. destruct (cmd =? RT_IPC_CMD_RESET); [|by wp_step].
  wp_step. eapply wp_mono; [by apply (resume_all_drains s (LMbRecv a))|]. intros ? s1 [_ Hd1].
  wp_step. eapply wp_mono; [by apply (resume_all_drains s1 (LMbSend a)); [apply Hd1|]|]. intros ? s2 [_ Hd2].
  destruct (dr_quiet _ _ _ Hd1) as (Hfr1 & Hc1 & _), (dr_quiet _ _ _ Hd2) as (Hfr2 & Hc2 & _).
  wp_step. eapply wp_upd_mailbox; [by rewrite (fr_mailboxes _ _ Hfr2), (fr_mailboxes _ _ Hfr1)|].
  assert (El1 : l_get (ks_lists s1) (LMbSend a) = l_get (ks_lists s) (LMbSend a)) by (by apply (dr_other _ _ _ Hd1)).
  assert (Hkeep : ∀ t th, ks_threads s !! t = Some th → th_stat th = RT_THREAD_READY → ks_threads s2 !! t = Some th).
  { intros t th Ht Hst. rewrite (dr_rest _ _ _ Hd2), (dr_rest _ _ _ Hd1); [done| |rewrite El1];
      eapply (wait_head_notin s); try done; by rewrite Hst. }
  set (x' := set_mb_out_offset _ _). set (s3 := set_ks_mailboxes _ s2). wp_step.
  eapply wp_mono; [apply (schedule_ready_spec s3); [by eapply wf_ext, (dr_wf _ _ _ Hd2)| |by simpl; rewrite Hc2, Hc1]|].
  { destruct Hsr as (t & th & Ht & Hst). exists t, th. split; [|done]. by apply Hkeep. }
  intros ? s4 ((c & p & ->) & _ & _). wp_step. simpl. split_and!; [done|by eapply wf_ext, (dr_wf _ _ _ Hd2)| | |apply Hd2|].
  - exists x'. rewrite (fr_mailboxes _ _ Hfr2), (fr_mailboxes _ _ Hfr1). split_and!; [done| |done].
    destruct Hok. split; simpl; try done; try lia.
  - rewrite (dr_other _ _ _ Hd2) by done. apply Hd1.
  - intros t [Hin|Hin]; destruct (wf_home _ Hwf _ _ Hin) as (th & Ht & _).
    + exists (woken th). split; [|done]. rewrite (dr_rest _ _ _ Hd2); [by apply (dr_woken _ _ _ Hd1)|].
      rewrite El1. intros Hin'. by pose proof (ok_excl _ (wf_lists _ Hwf) _ _ _ Hin Hin').
    + exists (woken th). split; [|done]. apply (dr_woken _ _ _ Hd2); [by rewrite El1|].
      rewrite (dr_rest _ _ _ Hd1); [done|].
      intros Hin'. by pose proof (ok_excl _ (wf_lists _ Hwf) _ _ _ Hin Hin').
Qed.
