(* ===== verification/Fmq.v ===== *)
(** The queues of FreeRTOS on the mailboxes of the kernel, [esp-idf-port/stubs/fmq.c]: a
    mailbox whose pool holds items of any size, with items that can be put in front of the
    queue, overwritten and looked at.

    The control block and the waiting lists are those of a mailbox of the kernel; the pool is
    the state of the layer.  The waiting-list functions at the start of [fmq.c] are those of
    [ipc.c], which [Ipc] models. *)

From stdpp Require Import base gmap list fin_maps.
From Stdlib Require Import ZArith Lia.
From S2P Require Import Prelude IntrusiveList Ffs Kservice KState Object Sched Timer KInv SchedFacts.
From S2P Require Import TimerFacts Thread Ipc IpcFacts Ring Mailbox.

Open Scope Z_scope.

(** The item size in the first word of the pool, and the bytes behind it. *)
Record fmq := Fmq { fq_item : Z; fq_pool : list Z }.
(** The state of the port beside the kernel: the pools of the queues by the address of the
    mailbox, the numbers of the names of [libcpu.c], and whether the scheduler runs. *)
Record rtos := Rtos {
  fr_queues : gmap Z fmq;
  mq_index : Z; ms_index : Z; mx_index : Z; mr_index : Z; tm_index : Z; ev_index : Z;
  xSchedulerRunning : bool
}.
Definition set_fr_queues (v : gmap Z fmq) (p : rtos) : rtos :=
  let '(Rtos _ mq ms mx mr tm ev r) := p in Rtos v mq ms mx mr tm ev r.
Abbreviation F := (SM (layer rtos)).

(** The positions of an item and the truth values of FreeRTOS. *)
Class freertos := {
  queueSEND_TO_BACK : Z; queueSEND_TO_FRONT : Z; queueOVERWRITE : Z;
  pdFALSE : Z; pdTRUE : Z; pdPASS : Z; pdFAIL : Z;
  errQUEUE_EMPTY : Z; errQUEUE_FULL : Z; errCOULD_NOT_ALLOCATE_REQUIRED_MEMORY : Z;
  queueQUEUE_TYPE_MUTEX : Z; queueQUEUE_TYPE_RECURSIVE_MUTEX : Z;
  portMAX_DELAY : Z; portPRIVILEGE_BIT : Z; sizeof_StackType_t : Z;
  taskSCHEDULER_NOT_STARTED : Z; taskSCHEDULER_RUNNING : Z; taskSCHEDULER_SUSPENDED : Z;
  tmrCOMMAND_START : Z; tmrCOMMAND_STOP : Z; tmrCOMMAND_CHANGE_PERIOD : Z; tmrCOMMAND_DELETE : Z
}.

Definition get_fmq (a : Z) : F fmq := s ← get; of_option BadPointer (fr_queues (l_own s) !! a).
Definition put_fmq (a : Z) (q : fmq) : F unit :=
  modify (λ s, Layer (l_kernel s) (set_fr_queues (<[a := q]> (fr_queues (l_own s))) (l_own s))).

(** * The operations *)

(** [block] is the memory of the object, [pool] that of the items with its contents. *)
Definition rt_fmq_create (block : option Z) (pool : option (Z * list Z)) (name : list Z)
    (item size flag : Z) : F (option Z) :=
  kern RT_DEBUG_NOT_IN_INTERRUPT;;
  p ← kern (rt_object_allocate ClassMailBox name block OMailBox);
  match p with
  | None => mret None
  | Some a =>
    _ ← kern (rt_ipc_object_init (LMbRecv a));
    match pool with
    | None => kern (rt_object_delete (OMailBox a) a);; mret None
    | Some (msg_pool, bytes) =>
      kern (put_mailbox a (mk_mailbox (u8 flag) msg_pool [] (u16 size) 0 0 0));;
      put_fmq a (Fmq (u32 item) bytes);;
      kern (tlist_init (LMbSend a));;
      mret (Some a)
    end
  end.
(** The bytes the pool is asked to have behind the word with the item size. *)
Definition fmq_pool_size (item size : Z) : Z := u32 (u16 size * u32 item).

Definition rt_fmq_delete (a : Z) : F Z :=
  kern RT_DEBUG_NOT_IN_INTERRUPT;;
  _ ← kern (resume_all (LMbRecv a));
  _ ← kern (resume_all (LMbSend a));
  x ← kern (get_mailbox a);
  kern (RT_KERNEL_FREE (mb_msg_pool x));;
  kern (rt_object_delete (OMailBox a) a);;
  mret RT_EOK.

(** [rt_memcpy] between the item at an index of the pool and the memory at [value]. *)
Definition fmq_store (a index : Z) (value : list Z) : F unit :=
  q ← get_fmq a;
  let item := fq_item q in
  if (item <=? Z.of_nat (length value)) && (0 <=? index) && (index * item + item <=? Z.of_nat (length (fq_pool q)))
  then put_fmq a (Fmq item (list_inserts (Z.to_nat (index * item)) (take (Z.to_nat item) value) (fq_pool q)))
  else fail BadPointer.
Definition fmq_load (a index : Z) : F (list Z) :=
  q ← get_fmq a;
  let item := fq_item q in
  if (0 <=? index) && (index * item + item <=? Z.of_nat (length (fq_pool q)))
  then mret (take (Z.to_nat item) (drop (Z.to_nat (index * item)) (fq_pool q)))
  else fail BadPointer.

(** One wait of the loops: the error of the thread is reset, and a call that does not wait
    ends with [at_once]. *)
Definition fmq_wait {R} (h : lhead) (flag timeout : Z) (at_once : Z → K R) : K (call R (Z * Z)) :=
  t ← self;
  upd_thread t (set_th_error RT_EOK);;
  if timeout =? 0 then r ← at_once t; mret (Return r)
  else
    RT_DEBUG_IN_THREAD_CONTEXT;;
    _ ← rt_ipc_list_suspend h t flag;
    start ← wait_start timeout;
    wait_timer t timeout;;
    rt_schedule;;
    mret (Wait (timeout, start)).

Section queue.
Context `{!freertos}.

Definition fmq_full (x : rt_mailbox) (pos : Z) : bool := (mb_entry x =? mb_size x) && negb (pos =? queueOVERWRITE).
(** The end of [rt_fmq_send]: the item goes into the pool and a receiver is woken. *)
Definition fmq_put (a : Z) (value : list Z) (pos : Z) : F Z :=
  x ← kern (get_mailbox a);
  (if (mb_entry x =? 0) || (pos =? queueSEND_TO_BACK) then
     fmq_store a (mb_in_offset x) value;;
     kern (put_mailbox a (set_mb_in_offset (mb_advance (mb_in_offset x) (mb_size x)) x))
   else if pos =? queueOVERWRITE then
     fmq_store a (mb_out_offset x) value;;
     kern (put_mailbox a (set_mb_entry (u16 (mb_entry x - 1)) x))
   else
     let out := if mb_out_offset x =? 0 then u16 (mb_size x - 1) else u16 (mb_out_offset x - 1) in
     kern (put_mailbox a (set_mb_out_offset out x));;
     fmq_store a out value);;
  kern (upd_mailbox a (λ x, set_mb_entry (u16 (mb_entry x + 1)) x));;
  kern (e ← tlist_isempty (LMbRecv a); when (negb e) (_ ← rt_ipc_list_resume (LMbRecv a); rt_schedule));;
  mret RT_EOK.
Definition fmq_send_loop (a : Z) (value : list Z) (pos timeout : Z) : F (call Z (Z * Z)) :=
  x ← kern (get_mailbox a);
  if fmq_full x pos then kern (fmq_wait (LMbSend a) (mb_flag x) timeout (λ _, mret (- RT_EFULL)))
  else r ← fmq_put a value pos; mret (Return r).
Definition rt_fmq_send (a : Z) (value : list Z) (pos timeout : Z) : F (call Z (Z * Z)) :=
  x ← kern (get_mailbox a);
  if fmq_full x pos && (timeout =? 0) then mret (Return (- RT_EFULL)) else fmq_send_loop a value pos timeout.
Definition rt_fmq_send_resumed (t a : Z) (value : list Z) (pos : Z) (w : Z * Z) : F (call Z (Z * Z)) :=
  th ← kern (get_thread t);
  if th_error th =? RT_EOK then
    timeout ← kern (wait_left w.1 w.2); fmq_send_loop a value pos timeout
  else mret (Return (th_error th)).

(** The end of [rt_fmq_recv]: the item is copied and, unless it is only looked at, taken. *)
Definition fmq_take (a peek : Z) : F (Z * option (list Z)) :=
  x ← kern (get_mailbox a);
  value ← fmq_load a (mb_out_offset x);
  if negb (peek =? pdFALSE) then mret (RT_EOK, Some value)
  else
    kern (put_mailbox a (set_mb_entry (u16 (mb_entry x - 1)) (set_mb_out_offset (mb_advance (mb_out_offset x) (mb_size x)) x)));;
    kern (e ← tlist_isempty (LMbSend a); when (negb e) (_ ← rt_ipc_list_resume (LMbSend a); rt_schedule));;
    mret (RT_EOK, Some value).
Definition fmq_recv_loop (a peek timeout : Z) : F (call (Z * option (list Z)) (Z * Z)) :=
  x ← kern (get_mailbox a);
  if mb_entry x =? 0 then
    kern (fmq_wait (LMbRecv a) (mb_flag x) timeout
      (λ t, upd_thread t (set_th_error (- RT_ETIMEOUT));; mret (- RT_ETIMEOUT, None)))
  else r ← fmq_take a peek; mret (Return r).
Definition rt_fmq_recv (a peek timeout : Z) : F (call (Z * option (list Z)) (Z * Z)) :=
  x ← kern (get_mailbox a);
  if (mb_entry x =? 0) && (timeout =? 0) then mret (Return (- RT_ETIMEOUT, None)) else fmq_recv_loop a peek timeout.
Definition rt_fmq_recv_resumed (t a peek : Z) (w : Z * Z) : F (call (Z * option (list Z)) (Z * Z)) :=
  th ← kern (get_thread t);
  if th_error th =? RT_EOK then
    timeout ← kern (wait_left w.1 w.2); fmq_recv_loop a peek timeout
  else mret (Return (th_error th, None)).
End queue.

(** * The pool as a sequence of items *)

(** The items of [k] bytes at the first [n] indices. *)
Definition chunks (k n : nat) (pool : list Z) : list (list Z) := (λ i, take k (drop (i * k) pool)) <$> seq 0 n.

Lemma chunks_length k n pool : length (chunks k n pool) = n.
Proof. unfold chunks. by rewrite length_fmap, length_seq. Qed.
Lemma chunks_lookup k n pool i : (i < n)%nat → chunks k n pool !! i = Some (take k (drop (i * k) pool)).
Proof. intros Hi. unfold chunks. by rewrite list_lookup_fmap, lookup_seq_lt by done. Qed.
Lemma chunks_total k n pool i : (i < n)%nat → chunks k n pool !!! i = take k (drop (i * k) pool).
Proof. intros Hi. apply list_lookup_total_correct. by apply chunks_lookup. Qed.

(** Another item is the same after a store. *)
Lemma chunk_other k i j v (pool : list Z) : length v = k → i ≠ j → (i * k + k ≤ length pool)%nat →
  take k (drop (j * k) (list_inserts (i * k) v pool)) = take k (drop (j * k) pool).
Proof.
  intros Hv Hne Hl. apply list_eq. intros m. destruct (decide (m < k)%nat) as [Hm|Hm].
  - rewrite !lookup_take_lt, !lookup_drop by done.
    destruct (decide (i < j)%nat); [apply list_lookup_inserts_ge|apply list_lookup_inserts_lt]; nia.
  - by rewrite !lookup_take_ge by lia.
Qed.
Lemma chunk_same k i v (pool : list Z) : length v = k → (i * k + k ≤ length pool)%nat →
  take k (drop (i * k) (list_inserts (i * k) v pool)) = v.
Proof.
  intros Hv Hl. apply list_eq. intros m. destruct (decide (m < k)%nat) as [Hm|Hm].
  - rewrite lookup_take_lt, lookup_drop, list_lookup_inserts by lia. f_equal. lia.
  - rewrite lookup_take_ge, lookup_ge_None_2 by lia. done.
Qed.
Lemma chunks_store k n i v pool : (i < n)%nat → length v = k → (n * k ≤ length pool)%nat →
  chunks k n (list_inserts (i * k) v pool) = <[i := v]> (chunks k n pool).
Proof.
  intros Hi Hv Hl. apply list_eq. intros j. destruct (decide (j < n)%nat) as [Hj|Hj].
  2:{ rewrite !lookup_ge_None_2; [done|rewrite length_insert|]; rewrite chunks_length; lia. }
  rewrite chunks_lookup by done. destruct (decide (i = j)) as [->|Hne].
  - rewrite list_lookup_insert_eq by (by rewrite chunks_length). by rewrite chunk_same by nia.
  - rewrite list_lookup_insert_ne, chunks_lookup by done. f_equal. apply chunk_other; [done|done|nia].
Qed.

(** * The queue *)

Record fmq_ok (x : rt_mailbox) (q : fmq) : Prop := {
  fo_size : 0 < mb_size x < 2 ^ 16;
  fo_item : 0 < fq_item q;
  fo_pool : mb_size x * fq_item q ≤ Z.of_nat (length (fq_pool q));
  fo_entry : 0 ≤ mb_entry x ≤ mb_size x;
  fo_out : 0 ≤ mb_out_offset x < mb_size x;
  fo_in : mb_in_offset x = (mb_out_offset x + mb_entry x) mod mb_size x;
  fo_flag : mb_flag x = RT_IPC_FLAG_FIFO ∨ mb_flag x = RT_IPC_FLAG_PRIO
}.
(** The items of the queue, first to last. *)
Definition fmq_items (x : rt_mailbox) (q : fmq) : list (list Z) :=
  ring (chunks (Z.to_nat (fq_item q)) (Z.to_nat (mb_size x)) (fq_pool q)) (Z.to_nat (mb_size x))
    (Z.to_nat (mb_out_offset x)) (Z.to_nat (mb_entry x)).
Lemma fmq_items_length x q : length (fmq_items x q) = Z.to_nat (mb_entry x).
Proof. apply ring_length. Qed.

(** The pool after a store at [index]. *)
Definition item_stored (index : Z) (value : list Z) (q : fmq) : fmq :=
  Fmq (fq_item q) (list_inserts (Z.to_nat (index * fq_item q)) (take (Z.to_nat (fq_item q)) value) (fq_pool q)).
Lemma item_stored_chunks x index value q : fmq_ok x q → 0 ≤ index < mb_size x → fq_item q ≤ Z.of_nat (length value) →
  chunks (Z.to_nat (fq_item q)) (Z.to_nat (mb_size x)) (fq_pool (item_stored index value q)) =
    <[Z.to_nat index := take (Z.to_nat (fq_item q)) value]> (chunks (Z.to_nat (fq_item q)) (Z.to_nat (mb_size x)) (fq_pool q)).
Proof.
  intros [] Hi Hv. unfold item_stored. simpl. rewrite Z2Nat.inj_mul by lia. apply chunks_store; [lia| |nia].
  rewrite length_take. lia.
Qed.
Lemma item_stored_item index value q : fq_item (item_stored index value q) = fq_item q.
Proof. done. Qed.

Section spec.
Context `{!freertos} (Hpos : queueSEND_TO_BACK ≠ queueOVERWRITE).

(** The queue after an item is sent to a position. *)
Definition queued (pos : Z) (v : list Z) (l : list (list Z)) : list (list Z) :=
  if bool_decide (l = []) || (pos =? queueSEND_TO_BACK) then l ++ [v]
  else if pos =? queueOVERWRITE then v :: tail l else v :: l.
Definition set_queue (a : Z) (q : fmq) (p : rtos) : rtos := set_fr_queues (<[a := q]> (fr_queues p)) p.

(** The effect of a send on the control block and the pool. *)
Definition put_block (value : list Z) (pos : Z) (x : rt_mailbox) (q : fmq) : rt_mailbox * fmq :=
  let x' := if (mb_entry x =? 0) || (pos =? queueSEND_TO_BACK) then set_mb_in_offset (mb_advance (mb_in_offset x) (mb_size x)) x
    else if pos =? queueOVERWRITE then set_mb_entry (u16 (mb_entry x - 1)) x
    else set_mb_out_offset (if mb_out_offset x =? 0 then u16 (mb_size x - 1) else u16 (mb_out_offset x - 1)) x in
  let i := if (mb_entry x =? 0) || (pos =? queueSEND_TO_BACK) then mb_in_offset x
    else if pos =? queueOVERWRITE then mb_out_offset x
    else if mb_out_offset x =? 0 then u16 (mb_size x - 1) else u16 (mb_out_offset x - 1) in
  (set_mb_entry (u16 (mb_entry x' + 1)) x', item_stored i value q).

Lemma put_block_spec value pos x q : fmq_ok x q → fmq_full x pos = false → fq_item q ≤ Z.of_nat (length value) →
  let '(x', q') := put_block value pos x q in
  fmq_ok x' q' ∧ fmq_items x' q' = queued pos (take (Z.to_nat (fq_item q)) value) (fmq_items x q).
Proof.
  intros Hok Hfull Hv. pose proof Hok as [Hs Hit Hpl He Ho Hi Hf]. pose proof (fmq_items_length x q) as Hlen.
  assert (Hnil : bool_decide (fmq_items x q = []) = (mb_entry x =? 0)).
  { apply eq_true_iff_eq. rewrite bool_decide_eq_true, Z.eqb_eq, <- length_zero_iff_nil, Hlen. lia. }
  assert (Hin : 0 ≤ mb_in_offset x < mb_size x) by (rewrite Hi; apply Z.mod_pos_bound; lia).
  assert (Hcap : mb_entry x < mb_size x ∨ pos = queueOVERWRITE).
  { unfold fmq_full in Hfull. apply andb_false_iff in Hfull as [Hb|Hb]; [apply Z.eqb_neq in Hb; lia|].
    apply negb_false_iff, Z.eqb_eq in Hb. by right. }
  assert (Hu : ∀ z, 0 ≤ z < 2 ^ 16 → u16 z = z) by (intros; by apply Z.mod_small).
  pose proof (chunks_length (Z.to_nat (fq_item q)) (Z.to_nat (mb_size x)) (fq_pool q)) as Hcl.
  unfold put_block, queued. rewrite Hnil. destruct ((mb_entry x =? 0) || (pos =? queueSEND_TO_BACK)) eqn:Eb.
  - assert (Hlt : mb_entry x < mb_size x).
    { destruct Hcap as [|Hc]; [done|]. apply orb_true_iff in Eb as [E%Z.eqb_eq|E%Z.eqb_eq]; [lia|congruence]. }
    split.
    + constructor; simpl; rewrite ?Hu, ?length_inserts by lia; try done; try lia.
      rewrite mb_advance_mod, Hi, Zplus_mod_idemp_l by lia. f_equal. lia.
    + unfold fmq_items. cbn -[item_stored]. rewrite item_stored_item, (item_stored_chunks x) by done. rewrite Hu by lia.
      rewrite Z2Nat.inj_add, Nat.add_1_r by lia. rewrite Hi at 1. rewrite Z2Nat.inj_mod, Z2Nat.inj_add by lia.
      apply ring_push; [done|lia].
  - apply orb_false_iff in Eb as [E0%Z.eqb_neq _]. destruct (Z.eqb_spec pos queueOVERWRITE) as [->|Hno].
    + split.
      * constructor; simpl; rewrite ?length_inserts, ?(Hu (mb_entry x - 1)), ?Hu by lia; try done; try lia.
        rewrite Hi. f_equal. lia.
      * unfold fmq_items. cbn -[item_stored]. rewrite item_stored_item, (item_stored_chunks x) by done. rewrite (Hu (mb_entry x - 1)), Hu by lia.
        replace (mb_entry x - 1 + 1) with (mb_entry x) by lia. apply ring_overwrite; [done|lia|lia].
    + destruct Hcap as [Hlt|?]; [|done]. set (out := if mb_out_offset x =? 0 then _ else _).
      assert (Eo : out = (mb_out_offset x + (mb_size x - 1)) mod mb_size x ∧ 0 ≤ out < mb_size x).
      { unfold out. destruct (Z.eqb_spec (mb_out_offset x) 0) as [->|Hn0]; rewrite Hu by lia.
        - rewrite Z.mod_small by lia. lia.
        - replace (mb_out_offset x + (mb_size x - 1)) with (mb_out_offset x - 1 + 1 * mb_size x) by lia.
          rewrite Z_mod_plus_full, Z.mod_small by lia. lia. }
      clearbody out. destruct Eo as [Eo Hor]. split.
      * constructor; simpl; rewrite ?length_inserts, ?Hu by lia; try done; try lia.
        rewrite Eo, Hi, Zplus_mod_idemp_l. replace (mb_out_offset x + (mb_size x - 1) + (mb_entry x + 1))
          with (mb_out_offset x + mb_entry x + 1 * mb_size x) by lia. by rewrite Z_mod_plus_full.
      * unfold fmq_items. cbn -[item_stored]. rewrite item_stored_item, (item_stored_chunks x) by done. rewrite Hu by lia.
        rewrite Z2Nat.inj_add, Nat.add_1_r by lia.
        assert (En : Z.to_nat out = ((Z.to_nat (mb_out_offset x) + (Z.to_nat (mb_size x) - 1)) mod Z.to_nat (mb_size x))%nat).
        { rewrite Eo, Z2Nat.inj_mod, Z2Nat.inj_add, Z2Nat.inj_sub by lia. done. }
        rewrite En. apply ring_unshift; [done|lia|lia].
Qed.

(** ** Execution *)

Lemma wp_get_fmq a q (Q : fmq → layer rtos → Prop) k p : fr_queues p !! a = Some q → Q q (Layer k p) → wp (get_fmq a) Q (Layer k p).
Proof. intros Hq HQ. unfold get_fmq. wp_step. wp_step. by eapply wp_option. Qed.
Lemma set_queue_queues a q p : fr_queues (set_queue a q p) = <[a := q]> (fr_queues p).
Proof. by destruct p. Qed.
Lemma set_queue_id a q p : fr_queues p !! a = Some q → set_queue a q p = p.
Proof. intros Hq. unfold set_queue. rewrite insert_id by done. by destruct p. Qed.

Lemma fmq_store_spec a index value x q (Q : unit → layer rtos → Prop) k p :
  fr_queues p !! a = Some q → fmq_ok x q → 0 ≤ index < mb_size x → fq_item q ≤ Z.of_nat (length value) →
  Q tt (Layer k (set_queue a (item_stored index value q) p)) → wp (fmq_store a index value) Q (Layer k p).
Proof.
  intros Hq [] Hi Hv HQ. unfold fmq_store. wp_step. eapply wp_get_fmq; [done|].
  rewrite !(proj2 (Z.leb_le _ _)) by nia. simpl. exact HQ.
Qed.
Lemma fmq_load_spec a index x q (Q : list Z → layer rtos → Prop) k p :
  fr_queues p !! a = Some q → fmq_ok x q → 0 ≤ index < mb_size x →
  Q (chunks (Z.to_nat (fq_item q)) (Z.to_nat (mb_size x)) (fq_pool q) !!! Z.to_nat index) (Layer k p) →
  wp (fmq_load a index) Q (Layer k p).
Proof.
  intros Hq [] Hi HQ. unfold fmq_load. wp_step. eapply wp_get_fmq; [done|].
  rewrite !(proj2 (Z.leb_le _ _)) by nia. simpl. rewrite chunks_total, <- Z2Nat.inj_mul in HQ by lia. exact HQ.
Qed.

(** A wait of a call that found the queue full or empty. *)
Definition fmq_waited {R} (h : lhead) (t timeout : Z) (e : R) (s : kstate) (r : call R (Z * Z)) (s' : kstate) : Prop :=
  wf s' ∧ is_Some (ks_current s') ∧ ks_mailboxes s' = ks_mailboxes s ∧
  match r with
  | Return r => r = e ∧ timeout = 0
  | Wait w => w.1 = timeout ∧ timeout ≠ 0 ∧ wait_deadline t timeout s s' ∧
      l_get (ks_lists s') h ≡ₚ t :: l_get (ks_lists s) h ∧ (0 < timeout → w.2 = ks_tick s)
  end.
Lemma fmq_wait_spec {R} h flag timeout (at_once : Z → K R) (e : R) s t th :
  running s t th → wait_head h → flag = RT_IPC_FLAG_FIFO ∨ flag = RT_IPC_FLAG_PRIO → timeout < HALF →
  (∀ th1 s1, running s1 t th1 → wp (at_once t) (λ r s', r = e ∧ wf s' ∧ is_Some (ks_current s') ∧ ks_mailboxes s' = ks_mailboxes s1) s1) →
  wp (fmq_wait h flag timeout at_once) (fmq_waited h t timeout e s) s.
Proof.
  intros Hr Hh Hfl Htime Hat. unfold fmq_wait. wp_step. eapply wp_self; [apply Hr|]. wp_step. eapply wp_upd_thread; [apply Hr|].
  pose proof (running_error _ _ _ RT_EOK Hr) as Hr1. set (s1 := set_ks_threads _ s) in *.
  destruct (Z.eqb_spec timeout 0) as [Ht0|Ht0].
  { wp_step. eapply wp_mono; [by eapply Hat|]. intros r s' (-> & Hwf & Hc & Em). wp_step. by split_and!. }
  wp_step. eapply wp_in_thread; [done|].
  eapply (wp_block_on_start _ _ s1 h t); try done; try apply Hr1; [by eapply running_some|].
  intros s' Hb. wp_step. split; [apply Hb|]. split; [apply Hb|]. split; [by rewrite (fr_mailboxes _ _ (bk_frame _ _ _ _ _ _ _ Hb))|].
  split_and!; [done|done|apply Hb| |].
  - rewrite (bk_list _ _ _ _ _ _ _ Hb). apply wait_insert_perm.
  - simpl. intros Hpos0. by rewrite (proj2 (Z.ltb_lt _ _)).
Qed.

(** The kernel objects and their containers are the same. *)
Definition same_objects (k k' : kstate) : Prop := ks_objects k' = ks_objects k ∧ ks_containers k' = ks_containers k.

(** ** Sending *)

Lemma fmq_put_spec k p a x q value pos :
  wf k → is_Some (ks_current k) → ks_mailboxes k !! a = Some x → fr_queues p !! a = Some q → fmq_ok x q →
  fmq_full x pos = false → fq_item q ≤ Z.of_nat (length value) →
  wp (fmq_put a value pos) (λ r s', r = RT_EOK ∧ wf (l_kernel s') ∧ is_Some (ks_current (l_kernel s')) ∧
    ks_mailboxes (l_kernel s') = <[a := (put_block value pos x q).1]> (ks_mailboxes k) ∧
    l_own s' = set_queue a (put_block value pos x q).2 p ∧ woke (LMbRecv a) k (l_kernel s') ∧ same_objects k (l_kernel s')) (Layer k p).
Proof.
  intros Hwf Hc Hx Hq Hok Hfull Hv. pose proof Hok as [Hs _ _ He Ho Hi _].
  assert (Hin : 0 ≤ mb_in_offset x < mb_size x) by (rewrite Hi; apply Z.mod_pos_bound; lia).
  assert (Hout : ∀ z, z = (if mb_out_offset x =? 0 then u16 (mb_size x - 1) else u16 (mb_out_offset x - 1)) → 0 ≤ z < mb_size x).
  { intros z ->. destruct (Z.eqb_spec (mb_out_offset x) 0); unfold u16; rewrite Z.mod_small; lia. }
  (* the rest, when the item is in the pool *)
  assert (Hend : ∀ x1 q1, wp (kern (upd_mailbox a (λ x, set_mb_entry (u16 (mb_entry x + 1)) x));;
      kern (e ← tlist_isempty (LMbRecv a); when (negb e) (_ ← rt_ipc_list_resume (LMbRecv a); rt_schedule));; mret RT_EOK)
    (λ r s', r = RT_EOK ∧ wf (l_kernel s') ∧ is_Some (ks_current (l_kernel s')) ∧
      ks_mailboxes (l_kernel s') = <[a := set_mb_entry (u16 (mb_entry x1 + 1)) x1]> (ks_mailboxes k) ∧
      l_own s' = set_queue a q1 p ∧ woke (LMbRecv a) k (l_kernel s') ∧ same_objects k (l_kernel s'))
    (Layer (set_ks_mailboxes (<[a := x1]> (ks_mailboxes k)) k) (set_queue a q1 p))).
  { intros x1 q1. wp_step. apply wp_kern. eapply wp_upd_mailbox; [apply lookup_insert_eq|]. simpl. rewrite insert_insert_eq.
    set (s1 := set_ks_mailboxes _ _). wp_step. apply wp_kern.
    eapply wp_mono; [apply (wake_spec s1 (LMbRecv a)); [by eapply wf_ext, Hwf|done|done]|].
    intros ? s' (Hwf' & Hc' & Hfr & Hwk). wp_step. split_and!; [done|done|done|by cbn [l_kernel]; rewrite (fr_mailboxes _ _ Hfr)|done|done|].
    split; [apply (fr_objects _ _ Hfr)|apply (fr_containers _ _ Hfr)]. }
  unfold fmq_put, put_block. wp_step. apply wp_kern. eapply wp_get_mailbox; [done|]. cbv zeta.
  destruct ((mb_entry x =? 0) || (pos =? queueSEND_TO_BACK)); [|destruct (pos =? queueOVERWRITE)].
  - wp_step. wp_step. eapply fmq_store_spec; [done|done|done|done|]. apply wp_kern. unfold put_mailbox. wp_step. apply Hend.
  - wp_step. wp_step. eapply fmq_store_spec; [done|done|done|done|]. apply wp_kern. unfold put_mailbox. wp_step. apply Hend.
  - wp_step. wp_step. apply wp_kern. unfold put_mailbox. wp_step.
    eapply fmq_store_spec; [done|done|by apply Hout|done|]. apply Hend.
Qed.

(** The queue takes an item at [pos]: it holds fewer than it has room for, or its first item is
    replaced. *)
Definition has_room (pos : Z) (x : rt_mailbox) (q : fmq) : Prop :=
  Z.of_nat (length (fmq_items x q)) < mb_size x ∨ pos = queueOVERWRITE.
Lemma fmq_full_spec x q pos : fmq_ok x q → if fmq_full x pos then ¬ has_room pos x q else has_room pos x q.
Proof.
  intros Hok. pose proof (fmq_items_length x q) as Hl. pose proof (fo_entry _ _ Hok). unfold fmq_full, has_room. rewrite Hl.
  destruct (Z.eqb_spec (mb_entry x) (mb_size x)), (Z.eqb_spec pos queueOVERWRITE); simpl; naive_solver lia.
Qed.

Definition fmq_sent (a t : Z) (value : list Z) (pos timeout : Z) (x : rt_mailbox) (q : fmq) (k : kstate) (p : rtos)
    (r : call Z (Z * Z)) (s' : layer rtos) : Prop :=
  wf (l_kernel s') ∧ is_Some (ks_current (l_kernel s')) ∧ ∃ x' q',
  ks_mailboxes (l_kernel s') = <[a := x']> (ks_mailboxes k) ∧ l_own s' = set_queue a q' p ∧ fmq_ok x' q' ∧
  match r with
  | Return e =>
      (e = RT_EOK ∧ has_room pos x q ∧
       fmq_items x' q' = queued pos (take (Z.to_nat (fq_item q)) value) (fmq_items x q) ∧ woke (LMbRecv a) k (l_kernel s')) ∨
      (e = - RT_EFULL ∧ timeout = 0 ∧ ¬ has_room pos x q ∧ x' = x ∧ q' = q)
  | Wait w => ¬ has_room pos x q ∧ x' = x ∧ q' = q ∧ fmq_waited (LMbSend a) t timeout (- RT_EFULL) k r (l_kernel s')
  end.
Lemma fmq_send_loop_spec k p a x q t th value pos timeout :
  running k t th → ks_mailboxes k !! a = Some x → fr_queues p !! a = Some q → fmq_ok x q → timeout < HALF →
  fq_item q ≤ Z.of_nat (length value) →
  wp (fmq_send_loop a value pos timeout) (fmq_sent a t value pos timeout x q k p) (Layer k p).
Proof.
  intros Hr Hx Hq Hok Htime Hv. pose proof (fmq_full_spec x q pos Hok) as Hroom. unfold fmq_send_loop. wp_step. apply wp_kern. eapply wp_get_mailbox; [done|].
  destruct (fmq_full x pos) eqn:Ef.
  - apply wp_kern. eapply wp_mono; [apply (fmq_wait_spec (LMbSend a) _ _ _ (- RT_EFULL) k t th); [done|done|apply Hok|done|]|].
    { intros th1 s1 Hr1. wp_step. split_and!; [done|apply Hr1|by eapply running_some|done]. }
    intros r s' Hw. pose proof Hw as (Hwf & Hc & Em & Hres). split; [done|]. split; [done|]. exists x, q.
    split_and!; [by simpl; rewrite Em, insert_id|by rewrite set_queue_id|done|].
    destruct r; [right; by destruct Hres as [-> ->]|by split_and!].
  - wp_step. eapply wp_mono; [by eapply fmq_put_spec; [apply Hr|eapply running_some| | | | |]|].
    intros ? s' (-> & Hwf & Hc & Em & Eo & Hwk & _). wp_step. pose proof (put_block_spec value pos x q Hok Ef Hv) as Hb.
    destruct (put_block value pos x q) as [x' q']. simpl in Em, Eo. destruct Hb as [Hok' Hit].
    split; [done|]. split; [done|]. exists x', q'. split_and!; [done|done|done|]. left. by split_and!.
Qed.

(** C11. [rt_fmq_send] implements a bounded queue of items with insertion at both ends.  While
    the queue holds fewer items than its size, the item goes to its end, to its front, or over
    its first item (and to the end of an empty queue), and the first waiting receiver is made
    ready.  A send over the first item always succeeds; any other send to a queue of as many
    items as its size returns an error at once or waits in the list of senders; a sender that
    is woken goes on in the same way with the time it has left.  The invariants of the queue
    and of the kernel hold in each case. *)
Theorem rt_fmq_send_refines k p a x q t th value pos timeout :
  running k t th → ks_mailboxes k !! a = Some x → fr_queues p !! a = Some q → fmq_ok x q → timeout < HALF →
  fq_item q ≤ Z.of_nat (length value) →
  wp (rt_fmq_send a value pos timeout) (fmq_sent a t value pos timeout x q k p) (Layer k p) ∧
  ∀ start, th_error th = RT_EOK → u32 (ks_tick k - start) ≤ 2 ^ 31 →
    wp (rt_fmq_send_resumed t a value pos (timeout, start))
      (fmq_sent a t value pos (time_left k timeout start) x q k p) (Layer k p).
Proof.
  intros Hr Hx Hq Hok Htime Hv. pose proof (fmq_full_spec x q pos Hok) as Hroom. split.
  - unfold rt_fmq_send. wp_step. apply wp_kern. eapply wp_get_mailbox; [done|].
    destruct (fmq_full x pos) eqn:Ef; simpl; [|by eapply fmq_send_loop_spec].
    destruct (Z.eqb_spec timeout 0) as [Ht0|Ht0]; [|by eapply fmq_send_loop_spec].
    wp_step. split; [apply Hr|]. split; [by eapply running_some|]. exists x, q.
    split_and!; [by simpl; rewrite insert_id|by rewrite set_queue_id|done|by right].
  - intros start He Hd. unfold rt_fmq_send_resumed. wp_step. apply wp_kern. eapply wp_get_thread; [apply Hr|].
    rewrite He. simpl. wp_step. apply wp_kern, wait_left_spec; [change HALF with (2 ^ 31 - 1) in Htime; lia|done|].
    eapply fmq_send_loop_spec; try done. by apply time_left_range.
Qed.

(** ** Receiving *)

(** The control block without its first item. *)
Definition take_block (x : rt_mailbox) : rt_mailbox :=
  set_mb_entry (u16 (mb_entry x - 1)) (set_mb_out_offset (mb_advance (mb_out_offset x) (mb_size x)) x).
Lemma take_block_spec x q : fmq_ok x q → 0 < mb_entry x →
  fmq_ok (take_block x) q ∧
  fmq_items x q = (chunks (Z.to_nat (fq_item q)) (Z.to_nat (mb_size x)) (fq_pool q) !!! Z.to_nat (mb_out_offset x)) :: fmq_items (take_block x) q.
Proof.
  intros [Hs Hit Hpl He Ho Hi Hf] Hpos0. unfold take_block.
  assert (Eu : u16 (mb_entry x - 1) = mb_entry x - 1) by (unfold u16; rewrite Z.mod_small; lia).
  split.
  - constructor; simpl; rewrite ?Eu; try done; [lia| |].
    + rewrite mb_advance_mod by lia. apply Z.mod_pos_bound. lia.
    + rewrite mb_advance_mod, Hi, Zplus_mod_idemp_l by lia. f_equal. lia.
  - unfold fmq_items. simpl. rewrite Eu, mb_advance_mod by lia. rewrite Z2Nat.inj_mod, Z2Nat.inj_add by lia.
    replace (Z.to_nat (mb_entry x)) with (S (Z.to_nat (mb_entry x - 1))) by lia.
    rewrite ring_pop by lia. by rewrite Nat.mod_small by lia.
Qed.

Lemma fmq_items_nil x q : mb_entry x = 0 → fmq_items x q = [].
Proof. intros E. apply length_zero_iff_nil. rewrite fmq_items_length, E. done. Qed.

Definition fmq_received (a t peek timeout : Z) (x : rt_mailbox) (q : fmq) (k : kstate) (p : rtos)
    (r : call (Z * option (list Z)) (Z * Z)) (s' : layer rtos) : Prop :=
  wf (l_kernel s') ∧ is_Some (ks_current (l_kernel s')) ∧ l_own s' = p ∧ ∃ x',
  ks_mailboxes (l_kernel s') = <[a := x']> (ks_mailboxes k) ∧ fmq_ok x' q ∧
  match r with
  | Return (e, got) =>
      (e = RT_EOK ∧ ∃ v l, fmq_items x q = v :: l ∧ got = Some v ∧
        if peek =? pdFALSE then fmq_items x' q = l ∧ woke (LMbSend a) k (l_kernel s') else x' = x ∧ l_kernel s' = k) ∨
      (e = - RT_ETIMEOUT ∧ timeout = 0 ∧ fmq_items x q = [] ∧ x' = x ∧ got = None)
  | Wait w => fmq_items x q = [] ∧ x' = x ∧ fmq_waited (LMbRecv a) t timeout (- RT_ETIMEOUT, None) k r (l_kernel s')
  end.

Lemma fmq_take_spec k p a x q peek :
  wf k → is_Some (ks_current k) → ks_mailboxes k !! a = Some x → fr_queues p !! a = Some q → fmq_ok x q → 0 < mb_entry x →
  wp (fmq_take a peek) (λ r s', wf (l_kernel s') ∧ is_Some (ks_current (l_kernel s')) ∧ l_own s' = p ∧ same_objects k (l_kernel s') ∧ ∃ x' v l,
    ks_mailboxes (l_kernel s') = <[a := x']> (ks_mailboxes k) ∧ fmq_ok x' q ∧ r = (RT_EOK, Some v) ∧ fmq_items x q = v :: l ∧
    if peek =? pdFALSE then fmq_items x' q = l ∧ woke (LMbSend a) k (l_kernel s') else x' = x ∧ l_kernel s' = k) (Layer k p).
Proof.
  intros Hwf Hc Hx Hq Hok Hpos0. destruct (take_block_spec x q Hok Hpos0) as [Hok' Hit].
  unfold fmq_take. wp_step. apply wp_kern. eapply wp_get_mailbox; [done|].
  wp_step. eapply fmq_load_spec; [done|done|apply Hok|]. destruct (peek =? pdFALSE); simpl negb; cbv iota.
  - fold (take_block x). wp_step. apply wp_kern. unfold put_mailbox. wp_step. set (s1 := set_ks_mailboxes _ k). wp_step. apply wp_kern.
    eapply wp_mono; [apply (wake_spec s1 (LMbSend a)); [by eapply wf_ext, Hwf|done|done]|].
    intros ? s' (Hwf' & Hc' & Hfr & Hwk). wp_step. split_and!; [done|done|done|split; [apply (fr_objects _ _ Hfr)|apply (fr_containers _ _ Hfr)]|]. eexists (take_block x), _, _.
    split_and!; [by cbn [l_kernel]; rewrite (fr_mailboxes _ _ Hfr)|done|done|done|done|done].
  - wp_step. split_and!; [done|done|done|done|]. eexists x, _, _. split_and!; [by simpl; rewrite insert_id|done|done|done|done|done].
Qed.
Lemma fmq_recv_loop_spec k p a x q t th peek timeout :
  running k t th → ks_mailboxes k !! a = Some x → fr_queues p !! a = Some q → fmq_ok x q → timeout < HALF →
  wp (fmq_recv_loop a peek timeout) (fmq_received a t peek timeout x q k p) (Layer k p).
Proof.
  intros Hr Hx Hq Hok Htime. unfold fmq_recv_loop. wp_step. apply wp_kern. eapply wp_get_mailbox; [done|].
  destruct (Z.eqb_spec (mb_entry x) 0) as [H0|H0].
  - pose proof (fmq_items_nil x q H0) as Hnil.
    apply wp_kern. eapply wp_mono; [apply (fmq_wait_spec (LMbRecv a) _ _ _ (- RT_ETIMEOUT, None) k t th); [done|done|apply Hok|done|]|].
    { intros th1 s1 Hr1. wp_step. eapply wp_upd_thread; [apply Hr1|]. wp_step.
      split_and!; [done|apply wf_set_error; apply Hr1|by eapply (running_some s1)|done]. }
    intros r s' Hw. pose proof Hw as (Hwf & Hc & Em & Hres). split; [done|]. split; [done|]. split; [done|]. exists x.
    split_and!; [by simpl; rewrite Em, insert_id|done|].
    destruct r as [[e got]|w]; [destruct Hres as [[= -> ->] ->]; by right|by split_and!].
  - wp_step. eapply wp_mono; [apply (fmq_take_spec k p a x q peek); [apply Hr|by eapply running_some|done|done|done|pose proof (fo_entry _ _ Hok); lia]|].
    intros ? s' (Hwf & Hc & Eo & _ & x' & v & l & Em & Hok' & -> & Hit & Hp). wp_step.
    split; [done|]. split; [done|]. split; [done|]. exists x'. split_and!; [done|done|]. left. split; [done|]. by exists v, l.
Qed.

(** C12. [rt_fmq_recv] implements the other side of the queue: it returns the first item, takes
    it out and makes the first waiting sender ready, or leaves it and changes nothing when it
    only peeks; an empty queue makes the call return a timeout at once or wait in the list of
    receivers.  A receiver that is woken goes on in the same way with the time it has left. *)
Theorem rt_fmq_recv_refines k p a x q t th peek timeout :
  running k t th → ks_mailboxes k !! a = Some x → fr_queues p !! a = Some q → fmq_ok x q → timeout < HALF →
  wp (rt_fmq_recv a peek timeout) (fmq_received a t peek timeout x q k p) (Layer k p) ∧
  ∀ start, th_error th = RT_EOK → u32 (ks_tick k - start) ≤ 2 ^ 31 →
    wp (rt_fmq_recv_resumed t a peek (timeout, start))
      (fmq_received a t peek (time_left k timeout start) x q k p) (Layer k p).
Proof.
  intros Hr Hx Hq Hok Htime. split.
  - unfold rt_fmq_recv. wp_step. apply wp_kern. eapply wp_get_mailbox; [done|].
    destruct (Z.eqb_spec (mb_entry x) 0) as [H0|H0]; simpl; [|by eapply fmq_recv_loop_spec].
    destruct (Z.eqb_spec timeout 0) as [Ht0|Ht0]; [|by eapply fmq_recv_loop_spec].
    wp_step. split; [apply Hr|]. split; [by eapply running_some|]. split; [done|]. exists x.
    split_and!; [by simpl; rewrite insert_id|done|]. right. split_and!; try done. by apply fmq_items_nil.
  - intros start He Hd. unfold rt_fmq_recv_resumed. wp_step. apply wp_kern. eapply wp_get_thread; [apply Hr|].
    rewrite He. simpl. wp_step. apply wp_kern, wait_left_spec; [change HALF with (2 ^ 31 - 1) in Htime; lia|done|].
    eapply fmq_recv_loop_spec; try done. by apply time_left_range.
Qed.

(** ** Peeking and waiting *)

(** C14. Of two receivers that wait, the first to peek at what comes: a send makes only this one
    ready, and when it runs it leaves the item in the queue and wakes nobody.  The second one
    goes on waiting, although the queue holds an item. *)
Theorem fmq_peek_leaves_receivers k p a x q value pos timeout w1 w2 ws :
  wf k → is_Some (ks_current k) → ks_mailboxes k !! a = Some x → fr_queues p !! a = Some q → fmq_ok x q → fmq_items x q = [] →
  fq_item q ≤ Z.of_nat (length value) → l_get (ks_lists k) (LMbRecv a) = w1 :: w2 :: ws →
  wp (rt_fmq_send a value pos timeout) (λ r s1, r = Return RT_EOK ∧ l_get (ks_lists (l_kernel s1)) (LMbRecv a) = w2 :: ws ∧
    ∀ k2 th1 peek time start, running k2 w1 th1 → th_error th1 = RT_EOK → ks_mailboxes k2 = ks_mailboxes (l_kernel s1) →
      peek ≠ pdFALSE → time < HALF → u32 (ks_tick k2 - start) ≤ 2 ^ 31 →
      wp (rt_fmq_recv_resumed w1 a peek (time, start)) (λ r s2,
        r = Return (RT_EOK, Some (take (Z.to_nat (fq_item q)) value)) ∧ l_kernel s2 = k2 ∧
        ∃ x' q', ks_mailboxes k2 !! a = Some x' ∧ fr_queues (l_own s2) !! a = Some q' ∧ length (fmq_items x' q') = 1%nat)
        (Layer k2 (l_own s1))) (Layer k p).
Proof.
  intros Hwf0 Hc0 Hx Hq Hok Hnil Hv El.
  assert (E0 : mb_entry x = 0).
  { pose proof (fmq_items_length x q) as Hl. rewrite Hnil in Hl. pose proof (fo_entry _ _ Hok). simpl in Hl. lia. }
  assert (Ef : fmq_full x pos = false).
  { unfold fmq_full. rewrite E0. pose proof (fo_size _ _ Hok). rewrite (proj2 (Z.eqb_neq 0 _)) by lia. done. }
  unfold rt_fmq_send, fmq_send_loop. wp_step. apply wp_kern. eapply wp_get_mailbox; [done|]. rewrite Ef. simpl.
  wp_step. apply wp_kern. eapply wp_get_mailbox; [done|]. rewrite Ef. wp_step.
  eapply wp_mono; [by eapply fmq_put_spec|].
  intros ? s' (-> & Hwf & Hc & Em & Eo & Hwk & _). pose proof (put_block_spec value pos x q Hok Ef Hv) as Hb.
  destruct (put_block value pos x q) as [x' q'] eqn:Epb. simpl in Em, Eo. destruct Hb as [Hok' Hit].
  rewrite Hnil in Hit. unfold queued in Hit. rewrite bool_decide_true in Hit by done. simpl in Hit.
  unfold woke in Hwk. rewrite El in Hwk. destruct Hwk as [El' _].
  wp_step. split_and!; [done|done|]. intros k2 th1 peek time start Hr2 He Em2 Hpk Htime Hd.
  assert (Hx2 : ks_mailboxes k2 !! a = Some x') by (rewrite Em2, Em; apply lookup_insert_eq).
  assert (Hq2 : fr_queues (l_own s') !! a = Some q') by (rewrite Eo, set_queue_queues; apply lookup_insert_eq).
  assert (E1 : 0 < mb_entry x').
  { pose proof (fmq_items_length x' q') as Hl. rewrite Hit in Hl. pose proof (fo_entry _ _ Hok'). simpl in Hl. lia. }
  unfold rt_fmq_recv_resumed. wp_step. apply wp_kern. eapply wp_get_thread; [apply Hr2|]. rewrite He. simpl.
  wp_step. apply wp_kern, wait_left_spec; [change HALF with (2 ^ 31 - 1) in Htime; lia|done|].
  unfold fmq_recv_loop. wp_step. apply wp_kern. eapply wp_get_mailbox; [done|]. rewrite (proj2 (Z.eqb_neq _ 0)) by lia.
  wp_step. eapply wp_mono; [apply (fmq_take_spec k2 (l_own s') a x' q' peek); [apply Hr2|by eapply running_some|done|done|done|done]|].
  intros ? s2 (_ & _ & Eo2 & _ & x2 & v & l & _ & _ & -> & Hit2 & Hp). wp_step. rewrite (proj2 (Z.eqb_neq peek _)) in Hp by done.
  rewrite Hit in Hit2. injection Hit2 as <- <-. split_and!; [done|apply Hp|]. exists x', q'. split_and!; [done|by rewrite Eo2|by rewrite Hit].
Qed.
End spec.
