(* ===== verification/MsgQueue.v ===== *)
(** Message queues, [rt-thread/src/ipc.c]: messages of bounded size, copied into
    blocks of a pool that are linked through their first word.

    A send takes a block from the free list, fills it with interrupts enabled and
    links it into the queue; a receive unlinks a block, copies it with interrupts
    enabled and gives it back.  Each of these sections is a definition of its own,
    so that calls that interleave between the sections can be reasoned about. *)

From stdpp Require Import base gmap list fin_maps.
From Stdlib Require Import ZArith Lia.
From S2P Require Import Prelude IntrusiveList Ffs Kservice KState Object Sched Timer KInv SchedFacts.
From S2P Require Import TimerFacts Thread Ipc IpcFacts Ring.

Open Scope Z_scope.

(** * The sections on the control block *)

(** [sizeof(struct rt_mq_message)]: one pointer. *)
Definition mq_header : Z := 4.

Definition mq_block (x : rt_messagequeue) (i : Z) : Z :=
  mq_msg_pool x + i * (mq_msg_size x + mq_header).

(** [msg->next = mq->msg_queue_free; mq->msg_queue_free = msg;] *)
Definition mq_release (b : Z) (x : rt_messagequeue) : rt_messagequeue :=
  set_mq_queue_free (Some b) (set_mq_next (<[b := mq_queue_free x]> (mq_next x)) x).

(** The loop that builds the free list. *)
Fixpoint mq_free_init (n : nat) (x : rt_messagequeue) : rt_messagequeue :=
  match n with
  | O => x
  | S n' => let x' := mq_free_init n' x in mq_release (mq_block x (Z.of_nat n')) x'
  end.

(** Taking a block from the free list; [None] as a block means that there is none. *)
Definition mq_alloc (x : rt_messagequeue) : option (option Z * rt_messagequeue) :=
  match mq_queue_free x with
  | None => Some (None, x)
  | Some b => next ← mq_next x !! b; Some (Some b, set_mq_queue_free next x)
  end.

(** [rt_memcpy(msg + 1, buffer, size)] *)
Definition mq_copy (b : Z) (buffer : list Z) (x : rt_messagequeue) : option rt_messagequeue :=
  data ← mq_data x !! b;
  Some (set_mq_data (<[b := buffer ++ drop (length buffer) data]> (mq_data x)) x).

(** [msg->next = p;] on a block of the pool. *)
Definition mq_set_next (b : Z) (p : option Z) (x : rt_messagequeue) : option rt_messagequeue :=
  _ ← mq_next x !! b; Some (set_mq_next (<[b := p]> (mq_next x)) x).

(** Linking a filled block at the tail of the queue. *)
Definition mq_append (b : Z) (x : rt_messagequeue) : option rt_messagequeue :=
  x ← match mq_queue_tail x with
      | Some tail => mq_set_next tail (Some b) x
      | None => Some x
      end;
  let x := set_mq_queue_tail (Some b) x in
  let x := match mq_queue_head x with None => set_mq_queue_head (Some b) x | Some _ => x end in
  Some (set_mq_entry (u16 (mq_entry x + 1)) x).

(** Linking a block at the head of the queue. *)
Definition mq_prepend (b : Z) (x : rt_messagequeue) : option rt_messagequeue :=
  x ← mq_set_next b (mq_queue_head x) x;
  let x := set_mq_queue_head (Some b) x in
  let x := match mq_queue_tail x with None => set_mq_queue_tail (Some b) x | Some _ => x end in
  Some (set_mq_entry (u16 (mq_entry x + 1)) x).

(** Unlinking the block at the head of the queue. *)
Definition mq_unlink_head (x : rt_messagequeue) : option (Z * rt_messagequeue) :=
  b ← mq_queue_head x;
  next ← mq_next x !! b;
  let x := set_mq_queue_head next x in
  let x := if decide (mq_queue_tail x = Some b) then set_mq_queue_tail None x else x in
  Some (b, x).

(** * The calls *)

(** [mem] is the memory of the payloads of the pool. *)
Definition rt_mq_init (a : Z) (name : list Z) (msgpool : Z) (mem : gmap Z (list Z))
    (msg_size pool_size flag : Z) : K Z :=
  rt_object_init (OMq a) ClassMessageQueue name;;
  _ ← rt_ipc_object_init (LMq a);
  let msg_size := u16 (RT_ALIGN msg_size RT_ALIGN_SIZE) in
  let max_msgs := u16 (pool_size / (msg_size + mq_header)) in
  put_mq a (mq_free_init (Z.to_nat max_msgs)
    (mk_mq (u8 flag) msgpool ∅ mem msg_size max_msgs 0 None None None));;
  mret RT_EOK.

Definition rt_mq_detach (a : Z) : K Z :=
  _ ← resume_all (LMq a);
  rt_object_detach (OMq a);;
  mret RT_EOK.

Definition rt_mq_delete (a : Z) : K Z :=
  RT_DEBUG_NOT_IN_INTERRUPT;;
  _ ← resume_all (LMq a);
  x ← get_mq a;
  RT_KERNEL_FREE (mq_msg_pool x);;
  rt_object_delete (OMq a) a;;
  mret RT_EOK.

(** [block] is the memory the object is allocated in, [pool] the message pool with
    the memory of its payloads.  When there is no pool the object is deleted again;
    its pool is the null pointer then. *)
Definition rt_mq_create (block : option Z) (pool : option (Z * gmap Z (list Z))) (name : list Z)
    (msg_size max_msgs flag : Z) : K (option Z) :=
  RT_DEBUG_NOT_IN_INTERRUPT;;
  p ← rt_object_allocate ClassMessageQueue name block OMq;
  match p with
  | None => mret None
  | Some a =>
    _ ← rt_ipc_object_init (LMq a);
    let msg_size := u16 (RT_ALIGN msg_size RT_ALIGN_SIZE) in
    let max_msgs := u16 max_msgs in
    match pool with
    | None =>
      put_mq a (mk_mq (u8 flag) 0 ∅ ∅ msg_size max_msgs 0 None None None);;
      _ ← rt_mq_delete a;
      mret None
    | Some (msgpool, mem) =>
      put_mq a (mq_free_init (Z.to_nat max_msgs)
        (mk_mq (u8 flag) msgpool ∅ mem msg_size max_msgs 0 None None None));;
      mret (Some a)
    end
  end.

(** One section with interrupts disabled, or one step between two of them. *)
Definition mq_section {A} (a : Z) (f : rt_messagequeue → option (A * rt_messagequeue)) : K A :=
  x ← get_mq a;
  p ← of_option BadPointer (f x);
  put_mq a p.2;;
  mret p.1.
Definition mq_section_ (a : Z) (f : rt_messagequeue → option rt_messagequeue) : K unit :=
  mq_section a (λ x, y ← f x; Some (tt, y)).

(** The end of a send: wake a receiver. *)
Definition mq_wake (a : Z) : K Z :=
  e ← tlist_isempty (LMq a);
  when (negb e) (_ ← rt_ipc_list_resume (LMq a); rt_schedule);;
  mret RT_EOK.

Definition rt_mq_send (a : Z) (buffer : list Z) : K Z :=
  let size := Z.of_nat (length buffer) in
  RT_ASSERT (negb (size =? 0));;
  x ← get_mq a;
  if mq_msg_size x <? size then mret (- RT_ERROR)
  else
    msg ← mq_section a mq_alloc;
    match msg with
    | None => mret (- RT_EFULL)
    | Some b =>
      mq_section_ a (mq_set_next b None);;
      mq_section_ a (mq_copy b buffer);;
      mq_section_ a (mq_append b);;
      mq_wake a
    end.

Definition rt_mq_urgent (a : Z) (buffer : list Z) : K Z :=
  let size := Z.of_nat (length buffer) in
  RT_ASSERT (negb (size =? 0));;
  x ← get_mq a;
  if mq_msg_size x <? size then mret (- RT_ERROR)
  else
    msg ← mq_section a mq_alloc;
    match msg with
    | None => mret (- RT_EFULL)
    | Some b =>
      mq_section_ a (mq_copy b buffer);;
      mq_section_ a (mq_prepend b);;
      mq_wake a
    end.

(** The end of a receive: [rt_memcpy(buffer, msg + 1, min(size, msg_size))]. *)
Definition mq_take (a size : Z) : K (list Z) :=
  b ← mq_section a (λ x, p ← mq_unlink_head x;
    Some (p.1, set_mq_entry (u16 (mq_entry p.2 - 1)) p.2));
  x ← get_mq a;
  data ← of_option BadPointer (mq_data x !! b);
  let n := if mq_msg_size x <? size then mq_msg_size x else size in
  mq_section_ a (λ x, Some (mq_release b x));;
  mret (take (Z.to_nat n) data).

(** The loop of [rt_mq_recv], from the test of its condition to the context switch. *)
Definition mq_recv_loop (a size timeout : Z) : K (call (Z * option (list Z)) (Z * Z)) :=
  x ← get_mq a;
  if mq_entry x =? 0 then
    RT_DEBUG_IN_THREAD_CONTEXT;;
    t ← self;
    upd_thread t (set_th_error RT_EOK);;
    if timeout =? 0 then
      upd_thread t (set_th_error (- RT_ETIMEOUT));;
      mret (Return (- RT_ETIMEOUT, None))
    else
      _ ← rt_ipc_list_suspend (LMq a) t (mq_flag x);
      start ← wait_start timeout;
      wait_timer t timeout;;
      rt_schedule;;
      mret (Wait (timeout, start))
  else data ← mq_take a size; mret (Return (RT_EOK, Some data)).

Definition rt_mq_recv (a size timeout : Z) : K (call (Z * option (list Z)) (Z * Z)) :=
  RT_ASSERT (negb (size =? 0));;
  x ← get_mq a;
  if (mq_entry x =? 0) && (timeout =? 0) then mret (Return (- RT_ETIMEOUT, None))
  else mq_recv_loop a size timeout.
Definition rt_mq_recv_resumed (t a size : Z) (w : Z * Z) : K (call (Z * option (list Z)) (Z * Z)) :=
  th ← get_thread t;
  if th_error th =? RT_EOK then
    timeout ← wait_left w.1 w.2;
    mq_recv_loop a size timeout
  else mret (Return (th_error th, None)).

(** The loop of the reset: the blocks of the queue go back to the free list. *)
Fixpoint mq_flush (fuel : nat) (x : rt_messagequeue) : option rt_messagequeue :=
  match mq_queue_head x with
  | None => Some x
  | Some _ =>
    match fuel with
    | O => None
    | S fuel' => p ← mq_unlink_head x; mq_flush fuel' (mq_release p.1 p.2)
    end
  end.

Definition rt_mq_control (a cmd : Z) : K Z :=
  if cmd =? RT_IPC_CMD_RESET then
    _ ← resume_all (LMq a);
    mq_section_ a (λ x, mq_flush (Z.to_nat (mq_max_msgs x)) x);;
    upd_mq a (set_mq_entry 0);;
    rt_schedule;;
    mret RT_EOK
  else mret (- RT_ERROR).

(** * Representation *)

Section rep.
Implicit Types (x : rt_messagequeue) (Q F I J : list Z).

(** The blocks of the pool: those in the queue [Q], the free ones [F], those some
    call has in its hands [I], and among these those a send has filled and will
    append [J]. *)
Record mq_rep x Q F I J : Prop := {
  mr_queue : chain (mq_next x) (mq_queue_head x) Q;
  mr_tail : mq_queue_tail x = last Q;
  mr_free : chain (mq_next x) (mq_queue_free x) F;
  mr_ready b : b ∈ J → mq_next x !! b = Some None;
  mr_entry : mq_entry x = Z.of_nat (length Q);
  mr_nodup : NoDup (Q ++ F ++ I ++ J);
  mr_count : Z.of_nat (length (Q ++ F ++ I ++ J)) = mq_max_msgs x;
  mr_max : mq_max_msgs x < 2 ^ 16;
  mr_mem b : b ∈ Q ++ F ++ I ++ J → is_Some (mq_next x !! b) ∧
    ∃ d, mq_data x !! b = Some d ∧ length d = Z.to_nat (mq_msg_size x);
}.

(** The messages in the queue, oldest first. *)
Definition mq_contents x Q : list (list Z) := (λ b, default [] (mq_data x !! b)) <$> Q.

(** What no section changes. *)
Record mq_same x x' : Prop := {
  ms_size : mq_msg_size x' = mq_msg_size x;
  ms_max : mq_max_msgs x' = mq_max_msgs x;
  ms_flag : mq_flag x' = mq_flag x;
  ms_pool : mq_msg_pool x' = mq_msg_pool x;
}.

Lemma mq_alloc_rep x Q F I J :
  mq_rep x Q F I J →
  match F with
  | [] => mq_alloc x = Some (None, x)
  | b :: F' => ∃ x', mq_alloc x = Some (Some b, x') ∧ mq_rep x' Q F' (b :: I) J ∧
      mq_data x' = mq_data x ∧ mq_same x x'
  end.
Proof.
  intros [Hq Ht Hf Hr He Hnd Hc Hm Hmem]. unfold mq_alloc.
  destruct F as [|b F]; simpl in Hf; [by rewrite Hf|].
  destruct Hf as (-> & q & Hb & Hf). rewrite Hb. simpl. eexists. split; [done|].
  assert (Hp : Q ++ (b :: F) ++ I ++ J ≡ₚ Q ++ F ++ (b :: I) ++ J).
  { apply Permutation_app_head. simpl. by rewrite Permutation_middle. }
  split_and!; [|done|done]. split; simpl; try done.
  - by rewrite <- Hp.
  - by rewrite <- Hp.
  - intros c. rewrite <- Hp. apply Hmem.
Qed.

Lemma mq_release_rep x Q F I J b :
  mq_rep x Q F (b :: I) J →
  mq_rep (mq_release b x) Q (b :: F) I J ∧ mq_data (mq_release b x) = mq_data x ∧ mq_same x (mq_release b x).
Proof.
  intros [Hq Ht Hf Hr He Hnd Hc Hm Hmem].
  assert (Hp : Q ++ (b :: F) ++ I ++ J ≡ₚ Q ++ F ++ (b :: I) ++ J).
  { apply Permutation_app_head. simpl. by rewrite Permutation_middle. }
  rewrite <- Hp in Hnd.
  assert (Hb : b ∉ Q ++ F ++ I ++ J).
  { change ((b :: F) ++ I ++ J) with (b :: F ++ I ++ J) in Hnd. by apply NoDup_middle in Hnd. }
  split_and!; [|done|done]. split; simpl; try done.
  - apply chain_insert; [set_solver|done].
  - split; [done|]. exists (mq_queue_free x). rewrite lookup_insert_eq. split; [done|].
    apply chain_insert; [set_solver|done].
  - intros c Hc'. rewrite lookup_insert_ne; [by apply Hr|]. set_solver.
  - by rewrite Hp.
  - intros c Hin. destruct (Hmem c) as [Hs Hd]; [by rewrite <- Hp|]. split; [|done].
    rewrite lookup_insert. case_decide; [eauto|done].
Qed.

Lemma mq_copy_rep x Q F I J b buffer :
  mq_rep x Q F I J → b ∈ I ++ J → Z.of_nat (length buffer) ≤ mq_msg_size x →
  ∃ x' d, mq_data x !! b = Some d ∧ mq_copy b buffer x = Some x' ∧ mq_rep x' Q F I J ∧
    mq_data x' = <[b := buffer ++ drop (length buffer) d]> (mq_data x) ∧ mq_same x x' ∧
    mq_next x' = mq_next x.
Proof.
  intros [Hq Ht Hf Hr He Hnd Hc Hm Hmem] Hb Hlen.
  destruct (Hmem b ltac:(set_solver)) as (_ & d & Hd & Hdl). unfold mq_copy. rewrite Hd. simpl.
  eexists _, d. split_and!; [done|done| |done|done|done]. split; simpl; try done.
  intros c Hin. destruct (Hmem c Hin) as (Hs & dc & Hdc & Hdcl). split; [done|].
  rewrite lookup_insert. case_decide; [|eauto]. eexists. split; [done|].
  rewrite length_app, length_drop. lia.
Qed.

Lemma mq_ready_rep x Q F I J b :
  mq_rep x Q F (b :: I) J →
  ∃ x', mq_set_next b None x = Some x' ∧ mq_rep x' Q F I (b :: J) ∧
    mq_data x' = mq_data x ∧ mq_same x x'.
Proof.
  intros [Hq Ht Hf Hr He Hnd Hc Hm Hmem]. unfold mq_set_next.
  destruct (Hmem b ltac:(set_solver)) as [[q Hb] _]. rewrite Hb. simpl.
  assert (Hp : Q ++ F ++ I ++ b :: J ≡ₚ Q ++ F ++ (b :: I) ++ J).
  { do 2 apply Permutation_app_head. simpl. by rewrite Permutation_middle. }
  rewrite <- Hp in Hnd.
  assert (Hbn : b ∉ Q ++ F ++ I ++ J).
  { rewrite !app_assoc in Hnd |- *. by apply NoDup_middle in Hnd. }
  eexists. split_and!; [done| |done|done]. split; simpl; try done.
  - apply chain_insert; [set_solver|done].
  - apply chain_insert; [set_solver|done].
  - intros c Hin. rewrite lookup_insert. case_decide; [done|]. apply Hr. set_solver.
  - by rewrite Hp.
  - intros c Hin. destruct (Hmem c) as [Hs Hd]; [by rewrite <- Hp|]. split; [|done].
    rewrite lookup_insert. case_decide; [eauto|done].
Qed.

Lemma mq_entry_up x Q F I J :
  mq_rep x Q F I J → (length Q < length (Q ++ F ++ I ++ J))%nat →
  u16 (mq_entry x + 1) = Z.of_nat (S (length Q)).
Proof.
  intros [_ _ _ _ He _ Hc Hm _] Hlt. unfold u16. rewrite He, Z.mod_small; lia.
Qed.

Lemma mq_append_rep x Q F I J b :
  mq_rep x Q F I (b :: J) →
  ∃ x', mq_append b x = Some x' ∧ mq_rep x' (Q ++ [b]) F I J ∧ mq_data x' = mq_data x ∧ mq_same x x'.
Proof.
  intros Hrep. pose proof (mq_entry_up _ _ _ _ _ Hrep ltac:(rewrite !length_app; simpl; lia)) as Eu.
  destruct Hrep as [Hq Ht Hf Hr He Hnd Hc Hm Hmem].
  assert (Hp : (Q ++ [b]) ++ F ++ I ++ J ≡ₚ Q ++ F ++ I ++ b :: J).
  { rewrite <- app_assoc. apply Permutation_app_head. simpl. by rewrite !app_assoc, Permutation_middle. }
  pose proof (proj1 (NoDup_app _ _) Hnd) as (HndQ & HQ & HndR).
  assert (HbR : b ∈ F ++ I ++ b :: J) by set_solver.
  assert (Hbn : b ∉ F ++ I ++ J) by (rewrite !app_assoc in HndR |- *; by apply NoDup_middle in HndR).
  assert (HbQ : b ∉ Q) by (intros Hin; by eapply HQ).
  set (next' := match last Q with Some t => <[t := Some b]> (mq_next x) | None => mq_next x end).
  assert (Hnext : ∀ c, c ∉ Q → next' !! c = mq_next x !! c).
  { intros c Hin. unfold next'. destruct (last Q) as [t|] eqn:E; [|done].
    apply last_Some in E as [l ->]. apply lookup_insert_ne. set_solver. }
  assert (Hdom : ∀ c, is_Some (mq_next x !! c) → is_Some (next' !! c)).
  { intros c Hs. unfold next'. destruct (last Q); [|done]. rewrite lookup_insert. case_decide; eauto. }
  set (x' := set_mq_entry (Z.of_nat (S (length Q))) (set_mq_queue_head
    (match mq_queue_head x with None => Some b | h => h end) (set_mq_queue_tail (Some b) (set_mq_next next' x)))).
  assert (Ex : mq_append b x = Some x').
  { unfold mq_append, x', next'. rewrite Ht. destruct (last Q) as [t|] eqn:E.
    - unfold mq_set_next. destruct (Hmem t) as [[q Hs] _].
      { apply last_Some in E as [l ->]. set_solver. }
      rewrite Hs. simpl. destruct (mq_queue_head x) eqn:Eh; simpl; rewrite Eu; [|done].
      unfold set_mq_entry, set_mq_queue_head. simpl. by rewrite Eh.
    - simpl. destruct (mq_queue_head x) eqn:Eh; simpl; rewrite Eu; [|by destruct x].
      unfold set_mq_entry, set_mq_queue_head. simpl. rewrite Eh. by destruct x. }
  exists x'. split_and!; [done| |done|done]. split; simpl; try done.
  - apply (chain_append (mq_next x) (mq_queue_head x) Q b); [done|done|by apply Hr; left|done].
  - by rewrite last_snoc.
  - eapply chain_ext; [|done]. intros c Hin. apply Hnext. intros HcQ. eapply HQ; [done|]. set_solver.
  - intros c Hin. rewrite Hnext; [apply Hr; by right|]. intros HcQ. eapply HQ; [done|]. set_solver.
  - rewrite length_app. simpl. lia.
  - by rewrite Hp.
  - by rewrite Hp.
  - intros c. rewrite Hp. intros Hin. destruct (Hmem c Hin) as [Hs Hd]. split; [by apply Hdom|done].
Qed.

Lemma mq_prepend_rep x Q F I J b :
  mq_rep x Q F (b :: I) J →
  ∃ x', mq_prepend b x = Some x' ∧ mq_rep x' (b :: Q) F I J ∧ mq_data x' = mq_data x ∧ mq_same x x'.
Proof.
  intros Hrep. pose proof (mq_entry_up _ _ _ _ _ Hrep ltac:(rewrite !length_app; simpl; lia)) as Eu.
  destruct Hrep as [Hq Ht Hf Hr He Hnd Hc Hm Hmem].
  assert (Hp : (b :: Q) ++ F ++ I ++ J ≡ₚ Q ++ F ++ (b :: I) ++ J).
  { simpl. by rewrite !app_assoc, <- Permutation_middle, <- !app_assoc. }
  rewrite <- Hp in Hnd, Hc. simpl in Hnd. pose proof (proj1 (NoDup_cons _ _) Hnd) as [Hbn _].
  destruct (Hmem b ltac:(set_solver)) as [[q Hb] _].
  set (x' := set_mq_entry (Z.of_nat (S (length Q))) (set_mq_queue_tail
    (match mq_queue_tail x with None => Some b | t => t end) (set_mq_queue_head (Some b)
      (set_mq_next (<[b := mq_queue_head x]> (mq_next x)) x)))).
  assert (Ex : mq_prepend b x = Some x').
  { unfold mq_prepend, mq_set_next, x'. rewrite Hb. simpl.
    destruct (mq_queue_tail x) eqn:Et; simpl; rewrite Eu; [|done].
    unfold set_mq_entry, set_mq_queue_tail. simpl. by rewrite Et. }
  exists x'. split_and!; [done| |done|done]. split; simpl; try done.
  - split; [done|]. exists (mq_queue_head x). rewrite lookup_insert_eq. split; [done|].
    apply chain_insert; [set_solver|done].
  - rewrite Ht. destruct Q as [|c Q]; [done|]. destruct (last (c :: Q)) eqn:E; [|by apply last_None in E].
    by rewrite <- E.
  - apply chain_insert; [set_solver|done].
  - intros c Hin. rewrite lookup_insert_ne; [by apply Hr|]. set_solver.
  - intros c Hin. destruct (Hmem c) as [Hs Hd]; [by rewrite <- Hp|]. split; [|done].
    rewrite lookup_insert. case_decide; [eauto|done].
Qed.

(** Unlinking the head, together with the count. *)
Lemma mq_unlink_rep x Q F I J b :
  mq_rep x (b :: Q) F I J →
  ∃ x', mq_unlink_head x = Some (b, x') ∧
    mq_rep (set_mq_entry (u16 (mq_entry x' - 1)) x') Q F (b :: I) J ∧
    mq_data x' = mq_data x ∧ mq_same x x' ∧ mq_entry x' = mq_entry x.
Proof.
  intros [Hq Ht Hf Hr He Hnd Hc Hm Hmem]. destruct Hq as (Hh & q & Hb & Hq).
  unfold mq_unlink_head. rewrite Hh. simpl. rewrite Hb. simpl. eexists. split; [done|].
  assert (Hp : Q ++ F ++ (b :: I) ++ J ≡ₚ (b :: Q) ++ F ++ I ++ J).
  { simpl. by rewrite !app_assoc, <- Permutation_middle, <- !app_assoc. }
  pose proof (proj1 (NoDup_app _ _) Hnd) as ([HbQ _]%NoDup_cons & _ & _).
  rewrite Ht. set (x' := if decide _ then _ else _).
  assert (Hlast : last (b :: Q) = Some b ↔ Q = []).
  { destruct Q as [|c Q]; [done|]. split; [|done]. intros E. exfalso. apply HbQ.
    change (last (c :: Q) = Some b) in E. apply last_Some in E as [l ->]. set_solver. }
  assert (mq_queue_tail x' = last Q ∧ mq_queue_head x' = q ∧ mq_next x' = mq_next x ∧
    mq_queue_free x' = mq_queue_free x ∧ mq_entry x' = mq_entry x ∧ mq_data x' = mq_data x ∧ mq_same x x')
    as (E1 & E2 & E3 & E4 & E5 & E6 & E7).
  { unfold x'. case_decide as El; simpl.
    - apply Hlast in El as ->. done.
    - split_and!; try done. rewrite Ht. destruct Q as [|c Q]; [by destruct El|done]. }
  split_and!; [|done|done|done]. destruct E7 as [Es Em _ _].
  split; simpl; rewrite ?E1, ?E2, ?E3, ?E4, ?E5, ?E6, ?Es, ?Em; try done.
  - unfold u16. rewrite He. simpl length. rewrite length_app in Hc. simpl length in Hc.
    rewrite Z.mod_small; lia.
  - by rewrite Hp.
  - by rewrite Hp.
  - intros c. rewrite Hp. apply Hmem.
Qed.
End rep.

(** ** The queue as built *)

Fixpoint blocks (x : rt_messagequeue) (n : nat) : list Z :=
  match n with O => [] | S n' => mq_block x (Z.of_nat n') :: blocks x n' end.

Lemma elem_of_blocks x n b : b ∈ blocks x n ↔ ∃ i, (i < n)%nat ∧ b = mq_block x (Z.of_nat i).
Proof.
  induction n as [|n IH]; simpl; [split; [by intros ?%not_elem_of_nil|intros (?&?&_); lia]|].
  rewrite elem_of_cons, IH. split.
  - intros [->|(i & ? & ->)]; [exists n|exists i]; split; try done; lia.
  - intros (i & Hi & ->). destruct (decide (i = n)) as [->|]; [by left|right; exists i; split; [lia|done]].
Qed.
Lemma NoDup_blocks x n : 0 ≤ mq_msg_size x → NoDup (blocks x n).
Proof.
  intros Hs. induction n as [|n IH]; simpl; [constructor|]. constructor; [|done].
  rewrite elem_of_blocks. intros (i & Hi & E). unfold mq_block, mq_header in E. nia.
Qed.
Lemma length_blocks x n : length (blocks x n) = n.
Proof. induction n; simpl; congruence. Qed.

Lemma mq_free_init_fields n x : let x' := mq_free_init n x in
  mq_same x x' ∧ mq_queue_head x' = mq_queue_head x ∧ mq_queue_tail x' = mq_queue_tail x ∧
  mq_entry x' = mq_entry x ∧ mq_data x' = mq_data x.
Proof. induction n as [|n ([] & ? & ? & ? & ?)]; simpl; [done|]. by split_and!. Qed.

Lemma mq_free_init_chain n x :
  0 ≤ mq_msg_size x → mq_queue_free x = None →
  chain (mq_next (mq_free_init n x)) (mq_queue_free (mq_free_init n x)) (blocks x n).
Proof.
  intros Hs Hf. induction n as [|n IH]; simpl; [done|]. split; [done|]. eexists.
  rewrite lookup_insert_eq. split; [done|]. apply chain_insert; [|done].
  pose proof (NoDup_blocks x (S n) Hs) as Hnd. by apply NoDup_cons in Hnd as [? _].
Qed.
Lemma mq_init_rep flag pool mem msg_size n :
  0 ≤ msg_size → Z.of_nat n < 2 ^ 16 →
  let x0 := mk_mq flag pool ∅ mem msg_size (Z.of_nat n) 0 None None None in
  (∀ b, b ∈ blocks x0 n → ∃ d, mem !! b = Some d ∧ length d = Z.to_nat msg_size) →
  mq_rep (mq_free_init n x0) [] (blocks x0 n) [] [].
Proof.
  intros Hs Hn x0 Hmem. destruct (mq_free_init_fields n x0) as ([Es Em _ _] & Eh & Et & Ee & Ed).
  pose proof (mq_free_init_chain n x0 Hs eq_refl) as Hc.
  split; rewrite ?app_nil_r, ?Es, ?Em, ?Ed; simpl; rewrite ?app_nil_r; try done.
  - by intros b ?%not_elem_of_nil.
  - by apply NoDup_blocks.
  - by rewrite length_blocks.
  - intros b Hb. split; [by eapply chain_dom|]. by apply Hmem.
Qed.

(** ** Interleaved calls

    The sections of calls that run concurrently, as steps on the control block, the
    blocks the calls have in their hands [I] and the blocks that are filled and to
    be appended [J]. *)
Inductive mq_step : rt_messagequeue * list Z * list Z → rt_messagequeue * list Z * list Z → Prop :=
  | step_alloc x x' b I J :
      mq_alloc x = Some (Some b, x') → mq_step (x, I, J) (x', b :: I, J)
  | step_ready x x' b I I' J :
      I ≡ₚ b :: I' → mq_set_next b None x = Some x' → mq_step (x, I, J) (x', I', b :: J)
  | step_copy x x' b buffer I J :
      b ∈ I ++ J → Z.of_nat (length buffer) ≤ mq_msg_size x → mq_copy b buffer x = Some x' →
      mq_step (x, I, J) (x', I, J)
  | step_append x x' b I J J' :
      J ≡ₚ b :: J' → mq_append b x = Some x' → mq_step (x, I, J) (x', I, J')
  | step_prepend x x' b I I' J :
      I ≡ₚ b :: I' → mq_prepend b x = Some x' → mq_step (x, I, J) (x', I', J)
  | step_unlink x x' b I J :
      mq_entry x ≠ 0 → mq_unlink_head x = Some (b, x') →
      mq_step (x, I, J) (set_mq_entry (u16 (mq_entry x' - 1)) x', b :: I, J)
  | step_release x b I I' J :
      I ≡ₚ b :: I' → mq_step (x, I, J) (mq_release b x, I', J).

Lemma mq_rep_perm x Q F I I' J J' :
  I ≡ₚ I' → J ≡ₚ J' → mq_rep x Q F I J → mq_rep x Q F I' J'.
Proof.
  intros HI HJ [Hq Ht Hf Hr He Hnd Hc Hm Hmem].
  split; try done; intros *; rewrite <- ?HI, <- ?HJ; auto.
Qed.

Definition mq_inv (st : rt_messagequeue * list Z * list Z) : Prop :=
  ∃ Q F, mq_rep st.1.1 Q F st.1.2 st.2.

Lemma mq_step_inv st st' : mq_inv st → mq_step st st' → mq_inv st'.
Proof.
  intros (Q & F & Hrep) Hst.
  destruct Hst as [x x' b I J E|x x' b I I' J HI E|x x' b buffer I J Hb Hl E|x x' b I J J' HJ E
    |x x' b I I' J HI E|x x' b I J He E|x b I I' J HI]; simpl in Hrep.
  - pose proof (mq_alloc_rep _ _ _ _ _ Hrep) as Hal. destruct F as [|c F]; [congruence|].
    destruct Hal as (y & E' & Hrep' & _). simplify_eq. by exists Q, F.
  - apply (mq_rep_perm _ _ _ _ (b :: I') _ J) in Hrep; [|done..].
    destruct (mq_ready_rep _ _ _ _ _ _ Hrep) as (y & E' & Hrep' & _). simplify_eq. by exists Q, F.
  - destruct (mq_copy_rep _ _ _ _ _ _ _ Hrep Hb Hl) as (y & d & _ & E' & Hrep' & _). simplify_eq. by exists Q, F.
  - apply (mq_rep_perm _ _ _ _ I _ (b :: J')) in Hrep; [|done..].
    destruct (mq_append_rep _ _ _ _ _ _ Hrep) as (y & E' & Hrep' & _). simplify_eq. by exists (Q ++ [b]), F.
  - apply (mq_rep_perm _ _ _ _ (b :: I') _ J) in Hrep; [|done..].
    destruct (mq_prepend_rep _ _ _ _ _ _ Hrep) as (y & E' & Hrep' & _). simplify_eq. by exists (b :: Q), F.
  - destruct Q as [|c Q]; [by rewrite (mr_entry _ _ _ _ _ Hrep) in He|].
    destruct (mq_unlink_rep _ _ _ _ _ _ Hrep) as (y & E' & Hrep' & _). simplify_eq. by exists Q, F.
  - apply (mq_rep_perm _ _ _ _ (b :: I') _ J) in Hrep; [|done..].
    destruct (mq_release_rep _ _ _ _ _ _ Hrep) as [Hrep' _]. by exists Q, (b :: F).
Qed.

(** C6. Calls on a message queue may be interrupted between their sections by other
    calls on the same queue: in whatever order the sections of concurrent sends,
    urgent sends and receives run, the queue and the free list stay well-formed
    and every block of the pool is in exactly one place (in the queue, free, or in
    the hands of one call), the count of messages is right, and no section a call
    still has to run can fault. *)
Theorem mq_interleaving_safe flag pool mem msg_size n x I J :
  let x0 := mk_mq flag pool ∅ mem msg_size (Z.of_nat n) 0 None None None in
  0 ≤ msg_size → Z.of_nat n < 2 ^ 16 →
  (∀ b, b ∈ blocks x0 n → ∃ d, mem !! b = Some d ∧ length d = Z.to_nat msg_size) →
  rtc mq_step (mq_free_init n x0, [], []) (x, I, J) →
  (∃ Q F, mq_rep x Q F I J) ∧
  is_Some (mq_alloc x) ∧ (mq_entry x ≠ 0 → is_Some (mq_unlink_head x)) ∧
  (∀ b, b ∈ I → is_Some (mq_set_next b None x) ∧ is_Some (mq_prepend b x)) ∧
  (∀ b, b ∈ J → is_Some (mq_append b x)).
Proof.
  intros x0 Hs Hn Hmem Hrtc.
  assert (Hinv : mq_inv (x, I, J)).
  { eapply (rtc_ind_r mq_inv); [..|exact Hrtc]; [|eauto using mq_step_inv].
    exists [], (blocks x0 n). by apply mq_init_rep. }
  destruct Hinv as (Q & F & Hrep). simpl in Hrep. split; [eauto|]. split_and!.
  - pose proof (mq_alloc_rep _ _ _ _ _ Hrep) as Ha. destruct F; [rewrite Ha; eauto|].
    destruct Ha as (? & -> & _). eauto.
  - intros He. destruct Q as [|b Q]; [by rewrite (mr_entry _ _ _ _ _ Hrep) in He|].
    destruct (mq_unlink_rep _ _ _ _ _ _ Hrep) as (? & -> & _). eauto.
  - intros b [I' HI]%elem_of_Permutation. apply (mq_rep_perm _ _ _ _ (b :: I') _ J) in Hrep; [|done..].
    destruct (mq_ready_rep _ _ _ _ _ _ Hrep) as (? & -> & _).
    destruct (mq_prepend_rep _ _ _ _ _ _ Hrep) as (? & -> & _). eauto.
  - intros b [J' HJ]%elem_of_Permutation. apply (mq_rep_perm _ _ _ _ I _ (b :: J')) in Hrep; [|done..].
    destruct (mq_append_rep _ _ _ _ _ _ Hrep) as (? & -> & _). eauto.
Qed.

(** ** Whole calls *)

Lemma wp_mq_section {A} s a x f r x' (Q : A → kstate → Prop) :
  ks_mqs s !! a = Some x → f x = Some (r, x') →
  Q r (set_ks_mqs (<[a := x']> (ks_mqs s)) s) → wp (mq_section a f) Q s.
Proof.
  intros Hx Hf HQ. unfold mq_section. wp_step. eapply wp_get_mq; [done|]. wp_step.
  eapply wp_option; [done|]. wp_step. unfold put_mq. wp_step. by wp_step.
Qed.
Lemma wp_mq_section_ s a x f x' (Q : unit → kstate → Prop) :
  ks_mqs s !! a = Some x → f x = Some x' →
  Q tt (set_ks_mqs (<[a := x']> (ks_mqs s)) s) → wp (mq_section_ a f) Q s.
Proof. intros Hx Hf HQ. unfold mq_section_. eapply wp_mq_section; [done|by rewrite Hf|done]. Qed.

Lemma mq_contents_ext x x' Q :
  (∀ b, b ∈ Q → mq_data x' !! b = mq_data x !! b) → mq_contents x' Q = mq_contents x Q.
Proof. intros HQ. apply list_fmap_ext. intros ? b Hb%list_elem_of_lookup_2. by rewrite HQ. Qed.

(** A state in which only the message queue [a] differs from [s]. *)
Definition with_mq (a : Z) (x : rt_messagequeue) (s : kstate) : kstate :=
  set_ks_mqs (<[a := x]> (ks_mqs s)) s.
Lemma with_mq_twice a x y s : with_mq a y (with_mq a x s) = with_mq a y s.
Proof. unfold with_mq. simpl. by rewrite insert_insert_eq. Qed.
Lemma with_mq_lookup a x s : ks_mqs (with_mq a x s) !! a = Some x.
Proof. apply lookup_insert_eq. Qed.
Lemma with_mq_id a x s : ks_mqs s !! a = Some x → with_mq a x s = s.
Proof. intros Hx. unfold with_mq. rewrite insert_id by done. by destruct s. Qed.

Lemma mq_wake_spec s s0 a x :
  wf s → is_Some (ks_current s) → s0 = with_mq a x s →
  wp (mq_wake a) (λ r s', r = RT_EOK ∧ wf s' ∧ is_Some (ks_current s') ∧
    ks_mqs s' = <[a := x]> (ks_mqs s) ∧ woke (LMq a) s s') s0.
Proof.
  intros Hwf Hc ->. unfold mq_wake.
  eapply wp_bind_assoc, wp_bind, wp_mono;
    [apply (wake_spec (with_mq a x s) (LMq a)); [by eapply wf_ext, Hwf|done|done]|].
  intros ? s' (Hwf' & Hc' & Hfr & Hwk). wp_step. split_and!; try done. by rewrite (fr_mqs _ _ Hfr).
Qed.

(** What a send leaves behind; [front] tells an urgent one. *)
Definition mq_sent (front : bool) (a : Z) (x : rt_messagequeue) (Q F I J buffer : list Z)
    (s : kstate) (r : Z) (s' : kstate) : Prop :=
  if mq_msg_size x <? Z.of_nat (length buffer) then r = - RT_ERROR ∧ s' = s
  else match F with
  | [] => r = - RT_EFULL ∧ s' = s
  | b :: F' => r = RT_EOK ∧ wf s' ∧ is_Some (ks_current s') ∧ ∃ x' msg,
      ks_mqs s' = <[a := x']> (ks_mqs s) ∧ take (length buffer) msg = buffer ∧
      mq_rep x' (if front then b :: Q else Q ++ [b]) F' I J ∧
      mq_contents x' (if front then b :: Q else Q ++ [b]) =
        (if front then msg :: mq_contents x Q else mq_contents x Q ++ [msg]) ∧
      woke (LMq a) s s'
  end.

Lemma mq_free_notin x Q b F I J : mq_rep x Q (b :: F) I J → b ∉ Q.
Proof.
  intros Hrep Hb. pose proof (mr_nodup _ _ _ _ _ Hrep) as Hnd.
  apply NoDup_app in Hnd as (_ & Hd & _). eapply Hd; [done|]. by left.
Qed.

Lemma mq_send_spec s a x Q F I J buffer :
  wf s → is_Some (ks_current s) → ks_mqs s !! a = Some x → mq_rep x Q F I J → buffer ≠ [] →
  wp (rt_mq_send a buffer) (mq_sent false a x Q F I J buffer s) s.
Proof.
  intros Hwf Hc Hx Hrep Hne. unfold rt_mq_send, mq_sent. wp_step.
  apply wp_assert; [by destruct buffer|]. wp_step. eapply wp_get_mq; [done|].
  destruct (Z.ltb_spec (mq_msg_size x) (Z.of_nat (length buffer))); [by wp_step|]. wp_step.
  pose proof (mq_alloc_rep _ _ _ _ _ Hrep) as Hal. destruct F as [|b F].
  { eapply wp_mq_section; [done|done|]. cbv beta iota. wp_step. split; [done|]. by apply with_mq_id. }
  destruct Hal as (x1 & E1 & Hr1 & D1 & S1). eapply wp_mq_section; [done..|].
  fold (with_mq a x1 s). cbv beta iota.
  destruct (mq_ready_rep _ _ _ _ _ _ Hr1) as (x2 & E2 & Hr2 & D2 & S2).
  wp_step. eapply wp_mq_section_; [apply with_mq_lookup|done|]. fold (with_mq a x2 (with_mq a x1 s)).
  destruct (mq_copy_rep x2 Q F I (b :: J) b buffer Hr2) as (x3 & d & Hd & E3 & Hr3 & D3 & S3 & _).
  { set_solver. } { by rewrite (ms_size _ _ S2), (ms_size _ _ S1). }
  rewrite with_mq_twice. wp_step. eapply wp_mq_section_; [apply with_mq_lookup|done|].
  fold (with_mq a x3 (with_mq a x2 s)). rewrite with_mq_twice.
  destruct (mq_append_rep _ _ _ _ _ _ Hr3) as (x4 & E4 & Hr4 & D4 & S4).
  wp_step. eapply wp_mq_section_; [apply with_mq_lookup|done|].
  fold (with_mq a x4 (with_mq a x3 s)). rewrite with_mq_twice.
  eapply wp_mono; [by eapply mq_wake_spec|]. intros r s' (-> & Hwf' & Hc' & Em & Hwk).
  split_and!; [done..|]. exists x4, (buffer ++ drop (length buffer) d).
  pose proof (mq_free_notin _ _ _ _ _ _ Hrep) as Hb.
  split_and!; [done|by rewrite take_app_length|done| |done].
  unfold mq_contents at 1. rewrite fmap_app. fold (mq_contents x4 Q). f_equal.
  - apply mq_contents_ext. intros c Hin. rewrite D4, D3, lookup_insert_ne, D2, D1 by (by intros ->). done.
  - simpl. by rewrite D4, D3, lookup_insert_eq.
Qed.

Lemma mq_urgent_spec s a x Q F I J buffer :
  wf s → is_Some (ks_current s) → ks_mqs s !! a = Some x → mq_rep x Q F I J → buffer ≠ [] →
  wp (rt_mq_urgent a buffer) (mq_sent true a x Q F I J buffer s) s.
Proof.
  intros Hwf Hc Hx Hrep Hne. unfold rt_mq_urgent, mq_sent. wp_step.
  apply wp_assert; [by destruct buffer|]. wp_step. eapply wp_get_mq; [done|].
  destruct (Z.ltb_spec (mq_msg_size x) (Z.of_nat (length buffer))); [by wp_step|]. wp_step.
  pose proof (mq_alloc_rep _ _ _ _ _ Hrep) as Hal. destruct F as [|b F].
  { eapply wp_mq_section; [done|done|]. cbv beta iota. wp_step. split; [done|]. by apply with_mq_id. }
  destruct Hal as (x1 & E1 & Hr1 & D1 & S1). eapply wp_mq_section; [done..|].
  fold (with_mq a x1 s). cbv beta iota.
  destruct (mq_copy_rep x1 Q F (b :: I) J b buffer Hr1) as (x3 & d & Hd & E3 & Hr3 & D3 & S3 & _).
  { set_solver. } { by rewrite (ms_size _ _ S1). }
  wp_step. eapply wp_mq_section_; [apply with_mq_lookup|done|].
  fold (with_mq a x3 (with_mq a x1 s)). rewrite with_mq_twice.
  destruct (mq_prepend_rep _ _ _ _ _ _ Hr3) as (x4 & E4 & Hr4 & D4 & S4).
  wp_step. eapply wp_mq_section_; [apply with_mq_lookup|done|].
  fold (with_mq a x4 (with_mq a x3 s)). rewrite with_mq_twice.
  eapply wp_mono; [by eapply mq_wake_spec|]. intros r s' (-> & Hwf' & Hc' & Em & Hwk).
  split_and!; [done..|]. exists x4, (buffer ++ drop (length buffer) d).
  pose proof (mq_free_notin _ _ _ _ _ _ Hrep) as Hb.
  split_and!; [done|by rewrite take_app_length|done| |done].
  unfold mq_contents at 1. simpl. fold (mq_contents x4 Q). f_equal.
  - by rewrite D4, D3, lookup_insert_eq.
  - apply mq_contents_ext. intros c Hin. rewrite D4, D3, lookup_insert_ne, D1 by (by intros ->). done.
Qed.

(** C7. [rt_mq_send] appends to a FIFO queue of messages: a message that is too
    long is refused, a full queue is reported, and otherwise the message is at the
    end of the queue, behind the messages that were there, and the first waiting
    receiver is ready.  [rt_mq_urgent] is the same with the message at the head of
    the queue, before every message that was there.  The result does not depend on what other calls have in
    their hands. *)
Theorem rt_mq_send_refines s a x Q F I J buffer :
  wf s → is_Some (ks_current s) → ks_mqs s !! a = Some x → mq_rep x Q F I J → buffer ≠ [] →
  wp (rt_mq_send a buffer) (mq_sent false a x Q F I J buffer s) s ∧
  wp (rt_mq_urgent a buffer) (mq_sent true a x Q F I J buffer s) s.
Proof. intros. split; [by apply mq_send_spec|by apply mq_urgent_spec]. Qed.

(** ** Receiving *)

Lemma mq_take_spec s a x b Q F I J size :
  ks_mqs s !! a = Some x → mq_rep x (b :: Q) F I J →
  wp (mq_take a size) (λ r s', ∃ x', s' = with_mq a x' s ∧ mq_rep x' Q (b :: F) I J ∧
    mq_contents x (b :: Q) = default [] (mq_data x !! b) :: mq_contents x' Q ∧
    r = take (Z.to_nat (Z.min size (mq_msg_size x))) (default [] (mq_data x !! b))) s.
Proof.
  intros Hx Hrep. unfold mq_take. destruct (mq_unlink_rep _ _ _ _ _ _ Hrep) as (x1 & E1 & Hr1 & D1 & S1 & Ee).
  set (x2 := set_mq_entry _ x1) in *. wp_step.
  eapply wp_mq_section; [done|rewrite E1; done|]. cbn [fst snd]. fold x2. fold (with_mq a x2 s).
  destruct (mr_mem _ _ _ _ _ Hrep b ltac:(by left)) as (_ & d & Hd & _).
  wp_step. eapply wp_get_mq; [apply with_mq_lookup|]. wp_step.
  eapply wp_option; [simpl; rewrite D1; done|]. wp_step.
  destruct (mq_release_rep _ _ _ _ _ _ Hr1) as (Hr3 & D3 & S3).
  eapply wp_mq_section_; [apply with_mq_lookup|done|]. wp_step.
  exists (mq_release b x2). rewrite Hd. split_and!; [apply with_mq_twice|done| |].
  - unfold mq_contents. simpl. rewrite Hd. f_equal. by rewrite D1.
  - simpl. f_equal. rewrite (ms_size _ _ S1). destruct (Z.ltb_spec (mq_msg_size x) size); lia.
Qed.

Definition mq_received (a t size timeout : Z) (x : rt_messagequeue) (Q F I J : list Z) (s : kstate)
    (r : call (Z * option (list Z)) (Z * Z)) (s' : kstate) : Prop :=
  wf s' ∧ is_Some (ks_current s') ∧ ∃ x', ks_mqs s' = <[a := x']> (ks_mqs s) ∧
  match r with
  | Return (e, got) =>
      (e = RT_EOK ∧ ∃ b Q' msg, Q = b :: Q' ∧ mq_rep x' Q' (b :: F) I J ∧
        mq_contents x Q = msg :: mq_contents x' Q' ∧
        got = Some (take (Z.to_nat (Z.min size (mq_msg_size x))) msg)) ∨
      (e = - RT_ETIMEOUT ∧ got = None ∧ timeout = 0 ∧ Q = [] ∧ x' = x)
  | Wait w => Q = [] ∧ x' = x ∧ w.1 = timeout ∧ timeout ≠ 0 ∧ wait_deadline t timeout s s' ∧
      l_get (ks_lists s') (LMq a) ≡ₚ t :: l_get (ks_lists s) (LMq a) ∧
      (0 < timeout → w.2 = ks_tick s)
  end.

Lemma mq_recv_loop_spec s a x Q F I J t th size timeout :
  running s t th → ks_mqs s !! a = Some x → mq_rep x Q F I J → timeout < HALF →
  mq_flag x = RT_IPC_FLAG_FIFO ∨ mq_flag x = RT_IPC_FLAG_PRIO →
  wp (mq_recv_loop a size timeout) (mq_received a t size timeout x Q F I J s) s.
Proof.
  intros Hr Hx Hrep Htime Hfl. unfold mq_recv_loop. wp_step. eapply wp_get_mq; [done|].
  rewrite (mr_entry _ _ _ _ _ Hrep). destruct Q as [|b Q]; simpl.
  2:{ wp_step. eapply wp_mono; [by eapply mq_take_spec|]. intros r s' (x' & -> & Hr' & Hcon & ->).
      wp_step. split; [by eapply wf_ext, (rn_wf _ _ _ Hr)|]. split; [by eapply (running_some s)|].
      exists x'. split; [done|]. left. split; [done|]. by eexists b, Q, _. }
  wp_step. eapply wp_in_thread; [done|].
  wp_step. eapply wp_self; [apply Hr|]. wp_step. eapply wp_upd_thread; [apply Hr|].
  pose proof (running_error _ _ _ RT_EOK Hr) as Hr1. set (s1 := set_ks_threads _ s) in *.
  destruct (Z.eqb_spec timeout 0) as [Ht0|Ht0].
  { wp_step. eapply wp_upd_thread; [apply Hr1|]. wp_step.
    split; [apply wf_set_error; apply Hr1|]. split; [by eapply (running_some s1)|]. exists x.
    split_and!; [by simpl; rewrite insert_id|by right]. }
  eapply (wp_block_on_start _ _ s1 (LMq a) t); try done; try apply Hr1; [by eapply running_some|].
  intros s' Hb. wp_step. split; [apply Hb|]. split; [apply Hb|]. exists x. split_and!; try done.
  - rewrite (fr_mqs _ _ (bk_frame _ _ _ _ _ _ _ Hb)). simpl. by rewrite insert_id.
  - apply Hb.
  - rewrite (bk_list _ _ _ _ _ _ _ Hb). apply wait_insert_perm.
  - simpl. intros Hpos. by rewrite (proj2 (Z.ltb_lt _ _)).
Qed.

(** C8. [rt_mq_recv] takes the oldest message: the receiver gets its first [size]
    bytes (at most the message size), the block goes back to the free list, and the
    other messages stay in order.  An empty queue makes the call return a timeout at
    once (timeout 0) or wait.  A receiver that is woken without an error goes on in
    the same way with the time it has left. *)
Theorem rt_mq_recv_refines s a x Q F I J t th size timeout :
  running s t th → ks_mqs s !! a = Some x → mq_rep x Q F I J → timeout < HALF → size ≠ 0 →
  mq_flag x = RT_IPC_FLAG_FIFO ∨ mq_flag x = RT_IPC_FLAG_PRIO →
  wp (rt_mq_recv a size timeout) (mq_received a t size timeout x Q F I J s) s ∧
  ∀ start, th_error th = RT_EOK → u32 (ks_tick s - start) ≤ 2 ^ 31 →
    wp (rt_mq_recv_resumed t a size (timeout, start))
      (mq_received a t size (time_left s timeout start) x Q F I J s) s.
Proof.
  intros Hr Hx Hrep Htime Hsz Hfl. split.
  - unfold rt_mq_recv. wp_step. apply wp_assert; [by apply negb_true_iff, Z.eqb_neq|].
    wp_step. eapply wp_get_mq; [done|]. rewrite (mr_entry _ _ _ _ _ Hrep).
    destruct Q as [|b Q]; simpl; [|by eapply mq_recv_loop_spec].
    destruct (Z.eqb_spec timeout 0) as [Ht0|Ht0]; [|by eapply mq_recv_loop_spec].
    wp_step. split; [apply Hr|]. split; [by eapply running_some|]. exists x.
    split_and!; [by rewrite insert_id|by right].
  - intros start He Hd. unfold rt_mq_recv_resumed. wp_step. eapply wp_get_thread; [apply Hr|].
    rewrite He. simpl. wp_step. apply wait_left_spec; [change HALF with (2 ^ 31 - 1) in Htime; lia|done|].
    eapply mq_recv_loop_spec; try done. by apply time_left_range.
Qed.

(** ** Reset *)

(** The loop leaves the count alone until it is done. *)
Lemma mq_unlink_entry n x :
  mq_unlink_head (set_mq_entry n x) = (λ p, (p.1, set_mq_entry n p.2)) <$> mq_unlink_head x.
Proof.
  unfold mq_unlink_head. simpl. destruct (mq_queue_head x) as [b|]; simpl; [|done].
  destruct (mq_next x !! b); simpl; [|done]. by case_decide.
Qed.

Lemma mq_flush_rep Q : ∀ x F I J fuel,
  mq_rep (set_mq_entry (Z.of_nat (length Q)) x) Q F I J → (length Q ≤ fuel)%nat →
  ∃ x' F', mq_flush fuel x = Some x' ∧ mq_rep (set_mq_entry 0 x') [] F' I J ∧ mq_same x x'.
Proof.
  induction Q as [|b Q IH]; intros x F I J fuel Hrep Hf.
  { pose proof (mr_queue _ _ _ _ _ Hrep) as Hh. simpl in Hh. exists x, F.
    split_and!; [destruct fuel; simpl; by rewrite Hh|done|done]. }
  destruct (mq_unlink_rep _ _ _ _ _ _ Hrep) as (x1 & E1 & Hr1 & _ & S1 & Ee1).
  rewrite mq_unlink_entry in E1. destruct (mq_unlink_head x) as [[b' y]|] eqn:Ey; [|done].
  simpl in E1. simplify_eq. destruct fuel as [|fuel]; [simpl in Hf; lia|].
  destruct (mq_release_rep _ _ _ _ _ _ Hr1) as (Hr2 & _ & _).
  destruct (IH (mq_release b y) (b :: F) I J fuel) as (x' & F' & E' & Hr' & S').
  { pose proof (mr_entry _ _ _ _ _ Hr1) as Eq. simpl in Eq. simpl in Hr2. by rewrite Eq in Hr2. }
  { simpl in Hf. lia. }
  exists x', F'. split_and!; [|done|].
  - simpl. pose proof (mr_queue _ _ _ _ _ Hrep) as [Hh _]. simpl in Hh. rewrite Hh. by rewrite Ey.
  - destruct S1, S'. split; simpl in *; congruence.
Qed.

(** A reset empties the queue: every block of the queue is free again, every
    thread that waited is ready with an error, and other commands are refused. *)
Theorem rt_mq_control_reset s a x Q F I J cmd :
  wf s → is_Some (ks_current s) → some_ready s → ks_mqs s !! a = Some x → mq_rep x Q F I J →
  wp (rt_mq_control a cmd) (λ r s',
    if cmd =? RT_IPC_CMD_RESET then
      r = RT_EOK ∧ wf s' ∧
      (∃ x' F', ks_mqs s' = <[a := x']> (ks_mqs s) ∧ mq_rep x' [] F' I J ∧ mq_same x x') ∧
      l_get (ks_lists s') (LMq a) = [] ∧
      ∀ t, t ∈ l_get (ks_lists s) (LMq a) →
        ∃ th, ks_threads s' !! t = Some th ∧ th_stat th = RT_THREAD_READY ∧ th_error th = - RT_ERROR
    else r = - RT_ERROR ∧ s' = s) s.
Proof.
  intros Hwf Hc Hsr Hx Hrep. unfold rt_mq_control. destruct (cmd =? RT_IPC_CMD_RESET); [|by wp_step].
  wp_step. eapply wp_mono; [by apply (resume_all_drains s (LMq a))|]. intros ? s1 [_ Hd1].
  destruct (dr_quiet _ _ _ Hd1) as (Hfr1 & Hc1 & _).
  destruct (mq_flush_rep Q x F I J (Z.to_nat (mq_max_msgs x))) as (x1 & F' & E1 & Hr1 & S1).
  { rewrite <- (mr_entry _ _ _ _ _ Hrep). by destruct x. }
  { pose proof (mr_count _ _ _ _ _ Hrep) as Hcount. rewrite length_app in Hcount. lia. }
  wp_step. eapply wp_mq_section_; [by rewrite (fr_mqs _ _ Hfr1)|done|]. fold (with_mq a x1 s1).
  wp_step. eapply wp_upd_mq; [apply with_mq_lookup|]. fold (with_mq a (set_mq_entry 0 x1) (with_mq a x1 s1)).
  rewrite with_mq_twice. set (s2 := with_mq a _ s1). wp_step.
  eapply wp_mono; [apply (schedule_ready_spec s2); [by eapply wf_ext, (dr_wf _ _ _ Hd1)| |by simpl; rewrite Hc1]|].
  { destruct Hsr as (t & th & Ht & Hst). exists t, th. split; [|done]. simpl.
    rewrite (dr_rest _ _ _ Hd1); [done|]. eapply (wait_head_notin s); try done. by rewrite Hst. }
  intros ? s3 ((c & p & ->) & _ & _). wp_step. simpl.
  split_and!; [done|by eapply wf_ext, (dr_wf _ _ _ Hd1)| |apply Hd1|].
  - exists (set_mq_entry 0 x1), F'. rewrite (fr_mqs _ _ Hfr1). split_and!; [done|done|]. by destruct S1.
  - intros t Hin. destruct (wf_home _ Hwf _ _ Hin) as (th & Ht & _). exists (woken th).
    split; [by apply (dr_woken _ _ _ Hd1)|done].
Qed.
