(* ===== verification/MemPool.v ===== *)
(** Memory pools of fixed-size blocks, [rt-thread/src/mempool.c].

    The first word of a block is the next free block while the block is free and
    the address of its pool while it is allocated. *)

From stdpp Require Import base gmap list fin_maps.
From Stdlib Require Import ZArith Lia.
From S2P Require Import Prelude IntrusiveList Ffs Kservice KState Object Sched Timer KInv SchedFacts.
From S2P Require Import TimerFacts Thread Ipc IpcFacts Ring.

Open Scope Z_scope.

(** The size of a pointer. *)
Definition mp_header : Z := 4.

(** The address of the block with the given number. *)
Definition mp_block (start block_size : Z) (offset : nat) : Z :=
  start + Z.of_nat offset * (block_size + mp_header).

(** The loop that links the blocks, and the store that ends the list. *)
Fixpoint mp_link (start block_size : Z) (n : nat) : gmap Z (Z + option Z) :=
  match n with
  | O => ∅
  | S n' => <[mp_block start block_size n' := inr (Some (mp_block start block_size (S n')))]>
              (mp_link start block_size n')
  end.
(** With no block at all the last store is to the word before the pool. *)
Definition mp_free_list (start block_size : Z) (n : nat) : K (gmap Z (Z + option Z)) :=
  match n with
  | O => fail BadPointer
  | S n' => mret (<[mp_block start block_size n' := inr None]> (mp_link start block_size n))
  end.

Definition rt_mp_init (a : Z) (name : list Z) (start size block_size : Z) : K Z :=
  rt_object_init (OMemPool a) ClassMemPool name;;
  let size := RT_ALIGN_DOWN size RT_ALIGN_SIZE in
  let block_size := RT_ALIGN block_size RT_ALIGN_SIZE in
  let total := size / u32 (block_size + mp_header) in
  tlist_init (LMemPool a);;
  blocks ← mp_free_list start block_size (Z.to_nat total);
  put_mempool a (mk_mempool start size block_size (Some start) blocks total total 0);;
  mret RT_EOK.

(** The loop of [rt_mp_detach] and [rt_mp_delete] over the waiting threads. *)
Fixpoint mp_wake_all (fuel : nat) (a : Z) : K unit :=
  e ← tlist_isempty (LMemPool a);
  if (e : bool) then mret tt
  else match fuel with
       | O => fail OutOfFuel
       | S fuel' =>
         t ← tlist_first (LMemPool a);
         upd_thread t (set_th_error (- RT_ERROR));;
         _ ← rt_thread_resume t;
         upd_mempool a (λ x, set_mp_suspend_thread_count (u32 (mp_suspend_thread_count x - 1)) x);;
         mp_wake_all fuel' a
       end.
Definition mp_wake (a : Z) : K unit :=
  s ← get; mp_wake_all (S (length (l_get (ks_lists s) (LMemPool a)))) a.

Definition rt_mp_detach (a : Z) : K Z :=
  mp_wake a;; rt_object_detach (OMemPool a);; mret RT_EOK.

(** [block] is the memory the object is allocated in, [pool] the memory of the
    blocks. *)
Definition rt_mp_create (block pool : option Z) (name : list Z) (block_count block_size : Z) : K (option Z) :=
  RT_DEBUG_NOT_IN_INTERRUPT;;
  p ← rt_object_allocate ClassMemPool name block OMemPool;
  match p with
  | None => mret None
  | Some a =>
    let block_size := RT_ALIGN block_size RT_ALIGN_SIZE in
    let size := u32 ((block_size + mp_header) * block_count) in
    match pool with
    | None => rt_object_delete (OMemPool a) a;; mret None
    | Some start =>
      tlist_init (LMemPool a);;
      blocks ← mp_free_list start block_size (Z.to_nat block_count);
      put_mempool a (mk_mempool start size block_size (Some start) blocks block_count block_count 0);;
      mret (Some a)
    end
  end.

Definition rt_mp_delete (a : Z) : K Z :=
  RT_DEBUG_NOT_IN_INTERRUPT;;
  mp_wake a;;
  x ← get_mempool a;
  RT_KERNEL_FREE (mp_start_address x);;
  rt_object_delete (OMemPool a) a;;
  mret RT_EOK.

(** [rt_set_errno] of [kservice.c]; the global [_errno] used in interrupts and before
    the scheduler runs is not part of the state. *)
Definition rt_set_errno (e : Z) : K unit :=
  n ← rt_interrupt_get_nest;
  if negb (n =? 0) then mret tt
  else
    c ← rt_thread_self;
    match c with
    | None => mret tt
    | Some t => upd_thread t (set_th_error e)
    end.

(** The end of [rt_mp_alloc]: the first free block is taken; the result is the
    address behind its first word. *)
Definition mp_take (a : Z) : K (option Z) :=
  x ← get_mempool a;
  RT_ASSERT (bool_decide (mp_block_list x ≠ None));;
  b ← of_option BadPointer (mp_block_list x);
  w ← of_option BadPointer (mp_blocks x !! b);
  next ← of_option BadPointer (match w with inr q => Some q | inl _ => None end);
  put_mempool a (set_mp_blocks (<[b := inl a]> (mp_blocks x))
    (set_mp_block_list next (set_mp_block_free_count (u32 (mp_block_free_count x - 1)) x)));;
  mret (Some (b + mp_header)).

(** The loop of [rt_mp_alloc], from the test of its condition to the context switch. *)
Definition mp_alloc_loop (a time : Z) : K (call (option Z) (Z * Z)) :=
  x ← get_mempool a;
  if mp_block_free_count x =? 0 then
    if time =? 0 then rt_set_errno (- RT_ETIMEOUT);; mret (Return None)
    else
      RT_DEBUG_NOT_IN_INTERRUPT;;
      t ← self;
      upd_thread t (set_th_error RT_EOK);;
      _ ← rt_thread_suspend t;
      tlist_insert_after (LMemPool a) t;;
      upd_mempool a (λ x, set_mp_suspend_thread_count (u32 (mp_suspend_thread_count x + 1)) x);;
      before_sleep ← wait_start time;
      wait_timer t time;;
      rt_schedule;;
      mret (Wait (time, before_sleep))
  else r ← mp_take a; mret (Return r).

Definition rt_mp_alloc (a time : Z) : K (call (option Z) (Z * Z)) := mp_alloc_loop a time.
Definition rt_mp_alloc_resumed (t a : Z) (w : Z * Z) : K (call (option Z) (Z * Z)) :=
  th ← get_thread t;
  if th_error th =? RT_EOK then
    time ← wait_left w.1 w.2;
    mp_alloc_loop a time
  else mret (Return None).

(** [a] is the pool whose memory holds the block; the block must be allocated, so
    that its first word is that pool. *)
Definition rt_mp_free (a block : Z) : K unit :=
  let b := block - mp_header in
  x ← get_mempool a;
  w ← of_option BadPointer (mp_blocks x !! b);
  (if decide (w = inl a) then mret tt else fail BadPointer);;
  put_mempool a (set_mp_block_list (Some b) (set_mp_blocks (<[b := inr (mp_block_list x)]> (mp_blocks x))
    (set_mp_block_free_count (u32 (mp_block_free_count x + 1)) x)));;
  if 0 <? mp_suspend_thread_count x then
    t ← tlist_first (LMemPool a);
    upd_thread t (set_th_error RT_EOK);;
    _ ← rt_thread_resume t;
    upd_mempool a (λ x, set_mp_suspend_thread_count (u32 (mp_suspend_thread_count x - 1)) x);;
    rt_schedule
  else mret tt.

(** * Representation *)

(** The free blocks' [next] words. *)
Definition mp_next (x : rt_mempool) : gmap Z (option Z) :=
  omap (λ w : Z + option Z, match w with inr q => Some q | inl _ => None end) (mp_blocks x).

(** The blocks of the pool: the free ones [F], in the order of the list, and the
    allocated ones [A]. *)
Record mp_rep (a : Z) (x : rt_mempool) (F A : list Z) : Prop := {
  mp_free : chain (mp_next x) (mp_block_list x) F;
  mp_used b : b ∈ A → mp_blocks x !! b = Some (inl a);
  mp_nodup : NoDup (F ++ A);
  mp_free_count_ok : mp_block_free_count x = Z.of_nat (length F);
  mp_total : mp_block_total_count x = Z.of_nat (length (F ++ A));
  mp_total_range : mp_block_total_count x < 2 ^ 32;
}.

(** The count of waiting threads is right. *)
Definition mp_count_ok (s : kstate) (a : Z) (x : rt_mempool) : Prop :=
  mp_suspend_thread_count x = Z.of_nat (length (l_get (ks_lists s) (LMemPool a))).

Lemma mp_next_lookup x b : mp_next x !! b =
  match mp_blocks x !! b with Some (inr q) => Some q | _ => None end.
Proof. unfold mp_next. rewrite lookup_omap. by destruct (mp_blocks x !! b) as [[|]|]. Qed.

(** ** The pool as built *)

Fixpoint mp_all (start block_size : Z) (i n : nat) : list Z :=
  match n with O => [] | S n' => mp_block start block_size i :: mp_all start block_size (S i) n' end.

Lemma elem_of_mp_all start bs i n b :
  b ∈ mp_all start bs i n ↔ ∃ k, (i ≤ k < i + n)%nat ∧ b = mp_block start bs k.
Proof.
  revert i. induction n as [|n IH]; intros i; simpl.
  { split; [by intros ?%not_elem_of_nil|intros (?&?&_); lia]. }
  rewrite elem_of_cons, IH. split.
  - intros [->|(k & ? & ->)]; [exists i|exists k]; split; try done; lia.
  - intros (k & Hk & ->). destruct (decide (k = i)) as [->|]; [by left|right; exists k; split; [lia|done]].
Qed.
Lemma mp_block_inj start bs i k : 0 ≤ bs → mp_block start bs i = mp_block start bs k → i = k.
Proof. unfold mp_block, mp_header. nia. Qed.
Lemma NoDup_mp_all start bs i n : 0 ≤ bs → NoDup (mp_all start bs i n).
Proof.
  intros Hs. revert i. induction n as [|n IH]; intros i; simpl; [constructor|]. constructor; [|done].
  rewrite elem_of_mp_all. intros (k & Hk & E). apply mp_block_inj in E; [lia|done].
Qed.
Lemma length_mp_all start bs i n : length (mp_all start bs i n) = n.
Proof. revert i. induction n; intros i; simpl; [done|]. by rewrite IHn. Qed.

Lemma mp_link_lookup start bs n k :
  0 ≤ bs → (k < n)%nat →
  mp_link start bs n !! mp_block start bs k = Some (inr (Some (mp_block start bs (S k)))).
Proof.
  intros Hs Hk. induction n as [|n IH]; [lia|]. simpl.
  destruct (decide (k = n)) as [->|Hne]; [apply lookup_insert_eq|].
  rewrite lookup_insert_ne by (intros E%mp_block_inj; [lia|done]). apply IH. lia.
Qed.
Lemma mp_link_chain next start bs i n :
  0 ≤ bs → (0 < n)%nat →
  (∀ k, (i ≤ k)%nat → (k + 1 < i + n)%nat →
    next !! mp_block start bs k = Some (Some (mp_block start bs (S k)))) →
  next !! mp_block start bs (i + n - 1) = Some None →
  chain next (Some (mp_block start bs i)) (mp_all start bs i n).
Proof.
  intros Hs Hn Hlink Hlast. revert i Hn Hlink Hlast. induction n as [|n IH]; intros i Hn Hlink Hlast; [lia|].
  simpl. split; [done|]. destruct n as [|n].
  - exists None. replace (i + 1 - 1)%nat with i in Hlast by lia. done.
  - exists (Some (mp_block start bs (S i))). rewrite Hlink by lia. split; [done|].
    apply IH; [lia|intros; apply Hlink; lia|]. by replace (S i + S n - 1)%nat with (i + S (S n) - 1)%nat by lia.
Qed.

(** The free list [rt_mp_init] and [rt_mp_create] build holds every block of the
    pool once, in the order of their addresses. *)
Theorem mp_free_list_rep s a start size bs n :
  0 ≤ bs → (0 < n)%nat → Z.of_nat n < 2 ^ 32 →
  wp (mp_free_list start bs n) (λ blocks s', s' = s ∧
    mp_rep a (mk_mempool start size bs (Some start) blocks (Z.of_nat n) (Z.of_nat n) 0)
      (mp_all start bs 0 n) []) s.
Proof.
  intros Hs Hn Hmax. destruct n as [|n]; [lia|]. unfold mp_free_list. wp_step. split; [done|].
  split; rewrite ?app_nil_r; simpl length; rewrite ?length_mp_all; try done.
  - replace (mp_block_list _) with (Some (mp_block start bs 0)) by (unfold mp_block; simpl; f_equal; lia).
    apply mp_link_chain; [done|lia| |].
    + intros k _ Hk. rewrite mp_next_lookup. cbn [mp_blocks].
      rewrite lookup_insert_ne by (intros E%mp_block_inj; [lia|done]). by rewrite mp_link_lookup by lia.
    + rewrite mp_next_lookup. cbn [mp_blocks]. replace (0 + S n - 1)%nat with n by lia.
      by rewrite lookup_insert_eq.
  - by intros b ?%not_elem_of_nil.
  - by apply NoDup_mp_all.
Qed.

(** ** Taking and giving back a block *)

Definition with_mp (a : Z) (x : rt_mempool) (s : kstate) : kstate :=
  set_ks_mempools (<[a := x]> (ks_mempools s)) s.

(** A store to the first word of a block that is not on the list. *)
Lemma mp_chain_other x x' b w F :
  mp_blocks x' = <[b := w]> (mp_blocks x) → b ∉ F → ∀ p, chain (mp_next x) p F → chain (mp_next x') p F.
Proof.
  intros E Hb p. apply chain_ext. intros c Hc. rewrite !mp_next_lookup, E.
  rewrite lookup_insert_ne; [done|]. by intros ->.
Qed.

Lemma mp_take_spec s a x b F A :
  ks_mempools s !! a = Some x → mp_rep a x (b :: F) A →
  wp (mp_take a) (λ r s', r = Some (b + mp_header) ∧ ∃ x', s' = with_mp a x' s ∧ mp_rep a x' F (b :: A) ∧
    mp_suspend_thread_count x' = mp_suspend_thread_count x) s.
Proof.
  intros Hx [[Hb (q & Hq & Hf)] Hu Hnd Hc Ht Hm]. unfold mp_take. wp_step. eapply wp_get_mempool; [done|].
  rewrite Hb. wp_step. apply wp_assert; [done|]. wp_step. eapply wp_option; [done|].
  rewrite mp_next_lookup in Hq. destruct (mp_blocks x !! b) as [[|q']|] eqn:Eb; try done. simplify_eq.
  wp_step. eapply wp_option; [done|]. wp_step. eapply wp_option; [done|]. wp_step. unfold put_mempool.
  wp_step. wp_step. split; [done|]. eexists. split_and!; [done| |done].
  assert (Hbn : b ∉ F ++ A) by (by apply NoDup_cons in Hnd as [? _]).
  split; simpl; try done.
  - eapply mp_chain_other; [done|set_solver|done].
  - intros c [->|Hin]%elem_of_cons; [by rewrite lookup_insert_eq|].
    rewrite lookup_insert_ne by set_solver. auto.
  - by rewrite <- Permutation_middle.
  - unfold u32. rewrite Hc. rewrite Z.mod_small; simpl length in *; rewrite ?length_app in *; lia.
  - rewrite Ht. rewrite !length_app. simpl. lia.
Qed.

Definition mp_allocated (a t time : Z) (x : rt_mempool) (F A : list Z) (s : kstate)
    (r : call (option Z) (Z * Z)) (s' : kstate) : Prop :=
  wf s' ∧ is_Some (ks_current s') ∧ ∃ x', ks_mempools s' = <[a := x']> (ks_mempools s) ∧
  mp_count_ok s' a x' ∧
  match r with
  | Return (Some p) => ∃ b F', F = b :: F' ∧ p = b + mp_header ∧ mp_rep a x' F' (b :: A)
  | Return None => F = [] ∧ time = 0 ∧ mp_rep a x' F A
  | Wait w => F = [] ∧ time ≠ 0 ∧ mp_rep a x' F A ∧ w.1 = time ∧ wait_deadline t time s s' ∧
      l_get (ks_lists s') (LMemPool a) = t :: l_get (ks_lists s) (LMemPool a)
  end.

Lemma mp_rep_count a x F A v : mp_rep a x F A → mp_rep a (set_mp_suspend_thread_count v x) F A.
Proof. intros []. by split. Qed.

(** The part of the blocking path up to the link into the waiting list. *)
Lemma mp_suspend_spec s a t th :
  running s t th →
  wp (_ ← rt_thread_suspend t; tlist_insert_after (LMemPool a) t)
    (λ _, waiting_in (LMemPool a) t (t :: l_get (ks_lists s) (LMemPool a)) th s) s.
Proof.
  intros Hr. wp_step.
  eapply wp_mono; [apply (thread_suspend_spec s t th); apply Hr|]. intros ? s1 [_ Hsu].
  pose proof Hsu as [_ _ El _ _ _].
  assert (Hnin : t ∉ l_get (ks_lists s) (LMemPool a)).
  { eapply wait_head_notin; [apply Hr|done|apply Hr|by rewrite (rn_ready _ _ _ Hr)]. }
  apply wp_tlist_link.
  { apply l_linked_false. intros h'. rewrite El, list_elem_of_filter. naive_solver. }
  eapply wait_link_spec; try done.
  - by rewrite l_get_insert_after, decide_True, El, filter_ne_notin.
  - intros h' Hne. by rewrite l_get_insert_after, decide_False.
Qed.

Lemma mp_block_spec s a x t th time (Q : call (option Z) (Z * Z) → kstate → Prop) :
  running s t th → ks_mempools s !! a = Some x → time < HALF →
  (∀ s' start, blocked_in (LMemPool a) t (t :: l_get (ks_lists s) (LMemPool a)) time th
     (with_mp a (set_mp_suspend_thread_count (u32 (mp_suspend_thread_count x + 1)) x) s) s' →
     Q (Wait (time, start)) s') →
  wp (_ ← rt_thread_suspend t;
      tlist_insert_after (LMemPool a) t;;
      upd_mempool a (λ x, set_mp_suspend_thread_count (u32 (mp_suspend_thread_count x + 1)) x);;
      before_sleep ← wait_start time;
      wait_timer t time;;
      rt_schedule;;
      mret (Wait (time, before_sleep))) Q s.
Proof.
  intros Hr Hx Htime HQ. eapply wp_bind_assoc, wp_bind, wp_mono; [by apply mp_suspend_spec|].
  intros ? s1 Hw. pose proof Hw as [Hwf1 Et1 El1 Eo1 (Hfr1 & Hq1) Hr1 Etm1 Ero1].
  wp_step. eapply wp_upd_mempool; [by rewrite (fr_mempools _ _ Hfr1)|].
  set (x' := set_mp_suspend_thread_count _ x) in *. set (s2 := set_ks_mempools _ s1).
  assert (Hw2 : waiting_in (LMemPool a) t (t :: l_get (ks_lists s) (LMemPool a)) th (with_mp a x' s) s2).
  { split; simpl; try done; [by eapply wf_ext, Hwf1|]. destruct Hfr1, Hq1.
    split; [split; simpl; congruence|done]. }
  assert (Hgo : ∀ start, wp (wait_timer t time;; rt_schedule;; mret (Wait (time, start))) Q s2).
  { intros start. eapply wp_bind_assoc, wp_bind, wp_mono; [apply (park_spec _ _ _ _ _ _ _ Hw2); try done|].
    - apply Hr.
    - simpl. by eapply running_some.
    - intros ? s' Hb. wp_step. by apply HQ. }
  wp_step. unfold wait_start. destruct (0 <? time); [unfold rt_tick_get; do 3 wp_step|wp_step]; apply Hgo.
Qed.

Lemma mp_alloc_loop_spec s a x F A t th time :
  running s t th → ks_mempools s !! a = Some x → mp_rep a x F A → mp_count_ok s a x →
  mp_suspend_thread_count x < 2 ^ 32 - 1 → time < HALF →
  wp (mp_alloc_loop a time) (mp_allocated a t time x F A s) s.
Proof.
  intros Hr Hx Hrep Hcnt Hmax Htime. unfold mp_alloc_loop. wp_step. eapply wp_get_mempool; [done|].
  rewrite (mp_free_count_ok _ _ _ _ Hrep). destruct F as [|b F]; simpl.
  2:{ wp_step. eapply wp_mono; [by eapply mp_take_spec|]. intros r s' (-> & x' & -> & Hrep' & Ec).
      wp_step. split; [by eapply wf_ext, (rn_wf _ _ _ Hr)|]. split; [by eapply (running_some s)|].
      exists x'. split_and!; [done| |by exists b, F]. unfold mp_count_ok. by rewrite Ec. }
  destruct (Z.eqb_spec time 0) as [Ht0|Ht0].
  { wp_step. unfold rt_set_errno, rt_interrupt_get_nest, rt_thread_self. do 4 wp_step.
    rewrite (rn_irq _ _ _ Hr). simpl. do 4 wp_step. rewrite (rn_current _ _ _ Hr).
    eapply wp_upd_thread; [apply Hr|]. wp_step. split; [apply wf_set_error; apply Hr|].
    split; [by eapply (running_some s)|]. exists x. split_and!; [by simpl; rewrite insert_id|done|done|done|done]. }
  wp_step. unfold RT_DEBUG_NOT_IN_INTERRUPT, rt_interrupt_get_nest. do 4 wp_step.
  apply wp_assert; [by rewrite (rn_irq _ _ _ Hr)|]. wp_step. eapply wp_self; [apply Hr|].
  wp_step. eapply wp_upd_thread; [apply Hr|].
  pose proof (running_error _ _ _ RT_EOK Hr) as Hr1. set (s1 := set_ks_threads _ s) in *.
  apply (mp_block_spec s1 a x t (set_th_error RT_EOK th)); [done|done|done|].
  intros s' start Hb. split; [apply Hb|]. split; [apply Hb|].
  assert (Eu : u32 (mp_suspend_thread_count x + 1) = mp_suspend_thread_count x + 1).
  { unfold u32. rewrite Z.mod_small; unfold mp_count_ok in Hcnt; lia. }
  pose proof (bk_list _ _ _ _ _ _ _ Hb) as El.
  eexists. split_and!; [by rewrite (fr_mempools _ _ (bk_frame _ _ _ _ _ _ _ Hb))| |done|done
    |by apply mp_rep_count|done|apply Hb|done].
  unfold mp_count_ok in *. rewrite El. simpl. rewrite Eu, Hcnt. lia.
Qed.

(** [rt_mp_alloc] hands out the first free block of the pool: the block is no
    longer free and belongs to the caller alone, the counts are right, and no other
    block moves.  With no free block the call fails at once (time 0) or the thread
    waits in front of the threads that wait already.  A thread that is woken
    without an error goes on in the same way with the time it has left. *)
Theorem rt_mp_alloc_correct s a x F A t th time :
  running s t th → ks_mempools s !! a = Some x → mp_rep a x F A → mp_count_ok s a x →
  mp_suspend_thread_count x < 2 ^ 32 - 1 → time < HALF →
  wp (rt_mp_alloc a time) (mp_allocated a t time x F A s) s ∧
  ∀ start, th_error th = RT_EOK → u32 (ks_tick s - start) ≤ 2 ^ 31 →
    wp (rt_mp_alloc_resumed t a (time, start)) (mp_allocated a t (time_left s time start) x F A s) s.
Proof.
  intros Hr Hx Hrep Hcnt Hmax Htime. split; [by eapply mp_alloc_loop_spec|].
  intros start He Hd. unfold rt_mp_alloc_resumed. wp_step. eapply wp_get_thread; [apply Hr|].
  rewrite He. simpl. wp_step. apply wait_left_spec; [change HALF with (2 ^ 31 - 1) in Htime; lia|done|].
  eapply mp_alloc_loop_spec; try done. by apply time_left_range.
Qed.

Lemma mp_give_rep a x b F A A' :
  mp_rep a x F A → A ≡ₚ b :: A' →
  mp_rep a (set_mp_block_list (Some b) (set_mp_blocks (<[b := inr (mp_block_list x)]> (mp_blocks x))
    (set_mp_block_free_count (u32 (mp_block_free_count x + 1)) x))) (b :: F) A'.
Proof.
  intros [Hf Hu Hnd Hc Ht Hm] HA. rewrite HA in Hnd. pose proof (NoDup_middle _ _ _ Hnd) as Hbn.
  assert (Hlen : length (F ++ A) = S (length (F ++ A'))).
  { rewrite HA, !length_app. simpl. lia. }
  split; simpl; try done.
  - split; [done|]. eexists. rewrite mp_next_lookup. cbn [mp_blocks set_mp_block_list set_mp_blocks].
    rewrite lookup_insert_eq. split; [done|]. eapply mp_chain_other; [done|set_solver|done].
  - intros c Hin. rewrite lookup_insert_ne by set_solver. apply Hu. rewrite HA. by right.
  - by rewrite Permutation_middle.
  - unfold u32. rewrite Hc, Z.mod_small; [lia|]. rewrite Hlen, length_app in Ht. lia.
  - by rewrite Ht, Hlen.
Qed.

(** [rt_mp_free] gives an allocated block back: it is the first free block
    again, and the first waiting thread is ready and counted out.  This needs the
    count of waiting threads to be right. *)
Theorem rt_mp_free_correct s a x b F A A' :
  wf s → is_Some (ks_current s) → ks_mempools s !! a = Some x → mp_rep a x F A → A ≡ₚ b :: A' →
  mp_count_ok s a x → mp_suspend_thread_count x < 2 ^ 32 →
  wp (rt_mp_free a (b + mp_header)) (λ _ s', wf s' ∧ is_Some (ks_current s') ∧ ∃ x',
    ks_mempools s' = <[a := x']> (ks_mempools s) ∧ mp_rep a x' (b :: F) A' ∧ mp_count_ok s' a x' ∧
    woke (LMemPool a) s s') s.
Proof.
  intros Hwf Hc Hx Hrep HA Hcnt Hmax. unfold rt_mp_free. replace (b + mp_header - mp_header) with b by lia.
  wp_step. eapply wp_get_mempool; [done|]. wp_step.
  eapply wp_option; [apply (mp_used _ _ _ _ Hrep); rewrite HA; by left|].
  rewrite decide_True by done. do 2 wp_step. wp_step. unfold put_mempool. wp_step.
  pose proof (mp_give_rep _ _ _ _ _ _ Hrep HA) as Hrep1. set (x1 := set_mp_block_list _ _) in *.
  fold (with_mp a x1 s). assert (Hwf1 : wf (with_mp a x1 s)) by (by eapply wf_ext, Hwf).
  unfold mp_count_ok, woke in *. rewrite Hcnt.
  destruct (l_get (ks_lists s) (LMemPool a)) as [|w ws] eqn:El; simpl.
  { wp_step. split; [done|]. split; [done|]. exists x1. simpl. by rewrite El. }
  destruct (wf_home _ Hwf (LMemPool a) w ltac:(rewrite El; by left)) as (th & Ht & Hst). simpl in Hst.
  wp_step. eapply wp_tlist_first; [done|]. wp_step. eapply wp_upd_thread; [done|].
  set (th1 := set_th_error RT_EOK th). set (s2 := set_ks_threads _ (with_mp a x1 s)).
  assert (Hwf2 : wf s2) by (by apply wf_set_error).
  wp_step. eapply wp_mono; [eapply (thread_resume_spec s2 w th1); [done|apply lookup_insert_eq|done]|].
  intros ? s3 [_ Hrd]. destruct (readied_front s2 s3 (LMemPool a) w ws th1 Hwf2 I El Hrd) as [El3 _].
  destruct Hrd as [Hwf3 Et3 _ (Hfr3 & Hc3 & _) _ _]. wp_step.
  eapply wp_upd_mempool; [rewrite (fr_mempools _ _ Hfr3); apply lookup_insert_eq|].
  eapply wp_mono; [eapply schedule_ready_spec; [by eapply wf_ext, Hwf3| |by simpl; rewrite Hc3]|].
  { eexists w, _. simpl. by rewrite Et3, lookup_insert_eq. }
  intros ? s4 ((c & p & ->) & Hc4 & _). split; [by eapply wf_ext, Hwf3|]. split; [done|].
  eexists. simpl. rewrite (fr_mempools _ _ Hfr3). simpl. rewrite insert_insert_eq.
  split_and!; [done|by apply mp_rep_count| |done|].
  - rewrite El3. simpl. unfold u32. rewrite Hcnt in Hmax |- *. simpl length in *. rewrite Z.mod_small; lia.
  - eexists. by rewrite Et3, lookup_insert_eq.
Qed.

(** C40. A thread that times out while it waits for a block leaves the waiting list
    but stays counted: if it was the only one, the next [rt_mp_free] takes the head
    of the empty list for a thread. *)
Theorem rt_mp_free_after_timeout s a x b t th :
  wf s → is_Some (ks_current s) → ks_threads s !! t = Some th → th_stat th = RT_THREAD_SUSPEND →
  (∀ r, TThread t ∉ l_get (ks_rows s) r) → l_get (ks_lists s) (LMemPool a) = [t] →
  ks_mempools s !! a = Some x → mp_count_ok s a x → mp_blocks x !! b = Some (inl a) →
  wp (rt_thread_timeout t) (λ _ s', rt_mp_free a (b + mp_header) s' = Fault BadPointer) s.
Proof.
  intros Hwf [c Hc] Ht Hst Hrow El Hx Hcnt Hb. eapply wp_mono; [by eapply thread_timeout_spec|].
  intros ? s' (_ & Hfr & _ & _ & _ & _ & Hl). specialize (Hl (LMemPool a) I).
  rewrite El, filter_cons_False in Hl by naive_solver.
  unfold rt_mp_free, get_mempool, put_mempool, tlist_first, mbind, SM_bind, get, modify. simpl.
  replace (b + mp_header - mp_header) with b by lia.
  rewrite (fr_mempools _ _ Hfr), Hx. simpl. rewrite Hb. simpl. rewrite decide_True by done. simpl.
  unfold mp_count_ok in Hcnt. rewrite Hcnt, El. simpl. by rewrite Hl.
Qed.
