(* ===== verification/ThreadFacts.v ===== *)
(** Threads against the kernel invariant: starting, yielding, sleeping and ending. *)

From stdpp Require Import base gmap list fin_maps.
From Stdlib Require Import ZArith Lia.
From S2P Require Import Prelude IntrusiveList Ffs Kservice KState Object Sched Timer KInv SchedFacts.
From S2P Require Import TimerFacts TimerCheck Thread Ipc IpcFacts.

Open Scope Z_scope.

(** ** More state changes that preserve the invariant *)

(** A thread that was just initialised: not linked, its timer set up. *)
Record fresh_thread (s : kstate) (t : Z) (th : rt_thread) : Prop := {
  ft_thread : ks_threads s !! t = Some th;
  ft_init : th_stat th = RT_THREAD_INIT;
  ft_prio : 0 ≤ th_init_priority th < RT_THREAD_PRIORITY_MAX;
  ft_timer : ∃ tm, ks_timers s !! TThread t = Some tm ∧ thread_timer_ok t tm;
}.

Definition started (th : rt_thread) : rt_thread :=
  set_th_stat RT_THREAD_SUSPEND (set_priority (th_init_priority th) th).

Lemma init_unlinked s t th :
  wf s → ks_threads s !! t = Some th → th_stat th = RT_THREAD_INIT → ∀ h, t ∉ l_get (ks_lists s) h.
Proof.
  intros Hwf Ht Hi h Hin. destruct (wf_home _ Hwf _ _ Hin) as (th' & Ht' & Hh). simplify_eq.
  destruct h; simpl in Hh; rewrite Hi in Hh; naive_solver.
Qed.

Lemma started_prio th : 0 ≤ th_init_priority th < RT_THREAD_PRIORITY_MAX → prio_ok (started th).
Proof.
  intros Hp. split; [done|done|]. intros _. simpl. unfold u32, RT_THREAD_PRIORITY_MAX in *.
  rewrite Z.shiftl_1_l, Z.mod_small; [done|]. split; [lia|]. apply Z.pow_lt_mono_r; lia.
Qed.

Lemma wf_started s t th :
  wf s → fresh_thread s t th →
  wf (set_ks_threads (<[t := started th]> (ks_threads s)) s).
Proof.
  intros Hwf [Ht Hi Hp Htm]. pose proof (init_unlinked _ _ _ Hwf Ht Hi) as Hun.
  split; simpl; try apply Hwf.
  - intros h x Hin. rewrite lookup_insert_ne; [by apply (wf_home _ Hwf)|]. intros <-. by eapply Hun.
  - intros x thx. rewrite lookup_insert. case_decide; [intros [= <-]; done|apply (wf_ready _ Hwf)].
  - intros x thx. rewrite lookup_insert. case_decide; [|apply (wf_prio _ Hwf)].
    intros [= <-] _. by apply started_prio.
  - intros x thx. rewrite lookup_insert. case_decide; [|apply (wf_timer _ Hwf)]. by subst.
  - intros x r Hin. destruct (wf_armed _ Hwf _ _ Hin) as (thx & tm & Hx & Hs & ?&?).
    rewrite lookup_insert_ne; [eauto 10|]. intros <-. simplify_eq. by rewrite Hi in Hs.
Qed.

(** A closed thread is put on the list of defunct threads. *)
Lemma wf_bury s s' t th :
  wf s → ks_threads s !! t = Some th → th_stat th = RT_THREAD_CLOSE →
  l_linked (ks_lists s) t = false → ks_threads s' = ks_threads s →
  ks_lists s' = l_insert_after LDefunct t (ks_lists s) → ks_group s' = ks_group s →
  ks_timers s' = ks_timers s → ks_rows s' = ks_rows s → wf s'.
Proof.
  intros Hwf Ht Hst Hl E1 E2 E3 E4 E5. split; rewrite ?E1, ?E2, ?E3, ?E4, ?E5; try apply Hwf.
  - by apply l_insert_after_ok; [apply Hwf|].
  - intros h x. rewrite l_get_insert_after. case_decide as Eh; [subst h|by apply (wf_home _ Hwf)].
    rewrite elem_of_cons. intros [->|Hin]; [by exists th|by apply (wf_home _ Hwf)].
  - intros x thx Hx Hs. rewrite l_get_insert_after, decide_False by done. by apply (wf_ready _ Hwf).
  - intros p Hp. unfold l_isempty. rewrite l_get_insert_after, decide_False by done.
    by apply (wf_group _ Hwf).
Qed.

(** The position in the ready queue of a priority does not matter. *)
Lemma wf_requeue s t th :
  wf s → ks_threads s !! t = Some th → th_stat th = RT_THREAD_READY →
  wf (set_ks_lists (l_insert_before (LReady (th_current_priority th)) t (l_remove t (ks_lists s))) s).
Proof.
  intros Hwf Ht Hst. assert (live th) as Hlive by (by left).
  pose proof (wf_prio _ Hwf _ _ Ht ltac:(auto with kernel)) as Hpo.
  set (th0 := set_th_stat RT_THREAD_SUSPEND th).
  set (s1 := set_ks_group (group_without s t th) (set_ks_lists (l_remove t (ks_lists s))
    (set_ks_threads (<[t := th0]> (ks_threads s)) s))).
  assert (Hwf1 : wf s1).
  { eapply (wf_take_out s s1 Hwf t th th0); try done; [by apply prio_ok_stat|by left]. }
  assert (Hg : Z.lor (group_without s t th) (th_number_mask th) = ks_group s).
  { pose proof Hpo as [_ Hc Hm]. rewrite Hm by done. apply Z.bits_inj'. intros p Hp0.
    rewrite Z.lor_spec. unfold RT_THREAD_PRIORITY_MAX in Hc.
    destruct (Z.lt_ge_cases p 32) as [Hp|Hp].
    - rewrite testbit_pow2 by lia. destruct (Z.eqb_spec (th_current_priority th) p) as [<-|Hne].
      + rewrite orb_true_r. pose proof (wf_ready _ Hwf _ _ Ht Hst) as Hin.
        rewrite (wf_group _ Hwf) by lia. symmetry. apply negb_true_iff, l_isempty_false.
        intros E. rewrite E in Hin. by apply not_elem_of_nil in Hin.
      + rewrite orb_false_r. pose proof (wf_group _ Hwf1 p ltac:(lia)) as Hg1. simpl in Hg1. rewrite Hg1.
        rewrite (wf_group _ Hwf) by lia. unfold l_isempty. rewrite l_get_remove, filter_ne_notin; [done|].
        intros Hin. apply Hne. eapply (ready_home s Hwf t th Ht). done.
    - rewrite !(range_bits 32); [done|apply Hwf|lia|..]; [|lia|apply Hwf1|lia].
      split; [lia|]. apply Z.pow_lt_mono_r; lia. }
  eapply (wf_put_in s1 _ Hwf1 t th0 th); try done; simpl.
  - apply lookup_insert_eq.
  - apply l_remove_unlinked.
  - by rewrite insert_insert_eq, insert_id.
  - intros r Hin. by pose proof (armed_suspended s Hwf t th Ht r Hin) as Hs; rewrite Hst in Hs.
Qed.

(** ** Starting *)

(** [rt_thread_startup] makes an initialised thread ready with its initial
    priority, at the end of the ready queue of that priority, changes no other
    queue, and, once the scheduler runs, leaves the first thread of the highest
    ready priority running. *)
Theorem rt_thread_startup_correct s t th :
  wf s → fresh_thread s t th →
  wp (rt_thread_startup t) (λ r s', r = RT_EOK ∧ wf s' ∧
    ks_threads s' = <[t := set_th_stat RT_THREAD_READY (started th)]> (ks_threads s) ∧
    (∀ h, l_get (ks_lists s') h = l_get (ks_lists s) h ++
       (if decide (h = LReady (th_init_priority th)) then [t] else [])) ∧
    match ks_current s with Some _ => picked s' | None => ks_current s' = None end) s.
Proof.
  intros Hwf Hf. pose proof Hf as [Ht Hi Hp Htm]. unfold rt_thread_startup.
  wp_step. eapply wp_get_thread; [done|]. wp_step. apply wp_assert; [by rewrite Hi|]. wp_step.
  eapply wp_upd_thread; [done|]. wp_step. fold (started th).
  pose proof (wf_started _ _ _ Hwf Hf) as Hwf1. set (s1 := set_ks_threads _ s) in *.
  eapply wp_mono; [apply (thread_resume_spec s1 t (started th)); [done|apply lookup_insert_eq|done]|].
  intros ? s2 [_ [Hwf2 Et2 El2 (_ & Hc2 & _) _ _]]. simpl in Et2, El2, Hc2.
  rewrite insert_insert_eq in Et2. wp_step. unfold rt_thread_self. wp_step. wp_step. wp_step.
  assert (El : ∀ h, l_get (ks_lists s2) h = l_get (ks_lists s) h ++
    (if decide (h = LReady (th_init_priority th)) then [t] else [])).
  { intros h. rewrite El2, filter_ne_notin; [done|]. by eapply init_unlinked. }
  wp_step. eapply (wp_mono _ (λ _ s', switched s2 s' ∧
    match ks_current s with Some _ => picked s' | None => ks_current s' = None end)).
  { rewrite Hc2. destruct (ks_current s) as [c|] eqn:Ec.
    - unfold when. rewrite bool_decide_true by done.
      eapply wp_mono; [apply (schedule_ready_spec s2); [done| |by rewrite Hc2]|naive_solver].
      eexists t, _. by rewrite Et2, lookup_insert_eq.
    - unfold when. rewrite bool_decide_false by naive_solver. wp_step. by split; [apply switched_refl|]. }
  intros ? s3 [Hsw Hcur]. wp_step. pose proof Hsw as (c & p & ->). split_and!; try done.
  by eapply switched_wf.
Qed.

(** ** Suspending and resuming *)

(** [rt_thread_suspend] takes a ready thread out of every list with its timer
    stopped and [rt_thread_resume] puts it back at the end of the ready queue of its
    priority: together they change nothing but its place in that queue.  A thread
    in another state is refused by both, and nothing changes. *)
Theorem rt_thread_suspend_resume s t th :
  wf s → ks_threads s !! t = Some th → th_stat th = RT_THREAD_READY →
  wp (r ← rt_thread_suspend t; r' ← rt_thread_resume t; mret (r, r')) (λ r s',
    r = (RT_EOK, RT_EOK) ∧ wf s' ∧ ks_threads s' = ks_threads s ∧ frame s s' ∧
    ∀ h, l_get (ks_lists s') h = filter (λ x, x ≠ t) (l_get (ks_lists s) h) ++
      (if decide (h = LReady (th_current_priority th)) then [t] else [])) s ∧
  rt_thread_resume t s = Done (- RT_ERROR) s ∧
  (∀ u uth, ks_threads s !! u = Some uth → th_stat uth ≠ RT_THREAD_READY →
    rt_thread_suspend u s = Done (- RT_ERROR) s).
Proof.
  intros Hwf Ht Hst. split_and!.
  - wp_step. eapply wp_mono; [by apply thread_suspend_spec|].
    intros r s1 [-> [Hwf1 Et1 El1 Hq1 _ _]]. wp_step.
    eapply wp_mono; [eapply (thread_resume_spec s1 t (set_th_stat RT_THREAD_SUSPEND th)); [done| |done]|].
    { by rewrite Et1, lookup_insert_eq. }
    intros r s2 [-> [Hwf2 Et2 El2 Hq2 _ _]]. wp_step. split_and!; [done|done| | |].
    + rewrite Et2, Et1, insert_insert_eq. apply insert_id. rewrite Ht. f_equal. destruct th; simpl in *. by rewrite Hst.
    + transitivity s1; [apply Hq1|apply Hq2].
    + intros h. rewrite El2, El1, list_filter_filter. f_equal. apply list_filter_iff. naive_solver.
  - eapply thread_resume_refused; [done|by rewrite Hst].
  - intros u uth Hu Hne. unfold rt_thread_suspend, get_thread, mbind, SM_bind, get. rewrite Hu. simpl.
    by rewrite (proj2 (Z.eqb_neq _ _) Hne).
Qed.

(** ** Yielding *)

Lemma tnode_shared_spec s t th (Q : bool → kstate → Prop) :
  wf s → ks_threads s !! t = Some th → th_stat th = RT_THREAD_READY →
  Q (1 <? length (l_get (ks_lists s) (LReady (th_current_priority th))))%nat s → wp (tnode_shared t) Q s.
Proof.
  intros Hwf Ht Hst HQ. unfold tnode_shared. wp_step. wp_step. wp_step.
  replace (existsb _ _) with (1 <? length (l_get (ks_lists s) (LReady (th_current_priority th))))%nat; [done|].
  pose proof (wf_ready _ Hwf _ _ Ht Hst) as Hin. apply eq_true_iff_eq.
  rewrite existsb_exists, Nat.ltb_lt. unfold l_get in *.
  destruct (ks_lists s !! LReady (th_current_priority th)) as [l|] eqn:El; simpl in *;
    [|by apply not_elem_of_nil in Hin]. split.
  - intros Hl. exists (LReady (th_current_priority th), l).
    rewrite <- list_elem_of_In, elem_of_map_to_list. split; [done|].
    apply andb_true_iff. split; [by apply bool_decide_eq_true|by apply Nat.ltb_lt].
  - intros ([h l'] & Hin' & Hb). apply list_elem_of_In, elem_of_map_to_list in Hin'.
    apply andb_true_iff in Hb as [Hb1 Hb2]. apply bool_decide_eq_true in Hb1. apply Nat.ltb_lt in Hb2. simpl in *.
    assert (h = LReady (th_current_priority th)) as ->.
    { eapply (ok_excl _ (wf_lists _ Hwf)); unfold l_get; by rewrite ?Hin', ?El. }
    congruence.
Qed.

(** [rt_thread_yield] is a step of the round robin: the running thread, first of
    the ready queue of its priority, goes to the end of the queue, the order of the
    other threads is kept, and the next thread of the queue runs, provided that no
    thread of a higher priority is ready and the scheduler is not locked.  A thread
    that is alone in its queue goes on running. *)
Theorem rt_thread_yield_round_robin s t th l :
  running s t th → highest_ready s (th_current_priority th) t → ks_lock_nest s = 0 →
  l_get (ks_lists s) (LReady (th_current_priority th)) = t :: l →
  wp rt_thread_yield (λ r s', r = RT_EOK ∧ wf s' ∧ ks_threads s' = ks_threads s ∧
    l_get (ks_lists s') (LReady (th_current_priority th)) = l ++ [t] ∧
    (∀ h, h ≠ LReady (th_current_priority th) → l_get (ks_lists s') h = l_get (ks_lists s) h) ∧
    ks_current s' = head (l ++ [t])) s.
Proof.
  intros Hr (Hp & _ & Hhigh) Hlock El. unfold rt_thread_yield. wp_step. eapply wp_self; [apply Hr|].
  wp_step. eapply wp_get_thread; [apply Hr|]. wp_step.
  eapply tnode_shared_spec; [apply Hr|apply Hr|apply Hr|]. rewrite (rn_ready _ _ _ Hr), El. simpl.
  destruct l as [|u l]; simpl.
  { wp_step. split_and!; [done|apply Hr|done|done|done|apply Hr]. }
  wp_step. unfold tlist_remove. wp_step. wp_step. apply wp_priority_table; [done|]. wp_step.
  apply wp_tlist_link; [apply l_remove_unlinked|].
  pose proof (wf_requeue s t th (rn_wf _ _ _ Hr) (rn_thread _ _ _ Hr) (rn_ready _ _ _ Hr)) as Hwf1.
  set (s1 := set_ks_lists _ (set_ks_lists _ s)).
  assert (Hwf1' : wf s1) by (eapply wf_ext, Hwf1; done).
  pose proof (ok_nodup _ (wf_lists _ (rn_wf _ _ _ Hr)) (LReady (th_current_priority th))) as Hnd.
  rewrite El in Hnd. apply NoDup_cons in Hnd as [Hnin _].
  assert (El1 : ∀ h, l_get (ks_lists s1) h =
    if decide (h = LReady (th_current_priority th)) then u :: l ++ [t] else l_get (ks_lists s) h).
  { intros h. simpl. rewrite l_get_insert_before, !l_get_remove.
    destruct (decide (h = LReady (th_current_priority th))) as [->|Eh].
    - rewrite decide_True, El, filter_cons_False, filter_ne_notin by (done || naive_solver). done.
    - rewrite decide_False by congruence. rewrite filter_ne_notin; [done|]. intros Hin. apply Eh.
      eapply (ok_excl _ (wf_lists _ (rn_wf _ _ _ Hr))); [done|]. rewrite El. by left. }
  wp_step. eapply wp_mono; [eapply (schedule_spec s1 t); [done| |apply Hr]|].
  { exists t, th. by split; apply Hr. }
  intros ? s2 [(c & p & ->) Hif]. simpl in Hif. rewrite Hlock in Hif. simpl in Hif.
  destruct Hif as (q & v & (Hq & Hhead & Hlow) & ->). wp_step.
  split_and!; [done|by eapply wf_ext, Hwf1'|done| | |].
  { etrans; [apply (El1 (LReady (th_current_priority th)))|]. by rewrite decide_True. }
  { intros h Hh. etrans; [apply (El1 h)|]. by rewrite decide_False. }
  simpl. assert (q = th_current_priority th) as ->.
  { destruct (Z.lt_trichotomy q (th_current_priority th)) as [Hlt|[?|Hgt]]; [|done|].
    - rewrite El1, decide_False in Hhead by (intros [= E]; lia). by rewrite Hhigh in Hhead by lia.
    - specialize (Hlow (th_current_priority th) ltac:(lia)). by rewrite El1, decide_True in Hlow. }
  rewrite El1, decide_True in Hhead by done. done.
Qed.

(** ** Sleeping *)

Lemma thread_sleep_spec s t th tick :
  running s t th → 0 ≤ tick < HALF →
  wp (rt_thread_sleep tick) (λ _ s', wf s' ∧ picked s' ∧
    ks_threads s' = <[t := set_th_stat RT_THREAD_SUSPEND th]> (ks_threads s) ∧
    (∀ h, t ∉ l_get (ks_lists s') h) ∧ TThread t ∈ l_get (ks_rows s') HardRow ∧
    timeout_of (ks_timers s') (TThread t) = u32 (ks_tick s + tick)) s.
Proof.
  intros Hr Htick.
  unfold rt_thread_sleep. wp_step. eapply wp_self; [apply Hr|]. wp_step.
  eapply wp_mono; [apply (thread_suspend_spec s t th); apply Hr|].
  intros ? s1 [_ [Hwf1 Et1 El1 Hq1 Er1 _]]. set (th1 := set_th_stat RT_THREAD_SUSPEND th) in *.
  assert (Ht1 : ks_threads s1 !! t = Some th1) by (by rewrite Et1, lookup_insert_eq).
  destruct (wf_timer _ Hwf1 _ _ Ht1 ltac:(done)) as (tm & Htm & Hok).
  wp_step. unfold rt_timer_control. wp_step. eapply wp_upd_timer; [done|]. wp_step. wp_step.
  set (tm1 := set_tm_init_tick (u32 tick) tm). set (s2 := set_ks_timers _ s1).
  assert (Hu : u32 tick = tick) by (apply Z.mod_small; change HALF with 2147483647 in Htick; lia).
  assert (Hwf2 : wf s2).
  { eapply (wf_timer_field s1 s2 Hwf1 _ tm tm1); try done; [apply same_kind_init|].
    intros ? r [= <-] Hin. rewrite Er1, list_elem_of_filter in Hin. naive_solver. }
  eapply wp_mono; [eapply (thread_timer_start_spec s2 t th1 tm1); try done|].
  { apply lookup_insert_eq. } { simpl. by rewrite Hu. }
  intros ? s3 [_ Har]. destruct (ar_row _ _ _ _ Har) as (l1 & l2 & _ & _ & Er).
  pose proof Har as [Hwf3 Et3 El3 _ (Hfr3 & Hc3 & _) Etm3 _ _].
  eapply wp_mono; [apply (schedule_ready_spec s3); [done| |]|].
  - destruct (rn_idle _ _ _ Hr) as (t' & th' & Hne & Ht' & Hst'). exists t', th'.
    rewrite Et3. simpl. by rewrite Et1, lookup_insert_ne.
  - rewrite Hc3. simpl. rewrite (proj1 (proj2 Hq1)). by eapply running_some.
  - intros ? s4 ((c & p & ->) & _ & Hpk). simpl. split_and!; [by eapply wf_ext, Hwf3|done| | | |].
    + by rewrite Et3.
    + intros h. rewrite El3. simpl. rewrite El1, list_elem_of_filter. naive_solver.
    + replace HardRow with (row_of_flag (tm_flag tm1)); [rewrite Er; set_solver|].
      unfold row_of_flag. simpl. by rewrite (tt_hard _ _ Hok).
    + unfold timeout_of. rewrite Etm3, lookup_insert_eq. simpl. rewrite Hu.
      by rewrite (fr_tick _ _ (proj1 Hq1)).
Qed.

(** [rt_thread_sleep] suspends the running thread outside every list, arms its
    timer for the given number of ticks and switches to another thread; when the
    timer wakes the thread up, the call returns without an error. *)
Theorem rt_thread_sleep_correct s t th tick :
  running s t th → 0 ≤ tick < HALF →
  wp (rt_thread_sleep tick) (λ _ s', wf s' ∧ picked s' ∧
    ks_threads s' = <[t := set_th_stat RT_THREAD_SUSPEND th]> (ks_threads s) ∧
    (∀ h, t ∉ l_get (ks_lists s') h) ∧ TThread t ∈ l_get (ks_rows s') HardRow ∧
    timeout_of (ks_timers s') (TThread t) = u32 (ks_tick s + tick)) s ∧
  ∀ th', ks_threads s !! t = Some th' → th_error th' = - RT_ETIMEOUT →
    wp (rt_thread_sleep_resumed t) (λ r s', r = RT_EOK ∧
      ks_threads s' = <[t := set_th_error RT_EOK th']> (ks_threads s)) s.
Proof.
  intros Hr Htick. split; [by apply thread_sleep_spec|]. intros th' Ht' He.
  unfold rt_thread_sleep_resumed. wp_step. eapply wp_get_thread; [done|]. wp_step.
  rewrite He. simpl. eapply wp_upd_thread; [done|]. by wp_step.
Qed.

(** ** Ending *)

Definition closed (th : rt_thread) : rt_thread := set_th_stat RT_THREAD_CLOSE th.

(** The thread has left every list and its timer every row. *)
Lemma wf_closed s s' t th :
  wf s → ks_threads s !! t = Some th → live th →
  ks_threads s' = <[t := closed th]> (ks_threads s) → ks_lists s' = l_remove t (ks_lists s) →
  ks_group s' = group_without s t th → ks_timers s' = ks_timers s →
  ks_rows s' = l_remove (TThread t) (ks_rows s) → wf s'.
Proof.
  intros Hwf Ht Hl E1 E2 E3 E4 E5.
  destruct (wf_timer _ Hwf _ _ Ht ltac:(auto with kernel)) as (tm & Htm & _).
  set (s1 := set_ks_rows (l_remove (TThread t) (ks_rows s)) s).
  assert (Hwf1 : wf s1).
  { eapply (wf_timer_off s s1 Hwf (TThread t) tm tm); try done. simpl. by rewrite insert_id. }
  eapply (wf_take_out s1 s' Hwf1 t th (closed th)); try done.
  - apply prio_ok_stat; [|done]. eapply wf_prio; [exact Hwf|done|auto with kernel].
  - right. apply l_linked_false, l_remove_unlinked.
Qed.

Lemma schedule_remove_state s t th :
  ks_threads s !! t = Some th → 0 ≤ th_current_priority th < RT_THREAD_PRIORITY_MAX →
  wp (rt_schedule_remove_thread t) (λ _ s', s' = set_ks_group (group_without s t th)
    (set_ks_lists (l_remove t (ks_lists s)) s)) s.
Proof.
  intros Ht Hp. unfold rt_schedule_remove_thread. wp_step. eapply wp_get_thread; [done|]. wp_step.
  unfold tlist_remove. wp_step. wp_step. apply wp_priority_table; [done|]. wp_step.
  apply wp_tlist_isempty. simpl. unfold group_without.
  destruct (l_isempty _ _); [done|]. unfold when. wp_step. by destruct s.
Qed.

(** [rt_thread_delete] of a ready or suspended thread takes it out of whatever
    list it is in and its timer out of the timer list, also when it was waiting for
    an IPC object with a running timer, and leaves it closed at the front of the list
    of defunct threads; every other list keeps its order. *)
Theorem rt_thread_delete_correct s t th :
  wf s → ks_threads s !! t = Some th → live th →
  wp (rt_thread_delete t) (λ r s', r = RT_EOK ∧ wf s' ∧
    ks_threads s' = <[t := closed th]> (ks_threads s) ∧
    (∀ h, l_get (ks_lists s') h = (if decide (h = LDefunct) then [t] else []) ++
       filter (λ x, x ≠ t) (l_get (ks_lists s) h)) ∧
    (∀ r, l_get (ks_rows s') r = filter (λ i, i ≠ TThread t) (l_get (ks_rows s) r))) s.
Proof.
  intros Hwf Ht Hl. pose proof (live_not_init _ Hl) as Hni. unfold rt_thread_delete.
  wp_step. eapply wp_get_thread; [done|]. wp_step. rewrite (proj2 (Z.eqb_neq _ _) Hni). simpl.
  eapply wp_mono; [eapply schedule_remove_state; [done|eapply wf_prio; done]|]. intros ? ? ->.
  unfold rt_timer_detach, rt_object_detach, olist_remove, timer_remove. do 7 wp_step.
  eapply wp_upd_thread; [done|]. fold (closed th). wp_step.
  set (s1 := set_ks_threads _ _).
  assert (Hwf1 : wf s1) by (by eapply (wf_closed s s1 t th)).
  apply wp_tlist_link; [apply l_remove_unlinked|]. wp_step. split_and!; [done| |done| |].
  - eapply (wf_bury s1 _ t (closed th)); try done; [apply lookup_insert_eq|apply l_remove_unlinked].
  - intros h. simpl. rewrite l_get_insert_after, !l_get_remove.
    destruct (decide (h = LDefunct)) as [->|Hne]; [by rewrite decide_True|].
    by rewrite decide_False by congruence.
  - intros r. simpl. apply l_get_remove.
Qed.

(** [rt_thread_exit] ends the running thread: it is closed and in no ready queue,
    its timer in no list; a statically allocated thread without a cleanup function is
    taken off the object list at once, any other goes to the list of defunct threads
    for the idle thread; another thread is switched in. *)
Theorem rt_thread_exit_correct s t th o :
  running s t th → ks_objects s !! OThread t = Some o →
  wp rt_thread_exit (λ _ s', wf s' ∧ is_Some (ks_current s') ∧ picked s' ∧
    ks_threads s' = <[t := closed th]> (ks_threads s) ∧
    (∀ p, t ∉ l_get (ks_lists s') (LReady p)) ∧ (∀ r, TThread t ∉ l_get (ks_rows s') r) ∧
    if flag_test (o_type o) RT_Object_Class_Static && bool_decide (th_cleanup th = None)
    then l_get (ks_lists s') LDefunct = l_get (ks_lists s) LDefunct ∧
         ∀ c, OThread t ∉ l_get (ks_containers s') c
    else l_get (ks_lists s') LDefunct = t :: l_get (ks_lists s) LDefunct) s.
Proof.
  intros Hr Ho. assert (live th) as Hl by (left; apply Hr). unfold rt_thread_exit.
  pose proof (rn_wf _ _ _ Hr) as Hwf. pose proof (rn_thread _ _ _ Hr) as Ht.
  assert (Hdef : t ∉ l_get (ks_lists s) LDefunct).
  { intros Hin. destruct (wf_home _ Hwf _ _ Hin) as (th' & Ht' & Hc). simpl in Hc.
    assert (th' = th) as -> by congruence. by rewrite (rn_ready _ _ _ Hr) in Hc. }
  wp_step. eapply wp_self; [apply Hr|]. wp_step.
  eapply wp_mono; [eapply schedule_remove_state; [done|eapply wf_prio; try done; auto with kernel]|].
  intros ? ? ->. wp_step. eapply wp_upd_thread; [done|]. fold (closed th).
  unfold rt_timer_detach, rt_object_detach, olist_remove, timer_remove. do 7 wp_step.
  unfold rt_object_is_systemobject, get_object. do 3 wp_step. eapply wp_option; [done|]. wp_step. wp_step.
  eapply wp_get_thread; [apply lookup_insert_eq|]. set (s1 := set_ks_containers _ _).
  assert (Hwf1 : wf s1) by (by eapply (wf_closed s s1 t th)).
  assert (Hsched : ∀ s2, wf s2 → ks_threads s2 = <[t := closed th]> (ks_threads s) → ks_current s2 = Some t →
    wp rt_schedule (λ _ s', switched s2 s' ∧ is_Some (ks_current s') ∧ picked s') s2).
  { intros s2 Hwf2 Et2 Hc2. apply schedule_ready_spec; [done| |by rewrite Hc2].
    destruct (rn_idle _ _ _ Hr) as (t' & th' & Hne & Ht' & Hst'). exists t', th'.
    by rewrite Et2, lookup_insert_ne. }
  assert (Hrow : ∀ r, TThread t ∉ l_get (ks_rows s1) r) by (apply l_linked_false, l_remove_unlinked).
  assert (Hnl : ∀ h, t ∉ l_get (ks_lists s1) h) by (apply l_linked_false, l_remove_unlinked).
  wp_step. simpl. destruct (flag_test (o_type o) RT_Object_Class_Static && bool_decide (th_cleanup th = None)).
  - wp_step. eapply wp_mono; [apply Hsched; [by eapply wf_ext, Hwf1|done|apply Hr]|].
    intros ? s' ((c & p & ->) & Hc' & Hpk). split_and!; try done; [by eapply wf_ext, Hwf1| |].
    + simpl. by rewrite l_get_remove, filter_ne_notin.
    + simpl. intros k. rewrite l_get_remove, list_elem_of_filter. naive_solver.
  - apply wp_tlist_link; [apply l_remove_unlinked|]. set (s2 := set_ks_lists _ s1).
    assert (Hwf2 : wf s2).
    { eapply (wf_bury s1 s2 t (closed th)); try done; [apply lookup_insert_eq|apply l_remove_unlinked]. }
    eapply wp_mono; [apply Hsched; [done|done|apply Hr]|].
    intros ? s' ((c & p & ->) & Hc' & Hpk). split_and!; try done; [by eapply wf_ext, Hwf2| |].
    + intros q. simpl. rewrite l_get_insert_after, decide_False by done. apply Hnl.
    + simpl. by rewrite l_get_insert_after, decide_True, l_get_remove, filter_ne_notin.
Qed.

(** ** The idle thread *)

(** What a cleanup function may do: anything but touching threads, their lists,
    objects and the kernel heap. *)
Definition benign_cleanup (cleanup : Z → Z → K unit) : Prop :=
  ∀ f t s, wp (cleanup f t) (λ _ s', wf s → wf s' ∧ ks_lists s' = ks_lists s ∧
    ks_threads s' = ks_threads s ∧ ks_objects s' = ks_objects s ∧ ks_freed s' = ks_freed s ∧
    ks_interrupt_nest s' = ks_interrupt_nest s) s.

Definition is_static (s : kstate) (t : Z) : bool :=
  match ks_objects s !! OThread t with Some o => flag_test (o_type o) RT_Object_Class_Static | None => false end.

(** The defunct threads one call reaps, with the rest of the list: all up to the
    first one that is not dynamically allocated, which is only unlinked. *)
Fixpoint reap (s : kstate) (l : list Z) : list Z * list Z :=
  match l with
  | [] => ([], [])
  | t :: l' => if is_static s t then ([], l') else let p := reap s l' in (t :: p.1, p.2)
  end.

Definition stack_of (s : kstate) (t : Z) : Z := default 0 (th_stack_addr <$> ks_threads s !! t).

Section idle_facts.
Context (cleanup : Z → Z → K unit) (Hcl : benign_cleanup cleanup).

Record reaping (s : kstate) (t : Z) (b : bool) (s' : kstate) : Prop := {
  rg_wf : wf s';
  rg_defunct : l_get (ks_lists s') LDefunct = filter (λ x, x ≠ t) (l_get (ks_lists s) LDefunct);
  rg_stop : b = is_static s t;
  rg_threads : ks_threads s' = ks_threads s;
  rg_objects : ks_objects s' = ks_objects s;
  rg_irq : ks_interrupt_nest s' = ks_interrupt_nest s;
  rg_freed : ks_freed s' = if b then ks_freed s else t :: stack_of s t :: ks_freed s;
}.

Lemma idle_reap_spec s t l :
  wf s → l_get (ks_lists s) LDefunct = t :: l → is_Some (ks_objects s !! OThread t) →
  ks_interrupt_nest s = 0 →
  wp (idle_reap cleanup) (reaping s t) s.
Proof.
  intros Hwf El [o Ho] Hirq. destruct (wf_home _ Hwf LDefunct t) as (th & Ht & Hst); [rewrite El; by left|].
  simpl in Hst. unfold idle_reap. wp_step. unfold RT_DEBUG_NOT_IN_INTERRUPT, rt_interrupt_get_nest.
  do 4 wp_step. apply wp_assert; [by rewrite Hirq|]. wp_step.
  apply wp_tlist_isempty. unfold l_isempty. rewrite El. cbv iota. wp_step. eapply wp_tlist_first; [done|].
  wp_step. unfold tlist_remove. wp_step. wp_step. eapply wp_get_thread; [done|]. wp_step.
  set (s1 := set_ks_lists _ s).
  assert (Hwf1 : wf s1) by (by eapply (wf_unlink s s1 Hwf t th Ht); [rewrite Hst|..]).
  eapply (wp_mono _ (λ _ s2, wf s2 ∧ ks_lists s2 = ks_lists s1 ∧ ks_threads s2 = ks_threads s1 ∧
    ks_objects s2 = ks_objects s1 ∧ ks_freed s2 = ks_freed s1 ∧ ks_interrupt_nest s2 = ks_interrupt_nest s1)).
  { destruct (th_cleanup th); [|by wp_step]. eapply wp_mono; [apply Hcl|]. auto. }
  intros ? s2 (Hwf2 & El2 & Et2 & Eo2 & Ef2 & Ei2). simpl in El2, Et2, Eo2, Ef2, Ei2.
  assert (Hd : l_get (ks_lists s2) LDefunct = filter (λ x, x ≠ t) (l_get (ks_lists s) LDefunct)).
  { rewrite El2. apply l_get_remove. }
  unfold rt_object_is_systemobject, get_object. do 4 wp_step. eapply wp_option; [by rewrite Eo2|]. wp_step.
  destruct (flag_test (o_type o) RT_Object_Class_Static) eqn:Es.
  - wp_step. split; try done. unfold is_static. by rewrite Ho.
  - wp_step. eapply wp_get_thread; [by rewrite Et2|]. unfold RT_KERNEL_FREE, rt_object_delete, get_object, olist_remove.
    do 6 wp_step. eapply wp_option; [simpl; by rewrite Eo2|]. wp_step. apply wp_assert; [by rewrite Es|].
    cbv beta. do 2 wp_step. unfold RT_KERNEL_FREE. do 2 wp_step. split; simpl; try done.
    + by eapply wf_ext, Hwf2.
    + unfold is_static. by rewrite Ho.
    + unfold stack_of. by rewrite Ht, Ef2.
Qed.

Lemma reap_ext s s' l : ks_objects s' = ks_objects s → reap s' l = reap s l.
Proof. intros E. induction l as [|t l IH]; simpl; [done|]. unfold is_static. by rewrite E, IH. Qed.

(** One call of the idle thread's reaper terminates and frees, for every defunct
    thread up to the first one that is statically allocated, its stack and its
    control block, once each and in the order of the list; the static thread is only
    unlinked and ends the call, so that the threads behind it stay on the list for a
    later call. *)
Theorem rt_thread_idle_excute_reaps fuel s l :
  wf s → l_get (ks_lists s) LDefunct = l → (length l ≤ fuel)%nat →
  (∀ t, t ∈ l → is_Some (ks_objects s !! OThread t)) → ks_interrupt_nest s = 0 →
  wp (rt_thread_idle_excute cleanup fuel) (λ _ s', wf s' ∧
    l_get (ks_lists s') LDefunct = (reap s l).2 ∧
    ks_freed s' = reverse (concat ((λ t, [stack_of s t; t]) <$> (reap s l).1)) ++ ks_freed s) s.
Proof.
  revert s l. induction fuel as [|fuel IH]; intros s l Hwf El Hf Ho Hirq; simpl; wp_step;
    apply wp_tlist_isempty; unfold l_isempty; rewrite El; destruct l as [|t l]; simpl in Hf; try lia.
  1,2: wp_step; by rewrite El.
  wp_step. eapply wp_mono; [eapply idle_reap_spec; try done; apply Ho; by left|].
  intros b s1 [Hwf1 El1 -> Et1 Eo1 Ei1 Ef1]. simpl.
  pose proof (ok_nodup _ (wf_lists _ Hwf) LDefunct) as Hnd. rewrite El in Hnd. apply NoDup_cons in Hnd as [Hnin _].
  rewrite El, filter_cons_False, filter_ne_notin in El1 by (done || naive_solver).
  destruct (is_static s t); [wp_step; by rewrite El1|].
  eapply wp_mono; [apply (IH s1 l); try done; [lia|intros u Hu; rewrite Eo1; apply Ho; by right|congruence]|].
  intros ? s2 (Hwf2 & El2 & Ef2). rewrite (reap_ext s s1) in El2, Ef2 by done. split_and!; [done|done|].
  rewrite Ef2, Ef1. simpl. rewrite !reverse_cons, <- !app_assoc. f_equal.
  - f_equal. f_equal. apply list_fmap_ext. intros. unfold stack_of. by rewrite Et1.
Qed.
End idle_facts.

(** ** The tick *)

(** Yielding, whatever the state of the running thread: only queues and the choice
    of the running thread can change. *)
Lemma yield_safe s t th :
  wf s → ks_current s = Some t → ks_threads s !! t = Some th →
  wp rt_thread_yield (λ _ s', wf s' ∧ is_Some (ks_current s') ∧ ks_threads s' = ks_threads s ∧
    ks_rows s' = ks_rows s ∧ ks_timers s' = ks_timers s ∧ ks_tick s' = ks_tick s) s.
Proof.
  intros Hwf Hc Ht. unfold rt_thread_yield. wp_step. eapply wp_self; [done|]. wp_step.
  eapply wp_get_thread; [done|]. wp_step. unfold tnode_shared. do 3 wp_step.
  set (b := existsb _ _). destruct (Z.eqb_spec (th_stat th) RT_THREAD_READY) as [Hst|Hst]; simpl.
  2:{ by wp_step. }
  destruct b; [|by wp_step].
  wp_step. unfold tlist_remove. wp_step. wp_step.
  apply wp_priority_table; [eapply wf_prio; [exact Hwf|done|by rewrite Hst]|]. wp_step.
  apply wp_tlist_link; [apply l_remove_unlinked|]. wp_step.
  set (s1 := set_ks_lists _ (set_ks_lists _ s)).
  assert (Hwf1 : wf s1) by (eapply wf_ext, (wf_requeue s t th Hwf Ht Hst); done).
  eapply wp_mono; [apply (schedule_ready_spec s1); [done|by exists t, th|by simpl; rewrite Hc]|].
  intros ? s2 ((c & p & ->) & Hc2 & _). wp_step. split_and!; try done. by eapply wf_ext, Hwf1.
Qed.

Lemma wf_remaining s t th v :
  wf s → ks_threads s !! t = Some th →
  wf (set_ks_threads (<[t := set_th_remaining_tick v th]> (ks_threads s)) s).
Proof.
  intros Hwf Ht. eapply (wf_thread_field s _ Hwf t th (set_th_remaining_tick v th)); try done.
  intros Hs. destruct (wf_prio _ Hwf _ _ Ht Hs). by split.
Qed.

Lemma checkable_ext b s s' :
  checkable b s → wf s' → is_Some (ks_current s') → ks_rows s' = ks_rows s →
  ks_timers s' = ks_timers s → ks_tick s' = ks_tick s → checkable b s'.
Proof.
  intros [_ _ Hn Hr] Hwf Hc E1 E2 E3. split; [done|done|by rewrite E3|].
  unfold row_ready in *. by rewrite E1, E2, E3.
Qed.

(** The tick handler [rt_tick_increase] returns, advances the tick by one with
    wrap-around, counts down the time slice of the running thread (a thread whose
    slice ends gets a new one and yields), keeps the kernel invariant, and leaves no
    timer that is due at the new tick. *)
Theorem rt_tick_increase_correct cb b fuel s t th :
  benign_callback cb → ks_current s = Some t → ks_threads s !! t = Some th →
  checkable b (set_ks_tick (u32 (ks_tick s + 1)) s) →
  (length (l_get (ks_rows s) HardRow) ≤ fuel)%nat →
  wp (rt_tick_increase cb fuel) (λ _ s', wf s' ∧ ks_tick s' = u32 (ks_tick s + 1) ∧
    row_sorted b (ks_timers s') (l_get (ks_rows s') HardRow) ∧
    ∀ i, i ∈ l_get (ks_rows s') HardRow → off b (ks_tick s') < dist b (ks_timers s') i) s.
Proof.
  intros Hcb Hc Ht Hck Hf. unfold rt_tick_increase. wp_step. wp_step. set (s1 := set_ks_tick _ s) in *.
  wp_step. eapply wp_self; [done|]. wp_step. eapply wp_upd_thread; [done|].
  set (th1 := set_th_remaining_tick _ th). set (s2 := set_ks_threads _ s1).
  assert (Hwf2 : wf s2) by (apply wf_remaining; [apply Hck|done]).
  wp_step. eapply wp_get_thread; [apply lookup_insert_eq|]. wp_step.
  eapply (wp_mono _ (λ _ s3, checkable b s3 ∧ ks_rows s3 = ks_rows s1 ∧ ks_tick s3 = ks_tick s1)).
  { unfold when. destruct (th_remaining_tick th1 =? 0).
    - wp_step. eapply wp_upd_thread; [apply lookup_insert_eq|]. wp_step.
      set (th2 := set_th_remaining_tick _ th1). set (s3 := set_ks_threads _ s2).
      assert (Hwf3 : wf s3) by (by apply wf_remaining; [|apply lookup_insert_eq]).
      eapply wp_mono; [apply (yield_safe s3 t th2); [done|done|apply lookup_insert_eq]|].
      intros ? s4 (Hwf4 & Hc4 & _ & Er4 & Em4 & Ek4). wp_step. split_and!; [|done|done].
      by eapply checkable_ext.
    - wp_step. split_and!; [|done|done]. by eapply (checkable_ext b s1). }
  intros ? s3 (Hck3 & Er3 & Et3). unfold rt_timer_check, rt_tick_get. do 4 wp_step.
  eapply wp_mono; [eapply (timer_check_loop_spec cb Hcb b); [done|]|].
  - etrans; [apply length_filter|]. by rewrite Er3.
  - intros ? s' (Hck' & Ht' & Hno). rewrite Et3 in Ht'. split_and!; [apply Hck'|done|apply Hck'|done].
Qed.
