(* ===== verification/ObjectFacts.v ===== *)
(** Kernel objects by name, and the initialisation of threads: what
    [rt-thread/src/object.c] promises of the containers (a registered object is
    found by its name) and what [rt_thread_init] leaves for
    [rt_thread_startup]. *)

From stdpp Require Import base gmap list fin_maps.
From Stdlib Require Import ZArith Lia.
From S2P Require Import Prelude IntrusiveList Ffs Kservice KState Object Sched Timer.
From S2P Require Import KInv SchedFacts TimerFacts TimerCheck Thread IpcFacts ThreadFacts.

Open Scope Z_scope.

(** ** Names *)

(** The bytes [rt_strncpy] makes of a name. *)
Definition stored (n : nat) (name : list Z) : list Z :=
  take n name ++ replicate (n - length name) 0.

Lemma nul_pad_replicate n dst :
  length dst = n → nul_pad dst n = Some (replicate n 0).
Proof. revert dst. induction n; intros [|d dst] [=]; simpl; [done|]. by rewrite IHn. Qed.

Lemma strncpy_stored n dst name :
  chars name → length dst = n → rt_strncpy dst (name ++ [0]) n = Some (stored n name).
Proof.
  unfold stored. intros Hn. revert n dst.
  induction Hn as [|c name Hc Hn IH]; intros [|n] [|d dst] [=]; simpl; [done| |done|].
  - by rewrite nul_pad_replicate.
  - rewrite (proj2 (Z.eqb_neq c 0)) by lia. by rewrite IH.
Qed.
Lemma strncpy_total n dst src :
  length dst = n → (n ≤ length src)%nat ∨ 0 ∈ src → is_Some (rt_strncpy dst src n).
Proof.
  revert dst src. induction n as [|n IH]; intros [|d dst] [|c src]; simpl; try done.
  - intros _ [?|?%not_elem_of_nil]; [lia|done].
  - intros [= Hd] Hs. destruct (Z.eqb_spec c 0) as [->|Hne]; [by rewrite nul_pad_replicate|].
    destruct (IH dst src Hd) as [r ->]; [|done].
    rewrite elem_of_cons in Hs. destruct Hs as [?|[?|?]]; [left; lia|done|by right].
Qed.

(** A comparison of at most [n] characters reads only the first [n] bytes. *)
Lemma strncmp_loop_take n v cs ct : rt_strncmp_loop v (take n cs) ct n = rt_strncmp_loop v cs ct n.
Proof.
  revert v cs ct. induction n as [|n IH]; intros v [|c cs] [|d ct]; try done. simpl. by rewrite IH.
Qed.
Lemma stored_take n name : stored n name = take n (name ++ 0 :: replicate n 0).
Proof.
  unfold stored. change (0 :: replicate n 0) with (replicate (S n) 0). rewrite take_app. f_equal.
  rewrite take_replicate. f_equal. lia.
Qed.
Lemma strncmp_stored n name other :
  chars name → chars other →
  ∃ v, rt_strncmp (stored n name) (other ++ [0]) n = Some v ∧ (v = 0 ↔ take n name = take n other).
Proof.
  intros Hn Ho. unfold rt_strncmp. rewrite stored_take, strncmp_loop_take.
  apply strncmp_chars; auto.
Qed.

(** ** Registering and finding objects *)

Definition named (s : kstate) (o : oid) (name : list Z) : Prop :=
  chars name ∧ ∃ x, ks_objects s !! o = Some x ∧ o_name x = stored RT_NAME_MAX name.

Lemma wp_get_object s o x (Q : rt_object → kstate → Prop) :
  ks_objects s !! o = Some x → Q x s → wp (get_object o) Q s.
Proof. intros Hx HQ. unfold get_object. wp_step. wp_step. by eapply wp_option. Qed.

Lemma object_init_spec s o c name bytes (Q : unit → kstate → Prop) :
  (∀ k, o ∉ l_get (ks_containers s) k) →
  rt_strncpy (replicate RT_NAME_MAX 0) (name ++ [0]) RT_NAME_MAX = Some bytes →
  Q tt (set_ks_containers (l_insert_after (class_index c) o (ks_containers s))
     (set_ks_objects (<[o := mk_object bytes (Z.lor (class_index c) RT_Object_Class_Static)]> (ks_objects s)) s)) →
  wp (rt_object_init o c name) Q s.
Proof.
  intros Hun Hb HQ. unfold rt_object_init, object_name, put_object, olist_insert_after.
  wp_step. eapply wp_option; [exact Hb|]. wp_step. wp_step. wp_step. wp_step. simpl.
  rewrite (proj2 (l_linked_false _ _)) by done. by wp_step.
Qed.

(** What a look-up among the objects [l] must return. *)
Definition found (names : oid → list Z) (l : list oid) (name : list Z) (r : option oid) : Prop :=
  match r with
  | Some o => ∃ l1 l2, l = l1 ++ o :: l2 ∧ take RT_NAME_MAX (names o) = take RT_NAME_MAX name ∧
      Forall (λ o', take RT_NAME_MAX (names o') ≠ take RT_NAME_MAX name) l1
  | None => Forall (λ o, take RT_NAME_MAX (names o) ≠ take RT_NAME_MAX name) l
  end.

(** The scan returns the first object whose name agrees. *)
Lemma object_scan_spec s (names : oid → list Z) l name :
  chars name → (∀ o, o ∈ l → named s o (names o)) →
  wp (object_scan l name) (λ r s', s' = s ∧ found names l name r) s.
Proof.
  intros Hn. induction l as [|o l IH]; intros Hl; simpl; [wp_step; split; [done|by constructor]|].
  destruct (Hl o ltac:(set_solver)) as [Hc (x & Hx & Ex)].
  wp_step. eapply wp_get_object; [done|]. wp_step.
  destruct (strncmp_stored RT_NAME_MAX (names o) name Hc Hn) as (v & Hv & Hv0).
  eapply wp_option; [by rewrite Ex|]. destruct (Z.eqb_spec v 0) as [E|E].
  - wp_step. split; [done|]. exists [], l. split_and!; [done|by apply Hv0|done].
  - eapply wp_mono; [apply IH; set_solver|]. intros [o'|] s' [-> H]; (split; [done|]).
    + destruct H as (l1 & l2 & -> & H1 & H2). exists (o :: l1), l2.
      split_and!; [done|done|]. constructor; [naive_solver|done].
    + constructor; [naive_solver|done].
Qed.

(** A thread runs with the scheduler unlocked or locked, not in an interrupt. *)
Record thread_context (s : kstate) : Prop := {
  tc_wf : wf s;
  tc_ready : some_ready s;
  tc_current : is_Some (ks_current s);
  tc_lock : 0 ≤ ks_lock_nest s < 2 ^ 15 - 1;
  tc_irq : ks_interrupt_nest s = 0;
}.

(** [rt_object_find] returns the object registered last among those of the
    class whose first [RT_NAME_MAX] characters agree with the name, and
    [RT_NULL] when there is none; it leaves the scheduler lock as it was.  A null
    name and a class above [RT_Object_Class_Unknown] are refused.  The class
    [RT_Object_Class_Unknown] itself passes the check and indexes one past the end
    of the container array. *)
Theorem rt_object_find_correct s names name type :
  thread_context s → chars name → 0 ≤ type →
  (∀ o, o ∈ l_get (ks_containers s) type → named s o (names o)) →
  (type < RT_Object_Class_Unknown →
   wp (rt_object_find (Some name) type) (λ r s', wf s' ∧ ks_lock_nest s' = ks_lock_nest s ∧
     ks_objects s' = ks_objects s ∧ ks_containers s' = ks_containers s ∧
     found names (l_get (ks_containers s) type) name r) s) ∧
  (RT_Object_Class_Unknown < type → rt_object_find (Some name) type s = Done None s) ∧
  rt_object_find None type s = Done None s ∧
  rt_object_find (Some name) RT_Object_Class_Unknown s = Fault BadPointer.
Proof.
  intros [Hwf Hr Hc Hl Hi] Hn H0 Hnm. split_and!.
  - intros Ht. unfold rt_object_find. rewrite Z.gtb_ltb, (proj2 (Z.ltb_ge _ _)) by lia.
    unfold RT_DEBUG_NOT_IN_INTERRUPT, rt_interrupt_get_nest.
    do 5 wp_step. wp_step; [by apply Z.eqb_eq|]. wp_step. apply wp_enter_critical; [done|].
    wp_step. unfold container_at. rewrite (proj2 (Z.leb_le 0 type)), (proj2 (Z.ltb_lt _ _)) by done.
    cbn [andb]. wp_step. wp_step. wp_step. wp_step. eapply wp_mono; [by apply object_scan_spec|].
    intros r ? [-> Hf]. wp_step.
    eapply wp_mono; [apply (exit_critical_spec (ks_lock_nest s)); try done; by eapply wf_ext, Hwf|].
    intros _ s' (Hwf' & El & Hcase). wp_step. destruct (ks_lock_nest s =? 0).
    + destruct Hcase as [(? & ? & ->) _]. by destruct r.
    + subst s'. by destruct r.
  - intros Ht. unfold rt_object_find. by rewrite Z.gtb_ltb, (proj2 (Z.ltb_lt _ _)).
  - done.
  - unfold rt_object_find, RT_DEBUG_NOT_IN_INTERRUPT, rt_interrupt_get_nest, mbind, SM_bind, get, mret, SM_ret.
    simpl. unfold mbind, SM_bind. rewrite Hi. done.
Qed.

(** ** Initialising a thread *)

(** A control block that no list of the kernel leads to. *)
Record unregistered (s : kstate) (t : Z) : Prop := {
  ur_lists h : t ∉ l_get (ks_lists s) h;
  ur_rows r : TThread t ∉ l_get (ks_rows s) r;
  ur_thread k : OThread t ∉ l_get (ks_containers s) k;
  ur_timer k : OTimer (TThread t) ∉ l_get (ks_containers s) k;
}.

Lemma wf_new_thread s s' t th tm :
  wf s → unregistered s t → th_stat th = RT_THREAD_INIT →
  ks_threads s' = <[t := th]> (ks_threads s) → ks_timers s' = <[TThread t := tm]> (ks_timers s) →
  ks_lists s' = ks_lists s → ks_rows s' = ks_rows s → ks_group s' = ks_group s → wf s'.
Proof.
  intros Hwf [Hl Hr _ _] Hi E1 E2 E3 E4 E5. split; rewrite ?E1, ?E2, ?E3, ?E4, ?E5; try apply Hwf.
  - intros h x Hin. rewrite lookup_insert_ne; [by apply (wf_home _ Hwf)|]. intros <-. by eapply Hl.
  - intros x thx. rewrite lookup_insert. case_decide; [intros [= <-]; by rewrite Hi|apply (wf_ready _ Hwf)].
  - intros x thx. rewrite lookup_insert. case_decide; [by intros [= <-]|apply (wf_prio _ Hwf)].
  - intros r i Hin. rewrite lookup_insert_ne; [by apply (wf_row _ Hwf)|]. intros <-. by eapply Hr.
  - intros x thx. rewrite lookup_insert. case_decide; [by intros [= <-]|].
    rewrite lookup_insert_ne by congruence. apply (wf_timer _ Hwf).
  - intros x r Hin. destruct (decide (t = x)) as [<-|Hne]; [by destruct (Hr r)|].
    rewrite !lookup_insert_ne by congruence. by apply (wf_armed _ Hwf _ r).
Qed.

(** What [rt_thread_init] leaves. *)
Record thread_initialised (s : kstate) (t prio tick : Z) (name : list Z) (s' : kstate) : Prop := {
  ti_wf : wf s';
  ti_fresh : ∃ th, fresh_thread s' t th ∧ th_init_priority th = prio ∧ th_init_tick th = tick ∧
    th_remaining_tick th = tick ∧ th_error th = RT_EOK ∧ th_cleanup th = None;
  ti_others x : x ≠ t → ks_threads s' !! x = ks_threads s !! x;
  ti_named : named s' (OThread t) name;
  ti_front : l_get (ks_containers s') (class_index ClassThread) =
    OThread t :: l_get (ks_containers s) (class_index ClassThread);
  ti_lists : ks_lists s' = ks_lists s;
  ti_lock : ks_lock_nest s' = ks_lock_nest s;
  ti_current : ks_current s' = ks_current s;
}.

Lemma timer_flag_zero t :
  thread_timer_ok t (mk_timer (Z.land (u8 0) (Z.lnot RT_TIMER_FLAG_ACTIVATED)) FThreadTimeout t (u32 0) 0).
Proof. by split. Qed.

Lemma thread_init_spec s t name entry parameter st sz prio tick :
  wf s → unregistered s t → chars name → 0 ≤ prio < RT_THREAD_PRIORITY_MAX →
  wp (rt_thread_init t name entry parameter st sz prio tick)
    (λ r s', r = RT_EOK ∧ thread_initialised s t prio tick name s') s.
Proof.
  intros Hwf Hur Hn Hp. pose proof Hur as [Hl Hr Hot Htm].
  unfold rt_thread_init. wp_step.
  eapply object_init_spec; [done|by apply strncpy_stored|].
  set (x := mk_object _ _). unfold thread_init_fields, tnode_init. wp_step. wp_step. wp_step.
  simpl. rewrite (proj2 (l_linked_false _ _)) by done. wp_step. wp_step. wp_step. wp_step.
  apply wp_assert; [apply Z.ltb_lt; lia|]. unfold put_thread. wp_step. wp_step. wp_step.
  eapply wp_get_object; [apply lookup_insert_eq|]. wp_step. unfold rt_timer_init. wp_step.
  destruct (strncpy_total RT_NAME_MAX (replicate RT_NAME_MAX 0) (o_name x ++ [0])) as [bytes Hb];
    [done|right; set_solver|].
  eapply object_init_spec; [|exact Hb|].
  { intros k. simpl. rewrite l_get_insert_after. case_decide; [|done]. set_solver. }
  unfold timer_init_fields, row_init, put_timer. wp_step. wp_step. wp_step. wp_step. simpl.
  rewrite (proj2 (l_linked_false _ _)) by done. wp_step. wp_step. split; [done|].
  set (th := thread_fields _ _ _ _ _ _ _). split; simpl; try done.
  - eapply wf_new_thread; [exact Hwf|done| |done..]. done.
  - exists th. split_and!; try done. split; simpl; [by rewrite lookup_insert_eq|done|done|].
    eexists. split; [apply lookup_insert_eq|apply timer_flag_zero].
  - intros y Hy. by rewrite lookup_insert_ne.
  - split; [done|]. exists x. simpl. rewrite lookup_insert_ne, lookup_insert_eq by done. done.
  - by rewrite !l_get_insert_after.
Qed.

(** The thread found by the name it was just given: it is the first of its
    container. *)
Lemma thread_find_front s t name l :
  thread_context s → named s (OThread t) name →
  l_get (ks_containers s) (class_index ClassThread) = OThread t :: l →
  wp (rt_thread_find name) (λ r _, r = Some t) s.
Proof.
  intros [Hwf Hr [c Hc] Hl _] [Hn (x & Hx & Ex)] El. unfold rt_thread_find, rt_thread_self.
  wp_step. wp_step. wp_step. wp_step. wp_step. rewrite Hc, bool_decide_true by done. simpl.
  apply wp_enter_critical; [done|]. wp_step. wp_step. wp_step. change (ks_containers (set_ks_lock_nest _ s)) with (ks_containers s). simpl in El. rewrite El.
  cbn [object_scan]. wp_step.
  eapply wp_get_object; [done|]. wp_step. destruct (strncmp_stored RT_NAME_MAX name name Hn Hn) as (v & Hv & Hv0).
  eapply wp_option; [by rewrite Ex|]. rewrite (proj2 (Z.eqb_eq v 0)) by naive_solver. wp_step.
  wp_step. wp_step. wp_step. wp_step. wp_step. simpl. rewrite Hc, bool_decide_true by done. simpl.
  eapply wp_mono; [apply (exit_critical_spec (ks_lock_nest s)); try done; by eapply wf_ext, Hwf|].
  intros _ s' _. by wp_step.
Qed.

(** [rt_thread_init] on a control block that no kernel list leads to leaves a
    thread that [rt_thread_startup] can start: initialised with the given priority
    and time slice, no error and a stopped one-shot timer of its own; the other
    threads and all thread lists are as before and the kernel invariant holds.
    The thread can then be found by its name. *)
Theorem rt_thread_init_correct s t name entry parameter st sz prio tick :
  wf s → unregistered s t → chars name → 0 ≤ prio < RT_THREAD_PRIORITY_MAX →
  wp (rt_thread_init t name entry parameter st sz prio tick)
    (λ r s', r = RT_EOK ∧ thread_initialised s t prio tick name s' ∧
      (thread_context s' → wp (rt_thread_find name) (λ r _, r = Some t) s')) s.
Proof.
  intros Hwf Hur Hn Hp. eapply wp_mono; [by apply thread_init_spec|]. intros r s' [-> Hti].
  split_and!; [done|done|]. intros Hctx. eapply thread_find_front; [done|apply Hti|apply Hti].
Qed.
