(* ===== verification/FreeRtos.v ===== *)
(** The FreeRTOS interface of the port, [esp-idf-port/stubs/libcpu.c]: tasks, queues, semaphores,
    timers and event groups of FreeRTOS as threads, mailboxes of [Fmq], semaphores, mutexes,
    timers and events of the kernel.

    A queue handle is the address of a kernel object, whose class decides what a call does. *)

From stdpp Require Import base gmap list fin_maps strings.
From Stdlib Require Import ZArith Lia.
From S2P Require Import Prelude IntrusiveList Ffs Kservice KState Object Sched Timer KInv SchedFacts.
From S2P Require Import TimerFacts Thread Ipc IpcFacts Sem Mutex Event Ring Mailbox ObjectFacts Fmq.

Open Scope Z_scope.

(** What the port calls in ESP-IDF: the locks of both processors, the hook of the tick, the
    start of the processor's scheduler. *)
Class esp_idf := {
  vPortCPUAcquireMutex : Z → F unit;
  vPortCPUReleaseMutex : Z → F unit;
  esp_vApplicationTickHook : F unit;
  xPortStartScheduler : F unit
}.

(** * Names and handles *)

(** [sprintf(name, "xyz%02d", n % 100)]. *)
Definition numbered (prefix : string) (n : Z) : list Z :=
  ((λ c, Z.of_nat (Ascii.nat_of_ascii c)) <$> String.list_ascii_of_string prefix) ++
  [48 + (n mod 100) / 10; 48 + (n mod 100) mod 10].
(** [++index] of an unsigned short. *)
Definition next_index (get_index : rtos → Z) (set_index : Z → rtos → rtos) : F Z :=
  s ← get;
  let n := u16 (get_index (l_own s) + 1) in
  modify (λ s, Layer (l_kernel s) (set_index n (l_own s)));;
  mret n.
Definition set_mq_index (v : Z) (p : rtos) : rtos := let '(Rtos q _ ms mx mr tm ev r) := p in Rtos q v ms mx mr tm ev r.
Definition set_ms_index (v : Z) (p : rtos) : rtos := let '(Rtos q mq _ mx mr tm ev r) := p in Rtos q mq v mx mr tm ev r.
Definition set_mx_index (v : Z) (p : rtos) : rtos := let '(Rtos q mq ms _ mr tm ev r) := p in Rtos q mq ms v mr tm ev r.
Definition set_mr_index (v : Z) (p : rtos) : rtos := let '(Rtos q mq ms mx _ tm ev r) := p in Rtos q mq ms mx v tm ev r.
Definition set_tm_index (v : Z) (p : rtos) : rtos := let '(Rtos q mq ms mx mr _ ev r) := p in Rtos q mq ms mx mr v ev r.
Definition set_ev_index (v : Z) (p : rtos) : rtos := let '(Rtos q mq ms mx mr tm _ r) := p in Rtos q mq ms mx mr tm v r.
Definition set_running (v : bool) (p : rtos) : rtos := let '(Rtos q mq ms mx mr tm ev _) := p in Rtos q mq ms mx mr tm ev v.

(** The object that a queue handle points to, and [obj->type]. *)
Definition handle_object (a : Z) : K oid :=
  s ← get; of_option BadPointer (List.find (l_linked (ks_containers s)) [OSem a; OMutex a; OMailBox a]).
Definition obj_type (a : Z) : K Z := o ← handle_object a; x ← get_object o; mret (o_type x).
Definition is_class (ty : Z) (c : object_class) : bool := ty =? class_index c.

(** What a call that waits goes on with. *)
Inductive queue_wait := SemWait | MutexWait | QueueWait (w : Z * Z).

Section freertos.
Context `{!freertos, !esp_idf}.

(** * Queues, semaphores and mutexes *)

(** [block] is the memory of the object, [pool] that of the items. *)
Definition xQueueGenericCreate (block : option Z) (pool : option (Z * list Z))
    (uxQueueLength uxItemSize ucQueueType : Z) : F (option Z) :=
  if (uxItemSize =? 0) || (uxQueueLength =? 0) then
    if (ucQueueType =? queueQUEUE_TYPE_MUTEX) || (ucQueueType =? queueQUEUE_TYPE_RECURSIVE_MUTEX) then
      if ucQueueType =? queueQUEUE_TYPE_MUTEX then
        n ← next_index mx_index set_mx_index; kern (rt_sem_create block (numbered "mux" n) 1 RT_IPC_FLAG_PRIO)
      else
        n ← next_index mr_index set_mr_index; kern (rt_mutex_create block (numbered "rmx" n) RT_IPC_FLAG_PRIO)
    else
      n ← next_index ms_index set_ms_index; kern (rt_sem_create block (numbered "sem" n) 0 RT_IPC_FLAG_PRIO)
  else
    n ← next_index mq_index set_mq_index;
    rt_fmq_create block pool (numbered "fmq" n) uxItemSize uxQueueLength RT_IPC_FLAG_PRIO.
Definition vQueueDelete (a : Z) : F unit :=
  ty ← kern (obj_type a);
  _ ← (if is_class ty ClassSemaphore then kern (rt_sem_delete a)
       else if is_class ty ClassMutex then kern (rt_mutex_delete a)
       else rt_fmq_delete a);
  mret tt.

Definition send_result (err : Z) : Z := if err =? RT_EOK then pdPASS else errQUEUE_FULL.
Definition recv_result (err : Z) : Z := if err =? RT_EOK then pdPASS else errQUEUE_EMPTY.

Definition xQueueGenericSend (a : Z) (item : list Z) (xTicksToWait xCopyPosition : Z) : F (call Z queue_wait) :=
  ty ← kern (obj_type a);
  if is_class ty ClassSemaphore then err ← kern (rt_sem_release a); mret (Return (send_result err))
  else if is_class ty ClassMutex then err ← kern (rt_mutex_release a); mret (Return (send_result err))
  else
    r ← rt_fmq_send a item xCopyPosition (i32 xTicksToWait);
    match r with Return err => mret (Return (send_result err)) | Wait w => mret (Wait (QueueWait w)) end.
Definition xQueueGenericSend_resumed (t a : Z) (item : list Z) (xCopyPosition : Z) (w : Z * Z) : F (call Z queue_wait) :=
  r ← rt_fmq_send_resumed t a item xCopyPosition w;
  match r with Return err => mret (Return (send_result err)) | Wait w => mret (Wait (QueueWait w)) end.

(** Without a timeout no call waits. *)
Definition xQueueGenericSendFromISR (a : Z) (item : list Z) (xCopyPosition : Z) : F Z :=
  kern rt_interrupt_enter;;
  ty ← kern (obj_type a);
  err ← (if is_class ty ClassSemaphore then kern (rt_sem_release a)
         else r ← rt_fmq_send a item xCopyPosition 0;
              match r with Return err => mret err | Wait _ => fail Undefined end);
  kern rt_interrupt_leave;;
  mret (send_result err).

(** [None] is an item that was not stored; semaphores and mutexes have none. *)
Definition xQueueGenericReceive (a xTicksToWait xJustPeeking : Z) : F (call (Z * option (list Z)) queue_wait) :=
  ty ← kern (obj_type a);
  let timeout := if xTicksToWait =? portMAX_DELAY then -1 else i32 xTicksToWait in
  if is_class ty ClassSemaphore then
    r ← kern (rt_sem_take a timeout);
    match r with Return err => mret (Return (recv_result err, None)) | Wait _ => mret (Wait SemWait) end
  else if is_class ty ClassMutex then
    r ← kern (rt_mutex_take a timeout);
    match r with Return err => mret (Return (recv_result err, None)) | Wait _ => mret (Wait MutexWait) end
  else
    r ← rt_fmq_recv a xJustPeeking timeout;
    match r with Return (err, v) => mret (Return (recv_result err, v)) | Wait w => mret (Wait (QueueWait w)) end.
Definition xQueueGenericReceive_resumed (t a xJustPeeking : Z) (w : queue_wait) : F (call (Z * option (list Z)) queue_wait) :=
  match w with
  | SemWait => err ← kern (rt_sem_take_resumed t); mret (Return (recv_result err, None))
  | MutexWait => err ← kern (rt_mutex_take_resumed t); mret (Return (recv_result err, None))
  | QueueWait w =>
    r ← rt_fmq_recv_resumed t a xJustPeeking w;
    match r with Return (err, v) => mret (Return (recv_result err, v)) | Wait w => mret (Wait (QueueWait w)) end
  end.
Definition xQueueReceiveFromISR (a : Z) : F (Z * option (list Z)) :=
  kern rt_interrupt_enter;;
  ty ← kern (obj_type a);
  r ← (if is_class ty ClassSemaphore then
         r ← kern (rt_sem_take a 0); match r with Return err => mret (err, None) | Wait _ => fail Undefined end
       else
         r ← rt_fmq_recv a pdFALSE 0; match r with Return r => mret r | Wait _ => fail Undefined end);
  kern rt_interrupt_leave;;
  mret (recv_result r.1, r.2).

Definition uxQueueMessagesWaiting (a : Z) : F Z :=
  ty ← kern (obj_type a);
  if is_class ty ClassSemaphore then x ← kern (get_sem a); mret (sem_value x)
  else if is_class ty ClassMutex then x ← kern (get_mutex a); mret (mtx_value x)
  else x ← kern (get_mailbox a); mret (mb_entry x).
Definition xQueueCreateMutex (block : option Z) (ucQueueType : Z) : F (option Z) := xQueueGenericCreate block None 1 0 ucQueueType.
Definition xQueueTakeMutexRecursive (a xTicksToWait : Z) : F (call (Z * option (list Z)) queue_wait) :=
  xQueueGenericReceive a xTicksToWait pdFALSE.
Definition xQueueGiveMutexRecursive (a : Z) : F (call Z queue_wait) := xQueueGenericSend a [] 0 queueSEND_TO_BACK.
Definition xQueueGiveFromISR (a : Z) : F Z := xQueueGenericSendFromISR a [] queueSEND_TO_BACK.
Definition xQueueGetMutexHolder (a : Z) : F (option Z) := mret None.
Definition xQueueGenericReset (a xNewQueue : Z) : F Z := mret pdPASS.
Definition xQueueIsQueueFullFromISR (a : Z) : F Z :=
  ty ← kern (obj_type a);
  if is_class ty ClassMailBox then
    x ← kern (get_mailbox a); mret (if mb_entry x =? mb_size x then pdTRUE else pdFALSE)
  else mret pdFALSE.
Definition uxQueueSpacesAvailable (a : Z) : F Z :=
  ty ← kern (obj_type a);
  if is_class ty ClassMailBox then x ← kern (get_mailbox a); mret (u32 (mb_size x - mb_entry x))
  else mret 0.

(** * Tasks *)

(** [block] and [stack] are the allocations of [rt_thread_create]; the result and the task. *)
Definition xTaskCreatePinnedToCore (block stack : option Z) (pxTaskCode : Z) (pcName : list Z)
    (usStackDepth pvParameters uxPriority : Z) : F (Z * option Z) :=
  let uxPriority := Z.land uxPriority (Z.lnot portPRIVILEGE_BIT) in
  let uxPriority := u32 (RT_THREAD_PRIORITY_MAX - 5 - uxPriority) in
  let usStackDepthC := u32 (usStackDepth * sizeof_StackType_t) in
  thread ← kern (rt_thread_create block stack pcName pxTaskCode pvParameters usStackDepthC (u8 uxPriority) 10);
  match thread with
  | Some t => _ ← kern (rt_thread_startup t); mret (pdPASS, thread)
  | None => mret (errCOULD_NOT_ALLOCATE_REQUIRED_MEMORY, None)
  end.
Definition vTaskDelete (xTaskToDelete : option Z) : F unit :=
  t ← (match xTaskToDelete with Some t => mret t | None => kern self end);
  _ ← kern (rt_thread_delete t); kern rt_schedule.
Definition running_scheduler : F bool := s ← get; mret (xSchedulerRunning (l_own s)).
Definition xTaskGetSchedulerState : F Z :=
  r ← running_scheduler;
  if (r : bool) then
    l ← kern rt_critical_level; mret (if l =? 0 then taskSCHEDULER_RUNNING else taskSCHEDULER_SUSPENDED)
  else mret taskSCHEDULER_NOT_STARTED.
Definition vTaskEnterCritical (mux : Z) : F unit :=
  vPortCPUAcquireMutex mux;; r ← running_scheduler; when r (kern rt_enter_critical).
Definition vTaskExitCritical (mux : Z) : F unit :=
  vPortCPUReleaseMutex mux;; r ← running_scheduler; when r (kern rt_exit_critical).
Definition vTaskSuspendAll : F unit := r ← running_scheduler; when r (kern rt_enter_critical).
Definition xTaskResumeAll : F Z := (r ← running_scheduler; when r (kern rt_exit_critical));; mret pdTRUE.
(** [user_timeout] are the timeout functions, [fuel] bounds the timers that expire. *)
Definition xTaskIncrementTick (user_timeout : Z → Z → K unit) (fuel : nat) : F Z :=
  esp_vApplicationTickHook;;
  kern (rt_interrupt_enter;; rt_tick_increase user_timeout fuel;; rt_interrupt_leave);;
  mret pdFALSE.
Definition xTaskGetTickCount : F Z := kern rt_tick_get.
Definition vTaskStartScheduler : F unit :=
  kern rt_system_scheduler_start;;
  modify (λ s, Layer (l_kernel s) (set_running true (l_own s)));;
  xPortStartScheduler.
Definition vTaskDelay (xTicksToDelay : Z) : F unit := kern (rt_thread_delay xTicksToDelay).
Definition xTaskGetCurrentTaskHandle : F (option Z) := kern rt_thread_self.
Definition pcTaskGetTaskName (t : Z) : F (list Z) := x ← kern (get_object (OThread t)); mret (o_name x).

(** * Timers and event groups *)

(** [None] for the name is the null pointer. *)
Definition xTimerCreate (block : option Z) (pcTimerName : option (list Z))
    (xTimerPeriodInTicks uxAutoReload pvTimerID pxCallbackFunction : Z) : F (option Z) :=
  name ← (match pcTimerName with
          | Some name => mret name
          | None => n ← next_index tm_index set_tm_index; mret (numbered "tim" n)
          end);
  if 0 <? xTimerPeriodInTicks then
    kern (rt_timer_create block name (FUser pxCallbackFunction) pvTimerID xTimerPeriodInTicks
      (if uxAutoReload =? pdTRUE then RT_TIMER_FLAG_PERIODIC else 0))
  else mret None.
(** [woken] tells whether the call comes from an interrupt. *)
Definition xTimerGenericCommand (xTimer xCommandID xOptionalValue : Z) (woken : bool) : F Z :=
  when woken (kern rt_interrupt_enter);;
  err ← (if xCommandID =? tmrCOMMAND_START then kern (rt_timer_start (TUser xTimer))
         else if xCommandID =? tmrCOMMAND_STOP then kern (rt_timer_stop (TUser xTimer))
         else if xCommandID =? tmrCOMMAND_CHANGE_PERIOD then
           r ← kern (rt_timer_control (TUser xTimer) (TimerSetTime xOptionalValue)); mret r.1
         else if xCommandID =? tmrCOMMAND_DELETE then kern (rt_timer_delete xTimer)
         else mret RT_EOK);
  when woken (kern rt_interrupt_leave);;
  mret (if err =? RT_EOK then pdPASS else pdFAIL).

Definition xEventGroupCreate (block : option Z) : F (option Z) :=
  n ← next_index ev_index set_ev_index; kern (rt_event_create block (numbered "evt" n) RT_IPC_FLAG_PRIO).
Definition vEventGroupDelete (a : Z) : F unit := _ ← kern (rt_event_delete a); mret tt.
Definition xEventGroupSetBits (a uxBitsToSet : Z) : F Z :=
  err ← kern (rt_event_send a uxBitsToSet);
  if negb (err =? RT_EOK) then mret 0 else x ← kern (get_event a); mret (evt_set x).
(** [recved] is 0 unless it is stored. *)
Definition event_result (r : Z * option Z) : Z := if negb (r.1 =? RT_EOK) then 0 else default 0 r.2.
Definition xEventGroupClearBits (a uxBitsToClear : Z) : F (call Z unit) :=
  r ← kern (rt_event_recv a uxBitsToClear (Z.lor RT_EVENT_FLAG_OR RT_EVENT_FLAG_CLEAR) 0);
  match r with Return r => mret (Return (event_result r)) | Wait w => mret (Wait w) end.
Definition xEventGroupWaitBits (a uxBitsToWaitFor xClearOnExit xWaitForAllBits xTicksToWait : Z) : F (call Z unit) :=
  let option := Z.lor (if xClearOnExit =? pdTRUE then RT_EVENT_FLAG_CLEAR else 0)
                      (if xWaitForAllBits =? pdTRUE then RT_EVENT_FLAG_AND else RT_EVENT_FLAG_OR) in
  r ← kern (rt_event_recv a uxBitsToWaitFor option (i32 xTicksToWait));
  match r with Return r => mret (Return (event_result r)) | Wait w => mret (Wait w) end.
Definition xEventGroupWaitBits_resumed (t : Z) : F Z := r ← kern (rt_event_recv_resumed t); mret (event_result r).
End freertos.

(** * A queue from its creation to its last item *)

(** A registered queue that no task waits for. *)
Record idle_queue (k : kstate) (p : rtos) (a : Z) (x : rt_mailbox) (q : fmq) : Prop := {
  iq_wf : wf k;
  iq_current : is_Some (ks_current k);
  iq_handle : List.find (l_linked (ks_containers k)) [OSem a; OMutex a; OMailBox a] = Some (OMailBox a);
  iq_class : ∃ o, ks_objects k !! OMailBox a = Some o ∧ o_type o = class_index ClassMailBox;
  iq_mailbox : ks_mailboxes k !! a = Some x;
  iq_pool : fr_queues p !! a = Some q;
  iq_ok : fmq_ok x q;
  iq_receivers : l_get (ks_lists k) (LMbRecv a) = [];
  iq_senders : l_get (ks_lists k) (LMbSend a) = []
}.

Section idle.
Context `{!freertos, !esp_idf}.

Lemma obj_type_mailbox k p a x q (Q : Z → kstate → Prop) :
  idle_queue k p a x q → Q (class_index ClassMailBox) k → wp (obj_type a) Q k.
Proof.
  intros Hi HQ. destruct (iq_class _ _ _ _ _ Hi) as (o & Ho & Et).
  unfold obj_type, handle_object. wp_step. wp_step. eapply wp_option; [apply Hi|].
  wp_step. eapply wp_get_object; [done|]. wp_step. by rewrite Et.
Qed.

(** The other effects of a call on the queue do not matter to [idle_queue]. *)
Lemma idle_queue_change k p a x q k' p' x' q' :
  idle_queue k p a x q → wf k' → is_Some (ks_current k') → same_objects k k' → ks_lists k' = ks_lists k →
  ks_mailboxes k' !! a = Some x' → fr_queues p' !! a = Some q' → fmq_ok x' q' → idle_queue k' p' a x' q'.
Proof. intros [] Hwf Hc [E1 E2] El Hx Hq Hok. by constructor; rewrite ?E1, ?E2, ?El. Qed.

(** The item that arrives when [v] is sent, and the calls that send and receive several. *)
Definition item_of (q : fmq) (v : list Z) : list Z := take (Z.to_nat (fq_item q)) v.
Fixpoint send_all (a ticks : Z) (vs : list (list Z)) : F (list (call Z queue_wait)) :=
  match vs with
  | [] => mret []
  | v :: vs => r ← xQueueGenericSend a v ticks queueSEND_TO_BACK; rs ← send_all a ticks vs; mret (r :: rs)
  end.
Fixpoint receive_all (a ticks : Z) (n : nat) : F (list (call (Z * option (list Z)) queue_wait)) :=
  match n with
  | O => mret []
  | S n => r ← xQueueGenericReceive a ticks pdFALSE; rs ← receive_all a ticks n; mret (r :: rs)
  end.

Lemma put_block_sizes v pos x q :
  mb_size (put_block v pos x q).1 = mb_size x ∧ fq_item (put_block v pos x q).2 = fq_item q.
Proof. unfold put_block. simpl. by destruct ((mb_entry x =? 0) || _), (pos =? queueOVERWRITE). Qed.

Section spec.
Context (Hpos : queueSEND_TO_BACK ≠ queueOVERWRITE).

Lemma idle_send k p a x q v ticks :
  idle_queue k p a x q → mb_entry x < mb_size x → fq_item q ≤ Z.of_nat (length v) →
  wp (xQueueGenericSend a v ticks queueSEND_TO_BACK) (λ r s, r = Return pdPASS ∧ ∃ x' q', idle_queue (l_kernel s) (l_own s) a x' q' ∧
    mb_size x' = mb_size x ∧ fq_item q' = fq_item q ∧ fmq_items x' q' = fmq_items x q ++ [item_of q v]) (Layer k p).
Proof.
  intros Hi He Hv. pose proof (iq_ok _ _ _ _ _ Hi) as Hok.
  assert (Hf : fmq_full x queueSEND_TO_BACK = false) by (unfold fmq_full; by rewrite (proj2 (Z.eqb_neq (mb_entry x) _)) by lia).
  unfold xQueueGenericSend. wp_step. apply wp_kern. eapply obj_type_mailbox; [done|]. simpl is_class. cbv iota.
  unfold rt_fmq_send, fmq_send_loop. wp_step. wp_step. apply wp_kern. eapply wp_get_mailbox; [apply Hi|]. rewrite Hf. simpl andb. cbv iota.
  wp_step. apply wp_kern. eapply wp_get_mailbox; [apply Hi|]. rewrite Hf. wp_step.
  eapply wp_mono; [by eapply fmq_put_spec; [apply Hi..| |]|].
  intros ? s' (-> & Hwf & Hc & Em & Eo & Hwk & Hs). pose proof (put_block_spec Hpos v queueSEND_TO_BACK x q Hok Hf Hv) as Hb.
  destruct (put_block_sizes v queueSEND_TO_BACK x q) as [Es Eq].
  destruct (put_block v queueSEND_TO_BACK x q) as [x' q']. destruct Hb as [Hok' Hit]. simpl in Em, Eo.
  unfold woke in Hwk. rewrite (iq_receivers _ _ _ _ _ Hi) in Hwk. destruct Hwk as (_ & _ & El).
  wp_step. wp_step. split; [done|]. exists x', q'. split_and!.
  - eapply idle_queue_change; [exact Hi|done..|by rewrite Em; apply lookup_insert_eq|by rewrite Eo, set_queue_queues; apply lookup_insert_eq|done].
  - done.
  - done.
  - rewrite Hit. unfold queued. by rewrite Z.eqb_refl, orb_true_r.
Qed.

Lemma idle_receive k p a x q v l ticks :
  idle_queue k p a x q → fmq_items x q = v :: l →
  wp (xQueueGenericReceive a ticks pdFALSE) (λ r s, r = Return (pdPASS, Some v) ∧ ∃ x', idle_queue (l_kernel s) (l_own s) a x' q ∧
    fmq_items x' q = l) (Layer k p).
Proof.
  intros Hi Hit. pose proof (iq_ok _ _ _ _ _ Hi) as Hok.
  assert (He : 0 < mb_entry x) by (pose proof (fmq_items_length x q) as Hl; rewrite Hit in Hl; simpl in Hl; lia).
  unfold xQueueGenericReceive. wp_step. apply wp_kern. eapply obj_type_mailbox; [done|]. simpl is_class. cbv zeta iota.
  unfold rt_fmq_recv, fmq_recv_loop. wp_step. wp_step. apply wp_kern. eapply wp_get_mailbox; [apply Hi|].
  rewrite (proj2 (Z.eqb_neq (mb_entry x) 0)) by lia. simpl andb. cbv iota.
  wp_step. apply wp_kern. eapply wp_get_mailbox; [apply Hi|]. rewrite (proj2 (Z.eqb_neq (mb_entry x) 0)) by lia. wp_step.
  eapply wp_mono; [by apply (fmq_take_spec k p a x q pdFALSE); apply Hi || done|].
  intros ? s' (Hwf & Hc & Eo & Hs & x' & v' & l' & Em & Hok' & -> & Hit' & Hr). rewrite Z.eqb_refl in Hr. destruct Hr as [Hl Hwk].
  unfold woke in Hwk. rewrite (iq_senders _ _ _ _ _ Hi) in Hwk. destruct Hwk as (_ & _ & El).
  rewrite Hit in Hit'. injection Hit' as <- <-. wp_step. wp_step. split; [done|]. exists x'. split; [|done].
  eapply idle_queue_change; [exact Hi|done..|by rewrite Em; apply lookup_insert_eq|by rewrite Eo; apply Hi|done].
Qed.

Lemma send_all_spec vs k p a x q ticks :
  idle_queue k p a x q → mb_entry x + Z.of_nat (length vs) ≤ mb_size x → Forall (λ v, fq_item q ≤ Z.of_nat (length v)) vs →
  wp (send_all a ticks vs) (λ r s, r = replicate (length vs) (Return pdPASS) ∧ ∃ x' q', idle_queue (l_kernel s) (l_own s) a x' q' ∧
    mb_size x' = mb_size x ∧ fmq_items x' q' = fmq_items x q ++ (item_of q <$> vs)) (Layer k p).
Proof.
  revert k p x q. induction vs as [|v vs IH]; intros k p x q Hi Hn Hv; simpl.
  { wp_step. split; [done|]. exists x, q. by rewrite app_nil_r. }
  inversion_clear Hv as [|? ? Hv1 Hvs]. simpl in Hn. wp_step. eapply wp_mono; [apply (idle_send k p a x q v ticks); [done|lia|done]|].
  intros ? [k1 p1] (-> & x1 & q1 & Hi1 & Es & Eq & Hit). simpl in Hi1.
  assert (He : mb_entry x1 = mb_entry x + 1).
  { pose proof (fmq_items_length x q) as Hl. pose proof (fmq_items_length x1 q1) as Hl1. rewrite Hit, length_app in Hl1. simpl in Hl1.
    pose proof (fo_entry _ _ (iq_ok _ _ _ _ _ Hi)). pose proof (fo_entry _ _ (iq_ok _ _ _ _ _ Hi1)). lia. }
  wp_step. eapply wp_mono; [apply (IH k1 p1 x1 q1); [done|lia|by rewrite Eq]|].
  intros ? s (-> & x2 & q2 & Hi2 & Es2 & Hit2). wp_step. split; [done|]. exists x2, q2. split_and!; [done|congruence|].
  rewrite Hit2, Hit, <- app_assoc. unfold item_of. by rewrite Eq.
Qed.
Lemma receive_all_spec l k p a x q ticks :
  idle_queue k p a x q → fmq_items x q = l →
  wp (receive_all a ticks (length l)) (λ r s, r = (λ v, Return (pdPASS, Some v)) <$> l ∧ ∃ x', idle_queue (l_kernel s) (l_own s) a x' q ∧
    fmq_items x' q = []) (Layer k p).
Proof.
  revert k p x. induction l as [|v l IH]; intros k p x Hi Hit; simpl; [wp_step; split; [done|by exists x]|].
  wp_step. eapply wp_mono; [by apply (idle_receive k p a x q v l ticks)|]. intros ? [k1 p1] (-> & x1 & Hi1 & Hit1).
  wp_step. eapply wp_mono; [by apply (IH k1 p1 x1)|]. intros ? s (-> & x2 & Hi2 & Hit2). wp_step. split; [done|]. by exists x2.
Qed.

(** A queue that is full or empty turns away a call that may not wait. *)
Lemma full_send k p a x q v :
  idle_queue k p a x q → mb_entry x = mb_size x →
  wp (xQueueGenericSend a v 0 queueSEND_TO_BACK) (λ r s, r = Return errQUEUE_FULL ∧ s = Layer k p) (Layer k p).
Proof.
  intros Hi Hf. unfold xQueueGenericSend. wp_step. apply wp_kern. eapply obj_type_mailbox; [done|]. simpl is_class. cbv iota.
  unfold rt_fmq_send. wp_step. wp_step. apply wp_kern. eapply wp_get_mailbox; [apply Hi|]. unfold fmq_full.
  rewrite Hf, Z.eqb_refl, (proj2 (Z.eqb_neq queueSEND_TO_BACK _)) by done. simpl andb. cbv iota. wp_step. by wp_step.
Qed.
Lemma empty_receive k p a x q :
  idle_queue k p a x q → fmq_items x q = [] → portMAX_DELAY ≠ 0 →
  wp (xQueueGenericReceive a 0 pdFALSE) (λ r s, r = Return (errQUEUE_EMPTY, None) ∧ s = Layer k p) (Layer k p).
Proof.
  intros Hi Hit Hmax. unfold xQueueGenericReceive. wp_step. apply wp_kern. eapply obj_type_mailbox; [done|].
  rewrite (proj2 (Z.eqb_neq 0 portMAX_DELAY)) by done. simpl is_class. cbv zeta iota.
  unfold rt_fmq_recv. wp_step. wp_step. apply wp_kern. eapply wp_get_mailbox; [apply Hi|].
  assert (E : mb_entry x = 0).
  { pose proof (fmq_items_length x q) as Hl. rewrite Hit in Hl. pose proof (fo_entry _ _ (iq_ok _ _ _ _ _ Hi)). simpl in Hl. lia. }
  rewrite E. simpl andb. cbv iota. wp_step. by wp_step.
Qed.

(** What [xQueueGenericCreate] needs for a queue at the address [a]. *)
Record creatable (k : kstate) (a uxQueueLength uxItemSize : Z) (bytes : list Z) : Prop := {
  cr_wf : wf k;
  cr_current : is_Some (ks_current k);
  cr_irq : ks_interrupt_nest k = 0;
  cr_new o : o ∈ [OSem a; OMutex a; OMailBox a] → ∀ c, o ∉ l_get (ks_containers k) c;
  cr_lists h : h = LMbRecv a ∨ h = LMbSend a → l_get (ks_lists k) h = [];
  cr_length : 0 < uxQueueLength < 2 ^ 16;
  cr_item : 0 < uxItemSize;
  cr_pool : uxQueueLength * uxItemSize < 2 ^ 32;
  cr_bytes : Z.of_nat (length bytes) = fmq_pool_size uxItemSize uxQueueLength
}.

(** Nothing changes when the head of an empty list is initialised. *)
Lemma wf_init_empty s h : wf s → l_get (ks_lists s) h = [] → wf (set_ks_lists (l_init h (ks_lists s)) s).
Proof.
  intros Hwf E. assert (El : ∀ h', l_get (l_init h (ks_lists s)) h' = l_get (ks_lists s) h').
  { intros h'. rewrite l_get_init. by case_decide; subst. }
  destruct Hwf. split; try done; simpl.
  - by apply l_init_ok.
  - intros h' t. rewrite El. apply wf_home.
  - intros t th. rewrite El. apply wf_ready.
  - intros p. unfold l_isempty. rewrite El. apply wf_group.
Qed.

Lemma create_spec k p a msg_pool bytes uxQueueLength uxItemSize ucQueueType :
  creatable k a uxQueueLength uxItemSize bytes →
  wp (xQueueGenericCreate (Some a) (Some (msg_pool, bytes)) uxQueueLength uxItemSize ucQueueType)
    (λ r s, r = Some a ∧ ∃ x q, idle_queue (l_kernel s) (l_own s) a x q ∧ mb_size x = uxQueueLength ∧ fq_item q = uxItemSize ∧
      fmq_items x q = []) (Layer k p).
Proof.
  intros [Hwf Hc Hirq Hnew Hl Hlen Hitem Hpl Hb]. unfold xQueueGenericCreate.
  rewrite !(proj2 (Z.eqb_neq _ 0)) by lia. simpl orb. cbv iota. unfold next_index. wp_step. wp_step. wp_step. wp_step. wp_step. wp_step.
  set (n := numbered _ _). set (p1 := set_mq_index _ _). unfold rt_fmq_create, RT_DEBUG_NOT_IN_INTERRUPT, rt_interrupt_get_nest.
  wp_step. apply wp_kern. wp_step. wp_step. wp_step. apply wp_assert; [by apply Z.eqb_eq|].
  wp_step. apply wp_kern. unfold rt_object_allocate, RT_DEBUG_NOT_IN_INTERRUPT, rt_interrupt_get_nest.
  wp_step. wp_step. wp_step. wp_step. apply wp_assert; [by apply Z.eqb_eq|].
  destruct (strncpy_total RT_NAME_MAX (replicate RT_NAME_MAX 0) (n ++ [0])) as [name Hname]; [done|right; set_solver|].
  unfold object_name, put_object, olist_insert_after. wp_step. eapply wp_option; [exact Hname|]. wp_step. wp_step. wp_step. wp_step. simpl.
  wp_step. simpl. rewrite (proj2 (l_linked_false _ _)) by (apply Hnew; set_solver). wp_step. wp_step.
  wp_step. apply wp_kern. unfold rt_ipc_object_init, tlist_init. wp_step. wp_step. wp_step.
  wp_step. apply wp_kern. unfold put_mailbox. wp_step. wp_step. unfold put_fmq. wp_step. wp_step. apply wp_kern. wp_step. wp_step.
  split; [done|]. assert (Ew : u16 uxQueueLength = uxQueueLength ∧ u32 uxItemSize = uxItemSize) by (split; apply Z.mod_small; nia).
  destruct Ew as [E16 E32]. eexists _, _. split; [constructor|split_and!]; simpl; try done.
  - set (k1 := set_ks_containers _ _). assert (Hwf1 : wf k1) by (by eapply wf_ext, Hwf).
    pose proof (wf_init_empty k1 (LMbRecv a) Hwf1 (Hl _ (or_introl eq_refl))) as Hwf2.
    eapply (wf_ext (set_ks_lists (l_init (LMbSend a) (l_init (LMbRecv a) (ks_lists k1))) k1)); [done..|].
    apply (wf_init_empty (set_ks_lists (l_init (LMbRecv a) (ks_lists k1)) k1)); [done|]. simpl. rewrite l_get_init. case_decide; [done|].
    apply Hl. by right.
  - assert (Hno : ∀ o, o ∈ [OSem a; OMutex a] → l_linked (l_insert_after 4 (OMailBox a) (ks_containers k)) o = false).
    { intros o Ho. apply l_linked_false. intros c. rewrite l_get_insert_after.
      pose proof (Hnew o ltac:(set_solver) c). case_decide; subst; set_solver. }
    rewrite (Hno (OSem a)), (Hno (OMutex a)) by (rewrite !elem_of_cons; auto). rewrite (proj2 (l_linked_spec _ _)); [done|]. exists 4. rewrite l_get_insert_after, decide_True by done. set_solver.
  - eexists. split; [apply lookup_insert_eq|done].
  - apply lookup_insert_eq.
  - destruct p. apply lookup_insert_eq.
  - constructor; simpl; rewrite ?E16, ?E32; try done; try lia; [|by right].
    unfold fmq_pool_size in Hb. rewrite E16, E32 in Hb. rewrite Hb. unfold u32. rewrite Z.mod_small; nia.
  - rewrite !l_get_init. repeat case_decide; try done.
  - rewrite !l_get_init. by rewrite decide_True.
  - exact E16.
  - exact E32.
  - done.
Qed.

(** C13. A queue of FreeRTOS works from its creation on.  [xQueueGenericCreate] makes an empty
    queue of the length and item size asked for; as many items as it has room for are sent to
    its back without waiting, and calls that receive return them, cut to the item size, in the
    order they were sent.  A send to the full queue that may not wait returns [errQUEUE_FULL], a
    receive from the empty queue [errQUEUE_EMPTY], and neither changes anything. *)
Theorem xQueue_roundtrip k p a msg_pool bytes uxQueueLength uxItemSize ucQueueType vs ticks :
  creatable k a uxQueueLength uxItemSize bytes → portMAX_DELAY ≠ 0 →
  Z.of_nat (length vs) ≤ uxQueueLength → Forall (λ v, uxItemSize ≤ Z.of_nat (length v)) vs →
  wp (xQueueGenericCreate (Some a) (Some (msg_pool, bytes)) uxQueueLength uxItemSize ucQueueType) (λ r s1, r = Some a ∧
    wp (send_all a ticks vs) (λ r s2, r = replicate (length vs) (Return pdPASS) ∧
      (Z.of_nat (length vs) = uxQueueLength → ∀ v,
        wp (xQueueGenericSend a v 0 queueSEND_TO_BACK) (λ r s, r = Return errQUEUE_FULL ∧ s = s2) s2) ∧
      wp (receive_all a ticks (length vs)) (λ r s3, r = (λ v, Return (pdPASS, Some (take (Z.to_nat uxItemSize) v))) <$> vs ∧
        wp (xQueueGenericReceive a 0 pdFALSE) (λ r s, r = Return (errQUEUE_EMPTY, None) ∧ s = s3) s3) s2) s1) (Layer k p).
Proof.
  intros Hcr Hmax Hn Hv. eapply wp_mono; [by apply create_spec|]. intros ? [k1 p1] (-> & x1 & q1 & Hi1 & Es1 & Eq1 & Hit1).
  assert (E1 : mb_entry x1 = 0).
  { pose proof (fmq_items_length x1 q1) as Hl. rewrite Hit1 in Hl. pose proof (fo_entry _ _ (iq_ok _ _ _ _ _ Hi1)). simpl in Hl. lia. }
  split; [done|]. eapply wp_mono; [apply (send_all_spec vs k1 p1 a x1 q1); [done|lia|by rewrite Eq1]|].
  intros ? [k2 p2] (-> & x2 & q2 & Hi2 & Es2 & Hit2). rewrite Hit1 in Hit2. simpl in Hit2, Hi2.
  split_and!; [done| |].
  - intros Hfull v. eapply (full_send k2 p2 a x2 q2); [done|].
    pose proof (fmq_items_length x2 q2) as Hl. rewrite Hit2, length_fmap in Hl. pose proof (fo_entry _ _ (iq_ok _ _ _ _ _ Hi2)). lia.
  - replace (length vs) with (length (fmq_items x2 q2)) by (by rewrite Hit2, length_fmap).
    eapply wp_mono; [by eapply (receive_all_spec _ k2 p2 a x2 q2)|]. intros ? [k3 p3] (-> & x3 & Hi3 & Hit3).
    split; [rewrite Hit2, <- list_fmap_compose; by rewrite <- Eq1|]. by apply (empty_receive k3 p3 a x3 q2).
Qed.
End spec.
End idle.
