(* ===== verification/SoftTimer.v ===== *)
(** Software timers, [rt-thread/src/timer.c]: the timeout functions of soft timers run
    in the timer thread, outside the scheduler lock.

    The loop of [rt_soft_timer_check] keeps a pointer [n] to the next node of the list
    while the timeout function runs; the node may have left the list by then, and a
    node outside every list leads to itself. *)

From stdpp Require Import base gmap list fin_maps sorting strings.
From Stdlib Require Import ZArith Lia Ascii.
From S2P Require Import Prelude IntrusiveList Ffs Kservice Printf KState Object Sched Timer KInv SchedFacts.
From S2P Require Import TimerFacts TimerCheck Thread Ipc IpcFacts ThreadFacts.

Open Scope Z_scope.

(** The node behind [i] in a list, [None] is the head of the list. *)
Fixpoint row_after (i : timer_id) (l : list timer_id) : option (option timer_id) :=
  match l with
  | [] => None
  | j :: l => if decide (j = i) then Some (head l) else row_after i l
  end.
(** [n->next] for the node of the timer [i].  A node of the list of hard timers leads
    to a list head that is taken for a timer. *)
Definition row_next (i : timer_id) : K (option timer_id) :=
  s ← get;
  if l_linked (ks_rows s) i then of_option BadPointer (row_after i (l_get (ks_rows s) SoftRow))
  else mret (Some i).

Section check.
Context (user_timeout : Z → Z → K unit).

(** The body of the loop for the expired timer [i], behind [n = n->next]; the tick it
    goes on with. *)
Definition soft_timer_expire (i : timer_id) : K Z :=
  timer_remove i;;
  rt_exit_critical;;
  tm ← get_timer i;
  run_timeout user_timeout tm;;
  current_tick ← rt_tick_get;
  rt_enter_critical;;
  tm ← get_timer i;
  (if flag_test (tm_flag tm) RT_TIMER_FLAG_PERIODIC &&
      flag_test (tm_flag tm) RT_TIMER_FLAG_ACTIVATED
   then upd_timer i clear_activated;; _ ← rt_timer_start i; mret tt
   else upd_timer i clear_activated);;
  mret current_tick.

Fixpoint soft_timer_loop (fuel : nat) (current_tick : Z) (n : option timer_id) : K unit :=
  match n with
  | None => mret tt
  | Some i =>
    tm ← get_timer i;
    if u32 (current_tick - tm_timeout_tick tm) <? RT_TICK_MAX / 2 then
      match fuel with
      | O => fail OutOfFuel
      | S fuel' =>
        n ← row_next i;
        current_tick ← soft_timer_expire i;
        soft_timer_loop fuel' current_tick n
      end
    else mret tt
  end.

Definition rt_soft_timer_check (fuel : nat) : K unit :=
  current_tick ← rt_tick_get;
  rt_enter_critical;;
  s ← get;
  soft_timer_loop fuel current_tick (head (l_get (ks_rows s) SoftRow));;
  rt_exit_critical.

(** * The timer thread *)

Inductive timer_wait := NoWait | Suspended | Delayed.

(** A turn of the endless loop of [rt_thread_timer_entry] from the test of the next
    timeout to the point where the thread waits. *)
Definition timer_entry_wait (next_timeout : Z) : K timer_wait :=
  if next_timeout =? RT_TICK_MAX then
    t ← self;
    _ ← rt_thread_suspend t;
    rt_schedule;;
    mret Suspended
  else
    current_tick ← rt_tick_get;
    if u32 (next_timeout - current_tick) <? RT_TICK_MAX / 2 then
      rt_thread_delay (u32 (next_timeout - current_tick));; mret Delayed
    else mret NoWait.
(** The rest of the turn, when the thread runs again. *)
Definition timer_entry_resumed (fuel : nat) (w : timer_wait) : K unit :=
  match w with
  | Delayed => _ ← rt_thread_sleep_resumed timer_thread; mret tt
  | _ => mret tt
  end;;
  rt_soft_timer_check fuel.
End check.

(** The start of a turn: the next timeout is read, then the thread waits. *)
Definition timer_entry_turn : K timer_wait :=
  next_timeout ← rt_timer_list_next_timeout SoftRow;
  timer_entry_wait next_timeout.

Definition RT_TIMER_THREAD_STACK_SIZE : Z := 1024.

(** [entry] and [stack] are the addresses of [rt_thread_timer_entry] and of
    [timer_thread_stack]. *)
Definition rt_system_timer_thread_init (entry stack : Z) : K unit :=
  modify (λ s, set_ks_rows (l_init SoftRow (ks_rows s)) s);;
  _ ← rt_thread_init timer_thread (text "timer") entry 0 stack RT_TIMER_THREAD_STACK_SIZE
        RT_TIMER_THREAD_PRIO 10;
  _ ← rt_thread_startup timer_thread;
  mret tt.

(** Software timers against the kernel invariant: the loop of the timer thread ends
    and leaves no expired timer behind; a timeout function that stops the next timer
    of the list makes it run forever; the timer thread is woken in time, but for one
    race with [rt_timer_start]. *)

(** The timer thread runs or is ready, with the scheduler locked [n] times. *)
Definition timer_runs (s : kstate) : Prop :=
  ∃ th, ks_threads s !! timer_thread = Some th ∧ th_stat th = RT_THREAD_READY.
Record at_level (n : Z) (s : kstate) : Prop := {
  al_wf : wf s;
  al_thread : timer_runs s;
  al_current : is_Some (ks_current s);
  al_lock : ks_lock_nest s = n;
}.

Lemma timer_runs_ready s : timer_runs s → some_ready s.
Proof. intros (th & ? & ?). by exists timer_thread, th. Qed.

(** Changes that the level does not depend on. *)
Lemma at_level_ext n m s s' :
  at_level n s → ks_threads s' = ks_threads s → is_Some (ks_current s') → ks_lock_nest s' = m →
  wf s' → at_level m s'.
Proof. intros [_ Ht _ _] E Hc El Hwf. split; [done|by unfold timer_runs; rewrite E|done..]. Qed.
Lemma at_level_lock n m s : at_level n s → at_level m (set_ks_lock_nest m s).
Proof. intros Ha. eapply at_level_ext; [exact Ha|done|apply Ha|done|eapply wf_ext, Ha; done]. Qed.

Lemma exit_level n s (Q : unit → kstate → Prop) :
  0 ≤ n < 2 ^ 15 - 1 → at_level (n + 1) s →
  (∀ s', at_level n s' → ks_rows s' = ks_rows s → ks_timers s' = ks_timers s → ks_tick s' = ks_tick s → Q tt s') →
  wp rt_exit_critical Q s.
Proof.
  intros Hn Ha HQ. eapply wp_mono; [apply (exit_critical_spec n s); try apply Ha; [|done]|].
  { apply timer_runs_ready, Ha. }
  intros [] s' (Hwf' & El & Hcase). destruct (n =? 0) eqn:E.
  - destruct Hcase as [(c & p & ->) (? & t & _ & Ht)]. apply HQ; [|done..].
    eapply at_level_ext; [exact Ha|done|by rewrite Ht|done|done].
  - subst s'. apply HQ; [|done..]. by eapply at_level_lock.
Qed.

(** No timer of a thread is a soft timer. *)
Lemma soft_user s i : wf s → i ∈ l_get (ks_rows s) SoftRow → ∃ a, i = TUser a.
Proof.
  intros Hwf Hin. destruct i as [t|a]; [|eauto]. exfalso.
  destruct (wf_armed _ Hwf _ _ Hin) as (th & tm & Ht & Hst & Htm & _).
  destruct (wf_timer _ Hwf _ _ Ht ltac:(by rewrite Hst)) as (tm' & Htm' & [_ _ Hh _]).
  destruct (wf_row _ Hwf _ _ Hin) as (tm2 & Htm2 & Hr). simplify_eq.
  unfold row_of_flag in Hr. by rewrite Hh in Hr.
Qed.

Lemma row_next_front s i l (Q : option timer_id → kstate → Prop) :
  l_get (ks_rows s) SoftRow = i :: l → Q (head l) s → wp (row_next i) Q s.
Proof.
  intros El HQ. unfold row_next. wp_step. wp_step.
  assert (l_linked (ks_rows s) i = true) as ->.
  { destruct (l_linked _ _) eqn:E; [done|]. apply l_linked_false with (h := SoftRow) in E.
    rewrite El in E. set_solver. }
  eapply wp_option; [|done]. rewrite El. simpl. by rewrite decide_True.
Qed.

Section soft.
Context (cb : Z → Z → K unit) (n : Z) (Hn : 0 ≤ n < 2 ^ 15 - 1).

(** The call of the timeout function, outside the lock. *)
Lemma soft_call_spec {A} (k : Z → K A) Q (P : kstate → Prop) s a tm f :
  at_level (n + 1) s → ks_timers s !! TUser a = Some tm → tm_func tm = FUser f →
  (∀ s0, at_level n s0 → ks_rows s0 = l_remove (TUser a) (ks_rows s) →
     ks_timers s0 = ks_timers s → ks_tick s0 = ks_tick s →
     wp (cb f (tm_parameter tm)) (λ _ s1, at_level n s1 ∧ P s1) s0) →
  (∀ s1, at_level (n + 1) (set_ks_lock_nest (n + 1) s1) → P s1 →
     wp (k (ks_tick s1)) Q (set_ks_lock_nest (n + 1) s1)) →
  wp (timer_remove (TUser a);; rt_exit_critical;; tm ← get_timer (TUser a);
      run_timeout cb tm;; c ← rt_tick_get; rt_enter_critical;; k c) Q s.
Proof.
  intros Ha Hi Hf Hcb Hk. wp_step. unfold timer_remove. wp_step. wp_step. set (s0 := set_ks_rows _ s).
  assert (Ha0 : at_level (n + 1) s0).
  { eapply at_level_ext; [exact Ha|done|apply Ha|apply Ha|].
    eapply (wf_timer_off s s0 (al_wf _ _ Ha) _ tm tm Hi); try done. simpl. by rewrite insert_id. }
  apply (exit_level n); [done|done|]. intros s1 Ha1 Er Et Etick. wp_step.
  eapply wp_get_timer; [by rewrite Et|]. wp_step. unfold run_timeout. rewrite Hf.
  eapply wp_mono; [by apply Hcb|]. intros ? s2 [Ha2 HP]. wp_step. unfold rt_tick_get. wp_step. wp_step.
  wp_step. wp_step. apply wp_enter_critical; rewrite (al_lock _ _ Ha2); [done|].
  apply Hk; [by eapply at_level_lock|done].
Qed.

(** ** Well-behaved timeout functions *)

(** The timeout function of a soft timer returns, keeps the kernel invariant, and
    starts and stops no soft timer but its own. *)
Definition soft_callback : Prop :=
  ∀ f p s, at_level n s →
    wp (cb f p) (λ _ s', at_level n s' ∧ ks_tick s' = ks_tick s ∧ timers_kept s s' ∧
      l_get (ks_rows s') SoftRow = l_get (ks_rows s) SoftRow) s.
Context (Hcb : soft_callback).

Lemma soft_armed tick tm :
  row_of_flag (tm_flag tm) = SoftRow →
  flag_test (tm_flag (armed_timer tick tm)) RT_TIMER_FLAG_SOFT_TIMER = true.
Proof.
  rewrite <- (proj1 (same_kind_armed tick tm)). unfold row_of_flag. by case_match.
Qed.

(** One turn of the loop, for the expired timer [i] at the front of the list. *)
Lemma soft_expire_spec s i l tm :
  at_level (n + 1) s → l_get (ks_rows s) SoftRow = i :: l → ks_timers s !! i = Some tm →
  (∃ f, tm_func tm = FUser f) →
  (flag_test (tm_flag tm) RT_TIMER_FLAG_PERIODIC = true → 0 ≤ tm_init_tick tm < HALF) →
  wp (soft_timer_expire cb i) (λ c s', at_level (n + 1) s' ∧ c = ks_tick s' ∧ ks_tick s' = ks_tick s ∧
    ∃ s1, timers_kept s s1 ∧ l_get (ks_rows s1) SoftRow = l ∧ ks_tick s1 = ks_tick s ∧
      ((timers_kept s1 s' ∧ l_get (ks_rows s') SoftRow = l) ∨
       (flag_test (tm_flag tm) RT_TIMER_FLAG_PERIODIC = true ∧
        ∃ tm1, same_timer tm tm1 ∧ row_of_flag (tm_flag tm1) = SoftRow ∧ armed i tm1 s1 s'))) s.
Proof.
  intros Ha Hrow Hi [f Hf] Hper. unfold soft_timer_expire.
  pose proof (ok_nodup _ (wf_rows _ (al_wf _ _ Ha)) SoftRow) as Hnd. rewrite Hrow in Hnd.
  apply NoDup_cons in Hnd as [Hil _].
  assert (Hin : i ∈ l_get (ks_rows s) SoftRow) by (rewrite Hrow; set_solver).
  destruct (wf_row _ (al_wf _ _ Ha) _ _ Hin) as (tm0 & Htm0 & Hsoft). assert (tm0 = tm) as -> by congruence.
  destruct (soft_user _ _ (al_wf _ _ Ha) Hin) as [a ->].
  eapply (soft_call_spec _ _ (λ s1, ks_tick s1 = ks_tick s ∧ timers_kept s s1 ∧
    l_get (ks_rows s1) SoftRow = l) s a tm f); try done.
  { intros s0 Ha0 Er Et Etick. eapply wp_mono; [by apply Hcb|].
    intros ? s1 (Ha1 & Et1 & Hk1 & Er1). split_and!; [done|congruence| |].
    - intros j tmj Hj. apply Hk1. by rewrite Et.
    - rewrite Er1, Er, l_get_remove, Hrow, filter_cons_False by naive_solver. by apply filter_ne_notin. }
  intros s1 Ha1 (Et1 & Hk1 & Er1). set (s2 := set_ks_lock_nest _ s1) in *.
  destruct (Hk1 _ _ Hi) as (tm1 & Hi1 & Hst1).
  assert (Hno1 : ∀ r, TUser a ∉ l_get (ks_rows s2) r).
  { intros [] Hx; [|simpl in Hx; by rewrite Er1 in Hx].
    destruct (wf_row _ (al_wf _ _ Ha1) _ _ Hx) as (tm2 & Hi2 & Hr2). simpl in Hi2.
    assert (tm2 = tm1) as -> by congruence. rewrite (sm_row _ _ Hst1), Hsoft in Hr2. done. }
  set (s3 := set_ks_timers (<[TUser a := clear_activated tm1]> (ks_timers s2)) s2).
  assert (Hwf3 : wf s3).
  { eapply (wf_timer_field s2 s3 (al_wf _ _ Ha1) _ tm1 (clear_activated tm1) Hi1); try done. apply kind_clear. }
  assert (Hk3 : timers_kept s s3) by (etrans; [apply Hk1|]; by apply (clear_kept s2)).
  wp_step. eapply wp_get_timer; [done|]. wp_step. wp_step.
  - apply andb_prop in H as [Hp1 Ha1']. rewrite (sm_periodic _ _ Hst1) in Hp1.
    wp_step. eapply wp_upd_timer; [done|]. fold s3. wp_step. unfold rt_timer_start. wp_step.
    eapply wp_mono; [eapply (timer_arm_spec s3 _ (clear_activated tm1)); [done|apply lookup_insert_eq| |done]|].
    { simpl. rewrite (sm_init _ _ Hst1). by apply Hper. }
    intros ? s4 Har. wp_step. eapply wp_get_timer; [rewrite (ar_timers _ _ _ _ Har); apply lookup_insert_eq|].
    assert (Hr2 : row_of_flag (tm_flag (clear_activated tm1)) = SoftRow).
    { rewrite (proj1 (kind_clear tm1)), (sm_row _ _ Hst1). done. }
    rewrite (soft_armed _ _ Hr2). destruct (al_thread _ _ Ha1) as (tt' & Htt & Hstt). wp_step. simpl. wp_step.
    eapply wp_get_thread; [by rewrite (ar_threads _ _ _ _ Har)|]. rewrite Hstt. simpl. unfold when. wp_step.
    wp_step. wp_step. wp_step. destruct (ar_quiet _ _ _ _ Har) as (Hfr & Hcur & _).
    split_and!; [|by rewrite (fr_tick _ _ Hfr)|by rewrite (fr_tick _ _ Hfr)|].
    + eapply at_level_ext; [exact Ha1|by rewrite (ar_threads _ _ _ _ Har)|rewrite Hcur; apply Ha1|
        by rewrite (fr_lock _ _ Hfr)|apply Har].
    + exists s3. split_and!; [done|done|done|]. right. split; [done|]. exists (clear_activated tm1).
      split_and!; [|done|done]. etrans; [done|apply same_timer_clear].
  - eapply wp_upd_timer; [done|]. fold s3. wp_step. split_and!; [|done|done|].
    + eapply at_level_ext; [exact Ha1|done|apply Ha1|done|done].
    + exists s2. split_and!; [exact Hk1|done|done|]. left. split; [|done]. by apply (clear_kept s2).
Qed.

(** What the loop keeps: the list is sorted, its timers can expire, and the pointer
    [p] is the front of the list, or no timer is due any more. *)
Record soft_ready (b : Z) (s : kstate) : Prop := {
  sr_level : at_level (n + 1) s;
  sr_now : off b (ks_tick s) < HALF;
  sr_row : row_ready b (off b (ks_tick s)) s (l_get (ks_rows s) SoftRow);
}.
Definition soft_due (b : Z) (s : kstate) : nat :=
  due b (off b (ks_tick s)) (ks_timers s) (l_get (ks_rows s) SoftRow).
Definition walk_at (b : Z) (s : kstate) (p : option timer_id) : Prop :=
  p = head (l_get (ks_rows s) SoftRow) ∨
  (∀ i, i ∈ l_get (ks_rows s) SoftRow → off b (ks_tick s) < dist b (ks_timers s) i) ∧
  (∀ i, p = Some i → i ∈ l_get (ks_rows s) SoftRow).


Lemma walk_step b s i l s' c :
  soft_ready b s → l_get (ks_rows s) SoftRow = i :: l → dist b (ks_timers s) i ≤ off b (ks_tick s) →
  at_level (n + 1) s' → c = ks_tick s' → ks_tick s' = ks_tick s →
  (∃ s1, timers_kept s s1 ∧ l_get (ks_rows s1) SoftRow = l ∧ ks_tick s1 = ks_tick s ∧
      ((timers_kept s1 s' ∧ l_get (ks_rows s') SoftRow = l) ∨
       (∃ tm, ks_timers s !! i = Some tm ∧ flag_test (tm_flag tm) RT_TIMER_FLAG_PERIODIC = true ∧
        ∃ tm1, same_timer tm tm1 ∧ row_of_flag (tm_flag tm1) = SoftRow ∧ armed i tm1 s1 s'))) →
  soft_ready b s' ∧ walk_at b s' (head l) ∧ (soft_due b s' < soft_due b s)%nat.
Proof.
  intros [Ha Hnow [Hs Hrow]] Erow Hdue Ha' -> Ht' (s1 & Hk1 & Er1 & Et1 & Hcase).
  set (now := off b (ks_tick s)) in *.
  assert (Hrl : row_ready b now s l).
  { eapply (row_ready_sublist b now s s (i :: l)); [rewrite <- Erow; by split|by apply sublist_cons|done]. }
  assert (Hpend : soft_due b s = S (due b now (ks_timers s) l)).
  { unfold soft_due, due. fold now. by rewrite Erow, filter_cons_True. }
  destruct (row_ready_sublist _ _ _ s1 _ l Hrl ltac:(done) Hk1) as [Hr1 Hd1].
  rewrite Hpend. unfold soft_due. rewrite Ht'. fold now.
  destruct Hcase as [[Hk' E']|(tm & Hi & Hper & tm1 & Hst1 & Hh1 & Har)].
  - destruct (row_ready_sublist _ _ _ s' _ l Hr1 ltac:(done) Hk') as [Hr' Hd'].
    split_and!; [split; rewrite ?Ht', ?E'; done|left; by rewrite E'|rewrite E'; lia].
  - destruct (Hrow i ltac:(rewrite Erow; set_solver)) as (tm' & Hi' & Hex). assert (tm' = tm) as -> by congruence.
    assert (Hex1 : expirable now i tm1) by (by eapply expirable_same).
    destruct (ex_period _ _ _ Hex1) as [Hp Hlt]; [by rewrite (sm_periodic _ _ Hst1)|].
    unfold now in *. rewrite <- Et1 in Hlt, Hex1, Hr1, Hnow |- *.
    destruct (row_ready_armed SoftRow b i tm1 s1 s') as [Hr' Hd']; rewrite ?Er1; try done.
    rewrite <- Et1 in Hd1. rewrite Er1 in Hd'.
    split_and!; [split; rewrite ?Ht', <- ?Et1; done| |lia].
    pose proof (armed_sorted b _ _ _ _ Har) as Has. cbv zeta in Has. rewrite Hh1, Er1 in Has.
    assert (Hoff : off b (u32 (ks_tick s1 + tm_init_tick tm1)) = off b (ks_tick s1) + tm_init_tick tm1).
    { pose proof (off_range b (ks_tick s1)). apply off_add; lia. }
    destruct (Has (proj1 Hr1) ltac:(lia)) as (_ & l1 & l2 & E' & E & _ & Hlate).
    rewrite filter_ne_notin in E.
    2:{ pose proof (ok_nodup _ (wf_rows _ (al_wf _ _ Ha)) SoftRow) as Hnd. rewrite Erow in Hnd.
        by apply NoDup_cons in Hnd as [? _]. }
    rewrite E. destruct l1 as [|j l1]; simpl in *; [|left; by rewrite E'].
    right. rewrite E'. split.
    + assert (Hi2 : dist b (ks_timers s') i = off b (ks_tick s1) + tm_init_tick tm1).
      { unfold dist, timeout_of. by rewrite (ar_timers _ _ _ _ Har), lookup_insert_eq. }
      rewrite Ht', <- Et1. rewrite Forall_forall in Hlate.
      intros j [->|Hj]%elem_of_cons; [lia|]. specialize (Hlate _ Hj). lia.
    + intros j Hj. destruct l2; simplify_eq/=. set_solver.
Qed.

(** Where no timer is due, the loop ends. *)
Lemma walk_stops b s p fuel (Q : unit → kstate → Prop) :
  soft_ready b s →
  (∀ i, i ∈ l_get (ks_rows s) SoftRow → off b (ks_tick s) < dist b (ks_timers s) i) →
  (∀ i, p = Some i → i ∈ l_get (ks_rows s) SoftRow) →
  Q tt s → wp (soft_timer_loop cb fuel (ks_tick s) p) Q s.
Proof.
  intros [Ha Hnow [[_ Hw] Hrow]] Hlate Hp HQ. destruct p as [i|]; [|by destruct fuel].
  specialize (Hp i eq_refl). specialize (Hlate i Hp). rewrite Forall_forall in Hw. specialize (Hw i Hp).
  destruct (Hrow i Hp) as (tm & Hi & _). unfold dist, timeout_of in *. rewrite Hi in *. simpl in *.
  destruct (window_later b (ks_tick s) (tm_timeout_tick tm) Hnow Hw) as [_ Hl].
  destruct fuel; simpl; wp_step; (eapply wp_get_timer; [done|]); fold HALF;
    (destruct (Z.ltb_spec (u32 (ks_tick s - tm_timeout_tick tm)) HALF); [lia|by wp_step]).
Qed.

Lemma soft_timer_loop_spec b fuel s p :
  soft_ready b s → walk_at b s p → (soft_due b s ≤ fuel)%nat →
  wp (soft_timer_loop cb fuel (ks_tick s) p) (λ _ s', soft_ready b s' ∧ ks_tick s' = ks_tick s ∧
    ∀ i, i ∈ l_get (ks_rows s') SoftRow → off b (ks_tick s') < dist b (ks_timers s') i) s.
Proof.
  revert s p. induction fuel as [|fuel IH]; intros s p Hsr Hwalk Hfuel.
  all: destruct Hwalk as [->|[Hlate Hp]]; [|by eapply walk_stops].
  all: pose proof (front_cases SoftRow b s (sr_now _ _ Hsr) (sr_row _ _ Hsr)) as Hfront.
  all: destruct (l_get (ks_rows s) SoftRow) as [|i l] eqn:Erow;
    [eapply walk_stops; rewrite ?Erow; [done|set_solver..|split_and!; [done|done|set_solver]]|].
  all: destruct Hfront as (tm & Hi & Hfront); simpl; wp_step; (eapply wp_get_timer; [done|]); fold HALF.
  all: destruct (u32 (ks_tick s - tm_timeout_tick tm) <? HALF); [|wp_step; split_and!; [done|done|by rewrite Erow]].
  - unfold soft_due, due in Hfuel. rewrite Erow, filter_cons_True in Hfuel by done. simpl in Hfuel. lia.
  - wp_step. eapply row_next_front; [done|]. wp_step.
    destruct (proj2 (sr_row _ _ Hsr) i ltac:(rewrite Erow; set_solver)) as (tm' & Hi' & Hex).
    assert (tm' = tm) as -> by congruence.
    destruct (soft_user s i (al_wf _ _ (sr_level _ _ Hsr))) as [a Ea]; [rewrite Erow; set_solver|].
    eapply wp_mono; [eapply soft_expire_spec; try done; [apply Hsr|by eapply ex_func|]|].
    { intros [? ?]%(ex_period _ _ _ Hex). pose proof (off_range b (ks_tick s)). lia. }
    intros c s' (Ha' & Ec & Ht' & s1 & Hk1 & Er1 & Et1 & Hcase).
    destruct (walk_step b s i l s' c) as (Hsr' & Hw' & Hd'); try done.
    { exists s1. split_and!; [done..|]. destruct Hcase as [?|(? & ?)]; [by left|]. right. eauto. }
    rewrite Ec. eapply wp_mono; [apply IH; [done|done|lia]|]. intros ? s2 (? & E & ?). rewrite Ht' in E.
    split_and!; done.
Qed.
End soft.

(** ** Properties *)

Lemma soft_check_spec cb n b fuel s :
  0 ≤ n < 2 ^ 15 - 1 → soft_callback cb n → at_level n s → off b (ks_tick s) < HALF →
  row_ready b (off b (ks_tick s)) s (l_get (ks_rows s) SoftRow) →
  (length (l_get (ks_rows s) SoftRow) ≤ fuel)%nat →
  wp (rt_soft_timer_check cb fuel) (λ _ s', wf s' ∧ ks_lock_nest s' = n ∧ ks_tick s' = ks_tick s ∧
    row_sorted b (ks_timers s') (l_get (ks_rows s') SoftRow) ∧
    ∀ i, i ∈ l_get (ks_rows s') SoftRow → off b (ks_tick s) < dist b (ks_timers s') i) s.
Proof.
  intros Hn Hcb Ha Hnow Hrow Hf. unfold rt_soft_timer_check. wp_step. unfold rt_tick_get. wp_step. wp_step.
  wp_step. wp_step. apply wp_enter_critical; rewrite (al_lock _ _ Ha); [done|]. wp_step. wp_step.
  set (s0 := set_ks_lock_nest (n + 1) s). wp_step.
  eapply wp_mono; [apply (soft_timer_loop_spec cb n Hn Hcb b fuel s0)|].
  - split; [by eapply at_level_lock|done|done].
  - by left.
  - etrans; [|exact Hf]. apply length_filter.
  - intros ? s1 (Hsr & Et & Hno). apply (exit_level n); [done|apply Hsr|].
    intros s2 Ha2 Er2 Et2 Etick2. simpl in Et.
    rewrite Er2, Et2, Etick2. split_and!; [apply Ha2|apply Ha2|done|apply Hsr|]. by rewrite <- Et.
Qed.

(** C32. One check of the soft timers terminates: with one unit of fuel per timer of the
    list, [rt_soft_timer_check] returns with the scheduler lock as it was, keeps the
    kernel invariant, leaves the list sorted and leaves no expired timer in it, when
    the timeout functions start and stop no soft timers but their own. *)
Theorem rt_soft_timer_check_terminates cb n b fuel s :
  0 ≤ n < 2 ^ 15 - 1 → soft_callback cb n → at_level n s → off b (ks_tick s) < HALF →
  row_ready b (off b (ks_tick s)) s (l_get (ks_rows s) SoftRow) →
  (length (l_get (ks_rows s) SoftRow) ≤ fuel)%nat →
  wp (rt_soft_timer_check cb fuel) (λ _ s', wf s' ∧ ks_lock_nest s' = n ∧ ks_tick s' = ks_tick s ∧
    row_sorted b (ks_timers s') (l_get (ks_rows s') SoftRow) ∧
    ∀ i, i ∈ l_get (ks_rows s') SoftRow → off b (ks_tick s) < dist b (ks_timers s') i) s.
Proof. intros. by apply soft_check_spec. Qed.

(** ** A stopped timer at the saved pointer *)

(** The timer [j] is in no list, it is not active, and its timeout lies in the past. *)
Record stale (n : Z) (j : Z) (g : Z) (s : kstate) : Prop := {
  sl_level : at_level (n + 1) s;
  sl_unlinked r : TUser j ∉ l_get (ks_rows s) r;
  sl_timer : ∃ tm, ks_timers s !! TUser j = Some tm ∧ ¬ activated tm ∧ tm_func tm = FUser g ∧
    u32 (ks_tick s - tm_timeout_tick tm) < HALF;
}.

Section stale.
Context (cb : Z → Z → K unit) (n j g : Z) (Hn : 0 ≤ n < 2 ^ 15 - 1).
(** The timeout function of [j] does nothing. *)
Context (Hg : ∀ p, cb g p = mret tt).

Lemma stale_expire s : stale n j g s → wp (soft_timer_expire cb (TUser j)) (λ c s', c = ks_tick s' ∧ stale n j g s') s.
Proof.
  intros [Ha Hno (tm & Hj & Hact & Hf & Hdue)]. unfold soft_timer_expire.
  eapply (soft_call_spec cb n Hn _ _ (λ s1, ks_tick s1 = ks_tick s ∧ ks_timers s1 = ks_timers s ∧
    (∀ r, TUser j ∉ l_get (ks_rows s1) r)) s j tm g); try done.
  { intros s0 Ha0 Er Et Etick. rewrite Hg. wp_step. split_and!; [done..|].
    intros r. rewrite Er. apply l_linked_false, l_remove_unlinked. }
  intros s1 Ha1 (Etick & Et & Hno1). wp_step. eapply wp_get_timer; [by simpl; rewrite Et|]. wp_step.
  unfold activated in Hact. rewrite (not_true_is_false _ Hact), andb_false_r.
  eapply wp_upd_timer; [by simpl; rewrite Et|]. wp_step. split; [done|]. set (s2 := set_ks_timers _ _).
  assert (Hj1 : ks_timers (set_ks_lock_nest (n + 1) s1) !! TUser j = Some tm) by (simpl; by rewrite Et).
  split.
  - eapply at_level_ext; [exact Ha1|done|apply Ha1|done|].
    eapply (wf_timer_field _ s2 (al_wf _ _ Ha1) _ tm (clear_activated tm) Hj1); try done. apply kind_clear.
  - done.
  - exists (clear_activated tm). simpl. rewrite lookup_insert_eq. split_and!; [done|apply activated_clear|done|].
    by rewrite Etick.
Qed.

(** One turn of the loop over an expired timer. *)
Lemma loop_step fuel s c i tm p s1 c' s2 :
  ks_timers s !! i = Some tm → u32 (c - tm_timeout_tick tm) < HALF →
  row_next i s = Done p s1 → soft_timer_expire cb i s1 = Done c' s2 →
  soft_timer_loop cb (S fuel) c (Some i) s = soft_timer_loop cb fuel c' p s2.
Proof.
  intros Hi Hdue Enext Eexp. simpl. unfold get_timer, mbind, SM_bind, get. rewrite Hi. simpl. fold HALF.
  by rewrite (proj2 (Z.ltb_lt _ _) Hdue), Enext, Eexp.
Qed.

Lemma stale_loop fuel s :
  stale n j g s → soft_timer_loop cb fuel (ks_tick s) (Some (TUser j)) s = Fault OutOfFuel.
Proof.
  revert s. induction fuel as [|fuel IH]; intros s Hst; pose proof Hst as [Ha Hno (tm & Hj & _ & _ & Hdue)].
  { simpl. unfold get_timer, mbind, SM_bind, get. rewrite Hj. simpl. fold HALF.
    by rewrite (proj2 (Z.ltb_lt _ _) Hdue). }
  assert (Enext : row_next (TUser j) s = Done (Some (TUser j)) s).
  { unfold row_next, get, mbind, SM_bind. by rewrite (proj2 (l_linked_false _ _) Hno). }
  destruct (wp_inv _ _ _ (stale_expire s Hst)) as (c & s' & Eexp & -> & Hst').
  rewrite (loop_step fuel _ _ _ _ _ _ _ _ Hj Hdue Enext Eexp). by apply IH.
Qed.
End stale.

Lemma stop_active n s0 j tmj s :
  at_level n s0 → ks_timers s0 = ks_timers s → ks_tick s0 = ks_tick s →
  ks_timers s !! TUser j = Some tmj → activated tmj →
  wp (_ ← rt_timer_stop (TUser j); mret tt) (λ _ s1, at_level n s1 ∧ ks_tick s1 = ks_tick s ∧
    ks_timers s1 = <[TUser j := clear_activated tmj]> (ks_timers s) ∧
    ∀ r, TUser j ∉ l_get (ks_rows s1) r) s0.
Proof.
  intros Ha Et Etick Hj Hact. unfold rt_timer_stop. wp_step. wp_step. eapply wp_get_timer; [by rewrite Et|].
  unfold activated in Hact. rewrite Hact. wp_step. unfold timer_remove. wp_step. wp_step.
  eapply wp_upd_timer; [by simpl; rewrite Et|]. wp_step. wp_step. set (s1 := set_ks_timers _ _).
  split_and!; [|done|by simpl; rewrite Et|].
  - eapply at_level_ext; [exact Ha|done|apply Ha|apply Ha|].
    eapply (wf_timer_off s0 s1 (al_wf _ _ Ha) _ tmj (clear_activated tmj)); try done; [by rewrite Et|apply kind_clear].
  - apply l_linked_false, l_remove_unlinked.
Qed.

(** A timeout function that stops the next timer of the list sends the timer thread
    into an endless loop: the loop of [rt_soft_timer_check] saved a pointer to the node
    of that timer, the node now leads to itself, and since its timeout lies in the past
    the loop handles the stopped timer again and again; no amount of fuel is enough. *)
Theorem rt_soft_timer_check_diverges fuel n s i j f g l tmi tmj :
  let cb (h : Z) (_ : Z) : K unit := if h =? f then _ ← rt_timer_stop (TUser j); mret tt else mret tt in
  0 ≤ n < 2 ^ 15 - 1 → at_level n s → f ≠ g →
  l_get (ks_rows s) SoftRow = TUser i :: TUser j :: l →
  ks_timers s !! TUser i = Some tmi → tm_func tmi = FUser f →
  flag_test (tm_flag tmi) RT_TIMER_FLAG_PERIODIC = false →
  u32 (ks_tick s - tm_timeout_tick tmi) < HALF →
  ks_timers s !! TUser j = Some tmj → tm_func tmj = FUser g → activated tmj →
  u32 (ks_tick s - tm_timeout_tick tmj) < HALF →
  rt_soft_timer_check cb (S fuel) s = Fault OutOfFuel.
Proof.
  intros cb Hn Ha Hfg Erow Hi Hfi Hper Hduei Hj Hfj Hact Hduej.
  set (s0 := set_ks_lock_nest (n + 1) s).
  assert (Ha0 : at_level (n + 1) s0) by (by eapply at_level_lock).
  assert (Hij : i ≠ j).
  { pose proof (ok_nodup _ (wf_rows _ (al_wf _ _ Ha)) SoftRow) as Hnd. rewrite Erow in Hnd.
    apply NoDup_cons in Hnd as [Hni _]. set_solver. }
  assert (Hstep : wp (soft_timer_expire cb (TUser i)) (λ c s', c = ks_tick s' ∧ stale n j g s') s0).
  { unfold soft_timer_expire.
    eapply (soft_call_spec cb n Hn _ _ (λ s1, ks_tick s1 = ks_tick s ∧
      ks_timers s1 = <[TUser j := clear_activated tmj]> (ks_timers s) ∧
      (∀ r, TUser j ∉ l_get (ks_rows s1) r)) s0 i tmi f); try done.
    - intros s1 Ha1 Er Et Etick. unfold cb. rewrite Z.eqb_refl. by apply stop_active.
    - intros s1 Ha1 (Etick & Et & Hno1). set (s2 := set_ks_lock_nest _ s1) in *.
      assert (Hi2 : ks_timers s2 !! TUser i = Some tmi).
      { simpl. rewrite Et, lookup_insert_ne by congruence. done. }
      wp_step. eapply wp_get_timer; [done|]. wp_step. rewrite Hper. simpl. eapply wp_upd_timer; [done|].
      wp_step. split; [done|]. set (s3 := set_ks_timers _ _). split; [|done|].
      + eapply at_level_ext; [exact Ha1|done|apply Ha1|done|].
        eapply (wf_timer_field _ s3 (al_wf _ _ Ha1) _ tmi (clear_activated tmi) Hi2); try done. apply kind_clear.
      + exists (clear_activated tmj). simpl. rewrite lookup_insert_ne, Et, lookup_insert_eq by congruence.
        split_and!; [done|apply activated_clear|done|by rewrite Etick]. }
  assert (Hloop : soft_timer_loop cb (S fuel) (ks_tick s) (Some (TUser i)) s0 = Fault OutOfFuel).
  { destruct (wp_inv _ _ _ (row_next_front s0 _ _ (λ p s', p = Some (TUser j) ∧ s' = s0) Erow ltac:(done)))
      as (p & ? & Enext & -> & ->).
    destruct (wp_inv _ _ _ Hstep) as (c & s' & Eexp & -> & Hst').
    rewrite (loop_step cb fuel s0 _ _ tmi _ _ _ _ Hi Hduei Enext Eexp).
    apply (stale_loop cb n j g); [done| |done]. intros q. unfold cb. by rewrite (proj2 (Z.eqb_neq _ _)). }
  unfold rt_soft_timer_check, rt_tick_get, rt_enter_critical, get, modify, mbind, SM_bind, mret, SM_ret.
  cbn -[soft_timer_loop]. rewrite (al_lock _ _ Ha).
  replace (i16 (n + 1)) with (n + 1) by (unfold i16; rewrite Z.mod_small; lia).
  fold s0. rewrite Erow. unfold head. by rewrite Hloop.
Qed.

(** ** The timer thread *)

(** Starting a soft timer: it is armed in the list of the soft timers, and the timer
    thread is made ready unless it already is. *)
Lemma soft_start_spec s i tm th :
  wf s → is_Some (ks_current s) → ks_timers s !! TUser i = Some tm → row_of_flag (tm_flag tm) = SoftRow →
  0 ≤ tm_init_tick tm < HALF → ks_threads s !! timer_thread = Some th → live th →
  wp (rt_timer_start (TUser i)) (λ r s', r = RT_EOK ∧ wf s' ∧ is_Some (ks_current s') ∧
    ∃ s1, armed (TUser i) tm s s1 ∧ l_get (ks_rows s') SoftRow = l_get (ks_rows s1) SoftRow ∧
      if th_stat th =? RT_THREAD_READY then s' = s1
      else ks_threads s' = <[timer_thread := set_th_stat RT_THREAD_READY th]> (ks_threads s)) s.
Proof.
  intros Hwf Hc Hi Hr Hinit Hth Hlive. unfold rt_timer_start. wp_step.
  eapply wp_mono; [by eapply timer_arm_spec|]. intros ? s1 Har.
  pose proof Har as [Hwf1 Et1 _ _ (Hfr1 & Hc1 & _) Etm1 _ _]. wp_step.
  eapply wp_get_timer; [rewrite Etm1; apply lookup_insert_eq|]. rewrite (soft_armed _ _ Hr).
  wp_step. simpl. wp_step. eapply wp_get_thread; [by rewrite Et1|].
  destruct (th_stat th =? RT_THREAD_READY) eqn:Est; unfold when; simpl.
  { wp_step. wp_step. split_and!; [done|done|by rewrite Hc1|]. by exists s1. }
  destruct Hlive as [Hl|Hst]; [by rewrite Hl in Est|].
  wp_step. eapply wp_mono; [eapply (thread_resume_spec s1 timer_thread th); [done|by rewrite Et1|done]|].
  intros ? s2 [_ [Hwf2 Et2 _ (Hfr2 & Hc2 & _) Er2 _]].
  eapply wp_mono; [apply (schedule_ready_spec s2); [done| |by rewrite Hc2, Hc1]|].
  { eexists timer_thread, _. by rewrite Et2, lookup_insert_eq. }
  intros ? s3 ((c & p & ->) & Hc3 & _). wp_step.
  split_and!; [done|by eapply wf_ext, Hwf2|done|]. exists s1. split_and!; [done| |by simpl; rewrite Et2, Et1].
  simpl. rewrite Er2. apply filter_ne_notin. intros Hin. by destruct (soft_user _ _ Hwf1 Hin).
Qed.

(** The timer of the timer thread expires. *)
Lemma timer_thread_expires cb s th :
  wf s → is_Some (ks_current s) → ks_threads s !! timer_thread = Some th → th_stat th = RT_THREAD_SUSPEND →
  wp (timer_expire cb (TThread timer_thread)) (λ _ s', wf s' ∧ is_Some (ks_current s') ∧ timer_runs s' ∧
    l_get (ks_rows s') SoftRow = l_get (ks_rows s) SoftRow ∧ ks_tick s' = ks_tick s) s.
Proof.
  intros Hwf [c Hc] Ht Hst. destruct (wf_timer _ Hwf _ _ Ht) as (tm & Htm & [Hf Hp _ Hper]); [by rewrite Hst|].
  unfold timer_expire. wp_step. unfold timer_remove. wp_step. wp_step. set (s0 := set_ks_rows _ s).
  assert (Hwf0 : wf s0) by (eapply (wf_timer_off s s0 Hwf _ tm tm Htm); try done; simpl; by rewrite insert_id).
  assert (Hrow : l_get (ks_rows s0) SoftRow = l_get (ks_rows s) SoftRow).
  { simpl. rewrite l_get_remove. apply filter_ne_notin. intros Hin. by destruct (soft_user _ _ Hwf Hin). }
  eapply wp_get_timer; [done|]. wp_step. unfold run_timeout. rewrite Hf, Hp.
  eapply wp_mono; [apply (thread_timeout_spec s0 timer_thread th c); try done; apply l_linked_false, l_remove_unlinked|].
  intros ? s1 (Hwf1 & Hfr & Et1 & Er1 & Etm1 & Hc1 & _). wp_step. eapply wp_get_timer; [by rewrite Etm1|].
  rewrite Hper. simpl. eapply wp_upd_timer; [by rewrite Etm1|]. set (s2 := set_ks_timers _ s1).
  assert (Hwf2 : wf s2).
  { eapply (wf_timer_field s1 s2 Hwf1 (TThread timer_thread) tm (clear_activated tm)); try done; [by rewrite Etm1|apply kind_clear|].
    intros t r [= <-]. rewrite Er1. intros Hin. exfalso. revert Hin. revert r. apply l_linked_false, l_remove_unlinked. }
  split_and!; [done|done| |by simpl; rewrite Er1|apply (fr_tick _ _ Hfr)].
  eexists. simpl. by rewrite Et1, lookup_insert_eq.
Qed.

(** The timer thread runs again after its wait. *)
Lemma timer_resumed_level s w :
  at_level 0 s → wp (match w with Delayed => _ ← rt_thread_sleep_resumed timer_thread; mret tt | _ => mret tt end)
    (λ _ s', at_level 0 s' ∧ ks_rows s' = ks_rows s ∧ ks_timers s' = ks_timers s ∧ ks_tick s' = ks_tick s) s.
Proof.
  intros Ha. destruct w; [by wp_step|by wp_step|]. destruct (al_thread _ _ Ha) as (th & Ht & Hst).
  wp_step. unfold rt_thread_sleep_resumed. wp_step. eapply wp_get_thread; [done|]. wp_step.
  unfold when. destruct (_ =? _); [|by repeat wp_step].
  eapply wp_upd_thread; [done|]. wp_step. wp_step. split_and!; [|done..].
  pose proof Ha as [Hwf _ Hc Hl]. split; [by apply wf_set_error| |done|done].
  exists (set_th_error RT_EOK th). simpl. by rewrite lookup_insert_eq.
Qed.

(** C33. The timer thread keeps time for soft timers.  When it waits, its own timer is armed for
    the very tick at which the first soft timer expires; when this timer expires, the thread is
    made ready; when it runs again, its check of the soft timers returns and leaves no expired
    one in the list; and when a soft timer is started while the thread waits, the thread is made
    ready, so that it looks at the new front of the list. *)
Theorem soft_timers_served s th :
  (running s timer_thread th → ∀ i l tm,
     l_get (ks_rows s) SoftRow = i :: l → ks_timers s !! i = Some tm → tm_timeout_tick tm ≠ RT_TICK_MAX →
     u32 (tm_timeout_tick tm - ks_tick s) < HALF → 0 ≤ tm_timeout_tick tm < 2 ^ 32 →
     wp timer_entry_turn (λ w s', w = Delayed ∧ wf s' ∧ picked s' ∧
       ks_threads s' !! timer_thread = Some (set_th_stat RT_THREAD_SUSPEND th) ∧
       TThread timer_thread ∈ l_get (ks_rows s') HardRow ∧
       timeout_of (ks_timers s') (TThread timer_thread) = tm_timeout_tick tm) s) ∧
  (wf s → is_Some (ks_current s) → ks_threads s !! timer_thread = Some th → th_stat th = RT_THREAD_SUSPEND →
   (∀ cb, wp (timer_expire cb (TThread timer_thread)) (λ _ s', wf s' ∧ timer_runs s' ∧
      l_get (ks_rows s') SoftRow = l_get (ks_rows s) SoftRow) s) ∧
   ∀ i tm, ks_timers s !! TUser i = Some tm → row_of_flag (tm_flag tm) = SoftRow →
     0 ≤ tm_init_tick tm < HALF →
     wp (rt_timer_start (TUser i)) (λ r s', r = RT_EOK ∧ wf s' ∧ TUser i ∈ l_get (ks_rows s') SoftRow ∧
       timer_runs s') s) ∧
  (∀ cb b fuel w, at_level 0 s → soft_callback cb 0 → off b (ks_tick s) < HALF →
     row_ready b (off b (ks_tick s)) s (l_get (ks_rows s) SoftRow) → (length (l_get (ks_rows s) SoftRow) ≤ fuel)%nat →
     wp (timer_entry_resumed cb fuel w) (λ _ s', wf s' ∧ ks_tick s' = ks_tick s ∧
       ∀ i, i ∈ l_get (ks_rows s') SoftRow → off b (ks_tick s) < dist b (ks_timers s') i) s).
Proof.
  split_and!.
  - intros Hr i l tm Erow Hi Hmax Hlt Hrange. unfold timer_entry_turn. wp_step.
    unfold rt_timer_list_next_timeout. wp_step. wp_step. rewrite Erow. wp_step. eapply wp_get_timer; [done|].
    wp_step. unfold timer_entry_wait. rewrite (proj2 (Z.eqb_neq _ _)) by done.
    wp_step. unfold rt_tick_get. wp_step. wp_step. wp_step. fold HALF. rewrite (proj2 (Z.ltb_lt _ _)) by done.
    assert (Hpos : 0 ≤ u32 (tm_timeout_tick tm - ks_tick s)) by (apply Z.mod_pos_bound; lia).
    wp_step. eapply wp_mono; [by apply (thread_sleep_spec s timer_thread th)|].
    intros ? s' (? & ? & Et & _ & ? & Eto). wp_step. split_and!; try done.
    + by rewrite Et, lookup_insert_eq.
    + rewrite Eto. unfold u32. rewrite Zplus_mod_idemp_r.
      replace (ks_tick s + (tm_timeout_tick tm - ks_tick s)) with (tm_timeout_tick tm) by lia. by apply Z.mod_small.
  - intros Hwf Hc Hth Hst. split.
    { intros cb. eapply wp_mono; [by eapply timer_thread_expires|]. intros ? s' (? & _ & ? & ? & _). by split_and!. }
    intros i tm Hi Hrow Hinit. eapply wp_mono; [eapply soft_start_spec; try done; by right|].
    intros r s' (-> & Hwf' & _ & s1 & Har & Er & Hcase). rewrite Hst in Hcase. simpl in Hcase.
    destruct (ar_row _ _ _ _ Har) as (l1 & l2 & _ & _ & El). rewrite Hrow in El. split_and!; [done|done| |].
    + rewrite Er, El. set_solver.
    + eexists. by rewrite Hcase, lookup_insert_eq.
  - intros cb b fuel w Ha Hcb Hnow Hrow Hf. unfold timer_entry_resumed. wp_step.
    eapply wp_mono; [by apply timer_resumed_level|]. intros ? s1 (Ha1 & Er & Et & Etick).
    eapply wp_mono; [apply (soft_check_spec cb 0 b fuel s1); try done; rewrite ?Er, ?Etick; try done|].
    + by unfold row_ready in *; rewrite Et.
    + intros ? s2 (Hwf2 & _ & Et2 & _ & Hno). rewrite Etick in *. by split_and!.
Qed.

(** A wake-up of the timer thread can be lost.  The thread reads that no soft timer runs,
    an interrupt handler starts one before the thread suspends itself, and since the
    thread is still ready [rt_timer_start] does not resume it: then the thread waits in
    no list and with no timer of its own, while the list of soft timers is not empty.
    Nothing but the start of another soft timer wakes it up. *)
Theorem soft_timer_wakeup_lost s th i tm :
  running s timer_thread th → l_get (ks_rows s) SoftRow = [] →
  ks_timers s !! TUser i = Some tm → row_of_flag (tm_flag tm) = SoftRow → 0 ≤ tm_init_tick tm < HALF →
  wp (next_timeout ← rt_timer_list_next_timeout SoftRow;
      _ ← rt_timer_start (TUser i);
      timer_entry_wait next_timeout) (λ w s', w = Suspended ∧ wf s' ∧
    l_get (ks_rows s') SoftRow = [TUser i] ∧
    ks_threads s' !! timer_thread = Some (set_th_stat RT_THREAD_SUSPEND th) ∧
    (∀ h, timer_thread ∉ l_get (ks_lists s') h) ∧
    (∀ r, TThread timer_thread ∉ l_get (ks_rows s') r)) s.
Proof.
  intros Hr Erow Hi Hrow Hinit. wp_step. unfold rt_timer_list_next_timeout. wp_step. wp_step. rewrite Erow.
  wp_step. wp_step.
  eapply wp_mono; [eapply (soft_start_spec s i tm th); try apply Hr; try done; [by eapply running_some|left; apply Hr]|].
  intros ? s' (_ & Hwf1 & _ & s1 & Har & Er & Hcase). rewrite (rn_ready _ _ _ Hr) in Hcase. simpl in Hcase. subst s'.
  destruct (ar_row _ _ _ _ Har) as (l1 & l2 & _ & El & El'). rewrite Hrow, Erow in *.
  symmetry in El. apply app_eq_nil in El as [-> ->]. simpl in El'.
  pose proof (ar_threads _ _ _ _ Har) as Et1. pose proof (ar_quiet _ _ _ _ Har) as (Hfr & Hc1 & _).
  unfold timer_entry_wait. simpl. wp_step. eapply wp_self; [by rewrite Hc1; apply Hr|]. wp_step.
  eapply wp_mono; [apply (thread_suspend_spec s1 timer_thread th); [done|rewrite Et1; apply Hr|apply Hr]|].
  intros ? s2 [_ [Hwf2 Et2 El2 (Hfr2 & Hc2 & _) Er2 _]]. wp_step.
  eapply wp_mono; [apply (schedule_ready_spec s2); [done| |]|].
  - destruct (rn_idle _ _ _ Hr) as (u & thu & Hne & Hu & Hsu). exists u, thu.
    by rewrite Et2, lookup_insert_ne, Et1.
  - rewrite Hc2, Hc1. by eapply running_some.
  - intros ? s3 ((c & p & ->) & _ & _). wp_step. simpl. split_and!; [done|by eapply wf_ext, Hwf2| | | |].
    + rewrite Er2, El'. by rewrite filter_cons_True.
    + by rewrite Et2, lookup_insert_eq.
    + intros h. rewrite El2, list_elem_of_filter. naive_solver.
    + intros r. rewrite Er2, list_elem_of_filter. naive_solver.
Qed.
