(* ===== verification/DataQueue.v ===== *)
(** Data queues, [rt-thread/components/drivers/src/dataqueue.c]: bounded queues of
    pointers with their sizes, on which threads wait to push and to pop.

    The indices are 16 bit counters that run on; they are compared after promotion to
    [int], without wrapping around. *)

From stdpp Require Import base gmap list fin_maps.
From Stdlib Require Import ZArith Lia.
From S2P Require Import Prelude IntrusiveList Kservice KState Object Sched Timer KInv SchedFacts TimerFacts.
From S2P Require Import Thread Ipc IpcFacts Ring.

Open Scope Z_scope.

Definition RT_DATAQUEUE_EVENT_POP : Z := 1.
Definition RT_DATAQUEUE_EVENT_PUSH : Z := 2.
Definition RT_DATAQUEUE_EVENT_LWM : Z := 3.

(** [struct rt_data_item]: the pointer and the size. *)
Definition rt_data_item : Type := Z * Z.

Record rt_data_queue := DataQueue {
  dq_size : Z;
  dq_lwm : Z;
  dq_get_index : Z;
  dq_put_index : Z;
  dq_queue : option (list rt_data_item);
  dq_evt_notify : option Z
}.
Definition set_dq_get (v : Z) (x : rt_data_queue) : rt_data_queue :=
  let '(DataQueue s l _ p q e) := x in DataQueue s l v p q e.
Definition set_dq_put (v : Z) (x : rt_data_queue) : rt_data_queue :=
  let '(DataQueue s l g _ q e) := x in DataQueue s l g v q e.
Definition set_dq_queue (v : option (list rt_data_item)) (x : rt_data_queue) : rt_data_queue :=
  let '(DataQueue s l g p _ e) := x in DataQueue s l g p v e.

Definition dqs : Type := gmap Z rt_data_queue.
Definition get_dq (a : Z) : SM dqs rt_data_queue := s ← get; of_option BadPointer (s !! a).
Definition put_dq (a : Z) (x : rt_data_queue) : SM dqs unit := modify (λ s, <[a := x]> s).

(** [items] is the memory [rt_malloc] returns, with its contents. *)
Definition rt_data_queue_init (a size lwm : Z) (evt_notify : option Z) (items : option (list rt_data_item)) :
    SM (layer dqs) Z :=
  own (put_dq a (DataQueue (u16 size) (u16 lwm) 0 0 None evt_notify));;
  kern (tlist_init (LDqPush a));;
  kern (tlist_init (LDqPop a));;
  x ← own (get_dq a);
  own (put_dq a (set_dq_queue items x));;
  mret (match items with None => - RT_ENOMEM | Some _ => RT_EOK end).

(** [queue->queue[index % queue->size]]: the place in the array. *)
Definition item_place (x : rt_data_queue) (index : Z) : SM dqs (list rt_data_item * nat) :=
  items ← of_option BadPointer (dq_queue x);
  let i := Z.to_nat (index mod dq_size x) in
  if negb (dq_size x =? 0) && (i <? length items)%nat then mret (items, i) else fail BadPointer.

Definition push_item (a : Z) (item : rt_data_item) : SM dqs unit :=
  x ← get_dq a;
  '(items, i) ← item_place x (dq_put_index x);
  put_dq a (set_dq_put (u16 (dq_put_index x + 1)) (set_dq_queue (Some (<[i := item]> items)) x)).
Definition front_item (a : Z) : SM dqs rt_data_item :=
  x ← get_dq a;
  '(items, i) ← item_place x (dq_get_index x);
  of_option BadPointer (items !! i).
Definition pop_item (a : Z) : SM dqs rt_data_item :=
  item ← front_item a;
  x ← get_dq a;
  put_dq a (set_dq_get (u16 (dq_get_index x + 1)) x);;
  mret item.

(** The blocking code of [rt_data_queue_push] and [rt_data_queue_pop]. *)
Definition dq_suspend (h : lhead) (timeout : Z) : K unit :=
  RT_DEBUG_NOT_IN_INTERRUPT;;
  t ← self;
  upd_thread t (set_th_error RT_EOK);;
  _ ← rt_thread_suspend t;
  tlist_insert_before h t;;
  wait_timer t timeout;;
  rt_schedule.

(** The first thread that waits in [h] is resumed. *)
Definition dq_wake (h : lhead) : K unit :=
  t ← tlist_first h;
  _ ← rt_thread_resume t;
  rt_schedule.

Section notify.
(** [queue->evt_notify(queue, event)], code of the driver. *)
Context (evt_notify : Z → Z → Z → SM (layer dqs) unit).

Definition notify (a event : Z) : SM (layer dqs) unit :=
  x ← own (get_dq a);
  match dq_evt_notify x with Some f => evt_notify f a event | None => mret tt end.

Definition push_loop (a : Z) (item : rt_data_item) (timeout : Z) : SM (layer dqs) (call Z unit) :=
  x ← own (get_dq a);
  if dq_put_index x - dq_get_index x =? dq_size x then
    if timeout =? 0 then mret (Return (- RT_ETIMEOUT))
    else kern (dq_suspend (LDqPush a) timeout);; mret (Wait tt)
  else
    own (push_item a item);;
    e ← kern (tlist_isempty (LDqPop a));
    (if (e : bool) then notify a RT_DATAQUEUE_EVENT_PUSH else kern (dq_wake (LDqPop a)));;
    mret (Return RT_EOK).
Definition rt_data_queue_push (a : Z) (item : rt_data_item) (timeout : Z) : SM (layer dqs) (call Z unit) :=
  push_loop a item timeout.
(** The thread [t] after the switch back. *)
Definition rt_data_queue_push_resumed (t a : Z) (item : rt_data_item) (timeout : Z) : SM (layer dqs) (call Z unit) :=
  th ← kern (get_thread t);
  if negb (th_error th =? RT_EOK) then mret (Return (th_error th)) else push_loop a item timeout.

Definition pop_loop (a timeout : Z) : SM (layer dqs) (call (Z * option rt_data_item) unit) :=
  x ← own (get_dq a);
  if dq_get_index x =? dq_put_index x then
    if timeout =? 0 then mret (Return (- RT_ETIMEOUT, None))
    else kern (dq_suspend (LDqPop a) timeout);; mret (Wait tt)
  else
    item ← own (pop_item a);
    x ← own (get_dq a);
    (if dq_put_index x - dq_get_index x <=? dq_lwm x then
       e ← kern (tlist_isempty (LDqPush a));
       (if (e : bool) then mret tt else kern (dq_wake (LDqPush a)));;
       notify a RT_DATAQUEUE_EVENT_LWM
     else notify a RT_DATAQUEUE_EVENT_POP);;
    mret (Return (RT_EOK, Some item)).
Definition rt_data_queue_pop (a timeout : Z) : SM (layer dqs) (call (Z * option rt_data_item) unit) :=
  pop_loop a timeout.
Definition rt_data_queue_pop_resumed (t a timeout : Z) : SM (layer dqs) (call (Z * option rt_data_item) unit) :=
  th ← kern (get_thread t);
  if negb (th_error th =? RT_EOK) then mret (Return (th_error th, None)) else pop_loop a timeout.
End notify.

Definition rt_data_queue_peak (a : Z) : SM (layer dqs) (Z * option rt_data_item) :=
  x ← own (get_dq a);
  if dq_get_index x =? dq_put_index x then mret (- RT_EEMPTY, None)
  else item ← own (front_item a); mret (RT_EOK, Some item).

Definition rt_data_queue_reset (a : Z) : SM (layer dqs) unit :=
  kern rt_enter_critical;;
  _ ← kern (resume_all (LDqPop a));
  _ ← kern (resume_all (LDqPush a));
  kern rt_exit_critical;;
  kern rt_schedule.

(** Data queues against a bounded FIFO queue, with the threads that wait on both ends;
    and what happens when the 16 bit indices wrap around. *)

(** ** The kernel side *)

(** It is the wake-up of the IPC objects. *)
Lemma dq_wake_eq s h (Q : unit → kstate → Prop) :
  wp (_ ← rt_ipc_list_resume h; rt_schedule) Q s → wp (dq_wake h) Q s.
Proof.
  unfold wp, dq_wake, rt_ipc_list_resume, mbind, SM_bind. destruct (tlist_first h s); [|done].
  by destruct (rt_thread_resume _ _).
Qed.
Lemma dq_wake_spec s h t l :
  wf s → wait_head h → is_Some (ks_current s) → l_get (ks_lists s) h = t :: l →
  wp (dq_wake h) (λ _ s', wf s' ∧ is_Some (ks_current s') ∧ woke h s s') s.
Proof.
  intros Hwf Hh Hc El. unfold woke. rewrite El.
  apply dq_wake_eq. eapply wp_mono; [by eapply wake_first_spec|].
  intros ? s' (th & s1 & Ht & Hst & Hrd & (c & p & ->) & Hwf' & Hc' & _).
  destruct (readied_front s s1 h t l th Hwf Hh El Hrd) as [El1 _]. split_and!; [done|done|done|].
  eexists. by simpl; rewrite (rd_threads _ _ _ _ Hrd), lookup_insert_eq.
Qed.

(** The thread waits at the end of the list, with its timer armed for the timeout. *)
Lemma dq_suspend_spec s h t th timeout :
  running s t th → wait_head h → timeout < HALF →
  wp (dq_suspend h timeout) (λ _ s', wf s' ∧ is_Some (ks_current s') ∧
    l_get (ks_lists s') h = l_get (ks_lists s) h ++ [t] ∧ wait_deadline t timeout s s' ∧
    ks_threads s' !! t = Some (set_th_stat RT_THREAD_SUSPEND (set_th_error RT_EOK th))) s.
Proof.
  intros Hr Hh Htime. unfold dq_suspend. wp_step. unfold RT_DEBUG_NOT_IN_INTERRUPT.
  wp_step. unfold rt_interrupt_get_nest. wp_step. wp_step. wp_step. wp_step; [by rewrite (rn_irq _ _ _ Hr)|].
  wp_step. eapply wp_self; [apply Hr|]. wp_step. eapply wp_upd_thread; [apply Hr|].
  pose proof (running_error _ _ _ RT_EOK Hr) as Hr1. set (s1 := set_ks_threads _ s) in *.
  eapply wp_bind_assoc, wp_bind, wp_mono; [eapply (wait_fifo_spec s1 h t); try apply Hr1; done|].
  intros ? s2 Hw. eapply wp_mono; [eapply park_spec; [exact Hw|done|apply Hr1|by eapply running_some]|].
  intros ? s' Hb. split_and!; [apply Hb|apply Hb| |apply Hb|].
  - rewrite (bk_list _ _ _ _ _ _ _ Hb). done.
  - rewrite (bk_threads _ _ _ _ _ _ _ Hb). apply lookup_insert_eq.
Qed.

(** ** The queue *)

(** The indices have not wrapped around, and at most [size] items are queued. *)
Record dq_ok (x : rt_data_queue) (items : list rt_data_item) : Prop := {
  dk_size : 0 < dq_size x < 2 ^ 16;
  dk_items : dq_queue x = Some items;
  dk_room : Z.of_nat (length items) = dq_size x;
  dk_index : 0 ≤ dq_get_index x ≤ dq_put_index x;
  dk_put : dq_put_index x < 2 ^ 16;
  dk_count : dq_put_index x - dq_get_index x ≤ dq_size x;
}.
(** The queued items, the oldest first. *)
Definition dq_items (x : rt_data_queue) : list rt_data_item :=
  match dq_queue x with
  | Some items => ring items (Z.to_nat (dq_size x)) (Z.to_nat (dq_get_index x))
                    (Z.to_nat (dq_put_index x - dq_get_index x))
  | None => []
  end.

Lemma wp_get_dq D a x (Q : rt_data_queue → dqs → Prop) : D !! a = Some x → Q x D → wp (get_dq a) Q D.
Proof. intros Hx HQ. unfold get_dq. wp_step. wp_step. by eapply wp_option. Qed.

Lemma item_place_spec x items index D (Q : list rt_data_item * nat → dqs → Prop) :
  dq_queue x = Some items → Z.of_nat (length items) = dq_size x → 0 < dq_size x → 0 ≤ index →
  Q (items, (Z.to_nat index mod Z.to_nat (dq_size x))%nat) D → wp (item_place x index) Q D.
Proof.
  intros Hi Hl Hs Hx HQ. unfold item_place. wp_step. eapply wp_option; [exact Hi|].
  rewrite Z2Nat.inj_mod by lia. rewrite (proj2 (Z.eqb_neq _ _)) by lia. simpl.
  rewrite (proj2 (Nat.ltb_lt _ _)); [by wp_step|].
  pose proof (Nat.mod_upper_bound (Z.to_nat index) (Z.to_nat (dq_size x))). lia.
Qed.

(** Pushing appends. *)
Lemma push_item_spec D a x items item :
  D !! a = Some x → dq_ok x items → dq_put_index x < 2 ^ 16 - 1 → dq_put_index x - dq_get_index x ≠ dq_size x →
  wp (push_item a item) (λ _ D', ∃ x' items', D' = <[a := x']> D ∧ dq_ok x' items' ∧
    dq_items x' = dq_items x ++ [item] ∧ dq_evt_notify x' = dq_evt_notify x) D.
Proof.
  intros Hx Hok Hput Hne. pose proof Hok as [Hs Hi Hl Hix Hp Hc]. unfold push_item.
  wp_step. eapply wp_get_dq; [done|]. wp_step. eapply item_place_spec; try done; [lia..|].
  unfold put_dq. wp_step. set (i := (_ mod _)%nat). eexists _, (<[i := item]> items). split; [done|].
  assert (Eu : u16 (dq_put_index x + 1) = dq_put_index x + 1) by (apply Z.mod_small; lia).
  destruct x as [sz lw g p q e]. simpl in *. subst q. split_and!; [split; simpl; rewrite ?Eu, ?length_insert; lia || done| |done].
  unfold dq_items. simpl. rewrite Eu. replace (Z.to_nat (p + 1 - g)) with (S (Z.to_nat (p - g))) by lia.
  rewrite <- ring_push by lia. unfold i. repeat f_equal. lia.
Qed.

(** The front item and popping it. *)
Lemma front_item_spec D a x items :
  D !! a = Some x → dq_ok x items → dq_get_index x ≠ dq_put_index x →
  wp (front_item a) (λ v D', D' = D ∧ head (dq_items x) = Some v) D.
Proof.
  intros Hx Hok Hne. pose proof Hok as [Hs Hi Hl Hix Hp Hc]. unfold front_item.
  wp_step. eapply wp_get_dq; [done|]. wp_step. eapply item_place_spec; try done; [lia..|].
  set (i := (_ mod _)%nat). assert (Hlt : (i < length items)%nat).
  { pose proof (Nat.mod_upper_bound (Z.to_nat (dq_get_index x)) (Z.to_nat (dq_size x))). unfold i. lia. }
  eapply wp_option; [by apply list_lookup_lookup_total_lt|]. split; [done|].
  unfold dq_items. rewrite Hi. replace (Z.to_nat (dq_put_index x - dq_get_index x))
    with (S (Z.to_nat (dq_put_index x - dq_get_index x - 1))) by lia.
  rewrite ring_pop by lia. done.
Qed.
Lemma pop_item_spec D a x items :
  D !! a = Some x → dq_ok x items → dq_get_index x ≠ dq_put_index x →
  wp (pop_item a) (λ v D', ∃ x', D' = <[a := x']> D ∧ dq_ok x' items ∧ dq_items x = v :: dq_items x' ∧
    dq_evt_notify x' = dq_evt_notify x ∧ dq_lwm x' = dq_lwm x) D.
Proof.
  intros Hx Hok Hne. unfold pop_item. wp_step. eapply wp_mono; [by eapply front_item_spec|].
  intros v ? [-> Hv]. wp_step. eapply wp_get_dq; [done|]. wp_step. unfold put_dq. wp_step. wp_step.
  eexists. split; [done|]. destruct Hok as [Hs Hi Hl Hix Hp Hc].
  assert (Eu : u16 (dq_get_index x + 1) = dq_get_index x + 1) by (apply Z.mod_small; lia).
  destruct x as [sz lw g p q e]. simpl in *. subst q. split_and!; [split; simpl; rewrite ?Eu; lia || done| |done|done].
  unfold dq_items in *. simpl in *. rewrite Eu.
  replace (Z.to_nat (p - g)) with (S (Z.to_nat (p - (g + 1)))) in * by lia.
  rewrite ring_pop in Hv |- * by lia. simpl in Hv. injection Hv as <-. f_equal.
  rewrite ring_mod. f_equal. lia.
Qed.

Lemma dq_items_length x items :
  dq_ok x items → Z.of_nat (length (dq_items x)) = dq_put_index x - dq_get_index x.
Proof. intros [Hs Hi Hl Hix Hp Hc]. unfold dq_items. rewrite Hi, ring_length. lia. Qed.

(** ** The operations *)

Section refine.
(** The notification function of the driver returns. *)
Context (evt_notify : Z → Z → Z → SM (layer dqs) unit).
Definition notify_returns : Prop := ∀ f a e s, ∃ s', evt_notify f a e s = Done tt s'.
Context (Hnotify : notify_returns).

Lemma notify_spec a e k D x (Q : unit → layer dqs → Prop) :
  D !! a = Some x → (∀ s', notify evt_notify a e (Layer k D) = Done tt s' → Q tt s') →
  wp (notify evt_notify a e) Q (Layer k D).
Proof.
  intros Hx HQ.
  assert (∃ s', notify evt_notify a e (Layer k D) = Done tt s') as [s' E].
  { unfold notify, mbind, SM_bind, own, get_dq, get, mbind, SM_bind. simpl. rewrite Hx. simpl.
    destruct (dq_evt_notify x); [apply Hnotify|by eexists]. }
  eapply wp_done; [exact E|]. by apply HQ.
Qed.

Definition dq_pushed (a t : Z) (item : rt_data_item) (timeout : Z) (x : rt_data_queue) (k : kstate) (D : dqs)
    (r : call Z unit) (s' : layer dqs) : Prop :=
  match r with
  | Return e =>
      (e = RT_EOK ∧ ∃ k1 x1 items1, dq_ok x1 items1 ∧ dq_items x1 = dq_items x ++ [item] ∧
         wf k1 ∧ is_Some (ks_current k1) ∧ woke (LDqPop a) k k1 ∧
         if l_isempty (ks_lists k) (LDqPop a)
         then notify evt_notify a RT_DATAQUEUE_EVENT_PUSH (Layer k1 (<[a := x1]> D)) = Done tt s'
         else s' = Layer k1 (<[a := x1]> D)) ∨
      (e = - RT_ETIMEOUT ∧ timeout = 0 ∧ Z.of_nat (length (dq_items x)) = dq_size x ∧ s' = Layer k D)
  | Wait _ => Z.of_nat (length (dq_items x)) = dq_size x ∧ timeout ≠ 0 ∧ l_own s' = D ∧ wf (l_kernel s') ∧
      l_get (ks_lists (l_kernel s')) (LDqPush a) = l_get (ks_lists k) (LDqPush a) ++ [t] ∧
      wait_deadline t timeout k (l_kernel s')
  end.

Lemma push_loop_spec k D a x items t th item timeout :
  running k t th → D !! a = Some x → dq_ok x items → dq_put_index x < 2 ^ 16 - 1 → timeout < HALF →
  wp (push_loop evt_notify a item timeout) (dq_pushed a t item timeout x k D) (Layer k D).
Proof.
  intros Hr Hx Hok Hput Htime. pose proof (dq_items_length _ _ Hok) as Hlen. unfold push_loop.
  wp_step. apply wp_own. eapply wp_get_dq; [done|].
  destruct (Z.eqb_spec (dq_put_index x - dq_get_index x) (dq_size x)) as [Hfull|Hfull].
  - destruct (Z.eqb_spec timeout 0) as [H0|H0].
    + wp_step. right. split_and!; [done|done|lia|done].
    + wp_step. apply wp_kern. eapply wp_mono; [by eapply dq_suspend_spec|].
      intros ? k' (Hwf & Hc & El & Hd & _). wp_step. split_and!; try done. lia.
  - wp_step. apply wp_own. eapply wp_mono; [by eapply push_item_spec|].
    intros ? D' (x1 & items1 & -> & Hok1 & Hq & Hn). wp_step. apply wp_kern. apply wp_tlist_isempty.
    assert (Hc : is_Some (ks_current k)) by (by eapply running_some).
    unfold l_isempty. destruct (l_get (ks_lists k) (LDqPop a)) as [|w ws] eqn:El.
    + wp_step. eapply notify_spec; [apply lookup_insert_eq|]. intros s' E. wp_step. left. split; [done|].
      exists k, x1, items1. split_and!; try done; [apply Hr|..]; unfold woke, l_isempty; by rewrite El.
    + wp_step. apply wp_kern. eapply wp_mono; [eapply dq_wake_spec; try done; apply Hr|].
      intros ? k' (Hwf & Hc' & Hw). wp_step. left. split; [done|].
      exists k', x1, items1. unfold l_isempty. by rewrite El.
Qed.

(** [rt_data_queue_push] implements a bounded FIFO queue as long as the 16 bit index of
    the writer has not reached its end: unless the queue is full the item is appended,
    and the first thread that waits to pop is made ready or, when none waits, the driver
    is notified; a full queue makes the call return a timeout at once (timeout 0) or
    wait at the end of the list of writers with the timeout armed.  A writer that is
    woken without an error goes on in the same way, one woken with an error returns it. *)
Theorem rt_data_queue_push_refines k D a x items t th item timeout :
  running k t th → D !! a = Some x → dq_ok x items → dq_put_index x < 2 ^ 16 - 1 → timeout < HALF →
  wp (rt_data_queue_push evt_notify a item timeout) (dq_pushed a t item timeout x k D) (Layer k D) ∧
  wp (rt_data_queue_push_resumed evt_notify t a item timeout) (λ r s',
    if th_error th =? RT_EOK then dq_pushed a t item timeout x k D r s'
    else r = Return (th_error th) ∧ s' = Layer k D) (Layer k D).
Proof.
  intros Hr Hx Hok Hput Htime. split; [by eapply push_loop_spec|].
  unfold rt_data_queue_push_resumed. wp_step. apply wp_kern. eapply wp_get_thread; [apply Hr|].
  destruct (th_error th =? RT_EOK); simpl; [by eapply push_loop_spec|by wp_step].
Qed.

Definition dq_popped (a t timeout : Z) (x : rt_data_queue) (k : kstate) (D : dqs)
    (r : call (Z * option rt_data_item) unit) (s' : layer dqs) : Prop :=
  match r with
  | Return (e, got) =>
      (e = RT_EOK ∧ ∃ k1 x1 items1 v, dq_ok x1 items1 ∧ dq_items x = v :: dq_items x1 ∧ got = Some v ∧
         wf k1 ∧ is_Some (ks_current k1) ∧
         (if Z.of_nat (length (dq_items x1)) <=? dq_lwm x
          then woke (LDqPush a) k k1 ∧
               notify evt_notify a RT_DATAQUEUE_EVENT_LWM (Layer k1 (<[a := x1]> D)) = Done tt s'
          else k1 = k ∧ notify evt_notify a RT_DATAQUEUE_EVENT_POP (Layer k1 (<[a := x1]> D)) = Done tt s')) ∨
      (e = - RT_ETIMEOUT ∧ got = None ∧ timeout = 0 ∧ dq_items x = [] ∧ s' = Layer k D)
  | Wait _ => dq_items x = [] ∧ timeout ≠ 0 ∧ l_own s' = D ∧ wf (l_kernel s') ∧
      l_get (ks_lists (l_kernel s')) (LDqPop a) = l_get (ks_lists k) (LDqPop a) ++ [t] ∧
      wait_deadline t timeout k (l_kernel s')
  end.

Lemma pop_loop_spec k D a x items t th timeout :
  running k t th → D !! a = Some x → dq_ok x items → timeout < HALF →
  wp (pop_loop evt_notify a timeout) (dq_popped a t timeout x k D) (Layer k D).
Proof.
  intros Hr Hx Hok Htime. pose proof (dq_items_length _ _ Hok) as Hlen. unfold pop_loop.
  wp_step. apply wp_own. eapply wp_get_dq; [done|].
  destruct (Z.eqb_spec (dq_get_index x) (dq_put_index x)) as [Hemp|Hemp].
  - assert (Hnil : dq_items x = []) by (apply nil_length_inv; lia).
    destruct (Z.eqb_spec timeout 0) as [H0|H0]; [wp_step; by right|].
    wp_step. apply wp_kern. eapply wp_mono; [by eapply dq_suspend_spec|].
    intros ? k' (Hwf & Hc & El & Hd & _). wp_step. done.
  - wp_step. apply wp_own. eapply wp_mono; [by eapply pop_item_spec|].
    intros v D' (x1 & -> & Hok1 & Hq & Hn & Hlw). wp_step. apply wp_own.
    eapply wp_get_dq; [apply lookup_insert_eq|]. rewrite <- (dq_items_length _ _ Hok1), Hlw.
    assert (Hc : is_Some (ks_current k)) by (by eapply running_some).
    destruct (Z.leb_spec (Z.of_nat (length (dq_items x1))) (dq_lwm x)) as [Hle|Hle]; wp_step.
    2:{ eapply notify_spec; [apply lookup_insert_eq|]. intros s' E. wp_step. left. split; [done|].
        exists k, x1, items, v. rewrite (proj2 (Z.leb_gt _ _)) by done. split_and!; try done. apply Hr. }
    wp_step. apply wp_kern. apply wp_tlist_isempty.
    eapply wp_bind, (wp_mono _ (λ _ s1, ∃ k1, s1 = Layer k1 (<[a := x1]> D) ∧ wf k1 ∧ is_Some (ks_current k1) ∧ woke (LDqPush a) k k1)).
    { unfold l_isempty. destruct (l_get (ks_lists k) (LDqPush a)) as [|w ws] eqn:El.
      - wp_step. exists k. split_and!; try done; [apply Hr|]. unfold woke. by rewrite El.
      - apply wp_kern. eapply wp_mono; [eapply dq_wake_spec; try done; apply Hr|]. intros ? k1 (? & ? & ?). by exists k1. }
    intros ? s1 (k1 & -> & Hwf1 & Hc1 & Hw). eapply notify_spec; [apply lookup_insert_eq|].
    intros s' E. wp_step. left. split; [done|]. exists k1, x1, items, v.
    rewrite (proj2 (Z.leb_le _ _)) by done. done.
Qed.

(** [rt_data_queue_pop] implements the other end of the queue: it returns the oldest
    item; when no more items than the low water mark are left, the first thread that
    waits to push is made ready and the driver notified of the low level, otherwise the
    driver is notified of the pop; an empty queue makes the call return a timeout at once
    or wait at the end of the list of readers. *)
Theorem rt_data_queue_pop_refines k D a x items t th timeout :
  running k t th → D !! a = Some x → dq_ok x items → timeout < HALF →
  wp (rt_data_queue_pop evt_notify a timeout) (dq_popped a t timeout x k D) (Layer k D) ∧
  wp (rt_data_queue_pop_resumed evt_notify t a timeout) (λ r s',
    if th_error th =? RT_EOK then dq_popped a t timeout x k D r s'
    else r = Return (th_error th, None) ∧ s' = Layer k D) (Layer k D).
Proof.
  intros Hr Hx Hok Htime. split; [by eapply pop_loop_spec|].
  unfold rt_data_queue_pop_resumed. wp_step. apply wp_kern. eapply wp_get_thread; [apply Hr|].
  destruct (th_error th =? RT_EOK); simpl; [by eapply pop_loop_spec|by wp_step].
Qed.
End refine.

(** Once the index of the writer has wrapped around and that of the reader has not, a
    full queue is not recognised: [put_index - get_index] is negative.  A push without a
    timeout, which should fail, succeeds and overwrites the oldest item: what the next
    reader gets is the item pushed last (for every size that divides [2^16], so that the
    places go on behind the wrap). *)
Theorem rt_data_queue_wrap_overwrites evt_notify k D a x items item :
  D !! a = Some x → dq_queue x = Some items → Z.of_nat (length items) = dq_size x → 0 < dq_size x →
  (dq_size x | 2 ^ 16) → dq_evt_notify x = None → l_get (ks_lists k) (LDqPop a) = [] →
  0 ≤ dq_put_index x < dq_get_index x → dq_get_index x < 2 ^ 16 →
  dq_put_index x + 2 ^ 16 - dq_get_index x = dq_size x →
  wp (r ← rt_data_queue_push evt_notify a item 0; p ← rt_data_queue_peak a; mret (r, p))
    (λ rp _, rp = (Return RT_EOK, (RT_EOK, Some item))) (Layer k D).
Proof.
  intros Hx Hi Hl Hs [m Hm] Hn El Hput Hget Hfull. unfold rt_data_queue_push, push_loop.
  wp_step. wp_step. apply wp_own. eapply wp_get_dq; [done|]. rewrite (proj2 (Z.eqb_neq _ _)) by lia.
  wp_step. apply wp_own. unfold push_item. wp_step. eapply wp_get_dq; [done|]. wp_step.
  eapply item_place_spec; try done; [lia|]. set (i := (_ mod _)%nat). unfold put_dq. wp_step. set (x1 := set_dq_put _ _).
  wp_step. apply wp_kern, wp_tlist_isempty. rewrite (proj2 (l_isempty_spec _ _) El). wp_step.
  unfold notify. wp_step. apply wp_own. eapply wp_get_dq; [apply lookup_insert_eq|].
  assert (En : dq_evt_notify x1 = None) by (unfold x1; by destruct x). rewrite En. wp_step. wp_step.
  wp_step. unfold rt_data_queue_peak. wp_step. apply wp_own. eapply wp_get_dq; [apply lookup_insert_eq|].
  assert (Eg : dq_get_index x1 = dq_get_index x) by (unfold x1; by destruct x).
  assert (Ep : dq_put_index x1 = dq_put_index x + 1) by (unfold x1; destruct x; simpl in *; apply Z.mod_small; lia).
  assert (Es : dq_size x1 = dq_size x) by (unfold x1; by destruct x).
  assert (Eq : dq_queue x1 = Some (<[i := item]> items)) by (unfold x1; by destruct x).
  rewrite Eg, Ep. destruct (Z.eqb_spec (dq_get_index x) (dq_put_index x + 1)) as [E1|E1].
  { assert (dq_size x = 65535) as E65 by lia. rewrite E65 in Hm. lia. }
  assert (Eplace : (Z.to_nat (dq_get_index x) mod Z.to_nat (dq_size x))%nat = i).
  { unfold i. rewrite <- !Z2Nat.inj_mod by lia. f_equal.
    replace (dq_get_index x) with (dq_put_index x + (m - 1) * dq_size x) by lia. apply Z_mod_plus_full. }
  wp_step. apply wp_own. unfold front_item. wp_step. eapply wp_get_dq; [apply lookup_insert_eq|]. wp_step.
  rewrite Eg. eapply item_place_spec; [exact Eq|by rewrite length_insert, Es|by rewrite Es|lia|].
  rewrite Es, Eplace. eapply wp_option; [apply list_lookup_insert_eq|by wp_step; wp_step].
  pose proof (Nat.mod_upper_bound (Z.to_nat (dq_put_index x)) (Z.to_nat (dq_size x))). unfold i. lia.
Qed.
