(* ===== verification/Completion.v ===== *)
(** Completions, [rt-thread/components/drivers/src/completion.c]: one thread waits for an
    event that another thread or an interrupt handler signals. *)

From stdpp Require Import base gmap list fin_maps.
From Stdlib Require Import ZArith Lia.
From S2P Require Import Prelude IntrusiveList Kservice KState Object Sched Timer KInv SchedFacts TimerFacts.
From S2P Require Import Thread Ipc IpcFacts DataQueue.

Open Scope Z_scope.

Definition RT_COMPLETED : Z := 1.
Definition RT_UNCOMPLETED : Z := 0.

(** The [flag] of each completion; its list is [LCompletion] of the kernel's lists. *)
Definition get_flag (a : Z) : SM (gmap Z Z) Z := s ← get; of_option BadPointer (s !! a).
Definition put_flag (a flag : Z) : SM (gmap Z Z) unit := modify (λ s, <[a := flag]> s).

Definition rt_completion_init (a : Z) : SM (layer (gmap Z Z)) unit :=
  own (put_flag a RT_UNCOMPLETED);;
  kern (tlist_init (LCompletion a)).

(** The waiting part, up to the context switch. *)
Definition completion_suspend (a timeout : Z) : K unit :=
  t ← self;
  upd_thread t (set_th_error RT_EOK);;
  _ ← rt_thread_suspend t;
  tlist_insert_before (LCompletion a) t;;
  RT_DEBUG_NOT_IN_INTERRUPT;;
  wait_timer t timeout;;
  rt_schedule.

Definition rt_completion_wait (a timeout : Z) : SM (layer (gmap Z Z)) (call Z unit) :=
  flag ← own (get_flag a);
  if negb (flag =? RT_COMPLETED) then
    e ← kern (tlist_isempty (LCompletion a));
    RT_ASSERT e;;
    if timeout =? 0 then mret (Return (- RT_ETIMEOUT))
    else kern (completion_suspend a timeout);; mret (Wait tt)
  else own (put_flag a RT_UNCOMPLETED);; mret (Return RT_EOK).
(** The thread [t] after the switch back. *)
Definition rt_completion_wait_resumed (t a : Z) : SM (layer (gmap Z Z)) Z :=
  th ← kern (get_thread t);
  own (put_flag a RT_UNCOMPLETED);;
  mret (th_error th).

Definition rt_completion_done (a : Z) : SM (layer (gmap Z Z)) unit :=
  flag ← own (get_flag a);
  if flag =? RT_COMPLETED then mret tt
  else
    own (put_flag a RT_COMPLETED);;
    e ← kern (tlist_isempty (LCompletion a));
    if negb e then kern (dq_wake (LCompletion a)) else mret tt.

(** * Facts *)

Lemma wp_get_flag D a f (Q : Z → gmap Z Z → Prop) : D !! a = Some f → Q f D → wp (get_flag a) Q D.
Proof. intros Hf HQ. unfold get_flag. wp_step. wp_step. by eapply wp_option. Qed.

(** The kernel leaves the waiting list of a completion as [l], with the thread at its
    end waiting until the timeout. *)
Lemma completion_suspend_spec s a t th timeout :
  running s t th → timeout < HALF →
  wp (completion_suspend a timeout) (λ _ s', wf s' ∧ is_Some (ks_current s') ∧
    l_get (ks_lists s') (LCompletion a) = l_get (ks_lists s) (LCompletion a) ++ [t] ∧
    wait_deadline t timeout s s' ∧
    ks_threads s' !! t = Some (set_th_stat RT_THREAD_SUSPEND (set_th_error RT_EOK th))) s.
Proof.
  intros Hr Htime. unfold completion_suspend. wp_step. eapply wp_self; [apply Hr|].
  wp_step. eapply wp_upd_thread; [apply Hr|].
  pose proof (running_error _ _ _ RT_EOK Hr) as Hr1. set (s1 := set_ks_threads _ s) in *.
  eapply wp_bind_assoc, wp_bind, wp_mono; [eapply (wait_fifo_spec s1 (LCompletion a) t); try apply Hr1; done|].
  intros ? s2 Hw. wp_step. unfold RT_DEBUG_NOT_IN_INTERRUPT, rt_interrupt_get_nest. do 3 wp_step. wp_step.
  assert (Hirq : ks_interrupt_nest s2 = 0).
  { rewrite (fr_irq _ _ (proj1 (wt_quiet _ _ _ _ _ _ Hw))). apply Hr. }
  wp_step; [by rewrite Hirq|].
  eapply wp_mono; [eapply park_spec; [exact Hw|done|apply Hr1|by eapply running_some]|].
  intros ? s' Hb. split_and!; [apply Hb|apply Hb| |apply Hb|].
  - rewrite (bk_list _ _ _ _ _ _ _ Hb). done.
  - rewrite (bk_threads _ _ _ _ _ _ _ Hb). apply lookup_insert_eq.
Qed.

(** What [rt_completion_wait] does on each branch. *)
Definition completion_waited (a t timeout flag : Z) (k : kstate) (D : gmap Z Z)
    (th : rt_thread) (r : call Z unit) (s' : layer (gmap Z Z)) : Prop :=
  match r with
  | Return e =>
      (e = RT_EOK ∧ flag = RT_COMPLETED ∧ s' = Layer k (<[a := RT_UNCOMPLETED]> D)) ∨
      (e = - RT_ETIMEOUT ∧ flag ≠ RT_COMPLETED ∧ timeout = 0 ∧ s' = Layer k D)
  | Wait _ => flag ≠ RT_COMPLETED ∧ timeout ≠ 0 ∧ l_own s' = D ∧
      wf (l_kernel s') ∧ is_Some (ks_current (l_kernel s')) ∧
      l_get (ks_lists (l_kernel s')) (LCompletion a) = [t] ∧ wait_deadline t timeout k (l_kernel s') ∧
      ks_threads (l_kernel s') !! t = Some (set_th_stat RT_THREAD_SUSPEND (set_th_error RT_EOK th))
  end.

Lemma completion_wait_spec k D a flag t th timeout :
  running k t th → D !! a = Some flag → l_get (ks_lists k) (LCompletion a) = [] → timeout < HALF →
  wp (rt_completion_wait a timeout) (completion_waited a t timeout flag k D th) (Layer k D).
Proof.
  intros Hr Hf El Htime. unfold rt_completion_wait. wp_step. apply wp_own. eapply wp_get_flag; [done|].
  destruct (Z.eqb_spec flag RT_COMPLETED) as [E|E]; simpl.
  { wp_step. apply wp_own. unfold put_flag. wp_step. wp_step. by left. }
  wp_step. apply wp_kern, wp_tlist_isempty. wp_step. apply wp_assert; [by apply l_isempty_spec|].
  destruct (Z.eqb_spec timeout 0); [wp_step; by right|].
  wp_step. apply wp_kern. eapply wp_mono; [by eapply completion_suspend_spec|].
  intros ? k' (? & ? & El' & ? & ?). wp_step. rewrite El in El'. split_and!; done.
Qed.

Lemma completion_done_spec k D a flag :
  wf k → is_Some (ks_current k) → D !! a = Some flag → flag ≠ RT_COMPLETED →
  wp (rt_completion_done a) (λ _ s', wf (l_kernel s') ∧ is_Some (ks_current (l_kernel s')) ∧
    l_own s' = <[a := RT_COMPLETED]> D ∧
    match l_get (ks_lists k) (LCompletion a) with
    | [] => l_kernel s' = k
    | w :: _ => ∃ th, ks_threads k !! w = Some th ∧
        ks_threads (l_kernel s') !! w = Some (set_th_stat RT_THREAD_READY th)
    end) (Layer k D).
Proof.
  intros Hwf Hc Hf Hne. unfold rt_completion_done. wp_step. apply wp_own. eapply wp_get_flag; [done|].
  rewrite (proj2 (Z.eqb_neq _ _)) by done. wp_step. apply wp_own. unfold put_flag. wp_step. wp_step.
  apply wp_kern, wp_tlist_isempty. unfold l_isempty. destruct (l_get (ks_lists k) (LCompletion a)) as [|w ws] eqn:El; simpl.
  { by wp_step. }
  apply wp_kern, dq_wake_eq. eapply wp_mono; [by eapply wake_first_spec|].
  intros ? s' (th & s1 & Ht & Hst & Hrd & (c & p & ->) & Hwf' & Hc' & _). split_and!; try done.
  exists th. split; [done|]. simpl. by rewrite (rd_threads _ _ _ _ Hrd), lookup_insert_eq.
Qed.

(** A completion is a one-place signal.  [rt_completion_wait] on each branch: a signal
    that is there is taken at once; without one the call fails (timeout 0) or the thread
    waits, alone, with its timeout armed.  A signal that comes while the thread waits
    makes it ready, and the call returns without an error and takes the signal; a signal
    that comes first is kept for the next wait. *)
Theorem rt_completion_handshake k D a flag t th timeout :
  running k t th → D !! a = Some flag → l_get (ks_lists k) (LCompletion a) = [] → timeout < HALF →
  wp (rt_completion_wait a timeout) (completion_waited a t timeout flag k D th) (Layer k D) ∧
  (flag ≠ RT_COMPLETED → timeout ≠ 0 →
     wp (_ ← rt_completion_wait a timeout; rt_completion_done a;; rt_completion_wait_resumed t a)
       (λ e s', e = RT_EOK ∧ l_own s' = <[a := RT_UNCOMPLETED]> D ∧ wf (l_kernel s') ∧
          ∃ th', ks_threads (l_kernel s') !! t = Some th' ∧ th_stat th' = RT_THREAD_READY) (Layer k D)) ∧
  wp (rt_completion_done a;; rt_completion_wait a timeout)
    (λ r s', r = Return RT_EOK ∧ s' = Layer k (<[a := RT_UNCOMPLETED]> D)) (Layer k D).
Proof.
  intros Hr Hf El Htime. split; [by apply completion_wait_spec|]. split.
  - intros Hne H0. wp_step. eapply wp_mono; [by apply completion_wait_spec|].
    intros [e|[]] [k1 D1]; simpl; [naive_solver|]. intros (_ & _ & -> & Hwf1 & Hc1 & El1 & _ & Ht1). wp_step.
    eapply wp_mono; [by apply (completion_done_spec k1 D a flag)|].
    intros [] [k2 D2]. simpl. rewrite El1. intros (Hwf2 & _ & -> & th1 & Ht1' & Ht2). simplify_eq.
    unfold rt_completion_wait_resumed. wp_step. apply wp_kern. eapply wp_get_thread; [done|].
    wp_step. apply wp_own. unfold put_flag. wp_step. wp_step. simpl.
    split_and!; [done|by rewrite insert_insert_eq|done|by eexists].
  - wp_step. eapply (wp_mono _ (λ _ s', s' = Layer k (<[a := RT_COMPLETED]> D))).
    { destruct (decide (flag = RT_COMPLETED)) as [->|Hne].
      - unfold rt_completion_done. wp_step. apply wp_own. eapply wp_get_flag; [done|]. simpl. wp_step.
        by rewrite insert_id.
      - eapply wp_mono; [apply (completion_done_spec k D a flag); try done; [apply Hr|by eapply running_some]|].
        intros [] [k' D']. simpl. rewrite El. by intros (_ & _ & -> & ->). }
    intros ? ? ->. eapply wp_mono; [eapply (completion_wait_spec k _ a RT_COMPLETED); try done; apply lookup_insert_eq|].
    intros [e|[]] s'; simpl; [|naive_solver]. intros [(-> & _ & ->)|(_ & ? & _)]; [|done].
    by rewrite insert_insert_eq.
Qed.

(** A signal that comes after the timeout of the waiting thread, but before the thread
    runs again, is lost: the thread reports the timeout and clears the flag, so that
    neither it nor the next wait sees the signal. *)
Theorem rt_completion_signal_lost k D a flag t th timeout :
  running k t th → D !! a = Some flag → flag ≠ RT_COMPLETED →
  l_get (ks_lists k) (LCompletion a) = [] → 0 < timeout < HALF →
  wp (_ ← rt_completion_wait a timeout;
      kern (timer_remove (TThread t);; rt_thread_timeout t);;
      rt_completion_done a;; rt_completion_wait_resumed t a)
    (λ e s', e = - RT_ETIMEOUT ∧ l_own s' = <[a := RT_UNCOMPLETED]> D) (Layer k D).
Proof.
  intros Hr Hf Hne El Htime. wp_step. eapply wp_mono; [apply completion_wait_spec; try done; lia|].
  intros [e|[]] [k1 D1]; simpl; [naive_solver lia|]. intros (_ & _ & -> & Hwf1 & [c1 Hc1] & El1 & _ & Ht1).
  set (th1 := set_th_stat _ _) in Ht1. destruct (wf_timer _ Hwf1 _ _ Ht1 ltac:(done)) as (tm & Htm & _).
  wp_step. apply wp_kern. wp_step. unfold timer_remove. wp_step. set (k2 := set_ks_rows _ k1).
  assert (Hwf2 : wf k2).
  { eapply (wf_timer_off k1 k2 Hwf1 _ tm tm Htm); try done. simpl. by rewrite insert_id. }
  eapply wp_mono; [eapply (thread_timeout_spec k2 t th1); try done; apply l_linked_false, l_remove_unlinked|].
  intros [] k3 (Hwf3 & _ & Et3 & _ & _ & Hc3 & El3). wp_step.
  eapply wp_mono; [by apply (completion_done_spec k3 D a flag)|].
  intros [] [k4 D4]. simpl. rewrite (El3 (LCompletion a)) by done. simpl. rewrite El1.
  rewrite filter_cons_False by naive_solver. intros (_ & _ & -> & ->).
  unfold rt_completion_wait_resumed. wp_step. apply wp_kern.
  eapply wp_get_thread; [rewrite Et3; apply lookup_insert_eq|].
  wp_step. apply wp_own. unfold put_flag. wp_step. wp_step. simpl. by rewrite insert_insert_eq.
Qed.
