(* ===== verification/WorkQueue.v ===== *)
(** Work queues, [rt-thread/components/drivers/src/workqueue.c]: a thread that runs the
    work items other threads put into its list. *)

From stdpp Require Import base gmap list fin_maps strings.
From Stdlib Require Import ZArith Lia Ascii.
From S2P Require Import Prelude IntrusiveList Kservice Printf KState Object Sched Timer KInv SchedFacts.
From S2P Require Import TimerFacts Thread Ipc IpcFacts Sem.

Open Scope Z_scope.

Record rt_workqueue := WorkQueue { wq_work_current : option Z; wq_work_thread : option Z }.
Record rt_work := Work { wk_func : Z; wk_data : Z }.

(** The lists of the queues (by the address of the queue; the nodes are the addresses of
    the work items), the queues and the work items. *)
Record wqs := WQS { wq_lists : gmap Z (list Z); wq_queues : gmap Z rt_workqueue; wq_works : gmap Z rt_work }.

(** The member [sem] of the queue at [a]. *)
Definition wq_sem (a : Z) : Z := a + 12.

Definition get_wq (a : Z) : SM wqs rt_workqueue := s ← get; of_option BadPointer (wq_queues s !! a).
Definition put_wq (a : Z) (x : rt_workqueue) : SM wqs unit :=
  modify (λ s, WQS (wq_lists s) (<[a := x]> (wq_queues s)) (wq_works s)).
Definition set_wq_lists (f : gmap Z (list Z) → gmap Z (list Z)) : SM wqs unit :=
  modify (λ s, WQS (f (wq_lists s)) (wq_queues s) (wq_works s)).
Definition set_current (a : Z) (w : option Z) : SM wqs unit :=
  x ← get_wq a; put_wq a (WorkQueue w (wq_work_thread x)).

Definition rt_work_init (w func data : Z) : SM wqs unit :=
  s ← get;
  if l_linked (wq_lists s) w then fail ListCorrupt
  else modify (λ s, WQS (wq_lists s) (wq_queues s) (<[w := Work func data]> (wq_works s))).

(** [block], [tblock] and [stack] are the results of the allocations of the queue, the
    thread and its stack; [entry] is the address of [_workqueue_thread_entry]. *)
Definition rt_workqueue_create (block tblock stack : option Z) (name : list Z) (entry stack_size priority : Z) :
    SM (layer wqs) (option Z) :=
  match block with
  | None => mret None
  | Some a =>
    own (set_wq_lists (l_init a));;
    own (put_wq a (WorkQueue None None));;
    _ ← kern (rt_sem_init (wq_sem a) (text "wqueue") 0 RT_IPC_FLAG_FIFO);
    t ← kern (rt_thread_create tblock stack name entry a (u16 stack_size) (u8 priority) 10);
    own (put_wq a (WorkQueue None t));;
    match t with
    | None => kern (RT_KERNEL_FREE a);; mret None
    | Some t => _ ← kern (rt_thread_startup t); mret (Some a)
    end
  end.

Definition rt_workqueue_destroy (a : Z) : SM (layer wqs) Z :=
  x ← own (get_wq a);
  t ← of_option BadPointer (wq_work_thread x);
  _ ← kern (rt_thread_delete t);
  kern (RT_KERNEL_FREE a);;
  mret RT_EOK.

(** [rt_list_remove(&(work->list))] and insertion at the end of the list. *)
Definition work_link (a w : Z) : SM wqs unit :=
  set_wq_lists (l_remove w);; set_wq_lists (l_insert_before a w).

Definition rt_workqueue_dowork (a w : Z) : SM (layer wqs) Z :=
  x ← own (get_wq a);
  if bool_decide (wq_work_current x = Some w) then mret (- RT_EBUSY)
  else
    own (work_link a w);;
    (if bool_decide (wq_work_current x = None) then
       t ← of_option BadPointer (wq_work_thread x);
       _ ← kern (rt_thread_resume t);
       kern rt_schedule
     else mret tt);;
    mret RT_EOK.
Definition rt_workqueue_critical_work (a w : Z) : SM (layer wqs) Z := rt_workqueue_dowork a w.

Definition rt_workqueue_cancel_work (a w : Z) : SM (layer wqs) Z :=
  x ← own (get_wq a);
  if bool_decide (wq_work_current x = Some w) then mret (- RT_EBUSY)
  else own (set_wq_lists (l_remove w));; mret RT_EOK.

(** The result of the wait for the semaphore is not looked at. *)
Definition rt_workqueue_cancel_work_sync (a w : Z) : SM (layer wqs) (call Z unit) :=
  x ← own (get_wq a);
  if bool_decide (wq_work_current x = Some w) then
    r ← kern (rt_sem_take (wq_sem a) (-1));
    match r with Return _ => mret (Return RT_EOK) | Wait _ => mret (Wait tt) end
  else own (set_wq_lists (l_remove w));; mret (Return RT_EOK).
Definition rt_workqueue_cancel_work_sync_resumed : SM (layer wqs) Z := mret RT_EOK.

(** The loop removes node by node until the list is empty. *)
Definition rt_workqueue_cancel_all_work (a : Z) : SM (layer wqs) Z :=
  kern rt_enter_critical;;
  s ← get;
  own (set_wq_lists (λ L, foldl (λ L w, l_remove w L) L (l_get (wq_lists (l_own s)) a)));;
  kern rt_exit_critical;;
  mret RT_EOK.

(** * The worker *)

(** The loop of [_workqueue_work_completion]. *)
Fixpoint completion_loop (fuel : nat) (sem : Z) : K Z :=
  match fuel with
  | O => fail OutOfFuel
  | S fuel =>
    r ← rt_sem_trytake sem;
    match r with
    | Return result =>
      if result =? - RT_ETIMEOUT then _ ← rt_sem_release sem; completion_loop fuel sem
      else if result =? RT_EOK then mret RT_EOK
      else mret (- RT_ERROR)
    | Wait _ => fail BadPointer
    end
  end.
Definition workqueue_work_completion (fuel : nat) (a : Z) : K Z :=
  rt_enter_critical;;
  result ← completion_loop fuel (wq_sem a);
  rt_exit_critical;;
  mret result.

(** The start of a turn of [_workqueue_thread_entry]: the test of the list, and the
    suspension of the thread when it was empty. *)
Definition worker_test (a : Z) : SM (layer wqs) bool :=
  s ← get; mret (l_isempty (wq_lists (l_own s)) a).
Definition worker_suspend : K unit :=
  t ← self; _ ← rt_thread_suspend t; rt_schedule.
(** [rt_list_entry] of the head of an empty list is not a work item. *)
Definition worker_take (a : Z) : SM wqs Z :=
  s ← get;
  w ← of_option BadPointer (head (l_get (wq_lists s) a));
  set_wq_lists (l_remove w);;
  set_current a (Some w);;
  mret w.

Section worker.
(** [work->work_func(work, work->work_data)], code of the application. *)
Context (work_func : Z → Z → Z → SM (layer wqs) unit).

(** The rest of the turn. *)
Definition worker_turn (fuel : nat) (a : Z) : SM (layer wqs) unit :=
  w ← own (worker_take a);
  s ← get;
  x ← of_option BadPointer (wq_works (l_own s) !! w);
  work_func (wk_func x) w (wk_data x);;
  own (set_current a None);;
  _ ← kern (workqueue_work_completion fuel a);
  mret tt.
End worker.

(** Work queues: the acknowledgement of finished work, queueing, and two ways in which
    the worker and its clients miss each other. *)

Definition is_ready (s : kstate) (t : Z) : Prop :=
  ∃ th, ks_threads s !! t = Some th ∧ th_stat th = RT_THREAD_READY.

(** Inside the scheduler lock, with the semaphore of the queue at zero. *)
Record acking (sem : Z) (x : rt_semaphore) (n : Z) (s : kstate) : Prop := {
  ak_wf : wf s;
  ak_current : is_Some (ks_current s);
  ak_sem : ks_sems s !! sem = Some x;
  ak_zero : sem_value x = 0;
  ak_lock : ks_lock_nest s = n;
}.

Lemma trytake_zero sem x s :
  ks_sems s !! sem = Some x → sem_value x = 0 → rt_sem_trytake sem s = Done (Return (- RT_ETIMEOUT)) s.
Proof.
  intros Hx Hv. unfold rt_sem_trytake, rt_sem_take, get_sem, get, mbind, SM_bind. rewrite Hx. simpl. by rewrite Hv.
Qed.

Lemma completion_loop_spec sem x n fuel s :
  acking sem x n s → (length (l_get (ks_lists s) (LSem sem)) + 2 ≤ fuel)%nat →
  wp (completion_loop fuel sem) (λ r s', r = RT_EOK ∧ acking sem x n s' ∧
    l_get (ks_lists s') (LSem sem) = [] ∧
    (∀ t, t ∈ l_get (ks_lists s) (LSem sem) ∨ is_ready s t → is_ready s' t)) s.
Proof.
  revert s. induction fuel as [|fuel IH]; intros s Hak Hfuel; [lia|]. pose proof Hak as [Hwf Hc Hx Hv Hlk].
  simpl. wp_step. eapply wp_done; [by eapply trytake_zero|]. simpl. wp_step.
  unfold rt_sem_release. wp_step. apply wp_tlist_isempty. unfold l_isempty.
  destruct (l_get (ks_lists s) (LSem sem)) as [|w ws] eqn:El; simpl in Hfuel.
  - wp_step. eapply wp_upd_sem; [done|]. wp_step. destruct fuel as [|fuel]; [lia|].
    simpl. wp_step. unfold rt_sem_trytake, rt_sem_take. wp_step.
    eapply wp_get_sem; [apply lookup_insert_eq|]. simpl. rewrite Hv. simpl.
    wp_step. unfold put_sem. wp_step. wp_step. simpl. wp_step.
    set (x1 := set_sem_value _ _). assert (x1 = x) as -> by (unfold x1; destruct x; simpl in *; by subst).
    split_and!; [done|split; try done| |].
    + by eapply wf_ext, Hwf.
    + simpl. by rewrite lookup_insert_eq.
    + done.
    + intros t [Hin|Hr]; [by apply not_elem_of_nil in Hin|done].
  - wp_step. eapply wp_mono; [by eapply wake_first_spec|].
    intros ? s' (th & s1 & Ht & Hst & Hrd & Hsw & Hwf' & Hc' & _). wp_step.
    destruct (readied_front s s1 (LSem sem) w ws th Hwf I El Hrd) as [El1 _].
    destruct (rd_quiet _ _ _ _ Hrd) as (Hfr & _). destruct Hsw as (c & p & ->).
    assert (Hak' : acking sem x n (set_ks_current c (set_ks_current_priority p s1))).
    { split; try done; simpl; [by rewrite (fr_sems _ _ Hfr)|by rewrite (fr_lock _ _ Hfr)]. }
    eapply wp_mono; [apply IH; [done|simpl; rewrite El1; lia]|].
    intros r s2 (-> & Hak2 & El2 & Hrdy). split_and!; try done. intros t Ht'. apply Hrdy.
    assert (Hkeep : ∀ u, is_ready s u ∨ u = w → is_ready (set_ks_current c (set_ks_current_priority p s1)) u).
    { intros u Hu. destruct (decide (u = w)) as [->|Hne].
      - eexists. simpl. by rewrite (rd_threads _ _ _ _ Hrd), lookup_insert_eq.
      - destruct Hu as [(thu & ? & ?)|?]; [|done]. exists thu. simpl.
        by rewrite (rd_threads _ _ _ _ Hrd), lookup_insert_ne. }
    destruct Ht' as [[->|Hin]%elem_of_cons|Hr]; [right; apply Hkeep; by right| |right; apply Hkeep; by left].
    left. simpl. by rewrite El1.
Qed.

(** The acknowledgement of finished work terminates: [_workqueue_work_completion] wakes
    every thread that waits in [rt_workqueue_cancel_work_sync], one release of the
    semaphore for each, leaves the semaphore at zero and the scheduler lock as it was. *)
Theorem workqueue_completion_wakes_all fuel a x n s :
  acking (wq_sem a) x n s → 0 ≤ n < 2 ^ 15 - 1 → some_ready s →
  (length (l_get (ks_lists s) (LSem (wq_sem a))) + 2 ≤ fuel)%nat →
  wp (workqueue_work_completion fuel a) (λ r s', r = RT_EOK ∧ acking (wq_sem a) x n s' ∧
    l_get (ks_lists s') (LSem (wq_sem a)) = [] ∧
    ∀ t, t ∈ l_get (ks_lists s) (LSem (wq_sem a)) → is_ready s' t) s.
Proof.
  intros Hak Hn (u & thu & Hu & Hsu) Hfuel. pose proof Hak as [Hwf Hc Hx Hv Hlk].
  unfold workqueue_work_completion. wp_step.
  apply wp_enter_critical; [by rewrite Hlk|]. rewrite Hlk. set (s0 := set_ks_lock_nest (n + 1) s). wp_step.
  eapply wp_mono; [apply (completion_loop_spec (wq_sem a) x (n + 1) fuel s0); [|done]|].
  { split; try done. by eapply wf_ext, Hwf. }
  intros r s1 (-> & Hak1 & El1 & Hrdy). pose proof Hak1 as [Hwf1 Hc1 Hx1 _ Hlk1]. wp_step.
  eapply wp_mono; [apply (exit_critical_spec n s1); try done|].
  { destruct (Hrdy u) as (th & ? & ?); [right; by exists thu|]. by exists u, th. }
  intros ? s2 (Hwf2 & Hlk2 & Hcase). wp_step.
  assert (Hs2 : ks_sems s2 = ks_sems s1 ∧ ks_lists s2 = ks_lists s1 ∧ ks_threads s2 = ks_threads s1 ∧ is_Some (ks_current s2)).
  { destruct (n =? 0); [|by subst s2]. destruct Hcase as [(c & p & ->) (? & t & _ & Ht)]. by rewrite Ht. }
  destruct Hs2 as (E1 & E2 & E3 & Hc2). split_and!; [done| |by rewrite E2|].
  - split; try done. by rewrite E1.
  - intros t Hin. destruct (Hrdy t) as (th & ? & ?); [by left|]. exists th. by rewrite E3.
Qed.

(** ** Queueing *)

Lemma wp_get_wq W a x (Q : rt_workqueue → wqs → Prop) :
  wq_queues W !! a = Some x → Q x W → wp (get_wq a) Q W.
Proof. intros Hx HQ. unfold get_wq. wp_step. wp_step. by eapply wp_option. Qed.

(** The lists after [w] was put at the end of the queue [a]. *)
Definition work_queued (a w : Z) (L L' : gmap Z (list Z)) : Prop :=
  l_ok L' ∧ l_get L' a = filter (λ x, x ≠ w) (l_get L a) ++ [w] ∧
  ∀ b, b ≠ a → l_get L' b = filter (λ x, x ≠ w) (l_get L b).

Lemma work_link_spec W a w (Q : unit → wqs → Prop) :
  l_ok (wq_lists W) →
  (∀ L', work_queued a w (wq_lists W) L' → Q tt (WQS L' (wq_queues W) (wq_works W))) →
  wp (work_link a w) Q W.
Proof.
  intros Hok HQ. unfold work_link, set_wq_lists. wp_step. wp_step. wp_step. simpl. apply HQ. split_and!.
  - apply l_insert_before_ok; [by apply l_remove_ok|apply l_remove_unlinked].
  - by rewrite l_get_insert_before, decide_True, l_get_remove.
  - intros b Hb. by rewrite l_get_insert_before, decide_False, l_get_remove.
Qed.

(** Work for an idle worker. *)
Lemma dowork_idle k W a w x t th :
  wf k → is_Some (ks_current k) → l_ok (wq_lists W) → wq_queues W !! a = Some x →
  wq_work_thread x = Some t → wq_work_current x = None →
  ks_threads k !! t = Some th → th_stat th = RT_THREAD_SUSPEND →
  wp (rt_workqueue_dowork a w) (λ r s', r = RT_EOK ∧ wf (l_kernel s') ∧ is_ready (l_kernel s') t ∧
    ∃ L', work_queued a w (wq_lists W) L' ∧ l_own s' = WQS L' (wq_queues W) (wq_works W)) (Layer k W).
Proof.
  intros Hwf Hc Hok Hx Ht Hcur Hth Hst. unfold rt_workqueue_dowork. wp_step. apply wp_own. eapply wp_get_wq; [done|].
  rewrite bool_decide_eq_false_2 by (by rewrite Hcur). rewrite bool_decide_eq_true_2 by done.
  wp_step. apply wp_own. apply work_link_spec; [done|]. intros L' HL.
  wp_step. wp_step. eapply wp_option; [done|]. wp_step. apply wp_kern.
  eapply wp_mono; [by eapply thread_resume_spec|]. intros ? k1 [_ [Hwf1 Et1 _ (_ & Hc1 & _) _ _]].
  apply wp_kern. eapply wp_mono; [apply (schedule_ready_spec k1); [done| |by rewrite Hc1]|].
  { eexists t, _. by rewrite Et1, lookup_insert_eq. }
  intros ? k2 ((c & p & ->) & _ & _). wp_step. split_and!; [done|by eapply wf_ext, Hwf1| |by exists L'].
  eexists. simpl. by rewrite Et1, lookup_insert_eq.
Qed.

(** [rt_workqueue_dowork] queues a work item: the item leaves the list it may still be
    in and becomes the last of the queue, where it is linked exactly once; an idle
    worker is made ready, a worker that is busy with another item is left alone.  The
    item the worker is busy with is refused and nothing changes. *)
Theorem rt_workqueue_dowork_queues k W a w x t th :
  wf k → is_Some (ks_current k) → l_ok (wq_lists W) → wq_queues W !! a = Some x →
  wq_work_thread x = Some t → ks_threads k !! t = Some th → th_stat th = RT_THREAD_SUSPEND →
  wp (rt_workqueue_dowork a w) (λ r s',
    if bool_decide (wq_work_current x = Some w) then r = - RT_EBUSY ∧ s' = Layer k W
    else r = RT_EOK ∧ wf (l_kernel s') ∧ wq_queues (l_own s') = wq_queues W ∧
      work_queued a w (wq_lists W) (wq_lists (l_own s')) ∧
      if bool_decide (wq_work_current x = None) then is_ready (l_kernel s') t else l_kernel s' = k)
    (Layer k W).
Proof.
  intros Hwf Hc Hok Hx Ht Hth Hst. destruct (decide (wq_work_current x = None)) as [Hcur|Hcur].
  { eapply wp_mono; [by eapply dowork_idle|]. intros r s' (-> & Hwf' & Hr & L' & HL & E).
    rewrite bool_decide_eq_false_2, bool_decide_eq_true_2 by (done || by rewrite Hcur). rewrite E. done. }
  unfold rt_workqueue_dowork. wp_step. apply wp_own. eapply wp_get_wq; [done|].
  case_bool_decide; [by wp_step|]. wp_step. apply wp_own. apply work_link_spec; [done|]. intros L' HL.
  rewrite bool_decide_eq_false_2 by done. by wp_step; wp_step; wp_step.
Qed.

(** ** Missed wake-ups *)

Lemma highest_ready_inj s p t q u : highest_ready s p t → highest_ready s q u → p = q ∧ t = u.
Proof.
  intros (Hp & Ht & Hlp) (Hq & Hu & Hlq).
  assert (p = q) as ->.
  { destruct (Z.lt_trichotomy p q) as [?|[?|?]]; [|done|].
    - by rewrite Hlq in Ht by lia.
    - by rewrite Hlp in Hu by lia. }
  split; [done|congruence].
Qed.

(** A wake-up of the worker can be lost: the worker finds its list empty, work is queued
    before it suspends itself (by an interrupt handler, or by a thread that preempts it),
    and since the worker is still ready [rt_thread_resume] refuses to resume it.  Then
    the worker waits in no list and with no timer while its queue holds work, until
    more work is queued. *)
Theorem workqueue_wakeup_lost k W a w x t th p :
  running k t th → highest_ready k p t → ks_lock_nest k = 0 →
  l_ok (wq_lists W) → wq_queues W !! a = Some x →
  wq_work_thread x = Some t → wq_work_current x = None → l_get (wq_lists W) a = [] →
  wp (e ← worker_test a; _ ← rt_workqueue_dowork a w; if (e : bool) then kern worker_suspend else mret tt)
    (λ _ s', wf (l_kernel s') ∧ l_get (wq_lists (l_own s')) a = [w] ∧
       ks_threads (l_kernel s') !! t = Some (set_th_stat RT_THREAD_SUSPEND th) ∧
       (∀ h, t ∉ l_get (ks_lists (l_kernel s')) h) ∧
       (∀ r, TThread t ∉ l_get (ks_rows (l_kernel s')) r)) (Layer k W).
Proof.
  intros Hr Hh Hlk Hok Hx Ht Hcur El. wp_step. unfold worker_test. wp_step. wp_step. wp_step.
  simpl. rewrite (proj2 (l_isempty_spec _ _) El). wp_step.
  unfold rt_workqueue_dowork. wp_step. apply wp_own. eapply wp_get_wq; [done|].
  rewrite bool_decide_eq_false_2 by (by rewrite Hcur). rewrite bool_decide_eq_true_2 by done.
  wp_step. apply wp_own. apply work_link_spec; [done|]. intros L' (_ & EL' & _).
  wp_step. wp_step. eapply wp_option; [done|]. wp_step.
  eapply wp_kern_done; [eapply thread_resume_refused; [apply Hr|by rewrite (rn_ready _ _ _ Hr)]|].
  apply wp_kern. eapply wp_mono; [eapply (schedule_spec k t); [apply Hr| |apply Hr]|].
  { exists t, th. by split; apply Hr. }
  intros ? k1 [(c & q & ->) Hif]. simpl in Hif. rewrite Hlk in Hif. destruct Hif as (p' & u & Hu & Ec).
  destruct (highest_ready_inj _ _ _ _ _ Hh Hu) as [_ <-]. wp_step. apply wp_kern.
  set (k1 := set_ks_current _ _). assert (Hwf1 : wf k1) by (eapply wf_ext, (rn_wf _ _ _ Hr); done).
  unfold worker_suspend. wp_step. eapply wp_self; [done|]. wp_step.
  eapply wp_mono; [apply (thread_suspend_spec k1 t th); [done|apply Hr|apply Hr]|].
  intros ? k2 [_ [Hwf2 Et2 El2 (Hfr2 & Hc2 & _) Er2 _]].
  eapply wp_mono; [apply (schedule_ready_spec k2); [done| |by rewrite Hc2]|].
  { destruct (rn_idle _ _ _ Hr) as (v & thv & Hne & Hv & Hsv). exists v, thv. by rewrite Et2, lookup_insert_ne. }
  intros ? k3 ((c' & q' & ->) & _ & _). simpl. split_and!; [by eapply wf_ext, Hwf2|by rewrite EL', El| | |].
  - by rewrite Et2, lookup_insert_eq.
  - intros h. rewrite El2, list_elem_of_filter. naive_solver.
  - intros r. rewrite Er2, list_elem_of_filter. naive_solver.
Qed.

(** Cancelling queued work makes the worker fault: work is queued for the idle worker and
    cancelled before the worker runs; the worker was made ready, does not look at the
    list again and takes the head of the empty list for a work item. *)
Theorem workqueue_cancel_faults work_func fuel k W a w x t th :
  wf k → is_Some (ks_current k) → l_ok (wq_lists W) → wq_queues W !! a = Some x →
  wq_work_thread x = Some t → wq_work_current x = None → l_get (wq_lists W) a = [] →
  ks_threads k !! t = Some th → th_stat th = RT_THREAD_SUSPEND →
  wp (_ ← rt_workqueue_dowork a w; rt_workqueue_cancel_work a w) (λ r s', r = RT_EOK ∧
    is_ready (l_kernel s') t ∧ worker_turn work_func fuel a s' = Fault BadPointer) (Layer k W).
Proof.
  intros Hwf Hc Hok Hx Ht Hcur El Hth Hst. wp_step. eapply wp_mono; [by eapply dowork_idle|].
  intros ? [k2 W2] (_ & _ & Hr & L' & (_ & EL' & _) & E). simpl in Hr, E. subst W2.
  unfold rt_workqueue_cancel_work. wp_step. apply wp_own.
  eapply wp_get_wq; [done|]. rewrite bool_decide_eq_false_2 by (by rewrite Hcur).
  wp_step. apply wp_own. unfold set_wq_lists. wp_step. wp_step. split_and!; [done|done|].
  unfold worker_turn, worker_take, own, mbind, SM_bind, get. simpl.
  rewrite l_get_remove, EL', El. simpl. rewrite filter_cons_False by naive_solver. done.
Qed.
