(* ===== verification/Device.v ===== *)
(** The device framework, [rt-thread/src/device.c], and the choice of the console device,
    [rt-thread/src/kservice.c].

    A driver is code outside the framework: the functions a device points to are the
    operations of the class [driver_ops], called with the address stored in the device.
    They run on the state of the kernel, of the devices, and on a private
    state [X] of the drivers. *)

From stdpp Require Import base gmap list fin_maps.
From Stdlib Require Import ZArith Lia.
From S2P Require Import Prelude IntrusiveList Kservice Printf KState Object Sched Timer Thread MemPool.

Open Scope Z_scope.

Definition RT_DEVICE_FLAG_STANDALONE : Z := 0x008.
Definition RT_DEVICE_FLAG_ACTIVATED : Z := 0x010.
Definition RT_DEVICE_OFLAG_CLOSE : Z := 0x000.
Definition RT_DEVICE_OFLAG_RDWR : Z := 0x003.
Definition RT_DEVICE_OFLAG_OPEN : Z := 0x008.

(** [device_id] and [user_data] are for the driver; the framework does not use them. *)
Record rt_device := Device {
  dev_type : Z;
  dev_flag : Z;
  dev_open_flag : Z;
  dev_ref_count : Z;
  dev_rx_indicate : option Z;
  dev_tx_complete : option Z;
  dev_init : option Z;
  dev_open : option Z;
  dev_close : option Z;
  dev_read : option Z;
  dev_write : option Z;
  dev_control : option Z
}.
Definition set_dev_flag (v : Z) (d : rt_device) : rt_device :=
  let '(Device ty _ og rc rx tx i o c r w k) := d in Device ty v og rc rx tx i o c r w k.
Definition set_dev_open_flag (v : Z) (d : rt_device) : rt_device :=
  let '(Device ty f _ rc rx tx i o c r w k) := d in Device ty f v rc rx tx i o c r w k.
Definition set_dev_ref_count (v : Z) (d : rt_device) : rt_device :=
  let '(Device ty f og _ rx tx i o c r w k) := d in Device ty f og v rx tx i o c r w k.
Definition set_dev_rx_indicate (v : option Z) (d : rt_device) : rt_device :=
  let '(Device ty f og rc _ tx i o c r w k) := d in Device ty f og rc v tx i o c r w k.
Definition set_dev_tx_complete (v : option Z) (d : rt_device) : rt_device :=
  let '(Device ty f og rc rx _ i o c r w k) := d in Device ty f og rc rx v i o c r w k.

(** The devices, the console device ([_console_device]) and the state of the drivers. *)
Record devs (X : Type) := Devs { d_devices : gmap Z rt_device; d_console : option Z; d_priv : X }.
Arguments Devs {_} _ _ _.
Arguments d_devices {_} _.
Arguments d_console {_} _.
Arguments d_priv {_} _.

(** The functions of the drivers, by their addresses, on the device at the address that
    follows; a read returns the number and the bytes it stored in the buffer.
    [report] is the message that a device could not be initialised. *)
Class driver_ops (X : Type) := {
  drv_init : Z → Z → SM (layer (devs X)) Z;
  drv_open : Z → Z → Z → SM (layer (devs X)) Z;
  drv_close : Z → Z → SM (layer (devs X)) Z;
  drv_read : Z → Z → Z → Z → SM (layer (devs X)) (Z * list Z);
  drv_write : Z → Z → Z → list Z → SM (layer (devs X)) Z;
  drv_control : Z → Z → Z → Z → SM (layer (devs X)) Z;
  report : Z → Z → SM (layer (devs X)) unit
}.

Section device.
Context {X : Type}.

Definition get_device (a : Z) : SM (layer (devs X)) rt_device :=
  s ← get; of_option BadPointer (d_devices (l_own s) !! a).
Definition put_device (a : Z) (d : rt_device) : SM (layer (devs X)) unit :=
  modify (λ s, Layer (l_kernel s) (Devs (<[a := d]> (d_devices (l_own s))) (d_console (l_own s)) (d_priv (l_own s)))).
Definition upd_device (a : Z) (f : rt_device → rt_device) : SM (layer (devs X)) unit := d ← get_device a; put_device a (f d).

Definition rt_device_find (name : list Z) : K (option Z) :=
  c ← rt_thread_self;
  when (bool_decide (c ≠ None)) rt_enter_critical;;
  s ← get;
  r ← object_scan (l_get (ks_containers s) (class_index ClassDevice)) name;
  c ← rt_thread_self;
  when (bool_decide (c ≠ None)) rt_exit_critical;;
  mret (match r with Some (ODevice a) => Some a | _ => None end).

(** The fields the driver set before it registers the device are kept. *)
Definition rt_device_register (a : option Z) (name : list Z) (flags : Z) : SM (layer (devs X)) Z :=
  match a with
  | None => mret (- RT_ERROR)
  | Some a =>
    r ← kern (rt_device_find name);
    match r with
    | Some _ => mret (- RT_ERROR)
    | None =>
      kern (rt_object_init (ODevice a) ClassDevice name);;
      upd_device a (set_dev_flag (u16 flags));;
      upd_device a (set_dev_ref_count 0);;
      upd_device a (set_dev_open_flag 0);;
      mret RT_EOK
    end
  end.

Definition rt_device_unregister (a : Z) : SM (layer (devs X)) Z := kern (rt_object_detach (ODevice a));; mret RT_EOK.

Definition rt_device_init_all : SM (layer (devs X)) Z := mret RT_EOK.

Context `{!driver_ops X}.

Definition rt_device_init (a : Z) : SM (layer (devs X)) Z :=
  d ← get_device a;
  match dev_init d with
  | None => mret RT_EOK
  | Some f =>
    if flag_test (dev_flag d) RT_DEVICE_FLAG_ACTIVATED then mret RT_EOK
    else
      result ← drv_init f a;
      (if negb (result =? RT_EOK) then report a result
       else upd_device a (λ d, set_dev_flag (Z.lor (dev_flag d) RT_DEVICE_FLAG_ACTIVATED) d));;
      mret result
  end.

(** The initialisation at the start of [rt_device_open]; [None] when the call goes on. *)
Definition open_activate (a : Z) : SM (layer (devs X)) (option Z) :=
  d ← get_device a;
  if flag_test (dev_flag d) RT_DEVICE_FLAG_ACTIVATED then mret None
  else
    result ← match dev_init d with None => mret RT_EOK | Some f => drv_init f a end;
    if negb (result =? RT_EOK) then report a result;; mret (Some result)
    else
      upd_device a (λ d, set_dev_flag (Z.lor (dev_flag d) RT_DEVICE_FLAG_ACTIVATED) d);;
      mret None.

Definition rt_device_open (a oflag : Z) : SM (layer (devs X)) Z :=
  failed ← open_activate a;
  match failed with
  | Some result => mret result
  | None =>
    d ← get_device a;
    if flag_test (dev_flag d) RT_DEVICE_FLAG_STANDALONE && flag_test (dev_open_flag d) RT_DEVICE_OFLAG_OPEN
    then mret (- RT_EBUSY)
    else
      result ← match dev_open d with None => mret RT_EOK | Some f => drv_open f a oflag end;
      when ((result =? RT_EOK) || (result =? - RT_ENOSYS)) (
        upd_device a (set_dev_open_flag (Z.lor (u16 oflag) RT_DEVICE_OFLAG_OPEN));;
        upd_device a (λ d, set_dev_ref_count (u8 (dev_ref_count d + 1)) d);;
        d ← get_device a;
        RT_ASSERT (negb (dev_ref_count d =? 0)));;
      mret result
  end.

Definition rt_device_close (a : Z) : SM (layer (devs X)) Z :=
  d ← get_device a;
  if dev_ref_count d =? 0 then mret (- RT_ERROR)
  else
    upd_device a (λ d, set_dev_ref_count (u8 (dev_ref_count d - 1)) d);;
    d ← get_device a;
    if negb (dev_ref_count d =? 0) then mret RT_EOK
    else
      result ← match dev_close d with None => mret RT_EOK | Some f => drv_close f a end;
      when ((result =? RT_EOK) || (result =? - RT_ENOSYS)) (upd_device a (set_dev_open_flag RT_DEVICE_OFLAG_CLOSE));;
      mret result.

Definition rt_device_read (a pos size : Z) : SM (layer (devs X)) (Z * list Z) :=
  d ← get_device a;
  if dev_ref_count d =? 0 then kern (rt_set_errno (- RT_ERROR));; mret (0, [])
  else match dev_read d with
       | Some f => drv_read f a pos size
       | None => kern (rt_set_errno (- RT_ENOSYS));; mret (0, [])
       end.
Definition rt_device_write (a pos : Z) (buffer : list Z) : SM (layer (devs X)) Z :=
  d ← get_device a;
  if dev_ref_count d =? 0 then kern (rt_set_errno (- RT_ERROR));; mret 0
  else match dev_write d with
       | Some f => drv_write f a pos buffer
       | None => kern (rt_set_errno (- RT_ENOSYS));; mret 0
       end.
Definition rt_device_control (a cmd arg : Z) : SM (layer (devs X)) Z :=
  d ← get_device a;
  match dev_control d with
  | Some f => drv_control f a (u8 cmd) arg
  | None => mret RT_EOK
  end.

Definition rt_device_set_rx_indicate (a : Z) (rx_ind : option Z) : SM (layer (devs X)) Z :=
  upd_device a (set_dev_rx_indicate rx_ind);; mret RT_EOK.
Definition rt_device_set_tx_complete (a : Z) (tx_done : option Z) : SM (layer (devs X)) Z :=
  upd_device a (set_dev_tx_complete tx_done);; mret RT_EOK.

(** ** The console device *)

Definition rt_console_get_device : SM (layer (devs X)) (option Z) := s ← get; mret (d_console (l_own s)).
Definition rt_console_set_device (name : list Z) : SM (layer (devs X)) (option Z) :=
  old ← rt_console_get_device;
  new ← kern (rt_device_find name);
  match new with
  | None => mret old
  | Some a =>
    match old with None => mret tt | Some c => _ ← rt_device_close c; mret tt end;;
    _ ← rt_device_open a (Z.lor RT_DEVICE_OFLAG_RDWR RT_DEVICE_FLAG_STREAM);
    modify (λ s, Layer (l_kernel s) (Devs (d_devices (l_own s)) (Some a) (d_priv (l_own s))));;
    mret old
  end.
End device.
