(* ===== verification/DeviceSpec.v ===== *)
(** The device framework against a reference-counting machine: what the users of a device
    may rely on, for every driver that keeps the contract [driver_laws]. *)

From stdpp Require Import base gmap list fin_maps relations.
From Stdlib Require Import ZArith Lia.
From S2P Require Import Prelude IntrusiveList Kservice KState Object Sched Timer KInv SchedFacts Thread.
From S2P Require Import MemPool ObjectFacts Device.

Open Scope Z_scope.

(** The contract of a driver: its functions return, and leave the records of the
    framework alone. *)
Definition leaves_devices {X A} (m : SM (layer (devs X)) A) : Prop :=
  ∀ s, wp m (λ _ s', d_devices (l_own s') = d_devices (l_own s)) s.
Class driver_laws (X : Type) `{!driver_ops X} : Prop := {
  law_init f a : leaves_devices (drv_init f a);
  law_open f a oflag : leaves_devices (drv_open f a oflag);
  law_close f a : leaves_devices (drv_close f a);
  law_report a e : leaves_devices (report a e);
}.

(** ** The calls of the driver *)

(** A call of a driver's function [f] for the device at [a], with its result. *)
Inductive drv_event := EvInit (f a r : Z) | EvOpen (f a oflag r : Z) | EvClose (f a r : Z).

(** Any driver with a record of the calls in its private state. *)
Definition recorded {X A} (e : A → list drv_event) (m : SM (layer (devs X)) A) : SM (layer (devs (X * list drv_event))) A := λ s,
  match m (Layer (l_kernel s) (Devs (d_devices (l_own s)) (d_console (l_own s)) (d_priv (l_own s)).1)) with
  | Done r s' => Done r (Layer (l_kernel s') (Devs (d_devices (l_own s')) (d_console (l_own s'))
      (d_priv (l_own s'), (d_priv (l_own s)).2 ++ e r)))
  | Fault f => Fault f
  end.
#[export] Instance recording {X} `{!driver_ops X} : driver_ops (X * list drv_event) := {
  drv_init f a := recorded (λ r, [EvInit f a r]) (drv_init f a);
  drv_open f a oflag := recorded (λ r, [EvOpen f a oflag r]) (drv_open f a oflag);
  drv_close f a := recorded (λ r, [EvClose f a r]) (drv_close f a);
  drv_read f a pos size := recorded (λ _, []) (drv_read f a pos size);
  drv_write f a pos buffer := recorded (λ _, []) (drv_write f a pos buffer);
  drv_control f a cmd arg := recorded (λ _, []) (drv_control f a cmd arg);
  report a e := recorded (λ _, []) (report a e)
}.

(** The functions of a driver whose private state passes from [x] to [x'], [hist x es x'], by
    the calls [es]. *)
Class driver_traced (X : Type) `{!driver_ops X} (hist : X → list drv_event → X → Prop) : Prop := {
  tr_nil x : hist x [] x;
  tr_app x x1 x2 es es' : hist x es x1 → hist x1 es' x2 → hist x (es ++ es') x2;
  tr_init f a s : wp (drv_init f a) (λ r s', d_devices (l_own s') = d_devices (l_own s) ∧
    hist (d_priv (l_own s)) [EvInit f a r] (d_priv (l_own s'))) s;
  tr_open f a oflag s : wp (drv_open f a oflag) (λ r s', d_devices (l_own s') = d_devices (l_own s) ∧
    hist (d_priv (l_own s)) [EvOpen f a oflag r] (d_priv (l_own s'))) s;
  tr_close f a s : wp (drv_close f a) (λ r s', d_devices (l_own s') = d_devices (l_own s) ∧
    hist (d_priv (l_own s)) [EvClose f a r] (d_priv (l_own s'))) s;
  tr_report a e s : wp (report a e) (λ _ s', d_devices (l_own s') = d_devices (l_own s) ∧
    hist (d_priv (l_own s)) [] (d_priv (l_own s'))) s;
}.
Definition appends {X} (x : X * list drv_event) (es : list drv_event) (x' : X * list drv_event) : Prop := x'.2 = x.2 ++ es.
Definition untraced {X : Type} (_ : X) (_ : list drv_event) (_ : X) : Prop := True.

Lemma recorded_spec {X A} (e : A → list drv_event) (m : SM (layer (devs X)) A) s : leaves_devices m →
  wp (recorded e m) (λ r s', d_devices (l_own s') = d_devices (l_own s) ∧ appends (d_priv (l_own s)) (e r) (d_priv (l_own s'))) s.
Proof.
  intros Hm. unfold wp, recorded. specialize (Hm (Layer (l_kernel s) (Devs (d_devices (l_own s)) (d_console (l_own s)) (d_priv (l_own s)).1))).
  unfold wp in Hm. by destruct (m _).
Qed.
#[export] Instance recording_traced {X} `{!driver_ops X, !driver_laws X} : driver_traced (X * list drv_event) appends.
Proof.
  split; unfold appends.
  - intros x. by rewrite app_nil_r.
  - intros x x1 x2 es es' E1 E2. by rewrite E2, E1, app_assoc.
  - intros f a s. apply recorded_spec, law_init.
  - intros f a oflag s. apply recorded_spec, law_open.
  - intros f a s. apply recorded_spec, law_close.
  - intros a e s. apply recorded_spec, law_report.
Qed.
Lemma untraced_traced {X} `{!driver_ops X, !driver_laws X} : driver_traced X untraced.
Proof.
  split; try done.
  - intros f a s. eapply wp_mono; [apply law_init|done].
  - intros f a oflag s. eapply wp_mono; [apply law_open|done].
  - intros f a s. eapply wp_mono; [apply law_close|done].
  - intros a e s. eapply wp_mono; [apply law_report|done].
Qed.

(** ** The abstract device *)

(** The number of users, the flags it was opened with last, whether it was initialised. *)
Record dview := DView { dv_refs : Z; dv_oflag : Z; dv_active : bool }.
Definition dev_view (d : rt_device) : dview :=
  DView (dev_ref_count d) (dev_open_flag d) (flag_test (dev_flag d) RT_DEVICE_FLAG_ACTIVATED).
Definition is_open (oflag : Z) : bool := flag_test oflag RT_DEVICE_OFLAG_OPEN.
Definition standalone (d : rt_device) : bool := flag_test (dev_flag d) RT_DEVICE_FLAG_STANDALONE.
(** What does not change: whether the device has a single user, and its driver's functions. *)
Record dconf := DConf { dc_alone : bool; dc_init : option Z; dc_open : option Z; dc_close : option Z }.
Definition dev_conf (d : rt_device) : dconf := DConf (standalone d) (dev_init d) (dev_open d) (dev_close d).

(** The results that count as success. *)
Definition accepted (r : Z) : bool := (r =? RT_EOK) || (r =? - RT_ENOSYS).

Inductive dlabel := LOpen (oflag r : Z) | LClose (r : Z).
(** A function that a device may have is called once, with the result [r]; one that is missing
    succeeds. *)
Definition calls (o : option Z) (e : Z → drv_event) (r : Z) (es : list drv_event) : Prop :=
  match o with Some f => es = [e f] | None => r = RT_EOK ∧ es = [] end.
(** A device that is not initialised is initialised first. *)
Definition made_ready (c : dconf) (a : Z) (active : bool) (es : list drv_event) : Prop :=
  if active then es = [] else calls (dc_init c) (λ f, EvInit f a RT_EOK) RT_EOK es.
(** The steps of the device at [a], with the calls of its driver. *)
Inductive dstep (c : dconf) (a : Z) : dview → dlabel → list drv_event → dview → Prop :=
  | d_init_failed n o g r es : r ≠ RT_EOK → calls (dc_init c) (λ f, EvInit f a r) r es →
      dstep c a (DView n o false) (LOpen g r) es (DView n o false)
  | d_busy n o act g es : dc_alone c = true → is_open o = true → made_ready c a act es →
      dstep c a (DView n o act) (LOpen g (- RT_EBUSY)) es (DView n o true)
  | d_opened n o act g r es es' : accepted r = true → dc_alone c && is_open o = false → made_ready c a act es →
      calls (dc_open c) (λ f, EvOpen f a g r) r es' →
      dstep c a (DView n o act) (LOpen g r) (es ++ es') (DView (n + 1) (Z.lor (u16 g) RT_DEVICE_OFLAG_OPEN) true)
  | d_open_failed n o act g r es es' : accepted r = false → dc_alone c && is_open o = false → made_ready c a act es →
      calls (dc_open c) (λ f, EvOpen f a g r) r es' →
      dstep c a (DView n o act) (LOpen g r) (es ++ es') (DView n o true)
  | d_unopened o act : dstep c a (DView 0 o act) (LClose (- RT_ERROR)) [] (DView 0 o act)
  | d_close_one n o act : 1 < n → dstep c a (DView n o act) (LClose RT_EOK) [] (DView (n - 1) o act)
  | d_close_last o act r es : accepted r = true → calls (dc_close c) (λ f, EvClose f a r) r es →
      dstep c a (DView 1 o act) (LClose r) es (DView 0 RT_DEVICE_OFLAG_CLOSE act)
  | d_close_failed o act r es : accepted r = false → calls (dc_close c) (λ f, EvClose f a r) r es →
      dstep c a (DView 1 o act) (LClose r) es (DView 0 o act).

Lemma wp_get_device {X} a d (Q : rt_device → layer (devs X) → Prop) s :
  d_devices (l_own s) !! a = Some d → Q d s → wp (get_device a) Q s.
Proof. intros Hd HQ. unfold get_device. wp_step. wp_step. by eapply wp_option. Qed.
Lemma wp_upd_device {X} a f d (Q : unit → layer (devs X) → Prop) s :
  d_devices (l_own s) !! a = Some d →
  (∀ s', d_devices (l_own s') = <[a := f d]> (d_devices (l_own s)) → d_priv (l_own s') = d_priv (l_own s) → Q tt s') →
  wp (upd_device a f) Q s.
Proof. intros Hd HQ. unfold upd_device, put_device. wp_step. eapply wp_get_device; [done|]. wp_step. by apply HQ. Qed.

Section refine.
Context {X : Type} {ops : driver_ops X} {hist : X → list drv_event → X → Prop} {TR : driver_traced X hist}.

(** A call of the driver, if the device has the function. *)
Lemma driver_call (o : option Z) (m : Z → SM (layer (devs X)) Z) (e : Z → Z → drv_event) (Q : Z → layer (devs X) → Prop) s :
  (∀ f s, wp (m f) (λ r s', d_devices (l_own s') = d_devices (l_own s) ∧ hist (d_priv (l_own s)) [e r f] (d_priv (l_own s'))) s) →
  (∀ r es s', d_devices (l_own s') = d_devices (l_own s) → calls o (e r) r es → hist (d_priv (l_own s)) es (d_priv (l_own s')) → Q r s') →
  wp (match o with None => mret RT_EOK | Some f => m f end) Q s.
Proof.
  intros Hm HQ. destruct o as [f|].
  - eapply wp_mono; [apply Hm|]. intros r s' [E Hh]. by eapply HQ.
  - wp_step. eapply HQ; [done|done|apply tr_nil].
Qed.

Lemma flag_activated v : flag_test (Z.lor v RT_DEVICE_FLAG_ACTIVATED) RT_DEVICE_FLAG_ACTIVATED = true.
Proof. change RT_DEVICE_FLAG_ACTIVATED with (2 ^ 4). rewrite flag_set by lia. apply orb_true_r. Qed.
Lemma flag_activated_alone v :
  flag_test (Z.lor v RT_DEVICE_FLAG_ACTIVATED) RT_DEVICE_FLAG_STANDALONE = flag_test v RT_DEVICE_FLAG_STANDALONE.
Proof.
  change RT_DEVICE_FLAG_ACTIVATED with (2 ^ 4). change RT_DEVICE_FLAG_STANDALONE with (2 ^ 3).
  rewrite flag_set by lia. apply orb_false_r.
Qed.
Lemma flag_open v : is_open (Z.lor v RT_DEVICE_OFLAG_OPEN) = true.
Proof. unfold is_open. change RT_DEVICE_OFLAG_OPEN with (2 ^ 3). rewrite flag_set by lia. apply orb_true_r. Qed.

(** The device after it was initialised. *)
Definition activate (d : rt_device) : rt_device :=
  if flag_test (dev_flag d) RT_DEVICE_FLAG_ACTIVATED then d
  else set_dev_flag (Z.lor (dev_flag d) RT_DEVICE_FLAG_ACTIVATED) d.
Lemma activate_view d :
  dev_view (activate d) = DView (dev_ref_count d) (dev_open_flag d) true ∧ dev_conf (activate d) = dev_conf d.
Proof.
  unfold activate, dev_view, dev_conf, standalone. destruct (flag_test (dev_flag d) _) eqn:E; [by rewrite E|].
  destruct d; simpl. by rewrite flag_activated, flag_activated_alone.
Qed.

Lemma open_activate_spec a d (Q : option Z → layer (devs X) → Prop) s :
  d_devices (l_own s) !! a = Some d →
  (∀ r es s', d_devices (l_own s') = d_devices (l_own s) → hist (d_priv (l_own s)) es (d_priv (l_own s')) →
     flag_test (dev_flag d) RT_DEVICE_FLAG_ACTIVATED = false → r ≠ RT_EOK → calls (dev_init d) (λ f, EvInit f a r) r es → Q (Some r) s') →
  (∀ es s', d_devices (l_own s') = <[a := activate d]> (d_devices (l_own s)) → hist (d_priv (l_own s)) es (d_priv (l_own s')) →
     made_ready (dev_conf d) a (flag_test (dev_flag d) RT_DEVICE_FLAG_ACTIVATED) es → Q None s') →
  wp (open_activate a) Q s.
Proof.
  intros Hd Hf Hok. unfold open_activate. wp_step. eapply wp_get_device; [done|]. unfold activate in Hok.
  destruct (flag_test (dev_flag d) _) eqn:E; [wp_step; eapply Hok; [by rewrite insert_id|apply tr_nil|done]|].
  wp_step. apply (driver_call _ _ (λ r f, EvInit f a r)); [intros f s0; apply tr_init|]. intros r es s1 E1 Hc H1.
  destruct (Z.eqb_spec r RT_EOK) as [->|Hr]; simpl.
  - wp_step. eapply wp_upd_device; [by rewrite E1|]. intros s2 E2 Ep2. wp_step. eapply Hok; [by rewrite E2, E1|by rewrite Ep2|done].
  - wp_step. eapply wp_mono; [apply tr_report|]. intros ? s2 [E2 H2]. wp_step. eapply Hf; [by rewrite E2| |done..].
    rewrite <- (app_nil_r es). by eapply tr_app.
Qed.

Definition stepped (a : Z) (d : rt_device) (l : Z → dlabel) (s : layer (devs X)) (r : Z) (s' : layer (devs X)) : Prop :=
  ∃ d' es, d_devices (l_own s') = <[a := d']> (d_devices (l_own s)) ∧ dev_conf d' = dev_conf d ∧
    hist (d_priv (l_own s)) es (d_priv (l_own s')) ∧ dstep (dev_conf d) a (dev_view d) (l r) es (dev_view d').

(** The device that was opened with [g]. *)
Definition opened (g : Z) (d : rt_device) : rt_device :=
  set_dev_ref_count (u8 (dev_ref_count d + 1)) (set_dev_open_flag (Z.lor (u16 g) RT_DEVICE_OFLAG_OPEN) d).
Lemma opened_view g d : 0 ≤ dev_ref_count d < 255 → dev_conf (opened g d) = dev_conf d ∧
  dev_view (opened g d) = DView (dev_ref_count d + 1) (Z.lor (u16 g) RT_DEVICE_OFLAG_OPEN) (dv_active (dev_view d)).
Proof.
  intros Hn. assert (E : u8 (dev_ref_count d + 1) = dev_ref_count d + 1) by (apply Z.mod_small; lia).
  unfold opened. rewrite E. by destruct d.
Qed.

Lemma device_open_spec a d oflag s :
  d_devices (l_own s) !! a = Some d → 0 ≤ dev_ref_count d < 255 →
  wp (rt_device_open a oflag) (stepped a d (LOpen oflag) s) s.
Proof.
  intros Hd Hn. unfold rt_device_open. wp_step. apply (open_activate_spec a d); [done|..].
  { intros r es s1 E H1 Hact Hr Hc. wp_step. exists d, es. rewrite E, insert_id by done. split_and!; try done.
    unfold dev_view. rewrite Hact. by constructor. }
  intros es s1 E1 H1 Hready. destruct (activate_view d) as (Ev & Ec).
  assert (Hd1 : d_devices (l_own s1) !! a = Some (activate d)) by (by rewrite E1, lookup_insert_eq).
  wp_step. eapply wp_get_device; [done|]. fold (standalone (activate d)) (is_open (dev_open_flag (activate d))).
  change (standalone (activate d)) with (dc_alone (dev_conf (activate d))).
  change (dev_open_flag (activate d)) with (dv_oflag (dev_view (activate d))).
  rewrite Ec, Ev. cbn [dv_oflag].
  destruct (dc_alone (dev_conf d) && is_open (dev_open_flag d)) eqn:Ebusy.
  { wp_step. exists (activate d), es. split_and!; [done|done|done|]. rewrite Ev. apply andb_prop in Ebusy as [Hal Hop]. by constructor. }
  change (dev_open (activate d)) with (dc_open (dev_conf (activate d))). rewrite Ec.
  wp_step. apply (driver_call _ _ (λ r f, EvOpen f a oflag r)); [intros f s0; apply tr_open|]. intros r es' s2 E2 Hc H2.
  fold (accepted r). pose proof (tr_app _ _ _ _ _ H1 H2) as H12. destruct (accepted r) eqn:Eacc; simpl.
  - wp_step. wp_step. eapply wp_upd_device; [by rewrite E2|]. intros s3 E3 Ep3. wp_step.
    eapply wp_upd_device; [by rewrite E3, lookup_insert_eq|]. intros s4 E4 Ep4. rewrite E3, insert_insert_eq, E2, E1, insert_insert_eq in E4.
    wp_step. eapply wp_get_device; [by rewrite E4, lookup_insert_eq|].
    replace (set_dev_ref_count _ _) with (opened oflag (activate d)) in * by (by destruct (activate d)).
    injection Ev as Er Eo Ea. destruct (opened_view oflag (activate d)) as [Ec4 Ev4]; [by rewrite Er|].
    injection Ev4 as Er4 Eo4 Ea4. rewrite Ea in Ea4. rewrite Er in Er4.
    apply wp_assert; [rewrite Er4; apply negb_true_iff, Z.eqb_neq; lia|]. wp_step.
    exists (opened oflag (activate d)), (es ++ es'). split_and!; [done|by rewrite Ec4|by rewrite Ep4, Ep3|].
    unfold dev_view at 2. rewrite Er4, Eo4, Ea4. by constructor.
  - wp_step. wp_step. wp_step. exists (activate d), (es ++ es'). split_and!; [by rewrite E2|done|done|]. rewrite Ev. by constructor.
Qed.

Lemma device_close_spec a d s :
  d_devices (l_own s) !! a = Some d → 0 ≤ dev_ref_count d ≤ 255 →
  wp (rt_device_close a) (stepped a d LClose s) s.
Proof.
  intros Hd Hn. unfold rt_device_close. wp_step. eapply wp_get_device; [done|].
  destruct (Z.eqb_spec (dev_ref_count d) 0) as [E0|E0].
  { wp_step. exists d, []. rewrite insert_id by done. split_and!; [done|done|apply tr_nil|]. unfold dev_view. rewrite E0. constructor. }
  wp_step. eapply wp_upd_device; [done|]. intros s1 E1 Ep1.
  replace (u8 (dev_ref_count d - 1)) with (dev_ref_count d - 1) in * by (symmetry; apply Z.mod_small; lia).
  set (d1 := set_dev_ref_count _ d) in *. assert (Er : dev_ref_count d1 = dev_ref_count d - 1) by (by destruct d).
  assert (Ev : dev_view d1 = DView (dev_ref_count d - 1) (dv_oflag (dev_view d)) (dv_active (dev_view d)) ∧ dev_conf d1 = dev_conf d) by (by destruct d).
  destruct Ev as [Ev Ec]. wp_step. eapply wp_get_device; [by rewrite E1, lookup_insert_eq|]. rewrite Er.
  destruct (Z.eqb_spec (dev_ref_count d - 1) 0) as [E10|E10]; simpl.
  - assert (Eview : dev_view d = DView 1 (dv_oflag (dev_view d)) (dv_active (dev_view d))) by (unfold dev_view; f_equal; lia).
    change (dev_close d1) with (dc_close (dev_conf d1)). rewrite Ec.
    wp_step. apply (driver_call _ _ (λ r f, EvClose f a r)); [intros f s0; apply tr_close|]. intros r es s2 E2 Hc H2. rewrite Ep1 in H2.
    fold (accepted r). destruct (accepted r) eqn:Eacc; simpl; wp_step.
    + eapply wp_upd_device; [by rewrite E2, E1, lookup_insert_eq|]. intros s3 E3 Ep3. wp_step.
      rewrite E2, E1, insert_insert_eq in E3. eexists _, es. split_and!; [done|rewrite <- Ec; by destruct d1|by rewrite Ep3|].
      replace (dev_view (set_dev_open_flag _ d1)) with (DView 0 RT_DEVICE_OFLAG_CLOSE (dv_active (dev_view d)));
        [rewrite Eview at 1; by constructor|].
      rewrite E10 in Ev. injection Ev as Ev1 Ev2 Ev3. unfold dev_view. rewrite <- Ev1.
      change (dv_active (dev_view d)) with (flag_test (dev_flag d) RT_DEVICE_FLAG_ACTIVATED). simpl in Ev3.
      rewrite <- Ev3. by destruct d1.
    + wp_step. wp_step. exists d1, es. split_and!; [by rewrite E2|done|done|]. rewrite Ev, Eview, E10. by constructor.
  - wp_step. exists d1, []. split_and!; [done|done|rewrite Ep1; apply tr_nil|]. rewrite Ev. unfold dev_view. constructor. lia.
Qed.

(** ** Sequences of calls *)

Inductive dcall := COpen (oflag : Z) | CClose.
Definition dcall_run (a : Z) (c : dcall) : SM (layer (devs X)) Z :=
  match c with COpen oflag => rt_device_open a oflag | CClose => rt_device_close a end.
Definition dcall_label (c : dcall) (r : Z) : dlabel := match c with COpen g => LOpen g r | CClose => LClose r end.
Fixpoint device_run (a : Z) (cs : list dcall) : SM (layer (devs X)) (list Z) :=
  match cs with [] => mret [] | c :: cs => r ← dcall_run a c; rs ← device_run a cs; mret (r :: rs) end.
(** The steps of the abstract device under the calls with their results, and the calls of the
    driver they make. *)
Fixpoint dtrace (c : dconf) (a : Z) (v : dview) (cs : list dcall) (rs : list Z) (es : list drv_event) (v' : dview) : Prop :=
  match cs, rs with
  | [], [] => v' = v ∧ es = []
  | x :: cs, r :: rs => ∃ v1 es1 es2, es = es1 ++ es2 ∧ dstep c a v (dcall_label x r) es1 v1 ∧ dtrace c a v1 cs rs es2 v'
  | _, _ => False
  end.

Lemma dstep_refs c a v l es v' : dstep c a v l es v' → 0 ≤ dv_refs v → 0 ≤ dv_refs v' ≤ dv_refs v + 1.
Proof. destruct 1; simpl; lia. Qed.

Lemma device_run_spec a cs d s :
  d_devices (l_own s) !! a = Some d → 0 ≤ dev_ref_count d → dev_ref_count d + Z.of_nat (length cs) ≤ 255 →
  wp (device_run a cs) (λ rs s', ∃ d' es, d_devices (l_own s') = <[a := d']> (d_devices (l_own s)) ∧
    dev_conf d' = dev_conf d ∧ hist (d_priv (l_own s)) es (d_priv (l_own s')) ∧
    dtrace (dev_conf d) a (dev_view d) cs rs es (dev_view d')) s.
Proof.
  revert d s. induction cs as [|c cs IH]; intros d s Hd Hn Hle; simpl.
  { wp_step. exists d, []. split_and!; [by rewrite insert_id|done|apply tr_nil|done..]. }
  simpl in Hle. assert (Hstep : wp (dcall_run a c) (stepped a d (dcall_label c) s) s).
  { destruct c; [apply device_open_spec; [done|lia]|apply device_close_spec; [done|lia]]. }
  wp_step. eapply wp_mono; [exact Hstep|]. intros r s1 (d1 & es1 & E1 & Ec1 & H1 & Hs).
  pose proof (dstep_refs _ _ _ _ _ _ Hs ltac:(simpl; lia)) as Hrefs. simpl in Hrefs. wp_step.
  eapply wp_mono; [apply (IH d1 s1); [by rewrite E1, lookup_insert_eq|lia|lia]|].
  intros rs s2 (d2 & es2 & E2 & Ec2 & H2 & Ht). wp_step. exists d2, (es1 ++ es2). rewrite E2, E1, insert_insert_eq.
  split_and!; [done|congruence|by eapply tr_app|]. exists (dev_view d1), es1, es2. by rewrite <- Ec1 at 2.
Qed.
End refine.

(** ** Invariants of the abstract device *)

(** A device in use is open and initialised, and a standalone device has one user at
    most. *)
Record dview_ok (alone : bool) (v : dview) : Prop := {
  vo_refs : 0 ≤ dv_refs v;
  vo_used : 0 < dv_refs v → is_open (dv_oflag v) = true ∧ dv_active v = true;
  vo_alone : alone = true → dv_refs v ≤ 1;
}.
Lemma dstep_ok c a v l es v' : dstep c a v l es v' → dview_ok (dc_alone c) v → dview_ok (dc_alone c) v'.
Proof.
  intros Hs [Hr Hu Ha]. destruct Hs; simpl in *; split; simpl; rewrite ?flag_open; try naive_solver lia.
  intros Hc. rewrite Hc in *. simpl in *. destruct (decide (0 < n)); [naive_solver congruence|lia].
Qed.
Lemma dtrace_ok c a cs v rs es v' : dtrace c a v cs rs es v' → dview_ok (dc_alone c) v → dview_ok (dc_alone c) v'.
Proof.
  revert v rs es. induction cs as [|x cs IH]; intros v [|r rs] es Ht Hok; simpl in Ht; [by destruct Ht as [-> _]|done|done|].
  destruct Ht as (v1 & es1 & es2 & _ & Hs & Ht). eapply IH; [exact Ht|]. by eapply dstep_ok.
Qed.

(** C34. Devices are reference-counted: any sequence of [rt_device_open] and
    [rt_device_close] on a device (up to the 255 users the 8 bit count has room for) goes
    through the steps of the abstract device with the same results and the same calls of the
    driver, for every driver that keeps its contract (with the calls recorded): a device is
    initialised before it is used, every open that is not refused calls the driver's open
    function with its flags, and only the close of the last user calls its close function.
    After each sequence on a fresh device, a device with users is open and initialised, and a
    standalone device has at most one user. *)
Theorem device_calls_refine {X} `{!driver_ops X, !driver_laws X} a cs d (s : layer (devs (X * list drv_event))) :
  d_devices (l_own s) !! a = Some d → dev_ref_count d = 0 → (length cs ≤ 255)%nat →
  wp (device_run a cs) (λ rs s', ∃ d' es, d_devices (l_own s') = <[a := d']> (d_devices (l_own s)) ∧
    (d_priv (l_own s')).2 = (d_priv (l_own s)).2 ++ es ∧
    dtrace (dev_conf d) a (dev_view d) cs rs es (dev_view d') ∧
    dview_ok (standalone d) (dev_view d')) s.
Proof.
  intros Hd H0 Hlen. eapply wp_mono; [apply (device_run_spec a cs d s); [done|lia|lia]|].
  intros rs s' (d' & es & E & _ & Hh & Ht). exists d', es. split_and!; [done|exact Hh|done|].
  eapply (dtrace_ok (dev_conf d)); [exact Ht|]. unfold dev_view. rewrite H0. split; simpl; lia.
Qed.

(** The state from which a standalone device does not come back. *)
Definition wedged (v : dview) : Prop := dv_refs v = 0 ∧ is_open (dv_oflag v) = true ∧ dv_active v = true.
Lemma wedge_close c a o e es v : is_open o = true → dstep c a (DView 1 o true) (LClose e) es v → accepted e = false → wedged v.
Proof. intros Ho. inversion 1; try done || lia || congruence. Qed.
Lemma wedge_stays c a v l es v' : dc_alone c = true → wedged v → dstep c a v l es v' →
  l = match l with LOpen g _ => LOpen g (- RT_EBUSY) | LClose _ => LClose (- RT_ERROR) end ∧ wedged v'.
Proof.
  intros Hc (H0 & Ho & Ha) Hs. destruct Hs; simpl in *; try done; try lia; rewrite Hc, Ho in *; done.
Qed.

(** The last close returns what the driver returns. *)
Lemma close_result {X} `{!driver_ops X} a f d e (s : layer (devs X)) :
  d_devices (l_own s) !! a = Some d → dev_ref_count d = 1 → dev_close d = Some f → accepted e = false →
  (∀ s, wp (drv_close f a) (λ r _, r = e) s) → wp (rt_device_close a) (λ r _, r = e) s.
Proof.
  intros Hd Hn Hf Hacc Hdrv. unfold rt_device_close. wp_step. eapply wp_get_device; [done|].
  rewrite (proj2 (Z.eqb_neq _ _)) by lia. wp_step. eapply wp_upd_device; [done|]. intros s1 E1 _.
  wp_step. eapply wp_get_device; [by rewrite E1, lookup_insert_eq|].
  destruct d; simpl in *. subst. simpl. wp_step. eapply wp_mono; [apply Hdrv|]. intros r s2 ->.
  fold (accepted e). rewrite Hacc. unfold when. wp_step. wp_step. by wp_step.
Qed.

(** A standalone device whose driver fails to close is lost: the framework gives up the
    last reference before it calls the driver, and keeps the device marked as open when
    the driver fails; from then on nobody uses it, yet every [rt_device_open] is refused
    as busy and every [rt_device_close] as not open. *)
Theorem rt_device_close_failure_wedges {X} `{!driver_ops X, !driver_laws X} a f d e oflag (s : layer (devs X)) :
  d_devices (l_own s) !! a = Some d → standalone d = true → is_open (dev_open_flag d) = true → dev_ref_count d = 1 →
  flag_test (dev_flag d) RT_DEVICE_FLAG_ACTIVATED = true → dev_close d = Some f → accepted e = false →
  (∀ s, wp (drv_close f a) (λ r _, r = e) s) →
  wp (r1 ← rt_device_close a; r2 ← rt_device_open a oflag; r3 ← rt_device_close a; mret (r1, r2, r3))
    (λ r s', r = (e, - RT_EBUSY, - RT_ERROR) ∧ ∃ d', d_devices (l_own s') !! a = Some d' ∧ wedged (dev_view d')) s.
Proof.
  intros Hd Hal Ho Hn Hact Hf Hacc Hdrv. pose proof (untraced_traced (X := X)) as TR.
  wp_step. eapply wp_mono; [apply wp_conj; [apply (device_close_spec (hist := untraced) a d s); [done|lia]|by eapply close_result]|].
  intros r s1 [(d1 & es1 & E1 & Ec1 & _ & Hs1) ->].
  assert (Hw1 : wedged (dev_view d1)).
  { eapply (wedge_close _ _ (dev_open_flag d)); [done| |done]. unfold dev_view in Hs1 at 1. rewrite Hn, Hact in Hs1. exact Hs1. }
  assert (Hd1 : d_devices (l_own s1) !! a = Some d1) by (by rewrite E1, lookup_insert_eq). pose proof Hw1 as (Hn1 & _). simpl in Hn1.
  wp_step. eapply wp_mono; [apply (device_open_spec (hist := untraced) a d1 oflag s1); [done|lia]|].
  intros r2 s2 (d2 & es2 & E2 & Ec2 & _ & Hs2). rewrite Ec1 in *. destruct (wedge_stays (dev_conf d) _ _ _ _ _ Hal Hw1 Hs2) as [[= ->] Hw2].
  assert (Hd2 : d_devices (l_own s2) !! a = Some d2) by (by rewrite E2, lookup_insert_eq). pose proof Hw2 as (Hn2 & _). simpl in Hn2.
  wp_step. eapply wp_mono; [apply (device_close_spec (hist := untraced) a d2 s2); [done|lia]|].
  intros r3 s3 (d3 & es3 & E3 & _ & _ & Hs3). wp_step. rewrite Ec2 in Hs3.
  destruct (wedge_stays (dev_conf d) _ _ _ _ _ Hal Hw2 Hs3) as [[= ->] Hw3].
  split; [done|]. exists d3. by rewrite E3, lookup_insert_eq.
Qed.

(** ** Registering and finding devices *)

(** Every registered device has a name. *)
Definition devices_named (k : kstate) (names : oid → list Z) : Prop :=
  ∀ o, o ∈ l_get (ks_containers k) (class_index ClassDevice) → (∃ a, o = ODevice a) ∧ named k o (names o).

(** What a look-up leaves alone. *)
Record looked_up (k k' : kstate) : Prop := {
  lu_ctx : thread_context k';
  lu_objects : ks_objects k' = ks_objects k;
  lu_containers : ks_containers k' = ks_containers k;
}.

Lemma device_find_spec k names name :
  thread_context k → chars name → devices_named k names →
  wp (rt_device_find name) (λ r k', looked_up k k' ∧
    found names (l_get (ks_containers k) (class_index ClassDevice)) name (ODevice <$> r)) k.
Proof.
  intros Hctx Hn Hnm. pose proof Hctx as [Hwf Hr [c Hc] Hl Hi]. unfold rt_device_find, rt_thread_self.
  wp_step. wp_step. wp_step. wp_step. wp_step. rewrite Hc, bool_decide_true by done. simpl.
  apply wp_enter_critical; [done|]. wp_step. wp_step. wp_step.
  eapply wp_mono; [apply (object_scan_spec _ names); [done|]|].
  { intros o Ho. by destruct (Hnm o Ho). }
  intros r ? [-> Hf]. wp_step. wp_step. wp_step. wp_step. wp_step. simpl.
  rewrite Hc, bool_decide_true by done. simpl.
  eapply wp_mono; [apply (exit_critical_spec (ks_lock_nest k)); try done; by eapply wf_ext, Hwf|].
  intros _ k' (Hwf' & El & Hcase). wp_step.
  assert (Hfound : found names (l_get (ks_containers k) (class_index ClassDevice)) name
    (ODevice <$> match r with Some (ODevice a) => Some a | _ => None end)).
  { destruct r as [o|]; [|done]. destruct Hf as (l1 & l2 & E & H1 & H2).
    destruct (Hnm o) as [[a ->] _]; [simpl in E |- *; rewrite E; set_solver|]. by exists l1, l2. }
  split; [|done]. destruct (ks_lock_nest k =? 0).
  - destruct Hcase as [(c' & p & ->) (q & t & _ & Ht)].  simpl in *.
    split; [split; simpl; [exact Hwf'|exact Hr|by rewrite Ht|lia|exact Hi]|done|done].
  - subst k'. split; [split; simpl; [exact Hwf'|exact Hr|by rewrite Hc|lia|exact Hi]|done|done].
Qed.

Lemma upd_device_at {X} a f d k (D : devs X) (Q : unit → layer (devs X) → Prop) :
  d_devices D !! a = Some d →
  Q tt (Layer k (Devs (<[a := f d]> (d_devices D)) (d_console D) (d_priv D))) →
  wp (upd_device a f) Q (Layer k D).
Proof. intros Hd HQ. unfold upd_device, put_device. wp_step. eapply wp_get_device; [done|]. by wp_step. Qed.

(** A look-up has one result. *)
Lemma found_unique names l name r r' : found names l name r → found names l name r' → r = r'.
Proof.
  assert (Hno : ∀ l1 o l2, take RT_NAME_MAX (names o) = take RT_NAME_MAX name →
    Forall (λ o, take RT_NAME_MAX (names o) ≠ take RT_NAME_MAX name) (l1 ++ o :: l2) → False).
  { intros l1 o l2 Ho Hall. rewrite Forall_app, Forall_cons in Hall. naive_solver. }
  intros H H'. destruct r as [o|], r' as [o'|]; simpl in H, H'.
  - destruct H as (l1 & l2 & -> & Ho & H1), H' as (l1' & l2' & E & Ho' & H1'). f_equal.
    revert l1' E H1'. induction l1 as [|y l1 IH]; intros [|y' l1'] E H1'; simpl in E; simplify_eq; [done| | |].
    + apply Forall_cons in H1' as [? _]. done.
    + apply Forall_cons in H1 as [? _]. done.
    + apply Forall_cons in H1 as [_ H1], H1' as [_ H1']. by eapply IH.
  - destruct H as (l1 & l2 & -> & Ho & _). by edestruct Hno.
  - destruct H' as (l1 & l2 & -> & Ho & _). by edestruct Hno.
  - done.
Qed.

(** C35. Device names are unique and lead to their devices: a name that agrees with that of a
    registered device in the first [RT_NAME_MAX] characters is refused, and nothing
    changes; any other name is registered, with the device closed and without users, and
    [rt_device_find] of the name returns the device.  The names and records of the other
    devices stay, and a look-up of any other name returns what it returned before. *)
Theorem rt_device_register_find {X} k names a name flags d (D : devs X) :
  thread_context k → chars name → devices_named k names → (∀ c, ODevice a ∉ l_get (ks_containers k) c) →
  d_devices D !! a = Some d →
  let container := l_get (ks_containers k) (class_index ClassDevice) in
  wp (rt_device_register (Some a) name flags) (λ r s',
    (r = - RT_ERROR ∧ (∃ o, o ∈ container ∧ take RT_NAME_MAX (names o) = take RT_NAME_MAX name) ∧
       l_own s' = D ∧ ks_containers (l_kernel s') = ks_containers k) ∨
    (r = RT_EOK ∧ Forall (λ o, take RT_NAME_MAX (names o) ≠ take RT_NAME_MAX name) container ∧
       (∃ d', d_devices (l_own s') = <[a := d']> (d_devices D) ∧ dev_flag d' = u16 flags ∧
          dev_ref_count d' = 0 ∧ dev_open_flag d' = 0) ∧
       l_get (ks_containers (l_kernel s')) (class_index ClassDevice) = ODevice a :: container ∧
       wp (rt_device_find name) (λ r _, r = Some a) (l_kernel s') ∧
       (∀ o, o ≠ ODevice a → ks_objects (l_kernel s') !! o = ks_objects k !! o) ∧
       ∀ other, chars other → take RT_NAME_MAX other ≠ take RT_NAME_MAX name →
         wp (rt_device_find other) (λ r _, wp (rt_device_find other) (λ r' _, r' = r) (l_kernel s')) k)) (Layer k D).
Proof.
  intros Hctx Hn Hnm Hun Hd container. unfold rt_device_register. wp_step. apply wp_kern.
  eapply wp_mono; [by apply device_find_spec|]. intros [b|] k1 [[Hctx1 Eo Ec] Hf].
  { wp_step. left. destruct Hf as (l1 & l2 & E & H1 & _). split_and!; [done| |done|done].
    exists (ODevice b). split; [unfold container; rewrite E; set_solver|done]. }
  wp_step. apply wp_kern. eapply object_init_spec; [intros c; by rewrite Ec|by apply strncpy_stored|].
  set (k2 := set_ks_containers _ _). set (x := mk_object _ _) in k2. wp_step.
  eapply upd_device_at; [exact Hd|]. wp_step. eapply upd_device_at; [apply lookup_insert_eq|]. wp_step.
  eapply upd_device_at; [apply lookup_insert_eq|]. wp_step. right. cbn [l_own l_kernel d_devices].
  rewrite !insert_insert_eq. 
  assert (El2 : l_get (ks_containers k2) (class_index ClassDevice) = ODevice a :: container).
  { unfold k2. simpl. by rewrite l_get_insert_after, decide_True, Ec. }
  set (names' o := if decide (o = ODevice a) then name else names o).
  assert (Hn' : ∀ o, o ∈ container → names' o = names o ∧ o ≠ ODevice a).
  { intros o Ho. assert (o ≠ ODevice a) by (intros ->; by apply (Hun 8)). unfold names'. by rewrite decide_False. }
  assert (Hfind : ∀ other (Q : option Z → Prop), chars other →
    (∀ r, found names' (ODevice a :: container) other (ODevice <$> r) → Q r) → wp (rt_device_find other) (λ r _, Q r) k2).
  { intros other Q Hother HQ. eapply wp_mono; [apply (device_find_spec k2 names'); [|done|]|].
    - destruct Hctx1. split; try done. by eapply wf_ext, tc_wf.
    - intros o. rewrite El2. intros [->|Ho]%elem_of_cons.
      + unfold names'. rewrite decide_True by done. split; [by eexists|]. split; [done|]. exists x. simpl. by rewrite lookup_insert_eq.
      + destruct (Hn' o Ho) as [-> Hoa], (Hnm o Ho) as [? [? (y & ? & ?)]].
        split; [done|]. split; [done|]. exists y. simpl. by rewrite lookup_insert_ne, Eo.
    - intros r k' [_ Hr]. rewrite El2 in Hr. by apply HQ. }
  assert (Ea : names' (ODevice a) = name) by (unfold names'; by rewrite decide_True).
  split_and!; [done|exact Hf| |exact El2| | |].
  - eexists. split; [done|]. by destruct d.
  - apply Hfind; [done|]. intros r Hr. cut (ODevice <$> r = Some (ODevice a)); [destruct r; intros [=]; congruence|].
    eapply found_unique; [exact Hr|]. exists [], container. split_and!; [done|by rewrite Ea|constructor].
  - intros o Ho. simpl. by rewrite lookup_insert_ne, Eo.
  - intros other Hother Hne. eapply wp_mono; [by apply device_find_spec|]. intros r k' [_ Hf0]. fold container in Hf0.
    apply Hfind; [done|]. intros r' Hr'. cut (ODevice <$> r' = ODevice <$> r); [destruct r, r'; intros [=]; congruence|].
    eapply found_unique; [exact Hr'|]. destruct r as [b|]; simpl in Hf0 |- *.
    + destruct Hf0 as (l1 & l2 & E & Hb & Hl). exists (ODevice a :: l1), l2. rewrite E. split_and!; [done| |].
      * destruct (Hn' (ODevice b)) as [-> _]; [rewrite E; set_solver|done].
      * constructor; [by rewrite Ea|]. rewrite Forall_forall in Hl |- *. intros o Ho.
        destruct (Hn' o) as [-> _]; [rewrite E; set_solver|by apply Hl].
    + constructor; [by rewrite Ea|]. rewrite Forall_forall in Hf0 |- *. intros o Ho. destruct (Hn' o Ho) as [-> _]. by apply Hf0.
Qed.
