(* ===== verification/Pipe.v ===== *)
(** Pipes and portals, [rt-thread/components/drivers/src/pipe.c] and [portal.c].

    A pipe is a device with a ring buffer on which threads wait to read and to write; a
    portal is a device that reads from one pipe and writes to another.  Both embed the
    device of the framework ([parent]), which is the entry of the devices at the same
    address. *)

From stdpp Require Import base gmap list fin_maps.
From Stdlib Require Import ZArith Lia.
From S2P Require Import Prelude IntrusiveList Kservice KState Object Sched Timer KInv SchedFacts TimerFacts.
From S2P Require Import Thread Ipc IpcFacts Ring MemPool ObjectFacts Device DeviceSpec DataQueue.

Open Scope Z_scope.

Definition RT_Device_Class_Pipe : Z := 15.
Definition RT_Device_Class_Portal : Z := 16.
Definition RT_DEVICE_FLAG_RDWR : Z := 0x003.
Definition RT_DEVICE_OFLAG_RDONLY : Z := 0x001.
Definition RT_DEVICE_OFLAG_WRONLY : Z := 0x002.
Definition RT_PIPE_FLAG_NONBLOCK_RDWR : Z := 0x00.
Definition RT_PIPE_FLAG_BLOCK_RD : Z := 0x01.
Definition RT_PIPE_FLAG_BLOCK_WR : Z := 0x02.
Definition RT_PIPE_FLAG_FORCE_WR : Z := 0x04.
Definition PIPE_CTRL_GET_SPACE : Z := 0x14.

(** The fields behind [parent]; the lists of suspended threads are lists of the kernel. *)
Record rt_pipe_device := Pipe {
  pipe_ringbuffer : rt_ringbuffer;
  pipe_flag : Z;
  pipe_write_portal : option Z;
  pipe_read_portal : option Z
}.
Definition set_pipe_ringbuffer (v : rt_ringbuffer) (x : rt_pipe_device) : rt_pipe_device :=
  let '(Pipe _ f w r) := x in Pipe v f w r.
Definition set_pipe_flag (v : Z) (x : rt_pipe_device) : rt_pipe_device :=
  let '(Pipe b _ w r) := x in Pipe b v w r.
Definition set_pipe_write_portal (v : option Z) (x : rt_pipe_device) : rt_pipe_device :=
  let '(Pipe b f _ r) := x in Pipe b f v r.
Definition set_pipe_read_portal (v : option Z) (x : rt_pipe_device) : rt_pipe_device :=
  let '(Pipe b f w _) := x in Pipe b f w v.
Record rt_portal_device := Portal { portal_write_dev : option Z; portal_read_dev : option Z }.

Record streams := Streams { st_pipes : gmap Z rt_pipe_device; st_portals : gmap Z rt_portal_device }.
Abbreviation P := (SM (layer (devs streams))).

(** The addresses of the static functions of both files. *)
Class stream_image := {
  rt_pipe_read_fn : Z; rt_pipe_write_fn : Z; rt_pipe_control_fn : Z;
  portal_init_fn : Z; portal_open_fn : Z; portal_close_fn : Z; portal_read_fn : Z; portal_write_fn : Z;
  portal_rx_indicate_fn : Z; portal_tx_complete_fn : Z
}.
(** The functions behind [rx_indicate] and [tx_complete], by their addresses. *)
Class stream_calls := {
  call_rx_indicate : Z → Z → Z → P Z;
  call_tx_complete : Z → Z → Z → P Z
}.

Definition set_streams (f : streams → streams) : P unit :=
  modify (λ s, Layer (l_kernel s) (Devs (d_devices (l_own s)) (d_console (l_own s)) (f (d_priv (l_own s))))).
Definition get_pipe (a : Z) : P rt_pipe_device := s ← get; of_option BadPointer (st_pipes (d_priv (l_own s)) !! a).
Definition put_pipe (a : Z) (x : rt_pipe_device) : P unit :=
  set_streams (λ p, Streams (<[a := x]> (st_pipes p)) (st_portals p)).
Definition upd_pipe (a : Z) (f : rt_pipe_device → rt_pipe_device) : P unit := x ← get_pipe a; put_pipe a (f x).
Definition get_portal (a : Z) : P rt_portal_device := s ← get; of_option BadPointer (st_portals (d_priv (l_own s)) !! a).
Definition put_portal (a : Z) (x : rt_portal_device) : P unit :=
  set_streams (λ p, Streams (st_pipes p) (<[a := x]> (st_portals p))).

(** * Reading and writing *)

Section pipe.
Context `{!stream_calls}.

Definition rt_pipe_resume_writer (a : Z) : P unit :=
  e ← kern (tlist_isempty (LPipeWrite a));
  if (e : bool) then mret tt
  else
    x ← get_pipe a;
    RT_ASSERT (flag_test (pipe_flag x) RT_PIPE_FLAG_BLOCK_WR);;
    kern (dq_wake (LPipeWrite a)).
(** The count, and the buffer of the caller. *)
Definition pipe_get (a : Z) (buffer : list Z) (size : Z) : P (Z * list Z) :=
  x ← get_pipe a;
  '((n, buffer), rb) ← of_option BadPointer (rt_ringbuffer_get (pipe_ringbuffer x) buffer (u16 size));
  put_pipe a (set_pipe_ringbuffer rb x);;
  mret (n, buffer).
(** Suspending the thread without a timeout. *)
Definition pipe_suspend (h : lhead) (thread : option Z) : P unit :=
  t ← of_option BadPointer thread;
  kern (_ ← rt_thread_suspend t; tlist_insert_before h t);; kern rt_schedule.
(** A turn of the loop: the thread waits, or there was something to read. *)
Definition read_loop (a : Z) (thread : option Z) (buffer : list Z) (size : Z) : P (call (Z * list Z) (list Z)) :=
  '(n, buffer) ← pipe_get a buffer size;
  if n =? 0 then pipe_suspend (LPipeRead a) thread;; mret (Wait buffer)
  else rt_pipe_resume_writer a;; mret (Return (n, buffer)).
Definition rt_pipe_read (a : Z) (buffer : list Z) (size : Z) : P (call (Z * list Z) (list Z)) :=
  x ← get_pipe a;
  if negb (flag_test (pipe_flag x) RT_PIPE_FLAG_BLOCK_RD) then
    '(n, buffer) ← pipe_get a buffer size;
    when (negb (n =? 0)) (rt_pipe_resume_writer a);;
    mret (Return (n, buffer))
  else
    thread ← kern rt_thread_self;
    kern RT_DEBUG_NOT_IN_INTERRUPT;;
    read_loop a thread buffer size.
Definition rt_pipe_read_resumed (t a : Z) (buffer : list Z) (size : Z) : P (call (Z * list Z) (list Z)) :=
  read_loop a (Some t) buffer size.

Definition rt_pipe_resume_reader (a : Z) : P unit :=
  d ← get_device a;
  match dev_rx_indicate d with
  | None => mret tt
  | Some f => x ← get_pipe a; _ ← call_rx_indicate f a (rt_ringbuffer_data_len (pipe_ringbuffer x)); mret tt
  end;;
  e ← kern (tlist_isempty (LPipeRead a));
  if (e : bool) then mret tt
  else
    x ← get_pipe a;
    RT_ASSERT (flag_test (pipe_flag x) RT_PIPE_FLAG_BLOCK_RD);;
    kern (dq_wake (LPipeRead a)).
Definition pipe_put (put : rt_ringbuffer → list Z → Z → option (Z * rt_ringbuffer)) (a : Z) (buffer : list Z) (size : Z) : P Z :=
  x ← get_pipe a;
  '(n, rb) ← of_option BadPointer (put (pipe_ringbuffer x) buffer (u16 size));
  put_pipe a (set_pipe_ringbuffer rb x);;
  mret n.
Definition write_loop (a : Z) (thread : option Z) (buffer : list Z) (size : Z) : P (call Z unit) :=
  n ← pipe_put rt_ringbuffer_put a buffer size;
  if n =? 0 then pipe_suspend (LPipeWrite a) thread;; mret (Wait tt)
  else rt_pipe_resume_reader a;; mret (Return n).
Definition rt_pipe_write (a : Z) (buffer : list Z) (size : Z) : P (call Z unit) :=
  x ← get_pipe a;
  if flag_test (pipe_flag x) RT_PIPE_FLAG_FORCE_WR || negb (flag_test (pipe_flag x) RT_PIPE_FLAG_BLOCK_WR) then
    n ← (if flag_test (pipe_flag x) RT_PIPE_FLAG_FORCE_WR then pipe_put rt_ringbuffer_put_force a buffer size
         else pipe_put rt_ringbuffer_put a buffer size);
    rt_pipe_resume_reader a;;
    mret (Return n)
  else
    thread ← kern rt_thread_self;
    kern RT_DEBUG_NOT_IN_INTERRUPT;;
    write_loop a thread buffer size.
Definition rt_pipe_write_resumed (t a : Z) (buffer : list Z) (size : Z) : P (call Z unit) :=
  write_loop a (Some t) buffer size.
(** The space that is stored through [args]. *)
Definition rt_pipe_control (a cmd : Z) (args : bool) : P (Z * option Z) :=
  if (cmd =? PIPE_CTRL_GET_SPACE) && args then
    x ← get_pipe a; mret (RT_EOK, Some (u32 (rt_ringbuffer_space_len (pipe_ringbuffer x))))
  else mret (RT_EOK, None).
End pipe.

(** * Making pipes *)

Section make.
Context `{!stream_image}.

(** The fields that [rt_pipe_init] and [rt_portal_init] set in [parent]. *)
Definition set_dev_class (ty : Z) (i o c r w k : option Z) (d : rt_device) : rt_device :=
  let '(Device _ f og rc rx tx _ _ _ _ _ _) := d in Device ty f og rc rx tx i o c r w k.
(** The structure at [a] is memory of the caller. *)
Definition rt_pipe_init (a : Z) (name : list Z) (flag : Z) (buf : list Z) (size : Z) : P Z :=
  kern (tlist_init (LPipeRead a));;
  kern (tlist_init (LPipeWrite a));;
  rb ← of_option AssertFailed (rt_ringbuffer_init buf (i16 size));
  upd_pipe a (set_pipe_ringbuffer rb);;
  upd_pipe a (set_pipe_flag flag);;
  upd_device a (set_dev_class RT_Device_Class_Pipe None None None (Some rt_pipe_read_fn) (Some rt_pipe_write_fn) (Some rt_pipe_control_fn));;
  rt_device_register (Some a) name RT_DEVICE_FLAG_RDWR.
Definition rt_pipe_detach (a : Z) : P Z := rt_device_unregister a.

(** Zeroed structures of [rt_calloc], and their registration as memory. *)
Definition zero_device : rt_device := Device 0 0 0 0 None None None None None None None None.
Definition zero_pipe : rt_pipe_device := Pipe (RingBuffer [] false 0 false 0 0) 0 None None.
(** [pipe] and [pool] are the results of the allocations. *)
Definition rt_pipe_create (pipe : option Z) (pool : option (list Z)) (name : list Z) (flag size : Z) : P Z :=
  let size := RT_ALIGN size RT_ALIGN_SIZE in
  match pipe with
  | None => mret (- RT_ENOMEM)
  | Some a =>
    put_device a zero_device;;
    put_pipe a zero_pipe;;
    match pool with
    | None => kern (RT_KERNEL_FREE a);; mret (- RT_ENOMEM)
    | Some buf => rt_pipe_init a name flag buf size
    end
  end.
(** [pool] is the address of the ring buffer's memory. *)
Definition rt_pipe_destroy (pipe : option Z) (pool : Z) : P unit :=
  match pipe with
  | None => mret tt
  | Some a => _ ← rt_pipe_detach a; kern (RT_KERNEL_FREE pool);; kern (RT_KERNEL_FREE a)
  end.
End make.

(** * Portals *)

Section portal.
Context `{!stream_image, !stream_calls, !driver_ops streams}.

(** A device pointer that is used without a check. *)
Definition the_device (d : option Z) : P Z := of_option BadPointer d.

Definition portal_init (a : Z) : P Z :=
  x ← get_portal a;
  w ← the_device (portal_write_dev x);
  err ← rt_device_init w;
  if negb (err =? RT_EOK) then mret err
  else r ← the_device (portal_read_dev x); rt_device_init r.
Definition portal_open (a oflag : Z) : P Z :=
  if oflag =? 0 then mret (- RT_ERROR)
  else
    x ← get_portal a;
    err ← (if flag_test oflag RT_DEVICE_OFLAG_RDONLY
           then r ← the_device (portal_read_dev x); rt_device_open r RT_DEVICE_OFLAG_RDONLY else mret RT_EOK);
    if negb (err =? RT_EOK) then mret err
    else
      err ← (if flag_test oflag RT_DEVICE_OFLAG_WRONLY
             then w ← the_device (portal_write_dev x); rt_device_open w RT_DEVICE_OFLAG_WRONLY else mret RT_EOK);
      if negb (err =? RT_EOK) then mret err else mret RT_EOK.
Definition portal_close (a : Z) : P Z :=
  x ← get_portal a;
  w ← the_device (portal_write_dev x); _ ← rt_device_close w;
  r ← the_device (portal_read_dev x); _ ← rt_device_close r;
  mret RT_EOK.
Definition portal_read (a pos size : Z) : P (Z * list Z) :=
  x ← get_portal a; r ← the_device (portal_read_dev x); rt_device_read r pos size.
Definition portal_write (a pos : Z) (buffer : list Z) : P Z :=
  x ← get_portal a; w ← the_device (portal_write_dev x); rt_device_write w pos buffer.

(** The events of the pipes go to the portals. *)
Definition portal_rx_indicate (a size : Z) : P Z :=
  d ← get_device a;
  RT_ASSERT (dev_type d =? RT_Device_Class_Pipe);;
  x ← get_pipe a;
  p ← the_device (pipe_read_portal x);
  d ← get_device p;
  match dev_rx_indicate d with Some f => call_rx_indicate f p size | None => mret (- RT_ENOSYS) end.
Definition portal_tx_complete (a buf : Z) : P Z :=
  d ← get_device a;
  RT_ASSERT (dev_type d =? RT_Device_Class_Pipe);;
  x ← get_pipe a;
  p ← the_device (pipe_write_portal x);
  d ← get_device p;
  match dev_tx_complete d with Some f => call_tx_complete f p buf | None => mret (- RT_ENOSYS) end.

Definition rt_portal_init (a : Z) (portal_name write_dev read_dev : list Z) : P Z :=
  upd_device a (set_dev_class RT_Device_Class_Portal (Some portal_init_fn) (Some portal_open_fn) (Some portal_close_fn)
    (Some portal_read_fn) (Some portal_write_fn) None);;
  w ← kern (rt_device_find write_dev);
  match w with
  | None => mret (- RT_ENOSYS)
  | Some w =>
    d ← get_device w;
    RT_ASSERT (dev_type d =? RT_Device_Class_Pipe);;
    x ← get_portal a;
    put_portal a (Portal (Some w) (portal_read_dev x));;
    _ ← rt_device_set_tx_complete a (dev_tx_complete d);
    _ ← rt_device_set_tx_complete w (Some portal_tx_complete_fn);
    upd_pipe w (set_pipe_write_portal (Some a));;
    r ← kern (rt_device_find read_dev);
    match r with
    | None =>
      (* the device is the null pointer here *)
      fail AssertFailed
    | Some r =>
      d ← get_device r;
      RT_ASSERT (dev_type d =? RT_Device_Class_Pipe);;
      x ← get_portal a;
      put_portal a (Portal (portal_write_dev x) (Some r));;
      _ ← rt_device_set_rx_indicate a (dev_rx_indicate d);
      _ ← rt_device_set_rx_indicate r (Some portal_rx_indicate_fn);
      upd_pipe r (set_pipe_read_portal (Some a));;
      rt_device_register (Some a) portal_name RT_DEVICE_FLAG_RDWR
    end
  end.
Definition rt_portal_detach (a : Z) : P Z := rt_device_unregister a.
Definition rt_portal_create (portal : option Z) (name write_dev read_dev : list Z) : P Z :=
  match portal with
  | None => mret (- RT_ENOMEM)
  | Some a =>
    put_device a zero_device;;
    put_portal a (Portal None None);;
    rt_portal_init a name write_dev read_dev
  end.
Definition rt_portal_destroy (portal : option Z) : P unit :=
  match portal with None => mret tt | Some a => _ ← rt_portal_detach a; kern (RT_KERNEL_FREE a) end.
End portal.

(** * Pipes as queues of bytes *)

(** The flag allows the waiting that there is. *)
Record pipe_ok (k : kstate) (a : Z) (x : rt_pipe_device) (q : list Z) : Prop := {
  po_holds : rb_holds (pipe_ringbuffer x) q;
  po_readers : l_get (ks_lists k) (LPipeRead a) ≠ [] → flag_test (pipe_flag x) RT_PIPE_FLAG_BLOCK_RD = true;
  po_writers : l_get (ks_lists k) (LPipeWrite a) ≠ [] → flag_test (pipe_flag x) RT_PIPE_FLAG_BLOCK_WR = true
}.
Definition the_pipe (s : layer (devs streams)) (a : Z) : option rt_pipe_device := st_pipes (d_priv (l_own s)) !! a.
Definition set_pipe (a : Z) (x : rt_pipe_device) (D : devs streams) : devs streams :=
  Devs (d_devices D) (d_console D) (Streams (<[a := x]> (st_pipes (d_priv D))) (st_portals (d_priv D))).
(** The kernel when the first of the threads that wait at [h] was made ready. *)
Definition first_woken (h : lhead) (k k' : kstate) : Prop :=
  match l_get (ks_lists k) h with
  | [] => k' = k
  | w :: ws => wf k' ∧ is_Some (ks_current k') ∧ l_get (ks_lists k') h = ws ∧
      (∃ th, ks_threads k' !! w = Some th ∧ th_stat th = RT_THREAD_READY) ∧
      ∀ h', h' ≠ h → wait_head h' → l_get (ks_lists k') h' = l_get (ks_lists k) h'
  end.
(** The thread waits at the end of the list, without a timeout. *)
Definition parked (h : lhead) (t : Z) (k k' : kstate) : Prop :=
  wf k' ∧ is_Some (ks_current k') ∧ l_get (ks_lists k') h = l_get (ks_lists k) h ++ [t] ∧
  (∃ th, ks_threads k' !! t = Some th ∧ th_stat th = RT_THREAD_SUSPEND) ∧ (∀ r, TThread t ∉ l_get (ks_rows k') r) ∧
  ∀ h', h' ≠ h → wait_head h' → l_get (ks_lists k') h' = l_get (ks_lists k) h'.

Section refine.
Context {SC : stream_calls}.
Implicit Types s : layer (devs streams).

(** The waiting threads are the same. *)
Definition same_waiting (k k' : kstate) : Prop :=
  wf k' ∧ is_Some (ks_current k') ∧ ∀ h, wait_head h → l_get (ks_lists k') h = l_get (ks_lists k) h.

Lemma dq_wake_first k h w ws : wf k → wait_head h → is_Some (ks_current k) → l_get (ks_lists k) h = w :: ws →
  wp (dq_wake h) (λ _ k', first_woken h k k') k.
Proof.
  intros Hwf Hh Hc El. unfold first_woken. rewrite El. apply dq_wake_eq. eapply wp_mono; [by eapply wake_first_spec|].
  intros ? k' (th & k1 & Ht & Hst & Hr & (c & p & ->) & Hwf' & Hc' & _).
  destruct (readied_front k k1 h w ws th Hwf Hh El Hr) as [El1 Ho]. split_and!; [done|done|done| |done].
  eexists. by simpl; rewrite (rd_threads _ _ _ _ Hr), lookup_insert_eq.
Qed.
Lemma pipe_suspend_spec k D h t th : running k t th → wait_head h →
  wp (pipe_suspend h (Some t)) (λ _ s', l_own s' = D ∧ parked h t k (l_kernel s')) (Layer k D).
Proof.
  intros Hr Hh. unfold pipe_suspend. wp_step. eapply wp_option; [done|]. wp_step. apply wp_kern.
  eapply wp_mono; [eapply (wait_fifo_spec k h t th); try apply Hr; done|]. intros ? k1 Hw. apply wp_kern.
  assert (Hp : wp (wait_timer t (-1);; rt_schedule) (λ _, blocked_in h t (l_get (ks_lists k) h ++ [t]) (-1) th k) k1).
  { eapply park_spec; [exact Hw|done|apply Hr|by eapply running_some]. }
  eapply wp_mono; [exact Hp|]. intros ? k' [Hwf Et El Eo _ Hd [Hc _] _]. split; [done|]. split_and!; [done|done|done| | |].
  - exists (set_th_stat RT_THREAD_SUSPEND th). simpl. rewrite Et, lookup_insert_eq. by destruct th.
  - exact Hd.
  - intros h' Hne Hh'. simpl. rewrite Eo by done. apply filter_ne_notin.
    eapply wait_head_notin; [apply Hr|done|apply Hr|]. by rewrite (rn_ready _ _ _ Hr).
Qed.

Lemma wp_get_pipe a x (Q : rt_pipe_device → layer (devs streams) → Prop) s : the_pipe s a = Some x → Q x s → wp (get_pipe a) Q s.
Proof. intros Hx HQ. unfold get_pipe. wp_step. wp_step. by eapply wp_option. Qed.
Lemma wp_put_pipe a x (Q : unit → layer (devs streams) → Prop) k D : Q tt (Layer k (set_pipe a x D)) → wp (put_pipe a x) Q (Layer k D).
Proof. done. Qed.

(** Taking bytes out and putting bytes in. *)
Lemma pipe_get_spec k D a x q buffer size : st_pipes (d_priv D) !! a = Some x → rb_holds (pipe_ringbuffer x) q →
  u16 size ≤ Z.of_nat (length buffer) →
  let n := Z.to_nat (Z.min (u16 size) (Z.of_nat (length q))) in
  wp (pipe_get a buffer size) (λ r s', r = (Z.of_nat n, take n q ++ drop n buffer) ∧ ∃ rb,
    s' = Layer k (set_pipe a (set_pipe_ringbuffer rb x) D) ∧ rb_holds rb (drop n q) ∧
    rb_buffer_size rb = rb_buffer_size (pipe_ringbuffer x)) (Layer k D).
Proof.
  intros Hx Hq Hb n. unfold pipe_get. wp_step. eapply wp_get_pipe; [done|]. wp_step.
  assert (0 ≤ u16 size < 2 ^ 16) as Hs by (apply Z.mod_pos_bound; lia).
  destruct (get_holds _ _ buffer (u16 size) Hq Hs) as (rb & E & Hh & Hz); [lia|].
  eapply wp_option; [exact E|]. cbv beta iota. wp_step. apply wp_put_pipe. wp_step. split; [done|]. by exists rb.
Qed.
Lemma pipe_put_spec k D a x q buffer size : st_pipes (d_priv D) !! a = Some x → rb_holds (pipe_ringbuffer x) q →
  u16 size ≤ Z.of_nat (length buffer) →
  let n := Z.min (u16 size) (rb_buffer_size (pipe_ringbuffer x) - Z.of_nat (length q)) in
  wp (pipe_put rt_ringbuffer_put a buffer size) (λ r s', r = n ∧ ∃ rb,
    s' = Layer k (set_pipe a (set_pipe_ringbuffer rb x) D) ∧ rb_holds rb (q ++ take (Z.to_nat n) buffer) ∧
    rb_buffer_size rb = rb_buffer_size (pipe_ringbuffer x)) (Layer k D).
Proof.
  intros Hx Hq Hb n. unfold pipe_put. wp_step. eapply wp_get_pipe; [done|]. wp_step.
  assert (0 ≤ u16 size < 2 ^ 16) as Hs by (apply Z.mod_pos_bound; lia).
  destruct (put_holds _ _ buffer (u16 size) Hq Hs) as (rb & E & Hh & Hz); [lia|].
  eapply wp_option; [exact E|]. cbv beta iota. wp_step. apply wp_put_pipe. wp_step. split; [done|]. by exists rb.
Qed.
(** Forcing a block that fits. *)
Lemma pipe_force_spec k D a x q buffer size : st_pipes (d_priv D) !! a = Some x → rb_holds (pipe_ringbuffer x) q →
  u16 size ≤ Z.of_nat (length buffer) → u16 size ≤ rb_buffer_size (pipe_ringbuffer x) - Z.of_nat (length q) →
  pipe_put rt_ringbuffer_put_force a buffer size (Layer k D) = pipe_put rt_ringbuffer_put a buffer size (Layer k D).
Proof.
  intros Hx Hq Hb Hf. assert (0 ≤ u16 size) as Hs by (apply Z.mod_pos_bound; lia). 
  unfold pipe_put, get_pipe, mbind, SM_bind, get. simpl. rewrite Hx. simpl. by rewrite (put_force_fits _ q) by (done || lia).
Qed.
Lemma resume_writer_spec k D a x q : wf k → is_Some (ks_current k) → st_pipes (d_priv D) !! a = Some x → pipe_ok k a x q →
  ∀ rb, wp (rt_pipe_resume_writer a) (λ _ s', l_own s' = set_pipe a (set_pipe_ringbuffer rb x) D ∧
    first_woken (LPipeWrite a) k (l_kernel s')) (Layer k (set_pipe a (set_pipe_ringbuffer rb x) D)).
Proof.
  intros Hwf Hc Hx [Hq Hrd Hwr] rb. unfold rt_pipe_resume_writer. wp_step. apply wp_kern, wp_tlist_isempty. unfold l_isempty.
  destruct (l_get (ks_lists k) (LPipeWrite a)) as [|w ws] eqn:El; simpl.
  - wp_step. split; [done|]. unfold first_woken. by rewrite El.
  - wp_step. eapply wp_get_pipe; [apply lookup_insert_eq|]. wp_step. wp_step.
    { rewrite <- Hwr by done. by destruct x. }
    apply wp_kern. eapply wp_mono; [by eapply dq_wake_first|]. intros ? k' H. by split.
Qed.

(** The pipe holds [q'] afterwards, and is still well-formed. *)
Definition now_holds (a : Z) (x : rt_pipe_device) (q' : list Z) (D : devs streams) s' : Prop :=
  ∃ rb, l_own s' = set_pipe a (set_pipe_ringbuffer rb x) D ∧ pipe_ok (l_kernel s') a (set_pipe_ringbuffer rb x) q' ∧
    rb_buffer_size rb = rb_buffer_size (pipe_ringbuffer x).
Lemma ok_same k k' a x q rb q' : pipe_ok k a x q → rb_holds rb q' →
  (∀ h, h ∈ [LPipeRead a; LPipeWrite a] → l_get (ks_lists k') h = l_get (ks_lists k) h) →
  pipe_ok k' a (set_pipe_ringbuffer rb x) q'.
Proof.
  intros [_ Hr Hw] Hh Hs. destruct x as [b f wp rp]. split; simpl in *; [done|rewrite Hs by set_solver; done|rewrite Hs by set_solver; done].
Qed.
Lemma ok_woken k k' h a x q : first_woken h k k' → wait_head h → h ∈ [LPipeRead a; LPipeWrite a] → pipe_ok k a x q → pipe_ok k' a x q.
Proof.
  unfold first_woken. intros Hw Hh Hin Hok. destruct (l_get (ks_lists k) h) as [|w ws] eqn:El; [by subst|].
  destruct Hw as (_ & _ & Eh & _ & Ho). destruct Hok as [Hq Hr Hwr].
  rewrite !elem_of_cons, elem_of_nil in Hin. destruct Hin as [->|[->|[]]]; split; try done.
  - intros _. apply Hr. by rewrite El.
  - by rewrite Ho.
  - by rewrite Ho.
  - intros _. apply Hwr. by rewrite El.
Qed.
Lemma ok_parked k k' h t a x q : parked h t k k' → pipe_ok k a x q → h ∈ [LPipeRead a; LPipeWrite a] →
  (h = LPipeRead a → flag_test (pipe_flag x) RT_PIPE_FLAG_BLOCK_RD = true) →
  (h = LPipeWrite a → flag_test (pipe_flag x) RT_PIPE_FLAG_BLOCK_WR = true) → pipe_ok k' a x q.
Proof.
  intros (_ & _ & Eh & _ & _ & Ho) [Hq Hr Hw] Hin H1 H2. rewrite !elem_of_cons, elem_of_nil in Hin.
  destruct Hin as [->|[->|[]]]; split; try done.
  - intros _. by apply H1.
  - by rewrite Ho.
  - by rewrite Ho.
  - intros _. by apply H2.
Qed.

Definition pipe_read_done (a t : Z) (x : rt_pipe_device) (q buffer : list Z) (size : Z) (k : kstate) (D : devs streams)
    (r : call (Z * list Z) (list Z)) s' : Prop :=
  let n := Z.to_nat (Z.min (u16 size) (Z.of_nat (length q))) in
  now_holds a x (drop n q) D s' ∧
  match r with
  | Return (m, b) => m = Z.of_nat n ∧ b = take n q ++ drop n buffer ∧
      (n = 0%nat → flag_test (pipe_flag x) RT_PIPE_FLAG_BLOCK_RD = false ∧ l_kernel s' = k) ∧
      (n ≠ 0%nat → first_woken (LPipeWrite a) k (l_kernel s'))
  | Wait b => n = 0%nat ∧ b = buffer ∧ flag_test (pipe_flag x) RT_PIPE_FLAG_BLOCK_RD = true ∧ parked (LPipeRead a) t k (l_kernel s')
  end.
Lemma read_loop_spec k D a x q t th buffer size : running k t th → st_pipes (d_priv D) !! a = Some x → pipe_ok k a x q →
  u16 size ≤ Z.of_nat (length buffer) → flag_test (pipe_flag x) RT_PIPE_FLAG_BLOCK_RD = true →
  wp (read_loop a (Some t) buffer size) (pipe_read_done a t x q buffer size k D) (Layer k D).
Proof.
  intros Hr Hx Hok Hb Hf. pose proof Hok as [Hq _ _]. unfold read_loop. wp_step.
  eapply wp_mono; [by eapply pipe_get_spec|]. intros ? s' (-> & rb & -> & Hh & Hz). cbv beta iota. unfold pipe_read_done.
  set (n := Z.to_nat (Z.min (u16 size) (Z.of_nat (length q)))) in *. destruct (Z.eqb_spec (Z.of_nat n) 0) as [E|E].
  - assert (n = 0%nat) as E0 by lia. wp_step. eapply wp_mono; [by eapply pipe_suspend_spec|].
    intros ? s2 [Eo Hp]. wp_step. rewrite E0 in *. rewrite drop_0 in *. split.
    + exists rb. split_and!; [done| |done]. eapply ok_parked; [exact Hp| |set_solver| |done].
      * by apply (ok_same k k a x q).
      * intros _. by destruct x.
    + by split_and!.
  - wp_step. eapply wp_mono; [by eapply resume_writer_spec; [apply Hr|eapply running_some| |]|].
    intros ? s2 [Eo Hw]. wp_step. split.
    + exists rb. split_and!; [done| |done]. eapply ok_woken; [exact Hw|done|set_solver|]. by apply (ok_same k k a x q).
    + split_and!; [done|done|lia|done].
Qed.
Lemma rt_pipe_read_spec k D a x q t th buffer size : running k t th → st_pipes (d_priv D) !! a = Some x → pipe_ok k a x q →
  u16 size ≤ Z.of_nat (length buffer) →
  wp (rt_pipe_read a buffer size) (pipe_read_done a t x q buffer size k D) (Layer k D).
Proof.
  intros Hr Hx Hok Hb. pose proof Hok as [Hq _ _]. unfold rt_pipe_read. wp_step. eapply wp_get_pipe; [done|].
  destruct (flag_test (pipe_flag x) RT_PIPE_FLAG_BLOCK_RD) eqn:Ef; cbn [negb].
  - wp_step. unfold rt_thread_self. apply wp_kern. wp_step. wp_step. wp_step. wp_step. apply wp_kern. unfold RT_DEBUG_NOT_IN_INTERRUPT, rt_interrupt_get_nest.
    wp_step. wp_step. wp_step. wp_step. wp_step; [by rewrite (rn_irq _ _ _ Hr)|]. rewrite (rn_current _ _ _ Hr). by eapply read_loop_spec.
  - wp_step. eapply wp_mono; [by eapply pipe_get_spec|]. intros ? s' (-> & rb & -> & Hh & Hz). cbv beta iota. unfold pipe_read_done.
    set (n := Z.to_nat (Z.min (u16 size) (Z.of_nat (length q)))) in *. wp_step. destruct (Z.eqb_spec (Z.of_nat n) 0) as [E|E]; cbn [negb].
    + unfold when. wp_step. wp_step. split; [|split_and!; [done|done|done|lia]].
      exists rb. split_and!; [done| |done]. by apply (ok_same k k a x q).
    + unfold when. eapply wp_mono; [by eapply resume_writer_spec; [apply Hr|eapply running_some| |]|].
      intros ? s2 [Eo Hw]. wp_step. split; [|split_and!; [done|done|lia|done]].
      exists rb. split_and!; [done| |done]. eapply ok_woken; [exact Hw|done|set_solver|]. by apply (ok_same k k a x q).
Qed.

(** The device at [a] tells its user that [n] bytes have come: the function behind
    [rx_indicate], if there is one, is called with both, and takes the kernel from [k] to [k1]. *)
Definition notified (o : option Z) (a n : Z) (k : kstate) (D : devs streams) (k1 : kstate) : Prop :=
  match o with None => k1 = k | Some f => ∃ r, call_rx_indicate f a n (Layer k D) = Done r (Layer k1 D) end.
(** What this function promises for a pipe: it returns, and leaves the devices and the waiting
    threads alone. *)
Definition rx_ok (a : Z) (x : rt_pipe_device) (d : rt_device) (k : kstate) (D : devs streams) : Prop :=
  ∀ f n rb, dev_rx_indicate d = Some f → let D' := set_pipe a (set_pipe_ringbuffer rb x) D in
    ∃ r k1, call_rx_indicate f a n (Layer k D') = Done r (Layer k1 D') ∧ same_waiting k k1.

Lemma resume_reader_spec k D a x q d rb : wf k → is_Some (ks_current k) → pipe_ok k a (set_pipe_ringbuffer rb x) q →
  rx_ok a x d k D → d_devices D !! a = Some d →
  let D' := set_pipe a (set_pipe_ringbuffer rb x) D in
  wp (rt_pipe_resume_reader a) (λ _ s', l_own s' = D' ∧ ∃ k1, notified (dev_rx_indicate d) a (Z.of_nat (length q)) k D' k1 ∧
    same_waiting k k1 ∧ first_woken (LPipeRead a) k1 (l_kernel s')) (Layer k D').
Proof.
  intros Hwf Hc Hok Hrx Hd D'. assert (Hx : st_pipes (d_priv D') !! a = Some (set_pipe_ringbuffer rb x)) by apply lookup_insert_eq.
  unfold rt_pipe_resume_reader. wp_step. eapply wp_get_device; [done|]. wp_step.
  assert (Hend : ∀ k1, notified (dev_rx_indicate d) a (Z.of_nat (length q)) k D' k1 → same_waiting k k1 →
    wp (e ← kern (tlist_isempty (LPipeRead a));
        if (e : bool) then mret tt
        else x ← get_pipe a; RT_ASSERT (flag_test (pipe_flag x) RT_PIPE_FLAG_BLOCK_RD);; kern (dq_wake (LPipeRead a)))
      (λ _ s', l_own s' = D' ∧ ∃ k1, notified (dev_rx_indicate d) a (Z.of_nat (length q)) k D' k1 ∧ same_waiting k k1 ∧
        first_woken (LPipeRead a) k1 (l_kernel s')) (Layer k1 D')).
  { intros k1 Hnt Hk1. pose proof Hk1 as (Hwf1 & Hc1 & Hl). wp_step. apply wp_kern, wp_tlist_isempty. unfold l_isempty.
    destruct (l_get (ks_lists k1) (LPipeRead a)) as [|w ws] eqn:El; simpl.
    - wp_step. split; [done|]. exists k1. split_and!; [done..|]. unfold first_woken. by rewrite El.
    - wp_step. eapply wp_get_pipe; [done|]. wp_step. wp_step.
      { apply (po_readers _ _ _ _ Hok). by rewrite <- Hl, El. }
      apply wp_kern. eapply wp_mono; [by eapply dq_wake_first|]. intros ? k' Hw. split; [done|]. by exists k1. }
  destruct (dev_rx_indicate d) as [f|] eqn:Ef.
  - wp_step. eapply wp_get_pipe; [done|]. wp_step.
    replace (rt_ringbuffer_data_len _) with (Z.of_nat (length q)) by (symmetry; apply holds_data_len, Hok).
    destruct (Hrx f (Z.of_nat (length q)) rb Ef) as (r & k1 & E & Hk1). eapply wp_done; [exact E|].
    wp_step. apply Hend; [by exists r|done].
  - wp_step. by apply Hend.
Qed.

Definition running_context (k : kstate) : Prop := wf k ∧ is_Some (ks_current k).
Definition pipe_write_done (a t : Z) (x : rt_pipe_device) (d : rt_device) (q buffer : list Z) (size : Z) (k : kstate) (D : devs streams)
    (r : call Z unit) s' : Prop :=
  let n := Z.min (u16 size) (rb_buffer_size (pipe_ringbuffer x) - Z.of_nat (length q)) in
  now_holds a x (q ++ take (Z.to_nat n) buffer) D s' ∧
  match r with
  | Return m => m = n ∧
      (n = 0 → flag_test (pipe_flag x) RT_PIPE_FLAG_BLOCK_WR = false ∨ flag_test (pipe_flag x) RT_PIPE_FLAG_FORCE_WR = true) ∧
      ∃ k1, notified (dev_rx_indicate d) a (Z.of_nat (length (q ++ take (Z.to_nat n) buffer))) k (l_own s') k1 ∧
        same_waiting k k1 ∧ first_woken (LPipeRead a) k1 (l_kernel s')
  | Wait _ => n = 0 ∧ flag_test (pipe_flag x) RT_PIPE_FLAG_BLOCK_WR = true ∧ parked (LPipeWrite a) t k (l_kernel s')
  end.
Lemma write_ends k D a x q d buffer size rb t : running_context k → rx_ok a x d k D → pipe_ok k a x q → d_devices D !! a = Some d →
  let n := Z.min (u16 size) (rb_buffer_size (pipe_ringbuffer x) - Z.of_nat (length q)) in
  rb_holds rb (q ++ take (Z.to_nat n) buffer) → rb_buffer_size rb = rb_buffer_size (pipe_ringbuffer x) →
  (n = 0 → flag_test (pipe_flag x) RT_PIPE_FLAG_BLOCK_WR = false ∨ flag_test (pipe_flag x) RT_PIPE_FLAG_FORCE_WR = true) →
  wp (rt_pipe_resume_reader a;; mret (Return n)) (pipe_write_done a t x d q buffer size k D)
    (Layer k (set_pipe a (set_pipe_ringbuffer rb x) D)).
Proof.
  intros [Hwf Hc] Hrx Hok Hd n Hh Hz Hn0. wp_step.
  assert (Hok1 : pipe_ok k a (set_pipe_ringbuffer rb x) (q ++ take (Z.to_nat n) buffer)) by (by apply (ok_same k k a x q)).
  eapply wp_mono; [eapply resume_reader_spec; [exact Hwf|exact Hc|exact Hok1|exact Hrx|exact Hd]|].
  intros ? s2 (Eo & k1 & Hnt & Hk1 & Hw). wp_step. split.
  - exists rb. split_and!; [done| |done]. eapply ok_woken; [exact Hw|done|set_solver|].
    destruct Hk1 as (_ & _ & Hl). destruct Hok1 as [G1 G2 G3]. split; [done|by rewrite Hl|by rewrite Hl].
  - split_and!; [done|done|]. exists k1. by rewrite Eo.
Qed.
Lemma write_loop_spec k D a x q d t th buffer size : running k t th → rx_ok a x d k D → st_pipes (d_priv D) !! a = Some x → pipe_ok k a x q →
  d_devices D !! a = Some d → u16 size ≤ Z.of_nat (length buffer) → flag_test (pipe_flag x) RT_PIPE_FLAG_BLOCK_WR = true →
  wp (write_loop a (Some t) buffer size) (pipe_write_done a t x d q buffer size k D) (Layer k D).
Proof.
  intros Hr Hrx Hx Hok Hd Hb Hf. pose proof Hok as [Hq _ _]. unfold write_loop. wp_step.
  eapply wp_mono; [by eapply pipe_put_spec|]. intros ? s' (-> & rb & -> & Hh & Hz). cbv beta iota.
  set (n := Z.min (u16 size) (rb_buffer_size (pipe_ringbuffer x) - Z.of_nat (length q))) in *. destruct (Z.eqb_spec n 0) as [E|E].
  - wp_step. eapply wp_mono; [by eapply pipe_suspend_spec|]. intros ? s2 [Eo Hp]. wp_step. split.
    + exists rb. split_and!; [done| |done]. eapply ok_parked; [exact Hp|by apply (ok_same k k a x q)|set_solver|done|].
      intros _. by destruct x.
    + by split_and!.
  - apply write_ends; [|done..]. split; [apply Hr|by eapply running_some].
Qed.
Lemma rt_pipe_write_spec k D a x q d t th buffer size : running k t th → rx_ok a x d k D → st_pipes (d_priv D) !! a = Some x → pipe_ok k a x q →
  d_devices D !! a = Some d → u16 size ≤ Z.of_nat (length buffer) →
  (flag_test (pipe_flag x) RT_PIPE_FLAG_FORCE_WR = true → u16 size ≤ rb_buffer_size (pipe_ringbuffer x) - Z.of_nat (length q)) →
  wp (rt_pipe_write a buffer size) (pipe_write_done a t x d q buffer size k D) (Layer k D).
Proof.
  intros Hr Hrx Hx Hok Hd Hb Hforce. pose proof Hok as [Hq _ _]. unfold rt_pipe_write. wp_step. eapply wp_get_pipe; [done|].
  destruct (flag_test (pipe_flag x) RT_PIPE_FLAG_FORCE_WR || negb (flag_test (pipe_flag x) RT_PIPE_FLAG_BLOCK_WR)) eqn:Ef.
  - wp_step. assert (Hput : wp (if flag_test (pipe_flag x) RT_PIPE_FLAG_FORCE_WR then pipe_put rt_ringbuffer_put_force a buffer size
        else pipe_put rt_ringbuffer_put a buffer size) (λ n s', wp (rt_pipe_resume_reader a;; mret (Return n))
        (pipe_write_done a t x d q buffer size k D) s') (Layer k D)).
    { assert (Hp : wp (pipe_put rt_ringbuffer_put a buffer size) (λ n s', wp (rt_pipe_resume_reader a;; mret (Return n))
        (pipe_write_done a t x d q buffer size k D) s') (Layer k D)).
      { eapply wp_mono; [by eapply pipe_put_spec|]. intros ? s' (-> & rb & -> & Hh & Hz). apply write_ends; try done.
        - split; [apply Hr|by eapply running_some].
        - intros _. apply orb_true_iff in Ef as [Ef|Ef%negb_true_iff]; auto. }
      destruct (flag_test (pipe_flag x) RT_PIPE_FLAG_FORCE_WR); [|exact Hp]. unfold wp in *.
      rewrite (pipe_force_spec _ _ _ x q); [exact Hp|done|done|done|by apply Hforce]. }
    exact Hput.
  - apply orb_false_iff in Ef as [_ Ef]. apply negb_false_iff in Ef.
    wp_step. unfold rt_thread_self. apply wp_kern. wp_step. wp_step. wp_step. wp_step. apply wp_kern. unfold RT_DEBUG_NOT_IN_INTERRUPT, rt_interrupt_get_nest.
    wp_step. wp_step. wp_step. wp_step. wp_step; [by rewrite (rn_irq _ _ _ Hr)|]. rewrite (rn_current _ _ _ Hr). by eapply write_loop_spec.
Qed.

End refine.

(** * Portals *)

Section portals.
Context {SI : stream_image} {SC : stream_calls} {DO : driver_ops streams}.

(** The functions of a pipe stand at their addresses: a call through the device that does not
    wait is a call of the function, and so is the notification of a portal. *)
Record linked : Prop := {
  lk_read a pos size n b s s' : rt_pipe_read a (replicate (Z.to_nat size) 0) size s = Done (Return (n, b)) s' →
    drv_read rt_pipe_read_fn a pos size s = Done (n, take (Z.to_nat n) b) s';
  lk_write a pos buffer n s s' : rt_pipe_write a buffer (Z.of_nat (length buffer)) s = Done (Return n) s' →
    drv_write rt_pipe_write_fn a pos buffer s = Done n s';
  lk_rx a n r s s' : portal_rx_indicate a n s = Done r s' → call_rx_indicate portal_rx_indicate_fn a n s = Done r s'
}.
(** The pipe [w], empty, open and without waiting threads, from the portal [p0] to [p1] with the
    device [dp], as [rt_portal_init] connects them.  What is registered at [p1] for arriving data
    returns to the thread [t] and leaves the devices and the waiting threads alone. *)
Record joined (p0 p1 w : Z) (x : rt_pipe_device) (d dp : rt_device) (t : Z) (k : kstate) (D : devs streams) : Prop := {
  jn_write : ∃ r, st_portals (d_priv D) !! p0 = Some (Portal (Some w) r);
  jn_read : ∃ v, st_portals (d_priv D) !! p1 = Some (Portal v (Some w));
  jn_pipe : st_pipes (d_priv D) !! w = Some x;
  jn_device : d_devices D !! w = Some d;
  jn_open : dev_ref_count d ≠ 0;
  jn_calls : dev_read d = Some rt_pipe_read_fn ∧ dev_write d = Some rt_pipe_write_fn;
  jn_told : dev_type d = RT_Device_Class_Pipe ∧ dev_rx_indicate d = Some portal_rx_indicate_fn ∧ pipe_read_portal x = Some p1;
  jn_portal : d_devices D !! p1 = Some dp;
  jn_heard f n D' : dev_rx_indicate dp = Some f → ∃ r k1, call_rx_indicate f p1 n (Layer k D') = Done r (Layer k1 D') ∧
    same_waiting k k1 ∧ ∃ th, running k1 t th;
  jn_empty : rb_holds (pipe_ringbuffer x) [];
  jn_readers : l_get (ks_lists k) (LPipeRead w) = [];
  jn_writers : l_get (ks_lists k) (LPipeWrite w) = []
}.
(** The notification of the pipe goes to the portal that reads from it. *)
Lemma joined_notified p0 p1 w x d dp t th k D n rb : linked → running k t th → joined p0 p1 w x d dp t k D →
  let D' := set_pipe w (set_pipe_ringbuffer rb x) D in
  ∃ r k1, call_rx_indicate portal_rx_indicate_fn w n (Layer k D') = Done r (Layer k1 D') ∧ notified (dev_rx_indicate dp) p1 n k D' k1 ∧
    same_waiting k k1 ∧ ∃ th, running k1 t th.
Proof.
  intros L Hr [_ _ _ Hd _ _ (Et & Er & Ep) Hdp Hq _ _ _] D'.
  assert (∃ r k1, portal_rx_indicate w n (Layer k D') = Done r (Layer k1 D') ∧ notified (dev_rx_indicate dp) p1 n k D' k1 ∧
    same_waiting k k1 ∧ ∃ th, running k1 t th) as (r & k1 & E & H).
  { unfold portal_rx_indicate, get_device, get_pipe, the_device, mbind, SM_bind, get. simpl. rewrite Hd. simpl. rewrite Et. simpl.
    rewrite lookup_insert_eq. simpl. replace (pipe_read_portal _) with (Some p1) by (by destruct x). simpl. rewrite Hdp. simpl.
    destruct (dev_rx_indicate dp) as [f|]; simpl.
    - destruct (Hq f n D' eq_refl) as (r & k1 & E & Hs & Hr1). exists r, k1. split_and!; [done|by exists r|done..].
    - exists (- RT_ENOSYS), k. split_and!; [done|done|split_and!; [apply Hr|by eapply running_some|done]|by exists th]. }
  apply lk_rx in E; [|done]. by exists r, k1.
Qed.
Lemma joined_rx p0 p1 w x d dp t th k D : linked → running k t th → joined p0 p1 w x d dp t k D → rx_ok w x d k D.
Proof.
  intros L Hr Hj f n rb Ef D'. destruct (jn_told _ _ _ _ _ _ _ _ _ Hj) as (_ & Er & _). rewrite Er in Ef. injection Ef as <-.
  destruct (joined_notified _ _ _ _ _ _ _ _ _ _ n rb L Hr Hj) as (r & k1 & E & _ & Hs & _). by exists r, k1.
Qed.
Lemma rt_device_write_pipe k D w d buffer n s' : d_devices D !! w = Some d → dev_ref_count d ≠ 0 → dev_write d = Some rt_pipe_write_fn →
  linked → rt_pipe_write w buffer (Z.of_nat (length buffer)) (Layer k D) = Done (Return n) s' →
  rt_device_write w 0 buffer (Layer k D) = Done n s'.
Proof.
  intros Hd Hr Hw L E. unfold rt_device_write, get_device, mbind, SM_bind, get. simpl. rewrite Hd. simpl.
  rewrite (proj2 (Z.eqb_neq _ 0)), Hw by done. by apply lk_write.
Qed.
Lemma rt_device_read_pipe k D w d size n b s' : d_devices D !! w = Some d → dev_ref_count d ≠ 0 → dev_read d = Some rt_pipe_read_fn →
  linked → rt_pipe_read w (replicate (Z.to_nat size) 0) size (Layer k D) = Done (Return (n, b)) s' →
  rt_device_read w 0 size (Layer k D) = Done (n, take (Z.to_nat n) b) s'.
Proof.
  intros Hd Hr Hw L E. unfold rt_device_read, get_device, mbind, SM_bind, get. simpl. rewrite Hd. simpl.
  rewrite (proj2 (Z.eqb_neq _ 0)), Hw by done. by eapply lk_read.
Qed.


(** A portal whose second pipe does not exist cannot be made: the code that means to give
    the first pipe its function back hands the null pointer to the framework, which asserts. *)
Theorem rt_portal_init_asserts a portal_name write_dev read_dev k k1 k2 w dw dx x y D :
  d_devices D !! a = Some dx → d_devices D !! w = Some dw → a ≠ w → dev_type dw = RT_Device_Class_Pipe →
  st_portals (d_priv D) !! a = Some x → st_pipes (d_priv D) !! w = Some y →
  rt_device_find write_dev k = Done (Some w) k1 → rt_device_find read_dev k1 = Done None k2 →
  rt_portal_init a portal_name write_dev read_dev (Layer k D) = Fault AssertFailed.
Proof.
  intros Ha Hw Hne Ht Hx Hy E1 E2. unfold rt_portal_init, upd_device, get_device, put_device, mbind, SM_bind, get, modify, kern.
  simpl. rewrite Ha. simpl. rewrite E1. simpl. rewrite lookup_insert_ne, Hw by done. simpl. rewrite Ht. simpl.
  unfold get_portal, mbind, SM_bind, get. simpl. rewrite Hx. simpl.
  unfold rt_device_set_tx_complete, upd_device, get_device, put_device, mbind, SM_bind, get, modify. simpl.
  rewrite lookup_insert_eq. simpl. rewrite lookup_insert_ne, lookup_insert_ne, Hw by done. simpl.
  unfold upd_pipe, get_pipe, put_pipe, set_streams, mbind, SM_bind, get, modify. simpl. rewrite Hy. simpl. by rewrite E2.
Qed.
End portals.
