(* ===== verification/MemHeap.v ===== *)
(** Memory heaps, [rt-thread/src/memheap.c]: blocks of any size cut from a pool.

    Every block starts with an item ([struct rt_memheap_item]) in the pool itself.  All
    items are linked in the order of their addresses, to a cycle that ends in the
    tailer at the end of the pool; the items of free blocks are linked to the free list
    header inside the heap object.  The fields of the items are finite maps from
    addresses; a read of a field that was never written is the fault [BadPointer], and
    so is a write to an item that is not inside the pool (and not the free list
    header).  The heap is locked with a semaphore of the kernel. *)

From stdpp Require Import base gmap list fin_maps.
From Stdlib Require Import ZArith Lia.
From S2P Require Import Prelude IntrusiveList Kservice KState Object Sched Timer Thread Ipc Sem MemPool.

Open Scope Z_scope.

(** * State *)

Inductive item_field := Fmagic | Fpool | Fnext | Fprev | Fnext_free | Fprev_free.
Definition item_field_eqb (f g : item_field) : bool :=
  match f, g with
  | Fmagic, Fmagic | Fpool, Fpool | Fnext, Fnext | Fprev, Fprev
  | Fnext_free, Fnext_free | Fprev_free, Fprev_free => true
  | _, _ => false
  end.

Record rt_memheap := MemHeap {
  mh_start_addr : Z;
  mh_pool_size : Z;
  mh_available_size : Z;
  mh_max_used_size : Z;
  mh_block_list : Z;
  mh_free_list : Z
}.
Definition set_mh_available (v : Z) (x : rt_memheap) : rt_memheap :=
  let '(MemHeap st ps _ mu bl fl) := x in MemHeap st ps v mu bl fl.
Definition set_mh_max_used (v : Z) (x : rt_memheap) : rt_memheap :=
  let '(MemHeap st ps av _ bl fl) := x in MemHeap st ps av v bl fl.

(** The heaps by address, and the fields of the items by the address of the item. *)
Record hstate := HState {
  h_heaps : gmap Z rt_memheap;
  h_magic : gmap Z Z;
  h_pool : gmap Z Z;
  h_next : gmap Z Z;
  h_prev : gmap Z Z;
  h_next_free : gmap Z Z;
  h_prev_free : gmap Z Z
}.
Definition h_field (f : item_field) (s : hstate) : gmap Z Z :=
  match f with
  | Fmagic => h_magic s | Fpool => h_pool s | Fnext => h_next s | Fprev => h_prev s
  | Fnext_free => h_next_free s | Fprev_free => h_prev_free s
  end.
Definition h_write (f : item_field) (p v : Z) (s : hstate) : hstate :=
  let '(HState hs mg pl nx pv nf pf) := s in
  match f with
  | Fmagic => HState hs (<[p := v]> mg) pl nx pv nf pf
  | Fpool => HState hs mg (<[p := v]> pl) nx pv nf pf
  | Fnext => HState hs mg pl (<[p := v]> nx) pv nf pf
  | Fprev => HState hs mg pl nx (<[p := v]> pv) nf pf
  | Fnext_free => HState hs mg pl nx pv (<[p := v]> nf) pf
  | Fprev_free => HState hs mg pl nx pv nf (<[p := v]> pf)
  end.
Definition h_put (a : Z) (x : rt_memheap) (s : hstate) : hstate :=
  let '(HState hs mg pl nx pv nf pf) := s in HState (<[a := x]> hs) mg pl nx pv nf pf.

(** The kernel and the heaps. *)
Definition mstate : Type := layer hstate.

(** * Access to the items *)

Definition RT_WAITING_FOREVER : Z := -1.
Definition RT_MEMHEAP_MAGIC : Z := 0x1ea01ea0.
Definition RT_MEMHEAP_MASK : Z := 0xfffffffe.
Definition RT_MEMHEAP_USED : Z := 0x01.
Definition RT_MEMHEAP_MINIALLOC : Z := 12.
(** The six words of an item. *)
Definition RT_MEMHEAP_SIZE : Z := 24.

(** The members [free_header] and [lock] of the heap at [a]. *)
Definition free_header (a : Z) : Z := a + 44.
Definition mh_lock (a : Z) : Z := a + 68.

Definition get_memheap (a : Z) : SM hstate rt_memheap :=
  s ← get; of_option BadPointer (h_heaps s !! a).
Definition put_memheap (a : Z) (x : rt_memheap) : SM hstate unit := modify (h_put a x).

Definition rd (f : item_field) (p : Z) : SM hstate Z :=
  s ← get; of_option BadPointer (h_field f s !! p).
(** The item at [p] is the free list header of the heap at [a] or lies in its pool. *)
Definition writable (a : Z) (x : rt_memheap) (p : Z) : bool :=
  (p =? free_header a) ||
  (mh_start_addr x <=? p) && (p + RT_MEMHEAP_SIZE <=? mh_start_addr x + mh_pool_size x).
Definition wr (a : Z) (f : item_field) (p v : Z) : SM hstate unit :=
  x ← get_memheap a;
  if writable a x p then modify (h_write f p v) else fail BadPointer.

Definition MEMITEM_SIZE (p : Z) : SM hstate Z :=
  n ← rd Fnext p; mret (u32 (n - p - RT_MEMHEAP_SIZE)).
Definition RT_MEMHEAP_IS_USED (p : Z) : SM hstate bool :=
  m ← rd Fmagic p; mret (flag_test m RT_MEMHEAP_USED).

(** * The list code, as it is repeated in the functions below *)

(** Put the item into the free list, behind its header. *)
Definition free_list_insert (a p : Z) : SM hstate unit :=
  x ← get_memheap a;
  let fl := mh_free_list x in
  n ← rd Fnext_free fl; wr a Fnext_free p n;;
  wr a Fprev_free p fl;;
  n ← rd Fnext_free fl; wr a Fprev_free n p;;
  wr a Fnext_free fl p.
(** Take the item out of the free list. *)
Definition free_list_remove (a p : Z) : SM hstate unit :=
  n ← rd Fnext_free p; v ← rd Fprev_free p; wr a Fprev_free n v;;
  v ← rd Fprev_free p; n ← rd Fnext_free p; wr a Fnext_free v n.
(** [RT_NULL] in the links of an item that is in no free list. *)
Definition free_list_clear (a p : Z) : SM hstate unit :=
  wr a Fnext_free p 0;; wr a Fprev_free p 0.
(** A new item [q] behind the item [p]. *)
Definition split_block (a p q : Z) : SM hstate unit :=
  wr a Fmagic q RT_MEMHEAP_MAGIC;;
  wr a Fpool q a;;
  wr a Fprev q p;;
  n ← rd Fnext p; wr a Fnext q n;;
  n ← rd Fnext p; wr a Fprev n q;;
  wr a Fnext p q.

(** The available size goes down, the maximum of the used size up. *)
Definition take_size (a n : Z) : SM hstate unit :=
  x ← get_memheap a;
  let x := set_mh_available (u32 (mh_available_size x - n)) x in
  let used := u32 (mh_pool_size x - mh_available_size x) in
  put_memheap a (if mh_max_used_size x <? used then set_mh_max_used used x else x).
Definition give_size (a n : Z) : SM hstate unit :=
  x ← get_memheap a;
  put_memheap a (set_mh_available (u32 (mh_available_size x + n)) x).

(** * The operations *)

(** The items of [rt_memheap_init]; [size] is the size of the memory at [start_addr]. *)
Definition init_items (a start_addr size : Z) : SM hstate unit :=
  let pool_size := RT_ALIGN_DOWN size RT_ALIGN_SIZE in
  let available_size := u32 (pool_size - 2 * RT_MEMHEAP_SIZE) in
  let h := free_header a in
  put_memheap a (MemHeap start_addr pool_size available_size (u32 (pool_size - available_size)) start_addr h);;
  wr a Fmagic h RT_MEMHEAP_MAGIC;;
  wr a Fpool h a;;
  wr a Fnext h 0;;
  wr a Fprev h 0;;
  wr a Fnext_free h h;;
  wr a Fprev_free h h;;
  let item := start_addr in
  wr a Fmagic item RT_MEMHEAP_MAGIC;;
  wr a Fpool item a;;
  wr a Fnext item 0;;
  wr a Fprev item 0;;
  wr a Fnext_free item item;;
  wr a Fprev_free item item;;
  wr a Fnext item (u32 (item + available_size + RT_MEMHEAP_SIZE));;
  n ← rd Fnext item; wr a Fprev item n;;
  free_list_insert a item;;
  item ← rd Fnext item;
  wr a Fmagic item (Z.lor RT_MEMHEAP_MAGIC RT_MEMHEAP_USED);;
  wr a Fpool item a;;
  wr a Fnext item start_addr;;
  wr a Fprev item start_addr;;
  wr a Fprev_free item 0;;
  wr a Fnext_free item 0.

Definition rt_memheap_init (a : Z) (name : list Z) (start_addr size : Z) : SM mstate Z :=
  kern (rt_object_init (OMemHeap a) ClassMemHeap name);;
  own (init_items a start_addr size);;
  _ ← kern (rt_sem_init (mh_lock a) name 1 RT_IPC_FLAG_FIFO);
  mret RT_EOK.

Definition rt_memheap_detach (a : Z) : SM mstate Z :=
  kern (rt_object_detach (OSem (mh_lock a)));;
  kern (rt_object_detach (OMemHeap a));;
  mret RT_EOK.

(** The size a request is rounded to. *)
Definition request_size (size : Z) : Z :=
  let size := RT_ALIGN size RT_ALIGN_SIZE in
  if size <? RT_MEMHEAP_MINIALLOC then RT_MEMHEAP_MINIALLOC else size.

(** The search of the free list, from [header_ptr] with the last size seen; one turn
    per free block. *)
Fixpoint search_free (fuel : nat) (free_list size header_ptr free_size : Z) : SM hstate (Z * Z) :=
  if negb (header_ptr =? free_list) && (free_size <? size) then
    match fuel with
    | O => fail OutOfFuel
    | S fuel =>
      free_size ← MEMITEM_SIZE header_ptr;
      header_ptr ← (if free_size <? size then rd Fnext_free header_ptr else mret header_ptr);
      search_free fuel free_list size header_ptr free_size
    end
  else mret (header_ptr, free_size).

(** [rt_memheap_alloc] with the lock held. *)
Definition alloc_locked (a size : Z) : SM hstate (option Z) :=
  x ← get_memheap a;
  header_ptr ← rd Fnext_free (mh_free_list x);
  '(header_ptr, free_size) ← search_free (Z.to_nat (mh_pool_size x)) (mh_free_list x) size header_ptr 0;
  if size <=? free_size then
    (if u32 (size + RT_MEMHEAP_SIZE + RT_MEMHEAP_MINIALLOC) <=? free_size then
       let new_ptr := u32 (header_ptr + size + RT_MEMHEAP_SIZE) in
       split_block a header_ptr new_ptr;;
       free_list_remove a header_ptr;;
       free_list_clear a header_ptr;;
       free_list_insert a new_ptr;;
       take_size a (size + RT_MEMHEAP_SIZE)
     else
       take_size a free_size;;
       free_list_remove a header_ptr;;
       free_list_clear a header_ptr);;
    m ← rd Fmagic header_ptr;
    wr a Fmagic header_ptr (Z.lor m RT_MEMHEAP_USED);;
    mret (Some (u32 (header_ptr + RT_MEMHEAP_SIZE)))
  else mret None.

(** The code behind [rt_sem_take], with its result. *)
Definition alloc_continue (a size result : Z) : SM mstate (option Z) :=
  if negb (result =? RT_EOK) then kern (rt_set_errno result);; mret None
  else
    p ← own (alloc_locked a size);
    _ ← kern (rt_sem_release (mh_lock a));
    mret p.

Definition rt_memheap_alloc (a size : Z) : SM mstate (call (option Z) Z) :=
  let size := request_size size in
  x ← own (get_memheap a);
  if size <? mh_available_size x then
    r ← kern (rt_sem_take (mh_lock a) RT_WAITING_FOREVER);
    match r with
    | Return result => p ← alloc_continue a size result; mret (Return p)
    | Wait _ => mret (Wait size)
    end
  else mret (Return None).
Definition rt_memheap_alloc_resumed (t a size : Z) : SM mstate (option Z) :=
  result ← kern (rt_sem_take_resumed t);
  alloc_continue a size result.

(** [rt_memheap_free] with the lock held, [header_ptr] the item of the block. *)
Definition free_locked (a header_ptr : Z) : SM hstate unit :=
  m ← rd Fmagic header_ptr;
  wr a Fmagic header_ptr (Z.land m (Z.lnot RT_MEMHEAP_USED));;
  n ← MEMITEM_SIZE header_ptr; give_size a n;;
  prev ← rd Fprev header_ptr;
  used ← RT_MEMHEAP_IS_USED prev;
  '(header_ptr, insert_header) ←
    (if negb used then
       give_size a RT_MEMHEAP_SIZE;;
       v ← rd Fprev header_ptr; n ← rd Fnext header_ptr; wr a Fnext v n;;
       n ← rd Fnext header_ptr; v ← rd Fprev header_ptr; wr a Fprev n v;;
       v ← rd Fprev header_ptr; mret (v, false)
     else mret (header_ptr, true));
  next ← rd Fnext header_ptr;
  used ← RT_MEMHEAP_IS_USED next;
  when (negb used) (
    give_size a RT_MEMHEAP_SIZE;;
    new_ptr ← rd Fnext header_ptr;
    n ← rd Fnext new_ptr; wr a Fprev n header_ptr;;
    n ← rd Fnext new_ptr; wr a Fnext header_ptr n;;
    free_list_remove a new_ptr);;
  when insert_header (free_list_insert a header_ptr).

(** The checks of [rt_memheap_free] and the heap of the block. *)
Definition free_check (header_ptr : Z) : SM hstate Z :=
  m ← rd Fmagic header_ptr;
  RT_ASSERT (Z.land m RT_MEMHEAP_MASK =? RT_MEMHEAP_MAGIC);;
  RT_ASSERT (flag_test m RT_MEMHEAP_USED);;
  n ← rd Fnext header_ptr;
  m ← rd Fmagic n;
  RT_ASSERT (Z.land m RT_MEMHEAP_MASK =? RT_MEMHEAP_MAGIC);;
  rd Fpool header_ptr.

Definition free_continue (a header_ptr result : Z) : SM mstate unit :=
  if negb (result =? RT_EOK) then kern (rt_set_errno result)
  else
    own (free_locked a header_ptr);;
    _ ← kern (rt_sem_release (mh_lock a));
    mret tt.

(** [None] is the null pointer; a call that waits goes on with the heap and the
    item. *)
Definition rt_memheap_free (ptr : option Z) : SM mstate (call unit (Z * Z)) :=
  match ptr with
  | None => mret (Return tt)
  | Some ptr =>
    let header_ptr := u32 (ptr - RT_MEMHEAP_SIZE) in
    a ← own (free_check header_ptr);
    r ← kern (rt_sem_take (mh_lock a) RT_WAITING_FOREVER);
    match r with
    | Return result => free_continue a header_ptr result;; mret (Return tt)
    | Wait _ => mret (Wait (a, header_ptr))
    end
  end.
Definition rt_memheap_free_resumed (t : Z) (w : Z * Z) : SM mstate unit :=
  result ← kern (rt_sem_take_resumed t);
  free_continue w.1 w.2 result.
