(* ===== verification/MemHeapFacts.v ===== *)
(** Memory heaps: the sequence of blocks a heap stands for, and the effect of the
    pointer code on it. *)

From stdpp Require Import base gmap list fin_maps.
From Stdlib Require Import ZArith Lia.
From S2P Require Import Prelude IntrusiveList Kservice KState Object Sched Timer Thread Ipc Sem MemPool MemHeap.

Open Scope Z_scope.

(** * Sequences of blocks *)

(** The size of the usable part of a block and whether it is allocated. *)
Abbreviation block := (Z * bool)%type.

(** The address behind the blocks that start at [p]. *)
Fixpoint end_of (p : Z) (B : list block) : Z :=
  match B with [] => p | b :: B => end_of (p + 24 + b.1) B end.
(** The blocks with the addresses of their items. *)
Fixpoint placed (p : Z) (B : list block) : list (Z * block) :=
  match B with [] => [] | b :: B => (p, b) :: placed (p + 24 + b.1) B end.
Definition free_items (p : Z) (B : list block) : list Z :=
  fst <$> filter (λ q : Z * block, q.2.2 = false) (placed p B).
Fixpoint free_size (B : list block) : Z :=
  match B with [] => 0 | b :: B => (if b.2 then 0 else b.1) + free_size B end.

(** No two free blocks are neighbours. *)
Fixpoint coalesced (B : list block) : Prop :=
  match B with
  | [] => True
  | b :: B' => match B' with [] => True | c :: _ => b.2 = true ∨ c.2 = true end ∧ coalesced B'
  end.
(** Neighbouring free blocks become one, which gains the item in between. *)
Definition cons_block (b : block) (B : list block) : list block :=
  match B with
  | c :: B' => if b.2 || c.2 then b :: B else (b.1 + 24 + c.1, false) :: B'
  | [] => [b]
  end.
Definition coalesce (B : list block) : list block := foldr cons_block [] B.

Definition sizes_ok (B : list block) : Prop := Forall (λ b, 12 ≤ b.1 ∧ (4 | b.1)) B.

Lemma end_of_app p B B' : end_of p (B ++ B') = end_of (end_of p B) B'.
Proof. revert p. induction B as [|b B IH]; intros p; simpl; [done|apply IH]. Qed.
Lemma placed_app p B B' : placed p (B ++ B') = placed p B ++ placed (end_of p B) B'.
Proof. revert p. induction B as [|b B IH]; intros p; simpl; [done|]. by rewrite IH. Qed.
Lemma free_items_app p B B' : free_items p (B ++ B') = free_items p B ++ free_items (end_of p B) B'.
Proof. unfold free_items. by rewrite placed_app, filter_app, fmap_app. Qed.
Lemma free_items_cons p b B :
  free_items p (b :: B) = (if b.2 then [] else [p]) ++ free_items (p + 24 + b.1) B.
Proof. unfold free_items. simpl. rewrite filter_cons. simpl. by destruct b as [n []]. Qed.
Lemma free_size_app B B' : free_size (B ++ B') = free_size B + free_size B'.
Proof. induction B as [|b B IH]; simpl; [done|]. rewrite IH. lia. Qed.
Lemma free_size_nonneg B : sizes_ok B → 0 ≤ free_size B.
Proof. induction 1 as [|b B Hb _ IH]; simpl; [done|]. destruct b as [n []]; simpl in *; lia. Qed.

Lemma end_of_ge p B : sizes_ok B → p + 36 * Z.of_nat (length B) ≤ end_of p B.
Proof.
  intros HB. revert p. induction HB as [|b B Hb _ IH]; intros p; simpl; [lia|].
  specialize (IH (p + 24 + b.1)). lia.
Qed.
Lemma end_of_divide p B : sizes_ok B → (4 | p) → (4 | end_of p B).
Proof.
  intros HB. revert p. induction HB as [|b B [_ Hb] _ IH]; intros p Hp; simpl; [done|].
  apply IH. apply Z.divide_add_r; [|done]. apply Z.divide_add_r; [done|]. by exists 6.
Qed.
Lemma free_size_le p B : sizes_ok B → free_size B ≤ end_of p B - p.
Proof.
  intros HB. revert p. induction HB as [|b B Hb HB IH]; intros p; simpl; [lia|].
  specialize (IH (p + 24 + b.1)). destruct b as [n []]; simpl in *; lia.
Qed.

(** Every block lies between the start and the end. *)
Lemma placed_range p B q b :
  sizes_ok B → (q, b) ∈ placed p B → p ≤ q ∧ q + 24 + b.1 ≤ end_of p B ∧ 12 ≤ b.1.
Proof.
  intros HB. revert p. induction HB as [|c B Hc HB IH]; intros p; simpl; [by rewrite elem_of_nil|].
  rewrite elem_of_cons. intros [[= -> ->]|Hin].
  - pose proof (end_of_ge (p + 24 + c.1) B HB). lia.
  - apply IH in Hin. lia.
Qed.
Lemma free_items_placed p B q : q ∈ free_items p B ↔ ∃ n, (q, (n, false)) ∈ placed p B.
Proof.
  unfold free_items. rewrite list_elem_of_fmap. split.
  - intros ([q' [n u]] & -> & Hin). apply list_elem_of_filter in Hin as [Hu Hin]. simpl in Hu. subst. by exists n.
  - intros [n Hin]. exists (q, (n, false)). split; [done|]. by apply list_elem_of_filter.
Qed.
Lemma free_items_range p B q : sizes_ok B → q ∈ free_items p B → p ≤ q ∧ q + 36 ≤ end_of p B.
Proof. intros HB [n Hin]%free_items_placed. apply placed_range in Hin; [|done]. simpl in Hin. lia. Qed.
Lemma free_items_nodup p B : sizes_ok B → NoDup (free_items p B).
Proof.
  intros HB. revert p. induction HB as [|b B Hb HB IH]; intros p; [constructor|].
  rewrite free_items_cons. apply NoDup_app. split_and!; [by destruct b.2; repeat constructor; set_solver| |apply IH].
  intros q Hq Hq'. apply free_items_range in Hq'; [|done]. destruct b as [n []]; set_solver by lia.
Qed.
Lemma placed_split p B q b :
  (q, b) ∈ placed p B → ∃ B1 B2, B = B1 ++ b :: B2 ∧ q = end_of p B1.
Proof.
  revert p. induction B as [|c B IH]; intros p; simpl; [by rewrite elem_of_nil|].
  rewrite elem_of_cons. intros [[= -> ->]|(B1 & B2 & -> & ->)%IH]; [by exists [], B|by exists (c :: B1), B2].
Qed.

(** ** Coalescing *)

(** The free neighbour on the left or on the right, if there is one. *)
Definition join_left (B : list block) (n : Z) : list block * Z :=
  match last B with
  | Some (m, false) => (removelast B, m + 24 + n)
  | _ => (B, n)
  end.
Definition join_right (n : Z) (B : list block) : Z * list block :=
  match B with
  | (m, false) :: B' => (n + 24 + m, B')
  | _ => (n, B)
  end.

Lemma coalesced_app B b B' :
  coalesced (B ++ b :: B') ↔
  coalesced B ∧ coalesced (b :: B') ∧ match last B with Some c => c.2 = true ∨ b.2 = true | None => True end.
Proof.
  induction B as [|c B IH]; simpl; [tauto|]. destruct B as [|d B]; simpl in *; [tauto|].
  simpl in IH. rewrite IH. tauto.
Qed.
Lemma coalesce_coalesced B : coalesced B → coalesce B = B.
Proof.
  induction B as [|b B IH]; [done|]. intros [Hb HB]. unfold coalesce in *. simpl. rewrite IH by done.
  destruct B as [|c B]; [done|]. simpl. by destruct Hb as [-> | ->]; rewrite ?orb_true_r.
Qed.
Lemma foldr_cons_block B Y :
  coalesced B →
  match last B, Y with Some b, c :: _ => b.2 = true ∨ c.2 = true | _, _ => True end →
  foldr cons_block Y B = B ++ Y.
Proof.
  induction B as [|b B IH]; [done|]. intros [Hb HB] HY. simpl. destruct B as [|c B].
  - simpl in *. destruct Y as [|d Y]; [done|]. simpl. by destruct HY as [-> | ->]; rewrite ?orb_true_r.
  - rewrite last_cons_cons in HY. rewrite IH by done. simpl. by destruct Hb as [-> | ->]; rewrite ?orb_true_r.
Qed.

(** Freeing the block between [B1] and [B2]: the result of coalescing is the block
    joined with its free neighbours. *)
Lemma coalesce_free B1 n B2 :
  coalesced (B1 ++ (n, true) :: B2) →
  let '(B1', n1) := join_left B1 n in
  let '(n2, B2') := join_right n1 B2 in
  coalesce (B1 ++ (n, false) :: B2) = B1' ++ (n2, false) :: B2' ∧
  coalesced (B1' ++ (n2, false) :: B2').
Proof.
  intros Hc. apply coalesced_app in Hc as (H1 & [_ H2] & _).
  assert (HY : cons_block (n, false) B2 = let '(n2, B2') := join_right n B2 in (n2, false) :: B2').
  { destruct B2 as [|[m []] B2]; done. }
  assert (Hr : ∀ k, let '(n2, B2') := join_right k B2 in coalesced ((n2, false) :: B2')).
  { intros k. destruct B2 as [|[m []] B2]; simpl in *; [done|by split; [right|]|].
    destruct H2 as [Hm H2]. split; [|done]. destruct B2 as [|[? []]]; naive_solver. }
  unfold coalesce. rewrite foldr_app. simpl. fold (coalesce B2). rewrite coalesce_coalesced, HY by done.
  unfold join_left. destruct (last B1) as [[m u]|] eqn:El.
  2:{ apply last_None in El as ->. simpl. specialize (Hr n). by destruct (join_right n B2). }
  apply last_Some in El as [B ->]. apply coalesced_app in H1 as (HB & _ & Hl).
  rewrite removelast_last. destruct u; cbv beta iota.
  - specialize (Hr n). destruct (join_right n B2) as [n2 B2']. split.
    + apply foldr_cons_block; [|by rewrite last_snoc; simpl; left]. apply coalesced_app. by split; [|split].
    + apply coalesced_app. split; [apply coalesced_app; by split; [|split]|]. split; [done|].
      rewrite last_snoc. simpl. by left.
  - rewrite foldr_app. simpl. specialize (Hr (m + 24 + n)).
    assert (Hj : cons_block (m, false) (let '(n2, B2') := join_right n B2 in (n2, false) :: B2') =
      let '(n2, B2') := join_right (m + 24 + n) B2 in (n2, false) :: B2').
    { destruct B2 as [|[k []] B2]; simpl; try done. do 2 f_equal. lia. }
    assert (Hl' : match last B with Some c => c.2 = true ∨ false = true | None => True end) by done.
    destruct (join_right n B2) as [n1 B1'] eqn:E1. rewrite Hj.
    destruct (join_right (m + 24 + n) B2) as [n2 B2']. split.
    + apply foldr_cons_block; [done|]. destruct (last B); [|done]. naive_solver.
    + apply coalesced_app. by split_and!.
Qed.

(** An allocated block given back at once leaves the blocks as they were. *)
Lemma coalesce_split B1 n m B2 :
  coalesced (B1 ++ (n + 24 + m, false) :: B2) →
  coalesce (B1 ++ (n, false) :: (m, false) :: B2) = B1 ++ (n + 24 + m, false) :: B2.
Proof.
  intros Hc. trans (coalesce (B1 ++ (n + 24 + m, false) :: B2)); [|by apply coalesce_coalesced]. unfold coalesce. rewrite !foldr_app. f_equal. simpl.
  apply coalesced_app in Hc as (_ & [Hb H2] & _). fold (coalesce B2). rewrite coalesce_coalesced by done.
  destruct B2 as [|[k []] B2]; simpl in *; try done. naive_solver.
Qed.

(** * States *)

#[local] Arguments h_field : simpl never.

Lemma h_field_write f g p v s :
  h_field f (h_write g p v s) = if item_field_eqb f g then <[p := v]> (h_field f s) else h_field f s.
Proof. by destruct s, f, g. Qed.
Lemma h_heaps_write g p v s : h_heaps (h_write g p v s) = h_heaps s.
Proof. by destruct s, g. Qed.
Lemma h_field_put f a x s : h_field f (h_put a x s) = h_field f s.
Proof. by destruct s, f. Qed.
Lemma h_heaps_put a x s : h_heaps (h_put a x s) = <[a := x]> (h_heaps s).
Proof. by destruct s. Qed.

(** The links of the free list as a heap of list nodes. *)
Definition free_links (s : hstate) : Ptr.heap := Ptr.Heap (h_field Fnext_free s) (h_field Fprev_free s).

(** The item of a placed block: its state, its heap, its successor and the way back. *)
Record item_ok (s : hstate) (a : Z) (q : Z * block) : Prop := {
  it_magic : h_field Fmagic s !! q.1 = Some (RT_MEMHEAP_MAGIC + if q.2.2 then 1 else 0);
  it_pool : h_field Fpool s !! q.1 = Some a;
  it_next : h_field Fnext s !! q.1 = Some (q.1 + 24 + q.2.1);
  it_prev : h_field Fprev s !! (q.1 + 24 + q.2.1) = Some q.1
}.

(** The heap at [a] stands for the blocks [B] from the start of its pool, with the
    free list in the order [F]. *)
Record heap_rep (s : hstate) (a : Z) (x : rt_memheap) (B : list block) (F : list Z) : Prop := {
  hr_heap : h_heaps s !! a = Some x;
  hr_free_list : mh_free_list x = free_header a;
  hr_start : 0 ≤ mh_start_addr x;
  hr_end : mh_start_addr x + mh_pool_size x = end_of (mh_start_addr x) B + 24;
  hr_max : mh_start_addr x + mh_pool_size x < 2 ^ 32;
  hr_header : free_header a + 24 ≤ mh_start_addr x ∨ mh_start_addr x + mh_pool_size x ≤ free_header a;
  hr_sizes : sizes_ok B;
  hr_coalesced : coalesced B;
  hr_avail : mh_available_size x = free_size B;
  hr_items : Forall (item_ok s a) (placed (mh_start_addr x) B);
  hr_tail_magic : h_field Fmagic s !! end_of (mh_start_addr x) B = Some (RT_MEMHEAP_MAGIC + 1);
  hr_tail_prev : h_field Fprev s !! mh_start_addr x = Some (end_of (mh_start_addr x) B);
  hr_free : Ptr.seg (free_links s) (free_header a) F (free_header a);
  hr_perm : F ≡ₚ free_items (mh_start_addr x) B
}.

(** ** Execution *)

Lemma wp_rd f p v Q s : h_field f s !! p = Some v → Q v s → wp (rd f p) Q s.
Proof. intros E HQ. unfold rd. wp_step. wp_step. eapply wp_option; [done|]. done. Qed.
Lemma wp_get_memheap a x (Q : rt_memheap → hstate → Prop) s :
  h_heaps s !! a = Some x → Q x s → wp (get_memheap a) Q s.
Proof. intros E HQ. unfold get_memheap. wp_step. wp_step. eapply wp_option; [done|]. done. Qed.
Lemma wp_wr a x f p v (Q : unit → hstate → Prop) s :
  h_heaps s !! a = Some x → writable a x p = true → Q tt (h_write f p v s) → wp (wr a f p v) Q s.
Proof.
  intros E Hw HQ. unfold wr. wp_step. eapply wp_get_memheap; [done|]. rewrite Hw. by wp_step.
Qed.
Lemma wp_size p n (Q : Z → hstate → Prop) s :
  h_field Fnext s !! p = Some n → Q (u32 (n - p - 24)) s → wp (MEMITEM_SIZE p) Q s.
Proof. intros E HQ. unfold MEMITEM_SIZE. wp_step. eapply wp_rd; [done|]. by wp_step. Qed.
Lemma wp_is_used p (u : bool) (Q : bool → hstate → Prop) s :
  h_field Fmagic s !! p = Some (RT_MEMHEAP_MAGIC + if u then 1 else 0) → Q u s → wp (RT_MEMHEAP_IS_USED p) Q s.
Proof. intros E HQ. unfold RT_MEMHEAP_IS_USED. wp_step. eapply wp_rd; [done|]. wp_step. by destruct u. Qed.

(** The fields of the block list are the same, or those of the free list are. *)
Record same_blocks (s s' : hstate) : Prop := {
  sb_heaps : h_heaps s' = h_heaps s;
  sb_magic : h_field Fmagic s' = h_field Fmagic s;
  sb_pool : h_field Fpool s' = h_field Fpool s;
  sb_next : h_field Fnext s' = h_field Fnext s;
  sb_prev : h_field Fprev s' = h_field Fprev s
}.
Lemma same_blocks_refl s : same_blocks s s.
Proof. by constructor. Qed.
Lemma same_blocks_trans s s' s'' : same_blocks s s' → same_blocks s' s'' → same_blocks s s''.
Proof. intros [] []. constructor; congruence. Qed.
Lemma same_blocks_items s s' a l : same_blocks s s' → Forall (item_ok s a) l → Forall (item_ok s' a) l.
Proof.
  intros [_ Hm Hp Hn Hv] Hl. eapply Forall_impl; [done|]. intros q [? ? ? ?].
  by constructor; rewrite ?Hm, ?Hp, ?Hn, ?Hv.
Qed.

(** Reading through writes. *)
Ltac h_simpl := rewrite ?h_field_write, ?h_heaps_write, ?h_field_put, ?h_heaps_put; cbn [item_field_eqb].
Ltac h_look :=
  repeat (h_simpl; first
    [ rewrite lookup_insert_eq | rewrite lookup_insert_ne by (lia || congruence) ]); h_simpl.

Section free_list.
Context (a : Z) (x : rt_memheap) (s : hstate) (Hx : h_heaps s !! a = Some x).
Let h := free_header a.
Context (Hfl : mh_free_list x = h).

Lemma free_list_insert_spec p F :
  NoDup (h :: F) → p ∉ h :: F → Ptr.seg (free_links s) h F h →
  writable a x p = true → Forall (λ q, writable a x q = true) F →
  wp (free_list_insert a p) (λ _ s', same_blocks s s' ∧ Ptr.seg (free_links s') h (p :: F) h) s.
Proof.
  intros Hnd Hp Hseg Hwp HwF. unfold free_list_insert.
  wp_step. eapply wp_get_memheap; [done|]. rewrite Hfl.
  pose proof (Ptr.seg_adjacent (free_links s) h [] F h Hseg) as [Hn Hpv]. simpl in Hn, Hpv.
  set (b := Ptr.first_node F h) in *.
  assert (Hwb : writable a x b = true).
  { unfold b. destruct F as [|q F]; simpl; [unfold writable; by rewrite Z.eqb_refl|]. by inversion HwF. }
  assert (Hwh : writable a x h = true) by (unfold writable; by rewrite Z.eqb_refl).
  assert (Hph : p ≠ h) by set_solver.
  wp_step. eapply wp_rd; [done|]. wp_step. eapply wp_wr; [done|done|].
  wp_step. eapply wp_wr; [by h_look|done|].
  wp_step. eapply wp_rd; [by h_look|]. wp_step. eapply wp_wr; [by h_look|done|].
  eapply wp_wr; [by h_look|done|].
  split; [by constructor; h_simpl|].
  eapply (Ptr.seg_frame (Ptr.link h p b (free_links s))); [| |].
  - intros y _. simpl. h_simpl. by rewrite (insert_insert_ne _ h p) by done.
  - intros y _. simpl. by h_simpl.
  - apply (Ptr.seg_link (free_links s) h [] F h p); [done|simpl; by apply NoDup_cons in Hnd as [? _]|done|done|done].
Qed.

Lemma free_list_remove_spec p F1 F2 :
  NoDup (h :: F1 ++ p :: F2) → Ptr.seg (free_links s) h (F1 ++ p :: F2) h →
  Forall (λ q, writable a x q = true) (F1 ++ p :: F2) →
  wp (free_list_remove a p) (λ _ s', same_blocks s s' ∧ Ptr.seg (free_links s') h (F1 ++ F2) h) s.
Proof.
  intros Hnd Hseg HwF. unfold free_list_remove.
  pose proof (Ptr.seg_adjacent (free_links s) h F1 (p :: F2) h Hseg) as [Hn1 Hp1].
  assert (Hseg' : Ptr.seg (free_links s) h ((F1 ++ [p]) ++ F2) h) by (by rewrite <- app_assoc).
  pose proof (Ptr.seg_adjacent (free_links s) h (F1 ++ [p]) F2 h Hseg') as [Hn2 Hp2].
  assert (Hlast : Ptr.last_node h (F1 ++ [p]) = p).
  { clear. generalize h. induction F1; intros; simpl; auto. }
  rewrite Hlast in *. simpl in Hn1, Hp1, Hn2, Hp2.
  set (v := Ptr.last_node h F1) in *. set (b := Ptr.first_node F2 h) in *.
  assert (Hwh : writable a x h = true) by (unfold writable; by rewrite Z.eqb_refl).
  assert (Hv : v ∈ h :: F1) by apply Ptr.last_node_in. assert (Hb : b = h ∨ b ∈ F2) by apply Ptr.first_node_in.
  rewrite Forall_app, Forall_cons in HwF. destruct HwF as (Hw1 & _ & Hw2). rewrite Forall_forall in Hw1, Hw2.
  assert (Hwv : writable a x v = true) by (apply elem_of_cons in Hv as [->|Hv]; auto).
  assert (Hwb : writable a x b = true) by (destruct Hb as [->|Hb]; auto).
  apply NoDup_cons in Hnd as Hnd'. destruct Hnd' as [Hh Hnd'].
  assert (Hpv : p ≠ v). { intros ->. apply NoDup_app in Hnd' as (_ & Hd & _). apply elem_of_cons in Hv as [->|Hv]; set_solver. }
  assert (Hpb : p ≠ b). { intros ->. apply NoDup_app in Hnd' as (_ & _ & Hd). apply NoDup_cons in Hd as [Hd _]. destruct Hb; set_solver. }
  wp_step. eapply wp_rd; [done|]. wp_step. eapply wp_rd; [done|]. wp_step. eapply wp_wr; [done|done|].
  wp_step. eapply wp_rd; [by h_simpl; rewrite lookup_insert_ne|]. wp_step. eapply wp_rd; [by h_simpl|].
  eapply wp_wr; [by h_simpl|done|]. split; [by constructor; h_simpl|].
  eapply (Ptr.seg_frame (Ptr.unlink v p b (free_links s))); [| |].
  - intros y Hy. simpl. h_simpl. assert (y ≠ p). { intros ->. apply NoDup_app in Hnd' as (_ & Hd & Hd2). apply NoDup_cons in Hd2 as [? _]. set_solver. }
    by rewrite (lookup_insert_ne _ p y).
  - intros y Hy. simpl. h_simpl. assert (y ≠ p). { intros ->. apply NoDup_app in Hnd' as (_ & Hd & Hd2). apply NoDup_cons in Hd2 as [? _]. set_solver. }
    by rewrite (lookup_insert_ne _ p y).
  - apply Ptr.seg_unlink; [done|done|done].
Qed.
End free_list.

(** Memory heaps: the operations against the sequence of blocks; giving a block back joins
    it with its free neighbours. *)

#[local] Arguments h_field : simpl never.
#[local] Arguments free_header : simpl never.

(** * The chain of items *)

(** The items of the blocks [B] from [st] on, and the tailer behind them. *)
Record chain (s : hstate) (a st : Z) (B : list block) : Prop := {
  ch_items : Forall (item_ok s a) (placed st B);
  ch_tail : h_field Fmagic s !! end_of st B = Some (RT_MEMHEAP_MAGIC + 1);
  ch_first : h_field Fprev s !! st = Some (end_of st B)
}.

Lemma same_blocks_chain s s' a st B : same_blocks s s' → chain s a st B → chain s' a st B.
Proof.
  intros Hs [Hi Ht Hf]. pose proof Hs as [_ Hm _ _ Hv].
  constructor; [by eapply same_blocks_items|by rewrite Hm|by rewrite Hv].
Qed.

(** The items of a part of the pool depend on the fields at their addresses. *)
Lemma items_agree s s' a p B :
  sizes_ok B →
  (∀ y f, p ≤ y < end_of p B → f ∈ [Fmagic; Fpool; Fnext] → h_field f s' !! y = h_field f s !! y) →
  (∀ y, p < y ≤ end_of p B → h_field Fprev s' !! y = h_field Fprev s !! y) →
  Forall (item_ok s a) (placed p B) → Forall (item_ok s' a) (placed p B).
Proof.
  intros HB Hf Hv. rewrite !Forall_forall. intros Hi [q b] Hin.
  pose proof (placed_range p B q b HB Hin). destruct (Hi _ Hin) as [H1 H2 H3 H4]. simpl in *.
  constructor; simpl; [rewrite Hf by (lia || set_solver)..|rewrite Hv by lia]; done.
Qed.

(** The block [b] at the end of [B1]. *)
Lemma chain_block s a st B1 b B2 :
  chain s a st (B1 ++ b :: B2) → item_ok s a (end_of st B1, b).
Proof. intros [Hi _ _]. rewrite placed_app, Forall_app in Hi. destruct Hi as [_ Hi]. simpl in Hi. by inversion Hi. Qed.
Lemma chain_next s a st B1 b c B2 :
  chain s a st (B1 ++ b :: c :: B2) → item_ok s a (end_of st B1 + 24 + b.1, c).
Proof.
  intros [Hi _ _]. rewrite placed_app, Forall_app in Hi. destruct Hi as [_ Hi]. simpl in Hi.
  inversion Hi as [|? ? _ Hi']. by inversion Hi'.
Qed.

(** Replacing the blocks [M] in the middle by [M'] of the same extent, when the fields
    outside of the part from [p] to [r] are the same. *)
Lemma chain_replace s s' a st B1 M M' B2 :
  sizes_ok (B1 ++ M ++ B2) → M ≠ [] →
  let p := end_of st B1 in
  let r := end_of p M in
  end_of p M' = r →
  (∀ y f, ¬ (p ≤ y < r) → f ∈ [Fmagic; Fpool; Fnext] → h_field f s' !! y = h_field f s !! y) →
  (∀ y, ¬ (p < y ≤ r) → h_field Fprev s' !! y = h_field Fprev s !! y) →
  Forall (item_ok s' a) (placed p M') →
  chain s a st (B1 ++ M ++ B2) → chain s' a st (B1 ++ M' ++ B2).
Proof.
  intros HB HM p r Hr Hf Hv Hi [Hci Hct Hcf].
  rewrite !placed_app, !Forall_app in Hci. destruct Hci as (H1 & _ & H2). fold p r in H2.
  apply Forall_app in HB as [HB1 HB']. apply Forall_app in HB' as [HM' HB2].
  pose proof (end_of_ge st B1 HB1) as G1. pose proof (end_of_ge p M HM') as GM. pose proof (end_of_ge r B2 HB2) as G2.
  fold p in G1. fold r in GM. assert (length M ≠ 0%nat) by (by destruct M).
  rewrite !end_of_app in Hct, Hcf. fold p r in Hct, Hcf.
  constructor; rewrite ?placed_app, ?end_of_app; fold p; rewrite ?Hr.
  - rewrite !Forall_app. split_and!; [|done|].
    + eapply items_agree; [done| | |done]; intros; [apply Hf|apply Hv]; (done || (unfold p in *; lia)).
    + eapply items_agree; [done| | |done]; intros; [apply Hf|apply Hv]; (done || lia).
  - rewrite Hf by (set_solver || lia). done.
  - rewrite Hv by lia. done.
Qed.

(** ** Splitting, joining and marking *)

(** The block [b] of the chain, its address and the item behind it, inside the pool. *)
Lemma placed_pool st B1 b B2 :
  sizes_ok (B1 ++ b :: B2) →
  let p := end_of st B1 in
  st ≤ p ∧ 12 ≤ b.1 ∧ p + 24 + b.1 ≤ end_of st (B1 ++ b :: B2).
Proof.
  intros HB. apply Forall_app in HB as [HB1 HB2]. inversion HB2 as [|? ? Hb HB3]; subst.
  pose proof (end_of_ge st B1 HB1). rewrite end_of_app. simpl.
  pose proof (end_of_ge (end_of st B1 + 24 + b.1) B2 HB3). lia.
Qed.

Section ops.
Context (a : Z) (x : rt_memheap) (st : Z).
Context (Hst : mh_start_addr x = st).
Implicit Types (s : hstate).

Lemma writable_pool y : st ≤ y → y + 24 ≤ st + mh_pool_size x → writable a x y = true.
Proof.
  intros H1 H2. unfold writable, RT_MEMHEAP_SIZE. rewrite Hst, !(proj2 (Z.leb_le _ _)) by lia. apply orb_true_r.
Qed.

(** Writing the magic number of a block marks it. *)
Lemma mark_chain s B1 n u u' B2 :
  sizes_ok (B1 ++ (n, u) :: B2) → chain s a st (B1 ++ (n, u) :: B2) →
  chain (h_write Fmagic (end_of st B1) (RT_MEMHEAP_MAGIC + if u' : bool then 1 else 0) s) a st (B1 ++ (n, u') :: B2).
Proof.
  intros HB Hc. pose proof (chain_block _ _ _ _ _ _ Hc) as [H1 H2 H3 H4]. simpl in *.
  pose proof (placed_pool st _ _ _ HB) as (Hp1 & Hp2 & Hp3). simpl in *.
  apply (chain_replace s _ a st B1 [(n, u)] [(n, u')] B2); [done|done|done| | | |done]; simpl.
  - intros y f Hy Hf. rewrite h_field_write. destruct (item_field_eqb f Fmagic); [|done].
    by rewrite lookup_insert_ne by lia.
  - intros y Hy. by h_simpl.
  - apply Forall_singleton. constructor; simpl; h_look; done.
Qed.

(** [split_block] cuts a block in two. *)
Lemma split_block_spec s B1 n u k B2 :
  h_heaps s !! a = Some x → sizes_ok (B1 ++ (n, u) :: B2) → end_of st (B1 ++ (n, u) :: B2) + 24 ≤ st + mh_pool_size x →
  12 ≤ k → k + 36 ≤ n → chain s a st (B1 ++ (n, u) :: B2) →
  let p := end_of st B1 in
  wp (split_block a p (p + 24 + k))
    (λ _ s', h_heaps s' = h_heaps s ∧ free_links s' = free_links s ∧
       chain s' a st (B1 ++ (k, u) :: (n - 24 - k, false) :: B2)) s.
Proof.
  intros Hx HB Hpool Hk Hn Hc p. pose proof (chain_block _ _ _ _ _ _ Hc) as [H1 H2 H3 H4]. simpl in *. fold p in H1, H2, H3, H4.
  pose proof (placed_pool st _ _ _ HB) as (Hp1 & Hp2 & Hp3). simpl in *. fold p in Hp1, Hp3.
  assert (Hw : ∀ y, p ≤ y ≤ p + 24 + n → writable a x y = true) by (intros; apply writable_pool; lia).
  unfold split_block. wp_step. eapply wp_wr; [done|apply Hw; lia|]. wp_step. eapply wp_wr; [by h_look|apply Hw; lia|].
  wp_step. eapply wp_wr; [by h_look|apply Hw; lia|]. wp_step. eapply wp_rd; [by h_look|].
  wp_step. eapply wp_wr; [by h_look|apply Hw; lia|]. wp_step. eapply wp_rd; [by h_look|].
  wp_step. eapply wp_wr; [by h_look|apply Hw; lia|]. eapply wp_wr; [by h_look|apply Hw; lia|].
  split_and!; [by h_simpl|by unfold free_links; h_simpl|].
  apply (chain_replace s _ a st B1 [(n, u)] [(k, u); (n - 24 - k, false)] B2); [done|done| | | | |done]; simpl; fold p.
  - lia.
  - intros y f Hy Hf. rewrite !elem_of_cons, elem_of_nil in Hf.
    destruct Hf as [->|[->|[->|[]]]]; h_look; done.
  - intros y Hy. h_look. done.
  - rewrite Forall_cons, Forall_singleton. split; constructor; simpl; h_look; rewrite ?Z.add_0_r; try done.
    + f_equal. lia.
    + replace (p + 24 + k + 24 + (n - 24 - k)) with (p + 24 + n) by lia. h_look. done.
Qed.

(** Bypassing the item between two blocks joins them. *)
Lemma join_chain s s' B1 m u n v B2 :
  sizes_ok (B1 ++ (m, u) :: (n, v) :: B2) → chain s a st (B1 ++ (m, u) :: (n, v) :: B2) →
  let p := end_of st B1 in
  let r := p + 24 + m + 24 + n in
  h_field Fmagic s' = h_field Fmagic s → h_field Fpool s' = h_field Fpool s →
  h_field Fnext s' = <[p := r]> (h_field Fnext s) → h_field Fprev s' = <[r := p]> (h_field Fprev s) →
  chain s' a st (B1 ++ (m + 24 + n, u) :: B2).
Proof.
  intros HB Hc p r Em Ep En Ev. pose proof (chain_block _ _ _ _ _ _ Hc) as [H1 H2 H3 H4]. simpl in *. fold p in H1, H2, H3, H4.
  assert (Hmn : 12 ≤ m ∧ 12 ≤ n).
  { apply Forall_app in HB as [_ HB]. inversion HB as [|? ? ? HB']; subst. inversion HB'; subst. simpl in *. lia. }
  apply (chain_replace s _ a st B1 [(m, u); (n, v)] [(m + 24 + n, u)] B2); [done|done| | | | |done]; simpl; fold p.
  - lia.
  - intros y f Hy Hf. rewrite !elem_of_cons, elem_of_nil in Hf.
    destruct Hf as [->|[->|[->|[]]]]; rewrite ?Em, ?Ep, ?En, ?lookup_insert_ne by lia; done.
  - intros y Hy. rewrite Ev, lookup_insert_ne by (unfold r; lia). done.
  - rewrite Forall_singleton. constructor; simpl; rewrite ?Em, ?Ep, ?En, ?Ev; try done.
    + rewrite lookup_insert_eq. f_equal. unfold r. lia.
    + replace (p + 24 + (m + 24 + n)) with r by (unfold r; lia). by rewrite lookup_insert_eq.
Qed.
End ops.

(** * Facts of a represented heap *)

Section rep.
Context (s : hstate) (a : Z) (x : rt_memheap) (B : list block) (F : list Z).
Context (HR : heap_rep s a x B F).
Local Abbreviation st := (mh_start_addr x).
Local Abbreviation h := (free_header a).

Lemma rep_chain : chain s a st B.
Proof. destruct HR. by constructor. Qed.
Lemma rep_pool : end_of st B + 24 = st + mh_pool_size x.
Proof. pose proof (hr_end _ _ _ _ _ HR). lia. Qed.

Lemma rep_free q : q ∈ F ↔ ∃ n, (q, (n, false)) ∈ placed st B.
Proof. rewrite (hr_perm _ _ _ _ _ HR). apply free_items_placed. Qed.
Lemma rep_placed_range q b :
  (q, b) ∈ placed st B → st ≤ q ∧ q + 24 + b.1 ≤ end_of st B ∧ 12 ≤ b.1.
Proof. apply placed_range, (hr_sizes _ _ _ _ _ HR). Qed.
Lemma rep_nodup : NoDup (h :: F).
Proof.
  constructor; [|rewrite (hr_perm _ _ _ _ _ HR); apply free_items_nodup, (hr_sizes _ _ _ _ _ HR)].
  intros [n Hn%rep_placed_range]%rep_free. pose proof rep_pool. pose proof (hr_header _ _ _ _ _ HR) as Hh. simpl in *. lia.
Qed.
Lemma rep_writable : Forall (λ q, writable a x q = true) F.
Proof.
  apply Forall_forall. intros q [n Hn%rep_placed_range]%rep_free. pose proof rep_pool.
  apply (writable_pool a x st eq_refl); simpl in *; lia.
Qed.
Lemma rep_size q b : (q, b) ∈ placed st B → u32 (q + 24 + b.1 - q - 24) = b.1.
Proof.
  intros Hin%rep_placed_range. pose proof (hr_max _ _ _ _ _ HR) as Hmax. pose proof rep_pool.
  pose proof (hr_start _ _ _ _ _ HR). unfold u32. rewrite Z.mod_small; lia.
Qed.
Lemma rep_item q b : (q, b) ∈ placed st B → item_ok s a (q, b).
Proof. intros Hin. pose proof (hr_items _ _ _ _ _ HR) as Hi. rewrite Forall_forall in Hi. by apply Hi. Qed.

(** The free blocks are fewer than the bytes of the pool. *)
Lemma rep_fuel : (length F ≤ Z.to_nat (mh_pool_size x))%nat.
Proof.
  rewrite (hr_perm _ _ _ _ _ HR). unfold free_items. rewrite length_fmap.
  assert (Hl : ∀ p C, length (placed p C) = length C) by (intros p C; revert p; induction C; intros; simpl; auto).
  pose proof (length_filter (λ q : Z * block, q.2.2 = false) (placed (mh_start_addr x) B)) as Hf. rewrite Hl in Hf.
  pose proof (end_of_ge st B (hr_sizes _ _ _ _ _ HR)). pose proof rep_pool. lia.
Qed.

(** ** The search *)

(** A free block that is too small. *)
Definition too_small (size q : Z) : Prop := ∃ n, (q, (n, false)) ∈ placed st B ∧ n < size.

Lemma search_free_spec fuel size : ∀ F1 F2 fs,
  F = F1 ++ F2 → Forall (too_small size) F1 → fs < size → (length F2 ≤ fuel)%nat →
  wp (search_free fuel h size (Ptr.first_node F2 h) fs) (λ r s', s' = s ∧
    ((∃ G1 p n G2, F = G1 ++ p :: G2 ∧ r = (p, n) ∧ (p, (n, false)) ∈ placed st B ∧ size ≤ n ∧
        Forall (too_small size) G1) ∨
     r.2 < size ∧ Forall (too_small size) F)) s.
Proof.
  pose proof rep_nodup as Hnd. apply NoDup_cons in Hnd as [Hh _].
  induction fuel as [|fuel IH]; intros F1 F2 fs HF Hs Hfs Hl; destruct F2 as [|q F2]; simpl in Hl; try lia.
  - simpl. rewrite Z.eqb_refl. simpl. split; [done|]. right. rewrite HF, app_nil_r. done.
  - simpl. rewrite Z.eqb_refl. simpl. split; [done|]. right. rewrite HF, app_nil_r. done.
  - assert (Hq : q ∈ F) by (rewrite HF; set_solver). assert (Hqh : q ≠ h) by set_solver.
    apply rep_free in Hq as [n Hn]. pose proof (rep_item _ _ Hn) as [_ _ Hnx _]. simpl in Hnx.
    change (Ptr.first_node (q :: F2) (free_header a)) with q. simpl. rewrite (proj2 (Z.eqb_neq q h)), (proj2 (Z.ltb_lt fs size)) by done. simpl.
    wp_step. eapply wp_size; [done|]. pose proof (rep_size _ _ Hn) as Hu. simpl in Hu. rewrite Hu.
    destruct (Z.ltb_spec n size) as [Hlt|Hge].
    + pose proof (hr_free _ _ _ _ _ HR) as Hseg. rewrite HF in Hseg.
      replace (F1 ++ q :: F2) with ((F1 ++ [q]) ++ F2) in Hseg by (by rewrite <- app_assoc).
      pose proof (Ptr.seg_adjacent _ _ _ _ _ Hseg) as [Hnf _].
      assert (Hlast : Ptr.last_node (free_header a) (F1 ++ [q]) = q).
      { clear. generalize (free_header a). induction F1; intros; simpl; auto. }
      rewrite Hlast in Hnf. wp_step. eapply wp_rd; [exact Hnf|].
      apply (IH (F1 ++ [q]) F2); [by rewrite <- app_assoc| |done|lia].
      apply Forall_app. split; [done|]. apply Forall_singleton. by exists n.
    + wp_step. wp_step. assert (Hend : ∀ f, search_free f h size q n = mret (q, n)).
      { intros f. destruct f; simpl; rewrite (proj2 (Z.ltb_ge n size)), andb_false_r by lia; done. }
      rewrite Hend. wp_step. split; [done|]. left. by exists F1, q, n, F2.
Qed.
End rep.

(** * Allocation *)

(** The heap record with the same pool. *)
Definition same_pool (x x' : rt_memheap) : Prop :=
  mh_start_addr x' = mh_start_addr x ∧ mh_pool_size x' = mh_pool_size x ∧ mh_free_list x' = mh_free_list x.

Lemma take_size_spec a x n s :
  h_heaps s !! a = Some x → 0 ≤ n ≤ mh_available_size x → mh_available_size x < 2 ^ 32 →
  ∃ x', same_pool x x' ∧ mh_available_size x' = mh_available_size x - n ∧
    ∀ Q : unit → hstate → Prop, Q tt (h_put a x' s) → wp (take_size a n) Q s.
Proof.
  intros Hx Hn Hav. set (x1 := set_mh_available (u32 (mh_available_size x - n)) x).
  set (used := u32 (mh_pool_size x1 - mh_available_size x1)).
  exists (if mh_max_used_size x1 <? used then set_mh_max_used used x1 else x1).
  assert (Hav1 : mh_available_size x1 = mh_available_size x - n).
  { unfold x1. destruct x; simpl in *. unfold u32. rewrite Z.mod_small; lia. }
  assert (Hp1 : same_pool x x1) by (unfold x1; by destruct x).
  split_and!.
  - case_match; [|done]. clearbody x1 used. by destruct x1.
  - case_match; [|done]. rewrite <- Hav1. clearbody x1 used. by destruct x1.
  - intros Q HQ. unfold take_size. wp_step. eapply wp_get_memheap; [done|]. cbv zeta. fold x1 used.
    exact HQ.
Qed.
Lemma give_size_spec a x n s :
  h_heaps s !! a = Some x → 0 ≤ mh_available_size x + n < 2 ^ 32 →
  ∃ x', same_pool x x' ∧ mh_available_size x' = mh_available_size x + n ∧
    ∀ Q : unit → hstate → Prop, Q tt (h_put a x' s) → wp (give_size a n) Q s.
Proof.
  intros Hx Hav. exists (set_mh_available (u32 (mh_available_size x + n)) x). split_and!.
  - by destruct x.
  - destruct x; simpl in *. unfold u32. by rewrite Z.mod_small.
  - intros Q HQ. unfold give_size. wp_step. by eapply wp_get_memheap.
Qed.
Lemma same_pool_writable a x x' q : same_pool x x' → writable a x' q = writable a x q.
Proof. intros (H1 & H2 & _). unfold writable. by rewrite H1, H2. Qed.
Lemma same_pool_trans x x' x'' : same_pool x x' → same_pool x' x'' → same_pool x x''.
Proof. unfold same_pool. intuition congruence. Qed.
Lemma put_chain a x s b st B : chain s b st B → chain (h_put a x s) b st B.
Proof.
  intros [Hi Ht Hf]. constructor; [|by rewrite h_field_put..].
  eapply Forall_impl; [done|]. intros q [? ? ? ?]. constructor; by rewrite h_field_put.
Qed.
Lemma put_free_links a x s : free_links (h_put a x s) = free_links s.
Proof. unfold free_links. by rewrite !h_field_put. Qed.

(** A represented heap after a change of its blocks and its free list. *)
Lemma rep_intro s a x B F s' x' B' F' :
  heap_rep s a x B F → same_pool x x' → h_heaps s' !! a = Some x' →
  end_of (mh_start_addr x) B' = end_of (mh_start_addr x) B → sizes_ok B' → coalesced B' →
  mh_available_size x' = free_size B' → chain s' a (mh_start_addr x) B' →
  Ptr.seg (free_links s') (free_header a) F' (free_header a) →
  F' ≡ₚ free_items (mh_start_addr x) B' → heap_rep s' a x' B' F'.
Proof.
  intros [] (E1 & E2 & E3) Hx He Hs Hc Hav [Hi Ht Hf] Hseg Hp.
  constructor; rewrite ?E1, ?E2, ?E3, ?He in *; done.
Qed.

(** The blocks after an allocation of [size] bytes from a free block of [n] bytes. *)
Definition alloc_blocks (B1 : list block) (n size : Z) (B2 : list block) : list block :=
  if size + 36 <=? n then B1 ++ (size, true) :: (n - 24 - size, false) :: B2 else B1 ++ (n, true) :: B2.

Lemma alloc_blocks_ok p B1 n size B2 :
  sizes_ok (B1 ++ (n, false) :: B2) → coalesced (B1 ++ (n, false) :: B2) → 12 ≤ size → (4 | size) → size ≤ n →
  let B' := alloc_blocks B1 n size B2 in
  end_of p B' = end_of p (B1 ++ (n, false) :: B2) ∧ sizes_ok B' ∧ coalesced B' ∧
  free_size B' = free_size (B1 ++ (n, false) :: B2) - (if size + 36 <=? n then size + 24 else n).
Proof.
  intros Hs Hc H12 H4 Hle. unfold alloc_blocks. apply Forall_app in Hs as [Hs1 Hs2]. inversion Hs2 as [|? ? [Hn1 Hn2] Hs3]; subst.
  apply coalesced_app in Hc as (Hc1 & [Hb Hc2] & Hl). simpl in *.
  destruct (Z.leb_spec (size + 36) n).
  - split_and!.
    + rewrite !end_of_app. simpl. f_equal. lia.
    + apply Forall_app. split; [done|]. constructor; [done|]. constructor; [|done]. simpl. split; [lia|].
      apply Z.divide_sub_r; [|done]. apply Z.divide_sub_r; [done|]. by exists 6.
    + apply coalesced_app. split_and!; [done| |destruct (last B1); auto]. simpl. split_and!; [by left| |done].
      destruct B2; [done|]. naive_solver.
    + rewrite !free_size_app. simpl. lia.
  - split_and!.
    + by rewrite !end_of_app.
    + apply Forall_app. split; [done|]. by constructor.
    + apply coalesced_app. split_and!; [done| |destruct (last B1); auto]. simpl. split; [|done]. destruct B2; auto.
    + rewrite !free_size_app. simpl. lia.
Qed.

(** Clearing the links of an item that is in no list. *)
Lemma free_list_clear_spec a x s p F :
  h_heaps s !! a = Some x → writable a x p = true → p ∉ free_header a :: F →
  Ptr.seg (free_links s) (free_header a) F (free_header a) →
  wp (free_list_clear a p)
    (λ _ s', same_blocks s s' ∧ Ptr.seg (free_links s') (free_header a) F (free_header a)) s.
Proof.
  intros Hx Hw Hp Hseg. unfold free_list_clear. wp_step. eapply wp_wr; [done|done|].
  eapply wp_wr; [by h_simpl|done|]. split; [by constructor; h_simpl|].
  eapply Ptr.seg_frame; [| |done]; intros y Hy; simpl; h_simpl; by rewrite lookup_insert_ne by set_solver.
Qed.

(** The free items without and with the new block. *)
Lemma free_items_take st B1 n B2 F1 F2 :
  F1 ++ end_of st B1 :: F2 ≡ₚ free_items st (B1 ++ (n, false) :: B2) →
  F1 ++ F2 ≡ₚ free_items st (B1 ++ (n, true) :: B2).
Proof.
  rewrite !free_items_app, !free_items_cons. simpl. rewrite <- !Permutation_middle. intros Hp.
  by apply Permutation_cons_inv in Hp.
Qed.
Lemma free_items_give st B1 n B2 F :
  F ≡ₚ free_items st (B1 ++ (n, true) :: B2) →
  end_of st B1 :: F ≡ₚ free_items st (B1 ++ (n, false) :: B2).
Proof.
  rewrite !free_items_app, !free_items_cons. simpl. rewrite <- !Permutation_middle. by intros ->.
Qed.

(** No item starts inside a block. *)
Lemma placed_outside st B1 b B2 q c :
  sizes_ok (B1 ++ b :: B2) → (q, c) ∈ placed st (B1 ++ b :: B2) →
  q < end_of st B1 ∨ q = end_of st B1 ∨ end_of st B1 + 24 + b.1 ≤ q.
Proof.
  intros HB. apply Forall_app in HB as [HB1 HB2]. inversion HB2 as [|? ? Hb HB3]; subst.
  rewrite placed_app, elem_of_app. simpl. rewrite elem_of_cons. intros [Hin|[[= -> ->]|Hin]]; [|lia|].
  - apply placed_range in Hin; [lia|done].
  - apply placed_range in Hin; [lia|done].
Qed.
Lemma NoDup_without (h q : Z) F1 F2 : NoDup (h :: F1 ++ q :: F2) → NoDup (h :: F1 ++ F2).
Proof.
  rewrite <- Permutation_middle. rewrite !NoDup_cons. set_solver.
Qed.

Section alloc.
Context (s : hstate) (a : Z) (x : rt_memheap) (F1 F2 : list Z) (B1 : list block) (n : Z) (B2 : list block).
Local Abbreviation st := (mh_start_addr x).
Local Abbreviation p := (end_of st B1).
Local Abbreviation B := (B1 ++ (n, false) :: B2).
Context (HR : heap_rep s a x B (F1 ++ p :: F2)).

(** [p] leaves the free list. *)
Lemma take_item_spec s1 x1 :
  same_pool x x1 → h_heaps s1 !! a = Some x1 → free_links s1 = free_links s →
  wp (free_list_remove a p;; free_list_clear a p)
    (λ _ s', same_blocks s1 s' ∧ Ptr.seg (free_links s') (free_header a) (F1 ++ F2) (free_header a)) s1.
Proof.
  intros Hsp Hx1 Hfl. pose proof (rep_nodup _ _ _ _ _ HR) as Hnd. pose proof (rep_writable _ _ _ _ _ HR) as Hw.
  assert (Hfl1 : mh_free_list x1 = free_header a).
  { destruct Hsp as (_ & _ & ->). apply HR. }
  assert (Hw1 : Forall (λ q, writable a x1 q = true) (F1 ++ p :: F2)).
  { eapply Forall_impl; [done|]. intros q Hq. by rewrite (same_pool_writable _ x). }
  wp_step. eapply wp_mono; [apply (free_list_remove_spec a x1 s1 Hx1 Hfl1 p F1 F2); [done|rewrite Hfl; apply HR|done]|].
  intros [] s2 [Hs2 Hseg2].
  eapply wp_mono; [apply (free_list_clear_spec a x1 s2 p (F1 ++ F2)); [| | |done]|].
  - by rewrite (sb_heaps _ _ Hs2).
  - rewrite Forall_forall in Hw1. apply Hw1. set_solver.
  - apply NoDup_cons in Hnd as [Hh Hnd]. apply NoDup_app in Hnd as (_ & Hd & Hd2). apply NoDup_cons in Hd2 as [? _]. set_solver.
  - intros [] s3 [Hs3 Hseg3]. split; [by eapply same_blocks_trans|done].
Qed.

Lemma p_facts : st ≤ p ∧ 12 ≤ n ∧ p + 24 + n + 24 ≤ st + mh_pool_size x ∧ 0 ≤ st ∧
  st + mh_pool_size x < 2 ^ 32 ∧ 0 ≤ mh_available_size x < 2 ^ 32 ∧ n ≤ mh_available_size x.
Proof.
  pose proof (placed_pool st _ _ _ (hr_sizes _ _ _ _ _ HR)) as (H1 & H2 & H3). simpl in *.
  pose proof (rep_pool _ _ _ _ _ HR). pose proof (hr_start _ _ _ _ _ HR). pose proof (hr_max _ _ _ _ _ HR).
  pose proof (free_size_nonneg _ (hr_sizes _ _ _ _ _ HR)). pose proof (free_size_le st _ (hr_sizes _ _ _ _ _ HR)).
  pose proof (hr_sizes _ _ _ _ _ HR) as Hsz. apply Forall_app in Hsz as [Hsz1 Hsz2].
  inversion Hsz2 as [|? ? _ Hsz3]; subst.
  pose proof (free_size_nonneg _ Hsz1). pose proof (free_size_nonneg _ Hsz3).
  rewrite (hr_avail _ _ _ _ _ HR). rewrite free_size_app in *. simpl in *. lia.
Qed.

(** Marking the block and returning its address. *)
Lemma mark_used_spec s1 x1 k B3 :
  same_pool x x1 → h_heaps s1 !! a = Some x1 → sizes_ok (B1 ++ (k, false) :: B3) →
  chain s1 a st (B1 ++ (k, false) :: B3) →
  wp (m ← rd Fmagic p; wr a Fmagic p (Z.lor m RT_MEMHEAP_USED);; mret (Some (u32 (p + RT_MEMHEAP_SIZE))))
    (λ r s', r = Some (p + 24) ∧ h_heaps s' = h_heaps s1 ∧ free_links s' = free_links s1 ∧
       chain s' a st (B1 ++ (k, true) :: B3)) s1.
Proof.
  intros Hsp Hx1 Hs Hc. pose proof p_facts. pose proof (chain_block _ _ _ _ _ _ Hc) as [Hm _ _ _]. simpl in Hm.
  wp_step. eapply wp_rd; [done|]. wp_step. eapply wp_wr; [done| |].
  { rewrite (same_pool_writable _ x) by done. apply (writable_pool a x st eq_refl); lia. }
  wp_step. split_and!; [|by h_simpl|by unfold free_links; h_simpl|].
  - unfold RT_MEMHEAP_SIZE, u32. rewrite Z.mod_small by lia. done.
  - change (Z.lor (RT_MEMHEAP_MAGIC + 0) RT_MEMHEAP_USED) with (RT_MEMHEAP_MAGIC + 1).
    by apply (mark_chain a st s1 B1 k false true B3).
Qed.

Lemma alloc_split_spec size :
  12 ≤ size → (4 | size) → size + 36 ≤ n →
  let q := p + 24 + size in
  wp (split_block a p q;; free_list_remove a p;; free_list_clear a p;; free_list_insert a q;; take_size a (size + RT_MEMHEAP_SIZE))
    (λ _ s', ∃ x', same_pool x x' ∧ h_heaps s' !! a = Some x' ∧
       mh_available_size x' = mh_available_size x - (size + 24) ∧
       chain s' a st (B1 ++ (size, false) :: (n - 24 - size, false) :: B2) ∧
       Ptr.seg (free_links s') (free_header a) (q :: F1 ++ F2) (free_header a)) s.
Proof.
  intros H12 H4 Hle q. pose proof p_facts. pose proof (rep_nodup _ _ _ _ _ HR) as Hnd.
  pose proof (rep_writable _ _ _ _ _ HR) as Hw. pose proof (hr_heap _ _ _ _ _ HR) as Hx.
  wp_step. eapply wp_mono; [apply (split_block_spec a x st eq_refl s B1 n false size B2); [done|apply HR| |done|lia|by apply rep_chain with (F1 ++ p :: F2)]|].
  { pose proof (rep_pool _ _ _ _ _ HR). lia. }
  intros [] s1 (Hh1 & Hf1 & Hc1).
  apply (wp_bind_assoc (free_list_remove a p) (λ _, free_list_clear a p)). wp_step.
  eapply wp_mono; [apply (take_item_spec s1 x); [done|by rewrite Hh1|done]|]. intros [] s2 [Hs2 Hseg2].
  assert (Hq : q ∉ free_header a :: F1 ++ F2).
  { intros Hin. pose proof (hr_header _ _ _ _ _ HR) as Hh. apply elem_of_cons in Hin as [Hin|Hin]; [unfold q in *; lia|].
    assert (Hin' : q ∈ F1 ++ p :: F2) by set_solver. apply (rep_free _ _ _ _ _ HR) in Hin' as [k Hk].
    apply placed_outside in Hk; [|apply HR]. simpl in Hk. unfold q in *. lia. }
  wp_step. eapply wp_mono; [apply (free_list_insert_spec a x s2)|].
  { by rewrite (sb_heaps _ _ Hs2), Hh1. } { apply HR. }
  { by eapply NoDup_without. }
  { done. } { done. } { apply (writable_pool a x st eq_refl); unfold q; lia. }
  { apply Forall_app in Hw as [? Hw]. inversion Hw; subst. by apply Forall_app. }
  intros [] s3 [Hs3 Hseg3].
  destruct (take_size_spec a x (size + 24) s3) as (x' & Hsp & Hav & Ht); [by rewrite (sb_heaps _ _ Hs3), (sb_heaps _ _ Hs2), Hh1|lia|lia|].
  apply Ht. exists x'. split_and!; [done|by rewrite h_heaps_put, lookup_insert_eq|done| |by rewrite put_free_links].
  apply put_chain. eapply same_blocks_chain; [done|]. by eapply same_blocks_chain.
Qed.

Lemma alloc_whole_spec :
  wp (take_size a n;; free_list_remove a p;; free_list_clear a p)
    (λ _ s', ∃ x', same_pool x x' ∧ h_heaps s' !! a = Some x' ∧
       mh_available_size x' = mh_available_size x - n ∧ chain s' a st B ∧
       Ptr.seg (free_links s') (free_header a) (F1 ++ F2) (free_header a)) s.
Proof.
  pose proof p_facts. pose proof (hr_heap _ _ _ _ _ HR) as Hx.
  destruct (take_size_spec a x n s) as (x' & Hsp & Hav & Ht); [done|lia|lia|].
  wp_step. apply Ht.
  eapply wp_mono; [apply (take_item_spec _ x'); [done|by rewrite h_heaps_put, lookup_insert_eq|apply put_free_links]|].
  intros [] s2 [Hs2 Hseg2]. exists x'. split_and!; [done| |done| |done].
  - by rewrite (sb_heaps _ _ Hs2), h_heaps_put, lookup_insert_eq.
  - eapply same_blocks_chain; [done|]. apply put_chain. by apply rep_chain with (F1 ++ p :: F2).
Qed.
End alloc.

(** [alloc_locked] takes the first free block of the free list that is large enough,
    splits it if another block fits behind, and fails only if there is none. *)
Lemma alloc_locked_spec s a x B F size :
  heap_rep s a x B F → 12 ≤ size → (4 | size) →
  wp (alloc_locked a size) (λ r s',
    (∃ G1 G2 B1 n B2 x' F', F = G1 ++ end_of (mh_start_addr x) B1 :: G2 ∧ Forall (too_small x B size) G1 ∧
       B = B1 ++ (n, false) :: B2 ∧ size ≤ n ∧ r = Some (end_of (mh_start_addr x) B1 + 24) ∧
       same_pool x x' ∧ heap_rep s' a x' (alloc_blocks B1 n size B2) F') ∨
    (r = None ∧ s' = s ∧ Forall (too_small x B size) F)) s.
Proof.
  intros HR H12 H4. unfold alloc_locked. wp_step. eapply wp_get_memheap; [apply HR|].
  pose proof (hr_free _ _ _ _ _ HR) as Hseg. rewrite (hr_free_list _ _ _ _ _ HR).
  pose proof (Ptr.seg_adjacent _ _ [] F _ Hseg) as [Hn _]. simpl in Hn.
  wp_step. eapply wp_rd; [exact Hn|]. wp_step.
  eapply wp_mono; [apply (search_free_spec s a x B F HR _ size [] F 0); [done|constructor|lia|by eapply rep_fuel]|].
  intros [hp fs] s1 [-> [(G1 & p & n & G2 & HF & [= -> ->] & Hin & Hle & Hsm)|[Hlt Hsm]]]; simpl.
  2:{ rewrite (proj2 (Z.leb_gt size fs)) by done. wp_step. right. done. }
  rewrite (proj2 (Z.leb_le size n)) by done. apply placed_split in Hin as (B1 & B2 & -> & ->). subst F.
  pose proof (p_facts _ _ _ _ _ _ _ _ HR) as Hp. unfold RT_MEMHEAP_SIZE, RT_MEMHEAP_MINIALLOC.
  assert (Hu1 : u32 (size + 24 + 12) = size + 36) by (unfold u32; rewrite Z.mod_small; lia).
  assert (Hu2 : size + 36 ≤ n → u32 (end_of (mh_start_addr x) B1 + size + 24) = end_of (mh_start_addr x) B1 + 24 + size).
  { intros. unfold u32. rewrite Z.mod_small; lia. }
  pose proof (alloc_blocks_ok (mh_start_addr x) B1 n size B2 (hr_sizes _ _ _ _ _ HR) (hr_coalesced _ _ _ _ _ HR) H12 H4 Hle) as (He & Hs & Hc & Hf).
  rewrite Hu1. unfold alloc_blocks in *. destruct (Z.leb_spec (size + 36) n) as [Hsp|Hns].
  - rewrite Hu2 by done. wp_step. eapply wp_mono; [by apply (alloc_split_spec s a x G1 G2 B1 n B2 HR size)|].
    intros [] s2 (x2 & Hsp2 & Hx2 & Hav2 & Hc2 & Hseg2).
    eapply wp_mono; [apply (mark_used_spec s a x G1 G2 B1 n B2 HR s2 x2 size); [done|done| |done]|].
    { apply Forall_app in Hs as [Hs1 Hs2]. inversion Hs2; subst. apply Forall_app. split; [done|]. by constructor. }
    intros r s3 (-> & Hh3 & Hf3 & Hc3). left. eexists G1, G2, B1, n, B2, x2, _. split_and!; try done.
    rewrite (proj2 (Z.leb_le _ _)) by done.
    eapply (rep_intro s a x); [done|done|by rewrite Hh3|done|done|done| |done|by rewrite Hf3|].
    + rewrite Hav2, Hf. by rewrite (hr_avail _ _ _ _ _ HR).
    + pose proof (hr_perm _ _ _ _ _ HR) as Hperm. apply free_items_take in Hperm.
      rewrite Hperm, !free_items_app, !free_items_cons. simpl. 
      replace (end_of (mh_start_addr x) B1 + 24 + size + 24 + (n - 24 - size)) with (end_of (mh_start_addr x) B1 + 24 + n) by lia.
      apply Permutation_middle.
  - wp_step. eapply wp_mono; [by apply (alloc_whole_spec s a x G1 G2 B1 n B2 HR)|].
    intros [] s2 (x2 & Hsp2 & Hx2 & Hav2 & Hc2 & Hseg2).
    eapply wp_mono; [apply (mark_used_spec s a x G1 G2 B1 n B2 HR s2 x2 n); [done|done|apply HR|done]|].
    intros r s3 (-> & Hh3 & Hf3 & Hc3). left. eexists G1, G2, B1, n, B2, x2, _. split_and!; try done.
    rewrite (proj2 (Z.leb_gt _ _)) by done.
    eapply (rep_intro s a x); [done|done|by rewrite Hh3|done|done|done| |done|by rewrite Hf3|].
    + rewrite Hav2, Hf. by rewrite (hr_avail _ _ _ _ _ HR).
    + eapply free_items_take. apply HR.
Qed.

(** * The neighbours of a block *)

Lemma prev_item s a st B1 b B2 :
  chain s a st (B1 ++ b :: B2) →
  ∃ v u, h_field Fprev s !! end_of st B1 = Some v ∧
    h_field Fmagic s !! v = Some (RT_MEMHEAP_MAGIC + if u : bool then 1 else 0) ∧
    match last B1 with Some (m, u') => u = u' | None => u = true end.
Proof.
  intros Hc. pose proof Hc as [Hi Ht Hf].
  destruct (last B1) as [[m u]|] eqn:El.
  - apply last_Some in El as [B ->]. rewrite <- app_assoc in Hc. simpl in Hc.
    pose proof (chain_block _ _ _ _ _ _ Hc) as [H1 _ _ H4]. simpl in *.
    rewrite end_of_app. simpl. by exists (end_of st B), u.
  - apply last_None in El as ->. simpl in *. by eexists _, true.
Qed.
Lemma next_item s a st B1 b B2 :
  chain s a st (B1 ++ b :: B2) →
  h_field Fmagic s !! (end_of st B1 + 24 + b.1) =
    Some (RT_MEMHEAP_MAGIC + if match B2 with c :: _ => c.2 | [] => true end then 1 else 0).
Proof.
  intros Hc. destruct B2 as [|c B2].
  - pose proof (ch_tail _ _ _ _ Hc) as Ht. rewrite end_of_app in Ht. done.
  - apply chain_next in Hc as [H1 _ _ _]. done.
Qed.

(** * The phases of [free_locked] *)

(** The heap in the middle of the operation: its blocks, with the free list aside. *)
Record mid (s : hstate) (a : Z) (x : rt_memheap) (B : list block) : Prop := {
  md_heap : h_heaps s !! a = Some x;
  md_start : 0 ≤ mh_start_addr x;
  md_pool : end_of (mh_start_addr x) B + 24 = mh_start_addr x + mh_pool_size x;
  md_max : mh_start_addr x + mh_pool_size x < 2 ^ 32;
  md_sizes : sizes_ok B;
  md_avail : mh_available_size x = free_size B;
  md_chain : chain s a (mh_start_addr x) B
}.

Lemma mid_pool s a x B1 b B2 : mid s a x (B1 ++ b :: B2) →
  let p := end_of (mh_start_addr x) B1 in
  mh_start_addr x ≤ p ∧ 12 ≤ b.1 ∧ p + 24 + b.1 + 24 ≤ mh_start_addr x + mh_pool_size x.
Proof. intros [_ _ Hp _ Hs _ _]. pose proof (placed_pool (mh_start_addr x) _ _ _ Hs) as (? & ? & ?). simpl in *. lia. Qed.
Lemma mid_free_size s a x B : mid s a x B → 0 ≤ free_size B < 2 ^ 32.
Proof.
  intros [_ H0 Hp Hm Hs _ _]. pose proof (free_size_nonneg _ Hs). pose proof (free_size_le (mh_start_addr x) _ Hs). lia.
Qed.

(** The size goes up, and the blocks change to match it. *)
Lemma mid_intro s a x B s' x' B' :
  mid s a x B → same_pool x x' → h_heaps s' !! a = Some x' →
  end_of (mh_start_addr x) B' = end_of (mh_start_addr x) B → sizes_ok B' →
  mh_available_size x' = free_size B' → chain s' a (mh_start_addr x) B' → mid s' a x' B'.
Proof.
  intros [] (E1 & E2 & _) Hx He Hs Hav Hc. constructor; rewrite ?E1, ?E2, ?He; done.
Qed.

(** Joining two blocks keeps the extent and gains the item of the second. *)
Lemma join_blocks st B1 m u n v B2 :
  sizes_ok (B1 ++ (m, u) :: (n, v) :: B2) →
  let B' := B1 ++ (m + 24 + n, u) :: B2 in
  end_of st B' = end_of st (B1 ++ (m, u) :: (n, v) :: B2) ∧ sizes_ok B'.
Proof.
  intros Hs. apply Forall_app in Hs as [Hs1 Hs2]. inversion Hs2 as [|? ? [Hm1 Hm2] Hs3]; subst.
  inversion Hs3 as [|? ? [Hn1 Hn2] Hs4]; subst. simpl in *. split.
  - rewrite !end_of_app. simpl. f_equal. lia.
  - apply Forall_app. split; [done|]. constructor; [|done]. simpl. split; [lia|].
    apply Z.divide_add_r; [|done]. apply Z.divide_add_r; [done|]. by exists 6.
Qed.

Section free.
Context (a : Z).

(** The left neighbour. *)
Lemma join_left_spec s x B1 n B2 :
  mid s a x (B1 ++ (n, false) :: B2) →
  let p := end_of (mh_start_addr x) B1 in
  wp (prev ← rd Fprev p;
      used ← RT_MEMHEAP_IS_USED prev;
      if negb used then
        give_size a RT_MEMHEAP_SIZE;;
        v ← rd Fprev p; n ← rd Fnext p; wr a Fnext v n;;
        n ← rd Fnext p; v ← rd Fprev p; wr a Fprev n v;;
        v ← rd Fprev p; mret (v, false)
      else mret (p, true))
    (λ r s', ∃ x', same_pool x x' ∧ free_links s' = free_links s ∧
       r = (end_of (mh_start_addr x) (join_left B1 n).1,
            match last B1 with Some (_, false) => false | _ => true end) ∧
       mid s' a x' ((join_left B1 n).1 ++ ((join_left B1 n).2, false) :: B2)) s.
Proof.
  intros Hm p. pose proof (prev_item _ _ _ _ _ _ (md_chain _ _ _ _ Hm)) as (v & u & Hv & Hmg & Hl).
  wp_step. eapply wp_rd; [done|]. wp_step. eapply wp_is_used; [done|]. unfold join_left.
  destruct u; simpl negb; cbv iota.
  { wp_step. exists x. destruct (last B1) as [[m []]|]; [|done|]; (split_and!; [done|done|done|done]). }
  destruct (last B1) as [[m u]|] eqn:El; [|done]. subst u. apply last_Some in El as [B ->].
  rewrite removelast_last. pose proof Hm as Hm2. rewrite <- app_assoc in Hm. simpl in Hm |- *.
  pose proof (mid_pool _ _ _ _ _ _ Hm) as (Hp1 & Hp2 & Hp3). simpl in Hp1, Hp2, Hp3.
  pose proof (mid_pool _ _ _ _ _ _ Hm2) as (Hq1 & Hq2 & Hq3). simpl in Hq1, Hq2, Hq3. fold p in Hq1, Hq3.
  pose proof (chain_block _ _ _ _ _ _ (md_chain _ _ _ _ Hm)) as [_ _ _ Hpp]. simpl in Hpp.
  pose proof (chain_block _ _ _ _ _ _ (md_chain _ _ _ _ Hm2)) as [_ _ Hn _]. simpl in Hn. fold p in Hn.
  set (p1 := end_of (mh_start_addr x) B) in *.
  assert (Ep : p = p1 + 24 + m) by (unfold p; by rewrite end_of_app).
  rewrite <- Ep in Hpp. assert (v = p1) as -> by (fold p in Hv; congruence). clear Hv Hmg.
  destruct (join_blocks (mh_start_addr x) B m false n false B2 (md_sizes _ _ _ _ Hm)) as [Hje Hjs].
  pose proof (mid_free_size _ _ _ _ Hm) as Hfs. pose proof (md_avail _ _ _ _ Hm) as Hav.
  pose proof (free_size_nonneg _ Hjs) as Hfn. pose proof (free_size_le (mh_start_addr x) _ Hjs) as Hfl.
  assert (Hsz : free_size (B ++ (m + 24 + n, false) :: B2) = free_size (B ++ (m, false) :: (n, false) :: B2) + 24).
  { rewrite !free_size_app. simpl. lia. }
  destruct Hm as [Hx H0 Hpool Hmax Hsizes Hav' Hc].
  destruct (give_size_spec a x 24 s Hx) as (x' & Hsp & Hav2 & Hg); [lia|].
  assert (Hw : ∀ y, mh_start_addr x ≤ y → y + 24 ≤ mh_start_addr x + mh_pool_size x → writable a x' y = true).
  { intros y Hy1 Hy2. rewrite (same_pool_writable _ x) by done. by apply (writable_pool a x _ eq_refl). }
  wp_step. apply Hg. wp_step. eapply wp_rd; [by h_look|]. wp_step. eapply wp_rd; [by h_look|].
  wp_step. eapply wp_wr; [by h_look|apply Hw; lia|].
  wp_step. eapply wp_rd; [by h_look|]. wp_step. eapply wp_rd; [by h_look|].
  wp_step. eapply wp_wr; [by h_look|apply Hw; lia|].
  wp_step. eapply wp_rd; [by h_look|]. wp_step.
  exists x'. split_and!; [done|by unfold free_links; h_simpl|done|].
  eapply (mid_intro s a x); [by constructor|done|by h_look|done|done|by rewrite Hav2, Hsz, Hav|].
  apply (join_chain a x (mh_start_addr x) eq_refl s _ B m false n false B2); [done|done|..]; h_simpl; try done.
  - by rewrite Ep.
  - by rewrite Ep.
Qed.
(** The right neighbour; it leaves the free list. *)
Lemma join_right_spec s x B1 n B2 F :
  mid s a x (B1 ++ (n, false) :: B2) →
  let p := end_of (mh_start_addr x) B1 in
  mh_free_list x = free_header a →
  NoDup (free_header a :: F) → Ptr.seg (free_links s) (free_header a) F (free_header a) →
  Forall (λ q, writable a x q = true) F →
  match B2 with (_, false) :: _ => p + 24 + n ∈ F | _ => True end →
  wp (next ← rd Fnext p;
      used ← RT_MEMHEAP_IS_USED next;
      when (negb used) (
        give_size a RT_MEMHEAP_SIZE;;
        new_ptr ← rd Fnext p;
        n ← rd Fnext new_ptr; wr a Fprev n p;;
        n ← rd Fnext new_ptr; wr a Fnext p n;;
        free_list_remove a new_ptr))
    (λ _ s', ∃ x' F', same_pool x x' ∧
       mid s' a x' (B1 ++ ((join_right n B2).1, false) :: (join_right n B2).2) ∧
       Ptr.seg (free_links s') (free_header a) F' (free_header a) ∧
       F ≡ₚ (match B2 with (_, false) :: _ => [p + 24 + n] | _ => [] end) ++ F') s.
Proof.
  intros Hm p Hfl Hnd Hseg Hwf Hin. pose proof (chain_block _ _ _ _ _ _ (md_chain _ _ _ _ Hm)) as [_ _ Hn _].
  simpl in Hn. fold p in Hn. pose proof (next_item _ _ _ _ _ _ (md_chain _ _ _ _ Hm)) as Hmg. simpl in Hmg. fold p in Hmg.
  wp_step. eapply wp_rd; [done|]. wp_step. eapply wp_is_used; [done|].
  destruct B2 as [|[m []] B2]; simpl negb; unfold when.
  1,2: wp_step; exists x, F; split_and!; done.
  simpl in *. pose proof (mid_pool _ _ _ _ _ _ Hm) as (Hp1 & Hp2 & Hp3). simpl in Hp1, Hp2, Hp3. fold p in Hp1, Hp3.
  pose proof Hm as Hm2. change (B1 ++ (n, false) :: (m, false) :: B2) with (B1 ++ [(n, false)] ++ (m, false) :: B2) in Hm2.
  rewrite (app_assoc B1) in Hm2. pose proof (mid_pool _ _ _ _ _ _ Hm2) as (Hq1 & Hq2 & Hq3).
  rewrite end_of_app in Hq1, Hq3. simpl in Hq1, Hq2, Hq3. fold p in Hq1, Hq3.
  pose proof (chain_block _ _ _ _ _ _ (md_chain _ _ _ _ Hm2)) as [_ _ Hnn _].
  rewrite end_of_app in Hnn. simpl in Hnn. fold p in Hnn.
  destruct (join_blocks (mh_start_addr x) B1 n false m false B2 (md_sizes _ _ _ _ Hm)) as [Hje Hjs].
  pose proof (free_size_nonneg _ Hjs) as Hfn. pose proof (free_size_le (mh_start_addr x) _ Hjs) as Hfle.
  assert (Hsz : free_size (B1 ++ (n + 24 + m, false) :: B2) = free_size (B1 ++ (n, false) :: (m, false) :: B2) + 24).
  { rewrite !free_size_app. simpl. lia. }
  pose proof (mid_free_size _ _ _ _ Hm) as Hfs.
  destruct Hm as [Hx H0 Hpool Hmax Hsizes Hav Hc].
  destruct (give_size_spec a x 24 s Hx) as (x' & Hsp & Hav2 & Hg); [lia|].
  assert (Hw : ∀ y, mh_start_addr x ≤ y → y + 24 ≤ mh_start_addr x + mh_pool_size x → writable a x' y = true).
  { intros y Hy1 Hy2. rewrite (same_pool_writable _ x) by done. by apply (writable_pool a x _ eq_refl). }
  wp_step. apply Hg. wp_step. eapply wp_rd; [by h_look|]. wp_step. eapply wp_rd; [by h_look|].
  wp_step. eapply wp_wr; [by h_look|apply Hw; lia|]. wp_step. eapply wp_rd; [by h_look|].
  wp_step. eapply wp_wr; [by h_look|apply Hw; lia|].
  apply list_elem_of_split in Hin as (G1 & G2 & ->).
  eapply wp_mono; [apply (free_list_remove_spec a x')|].
  { by h_look. } { by destruct Hsp as (_ & _ & ->). } { done. }
  { by unfold free_links in *; h_simpl. }
  { eapply Forall_impl; [done|]. intros q Hq. by rewrite (same_pool_writable _ x). }
  intros [] s2 [Hs2 Hseg2]. exists x', (G1 ++ G2). split_and!; [done| |done|by rewrite Permutation_middle].
  eapply (mid_intro s a x); [by constructor|done|by rewrite (sb_heaps _ _ Hs2); h_look|done|done|by rewrite Hav2, Hsz, Hav|].
  eapply same_blocks_chain; [done|].
  apply (join_chain a x (mh_start_addr x) eq_refl s _ B1 n false m false B2); [done|done|..]; h_simpl; done.
Qed.
End free.

(** * The operation *)

Lemma join_left_items st B1 n :
  end_of st (join_left B1 n).1 + 24 + (join_left B1 n).2 = end_of st B1 + 24 + n ∧
  free_items st B1 = free_items st (join_left B1 n).1 ++
    match last B1 with Some (_, false) => [end_of st (join_left B1 n).1] | _ => [] end.
Proof.
  unfold join_left. destruct (last B1) as [[m []]|] eqn:El; simpl; [by rewrite app_nil_r| |by rewrite app_nil_r].
  apply last_Some in El as [B ->]. rewrite removelast_last, end_of_app, free_items_app, free_items_cons. simpl.
  split; [lia|done].
Qed.
Lemma join_right_items r n B2 :
  free_items r B2 = match B2 with (_, false) :: _ => [r] | _ => [] end ++
    free_items (r - n + (join_right n B2).1) (join_right n B2).2.
Proof.
  destruct B2 as [|[m []] B2]; [done| |].
  - simpl. by replace (r - n + n) with r by lia.
  - rewrite free_items_cons. simpl. do 2 f_equal. lia.
Qed.

(** The block is marked free and its size is given back. *)
Lemma free_begin_spec s a x B1 n B2 F :
  heap_rep s a x (B1 ++ (n, true) :: B2) F →
  let p := end_of (mh_start_addr x) B1 in
  wp (m ← rd Fmagic p; wr a Fmagic p (Z.land m (Z.lnot RT_MEMHEAP_USED));;
      n ← MEMITEM_SIZE p; give_size a n)
    (λ _ s', ∃ x', same_pool x x' ∧ free_links s' = free_links s ∧ mid s' a x' (B1 ++ (n, false) :: B2)) s.
Proof.
  intros HR p. set (st := mh_start_addr x) in *.
  pose proof (rep_chain _ _ _ _ _ HR) as Hc. pose proof (rep_pool _ _ _ _ _ HR) as Hpool.
  pose proof (hr_sizes _ _ _ _ _ HR) as Hsz. pose proof (hr_heap _ _ _ _ _ HR) as Hx.
  pose proof (placed_pool st _ _ _ Hsz) as (Hp1 & Hp2 & Hp3). simpl in Hp1, Hp2, Hp3. fold st in Hpool. fold p in Hp1, Hp3.
  pose proof (chain_block _ _ _ _ _ _ Hc) as [Hmg _ Hn _]. simpl in Hmg, Hn. fold st p in Hmg, Hn.
  pose proof (hr_start _ _ _ _ _ HR) as H0. pose proof (hr_max _ _ _ _ _ HR) as Hmax. fold st in H0, Hmax.
  wp_step. eapply wp_rd; [done|]. wp_step.
  eapply wp_wr; [done|apply (writable_pool a x st eq_refl); lia|].
  change (Z.land (RT_MEMHEAP_MAGIC + 1) (Z.lnot RT_MEMHEAP_USED)) with (RT_MEMHEAP_MAGIC + 0).
  pose proof (mark_chain a st s B1 n true false B2 Hsz Hc) as Hc1. fold p in Hc1.
  set (s1 := h_write Fmagic p (RT_MEMHEAP_MAGIC + 0) s) in *.
  assert (Hsz1 : sizes_ok (B1 ++ (n, false) :: B2)).
  { apply Forall_app in Hsz as [? Hsz]. inversion Hsz; subst. apply Forall_app. split; [done|]. by constructor. }
  assert (Hend : end_of st (B1 ++ (n, false) :: B2) = end_of st (B1 ++ (n, true) :: B2)) by (by rewrite !end_of_app).
  assert (Hfs : free_size (B1 ++ (n, false) :: B2) = free_size (B1 ++ (n, true) :: B2) + n).
  { rewrite !free_size_app. simpl. lia. }
  pose proof (free_size_nonneg _ Hsz1). pose proof (free_size_le st _ Hsz1).
  wp_step. eapply wp_size; [by unfold s1; h_simpl|].
  replace (u32 (p + 24 + n - p - 24)) with n by (unfold u32; rewrite Z.mod_small; lia).
  destruct (give_size_spec a x n s1) as (x1 & Hsp1 & Hav1 & Hg).
  { by unfold s1; h_simpl. } { rewrite (hr_avail _ _ _ _ _ HR). lia. }
  apply Hg. exists x1. split_and!; [done|rewrite put_free_links; unfold s1, free_links; by h_simpl|].
  destruct Hsp1 as (E1 & E2 & _). constructor; rewrite ?E1, ?E2; fold st; try done; try lia.
  - by rewrite h_heaps_put, lookup_insert_eq.
  - by rewrite Hav1, (hr_avail _ _ _ _ _ HR), Hfs.
  - by apply put_chain.
Qed.

(** A heap whose blocks are done, with the free list complete or with one item
    missing. *)
Lemma free_end_spec s a x B F s4 x4 B4 F4 F5 :
  heap_rep s a x B F → same_pool x x4 → mid s4 a x4 B4 → coalesced B4 →
  Ptr.seg (free_links s4) (free_header a) F4 (free_header a) →
  (∃ G, F ≡ₚ G ++ F4) → F5 ≡ₚ free_items (mh_start_addr x) B4 →
  (F5 = F4 → heap_rep s4 a x4 B4 F5) ∧
  ∀ p, F5 = p :: F4 → p ∉ F → mh_start_addr x ≤ p → p + 24 + 24 ≤ mh_start_addr x + mh_pool_size x →
    wp (free_list_insert a p) (λ _ s5, heap_rep s5 a x4 B4 F5) s4.
Proof.
  intros HR Hsp [Hx4 _ Hpool4 Hmax4 Hsz4 Hav4 Hc4] Hco Hseg4 [G HG] HF5.
  pose proof Hsp as (E1 & E2 & E3). rewrite E1, E2 in *. pose proof (rep_pool _ _ _ _ _ HR) as Hpool.
  assert (Hdone : ∀ s5, same_blocks s4 s5 → Ptr.seg (free_links s5) (free_header a) F5 (free_header a) →
    heap_rep s5 a x4 B4 F5).
  { intros s5 Hsb Hseg5.
    eapply (rep_intro s a x); [done|done|by rewrite (sb_heaps _ _ Hsb)|lia|done|done|done|by eapply same_blocks_chain|done|done]. }
  split; [intros ->; by apply Hdone; [apply same_blocks_refl|]|].
  intros p -> HpF Hp1 Hp2. pose proof (rep_nodup _ _ _ _ _ HR) as Hnd. pose proof (rep_writable _ _ _ _ _ HR) as Hwf.
  rewrite HG in Hnd, Hwf, HpF. pose proof (hr_header _ _ _ _ _ HR) as Hh.
  eapply wp_mono; [apply (free_list_insert_spec a x4 s4 Hx4) with (F := F4)|].
  - rewrite E3. apply HR.
  - apply NoDup_cons in Hnd as [Hh' Hnd]. apply NoDup_app in Hnd as (_ & _ & Hnd). constructor; [set_solver|done].
  - rewrite elem_of_cons. intros [->|Hin]; [lia|set_solver].
  - done.
  - rewrite (same_pool_writable _ x) by done. apply (writable_pool a x _ eq_refl); lia.
  - apply Forall_app in Hwf as [_ Hwf]. eapply Forall_impl; [done|].
    intros q Hq. by rewrite (same_pool_writable _ x).
  - intros [] s5 [Hsb Hseg5]. by apply Hdone.
Qed.

(** [free_locked] gives the block back: it is free, neighbours that are free are
    joined with it, and the heap represents the blocks coalesced. *)
Lemma free_locked_spec s a x B1 n B2 F :
  heap_rep s a x (B1 ++ (n, true) :: B2) F →
  wp (free_locked a (end_of (mh_start_addr x) B1)) (λ _ s', ∃ x' F',
    same_pool x x' ∧ heap_rep s' a x' (coalesce (B1 ++ (n, false) :: B2)) F') s.
Proof.
  intros HR. set (st := mh_start_addr x). set (p := end_of st B1).
  pose proof (hr_sizes _ _ _ _ _ HR) as Hsz. pose proof (rep_pool _ _ _ _ _ HR) as Hpool. fold st in Hpool.
  pose proof (placed_pool st _ _ _ Hsz) as (Hp1 & Hp2 & Hp3). simpl in Hp1, Hp2, Hp3. fold p in Hp1, Hp3.
  unfold free_locked.
  (* marking and counting *)
  pose proof (free_begin_spec s a x B1 n B2 F HR) as HB. fold st p in HB. cbv zeta in HB.
  wp_step. eapply wp_mono; [exact (wp_bind_inv _ _ _ _ HB)|]. cbv beta. clear HB. intros m s1 HB.
  wp_step. eapply wp_mono; [exact (wp_bind_inv _ _ _ _ HB)|]. cbv beta. clear HB. intros [] s1' HB.
  wp_step. eapply wp_mono; [exact (wp_bind_inv _ _ _ _ HB)|]. cbv beta. clear HB. intros k s1'' HB.
  wp_step. eapply wp_mono; [exact HB|]. cbv beta. clear HB s1 s1' s1'' m k.
  intros [] s2 (x2 & Hsp2 & Hfl2 & Hm2). assert (Est2 : mh_start_addr x2 = st) by (by destruct Hsp2).
  (* the left neighbour *)
  pose proof (join_left_spec a s2 x2 B1 n B2 Hm2) as HL. rewrite Est2 in HL. fold p in HL. cbv zeta in HL.
  wp_step. eapply wp_mono; [exact (wp_bind_inv _ _ _ _ HL)|]. cbv beta. clear HL. intros prev s' HL.
  wp_step. eapply wp_mono; [exact (wp_bind_inv _ _ _ _ HL)|]. cbv beta. clear HL. intros used s'' HL.
  wp_step. eapply wp_mono; [exact HL|]. cbv beta. clear HL s' s'' prev used.
  intros r s3 (x3 & Hsp3 & Hfl3 & -> & Hm3).
  destruct (join_left_items st B1 n) as [Ele Eli].
  pose proof (coalesce_free B1 n B2 (hr_coalesced _ _ _ _ _ HR)) as Hco.
  destruct (join_left B1 n) as [B1' n1] eqn:Ejl. simpl in Ele, Eli, Hm3 |- *.
  assert (Hsp13 : same_pool x x3) by (by eapply same_pool_trans).
  assert (Est3 : mh_start_addr x3 = st) by (by destruct Hsp13).
  (* the right neighbour *)
  assert (Hperm := hr_perm _ _ _ _ _ HR). fold st in Hperm.
  rewrite free_items_app, free_items_cons in Hperm. simpl in Hperm. fold p in Hperm.
  pose proof (join_right_spec a s3 x3 B1' n1 B2 F Hm3) as HRt. cbv zeta in HRt. rewrite Est3, Ele, Hfl3, Hfl2 in HRt.
  wp_step. eapply wp_mono; [refine (wp_bind_inv _ _ _ _ (HRt _ (rep_nodup _ _ _ _ _ HR) (hr_free _ _ _ _ _ HR) _ _))|].
  { destruct Hsp13 as (_ & _ & ->). apply HR. }
  { eapply Forall_impl; [by eapply rep_writable|]. intros q Hq. by rewrite (same_pool_writable _ x). }
  { destruct B2 as [|[m []] B2]; [done|done|]. rewrite Hperm, free_items_cons. simpl. set_solver. }
  cbv beta. clear HRt. intros next s' HRt.
  wp_step. eapply wp_mono; [exact (wp_bind_inv _ _ _ _ HRt)|]. cbv beta. clear HRt. intros used s'' HRt.
  wp_step. eapply wp_mono; [exact HRt|]. cbv beta. clear HRt s' s'' next used.
  intros [] s4 (x4 & F4 & Hsp4 & Hm4 & Hseg4 & Hp4).
  pose proof (join_right_items (p + 24 + n) n1 B2) as Eri.
  destruct (join_right n1 B2) as [n2 B2']. simpl in Eri, Hm4. destruct Hco as [-> Hco].
  assert (Hsp14 : same_pool x x4) by (by eapply same_pool_trans).
  (* the free list *)
  assert (Hgoal : free_items st (B1' ++ (n2, false) :: B2') =
    free_items st B1' ++ end_of st B1' :: free_items (p + 24 + n - n1 + n2) B2').
  { rewrite free_items_app, free_items_cons. simpl. do 3 f_equal. lia. }
  assert (HF4 : F4 ≡ₚ free_items st B1' ++
    match last B1 with Some (_, false) => [end_of st B1'] | _ => [] end ++ free_items (p + 24 + n - n1 + n2) B2').
  { rewrite Hp4, Eli, Eri in Hperm. destruct B2 as [|[m []] B2]; simpl in Hperm; [by rewrite <- app_assoc in Hperm..|].
    rewrite <- Permutation_middle in Hperm. apply Permutation_cons_inv in Hperm. by rewrite <- app_assoc in Hperm. }
  assert (HpF : p ∉ F).
  { rewrite Hperm, elem_of_app. apply Forall_app in Hsz as [Hs1 Hs2]. inversion Hs2; subst.
    intros [Hin'%free_items_range|Hin'%free_items_range]; try done; unfold p, st in *; lia. }
  set (F5 := if match last B1 with Some (_, false) => false | _ => true end then p :: F4 else F4).
  destruct (free_end_spec s a x _ F s4 x4 (B1' ++ (n2, false) :: B2') F4 F5 HR Hsp14 Hm4 Hco Hseg4 (ex_intro _ _ Hp4)) as [He1 He2].
  { fold st. rewrite Hgoal. unfold F5, join_left in *.
    destruct (last B1) as [[m []]|]; [injection Ejl as <- <-| |injection Ejl as <- <-]; rewrite HF4; simpl;
      try done; apply Permutation_middle. }
  unfold F5, when, join_left in *. destruct (last B1) as [[m []]|]; [injection Ejl as <- <-| |injection Ejl as <- <-].
  2:{ wp_step. exists x4, F4. split; [done|by apply He1]. }
  all: eapply wp_mono; [apply (He2 p eq_refl HpF); fold st; lia|]; intros [] s5 HR5; by exists x4, (p :: F4).
Qed.
