(* ===== verification/MemHeapSpec.v ===== *)
(** Memory heaps: the theorems on the calls, from the initialisation of the pool to
    the release of its blocks. *)

From stdpp Require Import base gmap list fin_maps.
From Stdlib Require Import ZArith Lia.
From S2P Require Import Prelude IntrusiveList Kservice KState Object Sched Timer KInv SchedFacts.
From S2P Require Import TimerFacts Thread Ipc IpcFacts Sem MemPool ObjectFacts.
From S2P Require Import MemHeap MemHeapFacts.

Open Scope Z_scope.
#[local] Arguments h_field : simpl never.
#[local] Arguments free_header : simpl never.

(** * The lock *)

(** The lock of the heap is free and no thread waits for it. *)
Definition unlocked (k : kstate) (l : Z) : Prop :=
  (∃ x, ks_sems k !! l = Some x ∧ sem_value x = 1) ∧ l_get (ks_lists k) (LSem l) = [].

(** Taking and releasing a free lock restores the kernel state. *)
Lemma lock_take k l : unlocked k l → ∃ k',
  rt_sem_take l RT_WAITING_FOREVER k = Done (Return RT_EOK) k' ∧ rt_sem_release l k' = Done RT_EOK k.
Proof.
  intros [(x & Hx & Hv) He]. exists (set_ks_sems (<[l := set_sem_value 0 x]> (ks_sems k)) k). split.
  - unfold rt_sem_take, get_sem, put_sem, mbind, SM_bind, get, of_option, mret, SM_ret, modify. rewrite Hx, Hv. done.
  - unfold rt_sem_release, tlist_isempty, upd_sem, get_sem, put_sem, mbind, SM_bind, get, of_option, mret, SM_ret, modify.
    assert (l_isempty (ks_lists (set_ks_sems (<[l := set_sem_value 0 x]> (ks_sems k)) k)) (LSem l) = true) as ->.
    { by apply l_isempty_spec. }
    simpl. rewrite lookup_insert_eq. simpl. rewrite insert_insert_eq, insert_id; [by destruct k|].
    rewrite Hx. destruct x. simpl in *. by subst.
Qed.

(** * Requests *)

Lemma align_up size : 0 ≤ size ≤ 2 ^ 32 - 4 → RT_ALIGN size RT_ALIGN_SIZE = (size + 3) / 4 * 4.
Proof.
  intros Hs. unfold RT_ALIGN, RT_ALIGN_SIZE. change (4 - 1) with (Z.ones 2).
  replace (size + 4 - 1) with (size + 3) by lia.
  rewrite <- Z.ldiff_land, Z.ldiff_ones_r, Z.shiftr_div_pow2, Z.shiftl_mul_pow2 by lia.
  change (2 ^ 2) with 4. unfold u32. rewrite Z.mod_small; [done|]. Z.to_euclidean_division_equations; lia.
Qed.
Lemma request_size_ok size :
  0 ≤ size ≤ 2 ^ 32 - 4 → 12 ≤ request_size size ∧ size ≤ request_size size ∧ (4 | request_size size).
Proof.
  intros Hs. unfold request_size, RT_MEMHEAP_MINIALLOC. rewrite align_up by done.
  destruct (Z.ltb_spec ((size + 3) / 4 * 4) 12).
  - split_and!; [lia|Z.to_euclidean_division_equations; lia|by exists 3].
  - split_and!; [lia|Z.to_euclidean_division_equations; lia|]. by exists ((size + 3) / 4).
Qed.

(** * The calls with a free lock *)

(** What [rt_memheap_alloc] does to the blocks [B] of a heap for a request of [n]
    bytes: [r] is the result, [h'] the heaps afterwards. *)
Definition allocated (a : Z) (x : rt_memheap) (B : list block) (F : list Z) (n : Z) (h h' : hstate) (r : option Z) : Prop :=
  match r with
  | Some ptr => ∃ F1 F2 B1 m B2 x' F',
      B = B1 ++ (m, false) :: B2 ∧ n ≤ m ∧ ptr = end_of (mh_start_addr x) B1 + 24 ∧
      F = F1 ++ ptr - 24 :: F2 ∧ Forall (too_small x B n) F1 ∧
      same_pool x x' ∧ heap_rep h' a x' (alloc_blocks B1 m n B2) F'
  | None => h' = h ∧ (free_size B ≤ n ∨ Forall (too_small x B n) F)
  end.

Lemma alloc_done k h a x B F size :
  unlocked k (mh_lock a) → heap_rep h a x B F → 0 ≤ size ≤ 2 ^ 32 - 4 →
  ∃ r h', rt_memheap_alloc a size (Layer k h) = Done (Return r) (Layer k h') ∧
    allocated a x B F (request_size size) h h' r.
Proof.
  intros Hk HR Hs. destruct (request_size_ok size Hs) as (H12 & _ & H4).
  enough (Hwp : wp (rt_memheap_alloc a size) (λ r s', ∃ r' h', r = Return r' ∧ s' = Layer k h' ∧
    allocated a x B F (request_size size) h h' r') (Layer k h)).
  { apply wp_inv in Hwp as (r & s' & E & r' & h' & -> & -> & Ha). by exists r', h'. }
  unfold rt_memheap_alloc. set (n := request_size size) in *. wp_step. apply wp_own. eapply wp_get_memheap; [apply HR|].
  rewrite (hr_avail _ _ _ _ _ HR). destruct (Z.ltb_spec n (free_size B)).
  2:{ wp_step. exists None, h. split_and!; [done|done|]. by split; [|left]. }
  destruct (lock_take k (mh_lock a) Hk) as (k' & Ht & Hr).
  wp_step. eapply wp_kern_done; [exact Ht|]. unfold alloc_continue. simpl.
  wp_step. wp_step. apply wp_own. eapply wp_mono; [by apply alloc_locked_spec|]. intros r h' Hpost.
  wp_step. eapply wp_kern_done; [exact Hr|]. wp_step. wp_step. exists r, h'. split_and!; [done|done|].
  destruct Hpost as [(G1 & G2 & B1 & m & B2 & x' & F' & -> & Hsm & -> & Hle & -> & Hsp & HR')|(-> & -> & Hsm)].
  - eexists G1, G2, B1, m, B2, x', F'. split_and!; try done. do 2 f_equal. lia.
  - split; [done|by right].
Qed.

Lemma free_done k h a x B1 n B2 F :
  unlocked k (mh_lock a) → heap_rep h a x (B1 ++ (n, true) :: B2) F →
  ∃ h' x' F', rt_memheap_free (Some (end_of (mh_start_addr x) B1 + 24)) (Layer k h) = Done (Return tt) (Layer k h') ∧
    same_pool x x' ∧ heap_rep h' a x' (coalesce (B1 ++ (n, false) :: B2)) F'.
Proof.
  intros Hk HR. set (p := end_of (mh_start_addr x) B1).
  enough (Hwp : wp (rt_memheap_free (Some (p + 24))) (λ r s', ∃ h' x' F', r = Return tt ∧ s' = Layer k h' ∧
    same_pool x x' ∧ heap_rep h' a x' (coalesce (B1 ++ (n, false) :: B2)) F') (Layer k h)).
  { apply wp_inv in Hwp as (r & s' & E & h' & x' & F' & -> & -> & H1 & H2). by exists h', x', F'. }
  pose proof (rep_chain _ _ _ _ _ HR) as Hc. pose proof (chain_block _ _ _ _ _ _ Hc) as [Hm Hp Hn _].
  pose proof (next_item _ _ _ _ _ _ Hc) as Hm2. simpl in Hm, Hp, Hn, Hm2. fold p in Hm, Hp, Hn, Hm2.
  pose proof (placed_pool (mh_start_addr x) _ _ _ (hr_sizes _ _ _ _ _ HR)) as (Hp1 & Hp2 & Hp3). simpl in Hp1, Hp2, Hp3. fold p in Hp1, Hp3.
  pose proof (rep_pool _ _ _ _ _ HR). pose proof (hr_max _ _ _ _ _ HR). pose proof (hr_start _ _ _ _ _ HR).
  destruct (lock_take k (mh_lock a) Hk) as (k' & Ht & Hr).
  unfold rt_memheap_free. unfold RT_MEMHEAP_SIZE.
  replace (u32 (p + 24 - 24)) with p by (unfold u32; rewrite Z.mod_small; lia).
  wp_step. apply wp_own. unfold free_check. wp_step. eapply wp_rd; [done|]. wp_step. apply wp_assert; [done|].
  wp_step. apply wp_assert; [done|]. wp_step. eapply wp_rd; [done|]. wp_step. eapply wp_rd; [done|].
  wp_step. apply wp_assert; [by case_match|]. eapply wp_rd; [done|].
  wp_step. eapply wp_kern_done; [exact Ht|]. unfold free_continue. simpl. wp_step. wp_step. apply wp_own.
  eapply wp_mono; [by eapply free_locked_spec|]. intros [] h' (x' & F' & Hsp & HR').
  wp_step. eapply wp_kern_done; [exact Hr|]. wp_step. wp_step. by exists h', x', F'.
Qed.

(** * Initialisation *)

Lemma align_down size : 0 ≤ size < 2 ^ 32 → RT_ALIGN_DOWN size RT_ALIGN_SIZE = size / 4 * 4.
Proof.
  intros Hs. unfold RT_ALIGN_DOWN, RT_ALIGN_SIZE. change (4 - 1) with (Z.ones 2).
  rewrite <- Z.ldiff_land, Z.ldiff_ones_r, Z.shiftr_div_pow2, Z.shiftl_mul_pow2 by lia.
  change (2 ^ 2) with 4. unfold u32. rewrite Z.mod_small; [done|]. Z.to_euclidean_division_equations; lia.
Qed.

Lemma init_items_spec s a start size :
  0 ≤ start → 60 ≤ size / 4 * 4 → start + size < 2 ^ 32 →
  free_header a + 24 ≤ start ∨ start + size ≤ free_header a →
  wp (init_items a start size) (λ _ s', ∃ x, mh_start_addr x = start ∧ mh_pool_size x = size / 4 * 4 ∧
    heap_rep s' a x [(size / 4 * 4 - 48, false)] [start]) s.
Proof.
  intros H0 Hsz Hmax Hh. unfold init_items. rewrite align_down by (Z.to_euclidean_division_equations; lia).
  set (ps := size / 4 * 4) in *. assert (Hps : ps ≤ size) by (unfold ps; Z.to_euclidean_division_equations; lia).
  assert (Hdiv : (4 | ps)) by (by exists (size / 4)). clearbody ps.
  unfold RT_MEMHEAP_SIZE. change (2 * 24) with 48.
  replace (u32 (ps - 48)) with (ps - 48) by (unfold u32; rewrite Z.mod_small; lia).
  replace (u32 (start + (ps - 48) + 24)) with (start + (ps - 24)) by (unfold u32; rewrite Z.mod_small; lia).
  set (x := MemHeap start ps (ps - 48) _ start _). set (h := free_header a) in *.
  assert (Hwh : writable a x h = true) by (unfold writable; fold h; by rewrite Z.eqb_refl).
  assert (Hw : ∀ y, start ≤ y → y + 24 ≤ start + ps → writable a x y = true) by (by apply (writable_pool a x start eq_refl)).
  assert (Hhs : start ≠ h) by lia. assert (Hht : start + (ps - 24) ≠ h) by lia.
  destruct s as [hs mg pl nx pv nf pf]. unfold put_memheap. wp_step. wp_step. cbn [h_put].
  repeat (wp_step; eapply wp_wr; [apply lookup_insert_eq|by (exact Hwh || (apply Hw; lia))|]; cbn [h_write]).
  wp_step. eapply wp_rd; [apply lookup_insert_eq|]. wp_step.
  eapply wp_wr; [apply lookup_insert_eq|apply Hw; lia|]. cbn [h_write]. wp_step.
  set (s1 := HState _ _ _ _ _ _ _). assert (Hx1 : h_heaps s1 !! a = Some x) by apply lookup_insert_eq.
  eapply wp_mono; [apply (free_list_insert_spec a x s1 Hx1)|].
  { done. } { repeat constructor. set_solver. } { rewrite list_elem_of_singleton. lia. }
  { unfold s1, free_links, h_field. cbn. fold h. by rewrite !(lookup_insert_ne _ start), !lookup_insert_eq by lia. }
  { apply Hw; lia. } { constructor. }
  intros [] s2 [[Hs2 Hmg Hpl Hnx Hpv] Hseg]. rewrite <- Hs2 in Hx1.
  assert (Hn2 : h_field Fnext s2 !! start = Some (start + (ps - 24))) by (rewrite Hnx; apply lookup_insert_eq).
  assert (Hp2 : h_field Fprev s2 !! start = Some (start + (ps - 24))) by (rewrite Hpv; apply lookup_insert_eq).
  assert (Hm2 : h_field Fmagic s2 !! start = Some (RT_MEMHEAP_MAGIC + 0)) by (rewrite Hmg; apply lookup_insert_eq).
  assert (Hl2 : h_field Fpool s2 !! start = Some a) by (rewrite Hpl; apply lookup_insert_eq).
  clearbody s1. clear Hs2 Hmg Hpl Hnx Hpv.
  wp_step. eapply wp_rd; [done|].
  repeat (wp_step; eapply wp_wr; [by h_simpl|by apply Hw; lia|]). eapply wp_wr; [by h_simpl|by apply Hw; lia|].
  exists x. split_and!; [done|done|].
  assert (He : start + 24 + (ps - 48) = start + (ps - 24)) by lia.
  constructor; simpl; rewrite ?He; try done; try lia; try (h_look; done).
  - constructor; [|constructor]. simpl. split; [lia|]. apply Z.divide_sub_r; [done|]. by exists 12.
  - constructor; [|constructor]. constructor; simpl; rewrite ?He; h_look; done.
Qed.

(** [rt_memheap_init] on memory for at least one block: the heap object and its lock
    are registered, the lock is free, and the heap stands for one free block that fills
    the pool but for the two items, for every address and size of the memory. *)
Theorem rt_memheap_init_correct k h a name start size :
  chars name → (∀ c, OMemHeap a ∉ l_get (ks_containers k) c) → (∀ c, OSem (mh_lock a) ∉ l_get (ks_containers k) c) →
  0 ≤ start → 60 ≤ size / 4 * 4 → start + size < 2 ^ 32 →
  free_header a + 24 ≤ start ∨ start + size ≤ free_header a →
  wp (rt_memheap_init a name start size) (λ r s', r = RT_EOK ∧ unlocked (l_kernel s') (mh_lock a) ∧
    OMemHeap a ∈ l_get (ks_containers (l_kernel s')) (class_index ClassMemHeap) ∧
    ∃ x, mh_start_addr x = start ∧ mh_pool_size x = size / 4 * 4 ∧
      heap_rep (l_own s') a x [(size / 4 * 4 - 48, false)] [start]) (Layer k h).
Proof.
  intros Hn Ho Hl H0 Hsz Hmax Hh. unfold rt_memheap_init. wp_step. apply wp_kern.
  eapply object_init_spec; [done|by apply strncpy_stored|]. wp_step. apply wp_own.
  eapply wp_mono; [by apply init_items_spec|]. intros [] h' Hrep. wp_step. apply wp_kern.
  unfold rt_sem_init, rt_ipc_object_init, tlist_init, put_sem. wp_step.
  eapply object_init_spec; [|by apply strncpy_stored|].
  { intros c. simpl. rewrite l_get_insert_after. case_decide; [|done]. rewrite not_elem_of_cons. done. }
  wp_step. wp_step. wp_step. wp_step. wp_step. wp_step. wp_step. wp_step.
  split_and!; [done| | |done].
  - split; simpl; [|by rewrite l_get_init, decide_True]. eexists. split; [apply lookup_insert_eq|done].
  - simpl. rewrite !l_get_insert_after. set_solver.
Qed.

(** C15. [rt_memheap_alloc] with the lock free, for every heap and every request up to
    [2^32 - 4] bytes: the call returns with the lock free again; it takes the first block
    of the free list that is large enough for the rounded request, splits it when the
    rest is large enough for a block, and returns the address behind the item; it fails,
    without a change, only if every free block is too small or the request is not less
    than the free bytes of all blocks together. *)
Theorem rt_memheap_alloc_correct k h a x B F size :
  unlocked k (mh_lock a) → heap_rep h a x B F → 0 ≤ size ≤ 2 ^ 32 - 4 →
  ∃ r h', rt_memheap_alloc a size (Layer k h) = Done (Return r) (Layer k h') ∧
    allocated a x B F (request_size size) h h' r.
Proof. apply alloc_done. Qed.

(** C16. [rt_memheap_free] of an allocated block with the lock free: the call returns with
    the lock free again, and the heap stands for the blocks with this one free and all
    neighbouring free blocks joined. *)
Theorem rt_memheap_free_correct k h a x B1 n B2 F :
  unlocked k (mh_lock a) → heap_rep h a x (B1 ++ (n, true) :: B2) F →
  ∃ h' x' F', rt_memheap_free (Some (end_of (mh_start_addr x) B1 + 24)) (Layer k h) = Done (Return tt) (Layer k h') ∧
    same_pool x x' ∧ heap_rep h' a x' (coalesce (B1 ++ (n, false) :: B2)) F'.
Proof. apply free_done. Qed.

(** Allocation and release are inverse to each other: a block that is allocated and
    freed again leaves the heap with exactly the blocks it had before. *)
Theorem rt_memheap_alloc_free k h a x B F size ptr s' :
  unlocked k (mh_lock a) → heap_rep h a x B F → 0 ≤ size ≤ 2 ^ 32 - 4 →
  rt_memheap_alloc a size (Layer k h) = Done (Return (Some ptr)) s' →
  ∃ h'' x'' F'', rt_memheap_free (Some ptr) s' = Done (Return tt) (Layer k h'') ∧
    same_pool x x'' ∧ heap_rep h'' a x'' B F''.
Proof.
  intros Hk HR Hs E. destruct (alloc_done k h a x B F size Hk HR Hs) as (r & h' & E' & Ha).
  rewrite E in E'. injection E' as <- ->.
  destruct Ha as (F1 & F2 & B1 & m & B2 & x' & F' & -> & Hle & -> & _ & _ & Hsp & HR').
  pose proof (hr_coalesced _ _ _ _ _ HR) as Hc. pose proof Hsp as (Est & _). rewrite <- Est.
  unfold alloc_blocks in HR'. destruct (Z.leb_spec (request_size size + 36) m).
  - destruct (free_done k h' a x' _ _ _ F' Hk HR') as (h'' & x'' & F'' & Ef & Hsp' & HR'').
    exists h'', x'', F''. split_and!; [done|by eapply same_pool_trans|].
    set (n := request_size size) in *. replace m with (n + 24 + (m - 24 - n)) in Hc by lia.
    rewrite coalesce_split in HR'' by done. by replace (n + 24 + (m - 24 - n)) with m in HR'' by lia.
  - destruct (free_done k h' a x' _ _ _ F' Hk HR') as (h'' & x'' & F'' & Ef & Hsp' & HR'').
    exists h'', x'', F''. split_and!; [done|by eapply same_pool_trans|]. by rewrite coalesce_coalesced in HR''.
Qed.

(** ** Safety *)

(** The bytes of two blocks, items included, do not meet. *)
Definition apart (p n q m : Z) : Prop := p + 24 + n ≤ q ∨ q + 24 + m ≤ p.

Lemma placed_apart st B p b q c :
  sizes_ok B → (p, b) ∈ placed st B → (q, c) ∈ placed st B → (p, b) = (q, c) ∨ apart p b.1 q c.1.
Proof.
  intros Hs (B1 & B2 & -> & ->)%placed_split. rewrite placed_app, elem_of_app. simpl. rewrite elem_of_cons.
  apply Forall_app in Hs as [Hs1 Hs2]. inversion Hs2 as [|? ? Hb Hs3]; subst. unfold apart.
  intros [Hin%placed_range|[->|Hin%placed_range]]; try done; [lia|by left|lia].
Qed.

(** A successful request, as a fact of the blocks. *)
Lemma alloc_safe k h a x B F size ptr s' :
  unlocked k (mh_lock a) → heap_rep h a x B F → 0 ≤ size ≤ 2 ^ 32 - 4 →
  rt_memheap_alloc a size (Layer k h) = Done (Return (Some ptr)) s' →
  ∃ n B' x' F', heap_rep (l_own s') a x' B' F' ∧ same_pool x x' ∧ size ≤ n ∧
    (ptr - 24, (n, true)) ∈ placed (mh_start_addr x) B' ∧
    mh_start_addr x + 24 ≤ ptr ∧ ptr + n ≤ mh_start_addr x + mh_pool_size x - 24 ∧
    ((4 | mh_start_addr x) → (4 | ptr)) ∧
    ∀ q m, (q, (m, true)) ∈ placed (mh_start_addr x) B →
      (q, (m, true)) ∈ placed (mh_start_addr x) B' ∧ apart (ptr - 24) n q m.
Proof.
  intros Hk HR Hs E. destruct (alloc_done k h a x B F size Hk HR Hs) as (r & h' & E' & Ha).
  rewrite E in E'. injection E' as <- ->.
  destruct Ha as (F1 & F2 & B1 & m & B2 & x' & F' & -> & Hle & -> & _ & _ & Hsp & HR').
  destruct (request_size_ok size Hs) as (H12 & Hsz & H4). set (n := request_size size) in *.
  pose proof (hr_sizes _ _ _ _ _ HR) as Hok. set (st := mh_start_addr x) in *. set (p := end_of st B1).
  replace (p + 24 - 24) with p by lia.
  assert (Hblk : ∃ n', n ≤ n' ∧ (p, (n', true)) ∈ placed st (alloc_blocks B1 m n B2) ∧ n' ≤ m).
  { unfold alloc_blocks. destruct (Z.leb_spec (n + 36) m); [exists n|exists m]; (split_and!; [lia| |lia]);
      rewrite placed_app; simpl; fold p; set_solver. }
  destruct Hblk as (n' & Hn' & Hin & Hnm). exists n', (alloc_blocks B1 m n B2), x', F'.
  pose proof (placed_pool st _ _ _ Hok) as (Hp1 & Hp2 & Hp3). simpl in Hp1, Hp2, Hp3. fold p in Hp1, Hp3.
  pose proof (rep_pool _ _ _ _ _ HR) as Hpool. fold st in Hpool.
  split_and!; [done|done|lia|done|lia|lia| |].
  - intros Hst. apply Z.divide_add_r; [|by exists 6]. apply end_of_divide; [|done]. by apply Forall_app in Hok as [? _].
  - intros q c Hq. rewrite placed_app, elem_of_app in Hq. simpl in Hq. fold p in Hq. rewrite elem_of_cons in Hq. split.
    + unfold alloc_blocks. destruct (Z.leb_spec (n + 36) m); rewrite placed_app; simpl; fold p;
        rewrite elem_of_app, ?elem_of_cons; [|naive_solver].
      replace (p + 24 + n + 24 + (m - 24 - n)) with (p + 24 + m) by lia. naive_solver.
    + apply Forall_app in Hok as [Hs1 Hs2]. inversion Hs2 as [|? ? Hb Hs3]; subst. unfold apart.
      destruct Hq as [Hq%placed_range|[[=]|Hq%placed_range]]; try done; simpl in Hq; fold p in Hq |- *; lia.
Qed.

(** C17. Allocated memory is safe: when a request succeeds, the memory returned holds the
    bytes asked for, lies in the pool, is aligned to four bytes when the pool is, and
    does not meet any block that was allocated before, its item included; these blocks
    are still allocated. *)
Theorem rt_memheap_alloc_safe k h a x B F size ptr s' :
  unlocked k (mh_lock a) → heap_rep h a x B F → 0 ≤ size ≤ 2 ^ 32 - 4 →
  rt_memheap_alloc a size (Layer k h) = Done (Return (Some ptr)) s' →
  ∃ n B' x' F', heap_rep (l_own s') a x' B' F' ∧ same_pool x x' ∧ size ≤ n ∧
    (ptr - 24, (n, true)) ∈ placed (mh_start_addr x) B' ∧
    mh_start_addr x + 24 ≤ ptr ∧ ptr + n ≤ mh_start_addr x + mh_pool_size x - 24 ∧
    ((4 | mh_start_addr x) → (4 | ptr)) ∧
    ∀ q m, (q, (m, true)) ∈ placed (mh_start_addr x) B →
      (q, (m, true)) ∈ placed (mh_start_addr x) B' ∧ apart (ptr - 24) n q m.
Proof. apply alloc_safe. Qed.

(** Requests near the end of the address space are rounded up to zero: a request of
    more than [2^32 - 4] bytes is treated as one of twelve bytes, and succeeds. *)
Theorem rt_memheap_alloc_overflow a size s :
  2 ^ 32 - 4 < size < 2 ^ 32 →
  request_size size = 12 ∧ rt_memheap_alloc a size s = rt_memheap_alloc a 12 s.
Proof.
  intros Hs. assert (Hr : request_size size = 12).
  { assert (size = 2 ^ 32 - 3 ∨ size = 2 ^ 32 - 2 ∨ size = 2 ^ 32 - 1) as [->|[->| ->]] by lia; reflexivity. }
  split; [done|]. unfold rt_memheap_alloc. by rewrite Hr.
Qed.
