(* ===== verification/MemHeapRealloc.v ===== *)
(** Memory heaps: [rt_memheap_realloc] of [rt-thread/src/memheap.c], which changes the size
    of a block in its place when it can and moves it otherwise.

    The contents of the blocks are a byte memory beside the items of the heap; a block that
    moves is copied with the [rt_memcpy] of [Memory]. *)

From stdpp Require Import base gmap list fin_maps.
From Stdlib Require Import ZArith Lia.
From S2P Require Import Prelude IntrusiveList Kservice Memory KState Object Sched Timer Thread Ipc Sem MemPool.
From S2P Require Import MemHeap MemHeapFacts MemHeapSpec.

Open Scope Z_scope.
#[local] Arguments h_field : simpl never.
#[local] Arguments free_header : simpl never.

(** * The operation *)

(** The kernel, the heaps and the contents of the memory. *)
Definition rstate : Type := mstate * memory.
Definition on_heap {A} (m : SM mstate A) : SM rstate A := λ s,
  match m s.1 with Done r h => Done r (h, s.2) | Fault f => Fault f end.
Definition copy_user (dst src count : Z) : SM rstate unit := λ s,
  match rt_memcpy (Z.to_nat count) dst src count s.2 with Some m => Done tt (s.1, m) | None => Fault OutOfFuel end.

(** What the code behind a wait for the lock goes on with: the release of a block that shrinks
    to nothing, the allocation for the null pointer, growing in place, the allocation and the
    release of a move, and shrinking. *)
Inductive realloc_wait :=
  | WaitFree (w : Z * Z)
  | WaitAlloc (size : Z)
  | WaitGrow (ptr newsize oldsize : Z)
  | WaitMove (ptr newsize oldsize size : Z)
  | WaitRelease (new_ptr : Z) (w : Z * Z)
  | WaitShrink (ptr newsize : Z).

(** Growing into the free block behind, with the lock held: whether it was large enough. *)
Definition grow_locked (a header_ptr ptr newsize oldsize : Z) : SM hstate bool :=
  next_ptr ← rd Fnext header_ptr;
  RT_ASSERT (header_ptr <? next_ptr);;
  used ← RT_MEMHEAP_IS_USED next_ptr;
  if (used : bool) then mret false
  else
    nextsize ← MEMITEM_SIZE next_ptr;
    RT_ASSERT (0 <? next_ptr);;
    if u32 (newsize + RT_MEMHEAP_MINIALLOC) <? u32 (nextsize + oldsize) then
      take_size a (u32 (newsize - oldsize));;
      free_list_remove a next_ptr;;
      v ← rd Fprev next_ptr; n ← rd Fnext next_ptr; wr a Fprev n v;;
      n ← rd Fnext next_ptr; v ← rd Fprev next_ptr; wr a Fnext v n;;
      let next_ptr := u32 (ptr + newsize) in
      split_block a header_ptr next_ptr;;
      free_list_insert a next_ptr;;
      mret true
    else mret false.
(** Cutting the end off the block, with the lock held; the rest joins a free block behind. *)
Definition shrink_locked (a header_ptr newsize : Z) : SM hstate unit :=
  let new_ptr := u32 (header_ptr + newsize + RT_MEMHEAP_SIZE) in
  split_block a header_ptr new_ptr;;
  next ← rd Fnext new_ptr;
  used ← RT_MEMHEAP_IS_USED next;
  when (negb used) (
    free_ptr ← rd Fnext new_ptr;
    n ← MEMITEM_SIZE free_ptr; give_size a (- n);;
    n ← rd Fnext free_ptr; wr a Fprev n new_ptr;;
    n ← rd Fnext free_ptr; wr a Fnext new_ptr n;;
    free_list_remove a free_ptr);;
  free_list_insert a new_ptr;;
  n ← MEMITEM_SIZE new_ptr; give_size a n.

(** The end of a move: the copy, and the release of the old block. *)
Definition move_end (ptr newsize oldsize : Z) (new_ptr : option Z) : SM rstate (call (option Z) realloc_wait) :=
  match new_ptr with
  | None => mret (Return None)
  | Some q =>
    copy_user q ptr (if oldsize <? newsize then oldsize else newsize);;
    r ← on_heap (rt_memheap_free (Some ptr));
    match r with Return _ => mret (Return (Some q)) | Wait w => mret (Wait (WaitRelease q w)) end
  end.
Definition grow_continue (a ptr newsize oldsize result : Z) : SM rstate (call (option Z) realloc_wait) :=
  if negb (result =? RT_EOK) then on_heap (kern (rt_set_errno result));; mret (Return None)
  else
    done ← on_heap (own (grow_locked a (u32 (ptr - RT_MEMHEAP_SIZE)) ptr newsize oldsize));
    _ ← on_heap (kern (rt_sem_release (mh_lock a)));
    if (done : bool) then mret (Return (Some ptr))
    else
      r ← on_heap (rt_memheap_alloc a newsize);
      match r with
      | Return new_ptr => move_end ptr newsize oldsize new_ptr
      | Wait size => mret (Wait (WaitMove ptr newsize oldsize size))
      end.
Definition shrink_continue (a ptr newsize result : Z) : SM rstate (option Z) :=
  if negb (result =? RT_EOK) then on_heap (kern (rt_set_errno result));; mret None
  else
    on_heap (own (shrink_locked a (u32 (ptr - RT_MEMHEAP_SIZE)) newsize));;
    _ ← on_heap (kern (rt_sem_release (mh_lock a)));
    mret (Some ptr).

Definition rt_memheap_realloc (a : Z) (ptr : option Z) (newsize : Z) : SM rstate (call (option Z) realloc_wait) :=
  if newsize =? 0 then
    r ← on_heap (rt_memheap_free ptr);
    match r with Return _ => mret (Return None) | Wait w => mret (Wait (WaitFree w)) end
  else
    let newsize := request_size newsize in
    match ptr with
    | None =>
      r ← on_heap (rt_memheap_alloc a newsize);
      match r with Return p => mret (Return p) | Wait size => mret (Wait (WaitAlloc size)) end
    | Some ptr =>
      oldsize ← on_heap (own (MEMITEM_SIZE (u32 (ptr - RT_MEMHEAP_SIZE))));
      if oldsize <? newsize then
        r ← on_heap (kern (rt_sem_take (mh_lock a) RT_WAITING_FOREVER));
        match r with
        | Return result => grow_continue a ptr newsize oldsize result
        | Wait _ => mret (Wait (WaitGrow ptr newsize oldsize))
        end
      else if oldsize <=? u32 (newsize + RT_MEMHEAP_SIZE + RT_MEMHEAP_MINIALLOC) then mret (Return (Some ptr))
      else
        r ← on_heap (kern (rt_sem_take (mh_lock a) RT_WAITING_FOREVER));
        match r with
        | Return result => p ← shrink_continue a ptr newsize result; mret (Return p)
        | Wait _ => mret (Wait (WaitShrink ptr newsize))
        end
    end.
Definition rt_memheap_realloc_resumed (t a : Z) (w : realloc_wait) : SM rstate (call (option Z) realloc_wait) :=
  match w with
  | WaitFree w => on_heap (rt_memheap_free_resumed t w);; mret (Return None)
  | WaitAlloc size => p ← on_heap (rt_memheap_alloc_resumed t a size); mret (Return p)
  | WaitGrow ptr newsize oldsize =>
    result ← on_heap (kern (rt_sem_take_resumed t)); grow_continue a ptr newsize oldsize result
  | WaitMove ptr newsize oldsize size =>
    new_ptr ← on_heap (rt_memheap_alloc_resumed t a size); move_end ptr newsize oldsize new_ptr
  | WaitRelease new_ptr w => on_heap (rt_memheap_free_resumed t w);; mret (Return (Some new_ptr))
  | WaitShrink ptr newsize =>
    result ← on_heap (kern (rt_sem_take_resumed t)); p ← shrink_continue a ptr newsize result; mret (Return p)
  end.

(** * The blocks *)

(** The links of a complete free list. *)
Lemma insert_free_spec s a x B F s1 x1 C F1 q :
  heap_rep s a x B F → same_pool x x1 → h_heaps s1 !! a = Some x1 →
  end_of (mh_start_addr x) C = end_of (mh_start_addr x) B → sizes_ok C →
  Ptr.seg (free_links s1) (free_header a) F1 (free_header a) → q :: F1 ≡ₚ free_items (mh_start_addr x) C →
  wp (free_list_insert a q) (λ _ s', same_blocks s1 s' ∧ Ptr.seg (free_links s') (free_header a) (q :: F1) (free_header a)) s1.
Proof.
  intros HR Hsp Hx1 He Hs Hseg Hp. pose proof (rep_pool _ _ _ _ _ HR) as Hpool. pose proof (hr_header _ _ _ _ _ HR) as Hh.
  assert (Hin : ∀ y, y ∈ q :: F1 → mh_start_addr x ≤ y ∧ y + 36 ≤ end_of (mh_start_addr x) B).
  { intros y Hy. rewrite Hp in Hy. rewrite <- He. by apply free_items_range. }
  assert (Hnd : NoDup (free_header a :: q :: F1)).
  { constructor; [intros Hf%Hin; lia|]. rewrite Hp. by apply free_items_nodup. }
  assert (Hw : ∀ y, y ∈ q :: F1 → writable a x1 y = true).
  { intros y Hy%Hin. rewrite (same_pool_writable _ x) by done. apply (writable_pool a x _ eq_refl); lia. }
  apply (free_list_insert_spec a x1 s1 Hx1).
  - destruct Hsp as (_ & _ & ->). apply HR.
  - apply NoDup_cons in Hnd as [Hh' Hnd]. apply NoDup_cons in Hnd as [_ Hnd]. constructor; [set_solver|done].
  - apply NoDup_cons in Hnd as [Hh' Hnd]. apply NoDup_cons in Hnd as [Hq _]. set_solver.
  - done.
  - apply Hw. set_solver.
  - apply Forall_forall. intros y Hy. apply Hw. set_solver.
Qed.

(** What is behind a block. *)
Lemma placed_next st B1 b c B2 : placed st (B1 ++ b :: c :: B2) = placed st (B1 ++ [b]) ++ placed (end_of st B1 + 24 + b.1) (c :: B2).
Proof. change (b :: c :: B2) with ([b] ++ c :: B2). by rewrite app_assoc, placed_app, end_of_app. Qed.
Lemma free_next s a x B1 b m B2 F : heap_rep s a x (B1 ++ b :: (m, false) :: B2) F →
  ∃ G1 G2, F = G1 ++ (end_of (mh_start_addr x) B1 + 24 + b.1) :: G2.
Proof.
  intros HR. apply list_elem_of_split. apply (rep_free _ _ _ _ _ HR). exists m.
  rewrite placed_next. apply elem_of_app. right. simpl. apply elem_of_cons. by left.
Qed.

(** The blocks after growing by a part of the free block behind. *)
Definition grown_blocks (B1 : list block) (n ns : Z) (B2 : list block) : option (list block) :=
  match B2 with
  | (m, false) :: B3 => if ns + 12 <? m + n then Some (B1 ++ (ns, true) :: (n + m - ns, false) :: B3) else None
  | _ => None
  end.

Lemma grow_locked_spec s a x B1 n B2 F ns :
  heap_rep s a x (B1 ++ (n, true) :: B2) F → 12 ≤ ns → (4 | ns) → n < ns → ns + 12 < 2 ^ 32 →
  let p := end_of (mh_start_addr x) B1 in
  wp (grow_locked a p (p + 24) ns n) (λ r s',
    match grown_blocks B1 n ns B2 with
    | Some B' => r = true ∧ ∃ x' F', same_pool x x' ∧ heap_rep s' a x' B' F'
    | None => r = false ∧ s' = s
    end) s.
Proof.
  intros HR H12 H4 Hlt Hmax p. set (st := mh_start_addr x) in *.
  pose proof (rep_chain _ _ _ _ _ HR) as Hc. pose proof (rep_pool _ _ _ _ _ HR) as Hpool. fold st in Hc, Hpool.
  pose proof (hr_sizes _ _ _ _ _ HR) as Hsz. pose proof (hr_start _ _ _ _ _ HR) as H0. pose proof (hr_max _ _ _ _ _ HR) as Hm.
  fold st in H0, Hm. pose proof (placed_pool st _ _ _ Hsz) as (Hp1 & Hp2 & Hp3). simpl in Hp1, Hp2, Hp3. fold p in Hp1, Hp3.
  pose proof (chain_block _ _ _ _ _ _ Hc) as [_ _ Hn Hpv]. simpl in Hn, Hpv. fold p in Hn, Hpv.
  pose proof (next_item _ _ _ _ _ _ Hc) as Hmg. simpl in Hmg. fold p in Hmg.
  unfold grow_locked. wp_step. eapply wp_rd; [done|]. wp_step. apply wp_assert; [apply Z.ltb_lt; lia|].
  wp_step. eapply wp_is_used; [done|]. unfold grown_blocks.
  destruct B2 as [|[m []] B3]; cbn [snd]; [by wp_step..|].
  pose proof (chain_next _ _ _ _ _ _ _ Hc) as [_ _ Hnn _]. simpl in Hnn. fold p in Hnn. set (q := p + 24 + n) in *.
  assert (Hsz' : sizes_ok ((B1 ++ [(n, true)]) ++ (m, false) :: B3)) by (by rewrite <- app_assoc).
  pose proof (placed_pool st _ _ _ Hsz') as (_ & Hm1 & Hm2). rewrite end_of_app in Hm2. simpl in Hm1, Hm2. fold p q in Hm2.
  rewrite <- app_assoc in Hm2. simpl in Hm2.
  wp_step. eapply wp_size; [done|]. replace (u32 (q + 24 + m - q - 24)) with m by (unfold u32; rewrite Z.mod_small; lia).
  wp_step. apply wp_assert; [apply Z.ltb_lt; lia|].
  replace (u32 (ns + RT_MEMHEAP_MINIALLOC)) with (ns + 12) by (unfold u32, RT_MEMHEAP_MINIALLOC; rewrite Z.mod_small; lia).
  replace (u32 (m + n)) with (m + n) by (unfold u32; rewrite Z.mod_small; lia).
  destruct (Z.ltb_spec (ns + 12) (m + n)) as [Hfit|Hno]; [|by wp_step].
  destruct (free_next _ _ _ _ _ _ _ _ HR) as (G1 & G2 & ->). simpl in HR. fold st p q in HR.
  pose proof (rep_nodup _ _ _ _ _ HR) as Hnd. pose proof (rep_writable _ _ _ _ _ HR) as Hwf. pose proof (hr_avail _ _ _ _ _ HR) as Hav.
  pose proof (free_size_nonneg _ Hsz) as Hf0. pose proof (free_size_le st _ Hsz) as Hfl.
  assert (Hs1 : sizes_ok B1 ∧ sizes_ok B3) by (apply Forall_app in Hsz as [? Hz]; inversion Hz as [|? ? ? Hz2]; inversion Hz2; done).
  pose proof (free_size_nonneg B1 (proj1 Hs1)). pose proof (free_size_nonneg B3 (proj2 Hs1)).
  assert (Hfe : free_size (B1 ++ (n, true) :: (m, false) :: B3) = free_size B1 + m + free_size B3) by (rewrite free_size_app; simpl; lia).
  replace (u32 (ns - n)) with (ns - n) by (unfold u32; rewrite Z.mod_small; lia).
  destruct (take_size_spec a x (ns - n) s) as (x' & Hsp & Hav' & Ht); [apply HR|lia|lia|].
  wp_step. apply Ht.
  assert (Hw : ∀ y, st ≤ y → y + 24 ≤ st + mh_pool_size x → writable a x' y = true).
  { intros y Hy1 Hy2. rewrite (same_pool_writable _ x) by done. by apply (writable_pool a x _ eq_refl). }
  wp_step. eapply wp_mono; [apply (free_list_remove_spec a x' _) with (F1 := G1) (F2 := G2)|].
  { by h_look. } { destruct Hsp as (_ & _ & ->). apply HR. } { done. }
  { rewrite put_free_links. apply HR. }
  { eapply Forall_impl; [done|]. intros y Hy. by rewrite (same_pool_writable _ x). }
  intros [] s2 [Hs2 Hseg2]. pose proof Hs2 as [Eh Em Ep En Ev]. rewrite h_heaps_put in Eh. rewrite h_field_put in Em, Ep, En, Ev.
  assert (Hx2 : h_heaps s2 !! a = Some x') by (by rewrite Eh, lookup_insert_eq).
  wp_step. eapply wp_rd; [by rewrite Ev|]. wp_step. eapply wp_rd; [by rewrite En|].
  wp_step. eapply wp_wr; [done|apply Hw; lia|].
  wp_step. eapply wp_rd; [by h_look; rewrite En|]. wp_step. eapply wp_rd; [by h_look; rewrite Ev|].
  wp_step. eapply wp_wr; [by h_look|apply Hw; lia|]. cbv zeta.
  set (s3 := h_write Fnext p (q + 24 + m) (h_write Fprev (q + 24 + m) p s2)).
  assert (Hc3 : chain s3 a st (B1 ++ (n + 24 + m, true) :: B3)).
  { apply (join_chain a x st eq_refl s _ B1 n true m false B3); [done|done|..]; unfold s3; h_simpl; rewrite ?Em, ?Ep, ?En, ?Ev; done. }
  assert (Ex3 : h_heaps s3 = h_heaps s2 ∧ free_links s3 = free_links s2) by (unfold s3, free_links; by h_simpl).
  destruct Ex3 as [Eh3 Ef3]. clearbody s3.
  destruct (join_blocks st B1 n true m false B3 Hsz) as [Hje Hjs].
  replace (u32 (p + 24 + ns)) with (p + 24 + ns) by (unfold u32; rewrite Z.mod_small; lia).
  destruct Hsp as (E1 & E2 & E3).
  wp_step. eapply wp_mono; [apply (split_block_spec a x' st E1 s3 B1 (n + 24 + m) true ns B3); [by rewrite Eh3|done|lia|done|lia|done]|].
  intros [] s4 (Eh4 & Ef4 & Hc4). replace (n + 24 + m - 24 - ns) with (n + m - ns) in Hc4 by lia.
  set (C := B1 ++ (ns, true) :: (n + m - ns, false) :: B3) in *.
  assert (HCe : end_of st C = end_of st (B1 ++ (n, true) :: (m, false) :: B3)).
  { unfold C. rewrite !end_of_app. simpl. f_equal. lia. }
  assert (HCs : sizes_ok C).
  { destruct Hs1 as [Hz1 Hz3]. apply Forall_app. split; [done|]. constructor; [done|]. constructor; [|done]. simpl. split; [lia|].
    apply Forall_app in Hsz as [_ Hz]. inversion Hz as [|? ? [_ Hd] Hz2]; subst. inversion Hz2 as [|? ? [_ Hd2] _]; subst. simpl in *.
    apply Z.divide_sub_r; [by apply Z.divide_add_r|done]. }
  assert (HCp : (p + 24 + ns) :: G1 ++ G2 ≡ₚ free_items st C).
  { pose proof (hr_perm _ _ _ _ _ HR) as Hperm. fold st in Hperm. unfold C. rewrite !free_items_app, !free_items_cons in *. simpl in *.
    fold p in Hperm |- *. fold q in Hperm. rewrite <- !Permutation_middle in *. apply Permutation_cons_inv in Hperm.
    replace (p + 24 + ns + 24 + (n + m - ns)) with (q + 24 + m) by (unfold q; lia). by rewrite Hperm. }
  wp_step. eapply wp_mono; [apply (insert_free_spec s a x _ _ s4 x' C (G1 ++ G2) _ HR)|].
  { done. } { by rewrite Eh4, Eh3. } { exact HCe. } { done. } { by rewrite Ef4, Ef3. } { done. }
  intros [] s5 [Hs5 Hseg5]. wp_step. split; [done|]. exists x', ((p + 24 + ns) :: G1 ++ G2). split; [done|].
  eapply (rep_intro s a x); [done|done|by rewrite (sb_heaps _ _ Hs5), Eh4, Eh3|done|done| | |by eapply same_blocks_chain|done|done].
  - pose proof (hr_coalesced _ _ _ _ _ HR) as Hco. apply coalesced_app in Hco as (Hc1 & [_ Hc2] & _).
    apply coalesced_app. split_and!; [done| |destruct (last B1); auto]. simpl. split_and!; [by left| |by destruct Hc2].
    destruct Hc2 as [Hc2 _]. destruct B3; [done|]. naive_solver.
  - rewrite Hav', Hav, Hfe. unfold C. rewrite free_size_app. simpl. lia.
Qed.

(** The blocks after cutting [k] bytes and an item off the end of a block. *)
Definition shrunk_blocks (B1 : list block) (ns k : Z) (B2 : list block) : list block :=
  B1 ++ (ns, true) :: ((join_right k B2).1, false) :: (join_right k B2).2.

Lemma shrunk_blocks_ok st B1 n ns B2 :
  sizes_ok (B1 ++ (n, true) :: B2) → coalesced (B1 ++ (n, true) :: B2) → 12 ≤ ns → (4 | ns) → ns + 36 < n →
  let C := shrunk_blocks B1 ns (n - 24 - ns) B2 in
  end_of st C = end_of st (B1 ++ (n, true) :: B2) ∧ sizes_ok C ∧ coalesced C.
Proof.
  intros Hs Hc H12 H4 Hlt. unfold shrunk_blocks. apply Forall_app in Hs as [Hs1 Hs2]. inversion Hs2 as [|? ? [_ Hn] Hs3]; subst. simpl in Hn.
  apply coalesced_app in Hc as (Hc1 & [_ Hc2] & _).
  assert (Hk : (4 | n - 24 - ns)) by (apply Z.divide_sub_r; [apply Z.divide_sub_r; [done|by exists 6]|done]).
  destruct B2 as [|[m []] B3]; simpl.
  1,2: split_and!; [rewrite !end_of_app; simpl; first [lia|f_equal; lia]|apply Forall_app; split; [done|]; constructor; [done|]; constructor; [simpl; split; [lia|done]|done]|].
  1,2: apply coalesced_app; split_and!; [done|simpl; naive_solver|destruct (last B1); auto].
  inversion Hs3 as [|? ? [Hm1 Hm2] Hs4]; subst. simpl in Hm1, Hm2. destruct Hc2 as [Hc2 Hc3]. split_and!.
  - rewrite !end_of_app. simpl. f_equal. lia.
  - apply Forall_app; split; [done|]; constructor; [done|]; constructor; [simpl; split; [lia|]|done].
    apply Z.divide_add_r; [apply Z.divide_add_r; [done|by exists 6]|done].
  - apply coalesced_app; split_and!; [done| |destruct (last B1); auto]. simpl. destruct B3; naive_solver.
Qed.

Lemma shrink_locked_spec s a x B1 n B2 F ns :
  heap_rep s a x (B1 ++ (n, true) :: B2) F → 12 ≤ ns → (4 | ns) → ns + 36 < n →
  wp (shrink_locked a (end_of (mh_start_addr x) B1) ns) (λ _ s', ∃ x' F',
    same_pool x x' ∧ heap_rep s' a x' (shrunk_blocks B1 ns (n - 24 - ns) B2) F') s.
Proof.
  intros HR H12 H4 Hlt. set (st := mh_start_addr x) in *. set (p := end_of st B1). set (k := n - 24 - ns).
  pose proof (rep_chain _ _ _ _ _ HR) as Hc. pose proof (rep_pool _ _ _ _ _ HR) as Hpool. fold st in Hc, Hpool.
  pose proof (hr_sizes _ _ _ _ _ HR) as Hsz. pose proof (hr_start _ _ _ _ _ HR) as H0. pose proof (hr_max _ _ _ _ _ HR) as Hm.
  fold st in H0, Hm. pose proof (placed_pool st _ _ _ Hsz) as (Hp1 & Hp2 & Hp3). simpl in Hp1, Hp2, Hp3. fold p in Hp1, Hp3.
  destruct (shrunk_blocks_ok st B1 n ns B2 Hsz (hr_coalesced _ _ _ _ _ HR) H12 H4 Hlt) as (HCe & HCs & HCc). fold k in HCe, HCs, HCc.
  pose proof (free_size_nonneg _ HCs) as HC0. pose proof (free_size_le st _ HCs) as HCl.
  pose proof (hr_perm _ _ _ _ _ HR) as Hperm. fold st in Hperm. pose proof (hr_avail _ _ _ _ _ HR) as Hav.
  pose proof (free_size_le st _ Hsz) as Hfle. rewrite <- Hav in Hfle.
  unfold shrink_locked, RT_MEMHEAP_SIZE. cbv zeta.
  replace (u32 (p + ns + 24)) with (p + 24 + ns) by (unfold u32; rewrite Z.mod_small; lia). set (q := p + 24 + ns).
  wp_step. eapply wp_mono; [apply (split_block_spec a x st eq_refl s B1 n true ns B2); [apply HR|done|lia|done|lia|done]|].
  intros [] s1 (Eh1 & Ef1 & Hc1). fold k in Hc1. assert (Hx1 : h_heaps s1 !! a = Some x) by (rewrite Eh1; apply HR).
  assert (Hc1' : chain s1 a st ((B1 ++ [(ns, true)]) ++ (k, false) :: B2)) by (by rewrite <- app_assoc).
  pose proof (chain_block _ _ _ _ _ _ Hc1') as [_ _ Hn _]. pose proof (next_item _ _ _ _ _ _ Hc1') as Hmg.
  rewrite end_of_app in Hn, Hmg. simpl in Hn, Hmg. fold p q in Hn, Hmg.
  wp_step. eapply wp_rd; [done|]. wp_step. eapply wp_is_used; [done|].
  (* the end, when the blocks are in their places *)
  assert (Hend : ∀ s2 x2 F2 m, same_pool x x2 → h_heaps s2 !! a = Some x2 →
    chain s2 a st (shrunk_blocks B1 ns k B2) → m = (join_right k B2).1 →
    mh_available_size x2 + m = free_size (shrunk_blocks B1 ns k B2) → 0 ≤ mh_available_size x2 →
    Ptr.seg (free_links s2) (free_header a) F2 (free_header a) → q :: F2 ≡ₚ free_items st (shrunk_blocks B1 ns k B2) →
    wp (free_list_insert a q;; n ← MEMITEM_SIZE q; give_size a n)
      (λ _ s', ∃ x' F', same_pool x x' ∧ heap_rep s' a x' (shrunk_blocks B1 ns k B2) F') s2).
  { intros s2 x2 F2 m Hsp Hx2 Hc2 Em Hav2 Hav0 Hseg2 Hp.
    wp_step. eapply wp_mono; [by apply (insert_free_spec s a x _ F s2 x2 (shrunk_blocks B1 ns k B2) F2 q HR)|].
    intros [] s3 [Hs3 Hseg3]. assert (Hc3 : chain s3 a st (shrunk_blocks B1 ns k B2)) by (by eapply same_blocks_chain).
    unfold shrunk_blocks in Hc3 at 1. change (?l ++ ?b :: ?c) with (l ++ [b] ++ c) in Hc3. rewrite app_assoc in Hc3.
    pose proof (chain_block _ _ _ _ _ _ Hc3) as [_ _ Hn3 _]. rewrite end_of_app in Hn3. simpl in Hn3. fold p q in Hn3. rewrite <- Em in Hn3.
    wp_step. eapply wp_size; [done|].
    assert (12 ≤ m ∧ m ≤ free_size (shrunk_blocks B1 ns k B2)) as Hm12.
    { unfold shrunk_blocks. apply Forall_app in HCs as [Hz1 Hz2]. inversion Hz2 as [|? ? _ Hz3]; subst. inversion Hz3 as [|? ? [Hz4 _] Hz5]; subst.
      pose proof (free_size_nonneg _ Hz1). pose proof (free_size_nonneg _ Hz5). rewrite free_size_app. simpl in *. lia. }
    replace (u32 (q + 24 + m - q - 24)) with m by (unfold u32; rewrite Z.mod_small; lia).
    destruct (give_size_spec a x2 m s3) as (x3 & Hsp3 & Hav3 & Hg); [by rewrite (sb_heaps _ _ Hs3)|lia|].
    apply Hg. exists x3, (q :: F2). assert (Hsp13 : same_pool x x3) by (by eapply same_pool_trans). split; [done|].
    eapply (rep_intro s a x); [done|done|by rewrite h_heaps_put, lookup_insert_eq|done|done|done|by rewrite Hav3| | |done].
    - apply put_chain. by eapply same_blocks_chain.
    - by rewrite put_free_links. }
  assert (Hs1 : sizes_ok B1 ∧ sizes_ok B2) by (apply Forall_app in Hsz as [? Hz]; inversion Hz; done).
  pose proof (free_size_nonneg B1 (proj1 Hs1)). pose proof (free_size_nonneg B2 (proj2 Hs1)).
  assert (Hfe : mh_available_size x = free_size B1 + free_size B2) by (rewrite Hav, free_size_app; simpl; lia).
  rewrite free_items_app, free_items_cons in Hperm. simpl in Hperm. fold p in Hperm.
  assert (Hq : ∀ B3, q :: free_items st B1 ++ B3 ≡ₚ free_items st B1 ++ q :: B3) by (intros; apply Permutation_middle).
  assert (Eq : q + 24 + k = p + 24 + n) by (unfold q, k; lia).
  destruct B2 as [|[m []] B3]; cbn [snd negb] in *; unfold when.
  1,2: wp_step; eapply (Hend s1 x F k); [done|done|done|done| |lia|by rewrite Ef1; apply HR|];
    [unfold shrunk_blocks; rewrite free_size_app; simpl in *; lia|];
    unfold shrunk_blocks; rewrite free_items_app, !free_items_cons; simpl; fold p q; rewrite Hperm, Hq; simpl in *; by rewrite ?Eq.
  pose proof (chain_next _ _ _ _ _ _ _ Hc1') as [_ _ Hn2 _]. rewrite end_of_app in Hn2. simpl in Hn2. fold p q in Hn2. rewrite Eq in Hn2, Hn.
  destruct (free_next _ _ _ _ _ _ _ _ HR) as (G1 & G2 & ->). simpl in HR, Hperm. fold st p in HR, Hperm.
  pose proof (rep_nodup _ _ _ _ _ HR) as Hnd. pose proof (rep_writable _ _ _ _ _ HR) as Hwf.
  set (r := p + 24 + n) in *. simpl in Hfe. destruct Hs1 as [_ Hs3]. inversion Hs3 as [|? ? [Hm1 _] Hs4]; subst. simpl in Hm1.
  pose proof (free_size_nonneg B3 Hs4). assert (Hend' : r + 24 + m ≤ end_of st (B1 ++ (n, true) :: (m, false) :: B3)).
  { rewrite end_of_app. simpl. fold p r. pose proof (end_of_ge (r + 24 + m) B3 Hs4). lia. }
  simpl in Hfe. wp_step. wp_step. eapply wp_rd; [done|].
  wp_step. eapply wp_size; [done|]. replace (u32 (r + 24 + m - r - 24)) with m by (unfold u32; rewrite Z.mod_small; lia).
  destruct (give_size_spec a x (- m) s1) as (x2 & Hsp2 & Hav2 & Hg); [done|lia|].
  assert (Hw : ∀ y, st ≤ y → y + 24 ≤ st + mh_pool_size x → writable a x2 y = true).
  { intros y Hy1 Hy2. rewrite (same_pool_writable _ x) by done. by apply (writable_pool a x _ eq_refl). }
  wp_step. apply Hg. wp_step. eapply wp_rd; [by h_look|]. wp_step. eapply wp_wr; [by h_look|apply Hw; lia|].
  wp_step. eapply wp_rd; [by h_look|]. wp_step. eapply wp_wr; [by h_look|apply Hw; lia|].
  eapply wp_mono; [apply (free_list_remove_spec a x2 _) with (F1 := G1) (F2 := G2)|].
  { by h_look. } { destruct Hsp2 as (_ & _ & ->). apply HR. } { done. }
  { unfold free_links. h_simpl. fold (free_links s1). rewrite Ef1. apply HR. }
  { eapply Forall_impl; [done|]. intros y Hy. by rewrite (same_pool_writable _ x). }
  intros [] s3 [Hs3' Hseg3]. eapply (Hend s3 x2 (G1 ++ G2) (k + 24 + m)); [done| | |done| |lia|done|].
  - rewrite (sb_heaps _ _ Hs3'). by h_look.
  - eapply same_blocks_chain; [done|]. unfold shrunk_blocks. simpl.
    change (B1 ++ (ns, true) :: (k + 24 + m, false) :: B3) with (B1 ++ [(ns, true)] ++ (k + 24 + m, false) :: B3). rewrite app_assoc.
    apply (join_chain a x st eq_refl s1 _ (B1 ++ [(ns, true)]) k false m false B3).
    { rewrite <- app_assoc. apply Forall_app in Hsz as [Hz1 Hz2]. inversion Hz2 as [|? ? [_ Hd] Hz3]; subst. simpl in Hd.
      apply Forall_app. split; [done|]. constructor; [done|]. constructor; [|done]. simpl. split; [lia|].
      apply Z.divide_sub_r; [apply Z.divide_sub_r; [done|by exists 6]|done]. }
    { by rewrite <- app_assoc. }
    all: h_simpl; rewrite ?end_of_app; simpl; fold p q; rewrite ?Eq; done.
  - unfold shrunk_blocks. rewrite free_size_app. simpl. lia.
  - unfold shrunk_blocks. rewrite free_items_app, !free_items_cons. simpl. fold p q.
    replace (q + 24 + (k + 24 + m)) with (r + 24 + m) by lia. rewrite free_items_cons in Hperm. simpl in Hperm.
    rewrite <- !Permutation_middle in Hperm. apply Permutation_cons_inv in Hperm. by rewrite Hperm, Hq.
Qed.

(** * The call *)

Lemma wp_on_heap {A} (m : SM mstate A) r (Q : A → rstate → Prop) h h' u :
  m h = Done r h' → Q r (h', u) → wp (on_heap m) Q (h, u).
Proof. intros E HQ. unfold wp, on_heap. simpl. by rewrite E. Qed.
Lemma on_own {A} (m : SM hstate A) r k h h' : m h = Done r h' → own m (Layer k h) = Done r (Layer k h').
Proof. intros E. unfold own. simpl. by rewrite E. Qed.
Lemma on_kern {A} (m : K A) r k k' h : m k = Done r k' → kern m (Layer k h) = Done (A:=A) r (Layer (X:=hstate) k' h).
Proof. intros E. unfold kern. simpl. by rewrite E. Qed.

Lemma request_size_idem size : 0 ≤ size ≤ 2 ^ 32 - 4 → request_size (request_size size) = request_size size.
Proof.
  intros Hs. destruct (request_size_ok size Hs) as (H12 & Hle & H4).
  assert (Hmax : request_size size ≤ 2 ^ 32 - 4).
  { unfold request_size, RT_MEMHEAP_MINIALLOC. rewrite align_up by done. case_match; [lia|]. Z.to_euclidean_division_equations; lia. }
  generalize dependent (request_size size). intros n H12 _ [z ->] Hmax. unfold request_size. rewrite align_up by lia.
  unfold RT_MEMHEAP_MINIALLOC. replace ((z * 4 + 3) / 4 * 4) with (z * 4) by (Z.to_euclidean_division_equations; lia).
  destruct (Z.ltb_spec (z * 4) 12); [lia|done].
Qed.
Lemma request_size_max size : 0 ≤ size ≤ 2 ^ 32 - 16 → request_size size ≤ 2 ^ 32 - 16.
Proof.
  intros Hs. unfold request_size, RT_MEMHEAP_MINIALLOC. rewrite align_up by lia. case_match; [lia|].
  Z.to_euclidean_division_equations; lia.
Qed.

(** Joining free blocks does not touch those in use. *)
Lemma coalesce_used B : ∀ st y l, (y, (l, true)) ∈ placed st B → (y, (l, true)) ∈ placed st (coalesce B).
Proof.
  induction B as [|b B IH]; intros st y l; [done|]. simpl. fold (coalesce B). rewrite elem_of_cons. intros [Hb|Hin].
  - injection Hb as -> <-. unfold cons_block. destruct (coalesce B); simpl; by left.
  - apply IH in Hin. unfold cons_block. destruct (coalesce B) as [|c B']; [by apply not_elem_of_nil in Hin|]. destruct b as [n []], c as [m []]; simpl in *.
    1,2,3: by right.
    apply elem_of_cons in Hin as [[=]|Hin]. right. by replace (st + 24 + (n + 24 + m)) with (st + 24 + n + 24 + m) by lia.
Qed.

(** [n] bytes at [p] in the memory [m] are those at [q] in [m']. *)
Definition same_bytes (m m' : memory) (p q n : Z) : Prop := ∀ i, 0 ≤ i < n → m' (q + i) = m (p + i).

Lemma copy_user_spec h m dst src count : bytes m → 0 ≤ count → disjoint dst src count →
  wp (copy_user dst src count) (λ _ s', ∃ m', s' = (h, m') ∧ bytes m' ∧ same_bytes m m' src dst count ∧
    ∀ p n, (p + n ≤ dst ∨ dst + count ≤ p) → same_bytes m m' p p n) (h, m).
Proof.
  intros Hb Hc Hd. destruct (rt_memcpy_correct (Z.to_nat count) dst src count m) as (m' & E & Hm); [done|lia|done|].
  unfold wp, copy_user. simpl. rewrite E. exists m'. split_and!; [done|by eapply bytes_equiv, copied_bytes| |].
  - intros i Hi. rewrite Hm. unfold copied. rewrite (proj2 (andb_true_iff _ _)); [f_equal; lia|]. split; [apply Z.leb_le|apply Z.ltb_lt]; lia.
  - intros p n Hpn i Hi. rewrite Hm. unfold copied. destruct (Z.leb_spec dst (p + i)), (Z.ltb_spec (p + i) (dst + count)); simpl; (done || lia).
Qed.

(** The result of a call: the blocks [B] with the block of [n] bytes at [ptr] become others. *)
Definition resized (a : Z) (x : rt_memheap) (B : list block) (ptr n ns : Z) (m : memory) (h' : hstate) (m' : memory) (q : Z) : Prop :=
  ∃ n' x' B' F', same_pool x x' ∧ heap_rep h' a x' B' F' ∧ ns ≤ n' ∧ (q - 24, (n', true)) ∈ placed (mh_start_addr x) B' ∧
    same_bytes m m' ptr q (Z.min n ns) ∧
    ∀ y l, (y, (l, true)) ∈ placed (mh_start_addr x) B → y ≠ ptr - 24 →
      (y, (l, true)) ∈ placed (mh_start_addr x) B' ∧ same_bytes m m' (y + 24) (y + 24) l.

(** Changing the sizes in place keeps the other blocks and the contents. *)
Lemma resized_in_place a x B1 n B2 ns m h' B' x' F' :
  sizes_ok (B1 ++ (n, true) :: B2) → same_pool x x' → heap_rep h' a x' B' F' →
  ns ≤ n ∨ n ≤ ns → (∃ l, ns ≤ l ∧ B' = B1 ++ (l, true) :: drop (S (length B1)) B') →
  (∀ y l, (y, (l, true)) ∈ placed (end_of (mh_start_addr x) B1 + 24 + n) B2 → (y, (l, true)) ∈ placed (mh_start_addr x) B') →
  let ptr := end_of (mh_start_addr x) B1 + 24 in
  resized a x (B1 ++ (n, true) :: B2) ptr n ns m h' m ptr.
Proof.
  intros Hs Hsp HR Hn (l & Hl & HB) Hin ptr. exists l, x', B', F'. split_and!; [done|done|done| |done|].
  - rewrite HB, placed_app. apply elem_of_app. right. simpl. apply elem_of_cons. left. f_equal. unfold ptr. lia.
  - intros y k Hy Hne. split; [|done]. rewrite placed_app, elem_of_app in Hy. simpl in Hy. rewrite elem_of_cons in Hy.
    destruct Hy as [Hy|[Hy|Hy]]; [|injection Hy as -> <-; unfold ptr in Hne; lia|by apply Hin].
    rewrite HB, placed_app. apply elem_of_app. by left.
Qed.

(** Moving: the copy and the release of the old block. *)
Lemma move_spec k h m a x B1 n B2 F ns :
  unlocked k (mh_lock a) → heap_rep h a x (B1 ++ (n, true) :: B2) F → bytes m → n < ns ≤ 2 ^ 32 - 4 → request_size ns = ns →
  let ptr := end_of (mh_start_addr x) B1 + 24 in
  wp (r ← on_heap (rt_memheap_alloc a ns);
      match r with
      | Return new_ptr => move_end ptr ns n new_ptr
      | Wait size => mret (Wait (WaitMove ptr ns n size))
      end) (λ r s', ∃ q h' m', r = Return q ∧ s' = (Layer k h', m') ∧
    match q with
    | Some q => resized a x (B1 ++ (n, true) :: B2) ptr n ns m h' m' q
    | None => h' = h ∧ m' = m ∧ (free_size (B1 ++ (n, true) :: B2) ≤ ns ∨ Forall (too_small x (B1 ++ (n, true) :: B2) ns) F)
    end) (Layer k h, m).
Proof.
  intros Hk HR Hb Hlt Hns ptr. set (B := B1 ++ (n, true) :: B2) in *. set (st := mh_start_addr x) in *.
  pose proof (hr_sizes _ _ _ _ _ HR) as Hsz. pose proof (placed_pool st _ _ _ Hsz) as (Hp1 & Hp2 & _). simpl in Hp1, Hp2.
  destruct (alloc_done k h a x B F ns Hk HR ltac:(lia)) as ([q|] & h1 & E & Ha); rewrite Hns in Ha.
  2:{ wp_step. eapply wp_on_heap; [exact E|]. simpl. wp_step. destruct Ha as [-> Ha]. by exists None, h, m. }
  destruct (alloc_safe k h a x B F ns q _ Hk HR ltac:(lia) E) as (n1 & B' & x1 & F1 & HR1 & Hsp1 & Hn1 & Hq & _ & _ & _ & Hold).
  simpl in HR1. fold st in Hq, Hold.
  assert (Hptr : (ptr - 24, (n, true)) ∈ placed st B).
  { unfold B. rewrite placed_app. apply elem_of_app. right. simpl. apply elem_of_cons. left. f_equal. unfold ptr. fold st. lia. }
  destruct (Hold _ _ Hptr) as [Hin Hap]. apply placed_split in Hin as (C1 & C2 & -> & Ep).
  pose proof Hsp1 as (Est & _). fold st in Est.
  wp_step. eapply wp_on_heap; [exact E|]. cbn iota. unfold move_end. rewrite (proj2 (Z.ltb_lt _ _)) by lia.
  wp_step. eapply wp_mono; [apply copy_user_spec; [done|lia|]|]. { unfold disjoint. unfold apart in Hap. lia. }
  intros [] s2 (m' & -> & Hb' & Hcp & Hsame).
  destruct (free_done k h1 a x1 C1 n C2 F1 Hk HR1) as (h2 & x2 & F2 & Ef & Hsp2 & HR2).
  rewrite Est, <- Ep in Ef. replace (ptr - 24 + 24) with ptr in Ef by lia.
  wp_step. eapply wp_on_heap; [exact Ef|]. cbn iota. wp_step. exists (Some q), h2, m'. split_and!; [done|done|].
  assert (Hkeep : ∀ y l, (y, (l, true)) ∈ placed st (C1 ++ (n, true) :: C2) → y ≠ ptr - 24 →
    (y, (l, true)) ∈ placed st (coalesce (C1 ++ (n, false) :: C2))).
  { intros y l Hy Hne. apply coalesce_used. rewrite placed_app, elem_of_app in Hy |- *. simpl in Hy |- *. rewrite elem_of_cons in Hy |- *.
    rewrite <- Ep in *. destruct Hy as [Hy|[Hy|Hy]]; [by left| |by right; right]. injection Hy as -> _. lia. }
  exists n1, x2, (coalesce (C1 ++ (n, false) :: C2)), F2. unfold apart in Hap. split_and!.
  - by eapply same_pool_trans.
  - done.
  - done.
  - apply Hkeep; [done|lia].
  - by rewrite Z.min_l by lia.
  - intros y l Hy Hne. destruct (Hold _ _ Hy) as [Hy' Hy2]. split; [by apply Hkeep|]. apply Hsame. unfold apart in Hy2. lia.
Qed.

(** C18. [rt_memheap_realloc] of an allocated block with the lock free: the call returns with
    the lock free again.  On success the heap is well-formed, the block that is returned has
    the size asked for and the contents of the old one up to the smaller of both sizes, and
    every other allocated block is where it was with the contents it had; a block that shrinks
    or finds enough room behind it stays in its place.  On failure nothing has changed, and no
    free block was large enough. *)
Theorem rt_memheap_realloc_correct k h m a x B1 n B2 F newsize :
  unlocked k (mh_lock a) → heap_rep h a x (B1 ++ (n, true) :: B2) F → bytes m → n < 2 ^ 31 →
  0 < newsize ≤ 2 ^ 32 - 16 →
  let B := B1 ++ (n, true) :: B2 in
  let ptr := end_of (mh_start_addr x) B1 + 24 in
  let ns := request_size newsize in
  ∃ r h' m', rt_memheap_realloc a (Some ptr) newsize (Layer k h, m) = Done (Return r) (Layer k h', m') ∧
    match r with
    | Some q => resized a x B ptr n ns m h' m' q ∧ (ns ≤ n ∨ is_Some (grown_blocks B1 n ns B2) → q = ptr)
    | None => h' = h ∧ m' = m ∧ n < ns ∧ (free_size B ≤ ns ∨ Forall (too_small x B ns) F)
    end.
Proof.
  intros Hk HR Hb _ Hnew B ptr ns. destruct (request_size_ok newsize ltac:(lia)) as (H12 & Hle & H4).
  pose proof (request_size_max newsize ltac:(lia)) as Hmax. pose proof (request_size_idem newsize ltac:(lia)) as Hid. fold ns in H12, Hle, H4, Hmax, Hid.
  enough (Hwp : wp (rt_memheap_realloc a (Some ptr) newsize) (λ r s', ∃ q h' m', r = Return q ∧ s' = (Layer k h', m') ∧
    match q with
    | Some q => resized a x B ptr n ns m h' m' q ∧ (ns ≤ n ∨ is_Some (grown_blocks B1 n ns B2) → q = ptr)
    | None => h' = h ∧ m' = m ∧ n < ns ∧ (free_size B ≤ ns ∨ Forall (too_small x B ns) F)
    end) (Layer k h, m)).
  { apply wp_inv in Hwp as (r & s' & E & q & h' & m' & -> & -> & H). by exists q, h', m'. }
  pose proof (hr_sizes _ _ _ _ _ HR) as Hsz. fold B in Hsz. pose proof (rep_pool _ _ _ _ _ HR) as Hpool. pose proof (hr_max _ _ _ _ _ HR) as Hm.
  pose proof (placed_pool (mh_start_addr x) _ _ _ Hsz) as (Hp1 & Hp2 & Hp3). simpl in Hp1, Hp2, Hp3. fold B in Hp3, Hpool.
  pose proof (hr_start _ _ _ _ _ HR) as H0. pose proof (chain_block _ _ _ _ _ _ (rep_chain _ _ _ _ _ HR)) as [_ _ Hnx _]. simpl in Hnx.
  set (p := end_of (mh_start_addr x) B1) in *.
  assert (Ep : u32 (ptr - RT_MEMHEAP_SIZE) = p) by (unfold ptr, RT_MEMHEAP_SIZE, u32; rewrite Z.mod_small; lia).
  assert (Esz : MEMITEM_SIZE p h = Done n h).
  { assert (wp (MEMITEM_SIZE p) (λ r s', r = n ∧ s' = h) h) as (? & ? & ? & -> & ->)%wp_inv; [|done].
    eapply wp_size; [done|]. split; [|done]. unfold u32. rewrite Z.mod_small; lia. }
  destruct (lock_take k (mh_lock a) Hk) as (k' & Ht & Hrel).
  unfold rt_memheap_realloc. rewrite (proj2 (Z.eqb_neq _ 0)) by lia. cbv zeta. fold ns. rewrite Ep.
  wp_step. eapply wp_on_heap; [by apply on_own|]. destruct (Z.ltb_spec n ns) as [Hgrow|Hkeep].
  - wp_step. eapply wp_on_heap; [by apply on_kern|]. unfold grow_continue. simpl negb. cbv iota. rewrite Ep.
    pose proof (grow_locked_spec h a x B1 n B2 F ns HR H12 H4 Hgrow ltac:(lia)) as Hg. cbv zeta in Hg. fold p ptr in Hg.
    apply wp_inv in Hg as (done & h' & E & Hg).
    wp_step. eapply wp_on_heap; [by apply on_own|]. wp_step. eapply wp_on_heap; [by apply on_kern|].
    destruct (grown_blocks B1 n ns B2) as [B'|] eqn:Eg.
    + destruct Hg as (-> & x' & F' & Hsp & HR'). wp_step. exists (Some ptr), h', m. split_and!; [done|done| |done].
      unfold grown_blocks in Eg. destruct B2 as [|[l []] B3]; [done|done|]. destruct (ns + 12 <? l + n); [|done]. injection Eg as <-.
      eapply resized_in_place; [done|done|done|lia| |].
      * exists ns. split; [lia|]. rewrite drop_app_ge by lia. replace (S (length B1) - length B1)%nat with 1%nat by lia. done.
      * intros y j. fold p. simpl. rewrite elem_of_cons. intros [[=]|Hy]. rewrite placed_app. simpl. fold p.
        apply elem_of_app. right. right. right. by replace (p + 24 + ns + 24 + (n + l - ns)) with (p + 24 + n + 24 + l) by lia.
    + destruct Hg as [-> ->]. eapply wp_mono; [eapply move_spec; [done|done|done|lia|done]|].
      intros r s' (q & h' & m' & -> & -> & Hq). exists q, h', m'. split_and!; [done|done|]. destruct q as [q|].
      * split; [exact Hq|]. intros [?|[? [=]]]. lia.
      * destruct Hq as (-> & -> & Hq). done.
  - replace (u32 (ns + RT_MEMHEAP_SIZE + RT_MEMHEAP_MINIALLOC)) with (ns + 36)
      by (unfold RT_MEMHEAP_SIZE, RT_MEMHEAP_MINIALLOC, u32; rewrite Z.mod_small; lia).
    destruct (Z.leb_spec n (ns + 36)) as [Hno|Hcut].
    + wp_step. exists (Some ptr), h, m. split_and!; [done|done| |done].
      eapply resized_in_place; [done|done|exact HR|lia| |].
      * exists n. split; [lia|]. rewrite drop_app_ge by lia. replace (S (length B1) - length B1)%nat with 1%nat by lia. done.
      * intros y j Hy. unfold B. rewrite placed_app. apply elem_of_app. right. by right.
    + wp_step. eapply wp_on_heap; [by apply on_kern|]. unfold shrink_continue. simpl negb. cbv iota. rewrite Ep.
      pose proof (shrink_locked_spec h a x B1 n B2 F ns HR H12 H4 Hcut) as Hg. fold p in Hg.
      apply wp_inv in Hg as ([] & h' & E & x' & F' & Hsp & HR').
      wp_step. wp_step. eapply wp_on_heap; [by apply on_own|]. wp_step. eapply wp_on_heap; [by apply on_kern|]. wp_step. wp_step.
      exists (Some ptr), h', m. split_and!; [done|done| |done]. eapply resized_in_place; [done|done|done|lia| |].
      * exists ns. split; [lia|]. unfold shrunk_blocks. rewrite drop_app_ge by lia.
        replace (S (length B1) - length B1)%nat with 1%nat by lia. done.
      * intros y j. fold p. unfold shrunk_blocks. rewrite placed_app. simpl. fold p. intros Hy. apply elem_of_app. right. right.
        destruct B2 as [|[l []] B3]; simpl in *.
        -- by apply not_elem_of_nil in Hy.
        -- right. by replace (p + 24 + ns + 24 + (n - 24 - ns)) with (p + 24 + n) by lia.
        -- apply elem_of_cons in Hy as [[=]|Hy]. right.
           by replace (p + 24 + ns + 24 + (n - 24 - ns + 24 + l)) with (p + 24 + n + 24 + l) by lia.
Qed.
