(* ===== verification/Halts.v ===== *)
(** Termination of code that may fault: [halts m Q s] says that from [s] the loops of [m]
    end; when [m] returns, its result satisfies [Q]. *)

From stdpp Require Import base list.
From Stdlib Require Import ZArith Lia.
From S2P Require Import Prelude.

(** A computation that comes back, followed by another. *)
Lemma bind_done {S A B} (m : SM S A) (f : A → SM S B) s a s' : m s = Done a s' → (m ≫= f) s = f a s'.
Proof. intros E. unfold mbind, SM_bind. by rewrite E. Qed.

Definition halts {S A} (m : SM S A) (Q : A → S → Prop) (s : S) : Prop :=
  match m s with
  | Done a s' => Q a s'
  | Fault e => e ≠ OutOfFuel
  end.

Section rules.
Context {S : Type}.
Implicit Types s : S.

Lemma halts_mono {A} (m : SM S A) (Q Q' : A → S → Prop) s :
  halts m Q s → (∀ a s', Q a s' → Q' a s') → halts m Q' s.
Proof. unfold halts. destruct (m s); naive_solver. Qed.
Lemma halts_ret {A} (a : A) Q s : Q a s → halts (mret a) Q s.
Proof. done. Qed.
Lemma halts_bind {A B} (m : SM S A) (f : A → SM S B) Q s :
  halts m (λ a s', halts (f a) Q s') s → halts (m ≫= f) Q s.
Proof. unfold halts, mbind, SM_bind. by destruct (m s). Qed.
Lemma halts_get Q s : Q s s → halts get Q s.
Proof. done. Qed.
Lemma halts_modify f Q s : Q tt (f s) → halts (modify f) Q s.
Proof. done. Qed.
Lemma halts_fail {A} e (Q : A → S → Prop) s : e ≠ OutOfFuel → halts (fail e) Q s.
Proof. done. Qed.
Lemma halts_option {A} e (o : option A) Q s :
  e ≠ OutOfFuel → (∀ a, o = Some a → Q a s) → halts (of_option e o) Q s.
Proof. destruct o; simpl; unfold halts; simpl; naive_solver. Qed.
Lemma halts_if {A} (b : bool) (m1 m2 : SM S A) Q s :
  (b = true → halts m1 Q s) → (b = false → halts m2 Q s) → halts (if b then m1 else m2) Q s.
Proof. destruct b; naive_solver. Qed.
Lemma halts_when b m Q s :
  (b = true → halts m Q s) → (b = false → Q tt s) → halts (when b m) Q s.
Proof. destruct b; naive_solver. Qed.
Lemma halts_wp {A} (m : SM S A) Q s : wp m Q s → halts m Q s.
Proof. unfold wp, halts. by destruct (m s). Qed.
Lemma halts_eq {A} (m m' : SM S A) Q s : m s = m' s → halts m Q s → halts m' Q s.
Proof. unfold halts. by intros ->. Qed.
End rules.

#[global] Instance halts_proper {S A} :
  Proper (eq ==> pointwise_relation A (pointwise_relation S iff) ==> eq ==> iff) (@halts S A).
Proof. intros m ? <- Q Q' HQ s ? <-. unfold halts. destruct (m s); [apply HQ|done]. Qed.

(** One symbolic-execution step on a goal [halts m Q s]. *)
Ltac halts_step :=
  lazymatch goal with
  | |- halts (mbind _ _) _ _ => apply halts_bind
  | |- halts (mret _) _ _ => apply halts_ret
  | |- halts get _ _ => apply halts_get
  | |- halts (modify _) _ _ => apply halts_modify
  | |- halts (fail _) _ _ => apply halts_fail; [done..]
  | |- halts (of_option _ _) _ _ => apply halts_option; [done|intros]
  | |- halts (when _ _) _ _ => apply halts_when; intros
  | |- halts (if _ then _ else _) _ _ => apply halts_if; intros
  end; cbv beta.

Open Scope Z_scope.

(** Computations on a buffer of characters: pointers into it are offsets, an access outside
    it is the fault [BadPointer]. *)

Abbreviation L := (SM (list Z)).
Definition char_at (i : nat) : L Z := l ← get; of_option BadPointer (l !! i).
Definition set_char (i : nat) (v : Z) : L unit := _ ← char_at i; modify (insert i v).

Lemma char_at_spec l i c : l !! i = Some c → char_at i l = Done c l.
Proof. intros H. unfold char_at. cbv [mbind mret SM_bind SM_ret get of_option]. by rewrite H. Qed.
Lemma set_char_spec l i c v : l !! i = Some c → set_char i v l = Done tt (<[i := v]> l).
Proof. intros H. unfold set_char. by erewrite bind_done by (by apply char_at_spec). Qed.

(** The first characters that pass a test. *)
Lemma span (P : Z → bool) l :
  ∃ a b, l = a ++ b ∧ Forall (λ c, P c = true) a ∧ match b with [] => True | x :: _ => P x = false end.
Proof.
  induction l as [|c l (a & b & -> & Ha & Hb)]; [by exists [], []|].
  destruct (P c) eqn:E; [exists (c :: a), b; split_and!; [done|by constructor|done]|by exists [], (c :: a ++ b)].
Qed.
