(* ===== verification/FinshState.v ===== *)
(** The data of the FinSH shell ([components/finsh]): the constants and records of
    [finsh.h], the tables and static variables of its parts as one state, and the
    memory its programs read and write. *)

From stdpp Require Import base list gmap strings.
From Stdlib Require Import ZArith Lia.
From S2P Require Import Prelude Kservice.

Open Scope Z_scope.

(** * Constants *)

Definition FINSH_NAME_MAX : Z := 16.
Definition FINSH_NODE_MAX : nat := 16.
Definition FINSH_HEAP_MAX : Z := 128.
Definition FINSH_STRING_MAX : nat := 128.
Definition FINSH_VARIABLE_MAX : nat := 8.
Definition FINSH_STACK_MAX : nat := 64.
Definition FINSH_TEXT_MAX : nat := 128.

Definition FINSH_ERROR_OK : Z := 0.
Definition FINSH_ERROR_INVALID_TOKEN : Z := 1.
Definition FINSH_ERROR_EXPECT_TYPE : Z := 2.
Definition FINSH_ERROR_UNKNOWN_TYPE : Z := 3.
Definition FINSH_ERROR_VARIABLE_EXIST : Z := 4.
Definition FINSH_ERROR_EXPECT_OPERATOR : Z := 5.
Definition FINSH_ERROR_MEMORY_FULL : Z := 6.
Definition FINSH_ERROR_UNKNOWN_NODE : Z := 8.
Definition FINSH_ERROR_EXPECT_CHAR : Z := 9.
Definition FINSH_ERROR_UNEXPECT_END : Z := 10.
Definition FINSH_ERROR_UNKNOWN_TOKEN : Z := 11.
Definition FINSH_ERROR_UNKNOWN_SYMBOL : Z := 13.
Definition FINSH_ERROR_NULL_NODE : Z := 14.

Definition FINSH_IDTYPE_VAR : Z := 1.
Definition FINSH_IDTYPE_SYSVAR : Z := 2.
Definition FINSH_IDTYPE_SYSCALL : Z := 4.
Definition FINSH_IDTYPE_ADDRESS : Z := 8.

(** [enum finsh_type] and [enum finsh_token_type]. *)
Inductive finsh_type :=
  | finsh_type_unknown | finsh_type_void | finsh_type_voidp | finsh_type_char | finsh_type_uchar
  | finsh_type_charp | finsh_type_short | finsh_type_ushort | finsh_type_shortp | finsh_type_int
  | finsh_type_uint | finsh_type_intp | finsh_type_long | finsh_type_ulong | finsh_type_longp.
#[global] Instance finsh_type_eq_dec : EqDecision finsh_type.
Proof. solve_decision. Defined.
Definition type_num (t : finsh_type) : Z :=
  match t with
  | finsh_type_unknown => 0 | finsh_type_void => 1 | finsh_type_voidp => 2 | finsh_type_char => 3
  | finsh_type_uchar => 4 | finsh_type_charp => 5 | finsh_type_short => 6 | finsh_type_ushort => 7
  | finsh_type_shortp => 8 | finsh_type_int => 9 | finsh_type_uint => 10 | finsh_type_intp => 11
  | finsh_type_long => 12 | finsh_type_ulong => 13 | finsh_type_longp => 14
  end.

Inductive finsh_token_type :=
  | finsh_token_none
  | finsh_token_type_left_paren | finsh_token_type_right_paren | finsh_token_type_comma
  | finsh_token_type_semicolon | finsh_token_type_mul | finsh_token_type_add | finsh_token_type_inc
  | finsh_token_type_sub | finsh_token_type_dec | finsh_token_type_div | finsh_token_type_mod
  | finsh_token_type_assign | finsh_token_type_and | finsh_token_type_or | finsh_token_type_xor
  | finsh_token_type_bitwise | finsh_token_type_shl | finsh_token_type_shr | finsh_token_type_comments
  | finsh_token_type_void | finsh_token_type_char | finsh_token_type_short | finsh_token_type_int
  | finsh_token_type_long | finsh_token_type_unsigned | finsh_token_type_value_char
  | finsh_token_type_value_int | finsh_token_type_value_long | finsh_token_type_value_string
  | finsh_token_type_value_null | finsh_token_type_identifier | finsh_token_type_bad
  | finsh_token_type_eof.
#[global] Instance finsh_token_type_eq_dec : EqDecision finsh_token_type.
Proof. solve_decision. Defined.

(** The node types of [finsh_node.h]. *)
Inductive node_kind :=
  | FINSH_NODE_UNKNOWN | FINSH_NODE_ID
  | FINSH_NODE_VALUE_CHAR | FINSH_NODE_VALUE_INT | FINSH_NODE_VALUE_LONG | FINSH_NODE_VALUE_STRING
  | FINSH_NODE_VALUE_NULL
  | FINSH_NODE_SYS_ADD | FINSH_NODE_SYS_SUB | FINSH_NODE_SYS_MUL | FINSH_NODE_SYS_DIV
  | FINSH_NODE_SYS_MOD | FINSH_NODE_SYS_AND | FINSH_NODE_SYS_OR | FINSH_NODE_SYS_XOR
  | FINSH_NODE_SYS_BITWISE | FINSH_NODE_SYS_SHL | FINSH_NODE_SYS_SHR | FINSH_NODE_SYS_FUNC
  | FINSH_NODE_SYS_ASSIGN | FINSH_NODE_SYS_CAST | FINSH_NODE_SYS_PREINC | FINSH_NODE_SYS_PREDEC
  | FINSH_NODE_SYS_INC | FINSH_NODE_SYS_DEC | FINSH_NODE_SYS_GETVALUE | FINSH_NODE_SYS_GETADDR
  | FINSH_NODE_SYS_NULL.
#[global] Instance node_kind_eq_dec : EqDecision node_kind.
Proof. solve_decision. Defined.

Definition FINSH_DATA_TYPE_VOID : Z := 0.
Definition FINSH_DATA_TYPE_BYTE : Z := 1.
Definition FINSH_DATA_TYPE_WORD : Z := 2.
Definition FINSH_DATA_TYPE_DWORD : Z := 3.
Definition FINSH_NODE_VALUE : Z := 0.

(** * Records *)

(** A union of a [char], a [short], a [long] and a pointer is the 32 bits it holds;
    a store of a narrow member leaves the upper bits. *)
Definition low (w : Z) (x : Z) : Z := x mod 2 ^ w.
Definition set_low (w : Z) (x v : Z) : Z := x - low w x + low w v.

(** Pointers into the node table are indices; [nd_id] is the address of the variable or
    of the entry of a table. *)
Record finsh_node := Node {
  nd_node_type : node_kind; nd_data_type : Z; nd_idtype : Z;
  nd_value : Z; nd_id : Z;
  nd_sibling : option nat; nd_child : option nat }.
Definition empty_node : finsh_node := Node FINSH_NODE_UNKNOWN 0 0 0 0 None None.

Definition set_nd_node_type (v : node_kind) (n : finsh_node) : finsh_node :=
  Node v (nd_data_type n) (nd_idtype n) (nd_value n) (nd_id n) (nd_sibling n) (nd_child n).
Definition set_nd_data_type (v : Z) (n : finsh_node) : finsh_node :=
  Node (nd_node_type n) v (nd_idtype n) (nd_value n) (nd_id n) (nd_sibling n) (nd_child n).
Definition set_nd_idtype (v : Z) (n : finsh_node) : finsh_node :=
  Node (nd_node_type n) (nd_data_type n) v (nd_value n) (nd_id n) (nd_sibling n) (nd_child n).
Definition set_nd_value (v : Z) (n : finsh_node) : finsh_node :=
  Node (nd_node_type n) (nd_data_type n) (nd_idtype n) v (nd_id n) (nd_sibling n) (nd_child n).
Definition set_nd_id (v : Z) (n : finsh_node) : finsh_node :=
  Node (nd_node_type n) (nd_data_type n) (nd_idtype n) (nd_value n) v (nd_sibling n) (nd_child n).
Definition set_nd_sibling (v : option nat) (n : finsh_node) : finsh_node :=
  Node (nd_node_type n) (nd_data_type n) (nd_idtype n) (nd_value n) (nd_id n) v (nd_child n).
Definition set_nd_child (v : option nat) (n : finsh_node) : finsh_node :=
  Node (nd_node_type n) (nd_data_type n) (nd_idtype n) (nd_value n) (nd_id n) (nd_sibling n) v.

(** [name] holds [FINSH_NAME_MAX + 1] bytes; the value of a variable is in memory. *)
Record finsh_var := Var { var_name : list Z; var_type : finsh_type }.
Definition empty_var : finsh_var := Var (replicate 17 0) finsh_type_unknown.

(** Entries of the tables of system variables and system calls; names are C strings. *)
Record finsh_sysvar := Sysvar { sysvar_name : list Z; sysvar_type : finsh_type; sysvar_var : Z }.
Record finsh_syscall := Syscall { syscall_name : list Z; syscall_func : Z }.

Record finsh_token := Token {
  tk_eof : bool; tk_replay : bool; tk_position : nat; tk_current : finsh_token_type;
  tk_value : Z; tk_string : list Z; tk_line : list Z }.

Definition set_tk_eof (v : bool) (t : finsh_token) : finsh_token :=
  Token v (tk_replay t) (tk_position t) (tk_current t) (tk_value t) (tk_string t) (tk_line t).
Definition set_tk_replay (v : bool) (t : finsh_token) : finsh_token :=
  Token (tk_eof t) v (tk_position t) (tk_current t) (tk_value t) (tk_string t) (tk_line t).
Definition set_tk_position (v : nat) (t : finsh_token) : finsh_token :=
  Token (tk_eof t) (tk_replay t) v (tk_current t) (tk_value t) (tk_string t) (tk_line t).
Definition set_tk_current (v : finsh_token_type) (t : finsh_token) : finsh_token :=
  Token (tk_eof t) (tk_replay t) (tk_position t) v (tk_value t) (tk_string t) (tk_line t).
Definition set_tk_value (v : Z) (t : finsh_token) : finsh_token :=
  Token (tk_eof t) (tk_replay t) (tk_position t) (tk_current t) v (tk_string t) (tk_line t).
Definition set_tk_string (v : list Z) (t : finsh_token) : finsh_token :=
  Token (tk_eof t) (tk_replay t) (tk_position t) (tk_current t) (tk_value t) v (tk_line t).

(** What the linker and the application place: the addresses of [global_variable] and
    [finsh_heap], and the tables of system variables and system calls with the addresses
    of their entries. *)
Class finsh_image := FinshImage {
  global_variable : Z;
  finsh_heap : Z;
  sysvar_table : list (Z * finsh_sysvar);
  syscall_table : list (Z * finsh_syscall) }.

(** * The state *)

(** [f_mem] holds the bytes FinSH programs reach by address: the values of variables, the
    heap with its block headers, the system variables.  Name and type of a variable are in
    [f_vars], text and stack of the machine in [f_text] and [f_stack]: a program that
    reaches them through a pointer faults in the model. *)
Record finsh := Finsh {
  f_nodes : list finsh_node;
  f_vars : list finsh_var;
  f_sysvar_list : list (Z * finsh_sysvar);
  f_syscall_list : list (Z * finsh_syscall);
  f_errno : Z;
  f_mem : gmap Z Z;
  f_free_list : Z;
  f_allocate_list : Z;
  f_token : finsh_token;
  f_root : option nat;
  f_text : list Z;
  f_compile_pc : nat;
  f_stack : list Z;
  f_sp : Z;
  f_pc : nat }.

Definition set_f_nodes v s := Finsh v (f_vars s) (f_sysvar_list s) (f_syscall_list s) (f_errno s)
  (f_mem s) (f_free_list s) (f_allocate_list s) (f_token s) (f_root s) (f_text s)
  (f_compile_pc s) (f_stack s) (f_sp s) (f_pc s).
Definition set_f_vars v s := Finsh (f_nodes s) v (f_sysvar_list s) (f_syscall_list s) (f_errno s)
  (f_mem s) (f_free_list s) (f_allocate_list s) (f_token s) (f_root s) (f_text s)
  (f_compile_pc s) (f_stack s) (f_sp s) (f_pc s).
Definition set_f_sysvar_list v s := Finsh (f_nodes s) (f_vars s) v (f_syscall_list s) (f_errno s)
  (f_mem s) (f_free_list s) (f_allocate_list s) (f_token s) (f_root s) (f_text s)
  (f_compile_pc s) (f_stack s) (f_sp s) (f_pc s).
Definition set_f_syscall_list v s := Finsh (f_nodes s) (f_vars s) (f_sysvar_list s) v (f_errno s)
  (f_mem s) (f_free_list s) (f_allocate_list s) (f_token s) (f_root s) (f_text s)
  (f_compile_pc s) (f_stack s) (f_sp s) (f_pc s).
Definition set_f_errno v s := Finsh (f_nodes s) (f_vars s) (f_sysvar_list s) (f_syscall_list s) v
  (f_mem s) (f_free_list s) (f_allocate_list s) (f_token s) (f_root s) (f_text s)
  (f_compile_pc s) (f_stack s) (f_sp s) (f_pc s).
Definition set_f_mem v s := Finsh (f_nodes s) (f_vars s) (f_sysvar_list s) (f_syscall_list s)
  (f_errno s) v (f_free_list s) (f_allocate_list s) (f_token s) (f_root s) (f_text s)
  (f_compile_pc s) (f_stack s) (f_sp s) (f_pc s).
Definition set_f_free_list v s := Finsh (f_nodes s) (f_vars s) (f_sysvar_list s) (f_syscall_list s)
  (f_errno s) (f_mem s) v (f_allocate_list s) (f_token s) (f_root s) (f_text s)
  (f_compile_pc s) (f_stack s) (f_sp s) (f_pc s).
Definition set_f_allocate_list v s := Finsh (f_nodes s) (f_vars s) (f_sysvar_list s)
  (f_syscall_list s) (f_errno s) (f_mem s) (f_free_list s) v (f_token s) (f_root s)
  (f_text s) (f_compile_pc s) (f_stack s) (f_sp s) (f_pc s).
Definition set_f_token v s := Finsh (f_nodes s) (f_vars s) (f_sysvar_list s) (f_syscall_list s)
  (f_errno s) (f_mem s) (f_free_list s) (f_allocate_list s) v (f_root s) (f_text s)
  (f_compile_pc s) (f_stack s) (f_sp s) (f_pc s).
Definition set_f_root v s := Finsh (f_nodes s) (f_vars s) (f_sysvar_list s) (f_syscall_list s)
  (f_errno s) (f_mem s) (f_free_list s) (f_allocate_list s) (f_token s) v (f_text s)
  (f_compile_pc s) (f_stack s) (f_sp s) (f_pc s).
Definition set_f_text v s := Finsh (f_nodes s) (f_vars s) (f_sysvar_list s) (f_syscall_list s)
  (f_errno s) (f_mem s) (f_free_list s) (f_allocate_list s) (f_token s) (f_root s) v
  (f_compile_pc s) (f_stack s) (f_sp s) (f_pc s).
Definition set_f_compile_pc v s := Finsh (f_nodes s) (f_vars s) (f_sysvar_list s)
  (f_syscall_list s) (f_errno s) (f_mem s) (f_free_list s) (f_allocate_list s)
  (f_token s) (f_root s) (f_text s) v (f_stack s) (f_sp s) (f_pc s).
Definition set_f_stack v s := Finsh (f_nodes s) (f_vars s) (f_sysvar_list s) (f_syscall_list s)
  (f_errno s) (f_mem s) (f_free_list s) (f_allocate_list s) (f_token s) (f_root s)
  (f_text s) (f_compile_pc s) v (f_sp s) (f_pc s).
Definition set_f_sp v s := Finsh (f_nodes s) (f_vars s) (f_sysvar_list s) (f_syscall_list s)
  (f_errno s) (f_mem s) (f_free_list s) (f_allocate_list s) (f_token s) (f_root s)
  (f_text s) (f_compile_pc s) (f_stack s) v (f_pc s).
Definition set_f_pc v s := Finsh (f_nodes s) (f_vars s) (f_sysvar_list s) (f_syscall_list s)
  (f_errno s) (f_mem s) (f_free_list s) (f_allocate_list s) (f_token s) (f_root s)
  (f_text s) (f_compile_pc s) (f_stack s) (f_sp s) v.

(** FinSH computations. *)
Abbreviation F := (SM finsh).

Definition getf {A} (f : finsh → A) : F A := s ← get; mret (f s).
Definition finsh_error_set (type : Z) : F unit := modify (set_f_errno type).
Definition finsh_errno : F Z := getf f_errno.
Definition finsh_error_init : F unit := modify (set_f_errno FINSH_ERROR_OK).

(** * Memory *)

(** Little-endian access of [w] bytes; an access that is not aligned is trapped. *)
Fixpoint read_bytes (m : gmap Z Z) (a : Z) (w : nat) : option Z :=
  match w with
  | O => Some 0
  | S w' => b ← m !! a; r ← read_bytes m (a + 1) w'; Some (b + 2 ^ 8 * r)
  end.
Fixpoint write_bytes (m : gmap Z Z) (a : Z) (w : nat) (v : Z) : option (gmap Z Z) :=
  match w with
  | O => Some m
  | S w' => _ ← m !! a; write_bytes (<[a := v mod 2 ^ 8]> m) (a + 1) w' (v / 2 ^ 8)
  end.
Definition load (w : nat) (a : Z) : F Z :=
  if a mod Z.of_nat w =? 0 then m ← getf f_mem; of_option BadPointer (read_bytes m a w)
  else fail BadPointer.
Definition store (w : nat) (a v : Z) : F unit :=
  if a mod Z.of_nat w =? 0 then
    m ← getf f_mem; m' ← of_option BadPointer (write_bytes m a w v); modify (set_f_mem m')
  else fail BadPointer.
(** [memset(p, 0, n)] on memory. *)
Fixpoint zero_bytes (m : gmap Z Z) (a : Z) (n : nat) : gmap Z Z :=
  match n with O => m | S n' => zero_bytes (<[a := 0]> m) (a + 1) n' end.

(** The comparisons of the C library, as far as the code looks at their results: are two
    strings equal (within the first [n] characters). *)
Definition strcmp_eq (a b : list Z) : F bool :=
  r ← of_option BadPointer (rt_strcmp a b); mret (r =? 0).
Definition strncmp_eq (a b : list Z) (n : Z) : F bool :=
  r ← of_option BadPointer (rt_strncmp a b (Z.to_nat n)); mret (r =? 0).
Definition strncpy (dst src : list Z) (n : Z) : F (list Z) :=
  of_option BadPointer (rt_strncpy dst src (Z.to_nat n)).
Definition strlen (a : list Z) : F Z := of_option BadPointer (rt_strlen a).
