(* ===== verification/FinshVar.v ===== *)
(** The variables, system variables and system calls of FinSH: [finsh_var.c], and the
    tables of [finsh_vm.c] and [shell.c]. *)

From stdpp Require Import base list gmap.
From Stdlib Require Import ZArith Lia.
From S2P Require Import Prelude Kservice FinshState.

Open Scope Z_scope.

Section var.
Context `{img : finsh_image}.

(** [sizeof(struct finsh_var)], and the address of the value in a [struct finsh_var]: the
    name takes 17 bytes, the type one, the value is aligned. *)
Definition sizeof_var : Z := 24.
Definition var_addr (i : nat) : Z := global_variable + sizeof_var * Z.of_nat i.
Definition var_value (p : Z) : Z := p + 20.
(** The index of the variable at an address. *)
Definition var_index (p : Z) : option nat :=
  let d := p - global_variable in
  if (0 <=? d) && (d mod sizeof_var =? 0) && (d / sizeof_var <? Z.of_nat FINSH_VARIABLE_MAX)
  then Some (Z.to_nat (d / sizeof_var)) else None.

Definition var_zero (m : gmap Z Z) (i : nat) : gmap Z Z := zero_bytes m (var_value (var_addr i)) 4.

Definition finsh_var_init : F Z :=
  modify (set_f_vars (replicate FINSH_VARIABLE_MAX empty_var));;
  modify (λ s, set_f_mem (foldl var_zero (f_mem s) (seq 0 FINSH_VARIABLE_MAX)) s);;
  mret 0.

(** The scan of [finsh_var_insert]: [None] when there is a variable of the same name,
    otherwise the first unused entry. *)
Fixpoint insert_scan (vars : list finsh_var) (i : nat) (empty : option nat) (name : list Z) :
    F (option (option nat)) :=
  match vars with
  | [] => mret (Some empty)
  | v :: vars =>
    e ← strncmp_eq (var_name v) name FINSH_NAME_MAX;
    if (e : bool) then mret None
    else
      let empty := match empty with
                   | None => if decide (var_type v = finsh_type_unknown) then Some i else None
                   | Some j => Some j
                   end in
      insert_scan vars (S i) empty name
  end.
Definition finsh_var_insert (name : list Z) (type : finsh_type) : F Z :=
  vars ← getf f_vars;
  r ← insert_scan vars 0 None name;
  match r with
  | Some (Some empty) =>
    v ← of_option BadPointer (vars !! empty);
    n ← strncpy (var_name v) name FINSH_NAME_MAX;
    modify (set_f_vars (<[empty := Var n type]> vars));;
    mret (Z.of_nat empty)
  | _ => mret (- 1)
  end.

(** The scan of [finsh_var_delete] and [finsh_var_lookup]. *)
Fixpoint lookup_scan (vars : list finsh_var) (i : nat) (name : list Z) : F (option nat) :=
  match vars with
  | [] => mret None
  | v :: vars =>
    e ← strncmp_eq (var_name v) name FINSH_NAME_MAX;
    if (e : bool) then mret (Some i) else lookup_scan vars (S i) name
  end.
Definition finsh_var_delete (name : list Z) : F Z :=
  vars ← getf f_vars;
  r ← lookup_scan vars 0 name;
  match r with
  | None => mret (- 1)
  | Some i =>
    modify (set_f_vars (<[i := empty_var]> vars));;
    modify (λ s, set_f_mem (var_zero (f_mem s) i) s);;
    mret 0
  end.
Definition finsh_var_lookup (name : list Z) : F (option Z) :=
  vars ← getf f_vars;
  r ← lookup_scan vars 0 name;
  mret (var_addr <$> r).

(** The block for the item (and the copy of the name) come from the heap of the kernel. *)
Definition finsh_sysvar_append (name : list Z) (type : finsh_type) (var_addr : Z)
    (item : option Z) (strdup : bool) : F unit :=
  match item with
  | None => mret tt
  | Some a =>
    modify (λ s, set_f_sysvar_list
      ((a + 4, Sysvar (if strdup then name else []) type var_addr) :: f_sysvar_list s) s)
  end.
Definition finsh_syscall_append (name : list Z) (func : Z) (item : option Z) (strdup : bool) : F unit :=
  match item with
  | None => mret tt
  | Some a =>
    modify (λ s, set_f_syscall_list
      ((a + 4, Syscall (if strdup then name else []) func) :: f_syscall_list s) s)
  end.

(** A table is compared by [strcmp], the list of appended items by [strncmp] with the
    length of the name that is looked for. *)
Fixpoint table_scan {A} (nm : A → list Z) (l : list (Z * A)) (name : list Z) : F (option Z) :=
  match l with
  | [] => mret None
  | (a, x) :: l =>
    e ← strcmp_eq (nm x) name;
    if (e : bool) then mret (Some a) else table_scan nm l name
  end.
Fixpoint list_scan {A} (nm : A → list Z) (l : list (Z * A)) (name : list Z) : F (option Z) :=
  match l with
  | [] => mret None
  | (a, x) :: l =>
    n ← strlen name;
    e ← strncmp_eq (nm x) name n;
    if (e : bool) then mret (Some a) else list_scan nm l name
  end.
Definition finsh_sysvar_lookup (name : list Z) : F (option Z) :=
  r ← table_scan sysvar_name sysvar_table name;
  match r with
  | Some a => mret (Some a)
  | None => l ← getf f_sysvar_list; list_scan sysvar_name l name
  end.
Definition finsh_syscall_lookup (name : list Z) : F (option Z) :=
  r ← table_scan syscall_name syscall_table name;
  match r with
  | Some a => mret (Some a)
  | None => l ← getf f_syscall_list; list_scan syscall_name l name
  end.

(** The entry behind a pointer. *)
Definition entry_at {A} (a : Z) (l : list (Z * A)) : option A :=
  (λ p, p.2.2) <$> list_find (λ p, p.1 = a) l.
End var.
