(* ===== verification/FinshHeap.v ===== *)
(** The heap of FinSH for string constants ([finsh_heap.c]): first fit over a list of free
    blocks in the order of their addresses, and a collector that frees the blocks no
    variable points to. *)

From stdpp Require Import base list gmap.
From Stdlib Require Import ZArith Lia.
From S2P Require Import Prelude Kservice FinshState FinshVar.

Open Scope Z_scope.

Section heap.
Context `{img : finsh_image}.

(** [struct finsh_block_header]: [length] and [next]; the data follows. *)
Definition sizeof_header : Z := 8.
Definition get_length (h : Z) : F Z := load 4 h.
Definition get_next (h : Z) : F Z := load 4 (h + 4).
Definition set_length (h v : Z) : F unit := store 4 h v.
Definition set_next (h v : Z) : F unit := store 4 (h + 4) v.
Definition finsh_block_get_header (data : Z) : Z := data - sizeof_header.
Definition finsh_block_get_data (header : Z) : Z := header + sizeof_header.
Definition HEAP_ALIGN_SIZE (size : Z) : Z := Z.land (u32 (size + 3)) (Z.lnot 3).

(** The two list heads. *)
Inductive hlist := Free | Allocate.
Definition get_head (l : hlist) : F Z :=
  match l with Free => getf f_free_list | Allocate => getf f_allocate_list end.
Definition set_head (l : hlist) (v : Z) : F unit :=
  match l with Free => modify (set_f_free_list v) | Allocate => modify (set_f_allocate_list v) end.

(** Every list of blocks is shorter than the heap. *)
Definition heap_fuel : nat := Z.to_nat FINSH_HEAP_MAX.

Definition finsh_heap_init : F Z :=
  modify (λ s, set_f_mem (zero_bytes (f_mem s) finsh_heap (Z.to_nat FINSH_HEAP_MAX)) s);;
  set_head Free finsh_heap;;
  set_length finsh_heap (FINSH_HEAP_MAX - sizeof_header);;
  set_next finsh_heap 0;;
  set_head Allocate 0;;
  mret 0.

(** The loop that looks for the insert point behind [node]. *)
Fixpoint insert_point (fuel : nat) (node header : Z) : F Z :=
  match fuel with
  | O => fail OutOfFuel
  | S fuel =>
    next ← get_next node;
    if (header <? next) || (next =? 0) then mret node else insert_point fuel next header
  end.
Definition finsh_block_insert (list : hlist) (header : Z) : F unit :=
  node ← get_head list;
  if node =? 0 then set_head list header
  else if header <? node then set_next header node;; set_head list header
  else
    node ← insert_point heap_fuel node header;
    next ← get_next node;
    (if negb (next =? 0) then set_next header next else mret tt);;
    set_next node header.

(** The loop that looks for the block before [header]. *)
Fixpoint find_prev (fuel : nat) (node header : Z) : F Z :=
  match fuel with
  | O => fail OutOfFuel
  | S fuel =>
    if node =? 0 then mret 0
    else next ← get_next node; if next =? header then mret node else find_prev fuel next header
  end.
Definition finsh_block_remove (list : hlist) (header : Z) : F unit :=
  node ← get_head list;
  if node =? header then
    next ← get_next header; set_head list next;; set_next header 0
  else
    node ← find_prev heap_fuel node header;
    if node =? 0 then mret tt else next ← get_next header; set_next node next.

Definition finsh_block_split (header size : Z) : F unit :=
  let next := header + sizeof_header + size in
  length ← get_length header;
  set_length next (u32 (length - sizeof_header - size));;
  set_length header size;;
  n ← get_next header;
  set_next next n;;
  set_next header next.

Definition finsh_block_merge (list : hlist) (header : Z) : F unit :=
  next_node ← get_next header;
  head ← get_head list;
  prev_node ← (if head =? header then mret 0 else find_prev heap_fuel head header);
  length ← get_length header;
  let close_next := negb (next_node =? 0) && (header + length + sizeof_header =? next_node) in
  prev_length ← (if prev_node =? 0 then mret 0 else get_length prev_node);
  if negb (prev_node =? 0) && (prev_node + prev_length + sizeof_header =? header) then
    if close_next then
      next_length ← get_length next_node;
      set_length prev_node (u32 (prev_length + length + next_length + 2 * sizeof_header));;
      n ← get_next next_node;
      set_next prev_node n
    else
      set_length prev_node (u32 (prev_length + length + sizeof_header));;
      n ← get_next header;
      set_next prev_node n
  else if close_next then
    next_length ← get_length next_node;
    set_length header (u32 (length + next_length + sizeof_header));;
    n ← get_next next_node;
    set_next header n
  else mret tt.

Definition finsh_heap_free (ptr : Z) : F unit :=
  let header := finsh_block_get_header ptr in
  finsh_block_remove Allocate header;;
  finsh_block_insert Free header;;
  finsh_block_merge Free header.

(** Does a variable hold the address [ptr]? *)
Fixpoint var_points (vars : list finsh_var) (i : nat) (ptr : Z) : F bool :=
  match vars with
  | [] => mret false
  | v :: vars =>
    if decide (var_type v = finsh_type_unknown) then var_points vars (S i) ptr
    else p ← load 4 (var_value (var_addr i)); if p =? ptr then mret true else var_points vars (S i) ptr
  end.
Fixpoint gc_loop (fuel : nat) (header : Z) : F unit :=
  match fuel with
  | O => fail OutOfFuel
  | S fuel =>
    if header =? 0 then mret tt
    else
      vars ← getf f_vars;
      used ← var_points vars 0 (finsh_block_get_data header);
      next ← get_next header;
      (if (used : bool) then mret tt else finsh_heap_free (finsh_block_get_data header));;
      gc_loop fuel next
  end.
Definition finsh_heap_gc : F unit := head ← get_head Allocate; gc_loop heap_fuel head.

(** The first fit: [test] is the condition on which the loop goes on. *)
Fixpoint first_fit (fuel : nat) (test : Z → bool) (header : Z) : F Z :=
  match fuel with
  | O => fail OutOfFuel
  | S fuel =>
    if header =? 0 then mret 0
    else
      length ← get_length header;
      if test length then next ← get_next header; first_fit fuel test next else mret header
  end.
Definition finsh_heap_allocate (size : Z) : F Z :=
  let size := HEAP_ALIGN_SIZE size in
  head ← get_head Free;
  header ← first_fit heap_fuel (λ length, length <=? size + sizeof_header) head;
  header ← (if header =? 0 then
              finsh_heap_gc;;
              head ← get_head Free;
              first_fit heap_fuel (λ length, length <? size + sizeof_header) head
            else mret header);
  if header =? 0 then mret 0
  else
    finsh_block_split header size;;
    finsh_block_remove Free header;;
    set_next header 0;;
    finsh_block_insert Allocate header;;
    modify (λ s, set_f_mem (zero_bytes (f_mem s) (finsh_block_get_data header) (Z.to_nat size)) s);;
    mret (finsh_block_get_data header).
End heap.
