(* ===== verification/FinshNode.v ===== *)
(** The nodes of the syntax tree of FinSH ([finsh_node.c]): a table of sixteen. *)

From stdpp Require Import base list gmap.
From Stdlib Require Import ZArith Lia.
From S2P Require Import Prelude Kservice FinshState FinshVar FinshHeap.

Open Scope Z_scope.

Section node.
Context `{img : finsh_image}.

Definition finsh_node_init : F Z :=
  modify (set_f_nodes (replicate FINSH_NODE_MAX empty_node));; mret 0.

Definition get_node (i : nat) : F finsh_node := l ← getf f_nodes; of_option BadPointer (l !! i).
Definition upd_node (i : nat) (f : finsh_node → finsh_node) : F unit :=
  n ← get_node i; modify (λ s, set_f_nodes (<[i := f n]> (f_nodes s)) s).

(** The first entry of the table that is free. *)
Definition free_entry (l : list finsh_node) : option nat :=
  fst <$> list_find (λ n, nd_node_type n = FINSH_NODE_UNKNOWN) l.
Definition finsh_node_allocate (type : node_kind) : F (option nat) :=
  l ← getf f_nodes;
  match free_entry l with
  | None => mret None
  | Some i => upd_node i (set_nd_node_type type);; mret (Some i)
  end.

Definition finsh_node_new_id (id : list Z) : F (option nat) :=
  var ← finsh_var_lookup id;
  symbol ← (match var with
            | Some a => mret (Some (a, FINSH_IDTYPE_VAR))
            | None =>
              sysvar ← finsh_sysvar_lookup id;
              match sysvar with
              | Some a => mret (Some (a, FINSH_IDTYPE_SYSVAR))
              | None =>
                syscall ← finsh_syscall_lookup id;
                mret (match syscall with Some a => Some (a, FINSH_IDTYPE_SYSCALL) | None => None end)
              end
            end);
  match symbol with
  | Some (a, type) =>
    node ← finsh_node_allocate FINSH_NODE_ID;
    match node with
    | None => finsh_error_set FINSH_ERROR_MEMORY_FULL;; mret None
    | Some i =>
      upd_node i (set_nd_id a);;
      upd_node i (set_nd_idtype type);;
      mret (Some i)
    end
  | None => finsh_error_set FINSH_ERROR_UNKNOWN_SYMBOL;; mret None
  end.

(** The common shape of [finsh_node_new_char], [_int], [_long] and [_ptr]: [f] fills the
    value. *)
Definition new_value (type : node_kind) (f : finsh_node → finsh_node) : F (option nat) :=
  node ← finsh_node_allocate type;
  match node with
  | None => finsh_error_set FINSH_ERROR_MEMORY_FULL;; mret None
  | Some i => upd_node i f;; mret (Some i)
  end.
Definition finsh_node_new_char (c : Z) : F (option nat) :=
  new_value FINSH_NODE_VALUE_CHAR (λ n, set_nd_value (set_low 8 (nd_value n) c) n).
Definition finsh_node_new_int (i : Z) : F (option nat) :=
  new_value FINSH_NODE_VALUE_INT (set_nd_value (u32 i)).
Definition finsh_node_new_long (l : Z) : F (option nat) :=
  new_value FINSH_NODE_VALUE_LONG (set_nd_value (u32 l)).
Definition finsh_node_new_ptr (ptr : Z) : F (option nat) :=
  new_value FINSH_NODE_VALUE_NULL (set_nd_value ptr).

(** [strncpy] and the store of the terminating zero into the heap. *)
Fixpoint copy_string (p : Z) (s : list Z) : F unit :=
  match s with
  | [] => mret tt
  | c :: s => store 1 p c;; copy_string (p + 1) s
  end.
Definition finsh_node_new_string (s : list Z) : F (option nat) :=
  node ← finsh_node_allocate FINSH_NODE_VALUE_STRING;
  match node with
  | None => finsh_error_set FINSH_ERROR_MEMORY_FULL;; mret None
  | Some i =>
    n ← strlen s;
    ptr ← finsh_heap_allocate (n + 1);
    upd_node i (set_nd_value ptr);;
    copy_string ptr (take (Z.to_nat n) s);;
    store 1 (ptr + n) 0;;
    mret (Some i)
  end.
End node.
