(* ===== verification/FinshToken.v ===== *)
(** The tokens of FinSH ([finsh_token.c]). *)

From stdpp Require Import base list gmap strings.
From Stdlib Require Import ZArith Lia.
From S2P Require Import Prelude Kservice Printf FinshState.

Open Scope Z_scope.

(** * Characters *)

Definition is_alpha (ch : Z) : bool := u32 (Z.lor ch 0x20 - 97) <? 26.
Definition is_digit (ch : Z) : bool := (48 <=? ch) && (ch <=? 57).
Definition is_xdigit (ch : Z) : bool := is_digit ch || (u32 (Z.lor ch 0x20 - 97) <? 6).
Definition is_odigit (ch : Z) : bool := (48 <=? ch) && (ch <=? 55).
Definition is_bdigit (ch : Z) : bool := (ch =? 48) || (ch =? 49).
Definition is_separator (ch : Z) : bool :=
  negb (((97 <=? ch) && (ch <=? 122)) || ((65 <=? ch) && (ch <=? 90)) || is_digit ch || (ch =? 95)).

(** The keywords, as C strings. *)
Definition finsh_name_table : list (list Z * finsh_token_type) := [
  (text "void" ++ [0], finsh_token_type_void); (text "char" ++ [0], finsh_token_type_char);
  (text "short" ++ [0], finsh_token_type_short); (text "int" ++ [0], finsh_token_type_int);
  (text "long" ++ [0], finsh_token_type_long); (text "unsigned" ++ [0], finsh_token_type_unsigned);
  (text "NULL" ++ [0], finsh_token_type_value_null); (text "null" ++ [0], finsh_token_type_value_null) ].

(** * The scanner *)

Definition upd_token (f : finsh_token → finsh_token) : F unit :=
  modify (λ s, set_f_token (f (f_token s)) s).
Definition is_eof : F bool := getf (λ s, tk_eof (f_token s)).
Definition set_current_token (t : finsh_token_type) : F unit := upd_token (set_tk_current t).

(** [line] holds the characters before the terminating zero. *)
Definition finsh_token_init (line : list Z) : F unit :=
  modify (set_f_token (Token false false 0 finsh_token_none 0 (replicate FINSH_STRING_MAX 0) line)).
Definition finsh_token_replay : F unit := upd_token (set_tk_replay true).

Definition token_next_char : F Z :=
  t ← getf f_token;
  if tk_eof t then mret 0
  else
    match tk_line t !! tk_position t with
    | Some ch =>
      if ch =? 10 then upd_token (λ t, set_tk_position 0 (set_tk_eof true t));; mret 0
      else upd_token (set_tk_position (S (tk_position t)));; mret ch
    | None => upd_token (λ t, set_tk_position 0 (set_tk_eof true t));; mret 0
    end.
Definition token_prev_char : F unit :=
  t ← getf f_token;
  if tk_eof t then mret tt else upd_token (set_tk_position (pred (tk_position t))).

(** [self->string[k] = v]. *)
Definition put_string (k : nat) (v : Z) : F unit :=
  if (k <? FINSH_STRING_MAX)%nat then upd_token (λ t, set_tk_string (<[k := v]> (tk_string t)) t)
  else fail BadPointer.

(** The loops over the characters of the line take one unit of fuel per character. *)
Definition line_fuel : F nat := getf (λ s, S (length (tk_line (f_token s)))).

(** The loop of [token_get_string]: the number of characters stored. *)
Fixpoint get_string_loop (fuel : nat) (p : nat) (ch : Z) : F nat :=
  eof ← is_eof;
  if negb (is_separator ch) && negb eof then
    match fuel with
    | O => fail OutOfFuel
    | S fuel => put_string p ch;; ch ← token_next_char; get_string_loop fuel (S p) ch
    end
  else mret p.
Definition token_get_string : F Z :=
  ch ← token_next_char;
  eof ← is_eof;
  if (eof : bool) then mret (- 1)
  else
    put_string 0 0;;
    if is_digit ch then token_prev_char;; mret (- 1)
    else
      fuel ← line_fuel;
      p ← get_string_loop fuel 0 ch;
      upd_token (set_tk_eof false);;
      token_prev_char;;
      put_string p 0;;
      mret 0.

Fixpoint trim_loop (fuel : nat) : F unit :=
  match fuel with
  | O => fail OutOfFuel
  | S fuel =>
    ch ← token_next_char;
    if (ch =? 32) || (ch =? 9) || (ch =? 13) then trim_loop fuel else mret tt
  end.
Definition token_trim_space : F unit :=
  fuel ← line_fuel; trim_loop fuel;; token_prev_char.

Fixpoint match_name (l : list (list Z * finsh_token_type)) (str : list Z) : F bool :=
  match l with
  | [] => mret false
  | (name, type) :: l =>
    e ← strcmp_eq name str;
    if (e : bool) then set_current_token type;; mret true else match_name l str
  end.
Definition token_match_name (str : list Z) : F bool := match_name finsh_name_table str.

(** [while (test(ch)) { *p++ = ch; ch = next }]: the characters and the one behind. *)
Fixpoint collect (fuel : nat) (test : Z → bool) (ch : Z) (acc : list Z) : F (list Z * Z) :=
  if test ch then
    match fuel with
    | O => fail OutOfFuel
    | S fuel => c ← token_next_char; collect fuel test c (acc ++ [ch])
    end
  else mret (acc, ch).

(** The loop for a character constant reads the next digit before it stores it. *)
Fixpoint char_digits (fuel : nat) (n : nat) (ch : Z) : F nat :=
  if is_digit ch then
    match fuel with
    | O => fail OutOfFuel
    | S fuel => ch ← token_next_char; char_digits fuel (S n) ch
    end
  else mret n.
(** The store of the terminating zero and of what precedes it into a buffer of [size]. *)
Definition buffer_check (n size : nat) : F unit := if (n <? size)%nat then mret tt else fail BadPointer.
Definition token_proc_char : F Z :=
  ch ← token_next_char;
  ch ← (if ch =? 92 then
          ch ← token_next_char;
          if ch =? 110 then mret 10
          else if ch =? 116 then mret 9
          else if ch =? 118 then mret 11
          else if ch =? 98 then mret 8
          else if ch =? 114 then mret 13
          else if ch =? 92 then mret 92
          else if ch =? 39 then mret 39
          else
            fuel ← line_fuel;
            n ← char_digits fuel 0 ch;
            token_prev_char;;
            buffer_check n 4;;
            mret 0 (* [atoi(p)] of the terminating zero at [p] *)
        else mret ch);
  c ← token_next_char;
  if negb (c =? 39) then token_prev_char;; finsh_error_set FINSH_ERROR_EXPECT_CHAR;; mret ch
  else mret ch.

Fixpoint escape_digits (fuel : nat) (test : Z → bool) (base : Z) (value : Z → Z) (result ch : Z) : F Z :=
  if test ch then
    match fuel with
    | O => fail OutOfFuel
    | S fuel =>
      c ← token_next_char; escape_digits fuel test base value (i32 (result * base + value ch)) c
    end
  else mret result.
Definition xdigit_value (ch : Z) : Z := if ch <? 65 then ch - 48 else Z.lor ch 0x20 - 97 + 10.
Definition token_proc_escape : F Z :=
  ch ← token_next_char;
  if ch =? 110 then mret 10
  else if ch =? 116 then mret 9
  else if ch =? 118 then mret 11
  else if ch =? 98 then mret 8
  else if ch =? 114 then mret 13
  else if ch =? 102 then mret 12
  else if ch =? 97 then mret 7
  else if ch =? 34 then mret 34
  else
    fuel ← line_fuel;
    if (ch =? 120) || (ch =? 88) then
      ch ← token_next_char;
      r ← escape_digits fuel is_xdigit 16 xdigit_value 0 ch;
      token_prev_char;;
      mret r
    else if is_odigit ch then
      r ← escape_digits fuel is_odigit 8 (λ c, c - 48) 0 ch;
      token_prev_char;;
      mret r
    else mret 0.

(** The loop of [token_proc_string]; [fuel] is [FINSH_STRING_MAX - (p - string)]. *)
Fixpoint proc_string (fuel : nat) (p : nat) : F unit :=
  match fuel with
  | O => mret tt
  | S fuel =>
    ch ← token_next_char;
    eof ← is_eof;
    if (eof : bool) then finsh_error_set FINSH_ERROR_UNEXPECT_END
    else if ch =? 92 then
      ch ← token_proc_escape; put_string p (u8 ch);; proc_string fuel (S p)
    else if ch =? 34 then put_string p 0
    else put_string p ch;; proc_string fuel (S p)
  end.
Definition token_proc_string : F unit := proc_string FINSH_STRING_MAX 0.

(** A digit of [token_spec_number], and its shift into the two words of [bn]. *)
Definition spec_digit (c : Z) : Z :=
  if (97 <=? c) && (c <=? 102) then c - 97 + 10
  else if (65 <=? c) && (c <=? 70) then c - 65 + 10
  else c - 48.
Definition spec_shift (shift : Z) (bn : Z * Z) (c : Z) : Z * Z :=
  let '(b0, b1) := bn in
  let t := u32 (spec_digit c) in
  let b0' := Z.lor (u32 (Z.shiftl b0 shift)) t in
  let t := Z.shiftr b0 (32 - shift) in
  (b0', Z.lor (u32 (Z.shiftl b1 shift)) t).
Definition token_spec_number (str : list Z) (b : Z) : Z :=
  let shift := if b =? 16 then 4 else if b =? 8 then 3 else 1 in
  i32 (foldl (spec_shift shift) (0, 0) str).1.

(** [while (is_digit(ch)) value = value * 10 + (ch - '0')]. *)
Fixpoint decimal (fuel : nat) (value ch : Z) : F (Z * Z) :=
  if is_digit ch then
    match fuel with
    | O => fail OutOfFuel
    | S fuel => c ← token_next_char; decimal fuel (i32 (value * 10 + (ch - 48))) c
    end
  else mret (value, ch).
Definition set_int_value (v : Z) : F unit := upd_token (set_tk_value (u32 v)).
Definition number_suffix (ch : Z) : F unit :=
  if (ch =? 108) || (ch =? 76) then set_current_token finsh_token_type_value_long else token_prev_char.
Definition spec_number (b : Z) (test : Z → bool) (ch : Z) : F unit :=
  fuel ← line_fuel;
  '(buf, ch) ← collect fuel test ch [];
  buffer_check (length buf) 128;;
  set_int_value (token_spec_number buf b);;
  set_current_token finsh_token_type_value_int;;
  number_suffix ch.
Definition token_proc_number : F unit :=
  ch ← token_next_char;
  if ch =? 48 then
    ch ← token_next_char;
    if (ch =? 120) || (ch =? 88) then
      ch ← token_next_char; spec_number 16 (λ c, is_digit c || is_alpha c) ch
    else if (ch =? 98) || (ch =? 66) then
      ch ← token_next_char; spec_number 2 is_bdigit ch
    else if is_odigit ch then spec_number 8 is_odigit ch
    else
      token_prev_char;;
      set_int_value 0;;
      set_current_token finsh_token_type_value_int
  else
    fuel ← line_fuel;
    '(value, ch) ← decimal fuel 0 ch;
    set_int_value value;;
    set_current_token finsh_token_type_value_int;;
    number_suffix ch.

(** A character that may be doubled: [yes] when the next one is [c], otherwise it is put
    back. *)
Definition doubled (c : Z) (yes no : finsh_token_type) : F unit :=
  ch ← token_next_char;
  if ch =? c then set_current_token yes else token_prev_char;; set_current_token no.
(** The operators of [token_run]. *)
Definition token_operator (ch : Z) : F unit :=
  if ch =? 40 then set_current_token finsh_token_type_left_paren
  else if ch =? 41 then set_current_token finsh_token_type_right_paren
  else if ch =? 44 then set_current_token finsh_token_type_comma
  else if ch =? 59 then set_current_token finsh_token_type_semicolon
  else if ch =? 38 then set_current_token finsh_token_type_and
  else if ch =? 42 then set_current_token finsh_token_type_mul
  else if ch =? 43 then doubled 43 finsh_token_type_inc finsh_token_type_add
  else if ch =? 45 then doubled 45 finsh_token_type_dec finsh_token_type_sub
  else if ch =? 47 then doubled 47 finsh_token_type_eof finsh_token_type_div
  else if ch =? 60 then doubled 60 finsh_token_type_shl finsh_token_type_bad
  else if ch =? 62 then doubled 62 finsh_token_type_shr finsh_token_type_bad
  else if ch =? 124 then set_current_token finsh_token_type_or
  else if ch =? 37 then set_current_token finsh_token_type_mod
  else if ch =? 126 then set_current_token finsh_token_type_bitwise
  else if ch =? 94 then set_current_token finsh_token_type_xor
  else if ch =? 61 then set_current_token finsh_token_type_assign
  else if ch =? 39 then
    c ← token_proc_char;
    upd_token (λ t, set_tk_value (set_low 8 (tk_value t) c) t);;
    set_current_token finsh_token_type_value_char
  else if ch =? 34 then token_proc_string;; set_current_token finsh_token_type_value_string
  else if is_digit ch then token_prev_char;; token_proc_number
  else finsh_error_set FINSH_ERROR_UNKNOWN_TOKEN;; set_current_token finsh_token_type_bad.
Definition token_run : F unit :=
  token_trim_space;;
  _ ← token_get_string;
  eof ← is_eof;
  if (eof : bool) then set_current_token finsh_token_type_eof
  else
    t ← getf f_token;
    c ← of_option BadPointer (head (tk_string t));
    if negb (c =? 0) then
      m ← token_match_name (tk_string t);
      if (m : bool) then mret tt else set_current_token finsh_token_type_identifier
    else ch ← token_next_char; token_operator ch.

Definition finsh_token_token : F finsh_token_type :=
  t ← getf f_token;
  (if tk_replay t then upd_token (set_tk_replay false) else token_run);;
  getf (λ s, tk_current (f_token s)).
Definition finsh_token_get_token (token : list Z) : F (list Z) :=
  t ← getf f_token; strncpy token (tk_string t) FINSH_NAME_MAX.
