(* ===== verification/FinshParser.v ===== *)
(** The parser of FinSH ([finsh_parser.c]): recursive descent from the tokens of a line to
    nodes of the table.

    The functions are mutually recursive through [proc_assign_expr] and [proc_cast_expr];
    the others are written over these two.  A level of recursion and a turn of a loop take
    a unit of fuel. *)

From stdpp Require Import base list gmap.
From Stdlib Require Import ZArith Lia.
From S2P Require Import Prelude Kservice FinshState FinshVar FinshHeap FinshNode FinshToken.

Open Scope Z_scope.

Section parser.
Context `{img : finsh_image}.

(** * Tokens *)

Abbreviation next_token := finsh_token_token.
Definition check_token (token type : finsh_token_type) : F unit :=
  if decide (token = type) then mret tt
  else finsh_error_set FINSH_ERROR_INVALID_TOKEN;; finsh_token_replay.
Definition match_token (type : finsh_token_type) : F unit :=
  token ← next_token; check_token token type.

(** * Types and identifiers *)

(** The type of a base-type token. *)
Definition base_type (token : finsh_token_type) : option finsh_type :=
  match token with
  | finsh_token_type_void => Some finsh_type_void
  | finsh_token_type_char => Some finsh_type_char
  | finsh_token_type_short => Some finsh_type_short
  | finsh_token_type_int => Some finsh_type_int
  | finsh_token_type_long => Some finsh_type_long
  | _ => None
  end.
Definition is_base_type (token : finsh_token_type) : bool :=
  match base_type token with Some _ => true | None => false end.
Definition unsigned_type (token : finsh_token_type) : option finsh_type :=
  match token with
  | finsh_token_type_char => Some finsh_type_uchar
  | finsh_token_type_short => Some finsh_type_ushort
  | finsh_token_type_int => Some finsh_type_uint
  | finsh_token_type_long => Some finsh_type_ulong
  | _ => None
  end.
Definition pointer_type (type : finsh_type) : finsh_type :=
  match type with
  | finsh_type_void => finsh_type_voidp
  | finsh_type_char | finsh_type_uchar => finsh_type_charp
  | finsh_type_short | finsh_type_ushort => finsh_type_shortp
  | finsh_type_int | finsh_type_uint => finsh_type_intp
  | finsh_type_long | finsh_type_ulong => finsh_type_longp
  | _ => finsh_type_voidp
  end.
Definition proc_pointer (type : finsh_type) : F finsh_type :=
  token ← next_token;
  if decide (token = finsh_token_type_mul) then mret (pointer_type type)
  else finsh_token_replay;; mret type.
Definition type_return (type : finsh_type) : F finsh_type :=
  finsh_token_replay;; finsh_error_set FINSH_ERROR_UNKNOWN_TYPE;; mret type.
Definition proc_type : F finsh_type :=
  token ← next_token;
  match base_type token with
  | Some type => proc_pointer type
  | None =>
    if decide (token = finsh_token_type_unsigned) then
      token ← next_token;
      if is_base_type token then
        match unsigned_type token with
        | Some type => proc_pointer type
        | None => type_return finsh_type_unknown
        end
      else
        finsh_token_replay;; finsh_error_set FINSH_ERROR_EXPECT_TYPE;;
        proc_pointer finsh_type_unknown
    else type_return finsh_type_unknown
  end.

(** The buffer [id] has room for a terminating zero that is not written when the name
    fills it: the model holds its [FINSH_NAME_MAX] written bytes. *)
Definition proc_identifier : F (list Z) :=
  match_token finsh_token_type_identifier;;
  t ← getf f_token;
  strncpy (replicate (Z.to_nat FINSH_NAME_MAX) 0) (tk_string t) FINSH_NAME_MAX.

(** * Expressions *)

Definition make_sys_node (type : node_kind) (node1 node2 : option nat) : F (option nat) :=
  node ← finsh_node_allocate type;
  (match node1, node with
   | Some n1, Some n => upd_node n (set_nd_child (Some n1));; upd_node n1 (set_nd_sibling node2)
   | _, _ => finsh_error_set FINSH_ERROR_NULL_NODE
   end);;
  mret node.

(** The loop of the left-associative operators: [ops] are those of the level, [operand]
    parses the next higher one. *)
Fixpoint binary_loop (fuel : nat) (ops : finsh_token_type → option node_kind)
    (operand : F (option nat)) (left : option nat) (token : finsh_token_type) : F (option nat) :=
  match ops token with
  | None => finsh_token_replay;; mret left
  | Some type =>
    match fuel with
    | O => fail OutOfFuel
    | S fuel =>
      new ← operand;
      left ← (match new with
              | None => finsh_error_set FINSH_ERROR_EXPECT_OPERATOR;; mret left
              | Some _ => make_sys_node type left new
              end);
      token ← next_token;
      binary_loop fuel ops operand left token
    end
  end.
Definition binary_expr (fuel : nat) (ops : finsh_token_type → option node_kind)
    (operand : F (option nat)) : F (option nat) :=
  left ← operand;
  token ← next_token;
  binary_loop fuel ops operand left token.

Definition mul_ops (t : finsh_token_type) : option node_kind :=
  match t with
  | finsh_token_type_mul => Some FINSH_NODE_SYS_MUL
  | finsh_token_type_div => Some FINSH_NODE_SYS_DIV
  | finsh_token_type_mod => Some FINSH_NODE_SYS_MOD
  | _ => None
  end.
Definition add_ops (t : finsh_token_type) : option node_kind :=
  match t with
  | finsh_token_type_sub => Some FINSH_NODE_SYS_SUB
  | finsh_token_type_add => Some FINSH_NODE_SYS_ADD
  | _ => None
  end.
Definition shift_ops (t : finsh_token_type) : option node_kind :=
  match t with
  | finsh_token_type_shl => Some FINSH_NODE_SYS_SHL
  | finsh_token_type_shr => Some FINSH_NODE_SYS_SHR
  | _ => None
  end.
Definition and_ops (t : finsh_token_type) : option node_kind :=
  match t with finsh_token_type_and => Some FINSH_NODE_SYS_AND | _ => None end.
Definition xor_ops (t : finsh_token_type) : option node_kind :=
  match t with finsh_token_type_xor => Some FINSH_NODE_SYS_XOR | _ => None end.
Definition or_ops (t : finsh_token_type) : option node_kind :=
  match t with finsh_token_type_or => Some FINSH_NODE_SYS_OR | _ => None end.

Section levels.
Context (fuel : nat) (proc_assign_expr proc_cast_expr : F (option nat)).

(** The loop of [proc_param_list] behind the parameter [assign]. *)
Fixpoint param_loop (fuel : nat) (assign : nat) (token : finsh_token_type) : F unit :=
  if decide (token = finsh_token_type_comma) then
    match fuel with
    | O => fail OutOfFuel
    | S fuel =>
      sibling ← proc_assign_expr;
      upd_node assign (set_nd_sibling sibling);;
      assign ← (match sibling with
                | Some n => mret n
                | None => finsh_error_set FINSH_ERROR_EXPECT_OPERATOR;; mret assign
                end);
      token ← next_token;
      param_loop fuel assign token
    end
  else mret tt.
Definition proc_param_list : F (option nat) :=
  assign ← proc_assign_expr;
  match assign with
  | None => mret None
  | Some n =>
    token ← next_token;
    param_loop fuel n token;;
    finsh_token_replay;;
    mret (Some n)
  end.

Definition proc_primary_expr : F (option nat) :=
  token ← next_token;
  match token with
  | finsh_token_type_identifier =>
    finsh_token_replay;;
    id ← proc_identifier;
    finsh_node_new_id id
  | finsh_token_type_left_paren =>
    expr ← proc_assign_expr;
    match_token finsh_token_type_right_paren;;
    mret expr
  | finsh_token_type_value_int => t ← getf f_token; finsh_node_new_int (tk_value t)
  | finsh_token_type_value_long => t ← getf f_token; finsh_node_new_long (tk_value t)
  | finsh_token_type_value_char => t ← getf f_token; finsh_node_new_char (low 8 (tk_value t))
  | finsh_token_type_value_string => t ← getf f_token; finsh_node_new_string (tk_string t)
  | finsh_token_type_value_null => finsh_node_new_ptr 0
  | _ => finsh_error_set FINSH_ERROR_INVALID_TOKEN;; mret None
  end.

Fixpoint postfix_loop (fuel : nat) (postfix : option nat) (token : finsh_token_type) : F (option nat) :=
  match token with
  | finsh_token_type_inc | finsh_token_type_dec | finsh_token_type_left_paren =>
    match fuel with
    | O => fail OutOfFuel
    | S fuel =>
      postfix ← (match token with
                 | finsh_token_type_inc => make_sys_node FINSH_NODE_SYS_INC postfix None
                 | finsh_token_type_dec => make_sys_node FINSH_NODE_SYS_DEC postfix None
                 | _ =>
                   token ← next_token;
                   param_list ← (if decide (token = finsh_token_type_right_paren) then mret None
                                 else
                                   finsh_token_replay;;
                                   l ← proc_param_list;
                                   match_token finsh_token_type_right_paren;;
                                   mret l);
                   make_sys_node FINSH_NODE_SYS_FUNC postfix param_list
                 end);
      token ← next_token;
      postfix_loop fuel postfix token
    end
  | _ => finsh_token_replay;; mret postfix
  end.
Definition proc_postfix_expr : F (option nat) :=
  postfix ← proc_primary_expr;
  token ← next_token;
  postfix_loop fuel postfix token.

Definition proc_unary_expr : F (option nat) :=
  token ← next_token;
  match token with
  | finsh_token_type_add => proc_cast_expr
  | finsh_token_type_inc => cast ← proc_cast_expr; make_sys_node FINSH_NODE_SYS_PREINC cast None
  | finsh_token_type_sub =>
    cast ← proc_cast_expr;
    zero ← finsh_node_new_long 0;
    make_sys_node FINSH_NODE_SYS_SUB zero cast
  | finsh_token_type_dec => cast ← proc_cast_expr; make_sys_node FINSH_NODE_SYS_PREDEC cast None
  | finsh_token_type_bitwise => cast ← proc_cast_expr; make_sys_node FINSH_NODE_SYS_BITWISE cast None
  | finsh_token_type_mul => cast ← proc_cast_expr; make_sys_node FINSH_NODE_SYS_GETVALUE cast None
  | finsh_token_type_and => cast ← proc_cast_expr; make_sys_node FINSH_NODE_SYS_GETADDR cast None
  | _ => finsh_token_replay;; proc_postfix_expr
  end.

(** The body of [proc_cast_expr]. *)
Definition cast_body : F (option nat) :=
  token ← next_token;
  if decide (token = finsh_token_type_left_paren) then
    type ← proc_type;
    match_token finsh_token_type_right_paren;;
    cast ← proc_cast_expr;
    match cast with
    | Some n => upd_node n (set_nd_data_type (type_num type));; mret (Some n)
    | None => finsh_token_replay;; proc_unary_expr
    end
  else finsh_token_replay;; proc_unary_expr.

Definition proc_multiplicative_expr : F (option nat) := binary_expr fuel mul_ops proc_cast_expr.
Definition proc_additive_expr : F (option nat) := binary_expr fuel add_ops proc_multiplicative_expr.
Definition proc_shift_expr : F (option nat) := binary_expr fuel shift_ops proc_additive_expr.
Definition proc_and_expr : F (option nat) := binary_expr fuel and_ops proc_shift_expr.
Definition proc_exclusive_or_expr : F (option nat) := binary_expr fuel xor_ops proc_and_expr.
Definition proc_inclusive_or_expr : F (option nat) := binary_expr fuel or_ops proc_exclusive_or_expr.

(** The body of [proc_assign_expr]. *)
Definition assign_body : F (option nat) :=
  or ← proc_inclusive_or_expr;
  token ← next_token;
  if decide (token = finsh_token_type_assign) then
    assign ← proc_assign_expr;
    make_sys_node FINSH_NODE_SYS_ASSIGN or assign
  else finsh_token_replay;; mret or.
End levels.

Fixpoint proc_assign_expr (fuel : nat) (s : finsh) : outcome finsh (option nat) :=
  match fuel with
  | O => Fault OutOfFuel
  | S n => assign_body n (proc_assign_expr n) (proc_cast_expr n) s
  end
with proc_cast_expr (fuel : nat) (s : finsh) : outcome finsh (option nat) :=
  match fuel with
  | O => Fault OutOfFuel
  | S n => cast_body n (proc_assign_expr n) (proc_cast_expr n) s
  end.
Definition proc_expr (fuel : nat) : F (option nat) := proc_assign_expr fuel.

(** * Statements *)

Definition proc_expr_statement (fuel : nat) : F (option nat) :=
  token ← next_token;
  if decide (token = finsh_token_type_semicolon) then mret None
  else
    finsh_token_replay;;
    expr ← proc_expr fuel;
    match_token finsh_token_type_semicolon;;
    mret expr.

(** An identifier is declared. *)
Definition declare (type : finsh_type) : F (list Z) :=
  id ← proc_identifier;
  r ← finsh_var_insert id type;
  (if r <? 0 then finsh_error_set FINSH_ERROR_VARIABLE_EXIST else mret tt);;
  mret id.
(** The assignment of the initial value [assign] to [id], behind the chain [node .. end]. *)
Definition link_assign (id : list Z) (node end_ : option nat) (assign : nat) :
    F (option nat * option nat) :=
  idnode ← finsh_node_new_id id;
  m ← make_sys_node FINSH_NODE_SYS_ASSIGN idnode (Some assign);
  match node with
  | Some _ =>
    e ← of_option BadPointer end_;
    upd_node e (set_nd_sibling m);;
    mret (node, m)
  | None => mret (m, m)
  end.
(** The loop over the declarators behind a comma. *)
Fixpoint decl_loop (fuel : nat) (type : finsh_type) (node end_ : option nat)
    (token : finsh_token_type) : F (option nat) :=
  match token, fuel with
  | finsh_token_type_comma, O => fail OutOfFuel
  | finsh_token_type_comma, S fuel =>
    id ← declare type;
    token ← next_token;
    if decide (token = finsh_token_type_assign) then
      assign ← proc_assign_expr fuel;
      match assign with
      | Some a =>
        '(node, end_) ← link_assign id node end_ a;
        token ← next_token;
        decl_loop fuel type node end_ token
      | None => decl_loop fuel type node end_ token
      end
    else decl_loop fuel type node end_ token
  | _, _ => check_token token finsh_token_type_semicolon;; mret node
  end.
Definition proc_variable_decl (fuel : nat) : F (option nat) :=
  type ← proc_type;
  id ← declare type;
  token ← next_token;
  match token with
  | finsh_token_type_comma => decl_loop fuel type None None token
  | finsh_token_type_assign =>
    assign ← proc_assign_expr fuel;
    match assign with
    | Some a =>
      '(node, end_) ← link_assign id None None a;
      token ← next_token;
      decl_loop fuel type node end_ token
    | None => decl_loop fuel type None None token
    end
  | finsh_token_type_semicolon => mret None
  | _ => finsh_error_set FINSH_ERROR_EXPECT_TYPE;; mret None
  end.

(** * The parser *)

(** A statement [m] behind [node]: the node to go on with, and whether there was one. *)
Definition append_statement (node : option nat) (m : F (option nat)) : F (option nat * bool) :=
  root ← getf f_root;
  match root with
  | Some _ =>
    n ← m;
    i ← of_option BadPointer node;
    upd_node i (set_nd_sibling n);;
    mret (match n with Some _ => (n, true) | None => (node, false) end)
  | None => n ← m; modify (set_f_root n);; mret (n, true)
  end.
Fixpoint parser_loop (fuel : nat) (node : option nat) (token : finsh_token_type) : F unit :=
  match token, fuel with
  | finsh_token_type_eof, _ | finsh_token_type_bad, _ => mret tt
  | _, O => fail OutOfFuel
  | _, S fuel =>
    finsh_token_replay;;
    node ← (if decide (token = finsh_token_type_identifier) then
              '(node, _) ← append_statement node (proc_expr_statement fuel); mret node
            else if is_base_type token || bool_decide (token = finsh_token_type_unsigned) then
              '(node, _) ← append_statement node (proc_variable_decl fuel); mret node
            else
              '(node, found) ← append_statement node (proc_expr_statement fuel);
              (if (found : bool) then mret tt else _ ← next_token; mret tt);;
              mret node);
    root ← getf f_root;
    match root with
    | None => mret tt
    | Some _ => token ← next_token; parser_loop fuel node token
    end
  end.
Definition finsh_parser_run (fuel : nat) (string : list Z) : F unit :=
  finsh_token_init string;;
  token ← next_token;
  parser_loop fuel None token.
Definition finsh_parser_init : F Z :=
  modify (λ s, set_f_root None
    (set_f_token (Token false false 0 finsh_token_none 0 (replicate FINSH_STRING_MAX 0) []) s));;
  mret 0.
End parser.
