(* ===== verification/FinshVm.v ===== *)
(** The virtual machine of FinSH: the operations of [finsh_ops.c] and the loop of
    [finsh_vm.c].

    The stack is an array of words, [f_sp] the index of the first free one.  An operation
    on bytes or half-words changes only the low bits of its word. *)

From stdpp Require Import base list gmap.
From Stdlib Require Import ZArith Lia.
From S2P Require Import Prelude Kservice FinshState.

Open Scope Z_scope.

Section vm.
(** [f(parameterv[0], ...)]: a call of the application. *)
Context (call : Z → list Z → F Z).

(** * Stack and text *)

Definition get_slot (i : Z) : F Z :=
  if i <? 0 then fail BadPointer
  else st ← getf f_stack; of_option BadPointer (st !! Z.to_nat i).
Definition put_slot (i v : Z) : F unit :=
  _ ← get_slot i; modify (λ s, set_f_stack (<[Z.to_nat i := v]> (f_stack s)) s).
Definition move_sp (d : Z) : F unit := modify (λ s, set_f_sp (f_sp s + d) s).
Definition move_pc (d : nat) : F unit := modify (λ s, set_f_pc (f_pc s + d)%nat s).
Definition text_byte (i : nat) : F Z := t ← getf f_text; of_option BadPointer (t !! i).
Definition FINSH_GET16 (i : nat) : F Z :=
  b0 ← text_byte i; b1 ← text_byte (S i); mret (Z.lor b0 (Z.shiftl b1 8)).
Definition FINSH_GET32 (i : nat) : F Z :=
  b0 ← text_byte i; b1 ← text_byte (S i); b2 ← text_byte (i + 2); b3 ← text_byte (i + 3);
  mret (Z.lor (Z.lor (Z.lor b0 (Z.shiftl b1 8)) (Z.shiftl b2 16)) (Z.shiftl b3 24)).

(** * Widths *)

(** The member of the union an operation works on: [char] (unsigned), [short], [long]. *)
Inductive width := Byte | Word | Dword.
#[global] Instance width_eq_dec : EqDecision width.
Proof. solve_decision. Defined.
Definition bits (w : width) : Z := match w with Byte => 8 | Word => 16 | Dword => 32 end.
Definition size (w : width) : nat := match w with Byte => 1 | Word => 2 | Dword => 4 end.
Definition value (w : width) (x : Z) : Z :=
  match w with Byte => u8 x | Word => i16 x | Dword => i32 x end.
(** A store of [v] to the member of width [w] of a union that holds [x]. *)
Definition set_member (w : width) (x v : Z) : Z := set_low (bits w) x v.

(** * Operators *)

Inductive binop := Add | Sub | Mul | Div | Mod | And | Or | Xor | Shl | Shr.
#[global] Instance binop_eq_dec : EqDecision binop.
Proof. solve_decision. Defined.
(** The operators of C on [int]; a division by zero, the quotient that does not fit and a
    shift by a count out of range are undefined. *)
Definition c_binop (o : binop) (x y : Z) : option Z :=
  match o with
  | Add => Some (x + y)
  | Sub => Some (x - y)
  | Mul => Some (x * y)
  | Div => if (y =? 0) || ((x =? - 2 ^ 31) && (y =? - 1)) then None else Some (Z.quot x y)
  | Mod => if (y =? 0) || ((x =? - 2 ^ 31) && (y =? - 1)) then None else Some (Z.rem x y)
  | And => Some (Z.land x y)
  | Or => Some (Z.lor x y)
  | Xor => Some (Z.lxor x y)
  | Shl => if (0 <=? y) && (y <? 32) then Some (Z.shiftl x y) else None
  | Shr => if (0 <=? y) && (y <? 32) then Some (Z.shiftr x y) else None
  end.

(** [OP_BIN_BYTE], [OP_BIN_WORD], [OP_BIN_DWORD]. *)
Definition OP_BIN (w : width) (o : binop) : F unit :=
  sp ← getf f_sp;
  x ← get_slot (sp - 2);
  y ← get_slot (sp - 1);
  r ← of_option Undefined (c_binop o (value w x) (value w y));
  put_slot (sp - 2) (set_member w x r);;
  move_sp (- 1).
Definition OP_no_op : F unit := mret tt.
Definition OP_bw (w : width) : F unit :=
  sp ← getf f_sp;
  x ← get_slot (sp - 1);
  put_slot (sp - 1) (set_member w x (Z.lnot (value w x))).

(** * Loads and stores *)

Definition push (w : width) (v : Z) : F unit :=
  sp ← getf f_sp;
  x ← get_slot sp;
  put_slot sp (set_member w x v);;
  move_sp 1.
Definition OP_ld (w : width) : F unit :=
  pc ← getf f_pc;
  v ← (match w with Byte => text_byte pc | Word => FINSH_GET16 pc | Dword => FINSH_GET32 pc end);
  push w v;;
  move_pc (size w).
Definition OP_ld_value (w : width) : F unit :=
  pc ← getf f_pc;
  a ← FINSH_GET32 pc;
  v ← load (size w) a;
  push w v;;
  move_pc 4.
Definition OP_ld_value_stack (w : width) : F unit :=
  sp ← getf f_sp;
  a ← get_slot (sp - 1);
  v ← load (size w) a;
  put_slot (sp - 1) (set_member w a v).
Definition OP_st (w : width) : F unit :=
  sp ← getf f_sp;
  a ← get_slot (sp - 2);
  x ← get_slot (sp - 1);
  store (size w) a x;;
  move_sp (- 1).
Definition OP_pop : F unit := move_sp (- 1).

(** The [n] parameters above the function, the last one on top; [parameterv] has room for
    sixteen. *)
Fixpoint call_params (n : nat) (acc : list Z) : F (list Z) :=
  match n with
  | O => mret acc
  | S n =>
    sp ← getf f_sp;
    v ← get_slot sp;
    if (16 <=? n)%nat then fail BadPointer else move_sp (- 1);; call_params n (v :: acc)
  end.
Definition OP_call : F unit :=
  pc ← getf f_pc;
  parameters ← text_byte pc;
  move_pc 1;;
  move_sp (- 1);;
  parameterv ← call_params (Z.to_nat parameters) [];
  sp ← getf f_sp;
  f ← get_slot sp;
  r ← (if parameters <=? 16 then call f parameterv else mret 0);
  sp ← getf f_sp;
  put_slot sp (u32 r);;
  move_sp 1.

(** * The machine *)

Definition op_table : list (option (F unit)) :=
  [Some OP_no_op;
   Some (OP_BIN Byte Add); Some (OP_BIN Word Add); Some (OP_BIN Dword Add);
   Some (OP_BIN Byte Sub); Some (OP_BIN Word Sub); Some (OP_BIN Dword Sub);
   Some (OP_BIN Byte Div); Some (OP_BIN Word Div); Some (OP_BIN Dword Div);
   Some (OP_BIN Byte Mod); Some (OP_BIN Word Mod); Some (OP_BIN Dword Mod);
   Some (OP_BIN Byte Mul); Some (OP_BIN Word Mul); Some (OP_BIN Dword Mul);
   Some (OP_BIN Byte And); Some (OP_BIN Word And); Some (OP_BIN Dword And);
   Some (OP_BIN Byte Or); Some (OP_BIN Word Or); Some (OP_BIN Dword Or);
   Some (OP_BIN Byte Xor); Some (OP_BIN Word Xor); Some (OP_BIN Dword Xor);
   Some (OP_bw Byte); Some (OP_bw Word); Some (OP_bw Dword);
   Some (OP_BIN Byte Shl); Some (OP_BIN Word Shl); Some (OP_BIN Dword Shl);
   Some (OP_BIN Byte Shr); Some (OP_BIN Word Shr); Some (OP_BIN Dword Shr);
   Some (OP_ld Byte); Some (OP_ld Word); Some (OP_ld Dword);
   Some (OP_ld_value Byte); Some (OP_ld_value Word); Some (OP_ld_value Dword);
   Some (OP_st Byte); Some (OP_st Word); Some (OP_st Dword);
   Some OP_pop; Some OP_call;
   Some (OP_ld_value_stack Byte); Some (OP_ld_value_stack Word); Some (OP_ld_value_stack Dword);
   None].
(** A turn of the loop of [finsh_vm_run]: a call through a null pointer, or through an
    entry past the end of the table, faults. *)
Definition vm_step : F unit :=
  pc ← getf f_pc;
  op ← text_byte pc;
  move_pc 1;;
  match op_table !! Z.to_nat op with
  | Some (Some f) => f
  | _ => fail BadPointer
  end.
Fixpoint vm_loop (fuel : nat) : F unit :=
  pc ← getf f_pc;
  if (pc <? FINSH_TEXT_MAX)%nat then
    match fuel with
    | O => fail OutOfFuel
    | S fuel => vm_step;; vm_loop fuel
    end
  else mret tt.
(** Every operation moves the program counter on, so that a turn per byte of text is
    enough. *)
Definition finsh_vm_run : F unit :=
  modify (set_f_sp 0);;
  modify (set_f_pc 0);;
  vm_loop FINSH_TEXT_MAX.
Definition finsh_stack_bottom : F Z := st ← getf f_stack; x ← of_option BadPointer (st !! 0%nat); mret (i32 x).
End vm.
