(* ===== verification/FinshCompiler.v ===== *)
(** The compiler of FinSH ([finsh_compiler.c]): the types of the nodes, and the code of the
    machine for a tree.

    Both functions recurse on the [child] and [sibling] pointers of the node table; a level
    takes a unit of fuel, and a tree is not deeper than the table. *)

From stdpp Require Import base list gmap strings.
From Stdlib Require Import ZArith Lia.
From S2P Require Import Prelude Kservice Printf FinshState FinshVar FinshHeap FinshNode FinshToken FinshParser.
From S2P Require Import FinshVm.

Open Scope Z_scope.

(** * Opcodes *)

Definition opcode (base : Z) (w : width) : Z :=
  match w with Byte => base | Word => base + 1 | Dword => base + 2 end.
Definition FINSH_OP_BIN (o : binop) : width → Z :=
  opcode match o with
         | Add => 0x01 | Sub => 0x04 | Div => 0x07 | Mod => 0x0A | Mul => 0x0D
         | And => 0x10 | Or => 0x13 | Xor => 0x16 | Shl => 0x1C | Shr => 0x1F
         end.
Definition FINSH_OP_BITWISE : width → Z := opcode 0x19.
Definition FINSH_OP_LD : width → Z := opcode 0x22.
Definition FINSH_OP_LD_VALUE : width → Z := opcode 0x25.
Definition FINSH_OP_ST : width → Z := opcode 0x28.
Definition FINSH_OP_POP : Z := 0x2B.
Definition FINSH_OP_SYSCALL : Z := 0x2C.
Definition FINSH_OP_LD_VALUE_STACK : width → Z := opcode 0x2D.

(** The width a [data_type] stands for. *)
Definition data_width (t : Z) : option width :=
  if t =? FINSH_DATA_TYPE_BYTE then Some Byte
  else if t =? FINSH_DATA_TYPE_WORD then Some Word
  else if t =? FINSH_DATA_TYPE_DWORD then Some Dword else None.

Section compiler.
Context `{img : finsh_image}.

(** * Code *)

(** A store past the end of [text_segment] faults. *)
Definition finsh_code_byte (x : Z) : F unit :=
  pc ← getf f_compile_pc;
  if (pc <? FINSH_TEXT_MAX)%nat then
    modify (λ s, set_f_text (<[pc := u8 x]> (f_text s)) s);;
    modify (λ s, set_f_compile_pc (S (f_compile_pc s)) s)
  else fail BadPointer.
Fixpoint finsh_code (l : list Z) : F unit :=
  match l with [] => mret tt | x :: l => finsh_code_byte x;; finsh_code l end.
(** [FINSH_SET16] and [FINSH_SET32] in the code of an operand. *)
Definition word_bytes (x : Z) : list Z := [Z.land x 0xff; Z.shiftr x 8].
Definition dword_bytes (x : Z) : list Z :=
  let v := u32 x in
  [Z.land v 0xff; Z.land (Z.shiftr v 8) 0xff; Z.land (Z.shiftr v 16) 0xff; Z.shiftr v 24].

(** The width of the load of a variable, none when the type has no case. *)
Definition load_width (t : finsh_type) : option width :=
  match t with
  | finsh_type_char | finsh_type_uchar => Some Byte
  | finsh_type_short | finsh_type_ushort => Some Word
  | finsh_type_int | finsh_type_uint | finsh_type_long | finsh_type_ulong
  | finsh_type_charp | finsh_type_shortp | finsh_type_intp | finsh_type_longp => Some Dword
  | _ => None
  end.
(** The variable of type [t] at the address [a]: its address or its value is loaded. *)
Definition compile_var (idtype : Z) (t : finsh_type) (a : Z) : F unit :=
  match load_width t with
  | Some w =>
    finsh_code_byte (if flag_test idtype FINSH_IDTYPE_ADDRESS then FINSH_OP_LD Dword else FINSH_OP_LD_VALUE w);;
    finsh_code (dword_bytes a)
  | None => mret tt
  end.
Definition compile_id (n : finsh_node) : F unit :=
  if flag_test (nd_idtype n) FINSH_IDTYPE_SYSCALL then
    l ← getf f_syscall_list;
    c ← of_option BadPointer (entry_at (nd_id n) (syscall_table ++ l));
    finsh_code_byte (FINSH_OP_LD Dword);;
    finsh_code (dword_bytes (syscall_func c))
  else if flag_test (nd_idtype n) FINSH_IDTYPE_SYSVAR then
    if nd_id n =? 0 then mret tt
    else
      l ← getf f_sysvar_list;
      v ← of_option BadPointer (entry_at (nd_id n) (sysvar_table ++ l));
      compile_var (nd_idtype n) (sysvar_type v) (sysvar_var v)
  else
    if nd_id n =? 0 then mret tt
    else
      i ← of_option BadPointer (var_index (nd_id n));
      vars ← getf f_vars;
      v ← of_option BadPointer (vars !! i);
      compile_var (nd_idtype n) (var_type v) (var_value (nd_id n)).

(** An operation of the width of the node, if it has one. *)
Definition compile_op (op : width → Z) (n : finsh_node) : F unit :=
  match data_width (nd_data_type n) with Some w => finsh_code_byte (op w) | None => mret tt end.

(** The child of a node when it is an identifier. *)
Definition id_child (n : finsh_node) : F (option finsh_node) :=
  match nd_child n with
  | None => mret None
  | Some c =>
    c ← get_node c;
    mret (if decide (nd_node_type c = FINSH_NODE_ID) then Some c else None)
  end.

(** [parameters]: the number of the siblings behind a node. *)
Fixpoint count_siblings (fuel : nat) (p : option nat) : F Z :=
  match p with
  | None => mret 0
  | Some i =>
    match fuel with
    | O => fail OutOfFuel
    | S fuel => n ← get_node i; r ← count_siblings fuel (nd_sibling n); mret (r + 1)
    end
  end.
Definition compile_func (n : finsh_node) : F unit :=
  match nd_child n with
  | None => mret tt
  | Some c =>
    c ← get_node c;
    parameters ← count_siblings FINSH_NODE_MAX (nd_sibling c);
    finsh_code_byte FINSH_OP_SYSCALL;;
    finsh_code_byte parameters
  end.

Definition compile_store (t : Z) : F unit :=
  match data_width t with
  | Some w => finsh_code_byte (FINSH_OP_ST w);; finsh_code_byte (FINSH_OP_LD_VALUE_STACK w)
  | None => finsh_error_set FINSH_ERROR_UNKNOWN_TYPE
  end.
Definition compile_assign (n : finsh_node) : F unit :=
  c ← of_option BadPointer (nd_child n);
  c ← get_node c;
  match nd_node_type c with
  | FINSH_NODE_ID => compile_store (nd_data_type c)
  | FINSH_NODE_SYS_GETVALUE => compile_store (Z.land (nd_data_type c) 0x0F)
  | _ => mret tt
  end.

(** The operand 1 of the width. *)
Definition one_bytes (w : width) : list Z :=
  match w with Byte => [1] | Word => word_bytes 1 | Dword => dword_bytes 1 end.
(** The code that adds 1 to (or takes 1 from) the variable whose address is on the stack;
    [id.var] is taken for a variable of FinSH. *)
Definition compile_step (o : binop) (w : width) (id : Z) : F unit :=
  finsh_code_byte (FINSH_OP_LD_VALUE w);;
  finsh_code (dword_bytes (var_value id));;
  finsh_code_byte (FINSH_OP_LD w);;
  finsh_code (one_bytes w);;
  finsh_code_byte (FINSH_OP_BIN o w);;
  finsh_code_byte (FINSH_OP_ST w).
Definition compile_pre (o : binop) (n : finsh_node) : F unit :=
  c ← id_child n;
  match c, data_width (nd_data_type n) with
  | Some c, Some w =>
    compile_step o w (nd_id c);;
    finsh_code_byte (FINSH_OP_LD_VALUE_STACK Dword)
  | _, _ => mret tt
  end.
Definition compile_post (o : binop) (n : finsh_node) : F unit :=
  c ← id_child n;
  match c, data_width (nd_data_type n) with
  | Some c, Some w =>
    finsh_code_byte (FINSH_OP_LD Dword);;
    finsh_code (dword_bytes (var_value (nd_id c)));;
    compile_step o w (nd_id c);;
    finsh_code_byte FINSH_OP_POP
  | _, _ => mret tt
  end.

Definition compile_node (n : finsh_node) : F unit :=
  match nd_node_type n with
  | FINSH_NODE_ID => compile_id n
  | FINSH_NODE_VALUE_CHAR => finsh_code_byte (FINSH_OP_LD Byte);; finsh_code_byte (low 8 (nd_value n))
  | FINSH_NODE_VALUE_INT | FINSH_NODE_VALUE_LONG
  | FINSH_NODE_VALUE_NULL | FINSH_NODE_VALUE_STRING =>
    finsh_code_byte (FINSH_OP_LD Dword);; finsh_code (dword_bytes (nd_value n))
  | FINSH_NODE_SYS_ADD => compile_op (FINSH_OP_BIN Add) n
  | FINSH_NODE_SYS_SUB => compile_op (FINSH_OP_BIN Sub) n
  | FINSH_NODE_SYS_MUL => compile_op (FINSH_OP_BIN Mul) n
  | FINSH_NODE_SYS_DIV => compile_op (FINSH_OP_BIN Div) n
  | FINSH_NODE_SYS_MOD => compile_op (FINSH_OP_BIN Mod) n
  | FINSH_NODE_SYS_AND => compile_op (FINSH_OP_BIN And) n
  | FINSH_NODE_SYS_OR => compile_op (FINSH_OP_BIN Or) n
  | FINSH_NODE_SYS_XOR => compile_op (FINSH_OP_BIN Xor) n
  | FINSH_NODE_SYS_BITWISE => compile_op FINSH_OP_BITWISE n
  | FINSH_NODE_SYS_SHL => compile_op (FINSH_OP_BIN Shl) n
  | FINSH_NODE_SYS_SHR => compile_op (FINSH_OP_BIN Shr) n
  | FINSH_NODE_SYS_FUNC => compile_func n
  | FINSH_NODE_SYS_ASSIGN => compile_assign n
  | FINSH_NODE_SYS_PREINC => compile_pre Add n
  | FINSH_NODE_SYS_PREDEC => compile_pre Sub n
  | FINSH_NODE_SYS_INC => compile_post Add n
  | FINSH_NODE_SYS_DEC => compile_post Sub n
  | FINSH_NODE_SYS_NULL => finsh_code (dword_bytes 0)
  | FINSH_NODE_SYS_GETVALUE =>
    if flag_test (nd_idtype n) FINSH_IDTYPE_ADDRESS then mret tt else compile_op FINSH_OP_LD_VALUE_STACK n
  | FINSH_NODE_SYS_GETADDR => mret tt
  | _ => finsh_error_set FINSH_ERROR_UNKNOWN_NODE
  end.
Fixpoint finsh_compile (fuel : nat) (p : option nat) : F unit :=
  match p with
  | None => mret tt
  | Some i =>
    match fuel with
    | O => fail OutOfFuel
    | S fuel =>
      n ← get_node i;
      finsh_compile fuel (nd_child n);;
      compile_node n;;
      finsh_compile fuel (nd_sibling n)
    end
  end.

(** * Types *)

(** The [data_type] of a variable of type [t], if it has one. *)
Definition type_data (t : finsh_type) : option Z :=
  match t with
  | finsh_type_void => Some FINSH_DATA_TYPE_VOID
  | finsh_type_char | finsh_type_uchar => Some FINSH_DATA_TYPE_BYTE
  | finsh_type_short | finsh_type_ushort => Some FINSH_DATA_TYPE_WORD
  | finsh_type_unknown => None
  | _ => Some FINSH_DATA_TYPE_DWORD
  end.
Definition set_type (i : nat) (t : finsh_type) : F unit :=
  match type_data t with
  | Some d => upd_node i (set_nd_data_type d)
  | None => finsh_error_set FINSH_ERROR_UNKNOWN_TYPE
  end.
Definition type_id (i : nat) : F unit :=
  n ← get_node i;
  if flag_test (nd_idtype n) FINSH_IDTYPE_VAR then
    if nd_id n =? 0 then mret tt
    else
      j ← of_option BadPointer (var_index (nd_id n));
      vars ← getf f_vars;
      v ← of_option BadPointer (vars !! j);
      set_type i (var_type v)
  else if flag_test (nd_idtype n) FINSH_IDTYPE_SYSVAR then
    if nd_id n =? 0 then mret tt
    else
      l ← getf f_sysvar_list;
      v ← of_option BadPointer (entry_at (nd_id n) (sysvar_table ++ l));
      set_type i (sysvar_type v)
  else mret tt.

(** What a node asks of its child: an address, a value, or what it is asked itself. *)
Definition child_addr (type : node_kind) (is_addr : Z) : Z :=
  match type with
  | FINSH_NODE_SYS_ASSIGN | FINSH_NODE_SYS_PREINC | FINSH_NODE_SYS_PREDEC
  | FINSH_NODE_SYS_GETADDR => FINSH_IDTYPE_ADDRESS
  | FINSH_NODE_SYS_GETVALUE => if negb (is_addr =? 0) then 0 else is_addr
  | _ => is_addr
  end.
Definition type_node (i : nat) (is_addr : Z) : F unit :=
  n ← get_node i;
  (if nd_idtype n =? FINSH_IDTYPE_SYSCALL then mret tt
   else upd_node i (set_nd_idtype (Z.lor (nd_idtype n) is_addr)));;
  match nd_child n with
  | Some c => c ← get_node c; upd_node i (set_nd_data_type (nd_data_type c))
  | None =>
    match nd_node_type n with
    | FINSH_NODE_ID => type_id i
    | FINSH_NODE_VALUE_CHAR => upd_node i (set_nd_data_type FINSH_DATA_TYPE_BYTE)
    | FINSH_NODE_VALUE_INT | FINSH_NODE_VALUE_LONG | FINSH_NODE_VALUE_STRING
    | FINSH_NODE_VALUE_NULL => upd_node i (set_nd_data_type FINSH_DATA_TYPE_DWORD)
    | _ => mret tt
    end
  end.
Fixpoint finsh_type_check (fuel : nat) (p : option nat) (is_addr : Z) : F unit :=
  match p with
  | None => mret tt
  | Some i =>
    match fuel with
    | O => fail OutOfFuel
    | S fuel =>
      n ← get_node i;
      finsh_type_check fuel (nd_child n) (child_addr (nd_node_type n) is_addr);;
      finsh_type_check fuel (nd_sibling n) FINSH_NODE_VALUE;;
      type_node i is_addr
    end
  end.

(** * The compiler *)

(** The loop over the statements. *)
Fixpoint compile_statements (fuel : nat) (p : option nat) : F unit :=
  match p with
  | None => mret tt
  | Some i =>
    match fuel with
    | O => fail OutOfFuel
    | S fuel =>
      n ← get_node i;
      upd_node i (set_nd_sibling None);;
      finsh_compile FINSH_NODE_MAX (Some i);;
      (match nd_sibling n with Some _ => finsh_code_byte FINSH_OP_POP | None => mret tt end);;
      compile_statements fuel (nd_sibling n)
    end
  end.
(** [memset] clears the first word of the stack only. *)
Definition finsh_compiler_run (node : option nat) : F Z :=
  finsh_type_check FINSH_NODE_MAX node FINSH_NODE_VALUE;;
  modify (set_f_text (replicate FINSH_TEXT_MAX 0));;
  modify (λ s, set_f_stack (<[0%nat := 0]> (f_stack s)) s);;
  modify (set_f_compile_pc 0);;
  compile_statements FINSH_NODE_MAX node;;
  mret 0.
End compiler.

(** A line of FinSH from the parser to the printed result: [finsh_run_line] of [shell.c],
    [finsh_init.c] and [finsh_error.c]. *)

Section shell.
Context `{img : finsh_image} (call : Z → list Z → F Z).

Definition finsh_error_string_table : list (list Z) :=
  map text ["No error"; "Invalid token"; "Expect a type"; "Unknown type"; "Variable exist";
    "Expect a operater"; "Memory full"; "Unknown operator"; "Unknown node"; "Expect a character";
    "Unexpect end"; "Unknown token"; "Float not supported"; "Unknown symbol"; "Null node"]%string.
Definition finsh_error_string (type : Z) : F (list Z) :=
  of_option BadPointer (finsh_error_string_table !! Z.to_nat type).

Definition finsh_init : F Z :=
  _ ← finsh_parser_init; _ ← finsh_node_init; _ ← finsh_var_init;
  finsh_error_init;; _ ← finsh_heap_init; mret 0.
Definition finsh_flush : F Z := _ ← finsh_parser_init; _ ← finsh_node_init; finsh_error_init;; mret 0.
Definition finsh_reset : F Z :=
  _ ← finsh_node_init; _ ← finsh_var_init; finsh_error_init;; _ ← finsh_heap_init; mret 0.

(** The calls of [rt_kprintf], with format and arguments. *)
Definition output : Type := list (list Z * list va).

(** The format of a result that is a printing character, and of another one. *)
Definition char_format : list Z := 9 :: text "'%c', %d, 0x%08x" ++ [10].
Definition value_format : list Z := 9 :: text "%d, 0x%08x" ++ [10].
Definition print_result : F output :=
  r ← finsh_stack_bottom;
  let ch := u8 r in
  mret (if (0x20 <? ch) && (ch <? 0x7e)
        then [(char_format, [VInt ch; VInt (u32 r); VInt (u32 r)])]
        else [(value_format, [VInt (u32 r); VInt (u32 r)])]).
Definition finsh_run_line (fuel : nat) (echo_mode : bool) (line : list Z) : F output :=
  finsh_parser_run fuel line;;
  e ← finsh_errno;
  o1 ← (if e =? 0 then root ← getf f_root; _ ← finsh_compiler_run root; mret []
        else err_str ← finsh_error_string e; mret [(text "%s" ++ [10], [VStr (Some (err_str ++ [0]))])]);
  e ← finsh_errno;
  o2 ← (if e =? 0 then finsh_vm_run call;; print_result else mret []);
  _ ← finsh_flush;
  mret ((if echo_mode then [([10], [])] else []) ++ o1 ++ o2).
End shell.
