(* ===== verification/FinshSem.v ===== *)
(** Syntax trees of FinSH and their meaning, apart from the node table and the machine.

    A tree is a label with a first child and a next sibling, the shape of the node table;
    as a whole it stands for a list of trees.  [eval] is its meaning, [slots] its types
    (with the width of the result of each tree), [code] the machine code for it. *)

From stdpp Require Import base list gmap.
From Stdlib Require Import ZArith Lia.
From S2P Require Import Prelude Kservice FinshState FinshVar FinshVm FinshCompiler.

Open Scope Z_scope.

(** * Trees *)

(** What a node stands for: constants, variables with type and address, functions, and the
    operators. *)
Inductive label :=
  | LChar (v : Z)
  | LLong (v : Z)
  | LVar (t : finsh_type) (a : Z)
  | LSysvar (t : finsh_type) (a : Z)
  | LFunc (f : Z)
  | LBin (o : binop)
  | LNot
  | LAssign
  | LPre (up : bool)
  | LPost (up : bool)
  | LDeref
  | LAddr
  | LCall.

#[global] Instance label_eq_dec : EqDecision label.
Proof. solve_decision. Defined.

Inductive ast := ANil | ANode (l : label) (child sibling : ast).

Definition kind (l : label) : node_kind :=
  match l with
  | LChar _ => FINSH_NODE_VALUE_CHAR
  | LLong _ => FINSH_NODE_VALUE_LONG
  | LVar _ _ | LSysvar _ _ | LFunc _ => FINSH_NODE_ID
  | LBin Add => FINSH_NODE_SYS_ADD | LBin Sub => FINSH_NODE_SYS_SUB
  | LBin Mul => FINSH_NODE_SYS_MUL | LBin Div => FINSH_NODE_SYS_DIV
  | LBin Mod => FINSH_NODE_SYS_MOD | LBin And => FINSH_NODE_SYS_AND
  | LBin Or => FINSH_NODE_SYS_OR | LBin Xor => FINSH_NODE_SYS_XOR
  | LBin Shl => FINSH_NODE_SYS_SHL | LBin Shr => FINSH_NODE_SYS_SHR
  | LNot => FINSH_NODE_SYS_BITWISE
  | LAssign => FINSH_NODE_SYS_ASSIGN
  | LPre true => FINSH_NODE_SYS_PREINC | LPre false => FINSH_NODE_SYS_PREDEC
  | LPost true => FINSH_NODE_SYS_INC | LPost false => FINSH_NODE_SYS_DEC
  | LDeref => FINSH_NODE_SYS_GETVALUE
  | LAddr => FINSH_NODE_SYS_GETADDR
  | LCall => FINSH_NODE_SYS_FUNC
  end.

(** The step of an increment or decrement. *)
Definition step_op (up : bool) : binop := if up then Add else Sub.

(** The number of trees. *)
Fixpoint trees (t : ast) : nat := match t with ANil => 0 | ANode _ _ s => S (trees s) end.
Fixpoint nodes (t : ast) : nat := match t with ANil => 0 | ANode _ c s => S (nodes c + nodes s) end.

(** * Types *)

(** The [data_type] the compiler gives the first tree: that of its first child, down to a
    leaf; a function has none. *)
Definition leaf_dtype (l : label) : Z :=
  match l with
  | LChar _ => FINSH_DATA_TYPE_BYTE
  | LLong _ => FINSH_DATA_TYPE_DWORD
  | LVar t _ | LSysvar t _ => match type_data t with Some d => d | None => 0 end
  | _ => 0
  end.
Fixpoint dtype (t : ast) : Z :=
  match t with
  | ANil => 0
  | ANode l ANil _ => leaf_dtype l
  | ANode _ c _ => dtype c
  end.

(** Does a slot of width [w'] hold a value of width [w]? *)
Definition fits (w w' : width) : bool := bits w <=? bits w'.

(** An operator whose node has the [data_type] [d] applied to slots of widths [ws]: the
    width of the slot of the result.  [c] is the first child. *)
Definition slot (l : label) (addr : bool) (d : Z) (c : ast) (ws : list width) : option width :=
  match l, ws with
  | LChar _, [] => Some Byte
  | LLong _, [] => Some Dword
  | (LVar t _ | LSysvar t _), [] => w ← load_width t; Some (if addr then Dword else w)
  | LFunc _, [] => Some Dword
  | LBin _, [w1; w2] =>
    w ← data_width d; if negb addr && fits w w1 && fits w w2 then Some w else None
  | LNot, [w1] => w ← data_width d; if negb addr && fits w w1 then Some w else None
  | LAssign, [Dword; w2] =>
    match c with
    | ANode (LVar _ _ | LSysvar _ _ | LDeref) _ _ =>
      w ← data_width d; if negb addr && fits w w2 then Some w else None
    | _ => None
    end
  | LPre _, [Dword] =>
    match c with ANode (LVar _ _) ANil _ => if addr then None else data_width d | _ => None end
  | LPost _, [w1] =>
    match c with
    | ANode (LVar _ _) ANil _ => w ← data_width d; if negb addr && fits w w1 then Some w else None
    | _ => None
    end
  | LDeref, [Dword] => if addr then Some Dword else data_width d
  | LAddr, [Dword] =>
    match c with ANode (LVar _ _ | LSysvar _ _ | LDeref) _ _ => Some Dword | _ => None end
  | LCall, Dword :: ws =>
    if negb addr && forallb (fits Dword) ws && (length ws <=? 16)%nat then Some Dword else None
  | _, _ => None
  end.

(** Is the first child of a node asked for its address? *)
Definition addr_child (l : label) (addr : bool) : bool :=
  match l with
  | LAssign | LPre _ | LAddr => true
  | LDeref => false
  | _ => addr
  end.
Fixpoint slots (addr : bool) (t : ast) : option (list width) :=
  match t with
  | ANil => Some []
  | ANode l c s =>
    ws ← slots (addr_child l addr) c;
    w ← slot l addr (dtype (ANode l c s)) c ws;
    ws' ← slots false s;
    Some (w :: ws')
  end.

(** * Meaning *)

Definition mload (w : width) (a : Z) (m : gmap Z Z) : option Z :=
  if a mod Z.of_nat (size w) =? 0 then r ← read_bytes m a (size w); Some (value w r) else None.
Definition mstore (w : width) (a v : Z) (m : gmap Z Z) : option (gmap Z Z) :=
  if a mod Z.of_nat (size w) =? 0 then write_bytes m a (size w) v else None.

Section eval.
(** The system calls, as functions of the memory. *)
Context (fcall : Z → list Z → gmap Z Z → option (Z * gmap Z Z)).

(** The operator on the values of its children, at the width [d] of the node. *)
Definition apply (l : label) (addr : bool) (d : Z) (vs : list Z) (m : gmap Z Z) : option (Z * gmap Z Z) :=
  match l, vs with
  | LChar v, [] => Some (value Byte v, m)
  | LLong v, [] => Some (value Dword v, m)
  | (LVar t a | LSysvar t a), [] =>
    if addr then Some (value Dword a, m)
    else w ← load_width t; v ← mload w (u32 a) m; Some (v, m)
  | LFunc f, [] => Some (value Dword f, m)
  | LBin o, [x; y] =>
    w ← data_width d; r ← c_binop o (value w x) (value w y); Some (value w r, m)
  | LNot, [x] => w ← data_width d; Some (value w (Z.lnot (value w x)), m)
  | LAssign, [a; v] =>
    w ← data_width d; m' ← mstore w (u32 a) v m; Some (value w v, m')
  | LPre up, [a] =>
    w ← data_width d;
    x ← mload w (u32 a) m;
    r ← c_binop (step_op up) x 1;
    m' ← mstore w (u32 a) r m;
    _ ← mload Dword (u32 a) m';
    Some (value w r, m')
  | LDeref, [a] =>
    if addr then Some (a, m) else w ← data_width d; v ← mload w (u32 a) m; Some (v, m)
  | LAddr, [a] => Some (a, m)
  | LCall, f :: args => '(r, m') ← fcall (u32 f) (u32 <$> args) m; Some (value Dword r, m')
  | _, _ => None
  end.
(** The post-increment of the variable at [a]. *)
Definition apply_post (up : bool) (d a : Z) (vs : list Z) (m : gmap Z Z) : option (Z * gmap Z Z) :=
  match vs with
  | [x] =>
    w ← data_width d;
    y ← mload w (u32 a) m;
    r ← c_binop (step_op up) y 1;
    m' ← mstore w (u32 a) r m;
    Some (value w x, m')
  | _ => None
  end.

(** The values of the trees, from left to right. *)
Fixpoint eval (addr : bool) (t : ast) (m : gmap Z Z) : option (list Z * gmap Z Z) :=
  match t with
  | ANil => Some ([], m)
  | ANode l c s =>
    '(vs, m1) ← eval (addr_child l addr) c m;
    let d := dtype (ANode l c s) in
    '(v, m2) ← (match l, c with
                | LPost up, ANode (LVar _ a) _ _ => apply_post up d a vs m1
                | _, _ => apply l addr d vs m1
                end);
    '(ws, m3) ← eval false s m2;
    Some (v :: ws, m3)
  end.
End eval.

(** * Code *)

Definition step_code (o : binop) (w : width) (a : Z) : list Z :=
  FINSH_OP_LD_VALUE w :: dword_bytes a ++ FINSH_OP_LD w :: one_bytes w ++
  [FINSH_OP_BIN o w; FINSH_OP_ST w].
Definition width_code (d : Z) (f : width → list Z) : list Z :=
  match data_width d with Some w => f w | None => [] end.
Definition var_code (t : finsh_type) (a : Z) (addr : bool) : list Z :=
  match load_width t with
  | Some w => (if addr then FINSH_OP_LD Dword else FINSH_OP_LD_VALUE w) :: dword_bytes a
  | None => []
  end.
Definition op_code (l : label) (addr : bool) (d : Z) (c : ast) : list Z :=
  match l with
  | LChar v => [FINSH_OP_LD Byte; low 8 v]
  | LLong v => FINSH_OP_LD Dword :: dword_bytes v
  | LVar t a | LSysvar t a => var_code t a addr
  | LFunc f => FINSH_OP_LD Dword :: dword_bytes f
  | LBin o => width_code d (λ w, [FINSH_OP_BIN o w])
  | LNot => width_code d (λ w, [FINSH_OP_BITWISE w])
  | LAssign => width_code d (λ w, [FINSH_OP_ST w; FINSH_OP_LD_VALUE_STACK w])
  | LPre up =>
    match c with
    | ANode (LVar _ a) _ _ => width_code d (λ w, step_code (step_op up) w a ++ [FINSH_OP_LD_VALUE_STACK Dword])
    | _ => []
    end
  | LPost up =>
    match c with
    | ANode (LVar _ a) _ _ =>
      width_code d (λ w, FINSH_OP_LD Dword :: dword_bytes a ++ step_code (step_op up) w a ++ [FINSH_OP_POP])
    | _ => []
    end
  | LDeref => if addr then [] else width_code d (λ w, [FINSH_OP_LD_VALUE_STACK w])
  | LAddr => []
  | LCall => [FINSH_OP_SYSCALL; Z.of_nat (pred (trees c))]
  end.
Fixpoint code (addr : bool) (t : ast) : list Z :=
  match t with
  | ANil => []
  | ANode l c s => code (addr_child l addr) c ++ op_code l addr (dtype t) c ++ code false s
  end.

(** * Programs *)

(** The trees of a program are its statements: each is run on its own, and the values of
    all but the last are dropped. *)
Fixpoint program_code (t : ast) : list Z :=
  match t with
  | ANil => []
  | ANode l c ANil => code false t
  | ANode l c s => code false (ANode l c ANil) ++ FINSH_OP_POP :: program_code s
  end.
Fixpoint eval_program (fcall : Z → list Z → gmap Z Z → option (Z * gmap Z Z)) (t : ast)
    (m : gmap Z Z) : option (Z * gmap Z Z) :=
  match t with
  | ANil => None
  | ANode l c s =>
    '(vs, m1) ← eval fcall false (ANode l c ANil) m;
    match s with
    | ANil => v ← head vs; Some (v, m1)
    | _ => eval_program fcall s m1
    end
  end.
