(* ===== verification/FinshVmFacts.v ===== *)
(** The machine of FinSH runs the code of a typed tree to its meaning. *)

From stdpp Require Import base list gmap.
From Stdlib Require Import ZArith Lia.
From S2P Require Import Prelude Halts Kservice FinshState FinshVar FinshVm FinshCompiler FinshSem.

Open Scope Z_scope.

(** * Widths *)

Lemma low_idem w x : 0 ≤ w → low w (low w x) = low w x.
Proof. intros. unfold low. apply Z.mod_mod. lia. Qed.
Lemma low_low w w' x : 0 ≤ w ≤ w' → low w (low w' x) = low w x.
Proof.
  intros Hw. unfold low. apply Z.bits_inj'. intros j Hj.
  destruct (Z.lt_ge_cases j w).
  - by rewrite !Z.mod_pow2_bits_low by lia.
  - by rewrite !Z.mod_pow2_bits_high by lia.
Qed.
Lemma low_small w x : 0 ≤ x < 2 ^ w → low w x = x.
Proof. apply Z.mod_small. Qed.
Lemma low_range w x : 0 ≤ w → 0 ≤ low w x < 2 ^ w.
Proof. intros. apply Z.mod_pos_bound. lia. Qed.

Lemma low_value w x : low (bits w) (value w x) = low (bits w) x.
Proof. destruct w; unfold low, value, u8, i16, i32, bits; Z.to_euclidean_division_equations; lia. Qed.
Lemma value_low w x y : low (bits w) x = low (bits w) y → value w x = value w y.
Proof.
  destruct w; unfold low, value, u8, i16, i32, bits; intros E; [done|..];
    Z.to_euclidean_division_equations; lia.
Qed.
Lemma value_value w x : value w (value w x) = value w x.
Proof. apply value_low, low_value. Qed.
Lemma value_fits w w' x : fits w w' = true → value w (value w' x) = value w x.
Proof.
  unfold fits. intros Hf%Z.leb_le. apply value_low.
  assert (0 ≤ bits w) by (by destruct w).
  rewrite <- (low_low (bits w) (bits w') (value w' x)), low_value, low_low by lia. done.
Qed.

Lemma set_low_range w x v : 0 ≤ w ≤ 32 → 0 ≤ x < 2 ^ 32 → 0 ≤ set_low w x v < 2 ^ 32.
Proof.
  intros Hw Hx. unfold set_low.
  pose proof (low_range w v ltac:(lia)). pose proof (low_range w x ltac:(lia)).
  assert (x = 2 ^ w * (x / 2 ^ w) + low w x) as E by (unfold low; apply Z.div_mod; lia).
  assert (2 ^ 32 = 2 ^ w * 2 ^ (32 - w)) as E2 by (rewrite <- Z.pow_add_r by lia; f_equal; lia).
  assert (0 ≤ x / 2 ^ w) by (apply Z.div_pos; lia).
  assert (x / 2 ^ w < 2 ^ (32 - w)).
  { apply Z.div_lt_upper_bound; lia. }
  set (q := x / 2 ^ w) in *. set (p := 2 ^ w) in *. set (r := 2 ^ (32 - w)) in *.
  rewrite E2. assert (p * q ≤ p * (r - 1)) by (apply Z.mul_le_mono_nonneg_l; lia). lia.
Qed.
Lemma low_set_low w x v : 0 ≤ w → low w (set_low w x v) = low w v.
Proof.
  intros Hw. unfold set_low, low.
  replace (x - x mod 2 ^ w + v mod 2 ^ w) with (v mod 2 ^ w + (x / 2 ^ w) * 2 ^ w)
    by (pose proof (Z.div_mod x (2 ^ w)); lia).
  rewrite Z.mod_add by lia. apply Z.mod_mod. lia.
Qed.
Lemma bits_range32 w : 0 ≤ bits w ≤ 32.
Proof. destruct w; simpl; lia. Qed.
Lemma value_set_member w x v : value w (set_member w x v) = value w v.
Proof. apply value_low. unfold set_member. apply low_set_low, bits_range32. Qed.
Lemma set_member_range w x v : 0 ≤ x < 2 ^ 32 → 0 ≤ set_member w x v < 2 ^ 32.
Proof. apply set_low_range, bits_range32. Qed.

(** * Memory *)

Definition bytes_ok (m : gmap Z Z) : Prop := map_Forall (λ _ b, 0 ≤ b < 2 ^ 8) m.

Lemma pow8_S n : 2 ^ (8 * Z.of_nat (S n)) = 2 ^ 8 * 2 ^ (8 * Z.of_nat n).
Proof. rewrite <- Z.pow_add_r by lia. f_equal. lia. Qed.

Lemma read_bytes_range m a n r :
  bytes_ok m → read_bytes m a n = Some r → 0 ≤ r < 2 ^ (8 * Z.of_nat n).
Proof.
  intros Hm. revert a r. induction n as [|n IH]; intros a r; cbn [read_bytes].
  - intros [= <-]. simpl. lia.
  - destruct (m !! a) as [b|] eqn:Eb; simpl; [|done].
    destruct (read_bytes m (a + 1) n) as [r'|] eqn:Er; simpl; [|done]. intros [= <-].
    specialize (IH _ _ Er). apply Hm in Eb. simpl in Eb. rewrite pow8_S. lia.
Qed.
(** A narrower read sees the low bytes. *)
Lemma read_bytes_narrow m a n k r :
  bytes_ok m → read_bytes m a (n + k) = Some r →
  read_bytes m a n = Some (low (8 * Z.of_nat n) r).
Proof.
  intros Hm. revert a r. induction n as [|n IH]; intros a r; cbn [read_bytes Nat.add].
  - intros _. f_equal. unfold low. simpl. by rewrite Z.mod_1_r.
  - destruct (m !! a) as [b|] eqn:Eb; simpl; [|done].
    destruct (read_bytes m (a + 1) (n + k)) as [r'|] eqn:Er; simpl; [|done]. intros [= <-].
    rewrite (IH _ _ Er). simpl. f_equal. unfold low. rewrite pow8_S.
    apply Hm in Eb. simpl in Eb. rewrite Z.rem_mul_r by lia.
    rewrite (Z.mul_comm (2 ^ 8) r'), Z.mod_add, Z.div_add, (Z.mod_small b), (Z.div_small b) by lia.
    rewrite Z.add_0_l. done.
Qed.

Lemma write_bytes_low m a n v v' :
  low (8 * Z.of_nat n) v = low (8 * Z.of_nat n) v' → write_bytes m a n v = write_bytes m a n v'.
Proof.
  revert m a v v'. induction n as [|n IH]; intros m a v v' E; [done|]. cbn [write_bytes].
  destruct (m !! a); simpl; [|done]. unfold low in E. rewrite pow8_S in E.
  rewrite !Z.rem_mul_r in E by lia.
  pose proof (Z.mod_pos_bound v (2 ^ 8)). pose proof (Z.mod_pos_bound v' (2 ^ 8)).
  assert (v mod 2 ^ 8 = v' mod 2 ^ 8 ∧
    (v / 2 ^ 8) mod 2 ^ (8 * Z.of_nat n) = (v' / 2 ^ 8) mod 2 ^ (8 * Z.of_nat n)) as [E1 E2] by lia.
  rewrite E1. by apply IH.
Qed.
Lemma write_bytes_ok m a n v m' : bytes_ok m → write_bytes m a n v = Some m' → bytes_ok m'.
Proof.
  revert m a v. induction n as [|n IH]; intros m a v Hm; cbn [write_bytes].
  - by intros [= <-].
  - destruct (m !! a); simpl; [|done]. apply IH. apply map_Forall_insert_2; [|done].
    apply Z.mod_pos_bound. lia.
Qed.
Lemma write_bytes_below m a n v m' b : write_bytes m a n v = Some m' → b < a → m' !! b = m !! b.
Proof.
  revert m a v. induction n as [|n IH]; intros m a v; cbn [write_bytes].
  - by intros [= <-].
  - destruct (m !! a); simpl; [|done]. intros E Hb. rewrite (IH _ _ _ E) by lia.
    by rewrite lookup_insert_ne by lia.
Qed.
Lemma read_write m a n v m' :
  write_bytes m a n v = Some m' → read_bytes m' a n = Some (low (8 * Z.of_nat n) v).
Proof.
  revert m a v. induction n as [|n IH]; intros m a v; cbn [write_bytes read_bytes].
  - intros _. f_equal. unfold low. simpl. by rewrite Z.mod_1_r.
  - destruct (m !! a); simpl; [|done]. intros E.
    rewrite (write_bytes_below _ _ _ _ _ a E), lookup_insert_eq by lia. simpl.
    rewrite (IH _ _ _ E). simpl. f_equal. unfold low. rewrite pow8_S, Z.rem_mul_r by lia. lia.
Qed.

(** The bytes of an operand. *)
Lemma dword_bytes_get a :
  ∃ b0 b1 b2 b3, dword_bytes a = [b0; b1; b2; b3] ∧
    Z.lor (Z.lor (Z.lor b0 (Z.shiftl b1 8)) (Z.shiftl b2 16)) (Z.shiftl b3 24) = u32 a.
Proof.
  unfold dword_bytes. set (v := u32 a). do 4 eexists. split; [done|].
  apply Z.bits_inj'. intros j Hj.
  rewrite !Z.lor_spec, !Z.shiftl_spec, !Z.land_spec by lia.
  change 255 with (Z.ones 8).
  destruct (Z.lt_ge_cases j 8).
  { rewrite !(Z.testbit_neg_r _ (j - _)), Z.ones_spec_low by lia. by rewrite !orb_false_r, andb_true_r. }
  rewrite (Z.ones_spec_high 8 j), andb_false_r by lia. simpl.
  destruct (Z.lt_ge_cases j 16).
  { rewrite !(Z.testbit_neg_r _ (j - 16)), !(Z.testbit_neg_r _ (j - 24)), Z.ones_spec_low, Z.shiftr_spec by lia.
    rewrite !orb_false_r, andb_true_r. f_equal. lia. }
  rewrite (Z.ones_spec_high 8 (j - 8)), andb_false_r by lia. simpl.
  destruct (Z.lt_ge_cases j 24).
  { rewrite !(Z.testbit_neg_r _ (j - 24)), Z.ones_spec_low, Z.shiftr_spec by lia.
    rewrite !orb_false_r, andb_true_r. f_equal. lia. }
  rewrite (Z.ones_spec_high 8 (j - 16)), andb_false_r by lia. simpl.
  rewrite Z.shiftr_spec by lia. f_equal. lia.
Qed.
Lemma set_member_dword x v : 0 ≤ x < 2 ^ 32 → set_member Dword x v = u32 v.
Proof. intros Hx. unfold set_member, set_low. simpl. rewrite (low_small 32 x) by done. unfold low, u32. lia. Qed.
Lemma u32_value a : u32 (value Dword a) = u32 a.
Proof. apply (low_value Dword). Qed.
Lemma u32_idem a : u32 (u32 a) = u32 a.
Proof. apply Z.mod_mod. done. Qed.
Lemma u32_small a : 0 ≤ a < 2 ^ 32 → u32 a = a.
Proof. apply Z.mod_small. Qed.

(** * Configurations *)

(** The machine at [pc] with the slots [σ] in use and the slots [J] above. *)
Record conf := Conf { c_pc : nat; c_used : list Z; c_junk : list Z; c_mem : gmap Z Z }.
Definition vm (s : finsh) (c : conf) : finsh :=
  Finsh (f_nodes s) (f_vars s) (f_sysvar_list s) (f_syscall_list s) (f_errno s) (c_mem c)
    (f_free_list s) (f_allocate_list s) (f_token s) (f_root s) (f_text s) (f_compile_pc s)
    (c_used c ++ c_junk c) (Z.of_nat (length (c_used c))) (c_pc c).

Definition code_at (s : finsh) (pc : nat) (cs : list Z) : Prop :=
  ∃ pre post, f_text s = pre ++ cs ++ post ∧ length pre = pc.

Lemma code_at_app s pc cs ds :
  code_at s pc (cs ++ ds) → code_at s pc cs ∧ code_at s (pc + length cs) ds.
Proof.
  intros (pre & post & E & <-). split.
  - exists pre, (ds ++ post). by rewrite E, <- app_assoc.
  - exists (pre ++ cs), post. rewrite E, length_app, <- !app_assoc. done.
Qed.
Lemma code_at_cons s pc b ds :
  code_at s pc (b :: ds) → f_text s !! pc = Some b ∧ code_at s (S pc) ds.
Proof.
  intros H. assert (code_at s pc ([b] ++ ds)) as [(pre & post & E & <-) H2]%code_at_app by done. split.
  - rewrite E. by rewrite lookup_app_r, Nat.sub_diag by lia.
  - by rewrite Nat.add_1_r in H2.
Qed.
Lemma code_at_app_l s pc cs ds : code_at s pc (cs ++ ds) → code_at s pc cs.
Proof. by intros [??]%code_at_app. Qed.
Lemma code_at_app_r s pc cs ds : code_at s pc (cs ++ ds) → code_at s (pc + length cs) ds.
Proof. by intros [??]%code_at_app. Qed.

#[local] Arguments op_table : simpl never.
#[local] Arguments Z.to_nat : simpl never.

(** Equality of states up to the fields that were set. *)
Ltac finsh_eq := cbv [set_f_pc set_f_sp set_f_stack set_f_mem]; simpl; f_equal; try lia; try done.

Lemma code_at_pc s pc pc' cs : code_at s pc cs → pc = pc' → code_at s pc' cs.
Proof. by intros ? <-. Qed.
Lemma one_length w : length (one_bytes w) = size w.
Proof. by destruct w. Qed.

Section run.
Context (call : Z → list Z → F Z).

Abbreviation vm_step := (FinshVm.vm_step call).
Abbreviation vm_loop := (FinshVm.vm_loop call).

(** A turn of the machine. *)
Definition turn (s : finsh) (c c' : conf) : Prop :=
  vm_step (vm s c) = Done tt (vm s c') ∧ (c_pc c < c_pc c')%nat ∧ (c_pc c < length (f_text s))%nat.

Lemma turn_op s pc σ J m op (f : F unit) c' :
  f_text s !! pc = Some op → op_table call !! Z.to_nat op = Some (Some f) →
  f (vm s (Conf (S pc) σ J m)) = Done tt (vm s c') → (pc < c_pc c')%nat →
  turn s (Conf pc σ J m) c'.
Proof.
  intros Ht Ho Hf Hpc. split; [|split; [done|by eapply lookup_lt_Some]].
  unfold FinshVm.vm_step, getf, text_byte. cbv [mbind mret SM_bind SM_ret get]. simpl. rewrite Ht. simpl.
  rewrite Ho. rewrite <- Hf. f_equal. unfold vm. simpl. by rewrite Nat.add_1_r.
Qed.

(** The loop follows turns; it ends at the end of the text. *)
Lemma vm_loop_turns s c c' fuel :
  length (f_text s) = FINSH_TEXT_MAX → rtc (turn s) c c' → (FINSH_TEXT_MAX ≤ c_pc c + fuel)%nat →
  ∃ fuel', vm_loop fuel (vm s c) = vm_loop fuel' (vm s c') ∧ (FINSH_TEXT_MAX ≤ c_pc c' + fuel')%nat.
Proof.
  intros Hl Hr. revert fuel. induction Hr as [c|c c1 c2 (Hs & Hpc & Hlt) _ IH]; intros fuel Hf; [eauto|].
  rewrite Hl in Hlt. destruct fuel as [|fuel]; [lia|].
  destruct (IH fuel ltac:(lia)) as (fuel' & E & Hf'). exists fuel'. split; [|done].
  rewrite <- E. cbn [FinshVm.vm_loop]. unfold getf. cbv [mbind mret SM_bind SM_ret get].
  change (f_pc (vm s c)) with (c_pc c). rewrite (proj2 (Nat.ltb_lt _ _) Hlt). by rewrite Hs.
Qed.
Lemma vm_loop_end s c fuel : (FINSH_TEXT_MAX ≤ c_pc c)%nat → vm_loop fuel (vm s c) = Done tt (vm s c).
Proof.
  intros Hpc. destruct fuel; cbn [FinshVm.vm_loop]; unfold getf; cbv [mbind mret SM_bind SM_ret get];
    change (f_pc (vm s c)) with (c_pc c); by rewrite (proj2 (Nat.ltb_ge _ _) Hpc).
Qed.
(** The zeros behind the code do nothing. *)
Lemma noop_turns s pc n σ J m :
  code_at s pc (replicate n 0) → rtc (turn s) (Conf pc σ J m) (Conf (pc + n) σ J m).
Proof.
  revert pc. induction n as [|n IH]; intros pc H; [by rewrite Nat.add_0_r|].
  simpl in H. apply code_at_cons in H as [Ht H].
  apply rtc_l with (Conf (S pc) σ J m).
  - eapply turn_op; [done|done|done|simpl; lia].
  - replace (pc + S n)%nat with (S pc + n)%nat by lia. by apply IH.
Qed.

(** * Operations *)


Lemma get_slot_vm s pc σ J m i x :
  (σ ++ J) !! i = Some x → get_slot (Z.of_nat i) (vm s (Conf pc σ J m)) = Done x (vm s (Conf pc σ J m)).
Proof.
  intros Hi. unfold get_slot, getf. rewrite (proj2 (Z.ltb_ge (Z.of_nat i) 0)) by lia.
  cbv [mbind mret SM_bind SM_ret get]. simpl. by rewrite Nat2Z.id, Hi.
Qed.

Lemma put_slot_vm s pc σ J m i x v :
  (σ ++ J) !! i = Some x →
  put_slot (Z.of_nat i) v (vm s (Conf pc σ J m))
  = Done tt (set_f_stack (<[i := v]> (σ ++ J)) (vm s (Conf pc σ J m))).
Proof.
  intros Hi. unfold put_slot. rewrite (bind_done _ _ _ _ _ (get_slot_vm _ _ _ _ _ _ _ Hi)).
  cbv [modify]. simpl. by rewrite Nat2Z.id.
Qed.
Lemma vm_eq s c pc σ J m :
  c_pc c = pc → c_used c ++ c_junk c = σ ++ J → length (c_used c) = length σ → c_mem c = m →
  vm s c = vm s (Conf pc σ J m).
Proof. intros <- E El <-. unfold vm. simpl. by rewrite E, El. Qed.

Lemma push_vm s pc σ x J m w v :
  push w v (vm s (Conf pc σ (x :: J) m)) = Done tt (vm s (Conf pc (σ ++ [set_member w x v]) J m)).
Proof.
  assert (Hl : (σ ++ x :: J) !! length σ = Some x) by by rewrite lookup_app_r, Nat.sub_diag by lia.
  unfold push. erewrite bind_done by done.
  erewrite bind_done by (by apply get_slot_vm).
  erewrite bind_done by (by eapply put_slot_vm).
  unfold move_sp, modify. f_equal. unfold vm. simpl.
  rewrite insert_app_r_alt, Nat.sub_diag, <- app_assoc, length_app by lia. finsh_eq.
Qed.
Lemma OP_BIN_vm s pc σ x y J m w o r :
  c_binop o (value w x) (value w y) = Some r →
  OP_BIN w o (vm s (Conf pc (σ ++ [x; y]) J m)) = Done tt (vm s (Conf pc (σ ++ [set_member w x r]) (y :: J) m)).
Proof.
  intros Hr. unfold OP_BIN. erewrite bind_done by done. simpl.
  replace (Z.of_nat (length (σ ++ [x; y])) - 2) with (Z.of_nat (length σ)) by (rewrite length_app; simpl; lia).
  replace (Z.of_nat (length (σ ++ [x; y])) - 1) with (Z.of_nat (S (length σ))) by (rewrite length_app; simpl; lia).
  assert (((σ ++ [x; y]) ++ J) !! length σ = Some x) by (rewrite <- app_assoc, lookup_app_r, Nat.sub_diag by lia; done).
  assert (((σ ++ [x; y]) ++ J) !! S (length σ) = Some y).
  { rewrite <- app_assoc, lookup_app_r by lia. by replace (S (length σ) - length σ)%nat with 1%nat by lia. }
  erewrite bind_done by (by apply get_slot_vm).
  erewrite bind_done by (by apply get_slot_vm).
  rewrite Hr. erewrite bind_done by done.
  erewrite bind_done by (by eapply put_slot_vm).
  unfold move_sp, modify. f_equal. unfold vm. simpl.
  rewrite <- !app_assoc, insert_app_r_alt, Nat.sub_diag, !length_app by lia. finsh_eq.
Qed.
Lemma OP_bw_vm s pc σ x J m w :
  OP_bw w (vm s (Conf pc (σ ++ [x]) J m))
  = Done tt (vm s (Conf pc (σ ++ [set_member w x (Z.lnot (value w x))]) J m)).
Proof.
  unfold OP_bw. erewrite bind_done by done. simpl.
  replace (Z.of_nat (length (σ ++ [x])) - 1) with (Z.of_nat (length σ)) by (rewrite length_app; simpl; lia).
  assert (((σ ++ [x]) ++ J) !! length σ = Some x) by (rewrite <- app_assoc, lookup_app_r, Nat.sub_diag by lia; done).
  erewrite bind_done by (by apply get_slot_vm).
  erewrite put_slot_vm by done. f_equal. unfold vm. simpl.
  rewrite <- !app_assoc, insert_app_r_alt, Nat.sub_diag, !length_app by lia. finsh_eq.
Qed.
Lemma load_vm s pc σ J m w a r :
  a mod Z.of_nat (size w) = 0 → read_bytes m a (size w) = Some r →
  load (size w) a (vm s (Conf pc σ J m)) = Done r (vm s (Conf pc σ J m)).
Proof.
  intros Ha Hr. unfold load. rewrite Ha. simpl. erewrite bind_done by done. simpl. by rewrite Hr.
Qed.
Lemma OP_ld_value_stack_vm s pc σ a J m w r :
  a mod Z.of_nat (size w) = 0 → read_bytes m a (size w) = Some r →
  OP_ld_value_stack w (vm s (Conf pc (σ ++ [a]) J m)) = Done tt (vm s (Conf pc (σ ++ [set_member w a r]) J m)).
Proof.
  intros Ha Hr. unfold OP_ld_value_stack. erewrite bind_done by done. simpl.
  replace (Z.of_nat (length (σ ++ [a])) - 1) with (Z.of_nat (length σ)) by (rewrite length_app; simpl; lia).
  assert (((σ ++ [a]) ++ J) !! length σ = Some a) by (rewrite <- app_assoc, lookup_app_r, Nat.sub_diag by lia; done).
  erewrite bind_done by (by apply get_slot_vm).
  erewrite bind_done by (by apply load_vm).
  erewrite put_slot_vm by done. f_equal. unfold vm. simpl.
  rewrite <- !app_assoc, insert_app_r_alt, Nat.sub_diag, !length_app by lia. finsh_eq.
Qed.
Lemma OP_st_vm s pc σ a x J m m' w :
  a mod Z.of_nat (size w) = 0 → write_bytes m a (size w) x = Some m' →
  OP_st w (vm s (Conf pc (σ ++ [a; x]) J m)) = Done tt (vm s (Conf pc (σ ++ [a]) (x :: J) m')).
Proof.
  intros Ha Hw. unfold OP_st. erewrite bind_done by done. simpl.
  replace (Z.of_nat (length (σ ++ [a; x])) - 2) with (Z.of_nat (length σ)) by (rewrite length_app; simpl; lia).
  replace (Z.of_nat (length (σ ++ [a; x])) - 1) with (Z.of_nat (S (length σ))) by (rewrite length_app; simpl; lia).
  assert (((σ ++ [a; x]) ++ J) !! length σ = Some a) by (rewrite <- app_assoc, lookup_app_r, Nat.sub_diag by lia; done).
  assert (((σ ++ [a; x]) ++ J) !! S (length σ) = Some x).
  { rewrite <- app_assoc, lookup_app_r by lia. by replace (S (length σ) - length σ)%nat with 1%nat by lia. }
  erewrite bind_done by (by apply get_slot_vm).
  erewrite bind_done by (by apply get_slot_vm).
  unfold store. rewrite Ha. simpl. unfold getf. cbv [mbind mret SM_bind SM_ret get]. simpl. rewrite Hw. simpl.
  unfold move_sp, modify. f_equal. unfold vm. simpl.
  rewrite <- !app_assoc, !length_app. finsh_eq.
Qed.
Lemma OP_pop_vm s pc σ x J m :
  OP_pop (vm s (Conf pc (σ ++ [x]) J m)) = Done tt (vm s (Conf pc σ (x :: J) m)).
Proof.
  unfold OP_pop, move_sp, modify. f_equal. unfold vm. simpl. rewrite <- !app_assoc, !length_app. finsh_eq.
Qed.

Lemma text_byte_vm s c i b : f_text s !! i = Some b → text_byte i (vm s c) = Done b (vm s c).
Proof. intros Hb. unfold text_byte. erewrite bind_done by done. simpl. by rewrite Hb. Qed.
Lemma GET32_vm s c pc a :
  code_at s pc (dword_bytes a) → FINSH_GET32 pc (vm s c) = Done (u32 a) (vm s c).
Proof.
  destruct (dword_bytes_get a) as (b0 & b1 & b2 & b3 & -> & <-).
  intros [H0 [H1 [H2 [H3 _]%code_at_cons]%code_at_cons]%code_at_cons]%code_at_cons.
  unfold FINSH_GET32. rewrite (Nat.add_comm pc 2), (Nat.add_comm pc 3).
  by do 4 erewrite bind_done by (by apply text_byte_vm).
Qed.
Lemma move_pc_vm s pc σ J m d :
  move_pc d (vm s (Conf pc σ J m)) = Done tt (vm s (Conf (pc + d) σ J m)).
Proof. done. Qed.

(** The turns of the instructions.  [code_at] gives the instruction with its operand. *)
Ltac solve_turn :=
  intros [Hop Hargs]%code_at_cons; eapply turn_op; [exact Hop|reflexivity|..|simpl; lia].

Lemma turn_ld_dword s pc σ x J m a :
  0 ≤ x < 2 ^ 32 → code_at s pc (FINSH_OP_LD Dword :: dword_bytes a) →
  turn s (Conf pc σ (x :: J) m) (Conf (pc + 5) (σ ++ [u32 a]) J m).
Proof.
  intros Hx. solve_turn. unfold OP_ld. erewrite bind_done by done. simpl.
  erewrite bind_done by (by apply GET32_vm).
  erewrite bind_done by apply push_vm. rewrite move_pc_vm.
  rewrite set_member_dword, u32_idem by done. do 2 f_equal. f_equal. simpl. lia.
Qed.
Lemma turn_ld_byte s pc σ x J m v :
  code_at s pc [FINSH_OP_LD Byte; v] →
  turn s (Conf pc σ (x :: J) m) (Conf (pc + 2) (σ ++ [set_member Byte x v]) J m).
Proof.
  solve_turn. apply code_at_cons in Hargs as [Hv _]. unfold OP_ld. erewrite bind_done by done. simpl.
  erewrite bind_done by (by apply text_byte_vm).
  erewrite bind_done by apply push_vm. rewrite move_pc_vm. do 2 f_equal. f_equal. simpl. lia.
Qed.
Lemma turn_ld_one s pc σ x J m w :
  code_at s pc (FINSH_OP_LD w :: one_bytes w) →
  turn s (Conf pc σ (x :: J) m) (Conf (pc + S (size w)) (σ ++ [set_member w x 1]) J m).
Proof.
  destruct w.
  - apply turn_ld_byte.
  - solve_turn. apply code_at_cons in Hargs as [H0 [H1 _]%code_at_cons].
    unfold OP_ld. erewrite bind_done by done. simpl. unfold FINSH_GET16.
    rewrite (bind_done _ _ _ 1 (vm s (Conf (S pc) σ (x :: J) m))).
    2:{ erewrite bind_done by (by apply text_byte_vm). by erewrite bind_done by (by apply text_byte_vm). }
    erewrite bind_done by apply push_vm. rewrite move_pc_vm. do 2 f_equal. f_equal. simpl. lia.
  - solve_turn. unfold OP_ld. erewrite bind_done by done. simpl.
    erewrite bind_done by (by apply (GET32_vm _ _ _ 1)).
    erewrite bind_done by apply push_vm. rewrite move_pc_vm. do 2 f_equal. f_equal. simpl. lia.
Qed.
Lemma turn_ld_value s pc σ x J m w a r :
  u32 a mod Z.of_nat (size w) = 0 → read_bytes m (u32 a) (size w) = Some r →
  code_at s pc (FINSH_OP_LD_VALUE w :: dword_bytes a) →
  turn s (Conf pc σ (x :: J) m) (Conf (pc + 5) (σ ++ [set_member w x r]) J m).
Proof.
  intros Ha Hr [Hop Hargs]%code_at_cons.
  eapply turn_op with (f := OP_ld_value w); [exact Hop|by destruct w| |simpl; lia].
  unfold OP_ld_value. erewrite bind_done by done. simpl.
  erewrite bind_done by (by apply GET32_vm).
  erewrite bind_done by (by apply load_vm).
  erewrite bind_done by apply push_vm. rewrite move_pc_vm. do 2 f_equal. f_equal. simpl. lia.
Qed.
Lemma turn_bin s pc σ x y J m w o r :
  c_binop o (value w x) (value w y) = Some r →
  code_at s pc [FINSH_OP_BIN o w] →
  turn s (Conf pc (σ ++ [x; y]) J m) (Conf (S pc) (σ ++ [set_member w x r]) (y :: J) m).
Proof.
  intros Hr [Hop _]%code_at_cons.
  eapply turn_op with (f := OP_BIN w o); [exact Hop|by destruct w, o|by apply OP_BIN_vm|simpl; lia].
Qed.
Lemma turn_bw s pc σ x J m w :
  code_at s pc [FINSH_OP_BITWISE w] →
  turn s (Conf pc (σ ++ [x]) J m) (Conf (S pc) (σ ++ [set_member w x (Z.lnot (value w x))]) J m).
Proof.
  intros [Hop _]%code_at_cons.
  eapply turn_op with (f := OP_bw w); [exact Hop|by destruct w|apply OP_bw_vm|simpl; lia].
Qed.
Lemma turn_ld_value_stack s pc σ a J m w r :
  a mod Z.of_nat (size w) = 0 → read_bytes m a (size w) = Some r →
  code_at s pc [FINSH_OP_LD_VALUE_STACK w] →
  turn s (Conf pc (σ ++ [a]) J m) (Conf (S pc) (σ ++ [set_member w a r]) J m).
Proof.
  intros Ha Hr [Hop _]%code_at_cons.
  eapply turn_op with (f := OP_ld_value_stack w); [exact Hop|by destruct w|by apply OP_ld_value_stack_vm|simpl; lia].
Qed.
Lemma turn_st s pc σ a x J m m' w :
  a mod Z.of_nat (size w) = 0 → write_bytes m a (size w) x = Some m' →
  code_at s pc [FINSH_OP_ST w] →
  turn s (Conf pc (σ ++ [a; x]) J m) (Conf (S pc) (σ ++ [a]) (x :: J) m').
Proof.
  intros Ha Hw [Hop _]%code_at_cons.
  eapply turn_op with (f := OP_st w); [exact Hop|by destruct w|by apply OP_st_vm|simpl; lia].
Qed.
Lemma turn_pop s pc σ x J m :
  code_at s pc [FINSH_OP_POP] → turn s (Conf pc (σ ++ [x]) J m) (Conf (S pc) σ (x :: J) m).
Proof.
  intros [Hop _]%code_at_cons.
  eapply turn_op with (f := OP_pop); [exact Hop|done|apply OP_pop_vm|simpl; lia].
Qed.

(** * Calls *)

Lemma move_sp_vm s pc U y J m :
  move_sp (- 1) (vm s (Conf pc (U ++ [y]) J m)) = Done tt (vm s (Conf pc U (y :: J) m)).
Proof. apply OP_pop_vm. Qed.
Lemma get_slot_top s pc U x J m :
  get_slot (f_sp (vm s (Conf pc U (x :: J) m))) (vm s (Conf pc U (x :: J) m))
  = Done x (vm s (Conf pc U (x :: J) m)).
Proof. apply (get_slot_vm _ _ _ _ _ (length U)). by rewrite lookup_app_r, Nat.sub_diag by lia. Qed.

(** The parameters are read from the last to the first; [y] is the topmost of the function
    and the parameters. *)
Lemma call_params_vm s pc U m f args L y acc J :
  f :: args = L ++ [y] → (length args ≤ 16)%nat →
  call_params (length args) acc (vm s (Conf pc (U ++ L) (y :: J) m))
  = Done (args ++ acc) (vm s (Conf pc U (f :: args ++ J) m)).
Proof.
  revert L y acc J. induction args as [|a args IH] using rev_ind; intros L y acc J EL Hn.
  - destruct L as [|z L]; [|by destruct L]. injection EL as <-. simpl. by rewrite app_nil_r.
  - change (f :: args ++ [a]) with ((f :: args) ++ [a]) in EL. apply app_inj_tail in EL as [<- <-].
    rewrite length_app in Hn |- *. simpl in Hn |- *. rewrite Nat.add_1_r. cbn [call_params].
    erewrite bind_done by done. erewrite bind_done by apply get_slot_top.
    rewrite (proj2 (Nat.leb_gt _ _)) by lia.
    destruct (exists_last (l := f :: args) ltac:(done)) as (L' & y' & E').
    rewrite E', app_assoc. erewrite bind_done by apply move_sp_vm.
    rewrite (IH L' y' (a :: acc) (a :: J) E' ltac:(lia)). by rewrite <- !app_assoc.
Qed.
Lemma turn_call s pc U f args J m r m' :
  Forall (λ x, 0 ≤ x < 2 ^ 32) (f :: args) → (length args ≤ 16)%nat →
  (∀ c, c_mem c = m → call f args (vm s c) = Done r (vm s (Conf (c_pc c) (c_used c) (c_junk c) m'))) →
  code_at s pc [FINSH_OP_SYSCALL; Z.of_nat (length args)] →
  turn s (Conf pc (U ++ f :: args) J m) (Conf (pc + 2) (U ++ [u32 r]) (args ++ J) m').
Proof.
  intros Hx Hn Hc [Hop [Hp _]%code_at_cons]%code_at_cons.
  eapply turn_op with (f := OP_call call); [exact Hop|done| |simpl; lia].
  unfold OP_call. erewrite bind_done by done. simpl.
  erewrite bind_done by (by apply text_byte_vm).
  erewrite bind_done by apply move_pc_vm.
  destruct (exists_last (l := f :: args) ltac:(done)) as (L & y & EL).
  rewrite EL, app_assoc. erewrite bind_done by apply move_sp_vm. rewrite Nat2Z.id.
  erewrite bind_done by (by apply (call_params_vm _ _ _ _ f args L y)).
  rewrite app_nil_r. erewrite bind_done by done. erewrite bind_done by apply get_slot_top.
  rewrite (proj2 (Z.leb_le _ _)) by lia.
  erewrite bind_done by (by apply Hc).
  erewrite bind_done by done. simpl.
  erewrite bind_done.
  2:{ eapply put_slot_vm. by rewrite lookup_app_r, Nat.sub_diag by lia. }
  unfold move_sp, modify. f_equal. unfold vm. simpl.
  rewrite insert_app_r_alt, Nat.sub_diag, <- app_assoc, length_app by lia. finsh_eq.
Qed.
End run.

(** * Typed trees *)

(** A slot that holds the value [v] of width [w]. *)
Definition slot_ok (w : width) (v x : Z) : Prop := 0 ≤ x < 2 ^ 32 ∧ value w x = v.

(** The slots the code of a tree uses at most. *)
Fixpoint depth (t : ast) : nat :=
  match t with
  | ANil => 0
  | ANode l c s => (depth c `max` ((match l with LPost _ => 4 | LPre _ => 3 | _ => 1 end) `max` S (depth s)))%nat
  end.
Definition words (J : list Z) : Prop := Forall (λ x, 0 ≤ x < 2 ^ 32) J.

Lemma bits_size w : bits w = 8 * Z.of_nat (size w).
Proof. by destruct w. Qed.
Lemma write_bytes_value m a w x y :
  value w x = value w y → write_bytes m a (size w) x = write_bytes m a (size w) y.
Proof.
  intros E. apply write_bytes_low. rewrite <- bits_size, <- (low_value w x), <- (low_value w y).
  by rewrite E.
Qed.
Lemma mload_inv w a m v :
  mload w a m = Some v →
  a mod Z.of_nat (size w) = 0 ∧ ∃ r, read_bytes m a (size w) = Some r ∧ value w r = v.
Proof.
  unfold mload. case_match eqn:Ea; [|done]. apply Z.eqb_eq in Ea.
  intros (r & Hr & [= <-])%bind_Some. eauto.
Qed.
Lemma mstore_inv w a x m m' :
  mstore w a x m = Some m' → a mod Z.of_nat (size w) = 0 ∧ write_bytes m a (size w) x = Some m'.
Proof. unfold mstore. case_match eqn:Ea; [|done]. apply Z.eqb_eq in Ea. done. Qed.
Lemma slot_ok_word w v x : slot_ok w v x → 0 ≤ x < 2 ^ 32.
Proof. by intros []. Qed.
Lemma slot_ok_fits w w' v x : slot_ok w' v x → fits w w' = true → value w x = value w v.
Proof. intros [_ <-] Hf. by rewrite value_fits. Qed.
Lemma slot_ok_u32 v x : slot_ok Dword v x → u32 v = x.
Proof. intros [Hx <-]. rewrite u32_value. by apply u32_small. Qed.
Lemma slot_ok_set w x r : 0 ≤ x < 2 ^ 32 → slot_ok w (value w r) (set_member w x r).
Proof. intros Hx. split; [by apply set_member_range|apply value_set_member]. Qed.
Lemma slot_ok_u32_value a : slot_ok Dword (value Dword a) (u32 a).
Proof. split; [apply Z.mod_pos_bound; done|]. apply value_low. apply low_idem. done. Qed.

Section typed.
Context (call : Z → list Z → F Z) (fcall : Z → list Z → gmap Z Z → option (Z * gmap Z Z)).
Abbreviation turn := (turn call).

(** The system calls work on the memory alone. *)
Definition call_ok : Prop := ∀ f args s r m',
  fcall f args (f_mem s) = Some (r, m') →
  call f args s = Done r (set_f_mem m' s) ∧ (bytes_ok (f_mem s) → bytes_ok m').
Context (Hcall : call_ok) (s : finsh).

(** The machine gets from [c] to [pc] with one more slot on [σ] that holds the value [v];
    [n] is the room above [σ]. *)
Definition computes (c : conf) (pc : nat) (σ : list Z) (w : width) (v : Z) (m : gmap Z Z) (n : nat) : Prop :=
  ∃ x J, rtc (turn s) c (Conf pc (σ ++ [x]) J m) ∧ slot_ok w v x ∧ words J ∧ S (length J) = n ∧ bytes_ok m.

Lemma computes_turn c c' pc σ w v m n :
  turn s c c' → computes c' pc σ w v m n → computes c pc σ w v m n.
Proof. intros Ht (x & J & Hr & H). exists x, J. split; [by eapply rtc_l|done]. Qed.
Lemma computes_rtc c c' pc σ w v m n :
  rtc (turn s) c c' → computes c' pc σ w v m n → computes c pc σ w v m n.
Proof. intros Ht (x & J & Hr & H). exists x, J. split; [by etrans|done]. Qed.
Lemma computes_done pc σ w v m x J n :
  slot_ok w v x → words J → S (length J) = n → bytes_ok m →
  computes (Conf pc (σ ++ [x]) J m) pc σ w v m n.
Proof. intros. by exists x, J. Qed.

Lemma rtc_pc pc pc' σ J m : pc = pc' → rtc (turn s) (Conf pc σ J m) (Conf pc' σ J m).
Proof. by intros <-. Qed.

Lemma rtc_pc_l pc pc' σ J m c : pc = pc' → rtc (turn s) (Conf pc' σ J m) c → rtc (turn s) (Conf pc σ J m) c.
Proof. by intros <-. Qed.

(** The step of an increment, with the address of the variable on top. *)
Lemma step_turns pc σ a J m m' o w y r :
  mload w (u32 a) m = Some y → c_binop o y 1 = Some r → mstore w (u32 a) r m = Some m' →
  words J → (2 ≤ length J)%nat → bytes_ok m → code_at s pc (step_code o w a) →
  ∃ J', rtc (turn s) (Conf pc (σ ++ [u32 a]) J m)
          (Conf (pc + length (step_code o w a)) (σ ++ [u32 a]) J' m') ∧
        words J' ∧ length J' = length J ∧ bytes_ok m'.
Proof.
  intros (Ha & rr & Hr & Hy)%mload_inv Ho (_ & Hw)%mstore_inv HJ Hl Hm Hc.
  destruct J as [|x1 [|x2 J]]; [simpl in Hl; lia..|].
  apply Forall_cons in HJ as [Hx1 [Hx2 HJ]%Forall_cons].
  unfold step_code in Hc.
  change (FINSH_OP_LD_VALUE w :: dword_bytes a ++ FINSH_OP_LD w :: one_bytes w ++ [FINSH_OP_BIN o w; FINSH_OP_ST w])
    with ((FINSH_OP_LD_VALUE w :: dword_bytes a) ++ (FINSH_OP_LD w :: one_bytes w) ++
          [FINSH_OP_BIN o w] ++ [FINSH_OP_ST w]) in Hc.
  apply code_at_app in Hc as [C1 [C2 [C3 C4]%code_at_app]%code_at_app].
  assert (value w 1 = 1) as H1 by (by destruct w).
  exists (set_member w (set_member w x1 rr) r :: set_member w x2 1 :: J). split; [|split].
  - eapply rtc_l; [by eapply turn_ld_value|].
    eapply rtc_l; [eapply turn_ld_one; exact C2|].
    rewrite <- !app_assoc. simpl.
    replace (σ ++ [u32 a; set_member w x1 rr; set_member w x2 1])
      with ((σ ++ [u32 a]) ++ [set_member w x1 rr; set_member w x2 1]) by (by rewrite <- app_assoc).
    eapply rtc_l.
    { eapply turn_bin; [|by eapply code_at_pc; [exact C3|simpl; rewrite one_length; lia]]. by rewrite !value_set_member, Hy, H1. }
    rewrite <- app_assoc. eapply rtc_l.
    { eapply turn_st; [done| |].
      - rewrite (write_bytes_value _ _ w _ r) by (by rewrite value_set_member). exact Hw.
      - eapply code_at_pc; [exact C4|simpl; rewrite one_length; lia]. }
    apply rtc_pc; [|done..]. simpl. rewrite length_app, one_length. simpl. lia.
  - repeat constructor; [by repeat apply set_member_range|by repeat apply set_member_range|..|done];
      try (by apply set_member_range).
  - split; [done|]. by eapply write_bytes_ok.
Qed.

(** * Operators *)

(** The room an operator needs from its first operand on. *)
Definition room (l : label) : nat := match l with LPost _ => 4 | LPre _ => 3 | _ => 1 end.

Lemma exec_ld_dword pc σ J m a :
  words J → (1 ≤ length J)%nat → bytes_ok m → code_at s pc (FINSH_OP_LD Dword :: dword_bytes a) →
  computes (Conf pc σ J m) (pc + 5) σ Dword (value Dword a) m (length J).
Proof.
  intros HJ Hl Hm Hc. destruct J as [|x J]; [simpl in Hl; lia|]. apply Forall_cons in HJ as [Hx HJ].
  eapply computes_turn; [by apply turn_ld_dword|].
  apply computes_done; [apply slot_ok_u32_value|done..].
Qed.
Lemma exec_var pc σ J (m m' : gmap Z Z) t a (addr : bool) w v :
  load_width t = Some w →
  (if addr then Some (value Dword a, m) else v ← mload w (u32 a) m; Some (v, m)) = Some (v, m') →
  words J → (1 ≤ length J)%nat → bytes_ok m → code_at s pc (var_code t a addr) →
  computes (Conf pc σ J m) (pc + length (var_code t a addr)) σ (if addr then Dword else w) v m' (length J).
Proof.
  unfold var_code. intros -> Hv HJ Hl Hm Hc. destruct addr.
  - injection Hv as <- <-. by apply exec_ld_dword.
  - apply bind_Some in Hv as (v' & (Ha & r & Hr & <-)%mload_inv & [= <- <-]).
    destruct J as [|x J]; [simpl in Hl; lia|]. apply Forall_cons in HJ as [Hx HJ].
    eapply computes_turn; [by eapply turn_ld_value|].
    apply computes_done; [by apply slot_ok_set|done..].
Qed.
Lemma exec_bin pc σ x y J m o w w1 w2 v1 v2 r :
  slot_ok w1 v1 x → slot_ok w2 v2 y → fits w w1 = true → fits w w2 = true →
  c_binop o (value w v1) (value w v2) = Some r → words J → bytes_ok m →
  code_at s pc [FINSH_OP_BIN o w] →
  computes (Conf pc (σ ++ [x; y]) J m) (pc + 1) σ w (value w r) m (2 + length J).
Proof.
  intros H1 H2 F1 F2 Hr HJ Hm Hc.
  rewrite <- (slot_ok_fits _ _ _ _ H1 F1), <- (slot_ok_fits _ _ _ _ H2 F2) in Hr.
  eapply computes_turn; [by eapply turn_bin|]. rewrite Nat.add_1_r.
  apply computes_done; [by eapply slot_ok_set, slot_ok_word| |done..].
  constructor; [by eapply slot_ok_word|done].
Qed.
Lemma exec_not pc σ x J m w w1 v1 :
  slot_ok w1 v1 x → fits w w1 = true → words J → bytes_ok m → code_at s pc [FINSH_OP_BITWISE w] →
  computes (Conf pc (σ ++ [x]) J m) (pc + 1) σ w (value w (Z.lnot (value w v1))) m (1 + length J).
Proof.
  intros H1 F1 HJ Hm Hc. rewrite <- (slot_ok_fits _ _ _ _ H1 F1).
  eapply computes_turn; [by eapply turn_bw|]. rewrite Nat.add_1_r.
  by apply computes_done; [eapply slot_ok_set, slot_ok_word|..].
Qed.
Lemma exec_assign pc σ x y J m m' w w2 a v :
  slot_ok Dword a x → slot_ok w2 v y → fits w w2 = true → mstore w (u32 a) v m = Some m' →
  words J → bytes_ok m → code_at s pc [FINSH_OP_ST w; FINSH_OP_LD_VALUE_STACK w] →
  computes (Conf pc (σ ++ [x; y]) J m) (pc + 2) σ w (value w v) m' (2 + length J).
Proof.
  intros H1 H2 F2 (Ha & Hw)%mstore_inv HJ Hm Hc.
  rewrite (slot_ok_u32 _ _ H1) in Ha, Hw.
  change [FINSH_OP_ST w; FINSH_OP_LD_VALUE_STACK w] with ([FINSH_OP_ST w] ++ [FINSH_OP_LD_VALUE_STACK w]) in Hc.
  apply code_at_app in Hc as [C1 C2].
  rewrite (write_bytes_value _ _ w v y) in Hw by (symmetry; by eapply slot_ok_fits).
  eapply computes_turn; [by eapply turn_st|].
  eapply computes_turn.
  { eapply turn_ld_value_stack; [done|by eapply read_write|]. eapply code_at_pc; [exact C2|simpl; lia]. }
  replace (pc + 2)%nat with (S (S pc)) by lia.
  apply computes_done; [| |done|by eapply write_bytes_ok].
  - rewrite <- bits_size. rewrite <- (slot_ok_fits _ _ _ _ H2 F2).
    replace (value w y) with (value w (low (bits w) y)) by (apply value_low, low_idem, bits_range32).
    by eapply slot_ok_set, slot_ok_word.
  - constructor; [by eapply slot_ok_word|done].
Qed.
Lemma exec_deref pc σ x J m w a v :
  slot_ok Dword a x → mload w (u32 a) m = Some v → words J → bytes_ok m →
  code_at s pc [FINSH_OP_LD_VALUE_STACK w] →
  computes (Conf pc (σ ++ [x]) J m) (pc + 1) σ w v m (1 + length J).
Proof.
  intros H1 (Ha & r & Hr & <-)%mload_inv HJ Hm Hc. rewrite (slot_ok_u32 _ _ H1) in Ha, Hr.
  eapply computes_turn; [by eapply turn_ld_value_stack|]. rewrite Nat.add_1_r.
  by apply computes_done; [eapply slot_ok_set, slot_ok_word|..].
Qed.
Lemma exec_pre pc σ J m m' w up a y r v4 :
  mload w (u32 a) m = Some y → c_binop (step_op up) y 1 = Some r → mstore w (u32 a) r m = Some m' →
  mload Dword (u32 a) m' = Some v4 → words J → (2 ≤ length J)%nat → bytes_ok m →
  code_at s pc (step_code (step_op up) w a ++ [FINSH_OP_LD_VALUE_STACK Dword]) →
  computes (Conf pc (σ ++ [u32 a]) J m) (pc + length (step_code (step_op up) w a ++ [FINSH_OP_LD_VALUE_STACK Dword]))
    σ w (value w r) m' (1 + length J).
Proof.
  intros Hy Hr Hw (Ha & r4 & Hr4 & _)%mload_inv HJ Hl Hm [C1 C2]%code_at_app.
  destruct (step_turns pc σ a J m m' _ w y r Hy Hr Hw HJ Hl Hm C1) as (J' & Ht & HJ' & HlJ & Hm').
  eapply computes_rtc; [exact Ht|].
  eapply computes_turn; [by eapply turn_ld_value_stack|].
  rewrite length_app, Nat.add_assoc. cbn [length]. rewrite Nat.add_1_r.
  rewrite set_member_dword by apply Z.mod_pos_bound, eq_refl.
  apply computes_done; [|done|lia|done].
  split; [apply Z.mod_pos_bound; done|].
  apply mstore_inv in Hw as [_ Hw]. apply read_write in Hw. rewrite <- bits_size in Hw.
  assert (read_bytes m' (u32 a) (size w) = Some (low (bits w) r4)) as Hn.
  { rewrite bits_size. apply read_bytes_narrow with (4 - size w)%nat; [done|].
    by replace (size w + (4 - size w))%nat with (size Dword) by (by destruct w). }
  rewrite Hw in Hn. injection Hn as Hn. apply value_low. rewrite Hn.
  change (u32 r4) with (low 32 r4). apply low_low. apply bits_range32.
Qed.
Lemma exec_post pc σ x J m m' w w1 up a v1 y r :
  slot_ok w1 v1 x → fits w w1 = true → mload w (u32 a) m = Some y → c_binop (step_op up) y 1 = Some r →
  mstore w (u32 a) r m = Some m' → words J → (3 ≤ length J)%nat → bytes_ok m →
  code_at s pc (FINSH_OP_LD Dword :: dword_bytes a ++ step_code (step_op up) w a ++ [FINSH_OP_POP]) →
  computes (Conf pc (σ ++ [x]) J m)
    (pc + length (FINSH_OP_LD Dword :: dword_bytes a ++ step_code (step_op up) w a ++ [FINSH_OP_POP]))
    σ w (value w v1) m' (1 + length J).
Proof.
  intros Hx Hf Hy Hr Hw HJ Hl Hm Hc.
  rewrite app_comm_cons in Hc. apply code_at_app in Hc as [C1 [C2 C3]%code_at_app].
  destruct J as [|z J]; [simpl in Hl; lia|]. apply Forall_cons in HJ as [Hz HJ].
  eapply computes_turn; [by apply turn_ld_dword|].
  destruct (step_turns (pc + 5) (σ ++ [x]) a J m m' _ w y r Hy Hr Hw HJ ltac:(simpl in Hl; lia) Hm C2)
    as (J' & Ht & HJ' & HlJ & Hm').
  eapply computes_rtc; [exact Ht|].
  eapply computes_turn; [by eapply turn_pop|].
  rewrite app_comm_cons, !length_app, !Nat.add_assoc. cbn [length dword_bytes]. rewrite Nat.add_1_r.
  apply computes_done; [| |simpl; lia|done].
  - split; [by eapply slot_ok_word|by eapply slot_ok_fits].
  - constructor; [apply Z.mod_pos_bound; done|done].
Qed.
Lemma exec_call pc σ f xs J m m' vs ws v1 r :
  slot_ok Dword v1 f → Forall3 slot_ok ws vs xs → Forall (λ w, fits Dword w = true) ws →
  (length ws ≤ 16)%nat → fcall (u32 v1) (u32 <$> vs) m = Some (r, m') → words J → bytes_ok m →
  code_at s pc [FINSH_OP_SYSCALL; Z.of_nat (length xs)] →
  computes (Conf pc (σ ++ f :: xs) J m) (pc + 2) σ Dword (value Dword r) m' (S (length xs + length J)).
Proof.
  intros Hf Hxs Hws Hn Hr HJ Hm Hc.
  assert (Hl : length xs = length ws) by (by rewrite <- (Forall3_length_lr _ _ _ _ Hxs)).
  assert (Hx32 : words xs).
  { clear -Hxs. induction Hxs as [|w v x ws vs xs H _ IH]; [constructor|]. constructor; [by eapply slot_ok_word|done]. }
  assert (Hargs : u32 <$> vs = xs).
  { clear -Hxs Hws. induction Hxs as [|w v x ws vs xs H _ IH]; [done|]. apply Forall_cons in Hws as [Hw Hws].
    simpl. f_equal; [|by apply IH]. destruct w; try done. by apply slot_ok_u32. }
  rewrite Hargs, (slot_ok_u32 _ _ Hf) in Hr.
  eapply computes_turn.
  { eapply turn_call with (r := r) (m' := m'); [..|exact Hc].
    - constructor; [by eapply slot_ok_word|done].
    - lia.
    - intros c <-. destruct (Hcall f xs (vm s c) r m' Hr) as [-> _]. done. }
  apply computes_done; [apply slot_ok_u32_value|by apply Forall_app|by rewrite length_app|].
  by apply (Hcall f xs (vm s (Conf pc σ J m)) r m' Hr).
Qed.

Lemma slots_length addr t ws : slots addr t = Some ws → length ws = trees t.
Proof.
  revert addr ws. induction t as [|l c _ s' IH]; intros addr ws; simpl; [by intros [= <-]|].
  intros (ws1 & _ & (w & _ & (ws2 & H2 & [= <-])%bind_Some)%bind_Some)%bind_Some.
  simpl. f_equal. by eapply IH.
Qed.

(** The operators whose code depends on the width of the node. *)
Ltac at_width Hs Hv Hcode :=
  unfold op_code, width_code in Hcode |- *;
  match type of Hs with context [data_width ?d] =>
    destruct (data_width d) eqn:?; [|done]; simpl in Hs, Hv
  end;
  match type of Hs with
  | (if ?b then _ else _) = _ => destruct b eqn:E; [|done]; injection Hs as <-
  | _ => injection Hs as <-
  end.

(** An operator node, its operands [xs] on the stack.  The value of the operand of a
    pre-increment is the address in its code. *)
Lemma exec_op l addr d c ws w vs v m m' pc σ xs J :
  slot l addr d c ws = Some w →
  (match l, c with
   | LPost up, ANode (LVar _ a) _ _ => apply_post up d a vs m
   | _, _ => apply fcall l addr d vs m
   end) = Some (v, m') →
  (match l, c with LPre _, ANode (LVar _ a) _ _ => vs = [value Dword a] | _, _ => True end) →
  Forall3 slot_ok ws vs xs → trees c = length xs →
  words J → (room l ≤ length xs + length J)%nat → bytes_ok m →
  code_at s pc (op_code l addr d c) →
  computes (Conf pc (σ ++ xs) J m) (pc + length (op_code l addr d c)) σ w v m' (length xs + length J).
Proof.
  intros Hs Hv Hpre Hxs Hc HJ Hroom Hm Hcode.
  destruct l; simpl in Hs, Hv; destruct Hxs as [|w1 v1 x1 ? ? ? H1 Hxs]; try done; simpl in Hroom.
  - injection Hs as <-. injection Hv as <- <-. rewrite app_nil_r.
    destruct J as [|x J]; [simpl in Hroom; lia|]. apply Forall_cons in HJ as [Hx HJ].
    eapply computes_turn; [by apply turn_ld_byte|].
    replace (u8 v0) with (value Byte (low 8 v0)) by (apply (low_idem 8); done).
    by apply computes_done; [apply slot_ok_set|..].
  - injection Hs as <-. injection Hv as <- <-. rewrite app_nil_r. by apply exec_ld_dword.
  - apply bind_Some in Hs as (w' & Hw & [= <-]). rewrite Hw in Hv. rewrite app_nil_r. by eapply exec_var.
  - apply bind_Some in Hs as (w' & Hw & [= <-]). rewrite Hw in Hv. rewrite app_nil_r. by eapply exec_var.
  - injection Hs as <-. injection Hv as <- <-. rewrite app_nil_r. by apply exec_ld_dword.
  - destruct Hxs as [|w2 v2 x2 ? ? ? H2 []]; try done. at_width Hs Hv Hcode. apply andb_true_iff in E as [[_ F1]%andb_true_iff F2].
    apply bind_Some in Hv as (r & Hr & [= <- <-]). by eapply exec_bin.
  - destruct Hxs; [|done]. at_width Hs Hv Hcode. apply andb_true_iff in E as [_ F1]. injection Hv as <- <-. by eapply exec_not.
  - destruct w1; try done. destruct Hxs as [|w2 v2 x2 ? ? ? H2 []]; try done.
    assert ((w' ← data_width d; if negb addr && fits w' w2 then Some w' else None) = Some w) as Hs'
      by (by destruct c as [|[] ??]).
    clear Hs. rename Hs' into Hs. at_width Hs Hv Hcode. apply andb_true_iff in E as [_ F2].
    apply bind_Some in Hv as (m1 & Hst & [= <- <-]). by eapply exec_assign.
  - destruct w1; try done. destruct Hxs; [|done]. destruct c as [|[] [] ?]; try done. destruct addr; [done|].
    at_width Hs Hv Hcode.
    apply bind_Some in Hv as (y & Hy & (r & Hr & (m1 & Hst & (v4 & H4 & [= <- <-])%bind_Some)%bind_Some)%bind_Some).
    injection Hpre as ->. rewrite <- (slot_ok_u32 _ _ H1), u32_value in *.
    eapply exec_pre; try done. simpl in Hroom. lia.
  - destruct Hxs; [|done]. destruct c as [|[] [] ?]; try done. unfold apply_post in Hv.
    at_width Hs Hv Hcode. apply andb_true_iff in E as [_ F1].
    apply bind_Some in Hv as (y & Hy & (r & Hr & (m1 & Hst & [= <- <-])%bind_Some)%bind_Some).
    eapply exec_post; try done. simpl in Hroom. lia.
  - destruct Hxs; [|done]. destruct w1; try done. destruct addr.
    + injection Hs as <-. injection Hv as <- <-. rewrite Nat.add_0_r. by apply computes_done.
    + at_width Hs Hv Hcode. apply bind_Some in Hv as (v' & Hv' & [= <- <-]). by eapply exec_deref.
  - destruct w1; try done. destruct Hxs; [|done]. injection Hv as <- <-. rewrite Nat.add_0_r.
    destruct c as [|[] ??]; try done; injection Hs as <-; by apply computes_done.
  - destruct w1; try done. destruct (negb addr && _ && _) eqn:E; [|done]. injection Hs as <-.
    apply andb_true_iff in E as [[_ F]%andb_true_iff Hn%Nat.leb_le].
    apply bind_Some in Hv as ([r m1] & Hr & [= <- <-]).
    unfold op_code in Hcode. rewrite Hc in Hcode. simpl in Hcode.
    eapply exec_call; try done. apply Forall_forall. intros w' Hw'. rewrite forallb_forall in F. apply F.
    by apply list_elem_of_In.
Qed.

(** The operand of a pre-increment is the address of its variable. *)
Lemma eval_var_addr t a c' m vs m1 :
  eval fcall true (ANode (LVar t a) ANil c') m = Some (vs, m1) → ∃ vs', vs = value Dword a :: vs'.
Proof. simpl. intros ([vs' m3] & _ & [= <- _])%bind_Some. eauto. Qed.

Theorem exec_trees t addr ws vs m m' pc σ J :
  slots addr t = Some ws → eval fcall addr t m = Some (vs, m') →
  words J → (depth t ≤ length J)%nat → bytes_ok m → code_at s pc (code addr t) →
  ∃ xs J', rtc (turn s) (Conf pc σ J m) (Conf (pc + length (code addr t)) (σ ++ xs) J' m') ∧
    Forall3 slot_ok ws vs xs ∧ words J' ∧ (length xs + length J' = length J)%nat ∧ bytes_ok m'.
Proof.
  revert addr ws vs m m' pc σ J. induction t as [|l c IHc t IHt];
    intros addr ws vs m m' pc σ J Hs Hv HJ Hd Hm Hcode.
  { injection Hs as <-. injection Hv as <- <-. exists [], J. simpl. rewrite Nat.add_0_r, app_nil_r.
    split_and!; [done|constructor|done..]. }
  cbn [slots] in Hs. apply bind_Some in Hs as (ws1 & Hs1 & (w & Hw & (ws2 & Hs2 & [= <-])%bind_Some)%bind_Some).
  cbn [eval] in Hv. apply bind_Some in Hv as ([vs1 m1] & Hv1 & ([v m2] & Hv2 & ([vs2 m3] & Hv3 & [= <- <-])%bind_Some)%bind_Some).
  cbn [depth] in Hd. cbn [code] in Hcode |- *. apply code_at_app in Hcode as [C1 [C2 C3]%code_at_app].
  destruct (IHc _ _ _ _ _ _ σ J Hs1 Hv1 HJ ltac:(lia) Hm C1) as (xs1 & J1 & Ht1 & Hx1 & HJ1 & Hl1 & Hm1).
  assert (Hlen : length xs1 = trees c)
    by (rewrite <- (slots_length _ _ _ Hs1), <- (Forall3_length_lr _ _ _ _ Hx1); done).
  assert (Hpre : match l, c with LPre _, ANode (LVar _ a) _ _ => vs1 = [value Dword a] | _, _ => True end).
  { destruct l; try done. simpl in Hw. destruct ws1 as [|[] [|]]; try done.
    destruct c as [|[] [] c']; try done. apply eval_var_addr in Hv1 as [vs' ->].
    apply Forall3_length_lm in Hx1. by destruct vs'. }
  destruct (exec_op l addr _ c ws1 w vs1 v m1 m2 _ σ xs1 J1 Hw Hv2 Hpre Hx1 (eq_sym Hlen) HJ1
    ltac:(unfold room; lia) Hm1 C2) as (x & J2 & Ht2 & Hx & HJ2 & Hl2 & Hm2).
  destruct (IHt _ _ _ _ _ _ (σ ++ [x]) J2 Hs2 Hv3 HJ2 ltac:(lia) Hm2 C3) as (xs2 & J3 & Ht3 & Hx2 & HJ3 & Hl3 & Hm3).
  exists (x :: xs2), J3. split; [|split; [by constructor|split; [done|split; [simpl; lia|done]]]].
  etrans; [exact Ht1|]. etrans; [exact Ht2|]. rewrite <- app_assoc in Ht3.
  by rewrite !length_app, !Nat.add_assoc.
Qed.

(** * Programs *)

Lemma depth_nodes t : (depth t ≤ 3 + nodes t)%nat.
Proof. induction t as [|l c IHc t IHt]; simpl; [lia|]. destruct l; lia. Qed.

Lemma slots_head l c t addr ws :
  slots addr (ANode l c t) = Some ws →
  ∃ w ws', ws = w :: ws' ∧ slots addr (ANode l c ANil) = Some [w] ∧ slots false t = Some ws'.
Proof.
  cbn [slots]. intros (ws1 & Hs1 & (w & Hw & (ws2 & Hs2 & [= <-])%bind_Some)%bind_Some)%bind_Some.
  exists w, ws2. split; [done|]. split; [|done]. rewrite Hs1. cbn [mbind option_bind].
  assert (dtype (ANode l c ANil) = dtype (ANode l c t)) as -> by done. by rewrite Hw.
Qed.

Lemma program_code_cons l c l2 c2 t2 :
  program_code (ANode l c (ANode l2 c2 t2))
  = code false (ANode l c ANil) ++ [FINSH_OP_POP] ++ program_code (ANode l2 c2 t2).
Proof. done. Qed.
Lemma exec_program t ws v m m' pc J :
  slots false t = Some ws → eval_program fcall t m = Some (v, m') →
  words J → (3 + nodes t ≤ length J)%nat → bytes_ok m → code_at s pc (program_code t) →
  ∃ x J' w, rtc (turn s) (Conf pc [] J m) (Conf (pc + length (program_code t)) [x] J' m') ∧
    last ws = Some w ∧ slot_ok w v x ∧ words J' ∧ S (length J') = length J ∧ bytes_ok m'.
Proof.
  revert ws m pc J. induction t as [|l c _ t IH]; intros ws m pc J Hs Hv HJ Hl Hm Hc; [done|].
  destruct (slots_head _ _ _ _ _ Hs) as (w & ws' & -> & Hs1 & Hs2).
  cbn [eval_program] in Hv. apply bind_Some in Hv as ([vs m1] & Hv1 & Hv).
  assert (code_at s pc (code false (ANode l c ANil))) as C1.
  { destruct t; [done|]. by apply code_at_app_l in Hc. }
  destruct (exec_trees _ _ _ _ _ _ pc [] J Hs1 Hv1 HJ) as (xs & J1 & Ht & Hx & HJ1 & Hl1 & Hm1); [|done..|].
  { pose proof (depth_nodes (ANode l c ANil)). simpl in *. lia. }
  inversion Hx as [|? v1 x ? ? ? Hx1 Hx2]; subst. inversion Hx2; subst. rewrite app_nil_l in Ht. cbn [length] in Hl1.
  destruct t as [|l2 c2 t2].
  { injection Hv as <- <-. injection Hs2 as <-. by exists x, J1, w. }
  rewrite program_code_cons in Hc |- *. apply code_at_app in Hc as [_ [C2 C3]%code_at_app].
  assert (words (x :: J1)) as HJx by (constructor; [by eapply slot_ok_word|done]).
  assert (3 + nodes (ANode l2 c2 t2) ≤ length (x :: J1))%nat as Hlx by (simpl in Hl |- *; lia).
  destruct (IH ws' m1 _ (x :: J1) Hs2 Hv HJx Hlx Hm1 C3) as (y & J2 & w2 & Ht2 & Hw2 & Hy & HJ2 & Hl2 & Hm2).
  exists y, J2, w2. split; [|split; [|split; [done|split; [done|split; [simpl in *; lia|done]]]]].
  - etrans; [exact Ht|]. eapply rtc_l; [by eapply turn_pop with (σ := [])|].
    rewrite !length_app, !Nat.add_assoc. cbn [length] in Ht2 |- *. by rewrite !Nat.add_1_r in Ht2 |- *.
  - destruct ws'; [|done]. by apply slots_length in Hs2.
Qed.
End typed.
