(* ===== verification/FinshRun.v ===== *)
(** [finsh_vm_run]: the machine ends on every text, and runs the code of a typed program to
    the value of the program. *)

From stdpp Require Import base list gmap.
From Stdlib Require Import ZArith Lia.
From S2P Require Import Prelude Halts Kservice FinshState FinshVar FinshVm FinshCompiler FinshSem FinshVmFacts.

Open Scope Z_scope.

(** * Termination *)

Section halting.
(** A system call comes back with the program counter where it was or further on. *)
Context (call : Z → list Z → F Z).
Definition call_halts : Prop :=
  ∀ f args s, halts (call f args) (λ _ s', (f_pc s ≤ f_pc s')%nat) s.

(** An operation ends and does not move the program counter back. *)
Definition forward {A} (m : F A) : Prop := ∀ s, halts m (λ _ s', (f_pc s ≤ f_pc s')%nat) s.

Lemma forward_bind {A B} (m : F A) (f : A → F B) : forward m → (∀ a, forward (f a)) → forward (m ≫= f).
Proof.
  intros Hm Hf s. halts_step. eapply halts_mono; [apply Hm|]. intros a s1 H1. cbv beta in H1 |- *.
  eapply halts_mono; [apply Hf|]. simpl. intros ? s2 ?. lia.
Qed.
Lemma forward_ret {A} (a : A) : forward (mret a).
Proof. intros s. halts_step. lia. Qed.
Lemma forward_getf {A} (f : finsh → A) : forward (getf f).
Proof. intros s. unfold getf. by repeat halts_step. Qed.
Lemma forward_fail {A} e : e ≠ OutOfFuel → forward (A := A) (fail e).
Proof. by intros ? s. Qed.
Lemma forward_option {A} (o : option A) e : e ≠ OutOfFuel → forward (of_option e o).
Proof. intros ? s. by halts_step. Qed.
Lemma forward_modify f : (∀ s, f_pc s ≤ f_pc (f s))%nat → forward (modify f).
Proof. intros H s. by halts_step. Qed.

Ltac forward_step :=
  first [ apply forward_bind; [|intros] | apply forward_ret | apply forward_getf
        | apply forward_option; done | apply forward_fail; done
        | apply forward_modify; intros; simpl; lia
        | match goal with |- forward (if ?b then _ else _) => destruct b end ].
Ltac forward := repeat forward_step.

Lemma get_slot_forward i : forward (get_slot i).
Proof. unfold get_slot. forward. Qed.
Lemma put_slot_forward i v : forward (put_slot i v).
Proof. unfold put_slot. apply forward_bind; [apply get_slot_forward|intros; forward]. Qed.
Lemma text_byte_forward i : forward (text_byte i).
Proof. unfold text_byte. forward. Qed.
Lemma load_forward w a : forward (load w a).
Proof. unfold load. forward. Qed.
Lemma store_forward w a v : forward (store w a v).
Proof. unfold store. forward. Qed.
Lemma move_sp_forward d : forward (move_sp d).
Proof. unfold move_sp. forward. Qed.
Lemma move_pc_forward d : forward (move_pc d).
Proof. unfold move_pc. forward. Qed.

Ltac forward_op :=
  repeat first [ apply get_slot_forward | apply put_slot_forward | apply text_byte_forward
               | apply load_forward | apply store_forward | apply move_sp_forward
               | apply move_pc_forward | forward_step ].

Lemma OP_BIN_forward w o : forward (OP_BIN w o).
Proof. unfold OP_BIN. forward_op. Qed.
Lemma OP_bw_forward w : forward (OP_bw w).
Proof. unfold OP_bw. forward_op. Qed.
Lemma OP_ld_forward w : forward (OP_ld w).
Proof. unfold OP_ld, push, FINSH_GET16, FINSH_GET32. destruct w; forward_op. Qed.
Lemma OP_ld_value_forward w : forward (OP_ld_value w).
Proof. unfold OP_ld_value, push, FINSH_GET32. forward_op. Qed.
Lemma OP_ld_value_stack_forward w : forward (OP_ld_value_stack w).
Proof. unfold OP_ld_value_stack. forward_op. Qed.
Lemma OP_st_forward w : forward (OP_st w).
Proof. unfold OP_st. forward_op. Qed.
Lemma OP_pop_forward : forward OP_pop.
Proof. unfold OP_pop. forward_op. Qed.
Lemma call_params_forward n acc : forward (call_params n acc).
Proof. revert acc. induction n as [|n IH]; intros acc; simpl; forward_op. apply IH. Qed.

Context (Hcall : call_halts).
Lemma call_forward f args : forward (call f args).
Proof. intros s. apply Hcall. Qed.
Lemma OP_call_forward : forward (OP_call call).
Proof. unfold OP_call. repeat first [apply call_params_forward | apply call_forward | progress forward_op]. Qed.
#[local] Hint Resolve forward_ret OP_BIN_forward OP_bw_forward OP_ld_forward OP_ld_value_forward
  OP_ld_value_stack_forward OP_st_forward OP_pop_forward OP_call_forward : core.
Lemma op_table_forward op f : op_table call !! op = Some (Some f) → forward f.
Proof.
  intros Hf. assert (Forall (λ o, match o with Some f => forward f | None => True end) (op_table call)) as H.
  { repeat constructor; auto. }
  by apply (proj1 (Forall_lookup _ _) H) in Hf.
Qed.
Lemma vm_step_forward s : halts (vm_step call) (λ _ s', (f_pc s < f_pc s')%nat) s.
Proof.
  unfold vm_step, getf. repeat halts_step. apply halts_mono with (Q := λ _ s', s' = s).
  { unfold text_byte, getf. by repeat halts_step. }
  intros op ? ->. cbv beta. repeat halts_step. unfold move_pc. halts_step.
  destruct (op_table call !! Z.to_nat op) as [[f|]|] eqn:Hf; [|by halts_step..].
  eapply halts_mono; [by eapply op_table_forward|]. simpl. intros ? s' ?. lia.
Qed.
Lemma vm_loop_halts fuel s : (FINSH_TEXT_MAX ≤ f_pc s + fuel)%nat → halts (vm_loop call fuel) (λ _ _, True) s.
Proof.
  revert s. induction fuel as [|fuel IH]; intros s Hs; cbn [vm_loop]; unfold getf; repeat halts_step; try done;
    match goal with H : (_ <? _)%nat = true |- _ => apply Nat.ltb_lt in H end; [lia|].
  eapply halts_mono; [apply vm_step_forward|]. intros [] s' Hs'. cbv beta in Hs' |- *. apply IH. lia.
Qed.
Lemma vm_run_halts s : halts (finsh_vm_run call) (λ _ _, True) s.
Proof. unfold finsh_vm_run. repeat halts_step. apply vm_loop_halts. simpl. lia. Qed.
End halting.

(** C22. Whatever the text is (compiled or not), the machine comes to the end of the text in
    at most 128 turns, or faults: no text makes it run for ever, if the system calls come
    back. *)
Theorem finsh_vm_run_halts call s : call_halts call → finsh_vm_run call s ≠ Fault OutOfFuel.
Proof.
  intros Hc E. pose proof (vm_run_halts call Hc s) as H. unfold halts in H. by rewrite E in H.
Qed.

(** * Correctness *)

Section correct.
Context (call : Z → list Z → F Z) (fcall : Z → list Z → gmap Z Z → option (Z * gmap Z Z)).
Context (Hcall : call_ok call fcall).

Lemma vm_start s :
  vm (set_f_pc 0 (set_f_sp 0 s)) (Conf 0 [] (f_stack s) (f_mem s)) = set_f_pc 0 (set_f_sp 0 s).
Proof. by destruct s. Qed.

(** The text is the code of a typed program and zeros: the machine leaves the value of the
    program at the bottom of the stack. *)
Lemma vm_run_program s t ws v m' :
  slots false t = Some ws → eval_program fcall t (f_mem s) = Some (v, m') →
  f_text s = program_code t ++ replicate (FINSH_TEXT_MAX - length (program_code t)) 0 →
  (length (program_code t) ≤ FINSH_TEXT_MAX)%nat →
  words (f_stack s) → (3 + nodes t ≤ length (f_stack s))%nat → bytes_ok (f_mem s) →
  ∃ x J w, finsh_vm_run call s = Done tt (vm s (Conf FINSH_TEXT_MAX [x] J m')) ∧
    last ws = Some w ∧ slot_ok w v x ∧ words J ∧ S (length J) = length (f_stack s) ∧ bytes_ok m'.
Proof.
  intros Ht Hv Htext Hlen HJ Hl Hm. set (s0 := set_f_pc 0 (set_f_sp 0 s)).
  assert (code_at s0 0 (program_code t ++ replicate (FINSH_TEXT_MAX - length (program_code t)) 0))
    as [C1 C2]%code_at_app by (exists [], []; rewrite app_nil_r; done).
  destruct (exec_program call fcall Hcall s0 t ws v (f_mem s) m' 0 (f_stack s) Ht Hv HJ Hl Hm C1)
    as (x & J & w & Hr & Hw & Hx & HJ' & HlJ & Hm').
  exists x, J, w. split; [|done]. apply (noop_turns call s0 _ _ [x] J m') in C2.
  replace (0 + length (program_code t) + _)%nat with FINSH_TEXT_MAX in C2 by lia.
  assert (length (f_text s0) = FINSH_TEXT_MAX) as Hlt.
  { change (f_text s0) with (f_text s). rewrite Htext, length_app, length_replicate. lia. }
  destruct (vm_loop_turns call s0 _ _ FINSH_TEXT_MAX Hlt (transitivity Hr C2)) as (fuel & E & _); [simpl; lia|].
  unfold finsh_vm_run. do 2 (erewrite bind_done by done).
  change (vm_loop call FINSH_TEXT_MAX (set_f_pc 0 (set_f_sp 0 s)) = Done tt (vm s0 (Conf FINSH_TEXT_MAX [x] J m'))).
  rewrite <- (vm_start s). fold s0.
  rewrite E. by apply vm_loop_end.
Qed.
End correct.
