(* ===== verification/FinshTypes.v ===== *)
(** The type check of FinSH ([finsh_type_check]) on a node table that represents a tree. *)

From stdpp Require Import base list gmap.
From Stdlib Require Import ZArith Lia.
From S2P Require Import Prelude Halts Kservice FinshState FinshVar FinshHeap FinshNode FinshVm FinshCompiler FinshSem FinshVmFacts.

Open Scope Z_scope.

Section rep.
Context `{img : finsh_image}.

(** * Trees in the node table *)

(** The [idtype] the parser gives a node, and the flag of an address. *)
Definition id_of (l : label) : Z :=
  match l with
  | LVar _ _ => FINSH_IDTYPE_VAR
  | LSysvar _ _ => FINSH_IDTYPE_SYSVAR
  | LFunc _ => FINSH_IDTYPE_SYSCALL
  | _ => 0
  end.
Definition is_addr (addr : bool) : Z := if addr then FINSH_IDTYPE_ADDRESS else FINSH_NODE_VALUE.
Definition id_addr (l : label) (addr : bool) : Z :=
  match l with LFunc _ => FINSH_IDTYPE_SYSCALL | _ => Z.lor (id_of l) (is_addr addr) end.

(** The node [n] is for the label [l]. *)
Definition node_ok (s : finsh) (l : label) (n : finsh_node) : Prop :=
  match l with
  | LLong v =>
    nd_node_type n ∈ [FINSH_NODE_VALUE_LONG; FINSH_NODE_VALUE_INT; FINSH_NODE_VALUE_NULL; FINSH_NODE_VALUE_STRING] ∧
    nd_value n = v
  | LChar v => nd_node_type n = FINSH_NODE_VALUE_CHAR ∧ low 8 (nd_value n) = low 8 v
  | LVar t a => nd_node_type n = FINSH_NODE_ID ∧ nd_id n ≠ 0 ∧ a = var_value (nd_id n) ∧
    ∃ i v, var_index (nd_id n) = Some i ∧ f_vars s !! i = Some v ∧ var_type v = t
  | LSysvar t a => nd_node_type n = FINSH_NODE_ID ∧ nd_id n ≠ 0 ∧
    ∃ v, entry_at (nd_id n) (sysvar_table ++ f_sysvar_list s) = Some v ∧ sysvar_type v = t ∧ sysvar_var v = a
  | LFunc f => nd_node_type n = FINSH_NODE_ID ∧
    ∃ v, entry_at (nd_id n) (syscall_table ++ f_syscall_list s) = Some v ∧ syscall_func v = f
  | _ => nd_node_type n = kind l
  end.
(** The types before ([chk = false]) and after the type check. *)
Definition typed (chk addr : bool) (t : ast) (n : finsh_node) : Prop :=
  match t with
  | ANil => True
  | ANode l _ _ =>
    nd_data_type n = (if chk then dtype t else 0) ∧ nd_idtype n = (if chk then id_addr l addr else id_of l)
  end.

(** The nodes at [fp] of the table [ns] are the trees [t]. *)
Fixpoint rep (chk addr : bool) (s : finsh) (ns : list finsh_node) (p : option nat) (t : ast) (fp : list nat) : Prop :=
  match t with
  | ANil => p = None ∧ fp = []
  | ANode l c t' =>
    ∃ i n fpc fpt, p = Some i ∧ ns !! i = Some n ∧ node_ok s l n ∧ typed chk addr t n ∧
      rep chk (addr_child l addr) s ns (nd_child n) c fpc ∧
      rep chk false s ns (nd_sibling n) t' fpt ∧ fp = i :: fpc ++ fpt
  end.

Lemma rep_frame chk addr s ns ns' p t fp :
  rep chk addr s ns p t fp → (∀ i, i ∈ fp → ns' !! i = ns !! i) → rep chk addr s ns' p t fp.
Proof.
  revert addr p fp. induction t as [|l c IHc t IHt]; intros addr p fp; [done|].
  intros (i & n & fpc & fpt & -> & Hi & Hn & Ht & Hc & Hs & ->) Hf. exists i, n, fpc, fpt.
  split_and!; try done.
  - rewrite Hf; [done|set_solver].
  - apply IHc; [done|]. intros j Hj. apply Hf. set_solver.
  - apply IHt; [done|]. intros j Hj. apply Hf. set_solver.
Qed.
(** The representation depends on the tables of names alone. *)
Lemma rep_tables chk addr s s' ns p t fp :
  f_vars s' = f_vars s → f_sysvar_list s' = f_sysvar_list s → f_syscall_list s' = f_syscall_list s →
  rep chk addr s ns p t fp → rep chk addr s' ns p t fp.
Proof.
  intros Ev Es Ec. revert addr p fp. induction t as [|l c IHc t IHt]; intros addr p fp; [done|].
  intros (i & n & fpc & fpt & -> & Hi & Hn & Ht & Hc & Hs & ->). exists i, n, fpc, fpt.
  split_and!; try done; [|by apply IHc|by apply IHt]. by destruct l; simpl in Hn |- *; rewrite ?Ev, ?Es, ?Ec.
Qed.
Lemma rep_lookup chk addr s ns p t fp i : rep chk addr s ns p t fp → i ∈ fp → is_Some (ns !! i).
Proof.
  revert addr p fp. induction t as [|l c IHc t IHt]; intros addr p fp.
  - intros [_ ->]. set_solver.
  - intros (j & n & fpc & fpt & -> & Hi & _ & _ & Hc & Hs & ->).
    rewrite elem_of_cons, elem_of_app. intros [->|[H|H]]; [eauto|by eapply IHc|by eapply IHt].
Qed.
(** A tree without shared nodes is not larger than the table. *)
Lemma rep_length chk addr s ns p t fp :
  rep chk addr s ns p t fp → NoDup fp → (length fp ≤ length ns)%nat.
Proof.
  intros Hr Hnd. rewrite <- (length_seq (length ns) 0). apply submseteq_length, NoDup_submseteq; [done|].
  intros i Hi. destruct (rep_lookup _ _ _ _ _ _ _ _ Hr Hi) as [n Hn].
  apply lookup_lt_Some in Hn. apply elem_of_seq. lia.
Qed.
Lemma rep_nodes chk addr s ns p t fp : rep chk addr s ns p t fp → length fp = nodes t.
Proof.
  revert addr p fp. induction t as [|l c IHc t IHt]; intros addr p fp.
  - by intros [_ ->].
  - intros (j & n & fpc & fpt & -> & Hi & _ & _ & Hc & Hs & ->).
    simpl. rewrite length_app. erewrite IHc, IHt by done. done.
Qed.
(** The first node has the type of the first tree. *)
Lemma rep_dtype addr s ns i t fp :
  rep true addr s ns (Some i) t fp → ∃ n, ns !! i = Some n ∧ nd_data_type n = dtype t.
Proof.
  destruct t as [|l c t]; [by intros []|].
  intros (j & n & fpc & fpt & [= <-] & Hi & _ & [Ht _] & _). eauto.
Qed.

(** * The type check *)

(** The types of nodes that stand for a label. *)
Definition kinds (l : label) : list node_kind :=
  match l with
  | LLong _ => [FINSH_NODE_VALUE_LONG; FINSH_NODE_VALUE_INT; FINSH_NODE_VALUE_NULL; FINSH_NODE_VALUE_STRING]
  | _ => [kind l]
  end.
Lemma node_ok_kind s l n : node_ok s l n → nd_node_type n ∈ kinds l.
Proof. destruct l; simpl; try (intros ->; constructor); intros [? _]; try done; subst; set_solver. Qed.
Lemma child_addr_spec s l n addr :
  node_ok s l n → child_addr (nd_node_type n) (is_addr addr) = is_addr (addr_child l addr).
Proof.
  intros H%node_ok_kind%list_elem_of_In. revert H.
  destruct l as [| | | | |[]| | |[]|[]| | |], addr; simpl; intros; repeat destruct_or!; subst; try done;
    by match goal with H : _ = nd_node_type n |- _ => rewrite <- H end.
Qed.

(** In a typed tree the leaves are constants and identifiers. *)
Definition is_leaf (l : label) : bool :=
  match l with LChar _ | LLong _ | LVar _ _ | LSysvar _ _ | LFunc _ => true | _ => false end.
Lemma slots_leaf l addr c t ws :
  slots addr (ANode l c t) = Some ws → (c = ANil ↔ is_leaf l = true).
Proof.
  cbn [slots]. intros (ws1 & H1 & (w & Hw & _)%bind_Some)%bind_Some.
  assert (length ws1 = trees c) as Hl by (by eapply slots_length).
  destruct l; simpl in Hw |- *; destruct ws1; try done; destruct c; done.
Qed.
Lemma load_type t w : load_width t = Some w → ∃ d, type_data t = Some d ∧ data_width d = Some w.
Proof. destruct t; simpl; intros [= <-]; eauto. Qed.

Lemma get_node_spec i n s : f_nodes s !! i = Some n → get_node i s = Done n s.
Proof. intros H. unfold get_node, getf. cbv [mbind mret SM_bind SM_ret get]. by rewrite H. Qed.
Lemma upd_node_spec i n f s :
  f_nodes s !! i = Some n → upd_node i f s = Done tt (set_f_nodes (<[i := f n]> (f_nodes s)) s).
Proof. intros H. unfold upd_node. by erewrite bind_done by (by apply get_node_spec). Qed.

Lemma set_f_nodes_twice ns ns' s : set_f_nodes ns (set_f_nodes ns' s) = set_f_nodes ns s.
Proof. done. Qed.

(** The node of a leaf gets the type of the leaf. *)
Lemma type_id_spec s l n i ns w addr :
  nd_node_type n = FINSH_NODE_ID → is_leaf l = true → node_ok s l n → nd_data_type n = 0 →
  slot l addr (leaf_dtype l) ANil [] = Some w → nd_idtype n = id_addr l addr → ns !! i = Some n →
  ∃ n', type_id i (set_f_nodes ns s) = Done tt (set_f_nodes (<[i := n']> ns) s) ∧
    n' = set_nd_data_type (leaf_dtype l) n.
Proof.
  intros Hk Hl Hn Hd Hs Hid Hi. eexists. split; [|done]. unfold type_id.
  erewrite bind_done by (by apply get_node_spec). rewrite Hid.
  destruct l; try done.
  - by destruct Hn as [Hn _]; rewrite Hk in Hn.
  - by destruct Hn as [Hn _]; rewrite Hk in Hn; repeat (apply elem_of_cons in Hn as [Hn|Hn]; [done|]);
      apply elem_of_nil in Hn.
  - destruct Hn as (_ & Hz & -> & j & v & Hj & Hv & <-). simpl in Hs.
    apply bind_Some in Hs as (w' & Hw & _). apply load_type in Hw as (d & Hd' & _).
    assert (flag_test (id_addr (LVar (var_type v) (var_value (nd_id n))) addr) FINSH_IDTYPE_VAR = true) as ->
      by (by destruct addr).
    rewrite (proj2 (Z.eqb_neq _ _) Hz), Hj. unfold getf. do 2 (erewrite bind_done by done). simpl.
    rewrite Hv. erewrite bind_done by done. unfold set_type. rewrite Hd'. by erewrite upd_node_spec by done.
  - destruct Hn as (_ & Hz & v & Hv & <- & <-). simpl in Hs.
    apply bind_Some in Hs as (w' & Hw & _). apply load_type in Hw as (d & Hd' & _).
    assert (flag_test (id_addr (LSysvar (sysvar_type v) (sysvar_var v)) addr) FINSH_IDTYPE_VAR = false) as ->
      by (by destruct addr).
    assert (flag_test (id_addr (LSysvar (sysvar_type v) (sysvar_var v)) addr) FINSH_IDTYPE_SYSVAR = true) as ->
      by (by destruct addr).
    rewrite (proj2 (Z.eqb_neq _ _) Hz). unfold getf. erewrite bind_done by done. simpl.
    rewrite Hv. erewrite bind_done by done. unfold set_type. rewrite Hd'. by erewrite upd_node_spec by done.
  - simpl. unfold mret, SM_ret. f_equal. rewrite list_insert_id; [done|]. by rewrite Hi; destruct n; simpl in Hd; subst.
Qed.

(** The node with its types. *)
Definition checked (addr : bool) (t : ast) (n : finsh_node) : finsh_node :=
  match t with
  | ANil => n
  | ANode l _ _ => set_nd_data_type (dtype t) (set_nd_idtype (id_addr l addr) n)
  end.
Lemma leaf_node_spec s l n i ns w addr :
  is_leaf l = true → node_ok s l n → nd_data_type n = 0 → nd_idtype n = id_addr l addr →
  slot l addr (leaf_dtype l) ANil [] = Some w → ns !! i = Some n →
  (match nd_node_type n with
   | FINSH_NODE_ID => type_id i
   | FINSH_NODE_VALUE_CHAR => upd_node i (set_nd_data_type FINSH_DATA_TYPE_BYTE)
   | FINSH_NODE_VALUE_INT | FINSH_NODE_VALUE_LONG | FINSH_NODE_VALUE_STRING
   | FINSH_NODE_VALUE_NULL => upd_node i (set_nd_data_type FINSH_DATA_TYPE_DWORD)
   | _ => mret tt
   end) (set_f_nodes ns s) = Done tt (set_f_nodes (<[i := set_nd_data_type (leaf_dtype l) n]> ns) s).
Proof.
  intros Hl Hn Hd Hid Hs Hi. pose proof (node_ok_kind _ _ _ Hn) as Hk%list_elem_of_In.
  destruct (decide (nd_node_type n = FINSH_NODE_ID)) as [E|E].
  - rewrite E. by destruct (type_id_spec s l n i ns w addr E Hl Hn Hd Hs Hid Hi) as (? & -> & ->).
  - destruct l; try done; simpl in Hk; repeat destruct_or!; try done; rewrite <- Hk; by erewrite upd_node_spec.
Qed.

Lemma type_node_spec s l c t n i ns addr ws :
  slots addr (ANode l c t) = Some ws → node_ok s l n → typed false addr (ANode l c t) n → ns !! i = Some n →
  match nd_child n with
  | Some j => c ≠ ANil ∧ i ≠ j ∧ ∃ nc, ns !! j = Some nc ∧ nd_data_type nc = dtype c
  | None => c = ANil
  end →
  type_node i (is_addr addr) (set_f_nodes ns s)
  = Done tt (set_f_nodes (<[i := checked addr (ANode l c t) n]> ns) s).
Proof.
  intros Hs Hn [Hd Hid] Hi Hc. unfold type_node. erewrite bind_done by (by apply get_node_spec).
  assert ((if nd_idtype n =? FINSH_IDTYPE_SYSCALL then mret tt
    else upd_node i (set_nd_idtype (Z.lor (nd_idtype n) (is_addr addr)))) (set_f_nodes ns s)
    = Done tt (set_f_nodes (<[i := set_nd_idtype (id_addr l addr) n]> ns) s)) as E.
  { rewrite Hid. destruct (Z.eqb_spec (id_of l) FINSH_IDTYPE_SYSCALL) as [El|El].
    - destruct l; try done. rewrite list_insert_id; [done|]. rewrite Hi. destruct n; simpl in *; by subst.
    - erewrite upd_node_spec by done. by destruct l. }
  erewrite bind_done by exact E. clear E.
  assert (<[i := set_nd_idtype (id_addr l addr) n]> ns !! i = Some (set_nd_idtype (id_addr l addr) n)) as Hi'.
  { apply list_lookup_insert_eq. by eapply lookup_lt_Some. }
  destruct (nd_child n) as [j|] eqn:Ec.
  - destruct Hc as (Hc & Hij & nc & Hj & Hdt). erewrite bind_done by (apply get_node_spec; simpl; by rewrite list_lookup_insert_ne).
    erewrite upd_node_spec by done. simpl. rewrite list_insert_insert_eq. simpl. rewrite Hdt.
    f_equal. rewrite set_f_nodes_twice. by destruct c.
  - subst c. assert (is_leaf l = true) as Hl by (by eapply slots_leaf).
    cbn [slots] in Hs. apply bind_Some in Hs as (ws1 & H1 & (w & Hw & _)%bind_Some).
    assert (ws1 = []) as -> by (simpl in H1; destruct l; by injection H1).
    erewrite (leaf_node_spec s l (set_nd_idtype (id_addr l addr) n)); try done.
    by rewrite list_insert_insert_eq.
Qed.

(** Checking types changes the nodes of the tree alone. *)
Lemma type_check_rep s t addr ns p fp ws fuel :
  rep false addr s ns p t fp → NoDup fp → slots addr t = Some ws → (length fp ≤ fuel)%nat →
  ∃ ns', finsh_type_check fuel p (is_addr addr) (set_f_nodes ns s) = Done tt (set_f_nodes ns' s) ∧
    rep true addr s ns' p t fp ∧ length ns' = length ns ∧ ∀ i, i ∉ fp → ns' !! i = ns !! i.
Proof.
  revert addr ns p fp ws fuel. induction t as [|l c IHc t IHt]; intros addr ns p fp ws fuel.
  { intros [-> ->] _ _ _. exists ns. by destruct fuel. }
  intros (i & n & fpc & fpt & -> & Hi & Hn & Ht & Hc & Hs & ->) [Hni [Hndc [Hdisj Hndt]]%NoDup_app]%NoDup_cons Hty Hf.
  destruct fuel as [|fuel]; [simpl in Hf; lia|]. simpl in Hf. rewrite length_app in Hf.
  pose proof Hty as Hty'. cbn [slots] in Hty'. apply bind_Some in Hty' as (ws1 & H1 & (w & Hw & (ws2 & H2 & _)%bind_Some)%bind_Some).
  destruct (IHc _ _ _ _ _ fuel Hc Hndc H1 ltac:(lia)) as (ns1 & E1 & R1 & L1 & F1).
  assert (rep false false s ns1 (nd_sibling n) t fpt) as Hs1 by (eapply rep_frame; [done|]; intros j Hj; apply F1; set_solver).
  destruct (IHt _ _ _ _ _ fuel Hs1 Hndt H2 ltac:(lia)) as (ns2 & E2 & R2 & L2 & F2).
  assert (ns2 !! i = Some n) as Hi2 by (rewrite F2, F1 by set_solver; done).
  exists (<[i := checked addr (ANode l c t) n]> ns2). split_and!.
  - cbn [finsh_type_check]. erewrite bind_done by (by apply get_node_spec). rewrite (child_addr_spec s l) by done.
    erewrite bind_done by exact E1. erewrite bind_done by exact E2. eapply type_node_spec; try done.
    destruct (nd_child n) as [j|] eqn:Ec; [|by destruct c as [|???]; [|destruct Hc as (?&?&?&?&?&?)]].
    destruct c as [|lc cc tc]; [by destruct Hc|]. split; [done|].
    destruct (rep_dtype _ _ _ _ _ _ R1) as (nc & Hj & Hdt).
    assert (j ∈ fpc) by (destruct R1 as (? & ? & ? & ? & [= <-] & _ & _ & _ & _ & _ & ->); set_solver).
    split; [set_solver|]. exists nc. rewrite F2 by set_solver. done.
  - exists i, (checked addr (ANode l c t) n), fpc, fpt. split; [done|].
    split; [apply list_lookup_insert_eq; by eapply lookup_lt_Some|]. split; [by destruct l|].
    split; [done|]. split; [|split; [|done]].
    + eapply rep_frame; [exact R1|]. intros j Hj. rewrite list_lookup_insert_ne by set_solver. apply F2. set_solver.
    + eapply rep_frame; [exact R2|]. intros j Hj. by rewrite list_lookup_insert_ne by set_solver.
  - rewrite length_insert. congruence.
  - intros j Hj. rewrite list_lookup_insert_ne, F2, F1 by set_solver. done.
Qed.

(** * Reading a tree *)

(** The operators and their nodes. *)
Definition operators : list label :=
  [LBin Add; LBin Sub; LBin Mul; LBin Div; LBin Mod; LBin And; LBin Or; LBin Xor; LBin Shl; LBin Shr;
   LNot; LAssign; LPre true; LPre false; LPost true; LPost false; LDeref; LAddr; LCall].
Definition read_label (s : finsh) (n : finsh_node) : option label :=
  match nd_node_type n with
  | FINSH_NODE_VALUE_CHAR => Some (LChar (nd_value n))
  | FINSH_NODE_VALUE_LONG | FINSH_NODE_VALUE_INT | FINSH_NODE_VALUE_NULL | FINSH_NODE_VALUE_STRING =>
    Some (LLong (nd_value n))
  | FINSH_NODE_ID =>
    if nd_id n =? 0 then None
    else if nd_idtype n =? FINSH_IDTYPE_VAR then
      i ← var_index (nd_id n); v ← f_vars s !! i; Some (LVar (var_type v) (var_value (nd_id n)))
    else if nd_idtype n =? FINSH_IDTYPE_SYSVAR then
      v ← entry_at (nd_id n) (sysvar_table ++ f_sysvar_list s); Some (LSysvar (sysvar_type v) (sysvar_var v))
    else v ← entry_at (nd_id n) (syscall_table ++ f_syscall_list s); Some (LFunc (syscall_func v))
  | k => snd <$> list_find (λ l, kind l = k) operators
  end.
Fixpoint read_tree (fuel : nat) (s : finsh) (p : option nat) : option (ast * list nat) :=
  match p, fuel with
  | None, _ => Some (ANil, [])
  | Some _, O => None
  | Some i, S fuel =>
    n ← f_nodes s !! i;
    l ← read_label s n;
    '(c, fpc) ← read_tree fuel s (nd_child n);
    '(t, fpt) ← read_tree fuel s (nd_sibling n);
    if (nd_data_type n =? 0) && (nd_idtype n =? id_of l) then Some (ANode l c t, i :: fpc ++ fpt) else None
  end.

Lemma read_label_ok s n l : read_label s n = Some l → nd_idtype n = id_of l → node_ok s l n.
Proof.
  unfold read_label. destruct (nd_node_type n) eqn:E; intros H Hid;
    try (injection H as <-; simpl; rewrite E; split; [repeat constructor|done]);
    try (by apply fmap_Some in H as ((j & l') & (H1 & H2 & _)%list_find_Some & ->); repeat (destruct j as [|j]; [injection H1 as <-; try done; simpl; rewrite E; done|])).
  destruct (Z.eqb_spec (nd_id n) 0) as [|Hz]; [done|].
  destruct (Z.eqb_spec (nd_idtype n) FINSH_IDTYPE_VAR) as [Ev|Ev].
  - apply bind_Some in H as (i & Hi & (v & Hv & [= <-])%bind_Some). simpl. split_and!; eauto.
  - destruct (Z.eqb_spec (nd_idtype n) FINSH_IDTYPE_SYSVAR) as [Es|Es]; apply bind_Some in H as (v & Hv & [= <-]); simpl; eauto 10.
Qed.
Lemma read_tree_rep fuel s p t fp addr : read_tree fuel s p = Some (t, fp) → rep false addr s (f_nodes s) p t fp.
Proof.
  revert p t fp addr. induction fuel as [|fuel IH]; intros [i|] t fp addr; simpl; try done; try (by intros [= <- <-]).
  intros (n & Hn & (l & Hl & ([c fpc] & Hc & ([t' fpt] & Ht & H)%bind_Some)%bind_Some)%bind_Some)%bind_Some.
  destruct (Z.eqb_spec (nd_data_type n) 0) as [Hd|]; [|done]. destruct (Z.eqb_spec (nd_idtype n) (id_of l)) as [Hid|]; [|done].
  injection H as <- <-. exists i, n, fpc, fpt. split_and!; try done; [by apply read_label_ok|by apply IH|by apply IH].
Qed.
End rep.
