(* ===== verification/FinshCode.v ===== *)
(** The code generator of FinSH ([finsh_compile], [finsh_compiler_run]) on a node table that
    represents a typed program: the text is the code of the program. *)

From stdpp Require Import base list gmap.
From Stdlib Require Import ZArith Lia.
From S2P Require Import Prelude Halts Kservice FinshState FinshVar FinshHeap FinshNode FinshVm FinshCompiler FinshSem FinshVmFacts FinshTypes.

Open Scope Z_scope.

(** * Text *)

(** The compiler with the code [pre] in the text. *)
Definition comp (s : finsh) (pre : list Z) : finsh :=
  set_f_text (pre ++ replicate (FINSH_TEXT_MAX - length pre) 0) (set_f_compile_pc (length pre) s).
(** The outcome when [cs] is written behind [pre]. *)
Definition emit (s : finsh) (pre cs : list Z) : outcome finsh unit :=
  if (length (pre ++ cs) <=? FINSH_TEXT_MAX)%nat then Done tt (comp s (pre ++ cs)) else Fault BadPointer.
(** [m] writes the code [cs], and nothing but the text and its counter. *)
Definition emits (s : finsh) (m : F unit) (cs : list Z) : Prop :=
  ∀ pre, (length pre ≤ FINSH_TEXT_MAX)%nat → m (comp s pre) = emit s pre cs.

Lemma emits_ret s : emits s (mret tt) [].
Proof. intros pre Hp. unfold emit. rewrite app_nil_r. by rewrite (proj2 (Nat.leb_le _ _) Hp). Qed.
Lemma emits_bind s m k cs ds : emits s m cs → emits s k ds → emits s (m;; k) (cs ++ ds).
Proof.
  intros Hm Hk pre Hp. unfold mbind, SM_bind. rewrite Hm by done. unfold emit at 1.
  destruct (Nat.leb_spec (length (pre ++ cs)) FINSH_TEXT_MAX) as [H|H].
  - rewrite Hk by done. unfold emit. by rewrite app_assoc.
  - unfold emit. rewrite (proj2 (Nat.leb_gt _ _)); [done|]. rewrite !length_app in *. lia.
Qed.
Lemma emits_read {A} s (m : F A) (a : A) k cs :
  (∀ pre, m (comp s pre) = Done a (comp s pre)) → emits s (k a) cs → emits s (m ≫= k) cs.
Proof. intros Hm Hk pre Hp. erewrite bind_done by apply Hm. by apply Hk. Qed.
Lemma emits_byte s x : emits s (finsh_code_byte x) [u8 x].
Proof.
  intros pre Hp. unfold finsh_code_byte, getf, emit. rewrite length_app. cbn [length].
  cbv [mbind mret SM_bind SM_ret get]. cbn [f_compile_pc comp set_f_text set_f_compile_pc].
  destruct (Nat.ltb_spec (length pre) FINSH_TEXT_MAX) as [H|H].
  - rewrite (proj2 (Nat.leb_le _ _)) by lia. cbv [modify]. f_equal. unfold comp.
    rewrite length_app. cbn [length].
    replace (FINSH_TEXT_MAX - length pre)%nat with (S (FINSH_TEXT_MAX - (length pre + 1))) by lia.
    cbn [replicate]. unfold set_f_text, set_f_compile_pc. cbn [f_text f_compile_pc].
    rewrite insert_app_r_alt, Nat.sub_diag, <- app_assoc, Nat.add_1_r by lia. done.
  - by rewrite (proj2 (Nat.leb_gt _ _)) by lia.
Qed.
Lemma emits_code s l : emits s (finsh_code l) (u8 <$> l).
Proof.
  induction l as [|x l IH]; [apply emits_ret|]. apply (emits_bind _ _ _ [u8 x]); [apply emits_byte|done].
Qed.

(** Code is made of bytes. *)
Definition is_code (cs : list Z) : Prop := Forall (λ b, 0 ≤ b < 2 ^ 8) cs.
Lemma u8_code cs : is_code cs → u8 <$> cs = cs.
Proof. induction 1 as [|x l Hx _ IH]; [done|]. rewrite fmap_cons, IH. f_equal. by apply Z.mod_small. Qed.
Lemma dword_is_code x : is_code (dword_bytes x).
Proof.
  unfold dword_bytes. assert (0 ≤ u32 x < 2 ^ 32) as H by (apply Z.mod_pos_bound; done).
  assert (∀ y, 0 ≤ y → 0 ≤ Z.land y 255 < 2 ^ 8) as Hl.
  { intros y Hy. change 255 with (Z.ones 8). rewrite Z.land_ones by lia. apply Z.mod_pos_bound. done. }
  assert (∀ k, 0 ≤ Z.shiftr (u32 x) k) as Hs by (intros k; apply Z.shiftr_nonneg; lia).
  repeat constructor; try apply Hl; try apply Hs; try lia.
  rewrite Z.shiftr_div_pow2 by lia. apply Z.div_lt_upper_bound; lia.
Qed.
Lemma emits_dword s x : emits s (finsh_code (dword_bytes x)) (dword_bytes x).
Proof. rewrite <- (u8_code (dword_bytes x)) at 2 by apply dword_is_code. apply emits_code. Qed.
(** An opcode. *)
Lemma emits_op s b : 0 ≤ b < 2 ^ 8 → emits s (finsh_code_byte b) [b].
Proof. intros Hb. rewrite <- (Z.mod_small b (2 ^ 8)) at 2 by done. apply emits_byte. Qed.
Lemma emits_one s w : emits s (finsh_code (one_bytes w)) (one_bytes w).
Proof. destruct w; apply emits_code. Qed.

Section code.
Context `{img : finsh_image}.

Lemma emits_node s i n k cs :
  f_nodes s !! i = Some n → emits s (k n) cs → emits s (get_node i ≫= k) cs.
Proof. intros Hi. apply emits_read. intros pre. by apply get_node_spec. Qed.
Lemma emits_getf {A} s (f : finsh → A) k cs :
  (∀ pre, f (comp s pre) = f s) → emits s (k (f s)) cs → emits s (getf f ≫= k) cs.
Proof. intros Hf. apply emits_read. intros pre. unfold getf. cbv [mbind mret SM_bind SM_ret get]. by rewrite Hf. Qed.
Lemma emits_option {A} s e (o : option A) a k cs :
  o = Some a → emits s (k a) cs → emits s (of_option e o ≫= k) cs.
Proof. intros ->. by apply emits_read. Qed.

Lemma opcode_byte s b w : 0 ≤ b ≤ 0x2D → emits s (finsh_code_byte (opcode b w)) [opcode b w].
Proof. intros Hb. apply emits_op. destruct w; simpl; lia. Qed.
Lemma bin_byte s o w : emits s (finsh_code_byte (FINSH_OP_BIN o w)) [FINSH_OP_BIN o w].
Proof. apply opcode_byte. destruct o; lia. Qed.

(** * Nodes *)

Lemma emits_op_width s op n :
  (∀ w, emits s (finsh_code_byte (op w)) [op w]) →
  emits s (compile_op op n) (width_code (nd_data_type n) (λ w, [op w])).
Proof. intros H. unfold compile_op, width_code. destruct (data_width _); [apply H|apply emits_ret]. Qed.
Lemma emits_var s idtype t a addr :
  flag_test idtype FINSH_IDTYPE_ADDRESS = addr → emits s (compile_var idtype t a) (var_code t a addr).
Proof.
  intros <-. unfold compile_var, var_code. destruct (load_width t) as [w|]; [|apply emits_ret].
  apply (emits_bind _ _ _ [_]); [|apply emits_dword]. case_match; by apply opcode_byte.
Qed.
Lemma emits_step s o w id : emits s (compile_step o w id) (step_code o w (var_value id)).
Proof.
  unfold compile_step, step_code. apply (emits_bind _ _ _ [_]); [by apply opcode_byte|].
  apply emits_bind; [apply emits_dword|]. apply (emits_bind _ _ _ [_]); [by apply opcode_byte|].
  apply emits_bind; [apply emits_one|]. apply (emits_bind _ _ _ [_]); [apply bin_byte|by apply opcode_byte].
Qed.

Lemma id_addr_flag l addr :
  match l with LVar _ _ | LSysvar _ _ | LDeref => True | _ => False end →
  flag_test (id_addr l addr) FINSH_IDTYPE_ADDRESS = addr.
Proof. by destruct l, addr. Qed.
Lemma emits_id s l n addr :
  match l with LVar _ _ | LSysvar _ _ | LFunc _ => True | _ => False end →
  node_ok s l n → nd_idtype n = id_addr l addr → emits s (compile_id n) (op_code l addr (nd_data_type n) ANil).
Proof.
  intros Hl Hn Hid. unfold compile_id. rewrite Hid. destruct l as [| |t a|t a|f| | | | | | | |]; try done.
  - destruct Hn as (_ & Hz & -> & j & v & Hj & Hv & <-).
    replace (flag_test _ FINSH_IDTYPE_SYSCALL) with false by (by destruct addr).
    replace (flag_test _ FINSH_IDTYPE_SYSVAR) with false by (by destruct addr).
    rewrite (proj2 (Z.eqb_neq _ _) Hz). eapply emits_option; [done|]. apply emits_getf; [done|].
    eapply emits_option; [done|]. apply emits_var. by apply id_addr_flag.
  - destruct Hn as (_ & Hz & v & Hv & <- & <-).
    replace (flag_test _ FINSH_IDTYPE_SYSCALL) with false by (by destruct addr).
    replace (flag_test _ FINSH_IDTYPE_SYSVAR) with true by (by destruct addr).
    rewrite (proj2 (Z.eqb_neq _ _) Hz). apply emits_getf; [done|].
    eapply emits_option; [done|]. apply emits_var. by apply id_addr_flag.
  - destruct Hn as (_ & v & Hv & <-). apply emits_getf; [done|]. eapply emits_option; [done|].
    apply (emits_bind _ _ _ [_]); [by apply opcode_byte|apply emits_dword].
Qed.

Lemma count_siblings_rep s t addr p fp fuel pre :
  rep true addr s (f_nodes s) p t fp → (length fp ≤ fuel)%nat →
  count_siblings fuel p (comp s pre) = Done (Z.of_nat (trees t)) (comp s pre).
Proof.
  revert addr p fp fuel. induction t as [|l c _ t IH]; intros addr p fp fuel.
  { intros [-> ->] _. by destruct fuel. }
  intros (i & n & fpc & fpt & -> & Hi & _ & _ & _ & Hs & ->) Hf.
  simpl in Hf. rewrite length_app in Hf. destruct fuel as [|fuel]; [lia|]. cbn [count_siblings].
  erewrite bind_done by (by apply get_node_spec). erewrite bind_done by (eapply IH; [done|lia]).
  cbv [mret SM_ret]. f_equal. simpl trees. lia.
Qed.

(** The node of a call, an assignment, an increment looks at its first child. *)
Lemma emits_id_child s n c addr fp l k cs :
  rep true addr s (f_nodes s) (nd_child n) c fp →
  match c with ANode (LVar t a as l') ANil _ => l = l' | _ => False end →
  (∀ nc, node_ok s l nc → emits s (k (Some nc)) cs) → emits s (id_child n ≫= k) cs.
Proof.
  intros Hr Hc Hk. destruct c as [|lc [] tc]; [done| |by destruct lc]. destruct lc; try done. subst l.
  destruct Hr as (i & nc & fpc & fpt & Hch & Hi & Hn & _).
  eapply emits_read; [|by apply Hk]. intros pre. unfold id_child. rewrite Hch.
  erewrite bind_done by (by apply get_node_spec). by destruct Hn as [-> _].
Qed.
Lemma emits_store s d : data_width d ≠ None →
  emits s (compile_store d) (width_code d (λ w, [FINSH_OP_ST w; FINSH_OP_LD_VALUE_STACK w])).
Proof.
  intros Hd. unfold compile_store, width_code. destruct (data_width d) as [w|]; [|done].
  apply (emits_bind _ _ _ [_]); by apply opcode_byte.
Qed.
Lemma data_width_land d w : data_width d = Some w → Z.land d 0x0F = d.
Proof.
  unfold data_width. destruct (Z.eqb_spec d FINSH_DATA_TYPE_BYTE) as [->|]; [done|].
  destruct (Z.eqb_spec d FINSH_DATA_TYPE_WORD) as [->|]; [done|].
  by destruct (Z.eqb_spec d FINSH_DATA_TYPE_DWORD) as [->|].
Qed.
Lemma emits_assign s n c fp w :
  rep true true s (f_nodes s) (nd_child n) c fp → data_width (dtype c) = Some w →
  match c with ANode (LVar _ _ | LSysvar _ _ | LDeref) _ _ => True | _ => False end →
  emits s (compile_assign n) (width_code (dtype c) (λ w, [FINSH_OP_ST w; FINSH_OP_LD_VALUE_STACK w])).
Proof.
  intros Hr Hw Hc. destruct c as [|lc cc tc]; [done|].
  destruct Hr as (i & nc & fpc & fpt & Hch & Hi & Hn & [Hd _] & _).
  unfold compile_assign. eapply emits_option; [done|]. eapply emits_node; [done|]. rewrite Hd.
  destruct lc; try done; [destruct Hn as [-> _]..|rewrite Hn; cbn [kind]]; lazy match.
  1-2: by apply emits_store; rewrite Hw.
  rewrite (data_width_land _ w) by done. by apply emits_store; rewrite Hw.
Qed.
Lemma emits_func s n c addr fp :
  rep true addr s (f_nodes s) (nd_child n) c fp → c ≠ ANil → (length fp ≤ FINSH_NODE_MAX)%nat → (trees c ≤ 17)%nat →
  emits s (compile_func n) [FINSH_OP_SYSCALL; Z.of_nat (pred (trees c))].
Proof.
  intros Hr Hc Hl Ht. destruct c as [|lc cc tc]; [done|].
  destruct Hr as (i & nc & fpc & fpt & Hch & Hi & _ & _ & _ & Hs & ->). simpl in Hl, Ht. rewrite length_app in Hl.
  unfold compile_func. rewrite Hch. eapply emits_node; [done|].
  eapply emits_read; [intros pre; eapply count_siblings_rep; [done|lia]|].
  apply (emits_bind _ _ _ [_]); [by apply emits_op|]. apply emits_op. simpl. lia.
Qed.

(** In a typed tree every operator has a width, and a call at most sixteen arguments. *)
Lemma slot_width l addr d c ws w :
  slot l addr d c ws = Some w →
  match l with
  | LBin _ | LNot | LAssign | LPre _ | LPost _ => ∃ w, data_width d = Some w
  | LDeref => addr = true ∨ ∃ w, data_width d = Some w
  | LCall => (length ws ≤ 17)%nat
  | _ => True
  end.
Proof.
  destruct (decide (l = LCall)) as [->|Hl].
  - destruct ws as [|[] ws]; try done. simpl. case_match eqn:E; [|done]. intros _.
    apply andb_true_iff in E as [_ E%Nat.leb_le]. lia.
  - destruct (data_width d) as [wd|] eqn:Hd; [by destruct l; eauto|].
    destruct l; try done; simpl; rewrite ?Hd; intros H; repeat (case_match; simplify_eq/=; try done). by left.
Qed.

(** The code of a node, behind that of its children. *)
Lemma emits_node_code s l c t n addr ws fp :
  slots addr (ANode l c t) = Some ws → node_ok s l n → typed true addr (ANode l c t) n →
  rep true (addr_child l addr) s (f_nodes s) (nd_child n) c fp → (length fp ≤ FINSH_NODE_MAX)%nat →
  emits s (compile_node n) (op_code l addr (dtype (ANode l c t)) c).
Proof.
  intros Hs Hn [Hd Hid] Hr Hf. pose proof (slots_leaf _ _ _ _ _ Hs) as Hleaf.
  cbn [slots] in Hs. apply bind_Some in Hs as (ws1 & H1 & (w & Hw & _)%bind_Some).
  pose proof (slot_width _ _ _ _ _ _ Hw) as Hwd. pose proof (slots_length _ _ _ H1) as Hlen.
  assert (c ≠ ANil → nd_data_type n = dtype c) as Hdt by (rewrite Hd; by destruct c).
  pose proof (node_ok_kind _ _ _ Hn) as Hk%list_elem_of_In.
  unfold compile_node. rewrite <- Hd in *. clear Hd.
  destruct l as [v|v|ty a|ty a|f|o| | |up|up| | |]; cbn [kinds In kind] in Hk; repeat destruct Hk as [Hk|Hk]; try done;
    rewrite <- Hk; lazy match.
  - destruct Hn as [_ ->]. apply (emits_bind _ _ _ [_]); [by apply emits_op|]. apply emits_op, low_range. done.
  - destruct Hn as [_ ->]. apply (emits_bind _ _ _ [_]); [by apply opcode_byte|apply emits_dword].
  - destruct Hn as [_ ->]. apply (emits_bind _ _ _ [_]); [by apply opcode_byte|apply emits_dword].
  - destruct Hn as [_ ->]. apply (emits_bind _ _ _ [_]); [by apply opcode_byte|apply emits_dword].
  - destruct Hn as [_ ->]. apply (emits_bind _ _ _ [_]); [by apply opcode_byte|apply emits_dword].
  - by apply (emits_id s (LVar ty a)).
  - by apply (emits_id s (LSysvar ty a)).
  - by apply (emits_id s (LFunc f) n addr).
  - destruct o; apply emits_op_width; intros ?; apply bin_byte.
  - apply emits_op_width. intros ?. by apply opcode_byte.
  - assert (c ≠ ANil) as Hc by (by intros Hc%Hleaf). destruct Hwd as [w' Hw']. cbn [op_code].
    rewrite (Hdt Hc) in *. eapply emits_assign; [done..|]. simpl in Hw.
    destruct ws1 as [|[] [|? []]]; try done. by destruct c as [|[] ? ?].
  - simpl in Hw. destruct ws1 as [|[] [|? []]]; try done. destruct c as [|[] [] tc]; try done.
    destruct Hwd as [w' Hw']. destruct up; eapply emits_id_child; try done; intros nc (_ & _ & -> & _);
      rewrite Hw'; cbn [op_code]; unfold width_code; rewrite Hw'; apply emits_bind; [apply emits_step|by apply opcode_byte|apply emits_step|by apply opcode_byte].
  - simpl in Hw. destruct ws1 as [|? [|? []]]; try done. destruct c as [|[] [] tc]; try done.
    destruct Hwd as [w' Hw']. destruct up; eapply emits_id_child; try done; intros nc (_ & _ & -> & _);
      rewrite Hw'; cbn [op_code]; unfold width_code; rewrite Hw'; (apply (emits_bind _ _ _ [_]); [by apply opcode_byte|]);
      (apply emits_bind; [apply emits_dword|]); (apply emits_bind; [apply emits_step|by apply emits_op]).
  - rewrite Hid, id_addr_flag by done. cbn [op_code]. destruct addr; [apply emits_ret|].
    apply emits_op_width. intros ?. by apply opcode_byte.
  - apply emits_ret.
  - eapply emits_func; [done| |done|simpl in Hwd; lia]. by intros Hc%Hleaf.
Qed.

Lemma emits_compile s t addr p fp ws fuel :
  rep true addr s (f_nodes s) p t fp → slots addr t = Some ws → (length fp ≤ fuel)%nat →
  (length fp ≤ FINSH_NODE_MAX)%nat → emits s (finsh_compile fuel p) (code addr t).
Proof.
  revert addr p fp ws fuel. induction t as [|l c IHc t IHt]; intros addr p fp ws fuel.
  { intros [-> ->] _ _ _. destruct fuel; apply emits_ret. }
  intros (i & n & fpc & fpt & -> & Hi & Hn & Ht & Hc & Hs & ->) Hty Hf Hm.
  simpl in Hf, Hm. rewrite length_app in Hf, Hm. destruct fuel as [|fuel]; [lia|].
  pose proof Hty as Hty'. cbn [slots] in Hty'.
  apply bind_Some in Hty' as (ws1 & H1 & (w & Hw & (ws2 & H2 & _)%bind_Some)%bind_Some).
  cbn [finsh_compile code]. eapply emits_node; [done|].
  apply emits_bind; [eapply IHc; [done..|lia|lia]|].
  apply emits_bind; [eapply emits_node_code; [done..|lia]|eapply IHt; [done..|lia|lia]].
Qed.

(** * Programs *)

(** A statement and what follows it. *)
Lemma emit_bind s m k pre cs (r : outcome finsh unit) :
  emits s m cs → (length pre ≤ FINSH_TEXT_MAX)%nat →
  ((length (pre ++ cs) ≤ FINSH_TEXT_MAX)%nat → k (comp s (pre ++ cs)) = r) →
  ((FINSH_TEXT_MAX < length (pre ++ cs))%nat → Fault BadPointer = r) → (m;; k) (comp s pre) = r.
Proof.
  intros Hm Hp H1 H2. unfold mbind, SM_bind. rewrite Hm by done. unfold emit.
  destruct (Nat.leb_spec (length (pre ++ cs)) FINSH_TEXT_MAX); auto.
Qed.
Lemma emit_full s' pre cs ds :
  (FINSH_TEXT_MAX < length (pre ++ cs))%nat → Fault BadPointer = emit s' pre (cs ++ ds).
Proof. intros H. unfold emit. rewrite (proj2 (Nat.leb_gt _ _)); [done|]. rewrite !length_app in *. lia. Qed.

Lemma compile_statements_rep s t ns p fp ws fuel pre :
  rep true false s ns p t fp → NoDup fp → slots false t = Some ws → (length fp ≤ fuel)%nat →
  (length fp ≤ FINSH_NODE_MAX)%nat → (length pre ≤ FINSH_TEXT_MAX)%nat →
  ∃ ns', compile_statements fuel p (comp (set_f_nodes ns s) pre) = emit (set_f_nodes ns' s) pre (program_code t).
Proof.
  revert ns p fp ws fuel pre. induction t as [|l c _ t IH]; intros ns p fp ws fuel pre.
  { intros [-> ->] _ _ _ _ Hp. exists ns. rewrite <- (emits_ret (set_f_nodes ns s) pre Hp : _ = emit _ _ (program_code ANil)). by destruct fuel. }
  intros (i & n & fpc & fpt & -> & Hi & Hn & Ht & Hc & Hs & ->) [Hni [_ [Hdisj Hndt]]%NoDup_app]%NoDup_cons Hty Hf Hm Hp.
  simpl in Hf, Hm. rewrite length_app in Hf, Hm. destruct fuel as [|fuel]; [lia|].
  destruct (slots_head _ _ _ _ _ Hty) as (w & ws' & -> & Hty1 & Hty2).
  set (ns1 := <[i := set_nd_sibling None n]> ns). set (s1 := set_f_nodes ns1 s).
  assert (rep true false s1 ns1 (Some i) (ANode l c ANil) (i :: fpc)) as Hr1.
  { exists i, (set_nd_sibling None n), fpc, []. rewrite app_nil_r. split; [done|].
    split; [apply list_lookup_insert_eq; by eapply lookup_lt_Some|]. split; [by destruct l|]. split; [done|].
    split; [|done]. eapply rep_frame; [eapply (rep_tables _ _ s); [done..|exact Hc]|]. intros j Hj. unfold ns1. by rewrite list_lookup_insert_ne by set_solver. }
  assert (rep true false s ns1 (nd_sibling n) t fpt) as Hr2.
  { eapply rep_frame; [exact Hs|]. intros j Hj. unfold ns1. by rewrite list_lookup_insert_ne by set_solver. }
  assert (emits s1 (finsh_compile FINSH_NODE_MAX (Some i)) (code false (ANode l c ANil))) as He
    by (eapply emits_compile; [exact Hr1|done|simpl; lia|simpl; lia]).
  cbn [compile_statements].
  assert (get_node i (comp (set_f_nodes ns s) pre) = Done n (comp (set_f_nodes ns s) pre)) as E1
    by (by apply get_node_spec).
  assert (upd_node i (set_nd_sibling None) (comp (set_f_nodes ns s) pre) = Done tt (comp s1 pre)) as E2
    by (by erewrite upd_node_spec).
  setoid_rewrite (bind_done _ _ _ _ _ E1). setoid_rewrite (bind_done _ _ _ _ _ E2).
  destruct t as [|l2 c2 t2].
  - destruct Hr2 as [-> _]. exists ns1. eapply (emit_bind _ _ _ _ _ _ He Hp).
    + intros Hl. change (program_code (ANode l c ANil)) with (code false (ANode l c ANil)). unfold emit.
      rewrite (proj2 (Nat.leb_le _ _) Hl). by destruct fuel.
    + intros Hl. rewrite <- (app_nil_r (program_code _)). by apply emit_full.
  - rewrite program_code_cons. destruct (nd_sibling n) as [j|] eqn:Ej; [|by destruct Hs as (?&?&?&?&?&?)].
    destruct (Nat.le_gt_cases (length (pre ++ code false (ANode l c ANil) ++ [FINSH_OP_POP])) FINSH_TEXT_MAX) as [Hle|Hgt].
    + destruct (IH ns1 _ _ _ fuel (pre ++ code false (ANode l c ANil) ++ [FINSH_OP_POP]) Hr2 Hndt Hty2 ltac:(lia) ltac:(lia) Hle) as [ns' E].
      exists ns'. eapply (emit_bind _ _ _ _ _ _ He Hp); intros Hl; [|by apply emit_full].
      eapply (emit_bind _ _ _ _ _ _ (emits_op s1 FINSH_OP_POP ltac:(done)) Hl); intros Hl2.
      * rewrite <- app_assoc. etrans; [exact E|]. unfold emit. by rewrite <- !app_assoc.
      * rewrite <- app_assoc in Hl2. lia.
    + exists ns1. rewrite app_assoc. eapply (emit_bind _ _ _ _ _ _ He Hp); intros Hl; [|by apply emit_full; rewrite length_app in *; lia].
      eapply (emit_bind _ _ _ _ _ _ (emits_op s1 FINSH_OP_POP ltac:(done)) Hl); intros Hl2; [|by apply emit_full].
      rewrite <- app_assoc in Hl2. lia.
Qed.

(** The compiler on a program of the node table: the types are checked, the text is the code
    of the program, and code that does not fit faults. *)
Lemma compiler_run_rep s t p fp ws :
  rep false false s (f_nodes s) p t fp → NoDup fp → length (f_nodes s) = FINSH_NODE_MAX → slots false t = Some ws →
  ∃ ns', finsh_compiler_run p s =
    if (length (program_code t) <=? FINSH_TEXT_MAX)%nat
    then Done 0 (comp (set_f_stack (<[0%nat := 0]> (f_stack s)) (set_f_nodes ns' s)) (program_code t))
    else Fault BadPointer.
Proof.
  intros Hr Hnd Hlen Hty. pose proof (rep_length _ _ _ _ _ _ _ Hr Hnd) as Hf. rewrite Hlen in Hf.
  destruct (type_check_rep s t false (f_nodes s) p fp ws FINSH_NODE_MAX Hr Hnd Hty Hf) as (ns & E & Hr' & _ & _).
  set (s1 := set_f_stack (<[0%nat := 0]> (f_stack s)) s).
  apply (rep_tables _ _ _ s1) in Hr'; [|done..].
  destruct (compile_statements_rep s1 t ns p fp ws FINSH_NODE_MAX [] Hr' Hnd Hty Hf Hf ltac:(simpl; lia)) as [ns' E'].
  exists ns'. unfold finsh_compiler_run.
  assert (set_f_nodes (f_nodes s) s = s) as Hs by (by destruct s). rewrite Hs in E.
  erewrite bind_done by exact E. do 3 (erewrite bind_done by done).
  match goal with |- (_ ≫= _) ?x = _ => change x with (comp (set_f_nodes ns s1) []) end.
  unfold mbind, SM_bind. rewrite E'. unfold emit. rewrite app_nil_l. by destruct (_ <=? _)%nat.
Qed.
End code.
