(* ===== verification/FinshCorrect.v ===== *)
(** FinSH from the node table to the result: [finsh_compiler_run], [finsh_vm_run] and
    [finsh_stack_bottom] compute the value of a typed program. *)

From stdpp Require Import base list gmap.
From Stdlib Require Import ZArith Lia.
From S2P Require Import Prelude Halts Kservice FinshState FinshVar FinshHeap FinshNode FinshVm FinshCompiler FinshSem FinshVmFacts FinshRun FinshTypes FinshCode.

Open Scope Z_scope.

(** A program in the node table at [p]: the trees [t] as the parser leaves them, with the
    types [ws] of their results. *)
Definition program_at `{finsh_image} (s : finsh) (p : option nat) (t : ast) (ws : list width) : Prop :=
  ∃ fp, rep false false s (f_nodes s) p t fp ∧ NoDup fp ∧ length (f_nodes s) = FINSH_NODE_MAX ∧
    slots false t = Some ws.
(** The machine: 64 words of stack, memory made of bytes. *)
Definition machine_ok (s : finsh) : Prop :=
  length (f_stack s) = FINSH_STACK_MAX ∧ words (f_stack s) ∧ bytes_ok (f_mem s).

Section correct.
Context `{img : finsh_image}.

Lemma machine_ok_compiled s ns cs :
  machine_ok s → machine_ok (comp (set_f_stack (<[0%nat := 0]> (f_stack s)) (set_f_nodes ns s)) cs).
Proof.
  intros (Hl & Hw & Hm). split; [by simpl; rewrite length_insert|]. split; [|done].
  simpl. apply Forall_insert; [done|]. done.
Qed.
Lemma value_i32 w x : value w (i32 x) = value w x.
Proof. apply (value_fits w Dword). by destruct w. Qed.

Definition compile_and_run (call : Z → list Z → F Z) (p : option nat) : F Z :=
  _ ← finsh_compiler_run p; finsh_vm_run call;; finsh_stack_bottom.

Lemma compile_and_run_spec call fcall s p t ws v m' :
  call_ok call fcall → machine_ok s → program_at s p t ws →
  (length (program_code t) ≤ FINSH_TEXT_MAX)%nat → eval_program fcall t (f_mem s) = Some (v, m') →
  ∃ x w s', compile_and_run call p s = Done x s' ∧ last ws = Some w ∧ value w x = v ∧
    f_mem s' = m' ∧ machine_ok s' ∧ f_errno s' = f_errno s ∧ f_vars s' = f_vars s.
Proof.
  intros Hcall Hok (fp & Hr & Hnd & Hlen & Hty) Hle Hv.
  destruct (compiler_run_rep s t p fp ws Hr Hnd Hlen Hty) as [ns E].
  rewrite (proj2 (Nat.leb_le _ _) Hle) in E.
  apply (machine_ok_compiled s ns (program_code t)) in Hok as (Hl1 & Hw1 & Hm1).
  assert (nodes t ≤ FINSH_NODE_MAX)%nat as Hn.
  { rewrite <- (rep_nodes _ _ _ _ _ _ _ Hr), <- Hlen. by eapply rep_length. }
  set (s1 := comp _ _) in *.
  destruct (vm_run_program call fcall Hcall s1 t ws v m' Hty Hv eq_refl Hle Hw1) as (x & J & w & E2 & Hw & [Hx Hxv] & HJ & HlJ & Hm');
    [rewrite Hl1; unfold FINSH_NODE_MAX, FINSH_STACK_MAX in *; lia|done|].
  exists (i32 x), w. eexists. split.
  { unfold compile_and_run. erewrite bind_done by exact E. erewrite bind_done by exact E2. done. }
  split; [done|]. split; [by rewrite value_i32|]. split; [done|]. split; [|done].
  split; [simpl in HlJ |- *; by rewrite HlJ|]. split; [by constructor|done].
Qed.
End correct.

(** C20. FinSH computes what the program means: for a typed program in the node table whose
    code fits into the text segment and which has a meaning (no division by zero, no wild
    pointer), compiler and machine come back with the value of the last statement in the low
    bits (its width) of the result, the memory as the program leaves it, the stack and the
    table of variables intact and no error set. *)
Theorem finsh_program_correct `{img : finsh_image} call fcall s p t ws v m' :
  call_ok call fcall → machine_ok s → program_at s p t ws →
  (length (program_code t) ≤ FINSH_TEXT_MAX)%nat → eval_program fcall t (f_mem s) = Some (v, m') →
  ∃ x w s', compile_and_run call p s = Done x s' ∧ last ws = Some w ∧ value w x = v ∧
    f_mem s' = m' ∧ machine_ok s' ∧ f_errno s' = f_errno s ∧ f_vars s' = f_vars s.
Proof. apply compile_and_run_spec. Qed.

(** C21. The type check visits every node of a program once, gives each the type of its
    leftmost leaf and the mark of an address where an address is asked for, and leaves the
    other nodes and the rest of the state alone. *)
Theorem finsh_type_check_types `{img : finsh_image} s p t ws fp :
  rep false false s (f_nodes s) p t fp → NoDup fp → length (f_nodes s) = FINSH_NODE_MAX →
  slots false t = Some ws →
  ∃ ns, finsh_type_check FINSH_NODE_MAX p FINSH_NODE_VALUE s = Done tt (set_f_nodes ns s) ∧
    rep true false s ns p t fp ∧ length ns = FINSH_NODE_MAX ∧
    ∀ i, i ∉ fp → ns !! i = f_nodes s !! i.
Proof.
  intros Hr Hnd Hlen Hty. pose proof (rep_length _ _ _ _ _ _ _ Hr Hnd) as Hf. rewrite Hlen in Hf.
  destruct (type_check_rep s t false (f_nodes s) p fp ws FINSH_NODE_MAX Hr Hnd Hty Hf) as (ns & E & R & L & Fr).
  exists ns. rewrite L. split; [|done]. by destruct s.
Qed.

(** C25. The text segment has 128 bytes and the code generator no check: it comes back exactly
    when the code of the program fits, and writes past the end otherwise. *)
Theorem finsh_compiler_run_bound `{img : finsh_image} s p t ws :
  program_at s p t ws →
  (finsh_compiler_run p s = Fault BadPointer ↔ (FINSH_TEXT_MAX < length (program_code t))%nat) ∧
  ((length (program_code t) ≤ FINSH_TEXT_MAX)%nat →
   ∃ s', finsh_compiler_run p s = Done 0 s' ∧ f_errno s' = f_errno s ∧ f_compile_pc s' = length (program_code t) ∧
     f_text s' = program_code t ++ replicate (FINSH_TEXT_MAX - length (program_code t)) 0).
Proof.
  intros (fp & Hr & Hnd & Hlen & Hty). destruct (compiler_run_rep s t p fp ws Hr Hnd Hlen Hty) as [ns ->].
  destruct (Nat.leb_spec (length (program_code t)) FINSH_TEXT_MAX).
  - split; [|by eauto]. split; [done|lia].
  - split; [done|lia].
Qed.
