(* ===== verification/FinshLexFacts.v ===== *)
(** The scanner of FinSH comes to an end of every token and moves on in the line.

    A line is safe when no identifier is at its end (the shell puts a semicolon there): the
    scanner takes the end of the line behind an identifier for the beginning. *)

From stdpp Require Import base list gmap.
From Stdlib Require Import ZArith Lia.
From S2P Require Import Prelude Halts Kservice FinshState FinshToken.

Open Scope Z_scope.

Definition safe_line (L : list Z) : Prop :=
  ∀ i c, L !! i = Some c → is_separator c = false → ∃ c', L !! S i = Some c' ∧ c' ≠ 10.

Section lex.
Context (L : list Z).

(** The scanner is at position [b] or behind it, or at the end. *)
Definition at_pos (b : nat) (s : finsh) : Prop :=
  tk_line (f_token s) = L ∧
  (tk_eof (f_token s) = true ∨ (b ≤ tk_position (f_token s) ≤ length L)%nat).
(** [n] turns of a loop over characters are enough. *)
Definition enough (n : nat) (s : finsh) : Prop :=
  tk_eof (f_token s) = true ∨ (length L < n + tk_position (f_token s))%nat.
(** What the parser keeps in the token does not change while a token is scanned. *)
Definition same_cur (s s' : finsh) : Prop :=
  tk_replay (f_token s') = tk_replay (f_token s) ∧ tk_current (f_token s') = tk_current (f_token s).

Lemma at_pos_le b b' s : at_pos b s → (b' ≤ b)%nat → at_pos b' s.
Proof. intros [Hl H] Hb. split; [done|]. destruct H; [auto|right; lia]. Qed.
Lemma same_cur_refl s : same_cur s s.
Proof. done. Qed.
Lemma same_cur_trans s1 s2 s3 : same_cur s1 s2 → same_cur s2 s3 → same_cur s1 s3.
Proof. intros [??] [??]. split; congruence. Qed.

(** A character is read: the position is one further on, or the end is reached and the
    character is zero. *)
Lemma next_char_halts b s (Q : Z → finsh → Prop) :
  at_pos b s →
  (∀ ch s', at_pos (S b) s' → same_cur s s' → (∀ n, enough (S n) s → enough n s') →
     (tk_eof (f_token s') = true ∧ ch = 0 ∧
      (tk_eof (f_token s) = false → ∀ c, L !! tk_position (f_token s) = Some c → c = 10)) ∨
     (tk_eof (f_token s) = false ∧ tk_eof (f_token s') = false ∧
      L !! tk_position (f_token s) = Some ch ∧ ch ≠ 10 ∧
      tk_position (f_token s') = S (tk_position (f_token s))) →
     Q ch s') →
  halts token_next_char Q s.
Proof.
  intros [Hl Hp] HQ. unfold token_next_char, getf, enough in *. repeat halts_step.
  - apply HQ; [by split; auto|done|by auto|]. left. split_and!; [done|done|congruence].
  - rewrite Hl. destruct (L !! tk_position (f_token s)) as [ch|] eqn:E.
    + assert (Hlt := lookup_lt_Some _ _ _ E). repeat halts_step.
      * unfold upd_token. halts_step. apply HQ; [by split; auto|done|by auto|]. left. split_and!; [done..|].
        intros _ c [= <-]. by apply Z.eqb_eq.
      * unfold upd_token. halts_step. apply HQ.
        -- split; [done|]. right. simpl. destruct Hp; [congruence|lia].
        -- done.
        -- intros n [Hn|Hn]; [by left|]. right. simpl. lia.
        -- right. split_and!; try done. by apply Z.eqb_neq.
    + repeat halts_step. unfold upd_token. halts_step. apply HQ; [by split; auto|done|by auto|].
      left. by split_and!.
Qed.
Lemma prev_char_halts b s (Q : unit → finsh → Prop) :
  at_pos (S b) s → (∀ s', at_pos b s' → same_cur s s' → tk_eof (f_token s') = tk_eof (f_token s) →
    tk_position (f_token s') = (if tk_eof (f_token s) then tk_position (f_token s) else pred (tk_position (f_token s))) →
    tk_string (f_token s') = tk_string (f_token s) → Q tt s') →
  halts token_prev_char Q s.
Proof.
  intros [Hl Hp] HQ. unfold token_prev_char, getf. repeat halts_step.
  - apply HQ; try done; [by split; auto|by rewrite H].
  - unfold upd_token. halts_step. apply HQ; try done; [|by rewrite H]. split; [done|]. simpl.
    destruct Hp; [congruence|right; lia].
Qed.
Lemma upd_halts f s (Q : unit → finsh → Prop) : Q tt (set_f_token (f (f_token s)) s) → halts (upd_token f) Q s.
Proof. intros HQ. unfold upd_token. by halts_step. Qed.
Lemma line_fuel_halts s (Q : nat → finsh → Prop) :
  tk_line (f_token s) = L → (∀ n, enough n s → Q n s) → halts line_fuel Q s.
Proof. intros Hl HQ. unfold line_fuel, getf. repeat halts_step. apply HQ. right. rewrite Hl. lia. Qed.

(** A loop over characters that reads on while [test] holds of the character. *)
Lemma scan_halts {A B} (loop : nat → A → Z → F B) (test : Z → bool) (k : A → Z → A) (r : A → Z → B) :
  test 0 = false →
  (∀ fuel a ch, loop fuel a ch =
    if test ch then
      match fuel with O => fail OutOfFuel | S n => c ← token_next_char; loop n (k a ch) c end
    else mret (r a ch)) →
  ∀ fuel a ch b s, at_pos b s → enough fuel s → (test ch = true → tk_eof (f_token s) = false) →
  halts (loop fuel a ch) (λ _ s', at_pos (if test ch then S b else b) s' ∧ same_cur s s') s.
Proof.
  intros H0 Hloop fuel. induction fuel as [|fuel IH]; intros a ch b s Hat Hen He; rewrite Hloop;
    (destruct (test ch) eqn:Et; [|by halts_step]).
  - destruct Hen as [Hen|Hen], Hat as [_ [Hat|Hat]]; try (rewrite He in * by done; done); simpl in Hen; lia.
  - halts_step. apply next_char_halts with b; [done|]. intros c s' Hat' Hsc Hen' Hc.
    eapply halts_mono; [apply (IH (k a ch) c (S b) s' Hat')|].
    + by apply Hen'.
    + destruct Hc as [(_ & -> & _)|(_ & ? & _)]; [by rewrite H0|done].
    + simpl. intros _ s'' [Hat'' Hsc']. split; [|by eapply same_cur_trans].
      eapply at_pos_le; [done|]. destruct (test c); lia.
Qed.
Lemma collect_halts test fuel ch acc b s :
  test 0 = false → at_pos b s → enough fuel s → (test ch = true → tk_eof (f_token s) = false) →
  halts (collect fuel test ch acc) (λ _ s', at_pos (if test ch then S b else b) s' ∧ same_cur s s') s.
Proof.
  intros H0. apply (scan_halts (λ n acc c, collect n test c acc) test (λ a c, a ++ [c]) pair); [done|].
  by intros [|?].
Qed.
Lemma char_digits_halts fuel n ch b s :
  at_pos b s → enough fuel s → (is_digit ch = true → tk_eof (f_token s) = false) →
  halts (char_digits fuel n ch) (λ _ s', at_pos (if is_digit ch then S b else b) s' ∧ same_cur s s') s.
Proof. apply (scan_halts char_digits is_digit (λ n _, S n) (λ n _, n)); [done|]. by intros [|?]. Qed.
Lemma decimal_halts fuel v ch b s :
  at_pos b s → enough fuel s → (is_digit ch = true → tk_eof (f_token s) = false) →
  halts (decimal fuel v ch) (λ _ s', at_pos (if is_digit ch then S b else b) s' ∧ same_cur s s') s.
Proof.
  apply (scan_halts decimal is_digit (λ v c, i32 (v * 10 + (c - 48))) pair); [done|]. by intros [|?].
Qed.

(** * Tokens *)

Context (Hsafe : safe_line L) (Hquote : 34 ∉ L).

(** A token: its kind is set, and a string constant is not among them. *)
Definition token_set (b : nat) (s s' : finsh) : Prop :=
  at_pos b s' ∧ tk_replay (f_token s') = tk_replay (f_token s) ∧
  tk_current (f_token s') ≠ finsh_token_type_value_string.

Lemma set_current_halts b t s (Q : unit → finsh → Prop) :
  at_pos b s → t ≠ finsh_token_type_value_string →
  (∀ s', token_set b s s' → tk_current (f_token s') = t → Q tt s') → halts (set_current_token t) Q s.
Proof. intros Hat Ht HQ. apply upd_halts. by apply HQ. Qed.

Lemma token_set_from b s s1 s2 : same_cur s s1 → token_set b s1 s2 → token_set b s s2.
Proof. intros [E _] (H1 & H2 & H3). split; [done|]. split; [congruence|done]. Qed.
Lemma token_set_le b b' s s' : token_set b s s' → (b' ≤ b)%nat → token_set b' s s'.
Proof. intros [H ?] ?. split; [by eapply at_pos_le|done]. Qed.

Lemma suffix_halts b ch s :
  at_pos (S b) s → tk_current (f_token s) ≠ finsh_token_type_value_string →
  halts (number_suffix ch) (λ _ s', token_set b s s') s.
Proof.
  intros Hat Hc. unfold number_suffix. halts_step.
  - eapply set_current_halts; [by eapply at_pos_le, Nat.le_succ_diag_r|done|auto].
  - apply prev_char_halts with b; [done|]. intros s' Hat' [H1 H2] _ _ _. split; [done|]. by rewrite H1, H2.
Qed.
Lemma spec_number_halts base test ch b s :
  test 0 = false → at_pos (S b) s → (test ch = true → tk_eof (f_token s) = false) →
  halts (spec_number base test ch) (λ _ s', token_set b s s') s.
Proof.
  intros H0 Hat He. unfold spec_number. halts_step. apply line_fuel_halts; [by destruct Hat|]. intros n Hn.
  halts_step. eapply halts_mono; [by apply collect_halts with (b := S b)|]. intros [buf c] s1 [Hat1 Hsc]. cbv beta iota.
  assert (at_pos (S b) s1) as Hat1' by (eapply at_pos_le; [done|]; destruct (test ch); lia).
  halts_step. unfold buffer_check. halts_step; [|by halts_step]. halts_step. halts_step. unfold set_int_value.
  apply upd_halts. halts_step. eapply set_current_halts; [exact Hat1'|done|]. intros s2 Hts _.
  eapply halts_mono; [apply suffix_halts with (b := b)|]; [by destruct Hts|by destruct Hts as (_ & _ & ?)|].
  intros ? s3 Hts3. cbv beta. destruct Hts as (_ & E2 & _), Hts3 as (? & E3 & ?). split; [done|]. split; [|done].
  rewrite E3, E2. simpl. apply Hsc.
Qed.

(** A character that is there is read. *)
Lemma next_char_some b ch s (Q : Z → finsh → Prop) :
  tk_position (f_token s) = b → tk_line (f_token s) = L → tk_eof (f_token s) = false →
  L !! b = Some ch → ch ≠ 10 →
  (∀ s', at_pos (S b) s' → same_cur s s' → tk_eof (f_token s') = false →
    tk_position (f_token s') = S b → Q ch s') → halts token_next_char Q s.
Proof.
  intros Hb Hl He Hch H10 HQ. assert (Hlt := lookup_lt_Some _ _ _ Hch).
  apply next_char_halts with b; [split; [done|right; lia]|]. intros c s' Hat Hsc _ Hc.
  destruct Hc as [(_ & _ & E)|(_ & He' & E & _ & Hp)].
  - rewrite Hb in E. by specialize (E He _ Hch).
  - rewrite Hb in E, Hp. rewrite Hch in E. injection E as <-. by apply HQ.
Qed.

Lemma odigit_digit ch : is_odigit ch = true → ch ≠ 0.
Proof. by intros ? ->. Qed.
(** A number: at least its first digit is passed. *)
Lemma proc_number_halts b ch0 s :
  tk_position (f_token s) = b → tk_line (f_token s) = L → tk_eof (f_token s) = false →
  L !! b = Some ch0 → is_digit ch0 = true →
  halts token_proc_number (λ _ s', token_set (S b) s s') s.
Proof.
  intros Hb Hl He Hch Hd. unfold token_proc_number. halts_step.
  apply next_char_some with b ch0; try done. { by intros ->. }
  intros s1 Hat1 Hsc1 He1 Hp1. halts_step.
  - halts_step. apply next_char_halts with (S b); [done|]. intros ch s2 Hat2 Hsc2 _ Hc2.
    assert (Hz : ch ≠ 0 → tk_eof (f_token s2) = false) by (destruct Hc2 as [(_ & -> & _)|(_ & ? & _)]; done).
    assert (Hsc : same_cur s s2) by (by eapply same_cur_trans).
    halts_step; [|halts_step; [|halts_step]].
    + halts_step. apply next_char_halts with (S (S b)); [done|]. intros c s3 Hat3 Hsc3 _ Hc3.
      eapply halts_mono; [apply spec_number_halts with (b := S (S b)); [done|done|]|].
      * destruct Hc3 as [(_ & -> & _)|(_ & ? & _)]; done.
      * intros ? s4 Hts. cbv beta. eapply token_set_le; [eapply (token_set_from _ _ s3); [by eapply same_cur_trans|exact Hts]|lia].
    + halts_step. apply next_char_halts with (S (S b)); [done|]. intros c s3 Hat3 Hsc3 _ Hc3.
      eapply halts_mono; [apply spec_number_halts with (b := S (S b)); [done|done|]|].
      * destruct Hc3 as [(_ & -> & _)|(_ & ? & _)]; done.
      * intros ? s4 Hts. cbv beta. eapply token_set_le; [eapply (token_set_from _ _ s3); [by eapply same_cur_trans|exact Hts]|lia].
    + eapply halts_mono; [apply spec_number_halts with (b := S b); [done|done|]|].
      * intros Ho. apply Hz. by apply odigit_digit.
      * intros ? s4 Hts. cbv beta. by eapply (token_set_from _ _ s2).
    + halts_step. apply prev_char_halts with (S b); [done|]. intros s3 Hat3 Hsc3 _ _ _.
      halts_step. unfold set_int_value. apply upd_halts. eapply set_current_halts; [exact Hat3|done|].
      intros s4 Hts _. eapply (token_set_from _ _ s3); [by eapply same_cur_trans|]. exact Hts.
  - halts_step. apply line_fuel_halts; [by destruct Hat1|]. intros n Hn. halts_step.
    eapply halts_mono; [apply decimal_halts with (b := S b); done|]. rewrite Hd. intros [v c] s2 [Hat2 Hsc2]. cbv beta iota.
    halts_step. unfold set_int_value. apply upd_halts. halts_step.
    eapply set_current_halts; [exact Hat2|done|]. intros s3 Hts _.
    eapply halts_mono; [apply suffix_halts with (b := S b)|]; [by destruct Hts|by destruct Hts as (_ & _ & ?)|].
    intros ? s4 Hts4. cbv beta. destruct Hts as (_ & E3 & _), Hts4 as (? & E4 & ?). split; [done|]. split; [|done].
    rewrite E4, E3. simpl. destruct Hsc1, Hsc2. congruence.
Qed.

(** A character constant behind its first quote. *)
Lemma proc_char_halts b s :
  at_pos b s → halts token_proc_char (λ _ s', at_pos b s' ∧ same_cur s s') s.
Proof.
  intros Hat. unfold token_proc_char. halts_step. apply next_char_halts with b; [done|].
  intros ch s1 Hat1 Hsc1 _ _. halts_step.
  apply halts_mono with (λ _ s', at_pos (S b) s' ∧ same_cur s s').
  { halts_step; [|by halts_step]. halts_step. apply next_char_halts with (S b); [done|].
    intros c s2 Hat2 Hsc2 _ Hc2. assert (Hat2' : at_pos (S b) s2) by (eapply at_pos_le; [done|lia]).
    assert (Hsc : same_cur s s2) by (by eapply same_cur_trans).
    do 7 (halts_step; [by halts_step|]).
    halts_step. apply line_fuel_halts; [by destruct Hat2|]. intros n Hn. halts_step.
    eapply halts_mono; [apply char_digits_halts with (b := S (S b)); [done|done|]|].
    { destruct Hc2 as [(_ & -> & _)|(_ & ? & _)]; done. }
    intros k s3 [Hat3 Hsc3]. cbv beta. halts_step.
    apply prev_char_halts with (S b); [eapply at_pos_le; [done|]; destruct (is_digit c); lia|].
    intros s4 Hat4 Hsc4 _ _ _. halts_step. unfold buffer_check. halts_step; [|by halts_step]. do 2 halts_step.
    split; [done|]. eapply same_cur_trans; [exact Hsc|]. by eapply same_cur_trans. }
  intros ch' s2 [Hat2 Hsc2]. cbv beta. halts_step. apply next_char_halts with (S b); [done|].
  intros c s3 Hat3 Hsc3 _ _. assert (Hsc : same_cur s s3) by (by eapply same_cur_trans). halts_step.
  - halts_step. apply prev_char_halts with (S b); [done|]. intros s4 Hat4 Hsc4 _ _ _. halts_step.
    unfold finsh_error_set. do 2 halts_step. split; [eapply at_pos_le; [exact Hat4|lia]|].
    eapply same_cur_trans; [exact Hsc|exact Hsc4].
  - halts_step. split; [eapply at_pos_le; [exact Hat3|lia]|done].
Qed.

Lemma doubled_halts b c yes no s :
  at_pos b s → yes ≠ finsh_token_type_value_string → no ≠ finsh_token_type_value_string →
  halts (doubled c yes no) (λ _ s', token_set b s s') s.
Proof.
  intros Hat Hy Hn. unfold doubled. halts_step. apply next_char_halts with b; [done|].
  intros ch s1 Hat1 Hsc1 _ _. halts_step.
  - eapply set_current_halts; [exact Hat1|done|]. intros s2 Hts _.
    eapply token_set_le; [by eapply (token_set_from _ _ s1)|lia].
  - halts_step. apply prev_char_halts with b; [done|]. intros s2 Hat2 Hsc2 _ _ _.
    eapply set_current_halts; [exact Hat2|done|]. intros s3 Hts _.
    eapply (token_set_from _ _ s2); [by eapply same_cur_trans|done].
Qed.

(** The token that begins with the character [ch] before the position. *)
Lemma operator_halts b ch s :
  at_pos (S b) s →
  (tk_eof (f_token s) = true ∧ ch = 0 ∨
   tk_eof (f_token s) = false ∧ L !! b = Some ch ∧ tk_position (f_token s) = S b) →
  halts (token_operator ch) (λ _ s', token_set (S b) s s') s.
Proof.
  intros Hat Hch. unfold token_operator.
  assert (Hset : ∀ t, t ≠ finsh_token_type_value_string → halts (set_current_token t) (λ _ s', token_set (S b) s s') s).
  { intros t Ht. eapply set_current_halts; [exact Hat|done|auto]. }
  assert (Hdbl : ∀ c yes no, yes ≠ finsh_token_type_value_string → no ≠ finsh_token_type_value_string →
    halts (doubled c yes no) (λ _ s', token_set (S b) s s') s) by (intros; by apply doubled_halts).
  do 16 (halts_step; [first [by apply Hset|by apply Hdbl]|]).
  halts_step; [|halts_step; [|halts_step]].
  - halts_step. eapply halts_mono; [by apply proc_char_halts|]. intros c s1 [Hat1 Hsc1]. cbv beta. halts_step.
    apply upd_halts. eapply set_current_halts; [exact Hat1|done|]. intros s2 Hts _.
    eapply (token_set_from _ _ s1); [done|exact Hts].
  - destruct Hch as [[_ ->]|(_ & Hb & _)]; [done|]. exfalso. apply Hquote.
    match goal with H : (ch =? 34) = true |- _ => apply Z.eqb_eq in H; subst ch end.
    by eapply list_elem_of_lookup_2.
  - destruct Hch as [[_ ->]|(He & Hb & Hp)]; [done|]. halts_step. apply prev_char_halts with b; [done|].
    rewrite He, Hp. simpl. intros s1 Hat1 Hsc1 He1 Hp1 _.
    eapply halts_mono; [apply proc_number_halts with (b := b) (ch0 := ch); [done|by destruct Hat1|done..]|].
    intros ? s2 Hts. cbv beta. by eapply (token_set_from _ _ s1).
  - halts_step. unfold finsh_error_set. halts_step. by apply Hset.
Qed.

Lemma trim_loop_halts fuel b s :
  at_pos b s → enough fuel s → (1 ≤ fuel)%nat →
  halts (trim_loop fuel) (λ _ s', at_pos (S b) s' ∧ same_cur s s') s.
Proof.
  revert b s. induction fuel as [|fuel IH]; intros b s Hat Hen Hf; [lia|]. cbn [trim_loop].
  halts_step. apply next_char_halts with b; [done|]. intros ch s1 Hat1 Hsc1 Hen1 Hc. halts_step; [|by halts_step].
  specialize (Hen1 _ Hen). assert (He : tk_eof (f_token s1) = false).
  { destruct Hc as [(_ & -> & _)|(_ & ? & _)]; done. }
  eapply halts_mono; [apply (IH (S b)); [done|done|]|].
  - destruct Hen1 as [Hen1|Hen1], Hat1 as [_ [Hat1|Hat1]]; try congruence. lia.
  - intros _ s2 [Hat2 Hsc2]. cbv beta. split; [eapply at_pos_le; [done|lia]|by eapply same_cur_trans].
Qed.
Lemma trim_space_halts b s :
  at_pos b s → halts token_trim_space (λ _ s', at_pos b s' ∧ same_cur s s') s.
Proof.
  intros Hat. unfold token_trim_space. halts_step. unfold line_fuel, getf. repeat halts_step.
  eapply halts_mono; [apply trim_loop_halts with (b := b); [done| |lia]|].
  { right. destruct Hat as [-> _]. lia. }
  intros _ s1 [Hat1 Hsc1]. cbv beta. apply prev_char_halts with b; [done|]. intros s2 Hat2 Hsc2 _ _ _.
  split; [done|by eapply same_cur_trans].
Qed.

Lemma put_string_halts k v s (Q : unit → finsh → Prop) :
  Q tt (set_f_token (set_tk_string (<[k := v]> (tk_string (f_token s))) (f_token s)) s) →
  halts (put_string k v) Q s.
Proof. intros HQ. unfold put_string. halts_step; [by apply upd_halts|by halts_step]. Qed.

(** The characters of a name: behind [ch], which is at [q], the scanner goes on to the
    separator. *)
Lemma get_string_loop_halts fuel p ch q s :
  tk_line (f_token s) = L → tk_eof (f_token s) = false → tk_position (f_token s) = S q → L !! q = Some ch →
  enough fuel s →
  halts (get_string_loop fuel p ch) (λ p' s', same_cur s s' ∧ tk_line (f_token s') = L ∧
    tk_eof (f_token s') = false ∧ ∃ q', tk_position (f_token s') = S q' ∧ (q' < length L)%nat ∧
    (p' + q = p + q')%nat ∧ (p ≤ p')%nat) s.
Proof.
  revert p ch q s. induction fuel as [|fuel IH]; intros p ch q s Hl He Hp Hch Hen; cbn [get_string_loop];
    assert (Hlt := lookup_lt_Some _ _ _ Hch); halts_step; unfold is_eof, getf; repeat halts_step; rewrite He in *.
  - destruct Hen as [Hen|Hen]; [congruence|lia].
  - eauto 10 using same_cur_refl.
  - assert (Hns : is_separator ch = false) by (by destruct (is_separator ch)).
    destruct (Hsafe _ _ Hch Hns) as (c & Hc & Hc10). apply put_string_halts. halts_step.
    apply next_char_some with (S q) c; try done. intros s1 Hat1 Hsc1 He1 Hp1.
    eapply halts_mono; [apply (IH (S p) c (S q) s1); try done; [by destruct Hat1|]|].
    + destruct Hen as [Hen|Hen]; [congruence|]. right. lia.
    + intros p' s2 (Hsc2 & Hl2 & He2 & q' & ? & ? & ? & ?). cbv beta.
      split; [eapply same_cur_trans; [exact Hsc1|exact Hsc2]|]. split_and!; try done. exists q'. split_and!; try done; lia.
  - eauto 10 using same_cur_refl.
Qed.

(** A name, or nothing: the end is reached; or there is a character to go on with; or a name
    was passed. *)
Definition name_read (b : nat) (s s' : finsh) : Prop :=
  at_pos b s' ∧ same_cur s s' ∧
  (tk_eof (f_token s') = false → (b < length L)%nat ∧
    ∀ c, head (tk_string (f_token s')) = Some c → c ≠ 0 → at_pos (S b) s').
Lemma get_string_halts b s :
  at_pos b s → halts token_get_string (λ _ s', name_read b s s') s.
Proof.
  intros Hat. unfold token_get_string. halts_step. apply next_char_halts with b; [done|].
  intros ch s1 Hat1 Hsc1 _ Hc. halts_step. unfold is_eof, getf. repeat halts_step.
  { split; [eapply at_pos_le; [done|lia]|]. split; [done|congruence]. }
  destruct Hc as [(? & _)|(He & He1 & Hch & H10 & Hp1)]; [congruence|].
  assert (Hlt := lookup_lt_Some _ _ _ Hch).
  assert (Hb : (b ≤ tk_position (f_token s))%nat) by (destruct Hat as [_ [?|?]]; [congruence|lia]).
  apply put_string_halts. repeat halts_step.
  - apply prev_char_halts with b; [exact Hat1|]. intros s2 Hat2 Hsc2 He2 _ Hs2. repeat halts_step.
    split; [done|]. split; [by eapply same_cur_trans|]. intros _. split; [lia|]. intros c. rewrite Hs2. simpl.
    by destruct (tk_string (f_token s1)); intros [= <-].
  - unfold line_fuel, getf. repeat halts_step. destruct Hat1 as [Hl1 _].
    eapply halts_mono; [apply (get_string_loop_halts _ 0 ch (tk_position (f_token s))); try done; right; simpl; rewrite Hl1; lia|].
    intros p s2 (Hsc2 & Hl2 & He2 & q' & Hp2 & Hq' & Hpq & _). cbv beta. halts_step. apply upd_halts. halts_step.
    apply prev_char_halts with q'; [split; [done|right; simpl; lia]|]. simpl. rewrite Hp2. simpl.
    intros s3 Hat3 Hsc3 He3 Hp3 Hs3. halts_step. apply put_string_halts. halts_step.
    split; [eapply at_pos_le; [exact Hat3|lia]|].
    split; [eapply same_cur_trans; [exact Hsc1|]; eapply same_cur_trans; [exact Hsc2|exact Hsc3]|].
    intros _. split; [lia|]. simpl. intros c Hc Hc0. destruct p as [|p].
    + destruct (tk_string (f_token s3)); simpl in Hc; [done|congruence].
    + eapply at_pos_le; [exact Hat3|lia].
Qed.

Lemma match_name_halts l str b s :
  Forall (λ p, p.2 ≠ finsh_token_type_value_string) l → at_pos b s →
  halts (match_name l str) (λ m s', if m : bool then token_set b s s' else s' = s) s.
Proof.
  intros Hl Hat. induction Hl as [|[name t] l Ht _ IH]; simpl; [by halts_step|].
  halts_step. unfold strcmp_eq. repeat halts_step; [|apply IH].
  eapply set_current_halts; [exact Hat|done|]. intros s1 Hts _. by halts_step.
Qed.

(** * The measure *)

(** The characters that are left, and the token that will be read again. *)
Definition rem (s : finsh) : nat :=
  if tk_eof (f_token s) then 0 else (length L - tk_position (f_token s))%nat.
Definition ready (s : finsh) : Prop :=
  tk_replay (f_token s) = true ∧ tk_current (f_token s) ≠ finsh_token_type_eof.
#[global] Instance ready_dec s : Decision (ready s).
Proof. unfold ready. apply _. Defined.
Definition measure (s : finsh) : nat := (2 * rem s + if decide (ready s) then 1 else 0)%nat.
Definition tok_ok (s : finsh) : Prop :=
  at_pos 0 s ∧ tk_current (f_token s) ≠ finsh_token_type_value_string.

Lemma at_rem s : at_pos 0 s → ∃ b, at_pos b s ∧ rem s = (length L - b)%nat.
Proof.
  intros [Hl Hp]. unfold rem. destruct (tk_eof (f_token s)) eqn:He.
  - exists (S (length L)). split; [by split; auto|lia].
  - destruct Hp as [?|Hp]; [congruence|]. exists (tk_position (f_token s)). split; [|done]. split; [done|right; lia].
Qed.
Lemma rem_at b s : at_pos b s → (rem s ≤ length L - b)%nat.
Proof. intros [_ Hp]. unfold rem. destruct (tk_eof (f_token s)); [lia|]. destruct Hp; [done|lia]. Qed.

Lemma token_run_halts s :
  at_pos 0 s →
  halts token_run (λ _ s', tok_ok s' ∧ tk_replay (f_token s') = tk_replay (f_token s) ∧ (rem s' ≤ rem s)%nat ∧
    (tk_current (f_token s') ≠ finsh_token_type_eof → (rem s' < rem s)%nat)) s.
Proof.
  intros Hat. destruct (at_rem s Hat) as (b & Hb & Hr). unfold token_run. halts_step.
  eapply halts_mono; [by apply trim_space_halts|]. intros _ s1 [Hat1 Hsc1]. cbv beta. halts_step.
  eapply halts_mono; [by apply get_string_halts|]. intros _ s2 (Hat2 & Hsc2 & Hn). cbv beta. halts_step.
  assert (Hsc : same_cur s s2) by (by eapply same_cur_trans).
  (* a token behind [b] *)
  assert (Hpost : ∀ s', (b < length L)%nat → token_set (S b) s s' → tok_ok s' ∧ tk_replay (f_token s') = tk_replay (f_token s) ∧
    (rem s' ≤ rem s)%nat ∧ (tk_current (f_token s') ≠ finsh_token_type_eof → (rem s' < rem s)%nat)).
  { intros s' Hlt (H1 & H2 & H3). pose proof (rem_at _ _ H1).
    split; [split; [eapply at_pos_le; [done|lia]|done]|]. split; [done|]. split; [lia|]. intros _. lia. }
  unfold is_eof, getf. repeat halts_step.
  { eapply set_current_halts; [exact Hat2|done|]. intros s3 (H1 & H2 & H3) Hc. pose proof (rem_at _ _ H1).
    split; [split; [eapply at_pos_le; [done|lia]|done]|]. destruct Hsc. split; [congruence|]. split; [lia|]. by rewrite Hc. }
  all: match goal with H : tk_eof _ = false |- _ => specialize (Hn H) as [Hlt Hn] end.
  all: match goal with H : head _ = Some _ |- _ => specialize (Hn _ H) end.
  - match goal with H : negb _ = true |- _ => apply negb_true_iff, Z.eqb_neq in H; specialize (Hn H) end.
    eapply halts_mono; [apply match_name_halts with (b := S b); [|done]|].
    { repeat constructor; done. }
    intros [] s3 H3; cbv beta iota; repeat halts_step.
    + apply Hpost; [done|]. by eapply (token_set_from _ _ s2).
    + subst s3. eapply set_current_halts; [exact Hn|done|]. intros s4 Hts _.
      apply Hpost; [done|]. by eapply (token_set_from _ _ s2).
  - destruct Hat2 as [Hl2 [?|Hp2]]; [congruence|].
    apply next_char_halts with (tk_position (f_token s2)); [split; [done|right; lia]|].
    intros ch s3 Hat3 Hsc3 _ Hc.
    eapply halts_mono; [apply operator_halts with (b := tk_position (f_token s2)); [done|]|].
    + destruct Hc as [(? & -> & _)|(_ & ? & ? & _ & ?)]; [by left|by right].
    + intros ? s4 Hts. cbv beta. apply Hpost; [done|].
      eapply token_set_le; [eapply (token_set_from _ _ s3); [by eapply same_cur_trans|exact Hts]|lia].
Qed.

(** A token is taken: the measure goes down, strictly unless it is the end. *)
Lemma next_token_halts s (Q : finsh_token_type → finsh → Prop) :
  tok_ok s →
  (∀ t s', tok_ok s' → t = tk_current (f_token s') → tk_replay (f_token s') = false →
     (measure s' ≤ measure s)%nat → (t ≠ finsh_token_type_eof → (measure s' < measure s)%nat) →
     (ready s → t ≠ finsh_token_type_eof) → Q t s') →
  halts finsh_token_token Q s.
Proof.
  intros [Hat Hcur] HQ. unfold finsh_token_token, getf. repeat halts_step.
  - apply upd_halts. apply HQ; try done.
    + unfold measure, rem, ready. simpl. repeat case_decide; naive_solver lia.
    + unfold measure, rem, ready. simpl. intros Hne. repeat case_decide; naive_solver lia.
    + by intros [_ ?].
  - eapply halts_mono; [by apply token_run_halts|]. intros ? s' (Hok & Hrep & Hle & Hlt). cbv beta.
    rewrite H in Hrep. assert (measure s' = 2 * rem s')%nat as E.
    { unfold measure. destruct (decide (ready s')) as [[? _]|]; [congruence|lia]. }
    repeat halts_step. apply HQ; try done; [rewrite E; unfold measure; lia| |intros [? _]; congruence].
    intros Hne. specialize (Hlt Hne). rewrite E. unfold measure. lia.
Qed.
(** A token is put back. *)
Lemma replay_halts s (Q : unit → finsh → Prop) :
  tok_ok s →
  (∀ s', tok_ok s' → tk_current (f_token s') = tk_current (f_token s) →
     ((ready s' ∧ measure s' ≤ S (measure s)) ∨ (¬ ready s' ∧ measure s' ≤ measure s))%nat → 
     (tk_current (f_token s) ≠ finsh_token_type_eof → ready s') → Q tt s') →
  halts finsh_token_replay Q s.
Proof.
  intros [Hat Hcur] HQ. unfold finsh_token_replay. apply upd_halts. apply HQ; [done|done| |done].
  unfold measure, rem. destruct (decide (tk_current (f_token s) = finsh_token_type_eof)) as [E|E].
  - right. unfold ready. simpl. split; [naive_solver|]. repeat case_decide; naive_solver lia.
  - left. split; [done|]. simpl. repeat case_decide; lia.
Qed.
End lex.
