(* ===== verification/FinshVarFacts.v ===== *)
(** The table of variables of FinSH is a map from names to entries. *)

From stdpp Require Import base list gmap.
From Stdlib Require Import ZArith Lia.
From S2P Require Import Prelude Halts Kservice FinshState FinshVar FinshVmFacts.

Open Scope Z_scope.

(** * Names *)

(** The name in the first [n] bytes of a buffer: up to a zero, which may be missing. *)
Fixpoint cname (n : nat) (l : list Z) : option (list Z) :=
  match n, l with
  | O, _ => Some []
  | S n, [] => None
  | S n, c :: l => if c =? 0 then Some [] else a ← cname n l; Some (c :: a)
  end.
Definition bytes (l : list Z) : Prop := Forall (λ c, 0 ≤ c < 2 ^ 8) l.

Lemma strncmp_cname n l1 l2 a b v :
  bytes l1 → bytes l2 → cname n l1 = Some a → cname n l2 = Some b → (0 < n)%nat ∨ v = 0 →
  ∃ w, rt_strncmp_loop v l1 l2 n = Some w ∧ (w = 0 ↔ a = b).
Proof.
  intros B1. revert n l2 a b v. induction B1 as [|c l1 Hc B1 IH]; intros [|n] l2 a b v B2 H1 H2 Hv; simpl in H1;
    try (injection H1 as <-; simpl in H2; injection H2 as <-; exists v; naive_solver lia); [done|].
  destruct B2 as [|d l2 Hd B2]; [done|]. simpl in H2 |- *.
  destruct (Z.eqb_spec c 0) as [->|Hc0].
  - injection H1 as <-. rewrite orb_true_r. exists (i8 (0 - d)). split; [done|]. rewrite i8_zero by lia.
    destruct (Z.eqb_spec d 0) as [->|Hd0]; [by injection H2 as <-|].
    apply bind_Some in H2 as (b' & _ & [= <-]). split; [lia|done].
  - apply bind_Some in H1 as (a' & H1 & [= <-]). rewrite orb_false_r.
    destruct (Z.eqb_spec (i8 (c - d)) 0) as [E|E]; simpl.
    + rewrite i8_zero in E by lia. subst d. rewrite (proj2 (Z.eqb_neq c 0)) in H2 by done.
      apply bind_Some in H2 as (b' & H2 & [= <-]).
      destruct (IH n l2 a' b' (i8 (c - c)) B2 H1 H2) as (w & Hw & Hiff).
      { right. by apply i8_zero. }
      exists w. split; [done|]. rewrite Hiff. naive_solver.
    + exists (i8 (c - d)). split; [done|]. rewrite i8_zero in E |- * by lia. split; [done|].
      destruct (Z.eqb_spec d 0); [by injection H2 as <-|]. apply bind_Some in H2 as (b' & _ & [= <-]). naive_solver.
Qed.
Lemma strncpy_cname n dst src a :
  cname n src = Some a → (n ≤ length dst)%nat → bytes src → bytes dst →
  ∃ r, rt_strncpy dst src n = Some r ∧ cname n r = Some a ∧ length r = length dst ∧ bytes r.
Proof.
  revert dst src a. induction n as [|n IH]; intros dst src a Ha Hl Bs Bd; simpl in Ha; [injection Ha as <-; exists dst; by destruct dst|].
  destruct src as [|c src]; [done|]. destruct dst as [|d dst]; [simpl in Hl; lia|]. simpl in Hl |- *.
  apply Forall_cons in Bs as [Hc Bs], Bd as [_ Bd].
  destruct (Z.eqb_spec c 0) as [->|Hc0].
  - injection Ha as <-. assert (∃ r, nul_pad dst n = Some r ∧ length r = length dst ∧ bytes r) as (r & -> & Hr & Br).
    { clear -Hl Bd. revert dst Hl Bd. induction n as [|n IH]; intros dst Hl Bd; [exists dst; by destruct dst|].
      destruct dst as [|d dst]; [simpl in Hl; lia|]. simpl in Hl |- *. apply Forall_cons in Bd as [_ Bd].
      destruct (IH dst ltac:(lia) Bd) as (r & -> & Hr & Br). exists (0 :: r). split; [done|]. simpl.
      split; [lia|]. by constructor. }
    exists (0 :: r). split; [done|]. split; [done|]. simpl. split; [lia|]. by constructor.
  - apply bind_Some in Ha as (a' & Ha & [= <-]). destruct (IH dst src a' Ha ltac:(lia) Bs Bd) as (r & -> & Hr & Hlr & Br).
    exists (c :: r). split; [done|]. simpl. rewrite (proj2 (Z.eqb_neq c 0)), Hr by done. split; [done|].
    split; [lia|]. by constructor.
Qed.

(** * The table *)

Definition vname (v : finsh_var) : list Z := default [] (cname 16 (var_name v)).
Definition var_ok (v : finsh_var) : Prop := length (var_name v) = 17%nat ∧ bytes (var_name v).
(** The entry of a name, and the first entry that is free. *)
Definition name_index (vars : list finsh_var) (a : list Z) : option nat :=
  fst <$> list_find (λ v, vname v = a) vars.
Definition free_index (vars : list finsh_var) : option nat :=
  fst <$> list_find (λ v, var_type v = finsh_type_unknown) vars.

Lemma cname_length n l : (n ≤ length l)%nat → is_Some (cname n l).
Proof.
  revert l. induction n as [|n IH]; intros l Hl; [by eexists|]. destruct l as [|c l]; [simpl in Hl; lia|].
  simpl in Hl |- *. case_match; [by eexists|]. destruct (IH l ltac:(lia)) as [a ->]. by eexists.
Qed.
Lemma vname_cname v : var_ok v → cname 16 (var_name v) = Some (vname v).
Proof.
  intros [Hl _]. unfold vname. by destruct (cname_length 16 (var_name v) ltac:(lia)) as [a ->].
Qed.
Lemma strncmp_name v name a s :
  var_ok v → bytes name → cname 16 name = Some a →
  strncmp_eq (var_name v) name FINSH_NAME_MAX s = Done (bool_decide (vname v = a)) s.
Proof.
  intros Hv Hn Ha. unfold strncmp_eq, rt_strncmp. change (Z.to_nat FINSH_NAME_MAX) with 16%nat.
  destruct (strncmp_cname 16 (var_name v) name (vname v) a 0) as (w & -> & Hw);
    [by destruct Hv|done|by apply vname_cname|done|by right|].
  cbv [mbind SM_bind of_option mret SM_ret]. f_equal. case_bool_decide; [apply Z.eqb_eq|apply Z.eqb_neq]; tauto.
Qed.
Lemma list_find_shift {A} (P : A → Prop) `{∀ x, Decision (P x)} x l :
  fst <$> list_find P (x :: l) = if decide (P x) then Some 0%nat else S <$> (fst <$> list_find P l).
Proof. simpl. case_decide; [done|]. by destruct (list_find P l) as [[??]|]. Qed.
Lemma lookup_scan_spec vars i name a s :
  Forall var_ok vars → bytes name → cname 16 name = Some a →
  lookup_scan vars i name s = Done ((λ j, (i + j)%nat) <$> name_index vars a) s.
Proof.
  intros Hv Hn Ha. revert i. induction Hv as [|v vars Hv _ IH]; intros i; [done|]. cbn [lookup_scan].
  erewrite bind_done by (by apply strncmp_name). unfold name_index. rewrite list_find_shift.
  case_bool_decide; [rewrite decide_True by done; simpl; by rewrite Nat.add_0_r|].
  rewrite decide_False, IH by done. unfold name_index. destruct (list_find _ vars) as [[j ?]|]; simpl; [|done].
  do 2 f_equal. lia.
Qed.
Lemma insert_scan_spec vars i e name a s :
  Forall var_ok vars → bytes name → cname 16 name = Some a →
  insert_scan vars i e name s =
    Done (match name_index vars a with
          | Some _ => None
          | None => Some (match e with Some j => Some j | None => (λ j, (i + j)%nat) <$> free_index vars end)
          end) s.
Proof.
  intros Hv Hn Ha. revert i e. induction Hv as [|v vars Hv _ IH]; intros i e; [by destruct e|]. cbn [insert_scan].
  erewrite bind_done by (by apply strncmp_name). unfold name_index, free_index. rewrite !list_find_shift.
  case_bool_decide; [by rewrite decide_True by done|]. rewrite (decide_False (P := vname v = a)), IH by done.
  unfold name_index, free_index. destruct (list_find (λ v, vname v = a) vars) as [[??]|]; [done|]. simpl.
  destruct e; [done|]. case_decide; simpl; [by rewrite Nat.add_0_r|].
  destruct (list_find _ vars) as [[j ?]|]; simpl; [|done]. do 3 f_equal. lia.
Qed.

(** * Operations *)

(** An entry changes its name: other names are found where they were. *)
Lemma name_index_insert vars i v a :
  vars !! i = Some v → ∀ w, vname w ≠ a → vname v ≠ a → name_index (<[i := w]> vars) a = name_index vars a.
Proof.
  revert i. induction vars as [|x vars IH]; intros i Hi w Hw Hv; [done|]. unfold name_index in *.
  destruct i as [|i]; simpl in Hi.
  - injection Hi as ->. change (<[0%nat := w]> (v :: vars)) with (w :: vars). rewrite !list_find_shift.
    by rewrite !decide_False by done.
  - change (<[S i := w]> (x :: vars)) with (x :: <[i := w]> vars). rewrite !list_find_shift, (IH i) by done. done.
Qed.
Lemma name_index_insert_eq vars i w :
  name_index vars (vname w) = None → (i < length vars)%nat → name_index (<[i := w]> vars) (vname w) = Some i.
Proof.
  revert i. induction vars as [|x vars IH]; intros i Hn Hi; [simpl in Hi; lia|]. unfold name_index in *.
  rewrite list_find_shift in Hn. destruct (decide (vname x = vname w)) as [|Hx]; [done|].
  apply fmap_None in Hn. destruct i as [|i].
  - change (<[0%nat := w]> (x :: vars)) with (w :: vars). rewrite list_find_shift. by rewrite decide_True.
  - change (<[S i := w]> (x :: vars)) with (x :: <[i := w]> vars).
    rewrite list_find_shift, decide_False, (IH i) by (done || (simpl in Hi; lia)). done.
Qed.
Lemma name_index_Some vars a i : name_index vars a = Some i → ∃ v, vars !! i = Some v ∧ vname v = a.
Proof.
  unfold name_index. intros ((j & v) & (H1 & H2 & _)%list_find_Some & ->)%fmap_Some. eauto.
Qed.
Lemma free_index_Some vars i : free_index vars = Some i → ∃ v, vars !! i = Some v ∧ var_type v = finsh_type_unknown.
Proof.
  unfold free_index. intros ((j & v) & (H1 & H2 & _)%list_find_Some & ->)%fmap_Some. eauto.
Qed.

(** A free entry has no name (a declaration with a bad type would give it one). *)
Definition vars_ok (vars : list finsh_var) : Prop :=
  Forall var_ok vars ∧ Forall (λ v, var_type v = finsh_type_unknown → vname v = []) vars.

Section ops.
Context `{img : finsh_image}.

Lemma var_lookup_spec name a s :
  vars_ok (f_vars s) → bytes name → cname 16 name = Some a →
  finsh_var_lookup name s = Done (var_addr <$> name_index (f_vars s) a) s.
Proof.
  intros [Hv _] Hn Ha. unfold finsh_var_lookup. erewrite bind_done by done.
  erewrite bind_done by (by apply lookup_scan_spec). unfold mret, SM_ret. by destruct (name_index (f_vars s) a).
Qed.
Lemma var_insert_spec name a type s :
  vars_ok (f_vars s) → bytes name → cname 16 name = Some a →
  match name_index (f_vars s) a, free_index (f_vars s) with
  | None, Some i =>
    ∃ n, cname 16 n = Some a ∧ var_ok (Var n type) ∧
      finsh_var_insert name type s = Done (Z.of_nat i) (set_f_vars (<[i := Var n type]> (f_vars s)) s)
  | _, _ => finsh_var_insert name type s = Done (- 1) s
  end.
Proof.
  intros [Hv _] Hn Ha. unfold finsh_var_insert. erewrite bind_done by done.
  erewrite bind_done by (by apply insert_scan_spec).
  destruct (name_index (f_vars s) a); [done|]. simpl. destruct (free_index (f_vars s)) as [i|] eqn:Ei; [|done].
  destruct (free_index_Some _ _ Ei) as (v & Hi & Ht). simpl. pose proof (proj1 (Forall_lookup _ _) Hv _ _ Hi) as [Hl Hb].
  destruct (strncpy_cname 16 (var_name v) name a Ha ltac:(lia) Hn Hb) as (r & Hr & Hc & Hlr & Br).
  exists r. split; [done|]. split; [split; simpl; [congruence|done]|]. rewrite Hi. erewrite bind_done by done. unfold strncpy.
  change (Z.to_nat FINSH_NAME_MAX) with 16%nat. rewrite Hr. done.
Qed.

(** The operations as changes of the entry of a name. *)
Lemma var_insert_lookup name a type s :
  vars_ok (f_vars s) → bytes name → cname 16 name = Some a → a ≠ [] → type ≠ finsh_type_unknown →
  ∃ r s', finsh_var_insert name type s = Done r s' ∧ vars_ok (f_vars s') ∧
    (∀ b, b ≠ a → b ≠ [] → name_index (f_vars s') b = name_index (f_vars s) b) ∧
    match name_index (f_vars s) a, free_index (f_vars s) with
    | None, Some i => r = Z.of_nat i ∧ name_index (f_vars s') a = Some i ∧ var_type <$> (f_vars s' !! i) = Some type
    | _, _ => r = - 1 ∧ s' = s
    end.
Proof.
  intros Hok Hn Ha Hne Hty. pose proof (var_insert_spec name a type s Hok Hn Ha) as H.
  destruct (name_index (f_vars s) a) eqn:En; [by rewrite H; eauto 10|].
  destruct (free_index (f_vars s)) as [i|] eqn:Ei; [|by rewrite H; eauto 10].
  destruct H as (n & Hc & Hvn & ->). destruct (free_index_Some _ _ Ei) as (v & Hi & Ht).
  assert (vname (Var n type) = a) as Hva by (unfold vname; cbn [var_name]; by rewrite Hc).
  assert (vname v = []) as Hv0 by (destruct Hok as [_ H2]; by apply (proj1 (Forall_lookup _ _) H2 _ _ Hi)).
  pose proof (lookup_lt_Some _ _ _ Hi) as Hlt. eexists _, _. split; [done|]. simpl. split_and!; try done.
  - destruct Hok as [H1 H2]. split; by apply Forall_insert.
  - intros b Hb Hb0. apply (name_index_insert _ _ v); congruence.
  - rewrite <- Hva. apply name_index_insert_eq; [by rewrite Hva|done].
  - by rewrite list_lookup_insert_eq.
Qed.
Lemma empty_var_ok : var_ok empty_var ∧ vname empty_var = [].
Proof. split; [|done]. split; [done|]. unfold bytes. simpl. repeat constructor; done. Qed.
Lemma var_delete_lookup name a s :
  vars_ok (f_vars s) → bytes name → cname 16 name = Some a → a ≠ [] →
  ∃ r s', finsh_var_delete name s = Done r s' ∧ vars_ok (f_vars s') ∧
    (∀ b, b ≠ a → b ≠ [] → name_index (f_vars s') b = name_index (f_vars s) b) ∧
    match name_index (f_vars s) a with
    | Some i => r = 0 ∧ f_vars s' = <[i := empty_var]> (f_vars s)
    | None => r = - 1 ∧ s' = s
    end.
Proof.
  intros Hok Hn Ha Hne. unfold finsh_var_delete. erewrite bind_done by done. destruct empty_var_ok as [E1 E2].
  erewrite bind_done by (apply lookup_scan_spec; [by destruct Hok|done|done]).
  destruct (name_index (f_vars s) a) as [i|] eqn:En; simpl; [|by eauto 10].
  destruct (name_index_Some _ _ _ En) as (v & Hi & Hv). eexists _, _. split; [done|]. simpl. split_and!; try done.
  - destruct Hok as [H1 H2]. split; by apply Forall_insert.
  - intros b Hb Hb0. apply (name_index_insert _ _ v); congruence.
Qed.
End ops.

(** The table of variables is a map from names to entries: a declaration of a new name
    takes the first free entry, the name is then found there (and at the address of that
    entry) with its type, and every other name where it was; a name that is declared
    already, and a full table, are reported and change nothing. *)
Theorem finsh_var_insert_correct `{img : finsh_image} name a type s :
  vars_ok (f_vars s) → bytes name → cname 16 name = Some a → a ≠ [] → type ≠ finsh_type_unknown →
  ∃ r s', finsh_var_insert name type s = Done r s' ∧ vars_ok (f_vars s') ∧
    (∀ b, b ≠ a → b ≠ [] → name_index (f_vars s') b = name_index (f_vars s) b) ∧
    match name_index (f_vars s) a, free_index (f_vars s) with
    | None, Some i =>
      r = Z.of_nat i ∧ finsh_var_lookup name s' = Done (Some (var_addr i)) s' ∧
      var_type <$> (f_vars s' !! i) = Some type
    | _, _ => r = - 1 ∧ s' = s
    end.
Proof.
  intros Hok Hn Ha Hne Hty. destruct (var_insert_lookup name a type s Hok Hn Ha Hne Hty) as (r & s' & E & Hok' & Ho & H).
  exists r, s'. split_and!; try done. destruct (name_index (f_vars s) a); [done|].
  destruct (free_index (f_vars s)); [|done]. destruct H as (-> & Hi & ?). split; [done|]. split; [|done].
  by rewrite (var_lookup_spec _ a), Hi.
Qed.
