(* ===== verification/FinshParseFacts.v ===== *)
(** The parser of FinSH ends on every safe line: each level of the grammar takes tokens, and
    an error never puts back more than it took. *)

From stdpp Require Import base list gmap.
From Stdlib Require Import ZArith Lia.
From S2P Require Import Prelude Kservice Halts FinshState FinshVar FinshHeap FinshNode FinshToken FinshParser.
From S2P Require Import FinshLexFacts.

Open Scope Z_scope.

Create HintDb finsh discriminated.

(** * Code that leaves the scanner alone *)

Definition quiet {A} (m : F A) : Prop := ∀ s, halts m (λ _ s', f_token s' = f_token s) s.

Lemma quiet_bind {A B} (m : F A) (f : A → F B) : quiet m → (∀ a, quiet (f a)) → quiet (m ≫= f).
Proof.
  intros Hm Hf s. halts_step. eapply halts_mono; [apply Hm|]. intros a s1 H1. cbv beta in H1 |- *.
  eapply halts_mono; [apply Hf|]. simpl. congruence.
Qed.
Lemma quiet_ret {A} (a : A) : quiet (mret a).
Proof. intros s. by halts_step. Qed.
Lemma quiet_getf {A} (f : finsh → A) : quiet (getf f).
Proof. intros s. unfold getf. by repeat halts_step. Qed.
Lemma quiet_option {A} e (o : option A) : e ≠ OutOfFuel → quiet (of_option e o).
Proof. intros ? s. by halts_step. Qed.
Lemma quiet_modify f : (∀ s, f_token (f s) = f_token s) → quiet (modify f).
Proof. intros H s. by halts_step. Qed.
Lemma quiet_fail {A} e : e ≠ OutOfFuel → quiet (A := A) (fail e).
Proof. by intros ? s. Qed.

Ltac quiet_step :=
  first [ apply quiet_bind; [|intros] | apply quiet_ret | apply quiet_getf
        | apply quiet_option; done | apply quiet_modify; done | apply quiet_fail; done
        | match goal with
          | |- quiet (if ?b then _ else _) => destruct b
          | |- quiet (match ?x with _ => _ end) => destruct x
          end ].
Ltac quiet := repeat quiet_step.

Section quiet.
Context `{img : finsh_image}.

Lemma finsh_error_quiet e : quiet (finsh_error_set e).
Proof. unfold finsh_error_set. quiet. Qed.
Lemma strncmp_quiet a b n : quiet (strncmp_eq a b n).
Proof. unfold strncmp_eq. quiet. Qed.
Lemma strcmp_quiet a b : quiet (strcmp_eq a b).
Proof. unfold strcmp_eq. quiet. Qed.
Lemma strncpy_quiet a b n : quiet (strncpy a b n).
Proof. unfold strncpy. quiet. Qed.
Lemma upd_node_quiet i f : quiet (upd_node i f).
Proof. unfold upd_node, get_node. quiet. Qed.
Lemma allocate_quiet k : quiet (finsh_node_allocate k).
Proof. unfold finsh_node_allocate. repeat first [apply upd_node_quiet|quiet_step]. Qed.
Lemma make_sys_node_quiet k n1 n2 : quiet (make_sys_node k n1 n2).
Proof.
  unfold make_sys_node. repeat first [apply upd_node_quiet|apply allocate_quiet|apply finsh_error_quiet|quiet_step].
Qed.
Lemma new_value_quiet k f : quiet (new_value k f).
Proof.
  unfold new_value. repeat first [apply upd_node_quiet|apply allocate_quiet|apply finsh_error_quiet|quiet_step].
Qed.
Lemma lookup_scan_quiet vars i name : quiet (lookup_scan vars i name).
Proof.
  revert i. induction vars as [|v vars IH]; intros i; simpl; repeat first [apply strncmp_quiet|apply IH|quiet_step].
Qed.
Lemma insert_scan_quiet vars i e name : quiet (insert_scan vars i e name).
Proof.
  revert i e. induction vars as [|v vars IH]; intros i e; simpl; repeat first [apply strncmp_quiet|apply IH|quiet_step].
Qed.
Lemma table_scan_quiet {A} (nm : A → list Z) l name : quiet (table_scan nm l name).
Proof. induction l as [|[a x] l IH]; simpl; repeat first [apply strcmp_quiet|apply IH|quiet_step]. Qed.
Lemma list_scan_quiet {A} (nm : A → list Z) l name : quiet (list_scan nm l name).
Proof.
  induction l as [|[a x] l IH]; simpl; unfold strlen; repeat first [apply strncmp_quiet|apply IH|quiet_step].
Qed.
Lemma new_id_quiet id : quiet (finsh_node_new_id id).
Proof.
  unfold finsh_node_new_id, finsh_var_lookup, finsh_sysvar_lookup, finsh_syscall_lookup.
  repeat first [apply lookup_scan_quiet|apply table_scan_quiet|apply list_scan_quiet|apply upd_node_quiet
    |apply allocate_quiet|apply finsh_error_quiet|quiet_step].
Qed.
Lemma var_insert_quiet name t : quiet (finsh_var_insert name t).
Proof. unfold finsh_var_insert. repeat first [apply insert_scan_quiet|apply strncpy_quiet|quiet_step]. Qed.
Lemma link_assign_quiet id n e a : quiet (link_assign id n e a).
Proof.
  unfold link_assign. repeat first [apply new_id_quiet|apply make_sys_node_quiet|apply upd_node_quiet|quiet_step].
Qed.
End quiet.

#[export] Hint Resolve finsh_error_quiet strncpy_quiet upd_node_quiet allocate_quiet make_sys_node_quiet
  new_value_quiet new_id_quiet var_insert_quiet link_assign_quiet quiet_ret : finsh.

(** * Code that takes tokens *)

Section parse.
Context `{img : finsh_image} (L : list Z) (Hsafe : safe_line L) (Hquote : 34 ∉ L).
Abbreviation tok_ok := (tok_ok L).
Abbreviation measure := (measure L).

(** The measure of a token that is put back. *)
Definition bnd (t : finsh_token_type) : nat := if decide (t = finsh_token_type_eof) then 0 else 1.

Lemma quiet_halts {A} (m : F A) s (Q : A → finsh → Prop) :
  quiet m → (∀ a s', f_token s' = f_token s → Q a s') → halts m Q s.
Proof. intros Hm HQ. eapply halts_mono; [apply Hm|done]. Qed.
Lemma tok_ok_token s s' : f_token s' = f_token s → tok_ok s → tok_ok s'.
Proof. unfold FinshLexFacts.tok_ok, at_pos. by intros ->. Qed.
Lemma measure_token s s' : f_token s' = f_token s → measure s' = measure s.
Proof.
  intros E. assert (ready s' ↔ ready s) as Hr by (unfold ready; by rewrite E).
  unfold FinshLexFacts.measure, rem. rewrite E. f_equal. repeat case_decide; tauto.
Qed.

(** A token was read: it is the current one, and its place is before the measure [n]. *)
Definition read (n : nat) (t : finsh_token_type) (s : finsh) : Prop :=
  tok_ok s ∧ tk_current (f_token s) = t ∧ (measure s + bnd t ≤ n)%nat.
(** The scanner has moved on to a measure of [n] at most. *)
Definition moved (n : nat) (s : finsh) : Prop := tok_ok s ∧ (measure s ≤ n)%nat.

Lemma read_moved n t s : read n t s → moved n s.
Proof. intros (? & _ & ?). split; [done|lia]. Qed.
Lemma read_moved_pred n t s : read n t s → t ≠ finsh_token_type_eof → moved (pred n) s ∧ (1 ≤ n)%nat.
Proof. unfold read, bnd. intros (? & _ & H) Hne. rewrite decide_False in H by done. split; [split; [done|lia]|lia]. Qed.
Lemma read_le n n' t s : read n t s → (n ≤ n')%nat → read n' t s.
Proof. intros (? & ? & ?) ?. split_and!; [done|done|lia]. Qed.
Lemma moved_le n n' s : moved n s → (n ≤ n')%nat → moved n' s.
Proof. intros [? ?] ?. split; [done|lia]. Qed.
Lemma read_token n t s s' : f_token s' = f_token s → read n t s → read n t s'.
Proof. intros E (? & ? & ?). split_and!; [by eapply tok_ok_token|by rewrite E|by rewrite (measure_token s)]. Qed.
Lemma moved_token n s s' : f_token s' = f_token s → moved n s → moved n s'.
Proof. intros E [? ?]. split; [by eapply tok_ok_token|by rewrite (measure_token s)]. Qed.

Lemma next_halts n s (Q : finsh_token_type → finsh → Prop) :
  moved n s → (∀ t s', read n t s' → (ready s → t ≠ finsh_token_type_eof) → Q t s') → halts finsh_token_token Q s.
Proof.
  intros [Hok Hn] HQ. eapply next_token_halts; [done|done|done|]. intros t s' Hok' Ht _ Hle Hlt Hr.
  apply HQ; [|done]. split_and!; [done|done|]. unfold bnd. case_decide; [lia|]. specialize (Hlt ltac:(done)). lia.
Qed.
(** The last token is put back. *)
Lemma back_halts n t s (Q : unit → finsh → Prop) :
  read n t s → (∀ s', moved n s' → (t ≠ finsh_token_type_eof → ready s') → Q tt s') → halts finsh_token_replay Q s.
Proof.
  intros (Hok & Ht & Hn) HQ. eapply replay_halts; [done|]. intros s' Hok' Hc Hm Hr.
  apply HQ; [|by rewrite <- Ht]. split; [done|]. unfold bnd in Hn. destruct Hm as [[[_ ?] ?]|[Hnr ?]]; [|lia].
  rewrite decide_False in Hn by congruence. lia.
Qed.

(** [m] ends when the measure is at most [n], and the measure does not grow; it gets less
    when a token other than the end is ready. *)
Definition keeps {A} (n : nat) (m : F A) : Prop := ∀ s k, moved k s → (k ≤ n)%nat → halts m (λ _ s', moved k s') s.
Definition takes {A} (n : nat) (m : F A) : Prop :=
  ∀ s k, moved k s → (k ≤ n)%nat → halts m (λ _ s', moved k s' ∧ (ready s → moved (pred k) s' ∧ (1 ≤ k)%nat)) s.
Lemma takes_keeps {A} n (m : F A) : takes n m → keeps n m.
Proof. intros Hm s k Hk Hn. eapply halts_mono; [by apply Hm|]. by intros ? ? [? _]. Qed.
Lemma quiet_keeps {A} n (m : F A) : quiet m → keeps n m.
Proof. intros Hm s k Hk _. apply quiet_halts; [done|]. intros ? ? E. by eapply moved_token. Qed.

Lemma check_token_halts n t type s :
  read n t s → halts (check_token t type) (λ _ s', moved n s') s.
Proof.
  intros Hr. unfold check_token. case_decide; [halts_step; by eapply read_moved|]. halts_step.
  apply quiet_halts; [auto with finsh|]. intros _ s1 E. eapply back_halts; [by eapply read_token|auto].
Qed.
Lemma match_token_keeps n type : keeps n (match_token type).
Proof.
  intros s k Hk _. unfold match_token. halts_step. eapply next_halts; [done|]. intros t s' Hr _.
  by apply check_token_halts.
Qed.
Lemma proc_pointer_keeps n type : keeps n (proc_pointer type).
Proof.
  intros s k Hk _. unfold proc_pointer. halts_step. eapply next_halts; [done|]. intros t s' Hr _.
  case_decide; [halts_step; by eapply read_moved|]. halts_step. eapply back_halts; [done|]. intros. by halts_step.
Qed.
Lemma type_return_halts n t s ty : read n t s → halts (type_return ty) (λ _ s', moved n s') s.
Proof.
  intros Hr. unfold type_return. halts_step. eapply back_halts; [done|]. intros s' Hm _. halts_step.
  apply quiet_halts; [auto with finsh|]. intros _ s1 E. halts_step. by eapply moved_token.
Qed.
Lemma proc_type_keeps n : keeps n proc_type.
Proof.
  intros s k Hk Hn. unfold proc_type. halts_step. eapply next_halts; [done|]. intros t s1 Hr _.
  destruct (base_type t); [by apply (proc_pointer_keeps n); [eapply read_moved|]|].
  case_decide; [|by eapply type_return_halts]. halts_step. eapply next_halts; [by eapply read_moved|]. intros t2 s2 Hr2 _.
  destruct (is_base_type t2).
  - destruct (unsigned_type t2); [by apply (proc_pointer_keeps n); [eapply read_moved|]|by eapply type_return_halts].
  - halts_step. eapply back_halts; [done|]. intros s3 Hm _. halts_step.
    apply quiet_halts; [auto with finsh|]. intros _ s4 E. apply (proc_pointer_keeps n); [by eapply moved_token|done].
Qed.
Lemma proc_identifier_keeps n : keeps n proc_identifier.
Proof.
  intros s k Hk Hn. unfold proc_identifier. halts_step. eapply halts_mono; [by apply (match_token_keeps n)|].
  intros ? s1 Hm. cbv beta. halts_step. apply quiet_halts; [apply quiet_getf|]. intros t s2 E.
  apply quiet_halts; [auto with finsh|]. intros ? s3 E2. eapply moved_token; [|exact Hm]. congruence.
Qed.

(** * Expressions *)

(** A quiet end. *)
Lemma takes_quiet {A B} n (m : F A) (f : A → F B) : takes n m → (∀ a, quiet (f a)) → takes n (m ≫= f).
Proof.
  intros Hm Hf s k Hk Hn. halts_step. eapply halts_mono; [by apply Hm|]. intros a s1 [H1 H2]. cbv beta.
  apply quiet_halts; [apply Hf|]. intros b s2 E. split; [by eapply moved_token|].
  intros Hr. destruct (H2 Hr) as [? ?]. split; [by eapply moved_token|done].
Qed.
Lemma keeps_bind {A B} n (m : F A) (f : A → F B) : keeps n m → (∀ a, keeps n (f a)) → keeps n (m ≫= f).
Proof.
  intros Hm Hf s k Hk Hn. halts_step. eapply halts_mono; [by apply Hm|]. intros a s1 H1. cbv beta. by apply Hf.
Qed.
(** A token is read first, and taken: what follows keeps the measure. *)
Lemma takes_next {A} n (f : finsh_token_type → F A) :
  (∀ t k s, read k t s → (k ≤ n)%nat →
    halts (f t) (λ _ s', moved k s' ∧ (t ≠ finsh_token_type_eof → moved (pred k) s' ∧ (1 ≤ k)%nat)) s) →
  takes n (finsh_token_token ≫= f).
Proof.
  intros Hf s k Hk Hn. halts_step. eapply next_halts; [done|]. intros t s1 Hr Hrd.
  eapply halts_mono; [by apply Hf|]. intros ? s2 [H1 H2]. cbv beta. split; [done|]. intros Hs. auto.
Qed.
(** Behind a token other than the end the measure is less. *)
Lemma keeps_read {A} n (m : F A) t k s :
  ((1 ≤ n)%nat → keeps (pred n) m) → read k t s → (k ≤ n)%nat → t ≠ finsh_token_type_eof →
  halts m (λ _ s', moved k s' ∧ (t ≠ finsh_token_type_eof → moved (pred k) s' ∧ (1 ≤ k)%nat)) s.
Proof.
  intros Hm Hr Hk Hne. destruct (read_moved_pred _ _ _ Hr Hne) as [H1 H2].
  eapply halts_mono; [apply (Hm ltac:(lia) s (pred k)); [done|lia]|]. intros ? s' Hs. cbv beta.
  split; [eapply moved_le; [exact Hs|lia]|done].
Qed.
Lemma quiet_read {A} (m : F A) t k s :
  quiet m → read k t s →
  halts m (λ _ s', moved k s' ∧ (t ≠ finsh_token_type_eof → moved (pred k) s' ∧ (1 ≤ k)%nat)) s.
Proof.
  intros Hm Hr. apply quiet_halts; [done|]. intros ? s' E. apply (read_token _ _ _ _ E) in Hr.
  split; [by eapply read_moved|]. intros. by eapply read_moved_pred.
Qed.
(** The token is put back for [m]. *)
Lemma takes_back {A} n (m : F A) t k s :
  takes n m → read k t s → (k ≤ n)%nat →
  halts (finsh_token_replay;; m) (λ _ s', moved k s' ∧ (t ≠ finsh_token_type_eof → moved (pred k) s' ∧ (1 ≤ k)%nat)) s.
Proof.
  intros Hm Hr Hk. halts_step. eapply back_halts; [done|]. intros s1 H1 Hrd.
  eapply halts_mono; [by apply Hm|]. intros ? s' [Hs1 Hs2]. cbv beta. split; [done|]. auto.
Qed.

(** A level: an operand, and a loop that begins with the token behind it. *)
Lemma takes_loop {A B} n (m : F A) (f : A → finsh_token_type → F B) :
  takes n m → (∀ a t k s, read k t s → (k ≤ n)%nat → halts (f a t) (λ _ s', moved k s') s) →
  takes n (a ← m; t ← finsh_token_token; f a t).
Proof.
  intros Hm Hf s k Hk Hn. halts_step. eapply halts_mono; [by apply Hm|]. intros a s1 [H1 H2]. cbv beta. halts_step.
  destruct (decide (ready s)) as [Hr|Hr].
  - destruct (H2 Hr) as [H3 H4]. eapply next_halts; [done|]. intros t s2 Hr2 _.
    eapply halts_mono; [apply (Hf a t (pred k)); [done|lia]|].
    intros ? s3 Hs3. cbv beta. split; [eapply moved_le; [exact Hs3|lia]|done].
  - eapply next_halts; [exact H1|]. intros t s2 Hr2 _. eapply halts_mono; [by apply (Hf a t k)|].
    intros ? s3 Hs3. cbv beta. by split.
Qed.
Lemma binary_loop_halts n ops operand fuel left t k s :
  ops finsh_token_type_eof = None → keeps n operand → read k t s → (k ≤ n)%nat → (k ≤ fuel)%nat →
  halts (binary_loop fuel ops operand left t) (λ _ s', moved k s') s.
Proof.
  intros Ho Hop. revert left t k s. induction fuel as [|fuel IH]; intros left t k s Hr Hk Hf; simpl;
    (destruct (ops t) as [type|] eqn:Et; [|halts_step; eapply back_halts; [done|]; intros; by halts_step]);
    assert (Hne : t ≠ finsh_token_type_eof) by congruence;
    destruct (read_moved_pred _ _ _ Hr Hne) as [Hm Hk1]; [lia|].
  halts_step. eapply halts_mono; [apply (Hop s (pred k)); [done|lia]|]. intros new s1 H1. cbv beta. halts_step.
  apply quiet_halts; [destruct new; [auto with finsh|apply quiet_bind; auto with finsh]|].
  intros left' s2 E. halts_step. eapply next_halts; [eapply moved_token; [exact E|exact H1]|].
  intros t' s3 Hr3 _. eapply halts_mono; [apply (IH left' t' (pred k)); [done|lia|lia]|].
  intros ? s4 H4. cbv beta. eapply moved_le; [exact H4|lia].
Qed.
Lemma binary_expr_takes n ops operand fuel :
  ops finsh_token_type_eof = None → takes n operand → (n ≤ fuel)%nat → takes n (binary_expr fuel ops operand).
Proof.
  intros Ho Hop Hf. apply takes_loop; [done|]. intros left t k s Hr Hk.
  apply (binary_loop_halts n); [done|by apply takes_keeps|done|lia|lia].
Qed.

(** A token that is put back is the next one. *)
Lemma replay_match k t s :
  read k t s → halts finsh_token_replay (λ _ s1, halts (match_token t) (λ _ s', read k t s') s1) s.
Proof.
  intros (Hok & Ht & Hk). unfold finsh_token_replay, match_token, finsh_token_token, getf.
  apply upd_halts. repeat halts_step; [|done]. apply upd_halts. repeat halts_step. simpl. rewrite Ht.
  unfold check_token. rewrite decide_True by done. halts_step. split; [done|]. split; [done|].
  unfold FinshLexFacts.measure, rem, ready in *. simpl. repeat case_decide; naive_solver lia.
Qed.

Section levels.
Context (n fuel : nat) (Hfuel : (n ≤ fuel)%nat) (assign cast : F (option nat)).
Context (Hassign : (1 ≤ n)%nat → takes (pred n) assign) (Hcast : (1 ≤ n)%nat → takes (pred n) cast).

Lemma param_loop_halts m a t k s :
  (1 ≤ n)%nat → read k t s → (k ≤ pred n)%nat → (k ≤ m)%nat →
  halts (param_loop assign m a t) (λ _ s', ∃ t', read k t' s') s.
Proof.
  intros Hn. revert a t k s. induction m as [|m IH]; intros a t k s Hr Hk Hm; simpl;
    (case_decide as Ht; [|halts_step; by exists t]);
    destruct (read_moved_pred _ _ _ Hr ltac:(by subst)) as [Hmv Hk1]; [lia|].
  halts_step. eapply halts_mono; [apply (Hassign Hn s (pred k)); [done|lia]|]. intros sib s1 [H1 _]. cbv beta.
  halts_step. apply quiet_halts; [auto with finsh|]. intros _ s2 E2. halts_step.
  apply quiet_halts; [destruct sib; [auto with finsh|apply quiet_bind; auto with finsh]|]. intros a' s3 E3. halts_step.
  eapply next_halts; [eapply moved_token; [|exact H1]; congruence|]. intros t' s4 Hr4 _.
  eapply halts_mono; [apply (IH a' t' (pred k)); [done|lia|lia]|]. intros ? s5 [t5 H5]. cbv beta. exists t5.
  eapply read_le; [exact H5|lia].
Qed.
Lemma proc_param_list_keeps : (1 ≤ n)%nat → keeps (pred n) (proc_param_list fuel assign).
Proof.
  intros Hn s k Hk Hkn. unfold proc_param_list. halts_step. eapply halts_mono; [by apply (Hassign Hn)|].
  intros [a|] s1 [H1 _]; cbv beta iota; [|by halts_step]. halts_step. eapply next_halts; [done|]. intros t s2 Hr _.
  halts_step. eapply halts_mono; [apply (param_loop_halts fuel a t k); [done|done|lia|lia]|].
  intros ? s3 [t' H3]. cbv beta. halts_step. eapply back_halts; [done|]. intros. by halts_step.
Qed.

Lemma proc_primary_takes : takes n (proc_primary_expr assign).
Proof.
  unfold proc_primary_expr. apply takes_next. intros t k s Hr Hk.
  assert (Herr : halts (finsh_error_set FINSH_ERROR_INVALID_TOKEN;; mret None)
    (λ (_ : option nat) s', moved k s' ∧ (t ≠ finsh_token_type_eof → moved (pred k) s' ∧ (1 ≤ k)%nat)) s).
  { apply quiet_read; [|done]. apply quiet_bind; auto with finsh. }
  destruct t; try exact Herr.
  - apply (keeps_read n); [|done..]. intros Hn. apply keeps_bind; [by apply takes_keeps, Hassign|]. intros e.
    apply keeps_bind; [apply match_token_keeps|]. intros _. apply quiet_keeps. auto with finsh.
  - apply quiet_read; [|done]. apply quiet_bind; [apply quiet_getf|intros; unfold finsh_node_new_char; auto with finsh].
  - apply quiet_read; [|done]. apply quiet_bind; [apply quiet_getf|intros; unfold finsh_node_new_int; auto with finsh].
  - apply quiet_read; [|done]. apply quiet_bind; [apply quiet_getf|intros; unfold finsh_node_new_long; auto with finsh].
  - by destruct Hr as ([_ ?] & ? & _).
  - apply quiet_read; [|done]. unfold finsh_node_new_ptr. auto with finsh.
  - halts_step. eapply halts_mono; [by apply replay_match|]. intros ? s1 H1. cbv beta. halts_step.
    unfold proc_identifier. halts_step. eapply halts_mono; [exact H1|]. intros ? s2 H2. cbv beta.
    halts_step. apply quiet_halts; [apply quiet_getf|]. intros tk s3 E3.
    apply quiet_halts; [auto with finsh|]. intros id s4 E4. apply quiet_read; [auto with finsh|].
    eapply read_token; [|exact H2]. congruence.
Qed.

Lemma postfix_loop_halts m e t k s :
  read k t s → (k ≤ n)%nat → (k ≤ m)%nat →
  halts (postfix_loop fuel assign m e t) (λ _ s', moved k s') s.
Proof.
  revert e t k s. induction m as [|m IH]; intros e t k s Hr Hk Hm.
  { assert (Hback : halts (finsh_token_replay;; mret e) (λ _ s', moved k s') s)
      by (halts_step; eapply back_halts; [done|]; intros; by halts_step).
    destruct t; try exact Hback; destruct (read_moved_pred _ _ _ Hr ltac:(done)); lia. }
  (* the tree [m'] for an operator, then the next token *)
  assert (Hop : ∀ m' : F (option nat), t ≠ finsh_token_type_eof → ((1 ≤ n)%nat → keeps (pred n) m') →
    halts (postfix ← m'; token ← finsh_token_token; postfix_loop fuel assign m postfix token) (λ _ s', moved k s') s).
  { intros m' Ht Hm'. destruct (read_moved_pred _ _ _ Hr Ht) as [Hmv Hk1]. halts_step.
    eapply halts_mono; [apply (Hm' ltac:(lia) s (pred k)); [done|lia]|]. intros e' s1 H1. cbv beta. halts_step.
    eapply next_halts; [exact H1|]. intros t' s2 Hr2 _. eapply halts_mono; [apply (IH e' t' (pred k)); [done|lia|lia]|].
    intros ? s3 H3. cbv beta. eapply moved_le; [exact H3|lia]. }
  assert (Hback : halts (finsh_token_replay;; mret e) (λ _ s', moved k s') s)
    by (halts_step; eapply back_halts; [done|]; intros; by halts_step).
  destruct t; try exact Hback; apply Hop; try done; intros Hn; try (apply quiet_keeps; by auto with finsh).
  intros s' k' Hk' Hkn. halts_step. eapply next_halts; [done|]. intros t' s1 Hr1 _. halts_step.
  apply halts_mono with (λ _ s', moved k' s').
  - case_decide; [halts_step; by eapply read_moved|]. halts_step. eapply back_halts; [done|]. intros s2 H2 _.
    apply (keeps_bind (pred n)); [by apply proc_param_list_keeps| |done|done]. intros l.
    apply keeps_bind; [apply match_token_keeps|]. intros _. apply quiet_keeps. auto with finsh.
  - intros l s2 H2. cbv beta. apply quiet_halts; [auto with finsh|]. intros ? s3 E. by eapply moved_token.
Qed.
Lemma proc_postfix_takes : takes n (proc_postfix_expr fuel assign).
Proof.
  apply takes_loop; [apply proc_primary_takes|]. intros e t k s Hr Hk. apply postfix_loop_halts; [done|lia|lia].
Qed.

(** The node over the operand of a unary operator. *)
Lemma unary_keeps (f : option nat → F (option nat)) :
  (∀ c, quiet (f c)) → (1 ≤ n)%nat → keeps (pred n) (cast ≫= f).
Proof. intros Hf Hn. apply keeps_bind; [by apply takes_keeps, Hcast|]. intros c. by apply quiet_keeps. Qed.
Lemma proc_unary_takes : takes n (proc_unary_expr fuel assign cast).
Proof.
  unfold proc_unary_expr. apply takes_next. intros t k s Hr Hk.
  assert (Hback : halts (finsh_token_replay;; proc_postfix_expr fuel assign)
    (λ _ s', moved k s' ∧ (t ≠ finsh_token_type_eof → moved (pred k) s' ∧ (1 ≤ k)%nat)) s)
    by (apply (takes_back n); [apply proc_postfix_takes|done|done]).
  destruct t; try exact Hback; (apply (keeps_read n); [|done..]); try (apply unary_keeps; intros; by auto with finsh).
  - intros Hn. by apply takes_keeps, Hcast.
  - apply unary_keeps. intros c. apply quiet_bind; [unfold finsh_node_new_long; auto with finsh|auto with finsh].
Qed.
Lemma cast_body_takes : takes n (cast_body fuel assign cast).
Proof.
  unfold cast_body. apply takes_next. intros t k s Hr Hk.
  case_decide as Ht; [|apply (takes_back n); [apply proc_unary_takes|done|done]].
  destruct (read_moved_pred _ _ _ Hr ltac:(by subst)) as [Hm Hk1].
  apply halts_mono with (λ _ s', moved (pred k) s'); [|intros ? s' Hs; cbv beta; split; [eapply moved_le; [done|lia]|done]].
  halts_step. eapply halts_mono; [by apply (proc_type_keeps (pred k))|]. intros type s1 H1. cbv beta. halts_step.
  eapply halts_mono; [apply (match_token_keeps (pred k) _ s1 (pred k)); [exact H1|done]|]. intros ? s2 H2. cbv beta. halts_step.
  eapply halts_mono; [apply (Hcast ltac:(lia) s2 (pred k)); [exact H2|lia]|]. intros [c|] s3 [H3 _]; cbv beta iota.
  - apply quiet_halts; [apply quiet_bind; auto with finsh|]. intros ? s4 E. by eapply moved_token.
  - halts_step. destruct H3 as [H3 H3m]. eapply replay_halts; [done|]. intros s4 H4 Hc4 Hm4 Hr4.
    destruct Hm4 as [[Hrd Hm4]|[Hrd Hm4]].
    + eapply halts_mono; [apply (proc_unary_takes s4 k); [split; [done|lia]|done]|]. intros ? s5 [_ H5]. cbv beta. by apply H5.
    + eapply halts_mono; [apply (proc_unary_takes s4 (pred k)); [split; [done|lia]|lia]|]. by intros ? s5 [? _].
Qed.
End levels.

(** The levels from [*] to [=], over a [cast] that takes tokens. *)
Lemma inclusive_or_takes n fuel cast :
  (n ≤ fuel)%nat → takes n cast → takes n (proc_inclusive_or_expr fuel cast).
Proof. intros Hf Hc. do 6 (apply binary_expr_takes; [done| |done]). exact Hc. Qed.
Lemma assign_body_takes n fuel assign cast :
  (n ≤ fuel)%nat → ((1 ≤ n)%nat → takes (pred n) assign) → takes n cast → takes n (assign_body fuel assign cast).
Proof.
  intros Hf Ha Hc. apply takes_loop; [by apply inclusive_or_takes|]. intros e t k s Hr Hk. case_decide as Ht.
  - eapply halts_mono; [apply (keeps_read n _ t k)|]; [|done|done|by subst|by intros ? ? [? _]].
    intros Hn. apply keeps_bind; [by apply takes_keeps, Ha|]. intros. apply quiet_keeps. auto with finsh.
  - halts_step. eapply back_halts; [done|]. intros. by halts_step.
Qed.

(** Two units of fuel for a token are enough. *)
Lemma proc_takes fuel n :
  ((2 * n + 2 ≤ fuel)%nat → takes n (proc_assign_expr fuel)) ∧
  ((2 * n + 1 ≤ fuel)%nat → takes n (proc_cast_expr fuel)).
Proof.
  revert n. induction fuel as [|fuel IH]; intros n; split; intros Hf; try lia.
  - apply (assign_body_takes n fuel (proc_assign_expr fuel) (proc_cast_expr fuel)); [lia| |apply IH; lia].
    intros Hn. apply IH. lia.
  - assert (takes n (cast_body fuel (proc_assign_expr fuel) (proc_cast_expr fuel))) as H; [|exact H].
    apply cast_body_takes; [lia|..]; intros Hn; apply IH; lia.
Qed.

(** * Statements *)

(** The token is put back, and will be read again. *)
Definition pending (k : nat) (t : finsh_token_type) (s : finsh) : Prop :=
  moved k s ∧ tk_replay (f_token s) = true ∧ tk_current (f_token s) = t.
Lemma pending_ready k t s : pending k t s → t ≠ finsh_token_type_eof → ready s.
Proof. intros (_ & ? & <-) ?. done. Qed.
Lemma back_pending k t s (Q : unit → finsh → Prop) :
  read k t s → (∀ s', pending k t s' → Q tt s') → halts finsh_token_replay Q s.
Proof.
  intros (Hok & Ht & Hk) HQ. unfold finsh_token_replay. apply upd_halts. apply HQ. split; [|done]. split; [done|].
  unfold FinshLexFacts.measure, rem, ready, bnd in *. simpl. repeat case_decide; naive_solver lia.
Qed.
Lemma next_pending k t s (Q : finsh_token_type → finsh → Prop) :
  pending k t s → (∀ s', read k t s' → Q t s') → halts finsh_token_token Q s.
Proof.
  intros ([Hok Hk] & Hrep & Hc) HQ. unfold finsh_token_token, getf. repeat halts_step; [|congruence].
  apply upd_halts. repeat halts_step. simpl. rewrite Hc. apply HQ. split; [done|]. split; [done|].
  unfold FinshLexFacts.measure, rem, ready, bnd in *. simpl. repeat case_decide; naive_solver lia.
Qed.

Lemma proc_expr_statement_takes n fuel : (2 * n + 2 ≤ fuel)%nat → takes n (proc_expr_statement fuel).
Proof.
  intros Hf. unfold proc_expr_statement. apply takes_next. intros t k s Hr Hk. case_decide as Ht.
  - apply quiet_read; [auto with finsh|done].
  - apply (takes_back n); [|done|done]. intros s1 k1 H1 Hk1. halts_step.
    eapply halts_mono; [apply (proj1 (proc_takes fuel n)); [done|exact H1|done]|]. intros e s2 [H2 H3]. cbv beta. halts_step.
    destruct (decide (ready s1)) as [Hrd|Hrd].
    + destruct (H3 Hrd) as [H4 H5]. eapply halts_mono; [apply (match_token_keeps n _ _ (pred k1)); [done|lia]|].
      intros ? s3 H6. cbv beta. halts_step. split; [eapply moved_le; [exact H6|lia]|done].
    + eapply halts_mono; [apply (match_token_keeps n _ _ k1); [done|lia]|].
      intros ? s3 H6. cbv beta. halts_step. by split.
Qed.

Lemma declare_keeps n type : keeps n (declare type).
Proof.
  unfold declare. apply keeps_bind; [apply proc_identifier_keeps|]. intros id. apply quiet_keeps.
  apply quiet_bind; [auto with finsh|]. intros r. apply quiet_bind; [|auto with finsh].
  destruct (r <? 0); auto with finsh.
Qed.
(** The initial value of a declarator, and the token behind it. *)
Lemma decl_init_halts n fuel fuel' type id node e k s :
  (2 * n + 2 ≤ fuel')%nat → moved k s → (k ≤ n)%nat →
  (∀ node e t s, read k t s → halts (decl_loop fuel type node e t) (λ _ s', moved k s') s) →
  halts (assign ← proc_assign_expr fuel';
         match assign with
         | Some a =>
           '(node, end_) ← link_assign id node e a;
           token ← finsh_token_token;
           decl_loop fuel type node end_ token
         | None => decl_loop fuel type node e finsh_token_type_assign
         end) (λ _ s', moved (S k) s') s.
Proof.
  intros Hf Hm Hk Hloop. halts_step.
  eapply halts_mono; [apply (proj1 (proc_takes fuel' n)); [done|exact Hm|done]|]. intros [a|] s1 [H1 _]; cbv beta iota.
  - halts_step. apply quiet_halts; [auto with finsh|]. intros [node' e'] s2 E. halts_step.
    eapply next_halts; [eapply moved_token; [exact E|exact H1]|]. intros t s3 Hr3 _.
    eapply halts_mono; [by apply Hloop|]. intros ? s4 H4. cbv beta. eapply moved_le; [exact H4|lia].
  - assert (halts (check_token finsh_token_type_assign finsh_token_type_semicolon;; mret node) (λ _ s', moved (S k) s') s1) as H.
    { halts_step. unfold check_token. rewrite decide_False by done. halts_step.
      apply quiet_halts; [auto with finsh|]. intros _ s2 E. destruct (moved_token _ _ _ E H1) as [Hok Hle].
      eapply replay_halts; [done|]. intros s3 H3 _ Hm3 _. halts_step. split; [done|]. destruct Hm3 as [[_ ?]|[_ ?]]; lia. }
    by destruct fuel.
Qed.
Lemma decl_loop_halts fuel type node e t k s :
  read k t s → (3 * k + 2 ≤ fuel)%nat → halts (decl_loop fuel type node e t) (λ _ s', moved k s') s.
Proof.
  revert node e t k s. induction fuel as [|fuel IH]; intros node e t k s Hr Hf; [lia|].
  assert (Hcheck : halts (check_token t finsh_token_type_semicolon;; mret node) (λ _ s', moved k s') s).
  { halts_step. eapply halts_mono; [by apply check_token_halts|]. intros. by halts_step. }
  destruct t; try exact Hcheck. clear Hcheck. destruct (read_moved_pred _ _ _ Hr ltac:(done)) as [Hm Hk1].
  cbn [decl_loop]. halts_step. eapply halts_mono; [by apply (declare_keeps (pred k))|]. intros id s1 H1. cbv beta. halts_step.
  eapply next_halts; [exact H1|]. intros t s2 Hr2 _. case_decide as Ht.
  - destruct (read_moved_pred _ _ _ Hr2 ltac:(by subst)) as [Hm2 Hk2]. subst t.
    eapply halts_mono; [apply (decl_init_halts (pred (pred k)) fuel fuel); [lia|done|lia|]|].
    + intros node' e' t s3 Hr3. apply IH; [done|lia].
    + intros ? s3 H3. cbv beta. eapply moved_le; [exact H3|lia].
  - eapply halts_mono; [apply (IH node e t (pred k)); [done|lia]|]. intros ? s3 H3. cbv beta. eapply moved_le; [exact H3|lia].
Qed.

(** A type that begins with the token [t] takes it. *)
Lemma proc_type_pending k t s :
  is_base_type t || bool_decide (t = finsh_token_type_unsigned) = true → pending k t s →
  halts proc_type (λ _ s', moved (pred k) s' ∧ (1 ≤ k)%nat) s.
Proof.
  intros Ht Hp. unfold proc_type. halts_step. eapply next_pending; [done|]. intros s1 Hr.
  assert (t ≠ finsh_token_type_eof) as Hne by (by intros ->).
  destruct (read_moved_pred _ _ _ Hr Hne) as [Hm Hk].
  apply halts_mono with (λ _ s', moved (pred k) s'); [|by intros].
  unfold is_base_type in Ht. destruct (base_type t); [by apply (proc_pointer_keeps (pred k))|].
  rewrite decide_True by (by apply bool_decide_eq_true in Ht). halts_step.
  eapply next_halts; [done|]. intros t2 s2 Hr2 _. destruct (is_base_type t2).
  - destruct (unsigned_type t2); [apply (proc_pointer_keeps (pred k)); [by eapply read_moved|done]|by eapply type_return_halts].
  - halts_step. eapply back_halts; [done|]. intros s3 H3 _. halts_step.
    apply quiet_halts; [auto with finsh|]. intros _ s4 E. apply (proc_pointer_keeps (pred k)); [by eapply moved_token|done].
Qed.
Lemma proc_variable_decl_halts fuel k t s :
  is_base_type t || bool_decide (t = finsh_token_type_unsigned) = true → pending k t s → (3 * k + 2 ≤ fuel)%nat →
  halts (proc_variable_decl fuel) (λ _ s', moved (pred k) s' ∧ (1 ≤ k)%nat) s.
Proof.
  intros Ht Hp Hf. unfold proc_variable_decl. halts_step. eapply halts_mono; [by eapply proc_type_pending|].
  intros type s1 [H1 Hk]. cbv beta. apply halts_mono with (λ _ s', moved (pred k) s'); [|by intros]. halts_step.
  eapply halts_mono; [by apply (declare_keeps (pred k))|]. intros id s2 H2. cbv beta. halts_step.
  eapply next_halts; [exact H2|]. intros t2 s3 Hr3 _.
  assert (Herr : halts (finsh_error_set FINSH_ERROR_EXPECT_TYPE;; mret None) (λ (_ : option nat) s', moved (pred k) s') s3).
  { halts_step. apply quiet_halts; [auto with finsh|]. intros _ s4 E. halts_step. eapply moved_token; [exact E|by eapply read_moved]. }
  destruct t2; try exact Herr.
  - apply decl_loop_halts; [done|lia].
  - destruct (read_moved_pred _ _ _ Hr3 ltac:(done)) as [Hm Hk2].
    eapply halts_mono; [apply (decl_init_halts (pred (pred k)) fuel fuel type id None None (pred (pred k)) s3 ltac:(lia) Hm ltac:(lia))|].
    + intros node' e' t4 s4 Hr4. apply decl_loop_halts; [done|lia].
    + intros ? s4 H4. cbv beta. eapply moved_le; [exact H4|lia].
Qed.

(** A statement and its place in the list. *)
Lemma append_halts node m k s :
  halts m (λ _ s', moved k s') s → halts (append_statement node m) (λ _ s', moved k s') s.
Proof.
  intros Hm. unfold append_statement, getf. repeat halts_step. destruct (f_root s).
  - halts_step. eapply halts_mono; [exact Hm|]. intros e s1 H1. cbv beta. apply quiet_halts.
    + apply quiet_bind; [by apply quiet_option|]. intros i. apply quiet_bind; auto with finsh.
    + intros ? s2 E. by eapply moved_token.
  - halts_step. eapply halts_mono; [exact Hm|]. intros e s1 H1. cbv beta. repeat halts_step. by eapply moved_token; [|exact H1].
Qed.
Lemma parser_loop_halts fuel node t k s :
  read k t s → (3 * k + 3 ≤ fuel)%nat → halts (parser_loop fuel node t) (λ _ _, True) s.
Proof.
  revert node t k s. induction fuel as [|fuel IH]; intros node t k s Hr Hf; [lia|].
  destruct (decide (t = finsh_token_type_eof)) as [->|He]; [done|].
  destruct (decide (t = finsh_token_type_bad)) as [->|Hb]; [done|].
  enough (Hbody : halts (finsh_token_replay;;
    node ← (if decide (t = finsh_token_type_identifier) then
              '(node, _) ← append_statement node (proc_expr_statement fuel); mret node
            else if is_base_type t || bool_decide (t = finsh_token_type_unsigned) then
              '(node, _) ← append_statement node (proc_variable_decl fuel); mret node
            else
              '(node, found) ← append_statement node (proc_expr_statement fuel);
              (if (found : bool) then mret tt else _ ← finsh_token_token; mret tt);;
              mret node);
    root ← getf f_root;
    match root with
    | None => mret tt
    | Some _ => token ← finsh_token_token; parser_loop fuel node token
    end) (λ _ _, True) s) by (by destruct t).
  halts_step. eapply back_pending; [done|]. intros s1 Hp. halts_step.
  assert (Hstmt : halts (proc_expr_statement fuel) (λ _ s', moved (pred k) s' ∧ (1 ≤ k)%nat) s1).
  { eapply halts_mono; [apply (proc_expr_statement_takes k); [lia|apply Hp|done]|]. intros ? s2 [_ H]. cbv beta.
    apply H. by eapply pending_ready. }
  assert (Hstmt' : halts (proc_expr_statement fuel) (λ _ s', moved (pred k) s') s1)
    by (eapply halts_mono; [exact Hstmt|]; by intros ? ? [? _]).
  assert (Hk : (1 ≤ k)%nat) by (by destruct (read_moved_pred _ _ _ Hr He)).
  apply halts_mono with (λ _ s', moved (pred k) s').
  - case_decide; [|destruct (is_base_type t || _) eqn:Ety].
    + halts_step. eapply halts_mono; [apply append_halts; exact Hstmt'|]. intros [? ?] s2 H2. by halts_step.
    + halts_step. eapply halts_mono; [apply append_halts; eapply halts_mono; [apply (proc_variable_decl_halts fuel k t); [done|done|lia]|]|].
      * by intros ? ? [? _].
      * intros [? ?] s2 H2. by halts_step.
    + halts_step. eapply halts_mono; [apply append_halts; exact Hstmt'|]. intros [node' []] s2 H2; cbv beta iota.
      * by repeat halts_step.
      * repeat halts_step. eapply next_halts; [exact H2|]. intros t' s3 Hr3 _. repeat halts_step. by eapply read_moved.
  - intros node' s2 H2. cbv beta. unfold getf. repeat halts_step. destruct (f_root s2); [|by halts_step]. halts_step.
    eapply next_halts; [exact H2|]. intros t' s3 Hr3 _. apply (IH node' t' (pred k)); [done|lia].
Qed.
Lemma parser_run_halts fuel s :
  (6 * length L + 3 ≤ fuel)%nat → halts (finsh_parser_run fuel L) (λ _ _, True) s.
Proof.
  intros Hf. unfold finsh_parser_run, finsh_token_init. repeat halts_step. set (s0 := set_f_token _ s).
  assert (moved (2 * length L) s0) as Hm.
  { split; [split; [split; [done|right; simpl; lia]|done]|]. unfold FinshLexFacts.measure.
    destruct (decide (ready s0)) as [[? _]|]; [done|]. unfold rem. simpl. lia. }
  eapply next_halts; [exact Hm|]. intros t s1 Hr _. eapply parser_loop_halts; [exact Hr|lia].
Qed.
End parse.

(** A line typed at the shell: the shell puts a semicolon behind it, and the parser comes to
    an end. *)

(** The line as [finsh_thread_entry] passes it on. *)
Definition typed_line (l : list Z) : list Z := l ++ [59].

Lemma typed_line_safe l : 10 ∉ l → safe_line (typed_line l).
Proof.
  intros Hl i c Hi Hs. unfold typed_line in *. apply lookup_app_Some in Hi as [Hi|[Hi Hc]].
  - pose proof (lookup_lt_Some _ _ _ Hi) as Hlt.
    destruct (lookup_lt_is_Some_2 (l ++ [59]) (S i)) as [c' Hc']; [rewrite length_app; simpl; lia|].
    exists c'. split; [done|]. intros ->. apply list_elem_of_lookup_2, elem_of_app in Hc' as [?|Hc']; [done|].
    by apply list_elem_of_singleton in Hc'.
  - destruct (i - length l)%nat; simpl in Hc; [by injection Hc as <-|done].
Qed.

(** C23. No line typed at the shell hangs the parser: with six steps per character (recursive
    calls and turns of loops) the scanner and the recursive descent come to the end of every
    line without newlines and string constants, whatever its syntax errors are. *)
Theorem finsh_parser_run_halts `{img : finsh_image} l fuel s :
  10 ∉ l → 34 ∉ l → (6 * length (typed_line l) + 3 ≤ fuel)%nat →
  finsh_parser_run fuel (typed_line l) s ≠ Fault OutOfFuel.
Proof.
  intros Hl Hq Hf E. assert (34 ∉ typed_line l) as Hq'.
  { unfold typed_line. rewrite elem_of_app, list_elem_of_singleton. by intros [?|?]. }
  pose proof (parser_run_halts (typed_line l) (typed_line_safe l Hl) Hq' fuel s Hf) as H.
  unfold halts in H. by rewrite E in H.
Qed.
