(* ===== verification/FinshEdit.v ===== *)
(** The line editor of the shell: a turn of the loop of [finsh_thread_entry] for a character
    from the console ([shell.c]), with the history of lines.

    The two positions in the line are bytes, and the line of this configuration has 256. *)

From stdpp Require Import base list gmap strings.
From Stdlib Require Import ZArith Lia.
From S2P Require Import Prelude Kservice Printf FinshState FinshCompiler.

Open Scope Z_scope.

Definition FINSH_CMD_SIZE : Z := 256.
Definition FINSH_HISTORY_LINES : Z := 5.

(** [enum input_stat]. *)
Inductive input_stat := WAIT_NORMAL | WAIT_SPEC_KEY | WAIT_FUNC_KEY.
#[global] Instance input_stat_eq_dec : EqDecision input_stat.
Proof. solve_decision. Defined.

(** What a line is given to: [msh_exec] with the length, or [finsh_run_line]. *)
Inductive command := MshExec (line : list Z) (length : Z) | FinshRun (line : list Z).

(** [struct finsh_shell] as far as the editor uses it, what was printed, and the lines that
    were run. *)
Record finsh_shell := Shell {
  sh_stat : input_stat; sh_echo_mode : bool;
  sh_current_history : Z; sh_history_count : Z; sh_cmd_history : list (list Z);
  sh_line : list Z; sh_line_position : Z; sh_line_curpos : Z;
  sh_out : output; sh_run : list command }.

Definition set_stat v s := Shell v (sh_echo_mode s) (sh_current_history s) (sh_history_count s)
  (sh_cmd_history s) (sh_line s) (sh_line_position s) (sh_line_curpos s) (sh_out s) (sh_run s).
Definition set_current_history v s := Shell (sh_stat s) (sh_echo_mode s) v (sh_history_count s)
  (sh_cmd_history s) (sh_line s) (sh_line_position s) (sh_line_curpos s) (sh_out s) (sh_run s).
Definition set_history_count v s := Shell (sh_stat s) (sh_echo_mode s) (sh_current_history s) v
  (sh_cmd_history s) (sh_line s) (sh_line_position s) (sh_line_curpos s) (sh_out s) (sh_run s).
Definition set_cmd_history v s := Shell (sh_stat s) (sh_echo_mode s) (sh_current_history s)
  (sh_history_count s) v (sh_line s) (sh_line_position s) (sh_line_curpos s) (sh_out s) (sh_run s).
Definition set_line v s := Shell (sh_stat s) (sh_echo_mode s) (sh_current_history s) (sh_history_count s)
  (sh_cmd_history s) v (sh_line_position s) (sh_line_curpos s) (sh_out s) (sh_run s).
Definition set_line_position v s := Shell (sh_stat s) (sh_echo_mode s) (sh_current_history s)
  (sh_history_count s) (sh_cmd_history s) (sh_line s) v (sh_line_curpos s) (sh_out s) (sh_run s).
Definition set_line_curpos v s := Shell (sh_stat s) (sh_echo_mode s) (sh_current_history s)
  (sh_history_count s) (sh_cmd_history s) (sh_line s) (sh_line_position s) v (sh_out s) (sh_run s).
Definition set_out v s := Shell (sh_stat s) (sh_echo_mode s) (sh_current_history s) (sh_history_count s)
  (sh_cmd_history s) (sh_line s) (sh_line_position s) (sh_line_curpos s) v (sh_run s).
Definition set_run v s := Shell (sh_stat s) (sh_echo_mode s) (sh_current_history s) (sh_history_count s)
  (sh_cmd_history s) (sh_line s) (sh_line_position s) (sh_line_curpos s) (sh_out s) v.

Abbreviation E := (SM finsh_shell).
Definition gets {A} (f : finsh_shell → A) : E A := s ← get; mret (f s).

(** * Output and the line *)

Definition kprintf (fmt : list Z) (args : list va) : E unit :=
  modify (λ s, set_out (sh_out s ++ [(fmt, args)]) s).
Definition print_n (n : Z) (fmt : list Z) : E unit :=
  modify (λ s, set_out (sh_out s ++ replicate (Z.to_nat n) (fmt, [])) s).

(** [shell->line[i] = v]. *)
Definition put_line (i v : Z) : E unit :=
  l ← gets sh_line;
  if (0 <=? i) && (i <? Z.of_nat (length l)) then modify (set_line (<[Z.to_nat i := v]> l))
  else fail BadPointer.
Definition line_at (i : Z) : E Z :=
  l ← gets sh_line;
  if i <? 0 then fail BadPointer else of_option BadPointer (l !! Z.to_nat i).
(** [rt_memmove(&line[dst], &line[src], n)]. *)
Definition move_line (dst src n : Z) : E unit :=
  l ← gets sh_line;
  if (0 <=? n) && (0 <=? dst) && (0 <=? src) && (dst + n <=? Z.of_nat (length l)) && (src + n <=? Z.of_nat (length l))
  then modify (set_line (take (Z.to_nat dst) l ++ take (Z.to_nat n) (drop (Z.to_nat src) l)
                         ++ drop (Z.to_nat (dst + n)) l))
  else fail BadPointer.
(** [line_curpos = line_position = strlen(line)]. *)
Definition measure_line : E unit :=
  l ← gets sh_line;
  n ← of_option BadPointer (rt_strlen l);
  modify (set_line_position (u8 n));; modify (set_line_curpos (u8 n)).

Section edit.
(** The prompt, whether [msh] is used, and the completion of a line. *)
Context (FINSH_PROMPT : list Z) (msh_is_used : bool) (auto_complete : list Z → list Z).

(** * History *)

Definition shell_handle_history : E unit :=
  kprintf (27 :: text "[2K" ++ [13]) [];;
  l ← gets sh_line;
  kprintf (text "%s%s") [VStr (Some FINSH_PROMPT); VStr (Some l)].

(** A row of the history with the [n] first characters of the line. *)
Definition history_row (l : list Z) (n : nat) : list Z :=
  take n l ++ replicate (Z.to_nat FINSH_CMD_SIZE - n) 0.
Definition shell_push_history : E unit :=
  n ← gets sh_line_position;
  (if negb (n =? 0) then
     l ← gets sh_line;
     h ← gets sh_cmd_history;
     count ← gets sh_history_count;
     if FINSH_HISTORY_LINES <=? count then
       modify (set_cmd_history (tail h ++ [history_row l (Z.to_nat n)]));;
       modify (set_history_count FINSH_HISTORY_LINES)
     else
       modify (set_cmd_history (<[Z.to_nat count := history_row l (Z.to_nat n)]> h));;
       modify (set_history_count (u16 (count + 1)))
   else mret tt);;
  count ← gets sh_history_count;
  modify (set_current_history count).

(** The line of the history at [current_history] becomes the line. *)
Definition recall : E unit :=
  h ← gets sh_cmd_history;
  i ← gets sh_current_history;
  row ← of_option BadPointer (h !! Z.to_nat i);
  modify (set_line row);;
  measure_line;;
  shell_handle_history.
Definition up_key : E unit :=
  i ← gets sh_current_history;
  if 0 <? i then modify (set_current_history (i - 1));; recall
  else modify (set_current_history 0).
Definition down_key : E unit :=
  i ← gets sh_current_history;
  count ← gets sh_history_count;
  if i <? count - 1 then modify (set_current_history (u16 (i + 1)));; recall
  else if negb (count =? 0) then modify (set_current_history (count - 1));; recall
  else mret tt.
Definition left_key : E unit :=
  c ← gets sh_line_curpos;
  if negb (c =? 0) then kprintf [8] [];; modify (set_line_curpos (c - 1)) else mret tt.
Definition right_key : E unit :=
  c ← gets sh_line_curpos;
  p ← gets sh_line_position;
  if c <? p then
    ch ← line_at c;
    kprintf (text "%c") [VInt ch];;
    modify (set_line_curpos (u8 (c + 1)))
  else mret tt.

(** * Keys *)

Definition tab_key : E unit :=
  c ← gets sh_line_curpos;
  print_n c [8];;
  kprintf [10] [];;
  l ← gets sh_line;
  modify (set_line (auto_complete l));;
  l ← gets sh_line;
  kprintf (text "%s%s") [VStr (Some FINSH_PROMPT); VStr (Some l)];;
  measure_line.
Definition backspace_key : E unit :=
  c ← gets sh_line_curpos;
  if c =? 0 then mret tt
  else
    p ← gets sh_line_position;
    modify (set_line_position (u8 (p - 1)));;
    modify (set_line_curpos (c - 1));;
    p ← gets sh_line_position;
    c ← gets sh_line_curpos;
    if c <? p then
      move_line c (c + 1) (p - c);;
      put_line p 0;;
      l ← gets sh_line;
      kprintf (8 :: text "%s  " ++ [8]) [VStr (Some (drop (Z.to_nat c) l))];;
      print_n (p - c + 1) [8]
    else
      kprintf (8 :: text " " ++ [8]) [];;
      put_line p 0.
Definition enter_key : E unit :=
  shell_push_history;;
  echo ← gets sh_echo_mode;
  p ← gets sh_line_position;
  (if msh_is_used then
     (if (echo : bool) then kprintf [10] [] else mret tt);;
     l ← gets sh_line;
     modify (λ s, set_run (sh_run s ++ [MshExec l p]) s)
   else
     put_line p 59;;
     if negb (p =? 0) then l ← gets sh_line; modify (λ s, set_run (sh_run s ++ [FinshRun l]) s)
     else if (echo : bool) then kprintf [10] [] else mret tt);;
  kprintf FINSH_PROMPT [];;
  modify (set_line (replicate (Z.to_nat FINSH_CMD_SIZE) 0));;
  modify (set_line_position 0);;
  modify (set_line_curpos 0).
(** A normal character. *)
Definition char_key (ch : Z) : E unit :=
  p ← gets sh_line_position;
  (if FINSH_CMD_SIZE <=? p then modify (set_line_position 0) else mret tt);;
  p ← gets sh_line_position;
  c ← gets sh_line_curpos;
  echo ← gets sh_echo_mode;
  (if c <? p then
     move_line (c + 1) c (p - c);;
     put_line c ch;;
     l ← gets sh_line;
     (if (echo : bool) then kprintf (text "%s") [VStr (Some (drop (Z.to_nat c) l))] else mret tt);;
     print_n (p - c) [8]
   else
     put_line p ch;;
     if (echo : bool) then kprintf (text "%c") [VInt ch] else mret tt);;
  modify (set_line_position (u8 (p + 1)));;
  modify (set_line_curpos (u8 (c + 1)));;
  p ← gets sh_line_position;
  if FINSH_CMD_SIZE <=? p then modify (set_line_position 0);; modify (set_line_curpos 0) else mret tt.

(** The keys behind the states of the escape sequences; [next] is the character that follows
    a carriage return, if there is one. *)
Definition plain_key (ch : Z) (next : option Z) : E unit :=
  if ch =? 9 then tab_key
  else if (ch =? 0x7f) || (ch =? 8) then backspace_key
  else
    let ch := if ch =? 13 then match next with Some c => if c =? 0 then 13 else c | None => 13 end else ch in
    if (ch =? 13) || (ch =? 10) then enter_key else char_key ch.
(** A turn of the loop. *)
Definition key (ch : Z) (next : option Z) : E unit :=
  st ← gets sh_stat;
  if ch =? 0x1b then modify (set_stat WAIT_SPEC_KEY)
  else
    match st with
    | WAIT_NORMAL => plain_key ch next
    | WAIT_SPEC_KEY =>
      if ch =? 0x5b then modify (set_stat WAIT_FUNC_KEY)
      else modify (set_stat WAIT_NORMAL);; plain_key ch next
    | WAIT_FUNC_KEY =>
      modify (set_stat WAIT_NORMAL);;
      if ch =? 0x41 then up_key
      else if ch =? 0x42 then down_key
      else if ch =? 0x44 then left_key
      else if ch =? 0x43 then right_key
      else plain_key ch next
    end.
End edit.
(** The loop over the characters that come in. *)
Fixpoint keys (FINSH_PROMPT : list Z) (msh_is_used : bool) (auto_complete : list Z → list Z)
    (l : list (Z * option Z)) : E unit :=
  match l with
  | [] => mret tt
  | (ch, next) :: l =>
    key FINSH_PROMPT msh_is_used auto_complete ch next;; keys FINSH_PROMPT msh_is_used auto_complete l
  end.
