(* ===== verification/FinshEditSpec.v ===== *)
(** The line editor refines a text with a cursor and a list of past lines. *)

From stdpp Require Import base list gmap strings.
From Stdlib Require Import ZArith Lia.
From S2P Require Import Prelude Halts Kservice Printf FinshState FinshCompiler FinshVmFacts FinshEdit.

Open Scope Z_scope.

(** * The abstract editor *)

(** The text before the cursor (backwards) and behind it, the past lines and which of them
    is shown. *)
Record editor := Editor { e_before : list Z; e_after : list Z; e_past : list (list Z); e_at : nat }.
Definition e_text (e : editor) : list Z := rev (e_before e) ++ e_after e.

Inductive edit := Up | Down | Left | Right | Tab | Back | Enter | Char (ch : Z).

(** The keys: escape sequences are the states of the input, a carriage return takes the
    character behind it. *)
Definition plain (ch : Z) (next : option Z) : edit :=
  if ch =? 9 then Tab
  else if (ch =? 0x7f) || (ch =? 8) then Back
  else
    let ch := if ch =? 13 then match next with Some c => if c =? 0 then 13 else c | None => 13 end else ch in
    if (ch =? 13) || (ch =? 10) then Enter else Char ch.
Definition decode (st : input_stat) (ch : Z) (next : option Z) : input_stat * option edit :=
  if ch =? 0x1b then (WAIT_SPEC_KEY, None)
  else
    match st with
    | WAIT_NORMAL => (WAIT_NORMAL, Some (plain ch next))
    | WAIT_SPEC_KEY =>
      if ch =? 0x5b then (WAIT_FUNC_KEY, None) else (WAIT_NORMAL, Some (plain ch next))
    | WAIT_FUNC_KEY =>
      (WAIT_NORMAL, Some (if ch =? 0x41 then Up else if ch =? 0x42 then Down else if ch =? 0x44 then Left
                          else if ch =? 0x43 then Right else plain ch next))
    end.

Definition push_past (past : list (list Z)) (t : list Z) : list (list Z) :=
  match t with
  | [] => past
  | _ => if (5 <=? length past)%nat then tail past ++ [t] else past ++ [t]
  end.
(** A past line is shown, with the cursor at its end. *)
Definition show (e : editor) (i : nat) : editor := Editor (rev (e_past e !!! i)) [] (e_past e) i.
(** An edit: the editor and the line that is run.  A character that is none, or one that does
    not fit into the line, has no meaning. *)
Definition apply_edit (complete : list Z → list Z) (k : edit) (e : editor) : option (editor * list (list Z)) :=
  match k with
  | Up => Some (match e_at e with O => e | S i => show e i end, [])
  | Down =>
    Some (if (S (e_at e) <? length (e_past e))%nat then show e (S (e_at e))
          else match length (e_past e) with O => e | S i => show e i end, [])
  | Left =>
    Some (match e_before e with [] => e | x :: b => Editor b (x :: e_after e) (e_past e) (e_at e) end, [])
  | Right =>
    Some (match e_after e with [] => e | x :: a => Editor (x :: e_before e) a (e_past e) (e_at e) end, [])
  | Tab => Some (Editor (rev (complete (e_text e))) [] (e_past e) (e_at e), [])
  | Back => Some (Editor (tail (e_before e)) (e_after e) (e_past e) (e_at e), [])
  | Enter =>
    let past := push_past (e_past e) (e_text e) in Some (Editor [] [] past (length past), [e_text e])
  | Char ch =>
    if (0 <? ch) && (length (e_text e) <? 255)%nat
    then Some (Editor (ch :: e_before e) (e_after e) (e_past e) (e_at e), []) else None
  end.
Definition edit_step (complete : list Z → list Z) (c : input_stat * editor) (i : Z * option Z) :
    option (input_stat * editor * list (list Z)) :=
  match decode c.1 i.1 i.2 with
  | (st, None) => Some (st, c.2, [])
  | (st, Some k) => '(e, r) ← apply_edit complete k c.2; Some (st, e, r)
  end.
Fixpoint edit_steps (complete : list Z → list Z) (c : input_stat * editor) (l : list (Z * option Z)) :
    option (input_stat * editor * list (list Z)) :=
  match l with
  | [] => Some (c, [])
  | i :: l =>
    '(c, r) ← edit_step complete c i;
    '(c, r') ← edit_steps complete c l;
    Some (c, r ++ r')
  end.

(** * Representation *)

Definition line_chars (t : list Z) : Prop := Forall (λ c, 0 < c) t ∧ (length t ≤ 255)%nat.
Definition padded (t : list Z) : list Z := t ++ replicate (256 - length t) 0.
Definition past_ok (e : editor) : Prop :=
  Forall line_chars (e_past e) ∧ (length (e_past e) ≤ 5)%nat ∧ (e_at e ≤ length (e_past e))%nat.
Record edit_rep (st : input_stat) (e : editor) (s : finsh_shell) : Prop := EditRep {
  er_stat : sh_stat s = st;
  er_text : line_chars (e_text e);
  er_line : sh_line s = padded (e_text e);
  er_position : sh_line_position s = Z.of_nat (length (e_text e));
  er_curpos : sh_line_curpos s = Z.of_nat (length (e_before e));
  er_past : past_ok e;
  er_count : sh_history_count s = Z.of_nat (length (e_past e));
  er_current : sh_current_history s = Z.of_nat (e_at e);
  er_history : ∃ rest, sh_cmd_history s = (padded <$> e_past e) ++ rest ∧ (length (e_past e) + length rest = 5)%nat }.

(** The commands a line is given to. *)
Definition run_line (msh : bool) (t : list Z) : list command :=
  if msh then [MshExec (padded t) (Z.of_nat (length t))]
  else match t with [] => [] | _ => [FinshRun (t ++ 59 :: replicate (255 - length t) 0)] end.

Lemma padded_length t : (length t ≤ 256)%nat → length (padded t) = 256%nat.
Proof. intros H. unfold padded. rewrite length_app, length_replicate. lia. Qed.
Lemma strlen_padded t : line_chars t → rt_strlen (padded t) = Some (Z.of_nat (length t)).
Proof.
  intros [Ht Hl]. unfold padded. replace (256 - length t)%nat with (S (255 - length t)) by lia.
  cbn [replicate]. clear Hl. generalize (255 - length t)%nat. intros n.
  induction Ht as [|c t Hc _ IH]; [done|]. simpl. rewrite (proj2 (Z.eqb_neq c 0)), IH by lia. simpl. f_equal. lia.
Qed.
Lemma line_chars_app t u : line_chars (t ++ u) ↔ Forall (λ c, 0 < c) t ∧ Forall (λ c, 0 < c) u ∧ (length t + length u ≤ 255)%nat.
Proof. unfold line_chars. rewrite Forall_app, length_app. tauto. Qed.
Lemma text_length e : length (e_text e) = (length (e_before e) + length (e_after e))%nat.
Proof. unfold e_text. by rewrite length_app, length_rev. Qed.

(** * The line *)

Lemma put_line_spec i v s :
  0 ≤ i → (Z.to_nat i < length (sh_line s))%nat →
  put_line i v s = Done tt (set_line (<[Z.to_nat i := v]> (sh_line s)) s).
Proof.
  intros H0 Hi. unfold put_line, gets. cbv [mbind mret SM_bind SM_ret get].
  by rewrite (proj2 (Z.leb_le _ _)), (proj2 (Z.ltb_lt _ _)) by lia.
Qed.
Lemma move_line_spec dst src n s :
  0 ≤ n → 0 ≤ dst → 0 ≤ src → dst + n ≤ Z.of_nat (length (sh_line s)) → src + n ≤ Z.of_nat (length (sh_line s)) →
  move_line dst src n s =
    Done tt (set_line (take (Z.to_nat dst) (sh_line s) ++ take (Z.to_nat n) (drop (Z.to_nat src) (sh_line s))
                       ++ drop (Z.to_nat (dst + n)) (sh_line s)) s).
Proof.
  intros. unfold move_line, gets. cbv [mbind mret SM_bind SM_ret get].
  by rewrite !(proj2 (Z.leb_le _ _)) by lia.
Qed.
Lemma measure_line_spec t s :
  line_chars t → sh_line s = padded t →
  measure_line s = Done tt (set_line_curpos (Z.of_nat (length t)) (set_line_position (Z.of_nat (length t)) s)).
Proof.
  intros Ht Hl. unfold measure_line, gets. cbv [mbind mret SM_bind SM_ret get of_option modify].
  rewrite Hl, strlen_padded by done. destruct Ht as [_ Ht]. unfold u8. by rewrite Z.mod_small by lia.
Qed.

(** A character is taken out of the line, or put into it, by moving what is behind it. *)
Lemma last_char (x : Z) (A : list Z) : ∃ y, drop (length A) (x :: A) = [y].
Proof.
  destruct (drop (length A) (x :: A)) as [|y l] eqn:E.
  - apply (f_equal length) in E. rewrite length_drop in E. simpl in E. lia.
  - exists y. f_equal. destruct l; [done|]. apply (f_equal length) in E. rewrite length_drop in E. simpl in E. lia.
Qed.
Lemma line_delete (B A Z : list Z) x :
  <[(length B + length A)%nat := 0]>
    (take (length B) (B ++ x :: A ++ Z) ++ take (length A) (drop (S (length B)) (B ++ x :: A ++ Z))
     ++ drop (length B + length A) (B ++ x :: A ++ Z)) = B ++ A ++ 0 :: Z.
Proof.
  destruct (last_char x A) as [y Hy].
  assert (drop (length B + length A) (B ++ x :: A ++ Z) = y :: Z) as ->.
  { rewrite <- drop_drop, drop_app_length, app_comm_cons, drop_app_le, Hy by (simpl; lia). done. }
  assert (drop (S (length B)) (B ++ x :: A ++ Z) = A ++ Z) as ->.
  { replace (S (length B)) with (length B + 1)%nat by lia. by rewrite <- drop_drop, drop_app_length. }
  rewrite take_app_length, take_app_length, app_assoc, insert_app_r_alt by (rewrite length_app; lia).
  by rewrite length_app, Nat.sub_diag, <- app_assoc.
Qed.
Lemma line_insert (B A Z : list Z) ch :
  <[length B := ch]>
    (take (S (length B)) (B ++ A ++ 0 :: Z) ++ take (length A) (drop (length B) (B ++ A ++ 0 :: Z))
     ++ drop (S (length B + length A)) (B ++ A ++ 0 :: Z)) = B ++ ch :: A ++ Z.
Proof.
  assert (drop (S (length B + length A)) (B ++ A ++ 0 :: Z) = Z) as ->.
  { replace (S (length B + length A)) with (length B + (length A + 1))%nat by lia.
    by rewrite <- !drop_drop, !drop_app_length. }
  rewrite drop_app_length, take_app_length.
  assert (∃ y, take (S (length B)) (B ++ A ++ 0 :: Z) = B ++ [y]) as [y ->].
  { replace (S (length B)) with (length B + 1)%nat by lia. rewrite take_app_add'  by done. destruct A; simpl; eauto. }
  rewrite <- app_assoc, insert_app_r_alt, Nat.sub_diag by lia. done.
Qed.

(** * Keys *)

Lemma wp_gets {A} (f : finsh_shell → A) Q s : Q (f s) s → wp (gets f) Q s.
Proof. intros HQ. unfold gets. by repeat wp_step. Qed.
Ltac edit_step := first [apply wp_gets | wp_step]; cbv beta.
(** Steps up to a test. *)
Ltac edit_go :=
  repeat lazymatch goal with |- wp (if _ then _ else _) _ _ => fail | _ => edit_step end.

(** What the output does not change. *)
Lemma kprintf_wp fmt args (Q : unit → finsh_shell → Prop) s :
  (∀ o, Q tt (set_out o s)) → wp (kprintf fmt args) Q s.
Proof. intros HQ. unfold kprintf. by wp_step. Qed.
Lemma print_n_wp n fmt (Q : unit → finsh_shell → Prop) s :
  (∀ o, Q tt (set_out o s)) → wp (print_n n fmt) Q s.
Proof. intros HQ. unfold print_n. by wp_step. Qed.

(** The editor [e] in the state [st] with the same lines run as in [s], or [r] more. *)
Definition edited (st : input_stat) (e : editor) (r : list command) (s s' : finsh_shell) : Prop :=
  edit_rep st e s' ∧ sh_run s' = sh_run s ++ r.
Lemma edited_refl st e s : edit_rep st e s → edited st e [] s s.
Proof. split; [done|]. by rewrite app_nil_r. Qed.
Lemma edit_rep_out st e o s : edit_rep st e s → edit_rep st e (set_out o s).
Proof. intros []. by constructor. Qed.

Section keys.
Context (FINSH_PROMPT : list Z) (msh_is_used : bool) (auto_complete : list Z → list Z).
(** The completion of a text. *)
Context (complete : list Z → list Z).
Context (Hcomplete : ∀ t, line_chars t → line_chars (complete t) ∧ auto_complete (padded t) = padded (complete t)).

Lemma left_key_wp st e s :
  edit_rep st e s →
  wp left_key (λ _, edited st match e_before e with [] => e | x :: b => Editor b (x :: e_after e) (e_past e) (e_at e) end [] s) s.
Proof.
  intros [Hst Ht Hl Hp Hc Hpast Hn Hi Hh]. unfold left_key. edit_step. edit_step. rewrite Hc.
  destruct e as [[|x b] a past i]; simpl; repeat edit_step.
  - apply edited_refl. by constructor.
  - apply kprintf_wp. intros o. edit_step. split; [|by rewrite app_nil_r].
    assert (e_text (Editor b (x :: a) past i) = e_text (Editor (x :: b) a past i)) as Ex
      by (unfold e_text; simpl; by rewrite <- app_assoc).
    constructor; simpl; rewrite ?Ex; try done. lia.
Qed.
Lemma line_at_spec i x s : sh_line s !! i = Some x → line_at (Z.of_nat i) s = Done x s.
Proof.
  intros Hi. unfold line_at, gets. cbv [mbind mret SM_bind SM_ret get].
  by rewrite (proj2 (Z.ltb_ge _ _)), Nat2Z.id, Hi by lia.
Qed.
Lemma right_key_wp st e s :
  edit_rep st e s →
  wp right_key (λ _, edited st match e_after e with [] => e | x :: a => Editor (x :: e_before e) a (e_past e) (e_at e) end [] s) s.
Proof.
  intros [Hst Ht Hl Hp Hc Hpast Hn Hi Hh]. unfold right_key. do 4 edit_step. rewrite Hc, Hp, text_length.
  destruct e as [b [|x a] past i]; cbn [e_before e_after length] in *.
  - rewrite (proj2 (Z.ltb_ge _ _)) by lia. edit_step. apply edited_refl. by constructor.
  - rewrite (proj2 (Z.ltb_lt _ _)) by lia. edit_step. eapply wp_done.
    + apply (line_at_spec _ x). rewrite Hl. unfold padded, e_text. simpl.
      by rewrite <- app_assoc, lookup_app_r, length_rev, Nat.sub_diag by (rewrite length_rev; lia).
    + edit_step. apply kprintf_wp. intros o. edit_step. split; [|by rewrite app_nil_r].
      assert (e_text (Editor (x :: b) a past i) = e_text (Editor b (x :: a) past i)) as Ex
        by (unfold e_text; simpl; by rewrite <- app_assoc).
      constructor; simpl; rewrite ?Ex; try done.
      destruct Ht as [_ Ht]. rewrite text_length in Ht. simpl in Ht. unfold u8. rewrite Z.mod_small by lia. lia.
Qed.

(** A line of the history. *)
Lemma recall_wp st e s i t :
  edit_rep st e s → e_past e !! i = Some t →
  wp (modify (set_current_history (Z.of_nat i));; recall FINSH_PROMPT) (λ _, edited st (show e i) [] s) s.
Proof.
  intros [Hst Ht Hl Hp Hc (Hpast & H5 & Hat) Hn Hi (rest & Hh & Hrest)] Ht'.
  assert (line_chars t) as Htc by (by eapply (proj1 (Forall_lookup _ _))).
  assert (Hs : e_text (show e i) = t).
  { unfold e_text. simpl. rewrite rev_involutive, app_nil_r. by apply list_lookup_total_correct. }
  assert (Hlt : (i < length (e_past e))%nat) by (by eapply lookup_lt_Some).
  unfold recall. repeat edit_step; [simpl; rewrite Nat2Z.id, Hh, lookup_app_l, list_lookup_fmap, Ht' by (by rewrite length_fmap); done|].
  eapply wp_done; [by apply (measure_line_spec t)|]. unfold shell_handle_history. repeat edit_step.
  apply kprintf_wp. intros o. repeat edit_step. apply kprintf_wp. intros o'. split; [|by rewrite app_nil_r].
  constructor; simpl; rewrite ?Hs; try done; [|split_and!; simpl; [done|done|lia]|by exists rest].
  rewrite length_rev. by rewrite (list_lookup_total_correct _ _ _ Ht').
Qed.
Lemma up_key_wp st e s :
  edit_rep st e s → wp (up_key FINSH_PROMPT) (λ _, edited st match e_at e with O => e | S i => show e i end [] s) s.
Proof.
  intros H. destruct (H) as [Hst Ht Hl Hp Hc (Hpast & H5 & Hat) Hn Hi Hh]. unfold up_key. edit_step. edit_step.
  rewrite Hi. destruct (e_at e) as [|i] eqn:Ei; simpl.
  - edit_step. split; [|by rewrite app_nil_r]. by constructor; simpl; try done; [split_and!; [done|done|lia]|by rewrite Ei].
  - destruct (lookup_lt_is_Some_2 (e_past e) i) as [t Ht']; [lia|].
    replace (Z.of_nat (S i) - 1) with (Z.of_nat i) by lia. by eapply recall_wp.
Qed.
Lemma down_key_wp st e s :
  edit_rep st e s →
  wp (down_key FINSH_PROMPT) (λ _, edited st
    (if (S (e_at e) <? length (e_past e))%nat then show e (S (e_at e))
     else match length (e_past e) with O => e | S i => show e i end) [] s) s.
Proof.
  intros H. destruct (H) as [Hst Ht Hl Hp Hc (Hpast & H5 & Hat) Hn Hi Hh]. unfold down_key. edit_step. edit_step. edit_step. edit_step.
  rewrite Hi, Hn. destruct (Nat.ltb_spec (S (e_at e)) (length (e_past e))) as [Hlt|Hge].
  - rewrite (proj2 (Z.ltb_lt _ _)) by lia.
    destruct (lookup_lt_is_Some_2 (e_past e) (S (e_at e))) as [t Ht']; [lia|].
    unfold u16. rewrite Z.mod_small by lia. replace (Z.of_nat (e_at e) + 1) with (Z.of_nat (S (e_at e))) by lia.
    by eapply recall_wp.
  - rewrite (proj2 (Z.ltb_ge _ _)) by lia. destruct (length (e_past e)) as [|i] eqn:Ei; simpl.
    + edit_step. by apply edited_refl.
    + destruct (lookup_lt_is_Some_2 (e_past e) i) as [t Ht']; [lia|].
      replace (Z.of_nat (S i) - 1) with (Z.of_nat i) by lia. by eapply recall_wp.
Qed.
Lemma tab_key_wp st e s :
  edit_rep st e s →
  wp (tab_key FINSH_PROMPT auto_complete) (λ _, edited st (Editor (rev (complete (e_text e))) [] (e_past e) (e_at e)) [] s) s.
Proof.
  intros [Hst Ht Hl Hp Hc Hpast Hn Hi Hh]. destruct (Hcomplete _ Ht) as [Hct Hcl]. unfold tab_key.
  repeat edit_step. apply print_n_wp. intros o. repeat edit_step. apply kprintf_wp. intros o'. repeat edit_step.
  apply kprintf_wp. intros o2. eapply wp_done; [apply (measure_line_spec (complete (e_text e))); [done|simpl; by rewrite Hl]|].
  split; [|by rewrite app_nil_r].
  assert (Hs : e_text (Editor (rev (complete (e_text e))) [] (e_past e) (e_at e)) = complete (e_text e))
    by (unfold e_text; simpl; by rewrite rev_involutive, app_nil_r).
  constructor; simpl; rewrite ?Hs; try done; [by rewrite Hl|by rewrite length_rev].
Qed.

(** The line with a character less, or more. *)
Lemma padded_delete b x a :
  (length b + length a < 255)%nat →
  padded (b ++ x :: a) = b ++ x :: a ++ replicate (255 - (length b + length a)) 0 ∧
  padded (b ++ a) = b ++ a ++ 0 :: replicate (255 - (length b + length a)) 0.
Proof.
  intros H. unfold padded. rewrite !length_app, <- !app_assoc. cbn [length].
  replace (256 - (length b + S (length a)))%nat with (255 - (length b + length a))%nat by lia.
  by replace (256 - (length b + length a))%nat with (S (255 - (length b + length a))) by lia.
Qed.
Lemma backspace_key_wp st e s :
  edit_rep st e s →
  wp backspace_key (λ _, edited st (Editor (tail (e_before e)) (e_after e) (e_past e) (e_at e)) [] s) s.
Proof.
  intros [Hst Ht Hl Hp Hc Hpast Hn Hi Hh]. unfold backspace_key. edit_step. edit_step. rewrite Hc.
  destruct e as [[|x b] a past i]; cbn [e_before e_after e_past e_at tail length] in *; [edit_step; apply edited_refl; by constructor|].
  rewrite (proj2 (Z.eqb_neq _ _)) by lia. edit_go.
  set (e := Editor b a past i). assert (e_text e = rev b ++ a) as Ee by done. assert (e_text (Editor (x :: b) a past i) = rev b ++ x :: a) as Ex
    by (unfold e_text; simpl; by rewrite <- app_assoc).
  rewrite Ex in Ht, Hl, Hp. apply line_chars_app in Ht as (Htb & [_ Hta]%Forall_cons & Hlen). simpl in Hlen.
  rewrite length_rev in Hlen. rewrite Hp, length_app, length_rev. cbn [length].
  assert (u8 (Z.of_nat (length b + S (length a)) - 1) = Z.of_nat (length b + length a)) as Ep
    by (unfold u8; rewrite Z.mod_small; lia).
  assert (Z.of_nat (S (length b)) - 1 = Z.of_nat (length b)) as Ec by lia.
  destruct (padded_delete (rev b) x a) as [El1 El2]; [rewrite length_rev; lia|]. rewrite length_rev in El1, El2.
  assert (Hrep : ∀ s1, sh_line s1 = padded (rev b ++ a) → sh_stat s1 = sh_stat s → sh_history_count s1 = sh_history_count s →
    sh_current_history s1 = sh_current_history s → sh_cmd_history s1 = sh_cmd_history s →
    sh_line_position s1 = Z.of_nat (length b + length a) → sh_line_curpos s1 = Z.of_nat (length b) → edit_rep st e s1).
  { intros s1 E1 E2 E3 E4 E5 E6 E7. constructor; rewrite ?Ee; try done; try (by congruence).
    - apply line_chars_app. rewrite length_rev. split_and!; [done|done|lia].
    - by rewrite E6, length_app, length_rev.
    - by rewrite E3.
    - by rewrite E4.
    - by rewrite E5. }
  cbn [sh_line_position sh_line_curpos set_line_position set_line_curpos]. rewrite Ep, Ec.
  rewrite El1 in Hl. set (Zs := replicate (255 - (length b + length a)) 0) in *.
  assert (length (rev b ++ x :: a ++ Zs) = 256%nat) as Hll
    by (rewrite length_app, length_rev; cbn [length]; unfold Zs; rewrite length_app, length_replicate; lia).
  destruct (Z.ltb_spec (Z.of_nat (length b)) (Z.of_nat (length b + length a))) as [Hlt|Hge].
  - edit_step. eapply wp_done; [apply move_line_spec; try lia; simpl; rewrite Hl, Hll; lia|]. edit_step.
    eapply wp_done; [apply put_line_spec; [lia|]|].
    { simpl. rewrite Hl, !length_app, !length_take, !length_drop, Hll. lia. }
    repeat edit_step. apply kprintf_wp. intros o. apply print_n_wp. intros o'. split; [|by rewrite app_nil_r].
    apply Hrep; try done. simpl. rewrite Hl, El2, <- (line_delete (rev b) a Zs x), length_rev.
    replace (Z.to_nat (Z.of_nat (length b + length a))) with (length b + length a)%nat by lia.
    replace (Z.to_nat (Z.of_nat (length b))) with (length b) by lia.
    replace (Z.to_nat (Z.of_nat (length b) + 1)) with (S (length b)) by lia.
    replace (Z.to_nat (Z.of_nat (length b + length a) - Z.of_nat (length b))) with (length a) by lia.
    replace (Z.to_nat (Z.of_nat (length b) + (Z.of_nat (length b + length a) - Z.of_nat (length b))))
      with (length b + length a)%nat by lia.
    done.
  - destruct a; [|simpl in Hge; lia]. edit_step. apply kprintf_wp. intros o.
    eapply wp_done; [apply put_line_spec; [lia|]|].
    { simpl. rewrite Hl, Hll. lia. }
    split; [|by rewrite app_nil_r]. apply Hrep; try done. simpl. rewrite Hl, El2. simpl.
    rewrite Nat.add_0_r, Nat2Z.id, insert_app_r_alt, length_rev, Nat.sub_diag by (rewrite length_rev; lia). done.
Qed.
Lemma char_key_wp st e s ch :
  edit_rep st e s → 0 < ch → (length (e_text e) < 255)%nat →
  wp (char_key ch) (λ _, edited st (Editor (ch :: e_before e) (e_after e) (e_past e) (e_at e)) [] s) s.
Proof.
  intros [Hst Ht Hl Hp Hc Hpast Hn Hi Hh] Hch Hlen. destruct e as [b a past i]. rewrite text_length in *.
  unfold e_text in Ht, Hl. cbn [e_before e_after e_past e_at] in *. apply line_chars_app in Ht as (Htb & Hta & _).
  set (e := Editor (ch :: b) a past i). assert (e_text e = rev b ++ ch :: a) as Ex
    by (unfold e_text; simpl; by rewrite <- app_assoc).
  destruct (padded_delete (rev b) ch a) as [El1 El2]; [by rewrite length_rev|]. rewrite length_rev in El1, El2.
  assert (Hrep : ∀ s1, sh_line s1 = padded (rev b ++ ch :: a) → sh_stat s1 = sh_stat s → sh_history_count s1 = sh_history_count s →
    sh_current_history s1 = sh_current_history s → sh_cmd_history s1 = sh_cmd_history s →
    sh_line_position s1 = Z.of_nat (length b + length a + 1) → sh_line_curpos s1 = Z.of_nat (length b + 1) → edit_rep st e s1).
  { intros s1 E1 E2 E3 E4 E5 E6 E7. constructor; try (by congruence); rewrite ?Ex; try done.
    - apply line_chars_app. rewrite length_rev. split_and!; [done|by constructor|simpl; lia].
    - rewrite E6, length_app, length_rev. simpl. lia.
    - rewrite E7. simpl. lia.
    - by rewrite E3.
    - by rewrite E4.
    - by rewrite E5. }
  unfold char_key, FINSH_CMD_SIZE. edit_step. edit_step. rewrite Hp, (proj2 (Z.leb_gt _ _)) by lia. edit_go.
  rewrite Hp, Hc. rewrite El2 in Hl. set (Zs := replicate (255 - (length b + length a)) 0) in *.
  assert (length (rev b ++ a ++ 0 :: Zs) = 256%nat) as Hll
    by (rewrite !length_app, length_rev; cbn [length]; unfold Zs; rewrite length_replicate; lia).
  assert (u8 (Z.of_nat (length b + length a) + 1) = Z.of_nat (length b + length a + 1)) as E1 by (unfold u8; rewrite Z.mod_small; lia).
  assert (u8 (Z.of_nat (length b) + 1) = Z.of_nat (length b + 1)) as E2 by (unfold u8; rewrite Z.mod_small; lia).
  (* the line, then the positions *)
  apply wp_mono with (λ _ s1, sh_line s1 = padded (rev b ++ ch :: a) ∧ sh_stat s1 = sh_stat s ∧
    sh_history_count s1 = sh_history_count s ∧ sh_current_history s1 = sh_current_history s ∧
    sh_cmd_history s1 = sh_cmd_history s ∧ sh_run s1 = sh_run s).
  2: { intros _ s1 (H1 & H2 & H3 & H4 & H5 & H6). edit_go.
       cbn [sh_line_position set_line_position set_line_curpos]. rewrite E1, (proj2 (Z.leb_gt _ _)) by lia. edit_step.
       split; [|simpl; by rewrite app_nil_r]. by apply Hrep. }
  destruct (Z.ltb_spec (Z.of_nat (length b)) (Z.of_nat (length b + length a))) as [Hlt|Hge].
  - edit_step. eapply wp_done; [apply move_line_spec; try lia; rewrite Hl, Hll; lia|]. edit_step.
    eapply wp_done; [apply put_line_spec; [lia|]|].
    { simpl. rewrite Hl, !length_app, !length_take, !length_drop, Hll. lia. }
    set (l1 := <[_ := ch]> _).
    assert (l1 = padded (rev b ++ ch :: a)) as Hl1.
    { unfold l1. simpl. rewrite Hl, El1, <- (line_insert (rev b) a Zs ch), length_rev.
      replace (Z.to_nat (Z.of_nat (length b))) with (length b) by lia.
      replace (Z.to_nat (Z.of_nat (length b) + 1)) with (S (length b)) by lia.
      replace (Z.to_nat (Z.of_nat (length b + length a) - Z.of_nat (length b))) with (length a) by lia.
      by replace (Z.to_nat (Z.of_nat (length b) + 1 + (Z.of_nat (length b + length a) - Z.of_nat (length b))))
        with (S (length b + length a)) by lia. }
    repeat edit_step; try (apply kprintf_wp; intros ?); apply print_n_wp; intros ?; by rewrite <- Hl1.
  - destruct a; [|simpl in Hge; lia]. edit_step. eapply wp_done; [apply put_line_spec; [lia|]|].
    { rewrite Hl, Hll. lia. }
    assert (<[Z.to_nat (Z.of_nat (length b + 0)) := ch]> (sh_line s) = padded (rev b ++ [ch])) as Hl1.
    { rewrite Hl, El1. simpl. by rewrite Nat.add_0_r, Nat2Z.id, insert_app_r_alt, length_rev, Nat.sub_diag by (rewrite length_rev; lia). }
    repeat edit_step; try (apply kprintf_wp; intros ?); by rewrite <- Hl1.
Qed.

Lemma history_row_padded t : (length t ≤ 256)%nat → history_row (padded t) (length t) = padded t.
Proof. intros Ht. unfold history_row, padded. by rewrite take_app_length. Qed.
Lemma push_past_ok past t :
  Forall line_chars past → (length past ≤ 5)%nat → line_chars t →
  Forall line_chars (push_past past t) ∧ (length (push_past past t) ≤ 5)%nat.
Proof.
  intros Hp H5 Ht. destruct t as [|x t]; [done|]. unfold push_past.
  destruct (Nat.leb_spec 5 (length past)); rewrite Forall_app, length_app; cbn [length].
  - destruct past as [|y past]; [simpl in *; lia|]. apply Forall_cons in Hp as [_ Hp]. simpl in *.
    split; [split; [done|by constructor]|lia].
  - split; [split; [done|by constructor]|lia].
Qed.
Lemma push_history_wp st e s :
  edit_rep st e s →
  wp shell_push_history (λ _ s', sh_stat s' = sh_stat s ∧ sh_line s' = sh_line s ∧ sh_line_position s' = sh_line_position s ∧
    sh_run s' = sh_run s ∧ sh_history_count s' = Z.of_nat (length (push_past (e_past e) (e_text e))) ∧
    sh_current_history s' = Z.of_nat (length (push_past (e_past e) (e_text e))) ∧
    ∃ rest, sh_cmd_history s' = (padded <$> push_past (e_past e) (e_text e)) ++ rest ∧
      (length (push_past (e_past e) (e_text e)) + length rest = 5)%nat) s.
Proof.
  intros [Hst Ht Hl Hp Hc (Hpast & H5 & Hat) Hn Hi (rest & Hh & Hrest)]. unfold shell_push_history, FINSH_HISTORY_LINES.
  edit_step. edit_step. edit_step. rewrite Hp.
  apply wp_mono with (λ _ s', sh_stat s' = sh_stat s ∧ sh_line s' = sh_line s ∧ sh_line_position s' = sh_line_position s ∧
    sh_run s' = sh_run s ∧ sh_history_count s' = Z.of_nat (length (push_past (e_past e) (e_text e))) ∧
    ∃ rest, sh_cmd_history s' = (padded <$> push_past (e_past e) (e_text e)) ++ rest ∧
      (length (push_past (e_past e) (e_text e)) + length rest = 5)%nat).
  2: { intros _ s1 (H1 & H2 & H3 & H4 & E5 & H6). edit_go. simpl. rewrite E5. split_and!; try done. congruence. }
  destruct (e_text e) as [|x t] eqn:Et; cbn [length]; [edit_go; split_and!; try done; by exists rest|].
  rewrite (proj2 (Z.eqb_neq _ _)) by lia. cbn [negb]. edit_go. rewrite Hl, Hn, Hh.
  replace (Z.to_nat (Z.of_nat (S (length t)))) with (length (x :: t)) by (simpl; lia).
  rewrite history_row_padded by (destruct Ht; lia). unfold push_past.
  destruct (Nat.leb_spec 5 (length (e_past e))) as [Hle|Hlt].
  - rewrite (proj2 (Z.leb_le _ _)) by lia. edit_go. destruct rest; [|simpl in Hrest; lia].
    destruct (e_past e) as [|y past] eqn:Ep; [simpl in Hle; lia|]. simpl in Hle, H5.
    split_and!; try done; simpl; [rewrite length_app; simpl; lia|].
    exists []. rewrite !app_nil_r, fmap_app. split; [done|]. rewrite length_app. simpl. lia.
  - rewrite (proj2 (Z.leb_gt _ _)) by lia. edit_go.
    split_and!; try done; simpl; [unfold u16; rewrite Z.mod_small, length_app by lia; simpl; lia|].
    destruct rest as [|r rest]; [simpl in Hrest; lia|]. exists rest. rewrite fmap_app, Nat2Z.id. split.
    + rewrite insert_app_r_alt, length_fmap, Nat.sub_diag, <- app_assoc by (rewrite length_fmap; lia). done.
    + rewrite length_app. simpl in *. lia.
Qed.
Lemma put_end t : (length t ≤ 255)%nat → <[length t := 59]> (padded t) = t ++ 59 :: replicate (255 - length t) 0.
Proof.
  intros Ht. unfold padded. rewrite insert_app_r_alt, Nat.sub_diag by lia.
  by replace (256 - length t)%nat with (S (255 - length t)) by lia.
Qed.
Lemma enter_key_wp st e s :
  edit_rep st e s →
  wp (enter_key FINSH_PROMPT msh_is_used) (λ _, edited st
    (Editor [] [] (push_past (e_past e) (e_text e)) (length (push_past (e_past e) (e_text e))))
    (run_line msh_is_used (e_text e)) s) s.
Proof.
  intros H. destruct (H) as [Hst Ht Hl Hp Hc (Hpast & H5 & Hat) Hn Hi Hh].
  unfold enter_key. edit_step. eapply wp_mono; [by apply (push_history_wp st e s)|].
  intros _ s1 (E1 & E2 & E3 & E4 & E5 & E6 & Hh1). cbv beta. edit_go. rewrite E3, Hp.
  destruct (push_past_ok _ _ Hpast H5 Ht) as [Hpo1 Hpo2].
  apply wp_mono with (λ _ s', sh_stat s' = sh_stat s1 ∧ sh_history_count s' = sh_history_count s1 ∧
    sh_current_history s' = sh_current_history s1 ∧ sh_cmd_history s' = sh_cmd_history s1 ∧
    sh_run s' = sh_run s ++ run_line msh_is_used (e_text e)).
  2: { intros _ s2 (F1 & F2 & F3 & F4 & F5). edit_go. apply kprintf_wp. intros o. edit_go. split; [|done].
       constructor; simpl; try congruence; try done.
       - split; [constructor|simpl; lia].
       - by rewrite F4. }
  unfold run_line. destruct msh_is_used.
  - edit_step. apply wp_mono with (λ _ s', ∃ o, s' = set_out o s1).
    + edit_step; [apply kprintf_wp; eauto|]. edit_step. exists (sh_out s1). by destruct s1.
    + intros _ ? [o ->]. edit_go. simpl. split_and!; try done. by rewrite E4, E2, Hl.
  - destruct Ht as [_ Ht]. edit_step.
    eapply wp_done; [apply put_line_spec; [lia|rewrite E2, Hl, padded_length; lia]|]. rewrite Nat2Z.id.
    destruct (e_text e) as [|x t] eqn:Et; cbn [length].
    + edit_step; edit_go; [done|]. repeat edit_step; try apply kprintf_wp; intros; simpl; rewrite ?app_nil_r; by split_and!.
    + rewrite (proj2 (Z.eqb_neq _ _)) by lia. edit_step; [|done]. edit_go. simpl. split_and!; try done.
      rewrite E4, E2, Hl. change (S (length t)) with (length (x :: t)). by rewrite put_end.
Qed.

(** * The editor *)

Lemma plain_key_wp st e s ch next e' r :
  edit_rep st e s → apply_edit complete (plain ch next) e = Some (e', r) →
  wp (plain_key FINSH_PROMPT msh_is_used auto_complete ch next) (λ _, edited st e' (r ≫= run_line msh_is_used) s) s.
Proof.
  intros H. unfold plain_key, plain.
  destruct (ch =? 9); [intros [= <- <-]; by apply tab_key_wp|].
  destruct ((ch =? 0x7f) || (ch =? 8)); [intros [= <- <-]; by apply backspace_key_wp|]. cbv zeta.
  set (ch' := if ch =? 13 then _ else ch). clearbody ch'.
  destruct ((ch' =? 13) || (ch' =? 10)).
  - intros [= <- <-]. cbn [mbind list_bind]. rewrite app_nil_r. by apply enter_key_wp.
  - cbn [apply_edit]. destruct ((0 <? ch') && _) eqn:E; [|done]. apply andb_true_iff in E as [E1%Z.ltb_lt E2%Nat.ltb_lt].
    intros [= <- <-]. by apply char_key_wp.
Qed.
Lemma set_stat_rep st st' e s : edit_rep st e s → edit_rep st' e (set_stat st' s).
Proof. intros []. by constructor. Qed.
Lemma key_wp st e s i st' e' r :
  edit_rep st e s → edit_step complete (st, e) i = Some (st', e', r) →
  wp (key FINSH_PROMPT msh_is_used auto_complete i.1 i.2) (λ _, edited st' e' (r ≫= run_line msh_is_used) s) s.
Proof.
  intros H. destruct i as [ch next]. unfold edit_step, decode, key. cbn [fst snd]. intros He.
  edit_step. edit_step. rewrite (er_stat _ _ _ H). destruct (ch =? 0x1b).
  { injection He as <- <- <-. edit_step. split; [by eapply set_stat_rep|]. by rewrite app_nil_r. }
  set (s1 := set_stat WAIT_NORMAL s). assert (Hn : edit_rep WAIT_NORMAL e s1) by (by eapply set_stat_rep).
  assert (Hs1 : ∀ (m : E unit) st e' r, wp m (λ _, edited st e' r s1) s1 → wp m (λ _, edited st e' r s) s1) by done.
  destruct st.
  - apply bind_Some in He as ([e1 r1] & He & [= <- <- <-]). by apply (plain_key_wp _ e).
  - destruct (ch =? 0x5b).
    { injection He as <- <- <-. edit_step. split; [by eapply set_stat_rep|]. by rewrite app_nil_r. }
    apply bind_Some in He as ([e1 r1] & He & [= <- <- <-]). edit_step. edit_step. apply Hs1. by apply (plain_key_wp _ e).
  - apply bind_Some in He as ([e1 r1] & He & [= <- <- <-]). edit_step. edit_step. apply Hs1.
    destruct (ch =? 0x41); [injection He as <- <-; by apply up_key_wp|].
    destruct (ch =? 0x42); [injection He as <- <-; by apply down_key_wp|].
    destruct (ch =? 0x44); [injection He as <- <-; by apply left_key_wp|].
    destruct (ch =? 0x43); [injection He as <- <-; by apply right_key_wp|].
    by apply (plain_key_wp _ e).
Qed.
End keys.

(** C24. The line editor is a text with a cursor and a list of at most five past lines: for
    every sequence of characters from the console, escape sequences and history included, as
    long as no line gets longer than 255 characters, the editor comes back with the line, the
    two positions and the history of the abstract editor, and has run its lines in order. *)
Theorem finsh_editor_refines FINSH_PROMPT msh_is_used auto_complete complete st e s l st' e' r :
  (∀ t, line_chars t → line_chars (complete t) ∧ auto_complete (padded t) = padded (complete t)) →
  edit_rep st e s → edit_steps complete (st, e) l = Some (st', e', r) →
  ∃ s', keys FINSH_PROMPT msh_is_used auto_complete l s = Done tt s' ∧ edit_rep st' e' s' ∧
    sh_run s' = sh_run s ++ (r ≫= run_line msh_is_used).
Proof.
  intros Hc. revert st e s r. induction l as [|[ch next] l IH]; intros st e s r H Hl.
  { injection Hl as <- <- <-. exists s. split_and!; [done|done|]. by rewrite app_nil_r. }
  cbn [edit_steps] in Hl. apply bind_Some in Hl as ([[st1 e1] r1] & H1 & ([[st2 e2] r2] & H2 & [= <- <- <-])%bind_Some).
  pose proof (key_wp FINSH_PROMPT msh_is_used auto_complete complete Hc st e s (ch, next) st1 e1 r1 H H1) as Hw.
  apply wp_inv in Hw as ([] & s1 & E1 & Hr1 & Hrun1).
  destruct (IH st1 e1 s1 r2 Hr1 H2) as (s2 & E2 & Hr2 & Hrun2). exists s2. split_and!; [|done|].
  - cbn [keys]. cbn [fst snd] in E1. unfold mbind, SM_bind. by rewrite E1.
  - by rewrite Hrun2, Hrun1, bind_app, app_assoc.
Qed.

(** With a line of 256 characters the test for a full line is never true of the byte that
    counts them: a character put into the middle of a line of 255 makes the count zero while
    the cursor stays behind it, and the text is lost. *)
Theorem finsh_line_wraps st e s ch :
  edit_rep st e s → length (e_text e) = 255%nat → e_after e ≠ [] →
  ∃ s', char_key ch s = Done tt s' ∧ sh_line_position s' = 0 ∧
    sh_line_curpos s' = Z.of_nat (S (length (e_before e))) ∧ sh_line_position s' < sh_line_curpos s'.
Proof.
  intros [Hst Ht Hl Hp Hc Hpast Hn Hi Hh] Hlen Ha. rewrite Hlen in Hp. pose proof (text_length e) as Htl.
  assert (Hlt : (length (e_before e) < 255)%nat) by (destruct (e_after e); [done|simpl in Htl; lia]).
  enough (Hw : wp (char_key ch) (λ _ s', sh_line_position s' = 0 ∧ sh_line_curpos s' = Z.of_nat (S (length (e_before e)))) s).
  { apply wp_inv in Hw as ([] & s' & E & H1 & H2). exists s'. split_and!; [done..|lia]. }
  unfold char_key, FINSH_CMD_SIZE. edit_step. edit_step. rewrite Hp, (proj2 (Z.leb_gt _ _)) by lia. edit_go.
  rewrite Hp, Hc, (proj2 (Z.ltb_lt _ _)) by lia.
  assert (length (sh_line s) = 256%nat) as Hll by (rewrite Hl; apply padded_length; lia).
  edit_step. eapply wp_done; [apply move_line_spec; rewrite ?Hll; lia|]. edit_step.
  eapply wp_done; [apply put_line_spec; [lia|]|].
  { simpl. rewrite !length_app, !length_take, !length_drop, Hll. lia. }
  edit_go. apply wp_mono with (λ _ s1, True); [repeat edit_step; try apply kprintf_wp; done|]. intros _ s1 _.
  apply print_n_wp. intros o. edit_go. cbn [sh_line_position set_line_position set_line_curpos].
  change (u8 (Z.of_nat 255 + 1)) with 0. rewrite (proj2 (Z.leb_gt _ _)) by lia. edit_go. split; [done|]. simpl. unfold u8. rewrite Z.mod_small; lia.
Qed.
