(* ===== verification/FinshMsh.v ===== *)
(** The command shell of FinSH ([msh.c]): a line is split into words, its first word looked
    up among the commands, and the command is called.

    The line is a buffer of characters, pointers into it are offsets. *)

From stdpp Require Import base list gmap strings.
From Stdlib Require Import ZArith Lia.
From S2P Require Import Prelude Kservice Printf Halts FinshState FinshCompiler FinshVmFacts.

Open Scope Z_scope.

Definition RT_FINSH_ARG_MAX : nat := 10.

Definition is_blank (c : Z) : bool := (c =? 32) || (c =? 9).

(** * Splitting *)

(** Blanks before a word become zeros. *)
Fixpoint strip_loop (fuel : nat) (length position : nat) : L nat :=
  c ← char_at position;
  if is_blank c && (position <? length)%nat then
    match fuel with
    | O => fail OutOfFuel
    | S fuel => set_char position 0;; strip_loop fuel length (S position)
    end
  else mret position.
Fixpoint word_loop (fuel : nat) (length position : nat) : L nat :=
  c ← char_at position;
  if negb (is_blank c) && (position <? length)%nat then
    match fuel with O => fail OutOfFuel | S fuel => word_loop fuel length (S position) end
  else mret position.
(** The string behind a quotation mark, up to the next one that is not escaped. *)
Fixpoint string_loop (fuel : nat) (length position : nat) : L nat :=
  c ← char_at position;
  if negb (c =? 34) && (position <? length)%nat then
    match fuel with
    | O => fail OutOfFuel
    | S fuel =>
      d ← (if c =? 92 then char_at (S position) else mret 0);
      string_loop fuel length (if (c =? 92) && (d =? 34) then S (S position) else S position)
    end
  else mret position.
(** [argv[argc] = ptr; argc ++] *)
Definition push_arg (argv : list nat) (p : nat) : L (list nat) :=
  if (List.length argv <? RT_FINSH_ARG_MAX)%nat then mret (argv ++ [p]) else fail BadPointer.
Fixpoint split_loop (fuel : nat) (length position : nat) (argv : list nat) : L (list nat) :=
  if (position <? length)%nat then
    match fuel with
    | O => fail OutOfFuel
    | S fuel =>
      position ← strip_loop length length position;
      if (length <=? position)%nat then mret argv
      else
        c ← char_at position;
        if c =? 34 then
          argv ← push_arg argv (S position);
          position ← string_loop length length (S position);
          if (length <=? position)%nat then mret argv
          else set_char position 0;; split_loop fuel length (S position) argv
        else
          argv ← push_arg argv position;
          position ← word_loop length length position;
          if (length <=? position)%nat then mret argv else split_loop fuel length position argv
    end
  else mret argv.
(** [argc] is the length of the result. *)
Definition msh_split (length : nat) : L (list nat) := split_loop length length 0 [].

(** * Commands *)

(** The name of a system call that is a command begins with [__cmd_]. *)
Definition cmd_prefix : list Z := text "__cmd_".
(** The scan of [msh_get_cmd]. *)
Fixpoint get_cmd (table : list finsh_syscall) (cmd : list Z) (size : nat) : option (option Z) :=
  match table with
  | [] => Some None
  | index :: table =>
    p ← rt_strncmp (syscall_name index) (cmd_prefix ++ [0]) 6;
    if negb (p =? 0) then get_cmd table cmd size
    else
      e ← rt_strncmp (drop 6 (syscall_name index)) cmd size;
      c ← (if e =? 0 then syscall_name index !! (6 + size)%nat else Some 1);
      if (e =? 0) && (c =? 0) then Some (Some (syscall_func index)) else get_cmd table cmd size
  end.

Section exec.
(** The commands are system calls of the application: they get the arguments, as offsets
    into the line, and may write to the line. *)
Context (table : list finsh_syscall) (cmd_func : Z → list nat → L Z).

(** The size of the first word. *)
Definition cmd0_size (length : nat) : L nat := word_loop length length 0.
(** The result of the command, if there was one ([-RT_ERROR] otherwise). *)
Definition msh_exec_cmd (length : nat) : L (option Z) :=
  size ← cmd0_size length;
  if (size =? 0)%nat then mret None
  else
    cmd ← get;
    f ← of_option BadPointer (get_cmd table cmd size);
    match f with
    | None => mret None
    | Some f =>
      argv ← msh_split length;
      match argv with
      | [] => mret None
      | _ => r ← cmd_func f argv; mret (Some r)
      end
    end.
End exec.

(** The words of a command line. *)

(** * Specification *)

(** The line with its blanks as zeros, and the places where words begin ([prev]: a blank
    precedes the text). *)
Definition blank_out (l : list Z) : list Z := (λ c, if is_blank c then 0 else c) <$> l.
Fixpoint starts (prev : bool) (off : nat) (l : list Z) : list nat :=
  match l with
  | [] => []
  | c :: l =>
    if is_blank c then starts true (S off) l
    else (if prev then [off] else []) ++ starts false (S off) l
  end.

Lemma blank_out_app l k : blank_out (l ++ k) = blank_out l ++ blank_out k.
Proof. apply fmap_app. Qed.
Lemma blank_out_blanks l : Forall (λ c, is_blank c = true) l → blank_out l = replicate (length l) 0.
Proof. induction 1 as [|c l Hc _ IH]; [done|]. unfold blank_out. simpl. rewrite Hc. f_equal. apply IH. Qed.
Lemma blank_out_word l : Forall (λ c, is_blank c = false) l → blank_out l = l.
Proof. induction 1 as [|c l Hc _ IH]; [done|]. unfold blank_out. simpl. rewrite Hc. f_equal. apply IH. Qed.
Lemma starts_blanks prev off l k :
  Forall (λ c, is_blank c = true) l → prev = true ∨ l ≠ [] → starts prev off (l ++ k) = starts true (off + length l) k.
Proof.
  intros Hl. revert prev off. induction Hl as [|c l Hc _ IH]; intros prev off H.
  - destruct H as [->|]; [|done]. by rewrite Nat.add_0_r.
  - simpl. rewrite Hc, IH by auto. f_equal. lia.
Qed.
Lemma starts_word off l k :
  Forall (λ c, is_blank c = false) l → starts false off (l ++ k) = starts false (off + length l) k.
Proof.
  intros Hl. revert off. induction Hl as [|c l Hc _ IH]; intros off; [by rewrite Nat.add_0_r|].
  simpl. rewrite Hc, IH. simpl. f_equal. lia.
Qed.
(** * Loops *)

(** What the loops stop at: the end of the line, or a character that fails the test. *)
Lemma strip_loop_spec fuel B bl k r :
  Forall (λ c, is_blank c = true) bl → match k with [] => True | x :: _ => is_blank x = false end →
  r ≠ [] → (length bl ≤ fuel)%nat →
  strip_loop fuel (length B + length bl + length k) (length B) (B ++ bl ++ k ++ r)
  = Done (length B + length bl)%nat (B ++ replicate (length bl) 0 ++ k ++ r).
Proof.
  intros Hbl Hk Hr. revert B fuel. induction Hbl as [|c bl Hc Hbl IH]; intros B fuel Hf.
  - assert (∃ x, (B ++ k ++ r) !! length B = Some x ∧ is_blank x && (length B <? length B + 0 + length k)%nat = false) as (x & Hx & Ht).
    { rewrite lookup_app_r, Nat.sub_diag by lia. destruct k as [|x k]; simpl.
      - destruct r as [|x r]; [done|]. exists x. split; [done|]. rewrite Nat.add_0_r, Nat.add_0_r, Nat.ltb_irrefl. apply andb_false_r.
      - exists x. by rewrite Hk. }
    destruct fuel; cbn [strip_loop length app]; erewrite bind_done by (by apply char_at_spec); rewrite Ht, Nat.add_0_r; done.
  - destruct fuel as [|fuel]; [simpl in Hf; lia|]. cbn [strip_loop].
    assert ((B ++ (c :: bl) ++ k ++ r) !! length B = Some c) as Hx by (by rewrite lookup_app_r, Nat.sub_diag by lia).
    erewrite bind_done by (by apply char_at_spec). rewrite Hc. rewrite (proj2 (Nat.ltb_lt _ _)) by (simpl; lia). cbn [andb].
    erewrite bind_done by (by eapply set_char_spec). rewrite insert_app_r_alt, Nat.sub_diag by lia.
    change (<[0%nat := 0]> ((c :: bl) ++ k ++ r)) with ([0] ++ bl ++ k ++ r).
    specialize (IH (B ++ [0]) fuel). rewrite length_app, <- !app_assoc in IH. cbn [length] in IH |- *.
    replace (length B + S (length bl) + length k)%nat with (length B + 1 + length bl + length k)%nat by lia.
    replace (S (length B)) with (length B + 1)%nat by lia. rewrite IH by (simpl in Hf; lia). f_equal. lia.
Qed.
Lemma word_loop_spec fuel B w k r :
  Forall (λ c, is_blank c = false) w → match k with [] => True | x :: _ => is_blank x = true end →
  r ≠ [] → (length w ≤ fuel)%nat →
  word_loop fuel (length B + length w + length k) (length B) (B ++ w ++ k ++ r)
  = Done (length B + length w)%nat (B ++ w ++ k ++ r).
Proof.
  intros Hw Hk Hr. revert B fuel. induction Hw as [|c w Hc Hw IH]; intros B fuel Hf.
  - assert (∃ x, (B ++ k ++ r) !! length B = Some x ∧ negb (is_blank x) && (length B <? length B + 0 + length k)%nat = false) as (x & Hx & Ht).
    { rewrite lookup_app_r, Nat.sub_diag by lia. destruct k as [|x k]; simpl.
      - destruct r as [|x r]; [done|]. exists x. split; [done|]. rewrite Nat.add_0_r, Nat.add_0_r, Nat.ltb_irrefl. apply andb_false_r.
      - exists x. by rewrite Hk. }
    destruct fuel; cbn [word_loop length app]; erewrite bind_done by (by apply char_at_spec); rewrite Ht, Nat.add_0_r; done.
  - destruct fuel as [|fuel]; [simpl in Hf; lia|]. cbn [word_loop].
    assert ((B ++ (c :: w) ++ k ++ r) !! length B = Some c) as Hx by (by rewrite lookup_app_r, Nat.sub_diag by lia).
    erewrite bind_done by (by apply char_at_spec). rewrite Hc. rewrite (proj2 (Nat.ltb_lt _ _)) by (simpl; lia). cbn [andb negb].
    specialize (IH (B ++ [c]) fuel). rewrite length_app, <- !app_assoc in IH. cbn [length app] in IH |- *.
    replace (length B + S (length w) + length k)%nat with (length B + 1 + length w + length k)%nat by lia.
    replace (S (length B)) with (length B + 1)%nat by lia. rewrite IH by (simpl in Hf; lia). f_equal. lia.
Qed.

(** A turn of the outer loop: blanks, and a word. *)
Lemma split_loop_spec fuel B l r argv prev :
  34 ∉ l → r ≠ [] → (length l ≤ fuel)%nat → (length argv ≤ RT_FINSH_ARG_MAX)%nat →
  prev = true ∨ match l with [] => True | x :: _ => is_blank x = true end →
  split_loop fuel (length B + length l) (length B) argv (B ++ l ++ r) =
    let args := argv ++ starts prev (length B) l in
    if (length args <=? RT_FINSH_ARG_MAX)%nat then Done args (B ++ blank_out l ++ r) else Fault BadPointer.
Proof.
  intros Hq Hr. revert B l argv prev Hq. induction fuel as [|fuel IH]; intros B l argv prev Hq Hf Ha Hp.
  { destruct l; [|simpl in Hf; lia]. cbn [split_loop starts length]. rewrite (proj2 (Nat.ltb_ge _ _)), app_nil_r by lia.
    cbv zeta. by rewrite (proj2 (Nat.leb_le _ _) Ha). }
  cbn [split_loop]. destruct (span is_blank l) as (bl & l1 & -> & Hbl & Hl1).
  destruct (Nat.ltb_spec (length B) (length B + length (bl ++ l1))) as [Hlt|Hge].
  2: { destruct (bl ++ l1); [|simpl in Hge; lia]. cbn [starts]. cbv zeta. rewrite app_nil_r. by rewrite (proj2 (Nat.leb_le _ _) Ha). }
  rewrite length_app, Nat.add_assoc, <- (app_assoc bl). erewrite bind_done by (apply strip_loop_spec; [done|done|done|lia]).
  assert (starts prev (length B) (bl ++ l1) = starts true (length B + length bl) l1) as Hst.
  { apply starts_blanks; [done|]. destruct Hp as [->|Hp]; [by left|]. right. intros ->. destruct l1; [simpl in Hlt; lia|]. simpl in Hp. congruence. }
  rewrite Hst, blank_out_app, blank_out_blanks, <- app_assoc by done.
  destruct l1 as [|c l1].
  { rewrite (proj2 (Nat.leb_le _ _)) by (simpl; lia). cbn [starts]. cbv zeta. rewrite app_nil_r. by rewrite (proj2 (Nat.leb_le _ _) Ha). }
  rewrite (proj2 (Nat.leb_gt _ _)) by (simpl; lia).
  assert ((B ++ replicate (length bl) 0 ++ (c :: l1) ++ r) !! (length B + length bl)%nat = Some c) as Hc.
  { rewrite lookup_app_r by lia. rewrite lookup_app_r by (rewrite length_replicate; lia). rewrite length_replicate.
    by replace (length B + length bl - length B - length bl)%nat with 0%nat by lia. }
  erewrite bind_done by (by apply char_at_spec).
  rewrite (proj2 (Z.eqb_neq c 34)) by (intros ->; apply Hq; set_solver).
  destruct (span (λ c, negb (is_blank c)) (c :: l1)) as (w & k & Ewk & Hw & Hk). rewrite Ewk in *.
  assert (Forall (λ c, is_blank c = false) w) as Hw' by (eapply Forall_impl; [exact Hw|]; by intros ? ?%negb_true_iff).
  destruct w as [|x w]; [simpl in Ewk; subst k; simpl in Hk; by rewrite Hl1 in Hk|].
  assert (is_blank x = false) as Hx by (by apply Forall_cons in Hw' as [? _]).
  change (starts true (length B + length bl) ((x :: w) ++ k)) with
    (if is_blank x then starts true (S (length B + length bl)) (w ++ k)
     else [(length B + length bl)%nat] ++ starts false (S (length B + length bl)) (w ++ k)).
  rewrite Hx, starts_word by (by apply Forall_cons in Hw' as [_ ?]).
  unfold push_arg. destruct (Nat.ltb_spec (length argv) RT_FINSH_ARG_MAX) as [Hn|Hn].
  2: { cbv zeta. rewrite (proj2 (Nat.leb_gt _ _)); [done|]. rewrite !length_app. simpl. lia. }
  erewrite bind_done by done. set (B1 := B ++ replicate (length bl) 0).
  assert (length B1 = (length B + length bl)%nat) as HlB1 by (unfold B1; by rewrite length_app, length_replicate).
  rewrite (app_assoc B), <- HlB1, length_app, Nat.add_assoc, <- (app_assoc (x :: w)). fold B1.
  erewrite bind_done by (apply word_loop_spec; [done|destruct k; [done|by apply negb_false_iff]|done|lia]).
  rewrite blank_out_app, (blank_out_word (x :: w)), <- app_assoc by done.
  replace (S (length B1) + length w)%nat with (length B1 + length (x :: w))%nat by (simpl; lia).
  destruct k as [|y k].
  { rewrite (proj2 (Nat.leb_le _ _)) by (simpl; lia). cbn [starts]. cbv zeta.
    rewrite (proj2 (Nat.leb_le _ _)) by (rewrite !length_app; simpl; lia).
    unfold B1. by rewrite <- app_assoc. }
  rewrite (proj2 (Nat.leb_gt _ _)) by (simpl; lia).
  specialize (IH (B1 ++ x :: w) (y :: k) (argv ++ [length B1]) false).
  rewrite (length_app B1), <- !(app_assoc B1) in IH. rewrite IH.
  - cbv zeta. rewrite <- !app_assoc. rewrite (app_assoc B). done.
  - intros Hin. apply Hq. set_solver.
  - rewrite !length_app in Hf. simpl in Hf |- *. lia.
  - rewrite length_app. simpl. lia.
  - right. by apply negb_false_iff.
Qed.

(** C26. [msh_split] finds the words of a command line: the arguments point to the places
    where words begin, and the blanks behind them are zeros, so that each argument is its
    word as a C string; with more than ten words it writes past the end of [argv]. *)
Theorem msh_split_correct l r :
  34 ∉ l → r ≠ [] →
  msh_split (length l) (l ++ r) =
    if (length (starts true 0 l) <=? RT_FINSH_ARG_MAX)%nat then Done (starts true 0 l) (blank_out l ++ r)
    else Fault BadPointer.
Proof.
  intros Hq Hr. unfold msh_split.
  by apply (split_loop_spec (length l) [] l r [] true); [done|done|lia|simpl; unfold RT_FINSH_ARG_MAX; lia|left].
Qed.
