(* ===== verification/ScenarioFinsh.v ===== *)
(** FinSH on concrete lines: witnesses of the theorems, and lines from the text to the
    printed result. *)

From stdpp Require Import base list gmap strings.
From Stdlib Require Import ZArith Lia.
From S2P Require Import Prelude Halts Kservice Printf FinshState FinshVar FinshHeap FinshNode FinshToken FinshParser FinshVm FinshCompiler FinshSem FinshVmFacts FinshRun FinshTypes FinshCode FinshCorrect FinshVarFacts FinshParseFacts FinshEdit FinshEditSpec FinshMsh.

Open Scope Z_scope.

(** A system variable [tick] and a system call [add]. *)
#[local] Instance finsh_img : finsh_image :=
  FinshImage 0x1000 0x2000 [(0x3000, Sysvar (text "tick" ++ [0]) finsh_type_long 0x4000)]
    [(0x3100, Syscall (text "add" ++ [0]) 0x5000)].
Definition sum_call (f : Z) (l : list Z) : F Z := mret (foldr Z.add 0 l).
Definition sum_fcall (f : Z) (l : list Z) (m : gmap Z Z) : option (Z * gmap Z Z) := Some (foldr Z.add 0 l, m).
Definition cold : finsh :=
  Finsh [] [] [] [] 0 (zero_bytes ∅ 0x4000 4) 0 0 (Token false false 0 finsh_token_none 0 [] []) None
    (replicate 128 0) 0 (replicate 64 0) 0 0.
Definition state_of {A} (o : outcome finsh A) : finsh := match o with Done _ s => s | Fault _ => cold end.
(** The shell after its initialisation and some lines. *)
Fixpoint run_lines (l : list string) : F output :=
  match l with
  | [] => mret []
  | x :: l => o ← finsh_run_line sum_call 600 false (typed_line (text x)); o' ← run_lines l; mret (o ++ o')
  end.
Definition session (l : list string) : option output :=
  match (_ ← finsh_init; run_lines l) cold with Done o _ => Some o | Fault _ => None end.
Definition printed (v : Z) : list Z * list va := (value_format, [VInt v; VInt v]).

(** Declarations, expressions with precedences, assignments, increments and calls. *)
Example finsh_session :
  session ["int a = 5"; "a*200+1<<1"; "a++"; "--a"; "a = 1000"; "add(1,2,a)"; "tick = a; tick - 1"]%string
  = Some (map printed [5; 2002; 5; 5; 1000; 1003; 999]).
Proof. vm_compute. reflexivity. Qed.
(** Errors are reported by name, and the next line runs. *)
Definition reported (s : string) : list Z * list va := (text "%s" ++ [10], [VStr (Some (text s ++ [0]))]).
Example finsh_errors :
  session ["b"; "7 +"; "(1+2)*3"; "2"]%string
  = Some [reported "Unknown symbol"; reported "Invalid token"; reported "Null node"; printed 2].
Proof. vm_compute. reflexivity. Qed.

(** * The compiler and the machine *)

Lemma sum_call_ok : call_ok sum_call sum_fcall.
Proof. intros f args s r m' [= <- <-]. split; [by destruct s|done]. Qed.
Lemma sum_call_halts : call_halts sum_call.
Proof. intros f args s. unfold sum_call. by halts_step. Qed.

(** [int x]; then the line [x = 7 * 3; x + 1] in the node table. *)
Definition parsed : finsh :=
  state_of ((_ ← finsh_init; _ ← run_lines ["int x = 0"]%string;
             finsh_parser_run 600 (typed_line (text "x = 7 * 3; x + 1"))) cold).
Definition x_addr : Z := var_value (var_addr 0).
Definition parsed_tree : ast :=
  ANode LAssign (ANode (LVar finsh_type_int x_addr) ANil
                   (ANode (LBin Mul) (ANode (LLong 7) ANil (ANode (LLong 3) ANil ANil)) ANil))
    (ANode (LBin Add) (ANode (LVar finsh_type_int x_addr) ANil (ANode (LLong 1) ANil ANil)) ANil).
Definition parsed_nodes : list nat := [4; 0; 3; 1; 2; 7; 5; 6]%nat.

Lemma parsed_rep : rep false false parsed (f_nodes parsed) (f_root parsed) parsed_tree parsed_nodes.
Proof. apply (read_tree_rep 16). vm_compute. reflexivity. Qed.
Lemma parsed_nodup : NoDup parsed_nodes.
Proof. apply (bool_decide_unpack _). vm_compute. exact I. Qed.
Lemma parsed_program : program_at parsed (f_root parsed) parsed_tree [Dword; Dword].
Proof.
  exists parsed_nodes. split; [apply parsed_rep|]. split; [apply parsed_nodup|]. split; vm_compute; reflexivity.
Qed.
Lemma parsed_machine : machine_ok parsed.
Proof.
  assert (Forall (λ x, 0 ≤ x < 2 ^ 32) (f_stack parsed) ∧ map_Forall (λ _ b, 0 ≤ b < 2 ^ 8) (f_mem parsed)) as [H1 H2].
  { split; apply (bool_decide_unpack _); vm_compute; exact I. }
  split; [vm_compute; reflexivity|]. by split.
Qed.
Definition x_memory : gmap Z Z := default ∅ (mstore Dword x_addr 21 (f_mem parsed)).

Lemma finsh_program_correct_witness :
  ∃ x w s', compile_and_run sum_call (f_root parsed) parsed = Done x s' ∧ last [Dword; Dword] = Some w ∧
    value w x = 22 ∧ f_mem s' = x_memory ∧ machine_ok s' ∧ f_errno s' = f_errno parsed ∧ f_vars s' = f_vars parsed.
Proof.
  apply (finsh_program_correct sum_call sum_fcall parsed (f_root parsed) parsed_tree [Dword; Dword] 22 x_memory
    sum_call_ok parsed_machine parsed_program).
  - apply (Nat.leb_le _ _). vm_compute. reflexivity.
  - vm_compute. reflexivity.
Defined.
Lemma finsh_type_check_types_witness :
  ∃ ns, finsh_type_check FINSH_NODE_MAX (f_root parsed) FINSH_NODE_VALUE parsed = Done tt (set_f_nodes ns parsed) ∧
    rep true false parsed ns (f_root parsed) parsed_tree parsed_nodes ∧ length ns = FINSH_NODE_MAX ∧
    ∀ i, i ∉ parsed_nodes → ns !! i = f_nodes parsed !! i.
Proof.
  apply (finsh_type_check_types parsed (f_root parsed) parsed_tree [Dword; Dword] parsed_nodes parsed_rep parsed_nodup);
    vm_compute; reflexivity.
Defined.
Lemma finsh_compiler_run_bound_witness :
  (finsh_compiler_run (f_root parsed) parsed = Fault BadPointer ↔ (FINSH_TEXT_MAX < length (program_code parsed_tree))%nat) ∧
  ((length (program_code parsed_tree) ≤ FINSH_TEXT_MAX)%nat →
   ∃ s', finsh_compiler_run (f_root parsed) parsed = Done 0 s' ∧ f_errno s' = f_errno parsed ∧
     f_compile_pc s' = length (program_code parsed_tree) ∧
     f_text s' = program_code parsed_tree ++ replicate (FINSH_TEXT_MAX - length (program_code parsed_tree)) 0).
Proof. exact (finsh_compiler_run_bound parsed (f_root parsed) parsed_tree [Dword; Dword] parsed_program). Defined.
(** Five increments of a variable fit into the text segment, six do not. *)
Definition increments (n : nat) : ast :=
  Nat.iter n (λ t, ANode (LPost true) (ANode (LVar finsh_type_long x_addr) ANil ANil) t) ANil.
Example increments_size : (λ n, length (program_code (increments n))) <$> [1; 5; 6]%nat = [23; 119; 143]%nat.
Proof. reflexivity. Qed.
Lemma finsh_vm_run_halts_witness : finsh_vm_run sum_call parsed ≠ Fault OutOfFuel.
Proof. apply (finsh_vm_run_halts sum_call parsed). exact sum_call_halts. Defined.
Lemma finsh_parser_run_halts_witness :
  finsh_parser_run 600 (typed_line (text "a = (1 + "%string)) cold ≠ Fault OutOfFuel.
Proof.
  apply (finsh_parser_run_halts (text "a = (1 + "%string) 600 cold).
  - apply (bool_decide_unpack _). vm_compute. exact I.
  - apply (bool_decide_unpack _). vm_compute. exact I.
  - apply (Nat.leb_le _ _). vm_compute. reflexivity.
Defined.

(** * Variables *)

Definition blank : finsh := state_of (finsh_init cold).
Lemma finsh_var_insert_correct_witness :
  ∃ r s', finsh_var_insert (text "abc" ++ [0]) finsh_type_int blank = Done r s' ∧ vars_ok (f_vars s') ∧
    (∀ b, b ≠ text "abc" → b ≠ [] → name_index (f_vars s') b = name_index (f_vars blank) b) ∧
    (r = 0 ∧ finsh_var_lookup (text "abc" ++ [0]) s' = Done (Some (var_addr 0)) s' ∧
     var_type <$> (f_vars s' !! 0%nat) = Some finsh_type_int).
Proof.
  apply (finsh_var_insert_correct (text "abc" ++ [0]) (text "abc") finsh_type_int blank); try done.
  - split; vm_compute; repeat constructor; done.
  - vm_compute. repeat constructor; done.
Defined.

(** * The line editor *)

Definition empty_shell : finsh_shell :=
  Shell WAIT_NORMAL true 0 0 (replicate 5 (replicate 256 0)) (replicate 256 0) 0 0 [] [].
Definition empty_editor : editor := Editor [] [] [] 0.
Lemma empty_shell_rep : edit_rep WAIT_NORMAL empty_editor empty_shell.
Proof.
  constructor; try done.
  - split; [constructor|simpl; lia].
  - split_and!; [constructor|simpl; lia|simpl; lia].
  - by exists (replicate 5 (replicate 256 0)).
Qed.
(** [la], cursor to the left, [x] taken back, [b], enter; then the line again, and enter. *)
Definition typing : list (Z * option Z) :=
  (λ c, (c, None)) <$> (text "la" ++ [27; 91; 68] ++ text "x" ++ [8] ++ text "b" ++ [13] ++ [27; 91; 65; 13]).
Lemma finsh_editor_refines_witness :
  ∃ s', keys (text ">") true (λ l, l) typing empty_shell = Done tt s' ∧
    edit_rep WAIT_NORMAL (Editor [] [] [text "lba"; text "lba"] 2) s' ∧
    sh_run s' = sh_run empty_shell ++ ([text "lba"; text "lba"] ≫= run_line true).
Proof.
  apply (finsh_editor_refines (text ">") true (λ l, l) (λ l, l) WAIT_NORMAL empty_editor empty_shell typing).
  - by intros t Ht.
  - exact empty_shell_rep.
  - vm_compute. reflexivity.
Defined.
Definition full_editor : editor := Editor (replicate 100 97) (replicate 155 97) [] 0.
Definition full_shell : finsh_shell :=
  Shell WAIT_NORMAL true 0 0 (replicate 5 (replicate 256 0)) (replicate 255 97 ++ [0]) 255 100 [] [].
Lemma finsh_line_wraps_witness :
  ∃ s', char_key 98 full_shell = Done tt s' ∧ sh_line_position s' = 0 ∧
    sh_line_curpos s' = Z.of_nat (S (length (e_before full_editor))) ∧ sh_line_position s' < sh_line_curpos s'.
Proof.
  apply (finsh_line_wraps WAIT_NORMAL full_editor full_shell 98); [|reflexivity|discriminate].
  constructor; try reflexivity.
  - split; [apply (bool_decide_unpack _); vm_compute; exact I|apply (Nat.leb_le _ _); vm_compute; reflexivity].
  - split_and!; [constructor|simpl; lia|simpl; lia].
  - by exists (replicate 5 (replicate 256 0)).
Defined.
Lemma msh_split_correct_witness :
  msh_split 10 (text "ls  /dev x" ++ [0]) = Done [0; 4; 9]%nat (text "ls" ++ [0; 0] ++ text "/dev" ++ [0] ++ text "x" ++ [0]).
Proof.
  apply (msh_split_correct (text "ls  /dev x") [0]); [|discriminate]. apply (bool_decide_unpack _). vm_compute. exact I.
Defined.
