(* ===== verification/DfsState.v ===== *)
(** The device file system, [components/dfs]: its tables ([dfs.h], [dfs_def.h], [dfs_fs.h]),
    the heap its paths live on, and the operations file systems bring along.

    The strings the code allocates are blocks of the heap [v_heap]: an access behind the end
    of a block, to a block that was freed, or a second [rt_free] is the fault [BadPointer].
    A string that is passed in is the list of the bytes from the pointer on. *)

From stdpp Require Import base gmap list.
From Stdlib Require Import ZArith Lia.
From S2P Require Import Prelude Kservice Printf Halts.

Open Scope Z_scope.

(** * Constants *)

Definition DFS_PATH_MAX : nat := 256.
Definition DFS_FILESYSTEM_TYPES_MAX : nat := 4.
Definition DFS_FILESYSTEMS_MAX : nat := 4.
Definition DFS_FD_MAX : Z := 4.
Definition DFS_FD_MAGIC : Z := 0xfdfd.
Definition DFS_F_OPEN : Z := 0x01000000.
Definition DFS_F_DIRECTORY : Z := 0x02000000.
Definition DFS_F_EOF : Z := 0x04000000.
Definition DFS_FS_FLAG_FULLPATH : Z := 0x01.
Definition FT_REGULAR : Z := 0.
Definition FT_DIRECTORY : Z := 2.
Definition DFS_STATUS_OK : Z := 0.

(** The C library of the tool chain defines the error numbers, the flags of [open], the
    origins of [lseek] and the bits of a file mode. *)
Class libc := Libc {
  ENOENT : Z; EIO : Z; ENXIO : Z; EBADF : Z; ENOMEM : Z; EBUSY : Z; EEXIST : Z; EXDEV : Z;
  ENODEV : Z; ENOTDIR : Z; EINVAL : Z; ENOSPC : Z; ENOSYS : Z;
  O_RDONLY : Z; O_WRONLY : Z; O_RDWR : Z; O_CREAT : Z; O_TRUNC : Z; O_APPEND : Z; O_DIRECTORY : Z;
  SEEK_SET : Z; SEEK_CUR : Z; SEEK_END : Z;
  S_IFMT : Z; S_IFREG : Z; S_IFDIR : Z; S_IFCHR : Z; S_IFBLK : Z; S_IRWALL : Z; S_IXALL : Z
}.
(** What the code relies on: the error numbers are positive, [O_DIRECTORY] is one of the bits of an [int]. *)
Class libc_ok (l : libc) : Prop := {
  errnos_pos : Forall (λ e, 0 < e) [ENOENT; EIO; ENXIO; EBADF; ENOMEM; EBUSY; EEXIST; EXDEV;
                                    ENODEV; ENOTDIR; EINVAL; ENOSPC; ENOSYS];
  o_directory_fits : 0 < O_DIRECTORY < 2 ^ 32
}.

(** * Data *)

Record stat := Stat { st_dev : Z; st_mode : Z; st_size : Z; st_mtime : Z }.
Record statfs := Statfs { f_bsize : Z; f_blocks : Z; f_bfree : Z }.
Record dirent := Dirent { d_type : Z; d_namlen : Z; d_reclen : Z; d_name : list Z }.
Definition DT_REG : Z := 0x01.
Definition DT_DIR : Z := 0x02.
Definition sizeof_dirent : Z := 260.

(** A directory stream ([DIR]); [buf] holds the entries of the last [getdents]. *)
Record dir := Dir { dir_fd : Z; dir_buf : list dirent; dir_num : Z; dir_cur : Z }.
Definition sizeof_DIR : Z := 524.
Definition sizeof_dir_buf : Z := 512.

(** [path] points to the heap, [fs] is an index of [filesystem_table], [data] belongs to the
    file system. *)
Record dfs_fd := Fd {
  fd_magic : Z; fd_type : Z; fd_path : Z; fd_ref_count : Z; fd_fs : option nat;
  fd_flags : Z; fd_size : Z; fd_pos : Z; fd_data : Z
}.
Definition zero_fd : dfs_fd := Fd 0 0 0 0 None 0 0 0 0.
Definition set_fd_magic (v : Z) (d : dfs_fd) : dfs_fd :=
  let '(Fd _ t p r f g z o x) := d in Fd v t p r f g z o x.
Definition set_fd_type (v : Z) (d : dfs_fd) : dfs_fd :=
  let '(Fd m _ p r f g z o x) := d in Fd m v p r f g z o x.
Definition set_fd_path (v : Z) (d : dfs_fd) : dfs_fd :=
  let '(Fd m t _ r f g z o x) := d in Fd m t v r f g z o x.
Definition set_fd_ref_count (v : Z) (d : dfs_fd) : dfs_fd :=
  let '(Fd m t p _ f g z o x) := d in Fd m t p v f g z o x.
Definition set_fd_fs (v : option nat) (d : dfs_fd) : dfs_fd :=
  let '(Fd m t p r _ g z o x) := d in Fd m t p r v g z o x.
Definition set_fd_flags (v : Z) (d : dfs_fd) : dfs_fd :=
  let '(Fd m t p r f _ z o x) := d in Fd m t p r f v z o x.
Definition set_fd_size (v : Z) (d : dfs_fd) : dfs_fd :=
  let '(Fd m t p r f g _ o x) := d in Fd m t p r f g v o x.
Definition set_fd_pos (v : Z) (d : dfs_fd) : dfs_fd :=
  let '(Fd m t p r f g z _ x) := d in Fd m t p r f g z v x.
Definition set_fd_data (v : Z) (d : dfs_fd) : dfs_fd :=
  let '(Fd m t p r f g z o _) := d in Fd m t p r f g z o v.

(** A mounted file system: its device, the path (on the heap), the address of its operations
    and its own data; an entry that is not in use is zero. *)
Record dfs_filesystem := Filesystem { fs_dev_id : Z; fs_path : Z; fs_ops : Z; fs_data : Z }.
Definition zero_fs : dfs_filesystem := Filesystem 0 0 0 0.

(** The tables, the file descriptors by their addresses ([fd_table] is at 0 to 3, the static
    [fd] of [dfs_file.c] at 4, local variables behind them), the working directory, how often
    the calling thread holds [fslock], its error number, the heap, the directory streams on it
    by their addresses, the number of allocations so far, the console, and the state [X] of the file systems and devices. *)
Record dfs (X : Type) := Dfs {
  v_ops : list Z; v_fs : list dfs_filesystem; v_fds : gmap Z dfs_fd; v_cwd : list Z;
  v_lock : Z; v_errno : Z; v_heap : gmap Z (list Z); v_dirs : gmap Z dir; v_calls : nat;
  v_out : list (list Z * list va); v_data : X
}.
Arguments Dfs {_} _ _ _ _ _ _ _ _ _ _ _.
Arguments v_ops {_} _. Arguments v_fs {_} _. Arguments v_fds {_} _. Arguments v_cwd {_} _.
Arguments v_lock {_} _. Arguments v_errno {_} _. Arguments v_heap {_} _. Arguments v_dirs {_} _. Arguments v_calls {_} _.
Arguments v_out {_} _. Arguments v_data {_} _.

Section setters.
Context {X : Type}.
Implicit Types s : dfs X.
Definition set_v_ops v s := Dfs v (v_fs s) (v_fds s) (v_cwd s) (v_lock s) (v_errno s) (v_heap s) (v_dirs s) (v_calls s) (v_out s) (v_data s).
Definition set_v_fs v s := Dfs (v_ops s) v (v_fds s) (v_cwd s) (v_lock s) (v_errno s) (v_heap s) (v_dirs s) (v_calls s) (v_out s) (v_data s).
Definition set_v_fds v s := Dfs (v_ops s) (v_fs s) v (v_cwd s) (v_lock s) (v_errno s) (v_heap s) (v_dirs s) (v_calls s) (v_out s) (v_data s).
Definition set_v_cwd v s := Dfs (v_ops s) (v_fs s) (v_fds s) v (v_lock s) (v_errno s) (v_heap s) (v_dirs s) (v_calls s) (v_out s) (v_data s).
Definition set_v_lock v s := Dfs (v_ops s) (v_fs s) (v_fds s) (v_cwd s) v (v_errno s) (v_heap s) (v_dirs s) (v_calls s) (v_out s) (v_data s).
Definition set_v_errno v s := Dfs (v_ops s) (v_fs s) (v_fds s) (v_cwd s) (v_lock s) v (v_heap s) (v_dirs s) (v_calls s) (v_out s) (v_data s).
Definition set_v_heap v s := Dfs (v_ops s) (v_fs s) (v_fds s) (v_cwd s) (v_lock s) (v_errno s) v (v_dirs s) (v_calls s) (v_out s) (v_data s).
Definition set_v_dirs v s := Dfs (v_ops s) (v_fs s) (v_fds s) (v_cwd s) (v_lock s) (v_errno s) (v_heap s) v (v_calls s) (v_out s) (v_data s).
Definition set_v_calls v s := Dfs (v_ops s) (v_fs s) (v_fds s) (v_cwd s) (v_lock s) (v_errno s) (v_heap s) (v_dirs s) v (v_out s) (v_data s).
Definition set_v_out v s := Dfs (v_ops s) (v_fs s) (v_fds s) (v_cwd s) (v_lock s) (v_errno s) (v_heap s) (v_dirs s) (v_calls s) v (v_data s).
Definition set_v_data (v : X) s := Dfs (v_ops s) (v_fs s) (v_fds s) (v_cwd s) (v_lock s) (v_errno s) (v_heap s) (v_dirs s) (v_calls s) (v_out s) v.
End setters.

Abbreviation D X := (SM (dfs X)).

(** * File systems, devices and the allocator *)

(** [struct dfs_filesystem_operation]; [None] is a null pointer.  A mounted file system is
    passed by its index, a descriptor by its address; data that is stored through a pointer
    of the caller is part of the result. *)
Record dfs_filesystem_operation (X : Type) := Operations {
  op_name : list Z;
  op_flags : Z;
  op_mount : option (nat → Z → Z → D X Z);
  op_unmount : option (nat → D X Z);
  op_mkfs : option (Z → D X Z);
  op_statfs : option (nat → D X (Z * statfs));
  op_open : option (Z → D X Z);
  op_close : option (Z → D X Z);
  op_ioctl : option (Z → Z → Z → D X Z);
  op_read : option (Z → Z → D X (Z * list Z));
  op_write : option (Z → list Z → D X Z);
  op_flush : option (Z → D X Z);
  op_lseek : option (Z → Z → D X Z);
  op_getdents : option (Z → Z → D X (Z * list dirent));
  op_unlink : option (nat → list Z → D X Z);
  op_stat : option (nat → list Z → D X (Z * stat));
  op_rename : option (nat → option (list Z) → option (list Z) → D X Z)
}.
Arguments op_name {_} _. Arguments op_flags {_} _. Arguments op_mount {_} _. Arguments op_unmount {_} _.
Arguments op_mkfs {_} _. Arguments op_statfs {_} _. Arguments op_open {_} _. Arguments op_close {_} _.
Arguments op_ioctl {_} _. Arguments op_read {_} _. Arguments op_write {_} _. Arguments op_flush {_} _.
Arguments op_lseek {_} _. Arguments op_getdents {_} _. Arguments op_unlink {_} _. Arguments op_stat {_} _.
Arguments op_rename {_} _.

(** The operations at an address, and what the device framework offers (a null pointer is 0). *)
Class fs_types (X : Type) := { fs_type : Z → option (dfs_filesystem_operation X) }.
Class device_calls (X : Type) := {
  device_find : list Z → D X Z;
  device_open : Z → Z → D X Z;
  device_close : Z → D X Z
}.

(** The allocator: the place of a new block and what the memory there holds, as a function of
    the number of calls so far, the blocks in use and the size; it can run out of memory at
    any call. *)
Class allocator := { place : nat → gmap Z (list Z) → Z → option (Z * list Z) }.
(** Its blocks are new, have the size asked for and lie in the address space. *)
Class allocator_ok (m : allocator) : Prop := {
  place_ok n h size p b : place n h size = Some (p, b) →
    0 < p ∧ p + size < 2 ^ 32 ∧ h !! p = None ∧ Z.of_nat (length b) = size
}.

(** * Access to the state *)

Section access.
Context {X : Type} `{!allocator}.

Definition getv {A} (f : dfs X → A) : D X A := s ← get; mret (f s).
Definition rt_set_errno (e : Z) : D X unit := modify (set_v_errno e).
Definition kprintf (fmt : list Z) (args : list va) : D X unit := modify (λ s, set_v_out (v_out s ++ [(fmt, args)]) s).

Definition get_fd (a : Z) : D X dfs_fd := m ← getv v_fds; of_option BadPointer (m !! a).
Definition put_fd (a : Z) (d : dfs_fd) : D X unit := modify (λ s, set_v_fds (<[a := d]> (v_fds s)) s).
Definition upd_fd (a : Z) (f : dfs_fd → dfs_fd) : D X unit := d ← get_fd a; put_fd a (f d).
(** A descriptor that is a local variable of [body]; its fields are not initialised. *)
Definition local_fd {A} (junk : dfs_fd) (body : Z → D X A) : D X A :=
  m ← getv v_fds;
  let a := Z.of_nat (size m) in
  put_fd a junk;;
  r ← body a;
  modify (λ s, set_v_fds (delete a (v_fds s)) s);;
  mret r.

Definition get_fs (i : nat) : D X dfs_filesystem := l ← getv v_fs; of_option BadPointer (l !! i).
Definition put_fs (i : nat) (f : dfs_filesystem) : D X unit := modify (λ s, set_v_fs (<[i := f]> (v_fs s)) s).
Definition set_fs_data (i : nat) (v : Z) : D X unit :=
  f ← get_fs i; put_fs i (Filesystem (fs_dev_id f) (fs_path f) (fs_ops f) v).
(** The operations of a mounted file system, [fs->ops]. *)
Definition get_ops `{!fs_types X} (a : Z) : D X (dfs_filesystem_operation X) :=
  if a =? 0 then fail BadPointer else of_option BadPointer (fs_type a).
Definition ops_of `{!fs_types X} (i : nat) : D X (dfs_filesystem_operation X) := f ← get_fs i; get_ops (fs_ops f).

(** The state of the file systems. *)
Definition on_data {A} (m : SM X A) : D X A := λ s,
  match m (v_data s) with Done a x => Done a (set_v_data x s) | Fault e => Fault e end.

(** The heap: the contents of a block, and code that works on one. *)
Definition block (p : Z) : D X (list Z) := h ← getv v_heap; of_option BadPointer (h !! p).
Definition on_block {A} (p : Z) (m : L A) : D X A :=
  b ← block p;
  match m b with
  | Done a b => modify (λ s, set_v_heap (<[p := b]> (v_heap s)) s);; mret a
  | Fault e => fail e
  end.
Definition rt_malloc (size : Z) : D X Z :=
  n ← getv v_calls;
  h ← getv v_heap;
  modify (set_v_calls (S n));;
  match place n h (u32 size) with
  | Some (p, b) => modify (set_v_heap (<[p := b]> h));; mret p
  | None => mret 0
  end.
Definition rt_free (p : Z) : D X unit :=
  if p =? 0 then mret tt
  else _ ← block p; modify (λ s, set_v_heap (delete p (v_heap s)) s).
Definition rt_strdup (s : list Z) : D X Z :=
  n ← of_option BadPointer (rt_strlen s);
  tmp ← rt_malloc (n + 1);
  if tmp =? 0 then mret 0
  else on_block tmp (b ← get; modify (λ _, list_inserts 0 (take (Z.to_nat (n + 1)) s) b));; mret tmp.

(** [strlen], and whether [strcmp] and [strncmp] give 0. *)
Definition strlen (s : list Z) : D X Z := of_option BadPointer (rt_strlen s).
Definition str_eq (a b : list Z) : D X bool := r ← of_option BadPointer (rt_strcmp a b); mret (r =? 0).
Definition strn_eq (a b : list Z) (n : Z) : D X bool :=
  r ← of_option BadPointer (rt_strncmp a b (Z.to_nat n)); mret (r =? 0).
(** The character at an offset. *)
Definition nth_char (s : list Z) (i : nat) : D X Z := of_option BadPointer (s !! i).
End access.
