(* ===== verification/DfsPath.v ===== *)
(** Paths of the device file system ([dfs_subdir] and [dfs_normalize_path] of [dfs.c]).

    A path is normalised in place in the block that holds it: [src] reads ahead of [dst]. *)

From stdpp Require Import base gmap list strings.
From Stdlib Require Import ZArith Lia Ascii.
From S2P Require Import Prelude Kservice Printf PrintfCorrect Halts DfsState.

Open Scope Z_scope.

(** * The loops on the block *)

Definition SLASH : Z := 47.
Definition DOT : Z := 46.

(** [while ( *src == '/') src ++] *)
Fixpoint skip_slashes (fuel : nat) (src : nat) : L nat :=
  c ← char_at src;
  if c =? SLASH then
    match fuel with O => fail OutOfFuel | S fuel => skip_slashes fuel (S src) end
  else mret src.
(** [while ((c = *src++) != '\0' && c != '/') *dst ++ = c;] *)
Fixpoint copy_name (fuel : nat) (src dst : nat) : L (Z * nat * nat) :=
  c ← char_at src;
  if negb (c =? 0) && negb (c =? SLASH) then
    match fuel with
    | O => fail OutOfFuel
    | S fuel => set_char dst c;; copy_name fuel (S src) (S dst)
    end
  else mret (c, S src, dst).
(** [while (dst0 < dst && dst[-1] != '/') dst --;] *)
Fixpoint back_name (dst : nat) : L nat :=
  match dst with
  | O => mret O
  | S d => c ← char_at d; if c =? SLASH then mret dst else back_name d
  end.

(** What begins at [src]: the name [.] or [..] with the slashes behind it, as the place where
    the reading goes on, or another name. *)
Inductive name_kind := Here (src : nat) | Up (src : nat) | Name (src : nat).
Definition classify (fuel : nat) (src : nat) : L name_kind :=
  c ← char_at src;
  if c =? DOT then
    c1 ← char_at (S src);
    if c1 =? 0 then mret (Name (S src))
    else if c1 =? SLASH then src ← skip_slashes fuel (S (S src)); mret (Here src)
    else if c1 =? DOT then
      c2 ← char_at (S (S src));
      if c2 =? 0 then mret (Up (S (S src)))
      else if c2 =? SLASH then src ← skip_slashes fuel (S (S (S src))); mret (Up src)
      else mret (Name src)
    else mret (Name src)
  else mret (Name src).

(** The loop; the result is [dst] at its end, [None] when a path goes up too far. *)
Fixpoint normalize_loop (fuel : nat) (src dst : nat) : L (option nat) :=
  match fuel with
  | O => fail OutOfFuel
  | S fuel =>
    l ← get;
    k ← classify (length l) src;
    match k with
    | Here src => normalize_loop fuel src dst
    | Up src =>
      match dst with
      | O => mret None
      | S d => dst ← back_name d; normalize_loop fuel src dst
      end
    | Name src =>
      '(c, src, dst) ← copy_name (length l) src dst;
      if c =? SLASH then
        set_char dst SLASH;;
        src ← skip_slashes (length l) src;
        normalize_loop fuel src (S dst)
      else mret (Some dst)
    end
  end.
(** The zero at the end, and the slash before it. *)
Definition end_path (dst : nat) : L unit :=
  set_char dst 0;;
  match dst with
  | O => fail BadPointer
  | S d =>
    c ← char_at d;
    if negb (d =? 0)%nat && (c =? SLASH) then set_char d 0 else mret tt
  end.
(** [false] is the way out through [rt_free(fullpath)]. *)
Definition normalize_in_place : L bool :=
  l ← get;
  r ← normalize_loop (S (length l)) 0 0;
  match r with
  | None => mret false
  | Some dst => end_path dst;; mret true
  end.

(** * The functions *)

Section path.
Context {X : Type} `{!allocator}.

(** The place in [filename] below [directory]. *)
Definition dfs_subdir (directory filename : list Z) : D X (option (list Z)) :=
  n ← strlen directory;
  m ← strlen filename;
  if n =? m then mret None
  else
    c ← nth_char filename (Z.to_nat n);
    mret (Some (drop (Z.to_nat (if negb (c =? SLASH) && negb (n =? 0) then n - 1 else n)) filename)).

(** [rt_snprintf] into a block of the heap. *)
Definition snprintf (p size : Z) (fmt : list Z) (args : list va) : D X unit :=
  on_block p (λ b, match rt_snprintf p size b fmt args with Done _ st => Done tt (w_mem st) | Fault e => Fault e end).

Definition dfs_normalize_path (directory : option (list Z)) (filename : list Z) : D X Z :=
  cwd ← getv v_cwd;
  let directory := default cwd directory in
  c ← nth_char filename 0;
  fullpath ←
    (if negb (c =? SLASH) then
       n ← strlen directory;
       m ← strlen filename;
       p ← rt_malloc (n + m + 2);
       (if p =? 0 then mret tt
        else snprintf p (n + m + 2) (text "%s/%s" ++ [0]) [VStr (Some directory); VStr (Some filename)]);;
       mret p
     else rt_strdup filename);
  if fullpath =? 0 then mret 0
  else
    ok ← on_block fullpath normalize_in_place;
    if (ok : bool) then mret fullpath else rt_free fullpath;; mret 0.
End path.

(** What the normalisation of a path computes: its names are visited from left to right, [.]
    stays, [..] takes the last name away. *)

(** * Specification *)

(** The names between the slashes of a path. *)
Fixpoint split_path (l : list Z) : list (list Z) :=
  match l with
  | [] => [[]]
  | c :: l =>
    if c =? SLASH then [] :: split_path l
    else match split_path l with w :: ws => (c :: w) :: ws | [] => [] end
  end.

(** Where a walk is: below the root ([true]) or nowhere ([false]), at a path whose last name
    is first.  [..] at the root leaves it; there is nothing above nowhere. *)
Definition walk : Type := bool * list (list Z).
Definition visit (w : list Z) (k : walk) : option walk :=
  if bool_decide (w = [] ∨ w = [DOT]) then Some k
  else if bool_decide (w = [DOT; DOT]) then
    match k with
    | (r, _ :: s) => Some (r, s)
    | (true, []) => Some (false, [])
    | (false, []) => None
    end
  else Some (k.1, w :: k.2).
Fixpoint resolve (ws : list (list Z)) (k : walk) : option walk :=
  match ws with [] => Some k | w :: ws => k ← visit w k; resolve ws k end.
Definition starts_slash (l : list Z) : bool := match l with c :: _ => c =? SLASH | [] => false end.
Definition normal (path : list Z) : option walk := resolve (split_path path) (starts_slash path, []).

(** The text of a walk, with a slash behind each name, and without the last one. *)
Definition walk_text (k : walk) : list Z :=
  (if k.1 then [SLASH] else []) ++ concat ((λ w, w ++ [SLASH]) <$> reverse k.2).
Definition path_text (k : walk) : list Z :=
  match k.2 with
  | [] => if k.1 then [SLASH] else []
  | w :: s => walk_text (k.1, s) ++ w
  end.

(** Characters of a path, and of a name in it. *)
Definition path_chars (l : list Z) : Prop := 0 ∉ l.
Definition name_chars (w : list Z) : Prop := (0 ∉ w) ∧ (SLASH ∉ w).
Definition walk_ok (k : walk) : Prop := Forall (λ w, name_chars w ∧ w ≠ []) k.2.

(** * Facts about paths *)

Lemma split_name w q : SLASH ∉ w → split_path (w ++ SLASH :: q) = w :: split_path q.
Proof.
  induction w as [|c w IH]; intros Hw; [done|]. apply not_elem_of_cons in Hw as [Hc Hw].
  simpl. rewrite IH by done. by rewrite (proj2 (Z.eqb_neq c SLASH)) by congruence.
Qed.
Lemma split_last w : SLASH ∉ w → split_path w = [w].
Proof.
  induction w as [|c w IH]; intros Hw; [done|]. apply not_elem_of_cons in Hw as [Hc Hw].
  simpl. rewrite IH by done. by rewrite (proj2 (Z.eqb_neq c SLASH)) by congruence.
Qed.
Lemma resolve_slashes n q k : resolve (split_path (replicate n SLASH ++ q)) k = resolve (split_path q) k.
Proof. by induction n as [|n IH]. Qed.
Lemma walk_text_cons r w s : walk_text (r, w :: s) = walk_text (r, s) ++ w ++ [SLASH].
Proof.
  unfold walk_text. simpl. rewrite reverse_cons, fmap_app, concat_app, <- !app_assoc. simpl. by rewrite app_nil_r.
Qed.
(** A text of a walk is empty or ends with a slash. *)
Lemma walk_text_end k : walk_text k = [] ∨ ∃ t, walk_text k = t ++ [SLASH].
Proof.
  destruct k as [r [|w s]].
  - destruct r; [right; by exists []|by left].
  - right. exists (walk_text (r, s) ++ w). rewrite walk_text_cons. by rewrite app_assoc.
Qed.
Lemma visit_ok w k k' : name_chars w → walk_ok k → visit w k = Some k' → walk_ok k'.
Proof.
  intros Hw Hk. unfold visit. case_bool_decide as H1; [by intros [= <-]|]. case_bool_decide as H2.
  - destruct k as [[] [|x s]]; intros [= <-]; unfold walk_ok in *; simpl in *; auto; by inversion Hk.
  - intros [= <-]. constructor; [|done]. split; [done|]. intros ->. apply H1. by left.
Qed.
Lemma names_chars l : path_chars l → Forall name_chars (split_path l).
Proof.
  induction l as [|c l IH]; intros Hl.
  { constructor; [split; apply not_elem_of_nil|constructor]. }
  apply not_elem_of_cons in Hl as [Hc Hl]. simpl. destruct (Z.eqb_spec c SLASH) as [->|Hs].
  - constructor; [split; apply not_elem_of_nil|by apply IH].
  - specialize (IH Hl). destruct (split_path l) as [|w ws]; [constructor|]. inversion IH as [|? ? [H0 H1]]; subst.
    constructor; [|done]. split; apply not_elem_of_cons; split; congruence.
Qed.
Lemma resolve_ok ws k k' : Forall name_chars ws → walk_ok k → resolve ws k = Some k' → walk_ok k'.
Proof.
  intros Hws. revert k. induction Hws as [|w ws Hw _ IH]; intros k Hk; simpl; [by intros [= <-]|].
  destruct (visit w k) as [k1|] eqn:E; [|done]. simpl. intros H. by eapply IH, H; eapply visit_ok.
Qed.
(** The first name of a path and what follows it. *)
Lemma first_name p :
  ∃ w n q, p = w ++ replicate n SLASH ++ q ∧ (SLASH ∉ w) ∧ starts_slash q = false ∧ (n = 0%nat → q = []).
Proof.
  destruct (span (λ c, negb (c =? SLASH)) p) as (w & r & -> & Hw & Hr).
  assert (SLASH ∉ w) as Hws.
  { intros Hin. by eapply Forall_forall in Hw; [|exact Hin]. }
  destruct (span (λ c, c =? SLASH) r) as (sl & q & -> & Hsl & Hq).
  assert (Hrep : sl = replicate (length sl) SLASH).
  { clear -Hsl. induction Hsl as [|c sl Hc _ IH]; [done|]. apply Z.eqb_eq in Hc as ->. simpl. by f_equal. }
  exists w, (length sl), q. split_and!; [by rewrite <- Hrep|done|by destruct q|].
  intros Hn. apply nil_length_inv in Hn as ->. destruct q as [|c q]; [done|]. simpl in Hr, Hq. by rewrite Hq in Hr.
Qed.
Lemma resolve_first w n q k : SLASH ∉ w → (n = 0%nat → q = []) →
  resolve (split_path (w ++ replicate n SLASH ++ q)) k =
  (k' ← visit w k; if (n =? 0)%nat then Some k' else resolve (split_path q) k').
Proof.
  intros Hw Hq. destruct n as [|n].
  - rewrite (Hq eq_refl). simpl. rewrite app_nil_r, split_last by done. simpl. by destruct (visit w k).
  - simpl. rewrite split_name by done. simpl. destruct (visit w k); [|done]. simpl. apply resolve_slashes.
Qed.

(** A path that was normalised has none of the names that were taken out; its text is its own
    normal form. *)
Definition clean (k : walk) : Prop := Forall (λ w, w ≠ [] ∧ w ≠ [DOT] ∧ w ≠ [DOT; DOT]) k.2.
Lemma visit_clean w k k' : clean k → visit w k = Some k' → clean k'.
Proof.
  intros Hk. unfold visit. case_bool_decide as H1; [by intros [= <-]|]. case_bool_decide as H2.
  - destruct k as [[] [|x s]]; intros [= <-]; unfold clean in *; simpl in *; auto; by inversion Hk.
  - intros [= <-]. constructor; [|done]. naive_solver.
Qed.
Lemma resolve_clean ws k k' : clean k → resolve ws k = Some k' → clean k'.
Proof.
  revert k. induction ws as [|w ws IH]; intros k Hk; simpl; [by intros [= <-]|].
  destruct (visit w k) as [k1|] eqn:E; [|done]. simpl. intros H. by eapply IH, H; eapply visit_clean.
Qed.
Lemma resolve_app ws ws' k : resolve (ws ++ ws') k = (k' ← resolve ws k; resolve ws' k').
Proof.
  revert k. induction ws as [|w ws IH]; intros k; [done|]. simpl. destruct (visit w k); [|done]. simpl. apply IH.
Qed.
Lemma split_walk_text s q : Forall (λ w, SLASH ∉ w) s →
  split_path (walk_text (true, s) ++ q) = [] :: reverse s ++ split_path q.
Proof.
  intros Hs. unfold walk_text. simpl. f_equal. assert (Forall (λ w, SLASH ∉ w) (reverse s)) as Hr.
  { by apply Forall_reverse. }
  clear Hs. induction Hr as [|w s' Hw _ IH]; [done|]. simpl. rewrite <- !app_assoc. simpl. rewrite split_name by done. by f_equal.
Qed.
Lemma resolve_names ws r s : Forall (λ w, w ≠ [] ∧ w ≠ [DOT] ∧ w ≠ [DOT; DOT]) ws →
  resolve ws (r, s) = Some (r, reverse ws ++ s).
Proof.
  intros Hws. revert s. induction Hws as [|w ws (H1 & H2 & H3) _ IH]; intros s; [done|]. simpl. unfold visit.
  rewrite !bool_decide_eq_false_2 by naive_solver. simpl. rewrite IH, reverse_cons, <- app_assoc. done.
Qed.
Lemma normal_text k : walk_ok k → clean k → k.1 = true → normal (path_text k) = Some k.
Proof.
  destruct k as [r [|w s]]; intros Hk Hc Hr; simpl in Hr; subst r; [done|].
  inversion Hk as [|? ? [[_ Hw] _] Hs]; subst. inversion Hc as [|? ? Hcw Hcs]; subst. simpl in Hs, Hcs.
  unfold normal, path_text. cbn [fst snd]. assert (Forall (λ w, SLASH ∉ w) s) as Hs'.
  { eapply Forall_impl; [exact Hs|]. intros x [[_ Hx] _]. exact Hx. }
  rewrite split_walk_text, split_last by done. change (starts_slash (walk_text (true, s) ++ w)) with true.
  cbn [resolve]. change (visit [] (true, [])) with (Some (true, [] : list (list Z))). cbn [mbind option_bind].
  rewrite resolve_app, resolve_names by (by apply Forall_reverse). rewrite reverse_involutive, app_nil_r. cbn [mbind option_bind].
  rewrite resolve_names by (constructor; [done|constructor]). done.
Qed.

(** * The loops *)

(** The block [b] while it is rewritten: [T] stands before [dst], [R] is still to be read. *)
Record cursor (b : list Z) (src dst : nat) (T R : list Z) : Prop := Cursor {
  cur_done : take dst b = T;
  cur_rest : drop src b = R;
  cur_le : (dst ≤ src)%nat;
  cur_len : length T = dst
}.
Lemma cur_char b src dst T c R : cursor b src dst T (c :: R) → b !! src = Some c.
Proof. intros [_ H _ _]. rewrite <- (Nat.add_0_r src), <- lookup_drop, H. done. Qed.
Lemma cur_skip b src dst T c R : cursor b src dst T (c :: R) → cursor b (S src) dst T R.
Proof.
  intros [H1 H2 H3 H4]. split; [done| |lia|done]. replace (S src) with (src + 1)%nat by lia.
  by rewrite <- drop_drop, H2.
Qed.
Lemma cur_skips b src dst T l R : cursor b src dst T (l ++ R) → cursor b (src + length l) dst T R.
Proof.
  revert src. induction l as [|c l IH]; intros src H; simpl; [by rewrite Nat.add_0_r|].
  apply cur_skip, IH in H. by replace (src + S (length l))%nat with (S src + length l)%nat by lia.
Qed.
Lemma cur_write b src dst T c x R :
  cursor b src dst T (x :: R) → cursor (<[dst := c]> b) (S src) (S dst) (T ++ [c]) R.
Proof.
  intros H. pose proof (lookup_lt_Some _ _ _ (cur_char _ _ _ _ _ _ H)) as Hlt. pose proof (cur_skip _ _ _ _ _ _ H) as [_ HR _ _].
  destruct H as [H1 H2 H3 H4]. split.
  - rewrite (take_S_r _ _ c) by (rewrite list_lookup_insert_eq by lia; done). by rewrite take_insert_ge, H1 by lia.
  - by rewrite drop_insert_lt by lia.
  - lia.
  - rewrite length_app. simpl. lia.
Qed.
Lemma cur_back b src dst T U R : cursor b src dst (T ++ U) R → cursor b src (length T) T R.
Proof.
  intros [H1 H2 H3 H4]. rewrite length_app in H4. split; [|done|lia|done].
  transitivity (take (length T) (take dst b)); [rewrite take_take; f_equal; lia|rewrite H1; apply take_app_length].
Qed.

Lemma skip_slashes_spec b n fuel src dst T R :
  cursor b src dst T (replicate n SLASH ++ R) → starts_slash R = false → R ≠ [] → (n ≤ fuel)%nat →
  skip_slashes fuel src b = Done (src + n)%nat b.
Proof.
  revert fuel src. induction n as [|n IH]; intros fuel src H HR Hne Hf.
  - destruct R as [|c R]; [done|]. simpl in HR, H. destruct fuel; cbn [skip_slashes];
      erewrite bind_done by (by eapply char_at_spec, cur_char); rewrite HR, Nat.add_0_r; done.
  - destruct fuel as [|fuel]; [lia|]. cbn [skip_slashes]. simpl in H.
    erewrite bind_done by (by eapply char_at_spec, cur_char). rewrite Z.eqb_refl.
    erewrite IH; [f_equal; lia|by eapply cur_skip|done|done|lia].
Qed.
Lemma copy_name_spec w b fuel src dst T c R :
  cursor b src dst T (w ++ c :: R) → name_chars w → c = 0 ∨ c = SLASH → (length w ≤ fuel)%nat →
  ∃ b', copy_name fuel src dst b = Done (c, S (src + length w), dst + length w)%nat b' ∧
    cursor b' (src + length w) (dst + length w) (T ++ w) (c :: R) ∧ length b' = length b.
Proof.
  revert b fuel src dst T. induction w as [|x w IH]; intros b fuel src dst T H [H0 Hs] Hc Hf.
  - exists b. simpl in *. rewrite !Nat.add_0_r, app_nil_r. split; [|done].
    destruct fuel; cbn [copy_name]; erewrite bind_done by (by eapply char_at_spec, cur_char);
      by destruct Hc as [-> | ->].
  - apply not_elem_of_cons in H0 as [Hx0 H0], Hs as [Hxs Hs].
    destruct fuel as [|fuel]; [simpl in Hf; lia|]. cbn [copy_name length]. simpl in H.
    erewrite bind_done by (by eapply char_at_spec, cur_char).
    rewrite (proj2 (Z.eqb_neq x 0)), (proj2 (Z.eqb_neq x SLASH)) by congruence. cbn [negb andb].
    pose proof (lookup_lt_Some _ _ _ (cur_char _ _ _ _ _ _ H)) as Hlt.
    destruct (lookup_lt_is_Some_2 b dst) as [y Hy]; [destruct H; lia|].
    erewrite bind_done by (by eapply set_char_spec).
    destruct (IH (<[dst := x]> b) fuel (S src) (S dst) (T ++ [x])) as (b' & E & Hb & Hl);
      [by eapply cur_write|done|done|simpl in Hf; lia|].
    exists b'. rewrite E, <- app_assoc in *. rewrite length_insert in Hl.
    replace (src + S (length w))%nat with (S src + length w)%nat by lia.
    replace (dst + S (length w))%nat with (S dst + length w)%nat by lia. done.
Qed.
Lemma back_name_spec b T w :
  SLASH ∉ w → T = [] ∨ (∃ t, T = t ++ [SLASH]) → take (length T + length w) b = T ++ w →
  back_name (length T + length w) b = Done (length T) b.
Proof.
  intros Hw HT. induction w as [|x w IH] using rev_ind; intros Hb.
  - simpl in *. rewrite Nat.add_0_r, app_nil_r in *. destruct HT as [->|[t ->]]; [done|].
    rewrite length_app in *. simpl in *. rewrite Nat.add_1_r in *. cbn [back_name].
    assert (b !! length t = Some SLASH) as E.
    { rewrite <- (lookup_take_lt _ (S (length t))), Hb, lookup_app_r, Nat.sub_diag by lia. done. }
    erewrite bind_done by (by apply char_at_spec). done.
  - apply not_elem_of_app in Hw as [Hw Hx]. rewrite not_elem_of_cons in Hx. destruct Hx as [Hx _].
    rewrite length_app in *. simpl in *.
    replace (length T + (length w + 1))%nat with (S (length T + length w)) in * by lia. cbn [back_name].
    assert (b !! (length T + length w)%nat = Some x) as E.
    { rewrite <- (lookup_take_lt _ (S (length T + length w))), Hb, app_assoc, lookup_app_r by (rewrite ?length_app; lia).
      by rewrite length_app, Nat.sub_diag. }
    erewrite bind_done by (by apply char_at_spec). rewrite (proj2 (Z.eqb_neq x SLASH)) by congruence. apply IH; [done|].
    rewrite app_assoc in Hb. apply (f_equal (take (length T + length w))) in Hb.
    rewrite take_take, take_app_le, (take_ge (T ++ w)) in Hb by (rewrite ?length_app; lia).
    by replace ((length T + length w) `min` S (length T + length w))%nat with (length T + length w)%nat in Hb by lia.
Qed.

(** What stands behind a name: slashes, or the zero at the end. *)
Definition behind (n : nat) (q rest : list Z) : list Z := replicate n SLASH ++ q ++ 0 :: rest.
Lemma behind_head n q rest : (n = 0%nat → q = []) → ∃ R, behind n q rest = (if (n =? 0)%nat then 0 else SLASH) :: R.
Proof. intros Hq. destruct n; [rewrite Hq by done|]; by eexists. Qed.

Lemma classify_spec b src dst T w n q rest :
  cursor b src dst T (w ++ behind n q rest) → name_chars w → path_chars q → starts_slash q = false → (n = 0%nat → q = []) →
  classify (length b) src b = Done
    (if bool_decide (w = [DOT]) then if (n =? 0)%nat then Name (S src) else Here (src + 1 + n)
     else if bool_decide (w = [DOT; DOT]) then Up (src + 2 + n) else Name src) b.
Proof.
  intros H [Hw0 Hws] Hq0 Hq Hn. destruct (behind_head n q rest Hn) as [R HR]. unfold classify.
  assert (Hskip : ∀ k, cursor b k dst T (behind n q rest) → skip_slashes (length b) k b = Done (k + n)%nat b).
  { intros k Hk. eapply skip_slashes_spec; [exact Hk| | |].
    - by destruct q.
    - by destruct q.
    - destruct Hk as [_ Hk _ _]. apply (f_equal length) in Hk. unfold behind in Hk.
      rewrite length_drop, !length_app, length_replicate in Hk. lia. }
  assert (Hgo : ∀ k, (n =? 0)%nat = false → cursor b k dst T (behind n q rest) →
            skip_slashes (length b) (S k) b = Done (k + n)%nat b).
  { intros k Hn0 Hk. destruct n as [|n']; [done|]. eapply cur_skip in Hk.
    rewrite (skip_slashes_spec b n' _ _ dst T (q ++ 0 :: rest)); [f_equal; lia|exact Hk|by destruct q|by destruct q|].
    destruct Hk as [_ Hk _ _]. apply (f_equal length) in Hk. unfold behind in Hk.
    rewrite length_drop, !length_app, length_replicate in Hk. lia. }
  destruct w as [|c w].
  { simpl in H. rewrite HR in H. erewrite bind_done by (by eapply char_at_spec, cur_char). by destruct (n =? 0)%nat. }
  simpl in H. erewrite bind_done by (by eapply char_at_spec, cur_char).
  destruct (Z.eqb_spec c DOT) as [->|Hc].
  2:{ rewrite !bool_decide_eq_false_2 by congruence. done. }
  pose proof (cur_skip _ _ _ _ _ _ H) as H1. destruct w as [|c1 w].
  { simpl in H1. rewrite HR in H1. erewrite bind_done by (by eapply char_at_spec, cur_char). rewrite <- HR in H1.
    rewrite bool_decide_eq_true_2 by done. destruct (n =? 0)%nat eqn:E; [done|]. cbn [Z.eqb].
    change (SLASH =? 0) with false. rewrite Z.eqb_refl. cbn iota.
    erewrite bind_done by (by apply Hgo). do 2 f_equal. lia. }
  simpl in H1. erewrite bind_done by (by eapply char_at_spec, cur_char).
  apply not_elem_of_cons in Hw0 as [_ Hw0], Hws as [_ Hws].
  apply not_elem_of_cons in Hw0 as [Hc0 Hw0], Hws as [Hcs Hws].
  rewrite (proj2 (Z.eqb_neq c1 0)), (proj2 (Z.eqb_neq c1 SLASH)) by congruence.
  rewrite (bool_decide_eq_false_2 (DOT :: c1 :: w = [DOT])) by congruence.
  destruct (Z.eqb_spec c1 DOT) as [->|Hc].
  2:{ by rewrite bool_decide_eq_false_2 by congruence. }
  pose proof (cur_skip _ _ _ _ _ _ H1) as H2. destruct w as [|c2 w].
  { simpl in H2. rewrite HR in H2. erewrite bind_done by (by eapply char_at_spec, cur_char). rewrite <- HR in H2.
    rewrite bool_decide_eq_true_2 by done. destruct (n =? 0)%nat eqn:E.
    - apply Nat.eqb_eq in E as ->. simpl. do 2 f_equal. lia.
    - change (SLASH =? 0) with false. rewrite Z.eqb_refl. cbn iota.
      erewrite bind_done by (by apply Hgo). do 2 f_equal. lia. }
  simpl in H2. erewrite bind_done by (by eapply char_at_spec, cur_char).
  apply not_elem_of_cons in Hw0 as [Hc20 _], Hws as [Hc2s _].
  rewrite (proj2 (Z.eqb_neq c2 0)), (proj2 (Z.eqb_neq c2 SLASH)) by congruence.
  by rewrite bool_decide_eq_false_2 by congruence.
Qed.

(** The text at the end of the loop: that of the walk, with or without the slash behind the
    last name. *)
Definition ends (k : walk) (t : list Z) : Prop :=
  t = walk_text k ∨ ∃ r w s, k = (r, w :: s) ∧ t = walk_text (r, s) ++ w.
Definition loop_result (fuel src dst : nat) (b : list Z) (r : option walk) : Prop :=
  ∃ b', length b' = length b ∧
    match r with
    | None => normalize_loop fuel src dst b = Done None b'
    | Some k => ∃ t, normalize_loop fuel src dst b = Done (Some (length t)) b' ∧
        take (length t) b' = t ∧ (length t < length b)%nat ∧ ends k t
    end.

Lemma resolve_rest w n q k : SLASH ∉ w → (n = 0%nat → q = []) →
  resolve (split_path (w ++ replicate n SLASH ++ q)) k = (k' ← visit w k; resolve (split_path q) k').
Proof.
  intros Hw Hq. rewrite resolve_first by done. destruct (visit w k) as [k'|]; [|done]. simpl.
  destruct n as [|n]; [|done]. by rewrite Hq.
Qed.
Lemma cursor_bound b src dst T c R : cursor b src dst T (c :: R) → (dst ≤ src < length b)%nat.
Proof. intros H. pose proof (lookup_lt_Some _ _ _ (cur_char _ _ _ _ _ _ H)). by destruct H. Qed.
Lemma cursor_behind b src dst T n q rest : cursor b src dst T (behind n q rest) → (dst ≤ src < length b)%nat.
Proof.
  unfold behind. intros H. destruct n; simpl in H; [|by eapply cursor_bound]. destruct q; by eapply cursor_bound.
Qed.

(** One turn, for each kind of name. *)
Lemma loop_turn fuel src dst b kd : classify (length b) src b = Done kd b →
  normalize_loop (S fuel) src dst b =
  (match kd with
   | Here src => normalize_loop fuel src dst
   | Up src => match dst with O => mret None | S d => dst ← back_name d; normalize_loop fuel src dst end
   | Name src =>
     '(c, src, dst) ← copy_name (length b) src dst;
     if c =? SLASH then
       set_char dst SLASH;; src ← skip_slashes (length b) src; normalize_loop fuel src (S dst)
     else mret (Some dst)
   end) b.
Proof. intros E. cbn [normalize_loop]. erewrite (bind_done get) by done. by erewrite bind_done by exact E. Qed.

Lemma visit_here w k : w = [] ∨ w = [DOT] → visit w k = Some k.
Proof. intros H. unfold visit. by rewrite bool_decide_eq_true_2. Qed.
Lemma visit_up k : visit [DOT; DOT] k =
  match k.2 with _ :: s => Some (k.1, s) | [] => if k.1 then Some (false, []) else None end.
Proof.
  unfold visit. rewrite bool_decide_eq_false_2 by naive_solver. rewrite bool_decide_eq_true_2 by done.
  by destruct k as [[] []].
Qed.
Lemma visit_name w k : w ≠ [] → w ≠ [DOT] → w ≠ [DOT; DOT] → visit w k = Some (k.1, w :: k.2).
Proof. intros H1 H2 H3. unfold visit. rewrite bool_decide_eq_false_2 by naive_solver. by rewrite bool_decide_eq_false_2. Qed.

Lemma loop_up fuel b src src' dst k q rest r :
  classify (length b) src b = Done (Up src') b → cursor b src' dst (walk_text k) (q ++ 0 :: rest) → walk_ok k →
  (∀ dst' k', visit [DOT; DOT] k = Some k' → cursor b src' dst' (walk_text k') (q ++ 0 :: rest) → walk_ok k' →
     loop_result fuel src' dst' b r) →
  (visit [DOT; DOT] k = None → r = None) →
  loop_result (S fuel) src dst b r.
Proof.
  intros E H Hk IH Hnone. unfold loop_result. rewrite (loop_turn _ _ _ _ _ E). destruct k as [rt [|x s]].
  - destruct rt.
    + assert (dst = 1)%nat as -> by (by destruct H as [_ _ _ <-]). cbn [back_name].
      erewrite bind_done by done. apply (IH 0%nat (false, []) (visit_up _)); [|by constructor].
      change (walk_text (false, [])) with ([] : list Z). by apply (cur_back _ _ 1%nat [] [SLASH]).
    + assert (dst = 0)%nat as -> by (by destruct H as [_ _ _ <-]). exists b. by rewrite (Hnone (visit_up _)).
  - rewrite walk_text_cons in H. pose proof (cur_len _ _ _ _ _ H) as Hlen. rewrite !length_app in Hlen. simpl in Hlen.
    inversion Hk as [|? ? [[_ Hx] _] Hs]; subst.
    replace (length (walk_text (rt, s)) + (length x + 1))%nat with (S (length (walk_text (rt, s)) + length x)) in * by lia.
    erewrite bind_done; [by apply (IH _ (rt, s) (visit_up _)), Hs; apply (cur_back _ _ _ _ _ _ H)|].
    apply back_name_spec; [done|apply walk_text_end|].
    rewrite app_assoc in H. pose proof (cur_done _ _ _ _ _ (cur_back _ _ _ _ _ _ H)) as Hd.
    by rewrite length_app in Hd.
Qed.

(** A name that ends the path. *)
Lemma loop_last fuel b src src' dst T w rest :
  classify (length b) src b = Done (Name src') b → cursor b src' dst T (w ++ 0 :: rest) → name_chars w →
  ∃ b', length b' = length b ∧ normalize_loop (S fuel) src dst b = Done (Some (length (T ++ w))) b' ∧
    take (length (T ++ w)) b' = T ++ w ∧ (length (T ++ w) < length b)%nat.
Proof.
  intros E H Hw. rewrite (loop_turn _ _ _ _ _ E).
  destruct (copy_name_spec w b (length b) src' dst T 0 rest H Hw) as (b' & Ec & Hb & Hl); [by left| |].
  { destruct H as [_ H _ _]. apply (f_equal length) in H. rewrite length_drop, length_app in H. lia. }
  erewrite bind_done by exact Ec. cbn beta iota. change (0 =? SLASH) with false. cbn iota.
  pose proof (cursor_bound _ _ _ _ _ _ Hb). destruct Hb as [H1 H2 H3 H4]. rewrite H4. exists b'.
  split_and!; [done|done|done|lia].
Qed.
(** A name with slashes behind it. *)
Lemma loop_name fuel b src dst T w n q rest :
  classify (length b) src b = Done (Name src) b → cursor b src dst T (w ++ behind (S n) q rest) → name_chars w →
  starts_slash q = false →
  ∃ b' src' dst', normalize_loop (S fuel) src dst b = normalize_loop fuel src' dst' b' ∧ length b' = length b ∧
    cursor b' src' dst' (T ++ w ++ [SLASH]) (q ++ 0 :: rest).
Proof.
  intros E H Hw Hq. rewrite (loop_turn _ _ _ _ _ E).
  assert (Hlen : (length w + S n + length q + 1 ≤ length b)%nat).
  { destruct H as [_ H _ _]. apply (f_equal length) in H. unfold behind in H.
    rewrite length_drop, !length_app, length_replicate in H. simpl in H. lia. }
  destruct (copy_name_spec w b (length b) src dst T SLASH (replicate n SLASH ++ q ++ 0 :: rest) H Hw)
    as (b' & Ec & Hb & Hl); [by right|lia|].
  erewrite bind_done by exact Ec. cbn beta iota. rewrite Z.eqb_refl.
  destruct (lookup_lt_is_Some_2 b' (dst + length w)%nat) as [y Hy].
  { pose proof (cursor_bound _ _ _ _ _ _ Hb). lia. }
  erewrite bind_done by (by eapply set_char_spec). eapply cur_write in Hb.
  erewrite bind_done.
  2:{ eapply skip_slashes_spec; [exact Hb|by destruct q|by destruct q|lia]. }
  rewrite <- app_assoc in Hb. eapply (cur_skips _ _ _ _ (replicate n SLASH)) in Hb.
  rewrite length_replicate in Hb. eexists _, _, _. split_and!; [done|by rewrite length_insert|exact Hb].
Qed.

Lemma ends_walk k : ends k (walk_text k).
Proof. by left. Qed.
Lemma first_behind p rest : path_chars p → starts_slash p = false →
  ∃ w n q, p ++ 0 :: rest = w ++ behind n q rest ∧ p = w ++ replicate n SLASH ++ q ∧ name_chars w ∧ path_chars q ∧
    starts_slash q = false ∧ (n = 0%nat → q = []) ∧ (w = [] → n = 0%nat).
Proof.
  intros H0 Hs. destruct (first_name p) as (w & n & q & -> & Hw & Hq & Hn). unfold path_chars in H0.
  rewrite !not_elem_of_app in H0. destruct H0 as (Hw0 & _ & Hq0). exists w, n, q. unfold behind. rewrite <- !app_assoc.
  split_and!; try done. intros ->. by destruct n.
Qed.

Lemma normalize_loop_spec rest fuel b src dst q k :
  cursor b src dst (walk_text k) (q ++ 0 :: rest) → walk_ok k → path_chars q → starts_slash q = false →
  (length q < fuel)%nat → loop_result fuel src dst b (resolve (split_path q) k).
Proof.
  revert b src dst q k. induction fuel as [|fuel IH]; intros b src dst p k H Hk H0 Hs Hf; [lia|].
  destruct (first_behind p rest H0 Hs) as (w & n & q & E & -> & Hw & Hq0 & Hq & Hn & Hwn). rewrite E in H.
  rewrite !length_app, length_replicate in Hf. rewrite resolve_rest by (try done; apply Hw).
  pose proof (classify_spec _ _ _ _ _ _ _ _ H Hw Hq0 Hq Hn) as Hc.
  destruct (decide (w = [DOT])) as [->|Hd].
  { rewrite bool_decide_eq_true_2 in Hc by done. rewrite visit_here by auto. simpl mbind.
    destruct (Nat.eqb_spec n 0) as [->|Hn0].
    - rewrite Hn in * by done. apply cur_skip in H.
      destruct (loop_last fuel b src (S src) dst (walk_text k) [] rest Hc H) as (b' & Hl & Er & Ht & Hlt).
      { split; apply not_elem_of_nil. }
      rewrite app_nil_r in *. exists b'. split; [done|]. exists (walk_text k). auto using ends_walk.
    - destruct n as [|n]; [done|]. simpl in Hf. unfold loop_result. rewrite (loop_turn _ _ _ _ _ Hc). 
      apply IH; [|done..|lia]. apply cur_skip in H. unfold behind in H. eapply cur_skips in H.
      by rewrite length_replicate, Nat.add_1_r in *. }
  rewrite (bool_decide_eq_false_2 (w = [DOT])) in Hc by done. destruct (decide (w = [DOT; DOT])) as [->|Hdd].
  { rewrite bool_decide_eq_true_2 in Hc by done. simpl in Hf.
    eapply loop_up; [exact Hc| |done| |by intros ->].
    - eapply (cur_skips _ _ _ _ [DOT; DOT]) in H. eapply (cur_skips _ _ _ _ (replicate n SLASH)) in H.
      rewrite length_replicate in H. exact H.
    - intros dst' k' -> Hc' Hk'. simpl. apply IH; [done..|lia]. }
  rewrite bool_decide_eq_false_2 in Hc by done. destruct n as [|n].
  - rewrite Hn in * by done. destruct (loop_last fuel b src src dst (walk_text k) w rest Hc H Hw) as (b' & Hl & Er & Ht & Hlt).
    exists b'. destruct w as [|c w].
    + rewrite visit_here by auto. rewrite app_nil_r in *. simpl. split; [done|]. exists (walk_text k). auto using ends_walk.
    + rewrite visit_name by done. simpl mbind. split; [done|]. exists (walk_text k ++ c :: w). split_and!; [done..|].
      right. destruct k as [r s]. by exists r, (c :: w), s.
  - assert (w ≠ []) as Hw'. { intros ->. by specialize (Hwn eq_refl). }
    rewrite visit_name by done. cbn [mbind option_bind].
    assert (Hk' : walk_ok (k.1, w :: k.2)) by (by constructor).
    simpl in Hf. destruct (loop_name fuel _ _ _ _ _ _ _ _ Hc H Hw Hq) as (b' & src' & dst' & E' & Hl & Hb).
    destruct (IH b' src' dst' q (k.1, w :: k.2)) as (b1 & Hl1 & H1); [|done..|lia|].
    { destruct k. by rewrite walk_text_cons. }
    exists b1. split; [by rewrite <- Hl|]. rewrite E', <- Hl. done.
Qed.

Lemma normalize_loop_whole path rest : path_chars path →
  loop_result (S (length (path ++ 0 :: rest))) 0 0 (path ++ 0 :: rest) (normal path).
Proof.
  intros H0. unfold normal. destruct (starts_slash path) eqn:Hs.
  2:{ eapply (normalize_loop_spec rest _ _ 0 0 path (false, [])); [by split|by constructor|done|done|].
      rewrite length_app. lia. }
  destruct path as [|c p]; [done|]. apply Z.eqb_eq in Hs as ->. apply not_elem_of_cons in H0 as [_ H0].
  destruct (span (λ c, c =? SLASH) p) as (sl & q & -> & Hsl & Hq).
  assert (Hrep : sl = replicate (length sl) SLASH).
  { clear -Hsl. induction Hsl as [|c sl Hc _ IH]; [done|]. apply Z.eqb_eq in Hc as ->. simpl. by f_equal. }
  revert Hrep H0. generalize (length sl). intros n -> H0. clear Hsl.
  apply not_elem_of_app in H0 as [_ H0]. assert (starts_slash q = false) as Hq' by (by destruct q).
  set (b := (SLASH :: replicate n SLASH ++ q) ++ 0 :: rest).
  assert (H : cursor b 0 0 [] ([] ++ behind (S n) q rest)).
  { split; [done| |done|done]. unfold b, behind. simpl. by rewrite <- app_assoc. }
  assert (Hn : name_chars []) by (split; apply not_elem_of_nil).
  pose proof (classify_spec _ _ _ _ _ _ _ _ H Hn H0 Hq' ltac:(done)) as Hc.
  change (SLASH :: replicate n SLASH ++ q) with (replicate (S n) SLASH ++ q). rewrite resolve_slashes.
  destruct (loop_name (length b) _ _ _ _ _ _ _ _ Hc H Hn Hq') as (b' & src' & dst' & E' & Hl & Hb).
  destruct (normalize_loop_spec rest (length b) b' src' dst' q (true, [])) as (b1 & Hl1 & H1);
    [exact Hb|by constructor|exact H0|exact Hq'| |].
  { unfold b. rewrite !length_app. simpl. rewrite length_app. lia. }
  exists b1. split; [by rewrite <- Hl|]. rewrite Hl in H1. by rewrite E'.
Qed.

(** The whole of the normalisation, in the block that holds the path. *)
Lemma ends_ok path k : path_chars path → normal path = Some k → walk_ok k.
Proof. intros H0. apply resolve_ok; [by apply names_chars|by constructor]. Qed.
Lemma take_split (b t : list Z) : take (length t) b = t → (length t < length b)%nat → ∃ y r, b = t ++ y :: r.
Proof.
  intros H Hlt. destruct (drop (length t) b) as [|y r'] eqn:E.
  { apply (f_equal length) in E. rewrite length_drop in E. simpl in E. lia. }
  exists y, r'. by rewrite <- E, <- H at 1; rewrite ?take_drop.
Qed.
Lemma insert_middle (a : list Z) x y b : <[length a := x]> (a ++ y :: b) = a ++ x :: b.
Proof. rewrite insert_app_r_alt, Nat.sub_diag by done. done. Qed.
Lemma lookup_middle_at (a : list Z) x b : (a ++ x :: b) !! length a = Some x.
Proof. by rewrite lookup_app_r, Nat.sub_diag. Qed.

Lemma end_path_slash t y r : t ≠ [] → ∃ r', length r' = S (length r) ∧
  end_path (length (t ++ [SLASH])) ((t ++ [SLASH]) ++ y :: r) = Done tt (t ++ 0 :: r').
Proof.
  intros Ht. exists (0 :: r). split; [done|]. unfold end_path.
  erewrite bind_done by (eapply set_char_spec, lookup_middle_at). rewrite insert_middle, length_app, Nat.add_1_r, <- app_assoc.
  simpl app. erewrite bind_done by (apply char_at_spec, lookup_middle_at). destruct t as [|a t]; [done|].
  cbn [length Nat.eqb negb andb]. rewrite Z.eqb_refl. erewrite set_char_spec by (apply (lookup_middle_at (a :: t))).
  by rewrite (insert_middle (a :: t)).
Qed.
Lemma end_path_name t x y r : x ≠ SLASH →
  end_path (length (t ++ [x])) ((t ++ [x]) ++ y :: r) = Done tt ((t ++ [x]) ++ 0 :: r).
Proof.
  intros Hx. unfold end_path. erewrite bind_done by (eapply set_char_spec, lookup_middle_at).
  rewrite insert_middle, length_app, Nat.add_1_r, <- app_assoc. simpl app.
  erewrite bind_done by (apply char_at_spec, lookup_middle_at).
  by rewrite (proj2 (Z.eqb_neq x SLASH) Hx), andb_false_r.
Qed.
(** The text at the end of the loop is closed to that of the path. *)
Lemma end_path_spec k t y r : walk_ok k → ends k t → k ≠ (false, []) →
  ∃ r', end_path (length t) (t ++ y :: r) = Done tt (path_text k ++ 0 :: r') ∧
    (length (path_text k) + length r' = length t + length r)%nat.
Proof.
  intros Hk Ht Hne. destruct k as [rt s]. destruct Ht as [->|(r0 & w & s0 & [= -> ->] & ->)].
  - destruct s as [|w s]; [destruct rt; [by exists r|done]|]. rewrite walk_text_cons.
    inversion Hk as [|? ? [_ Hw] Hs]; subst.
    destruct (end_path_slash (walk_text (rt, s) ++ w) y r) as (r' & Hr' & E); [by destruct (walk_text (rt, s)), w|].
    exists r'. rewrite (app_assoc _ w), E. split; [done|]. unfold path_text. simpl. rewrite !length_app. simpl. rewrite Hr'. lia.
  - inversion Hk as [|? ? [[_ Hws] Hw] Hs]; subst. destruct (exists_last Hw) as (w' & x & ->).
    rewrite not_elem_of_app, not_elem_of_cons in Hws. destruct Hws as [_ [Hx _]].
    exists r. rewrite (app_assoc _ w' [x]), end_path_name by congruence.
    unfold path_text. simpl. rewrite <- !app_assoc. done.
Qed.

Lemma normalize_in_place_spec path rest : path_chars path →
  match normal path with
  | None => ∃ b, normalize_in_place (path ++ 0 :: rest) = Done false b ∧ length b = length (path ++ 0 :: rest)
  | Some k => if bool_decide (k = (false, [])) then normalize_in_place (path ++ 0 :: rest) = Fault BadPointer
      else ∃ r, normalize_in_place (path ++ 0 :: rest) = Done true (path_text k ++ 0 :: r) ∧
        (length (path_text k) + length r = length path + length rest)%nat
  end.
Proof.
  intros H0. pose proof (normalize_loop_whole path rest H0) as (b & Hl & H). pose proof (ends_ok path) as Hok.
  unfold normalize_in_place. erewrite (bind_done get) by done.
  destruct (normal path) as [k|]; [|exists b; by erewrite bind_done by exact H].
  specialize (Hok _ H0 eq_refl). destruct H as (t & E & Ht & Hlt & Hends). rewrite <- Hl in Hlt.
  destruct (take_split _ _ Ht Hlt) as (y & r & ->). rewrite !length_app in Hl. simpl in Hl.
  erewrite bind_done by exact E. cbn beta iota. case_bool_decide as Hk.
  - subst k. assert (t = []) as ->; [|done]. destruct Hends as [->|(? & ? & ? & [= ] & _)]; done.
  - destruct (end_path_spec k t y r Hok Hends Hk) as (r' & E' & Hlen). erewrite bind_done by exact E'.
    exists r'. split; [done|lia].
Qed.

(** * Joining a directory and a name *)

Lemma put_at e a x z c args : Z.of_nat (length a) ≤ e →
  put e c (PState (a ++ x :: z) (Z.of_nat (length a)) args) =
  Done tt (PState (a ++ c :: z) (Z.of_nat (length (a ++ [c]))) args).
Proof.
  intros He. unfold put. erewrite (bind_done get) by done. cbn [w_str w_mem].
  rewrite (proj2 (Z.leb_le _ _) He). unfold when. rewrite length_app. cbn [length].
  rewrite (proj2 (Z.ltb_lt _ _)) by lia. erewrite bind_done by done. cbv [modify]. cbn [w_mem w_str w_args].
  rewrite Nat2Z.id, insert_middle, length_app. cbn [length]. do 2 f_equal. lia.
Qed.
Lemma put_list_at e l a m z args : length m = length l → Z.of_nat (length a + length l) ≤ e + 1 →
  put_list e l (PState (a ++ m ++ z) (Z.of_nat (length a)) args) =
  Done tt (PState ((a ++ l) ++ z) (Z.of_nat (length (a ++ l))) args).
Proof.
  revert a m. induction l as [|c l IH]; intros a m Hm He; destruct m as [|x m]; try done.
  - simpl. by rewrite app_nil_r.
  - cbn [put_list app length] in *. erewrite bind_done by (apply put_at; lia). injection Hm as Hm.
    rewrite (app_assoc a [c] (m ++ z) : a ++ c :: m ++ z = _). rewrite IH by (rewrite ?length_app; simpl; lia).
    by rewrite <- (app_assoc a [c] l).
Qed.
Lemma strlen_path s r : path_chars s → rt_strlen (s ++ 0 :: r) = Some (Z.of_nat (length s)).
Proof.
  induction s as [|c s IH]; intros Hs; [done|]. apply not_elem_of_cons in Hs as [Hc Hs].
  simpl. rewrite (proj2 (Z.eqb_neq c 0)), IH by done. simpl. f_equal. lia.
Qed.
Lemma print_string_at e s r a m z args : path_chars s → length m = length s → Z.of_nat (length a + length s) ≤ e + 1 →
  print_string e 0 (-1) (-1) (PState (a ++ m ++ z) (Z.of_nat (length a)) (VStr (Some (s ++ 0 :: r)) :: args)) =
  Done tt (PState ((a ++ s) ++ z) (Z.of_nat (length (a ++ s))) args).
Proof.
  intros Hs Hm He. unfold print_string, va_str. erewrite bind_done by done. cbn beta zeta.
  erewrite bind_done by (simpl; by rewrite (strlen_path _ _ Hs)). cbn beta iota zeta.
  change (0 <? -1) with false. cbn [andb]. rewrite (Z2Nat.nonpos (-1 - Z.of_nat (length s))) by lia.
  rewrite Nat2Z.id. cbn [default from_option id]. unfold id. rewrite take_app_length.
  unfold when. cbn [put_n]. erewrite bind_done by done. erewrite bind_done by (by apply put_list_at). done.
Qed.
(** One turn of the loop over a format. *)
Lemma format_string fuel e T st st' : print_string e 0 (-1) (-1) st = Done tt st' →
  format_loop (S fuel) e (asc "%"%char :: asc "s"%char :: T) st = format_loop fuel e T st'.
Proof.
  intros E. cbn [format_loop]. erewrite bind_done by done.
  change (asc "%"%char =? 0) with false. change (asc "%"%char =? asc "%"%char) with true. cbn [negb tail].
  assert (Ec : conversion e (asc "s"%char :: T) st = Done T st'); [|by erewrite bind_done by exact Ec].
  unfold conversion. do 3 (erewrite bind_done by done; cbn beta iota).
  rewrite (bind_done _ _ _ (0, asc "s"%char :: T) st) by done. unfold convert.
  erewrite bind_done by done. change (asc "s"%char =? asc "c"%char) with false. change (asc "s"%char =? asc "s"%char) with true. cbn iota.
  by erewrite bind_done by exact E.
Qed.
Lemma format_char fuel e c T st st' : (c =? 0) = false → (c =? asc "%"%char) = false → put e c st = Done tt st' →
  format_loop (S fuel) e (c :: T) st = format_loop fuel e T st'.
Proof.
  intros H0 Hp E. cbn [format_loop]. erewrite bind_done by done. rewrite H0, Hp. cbn [negb tail].
  by erewrite bind_done by exact E.
Qed.
Lemma snprintf_join p b d rd f rf : path_chars d → path_chars f → 0 < p →
  p + Z.of_nat (length d + length f + 2) < 2 ^ 32 → length b = (length d + length f + 2)%nat →
  match rt_snprintf p (Z.of_nat (length d + length f + 2)) b (text "%s/%s" ++ [0])
    [VStr (Some (d ++ 0 :: rd)); VStr (Some (f ++ 0 :: rf))] with
  | Done _ st => w_mem st = d ++ SLASH :: f ++ [0]
  | Fault _ => False
  end.
Proof.
  intros Hd Hf Hp He Hb. unfold rt_snprintf, rt_vsnprintf. rewrite end_offset_size by lia.
  set (e := Z.of_nat (length d + length f + 2) - 1).
  assert (∃ b1 x b2 y, b = [] ++ b1 ++ x :: b2 ++ [y] ∧ length b1 = length d ∧ length b2 = length f) as (b1 & x & b2 & y & -> & H1 & H2).
  { exists (take (length d) b). destruct (drop (length d) b) as [|x b'] eqn:E.
    { apply (f_equal length) in E. rewrite length_drop in E. simpl in E. lia. }
    exists x. assert (length b' = S (length f)).
    { apply (f_equal length) in E. rewrite length_drop in E. simpl in E. lia. }
    destruct (@exists_last _ b') as (b2 & y & ->); [by intros ->|]. exists b2, y. rewrite <- E. simpl.
    rewrite take_drop, length_take, length_app in *. simpl in *. split_and!; [done|lia|lia]. }
  assert (Efmt : format_loop (length (text "%s/%s" ++ [0])) e (text "%s/%s" ++ [0])
    (PState ([] ++ b1 ++ x :: b2 ++ [y]) 0 [VStr (Some (d ++ 0 :: rd)); VStr (Some (f ++ 0 :: rf))]) =
    Done tt (PState ((d ++ SLASH :: f) ++ [y]) (Z.of_nat (length (d ++ SLASH :: f))) [])).
  { change (text "%s/%s" ++ [0]) with [asc "%"; asc "s"; SLASH; asc "%"; asc "s"; 0]%char. cbn [length].
    etransitivity; [eapply format_string, (print_string_at e d rd [] b1); [done..|simpl; lia]|]. cbn [app].
    etransitivity; [eapply format_char, (put_at e d x); [done..|lia]|].
    replace (d ++ SLASH :: b2 ++ [y]) with ((d ++ [SLASH]) ++ b2 ++ [y]) by (by rewrite <- app_assoc).
    etransitivity; [eapply format_string, print_string_at; [done..|rewrite length_app; simpl; lia]|].
    by rewrite <- (app_assoc d). }
  erewrite bind_done by exact Efmt. erewrite (bind_done get) by done. cbn [w_str w_mem].
  rewrite !length_app. cbn [length]. rewrite (proj2 (Z.leb_le _ e)) by lia. rewrite (proj2 (Z.ltb_lt _ _)) by lia.
  cbv [modify mbind SM_bind mret SM_ret]. cbn [w_mem w_str w_args]. rewrite Nat2Z.id.
  replace (length d + S (length f))%nat with (length (d ++ SLASH :: f)) by (by rewrite length_app).
  by rewrite insert_middle, <- app_assoc.
Qed.

(** * The function *)

Section correct.
Context {X : Type} {M : allocator} {Mok : allocator_ok M}.
Implicit Types s : dfs X.

(** After a call of the allocator that gave nothing, and one that gave the block [p]. *)
Definition tick s : dfs X := set_v_calls (S (v_calls s)) s.
Definition alloc (p : Z) (b : list Z) s : dfs X := set_v_heap (<[p := b]> (v_heap s)) (tick s).
(** A block for a string and the zero behind it. *)
Definition new_block (t : list Z) s : option (Z * list Z) := place (v_calls s) (v_heap s) (Z.of_nat (length t) + 1).

Lemma rt_malloc_spec size s : 0 ≤ size < 2 ^ 32 →
  rt_malloc size s = match place (v_calls s) (v_heap s) size with
    | Some (p, b) => Done p (alloc p b s) | None => Done 0 (tick s) end.
Proof.
  intros Hs. unfold rt_malloc, getv. erewrite !bind_done by done.
  unfold u32. rewrite Z.mod_small by done. by destruct (place _ _ _) as [[p b]|].
Qed.
Lemma on_block_spec {A} (p : Z) (m : L A) b s : v_heap s !! p = Some b →
  on_block p m s = match m b with Done a b => Done a (set_v_heap (<[p := b]> (v_heap s)) s) | Fault e => Fault e end.
Proof.
  intros H. unfold on_block, block, getv. erewrite bind_done.
  2:{ erewrite bind_done by done. rewrite H. done. }
  by destruct (m b).
Qed.
Lemma on_alloc {A} (p : Z) (m : L A) b s :
  on_block p m (alloc p b s) = match m b with Done a b => Done a (alloc p b s) | Fault e => Fault e end.
Proof.
  rewrite (on_block_spec _ _ b) by apply lookup_insert_eq. destruct (m b); [|done].
  unfold alloc, set_v_heap. simpl. by rewrite insert_insert_eq.
Qed.
Lemma free_alloc p b s : p ≠ 0 → v_heap s !! p = None → rt_free p (alloc p b s) = Done tt (tick s).
Proof.
  intros Hp Hn. unfold rt_free. rewrite (proj2 (Z.eqb_neq p 0) Hp). unfold block, getv.
  erewrite bind_done.
  2:{ erewrite bind_done by done. cbn. by rewrite lookup_insert_eq. }
  unfold modify, alloc, set_v_heap. simpl. rewrite delete_insert_id by done. by destruct s.
Qed.

Lemma strdup_spec t r s : path_chars t → Z.of_nat (length t) + 1 < 2 ^ 32 →
  rt_strdup (t ++ 0 :: r) s = match new_block t s with
    | Some (p, b) => Done p (alloc p (t ++ [0]) s) | None => Done 0 (tick s) end.
Proof.
  intros Ht Hl. unfold rt_strdup, new_block. rewrite strlen_path by done. erewrite bind_done by done.
  pose proof (rt_malloc_spec (Z.of_nat (length t) + 1) s ltac:(lia)) as E.
  destruct (place _ _ _) as [[p b]|] eqn:Ep; erewrite bind_done by exact E; [|done].
  destruct (place_ok _ _ _ _ _ Ep) as (Hp & _ & _ & Hb). rewrite (proj2 (Z.eqb_neq p 0)) by lia.
  erewrite bind_done; [done|]. rewrite on_alloc. erewrite (bind_done get) by done. unfold modify. do 3 f_equal.
  replace (Z.to_nat (Z.of_nat (length t) + 1)) with (length (t ++ [0])) by (rewrite length_app; simpl; lia).
  replace (t ++ 0 :: r) with ((t ++ [0]) ++ r) by (by rewrite <- app_assoc). rewrite take_app_length.
  assert (length b = length (t ++ [0])) as Hb' by (rewrite length_app; simpl; lia).
  by rewrite <- (app_nil_r b), list_inserts_0_r, app_nil_r by done.
Qed.

(** The path a name stands for below a directory. *)
Definition full_path (d f : list Z) : list Z := if starts_slash f then f else d ++ SLASH :: f.
Lemma full_chars d f : path_chars d → path_chars f → path_chars (full_path d f).
Proof.
  intros Hd Hf. unfold full_path. destruct (starts_slash f); [done|].
  apply not_elem_of_app. split; [done|]. by apply not_elem_of_cons.
Qed.
Lemma head_slash f r (s : dfs X) : path_chars f →
  ∃ c, nth_char (f ++ 0 :: r) 0 s = Done c s ∧ negb (c =? SLASH) = negb (starts_slash f).
Proof. intros _. destruct f as [|c f]; eexists; done. Qed.

Lemma join_spec d rd f rf s : path_chars d → path_chars f → Z.of_nat (length d + length f) + 2 < 2 ^ 32 →
  (n ← strlen (d ++ 0 :: rd); m ← strlen (f ++ 0 :: rf); p ← rt_malloc (n + m + 2);
   (if p =? 0 then mret tt
    else snprintf p (n + m + 2) (text "%s/%s" ++ [0]) [VStr (Some (d ++ 0 :: rd)); VStr (Some (f ++ 0 :: rf))]);;
   mret p) s =
  match new_block (d ++ SLASH :: f) s with
  | Some (p, b) => Done p (alloc p ((d ++ SLASH :: f) ++ [0]) s) | None => Done 0 (tick s) end.
Proof.
  intros Hd Hf Hl. unfold strlen, new_block. rewrite !strlen_path by done. do 2 erewrite bind_done by done.
  replace (Z.of_nat (length (d ++ SLASH :: f)) + 1) with (Z.of_nat (length d) + Z.of_nat (length f) + 2)
    by (rewrite length_app; simpl; lia).
  pose proof (rt_malloc_spec (Z.of_nat (length d) + Z.of_nat (length f) + 2) s ltac:(lia)) as E.
  destruct (place _ _ _) as [[p b]|] eqn:Ep; erewrite bind_done by exact E; [|done].
  destruct (place_ok _ _ _ _ _ Ep) as (Hp & He & _ & Hb). rewrite (proj2 (Z.eqb_neq p 0)) by lia.
  erewrite bind_done; [done|]. unfold snprintf. rewrite on_alloc.
  pose proof (snprintf_join p b d rd f rf Hd Hf ltac:(lia) ltac:(lia) ltac:(lia)) as Hj.
  replace (Z.of_nat (length d + length f + 2)) with (Z.of_nat (length d) + Z.of_nat (length f) + 2) in Hj by lia.
  destruct (rt_snprintf _ _ _ _ _) as [x st|]; [|done]. rewrite Hj. by rewrite <- app_assoc.
Qed.

(** The block with the normalised path, by the allocation of the text [full]. *)
Definition normalized (full : list Z) s (r : outcome (dfs X) Z) : Prop :=
  match new_block full s with
  | None => r = Done 0 (tick s)
  | Some (p, _) =>
    match normal full with
    | None => r = Done 0 (tick s)
    | Some k =>
      if bool_decide (k = (false, [])) then r = Fault BadPointer
      else ∃ q, r = Done p (alloc p (path_text k ++ 0 :: q) s) ∧
        (length (path_text k) + length q = length full)%nat
    end
  end.
Lemma dfs_normalize_path_spec directory filename s d rd f rf :
  path_chars d → path_chars f → default (v_cwd s) directory = d ++ 0 :: rd → filename = f ++ 0 :: rf →
  Z.of_nat (length d + length f) + 2 < 2 ^ 32 →
  normalized (full_path d f) s (dfs_normalize_path directory filename s).
Proof.
  intros Hd Hf Ed -> Hl. unfold dfs_normalize_path, getv. erewrite bind_done by done. rewrite Ed.
  destruct (head_slash f rf s Hf) as (c & Ec & Hc). erewrite bind_done by exact Ec. rewrite Hc.
  assert (E : (if negb (starts_slash f) then
       n ← strlen (d ++ 0 :: rd); m ← strlen (f ++ 0 :: rf); p ← rt_malloc (n + m + 2);
       (if p =? 0 then mret tt
        else snprintf p (n + m + 2) (text "%s/%s" ++ [0]) [VStr (Some (d ++ 0 :: rd)); VStr (Some (f ++ 0 :: rf))]);;
       mret p else rt_strdup (f ++ 0 :: rf)) s =
    match new_block (full_path d f) s with
    | Some (p, b) => Done p (alloc p (full_path d f ++ [0]) s) | None => Done 0 (tick s) end).
  { unfold full_path. destruct (starts_slash f); cbn [negb]; [apply strdup_spec; [done|lia]|by apply join_spec]. }
  unfold normalized. pose proof (full_chars d f Hd Hf) as Hfull.
  destruct (new_block (full_path d f) s) as [[p b]|] eqn:Ep; erewrite bind_done by exact E; [|done].
  destruct (place_ok _ _ _ _ _ Ep) as (Hp & _ & Hnew & _). rewrite (proj2 (Z.eqb_neq p 0)) by lia.
  pose proof (normalize_in_place_spec _ [] Hfull) as Hn. pose proof (on_alloc p normalize_in_place (full_path d f ++ [0]) s) as Eo.
  destruct (normal (full_path d f)) as [k|].
  - case_bool_decide as Hk.
    + rewrite Hn in Eo. unfold mbind, SM_bind. by rewrite Eo.
    + destruct Hn as (q & Hn & Hq). rewrite Hn in Eo. erewrite bind_done by exact Eo. exists q. split; [done|]. simpl in Hq. lia.
  - destruct Hn as (b' & Hn & _). rewrite Hn in Eo. erewrite bind_done by exact Eo. cbn beta iota.
    erewrite bind_done by (apply free_alloc; [lia|done]). done.
Qed.

(** C29. Normalising a name below a directory: the block that is allocated for the joined path
    holds the text of the walk along its names, and that text is normal as long as the walk
    stays below the root.  A walk that leaves the root twice is refused and the block given
    back; one that ends nowhere writes before the block. *)
Theorem dfs_normalize_path_correct directory filename s d rd f rf :
  path_chars d → path_chars f → default (v_cwd s) directory = d ++ 0 :: rd → filename = f ++ 0 :: rf →
  Z.of_nat (length d + length f) + 2 < 2 ^ 32 →
  match new_block (full_path d f) s, normal (full_path d f) with
  | None, _ | _, None => dfs_normalize_path directory filename s = Done 0 (tick s)
  | Some _, Some (false, []) => dfs_normalize_path directory filename s = Fault BadPointer
  | Some (p, _), Some k =>
    ∃ q, dfs_normalize_path directory filename s = Done p (alloc p (path_text k ++ 0 :: q) s) ∧
      (length (path_text k) + length q = length (full_path d f))%nat ∧
      (k.1 = true → normal (path_text k) = Some k)
  end.
Proof.
  intros Hd Hf E1 E2 Hl. pose proof (dfs_normalize_path_spec directory filename s d rd f rf Hd Hf E1 E2 Hl) as H.
  unfold normalized in H. pose proof (full_chars d f Hd Hf) as Hc.
  destruct (new_block (full_path d f) s) as [[p b]|]; [|done].
  destruct (normal (full_path d f)) as [k|] eqn:E; [|done].
  assert (k ≠ (false, []) → ∃ q, dfs_normalize_path directory filename s = Done p (alloc p (path_text k ++ 0 :: q) s) ∧
      (length (path_text k) + length q = length (full_path d f))%nat ∧
      (k.1 = true → normal (path_text k) = Some k)) as Hgo.
  { intros Hk. rewrite bool_decide_eq_false_2 in H by done. destruct H as (q & H1 & H2). exists q. split_and!; [done..|].
    apply normal_text; [by eapply ends_ok|]. eapply resolve_clean, E. by constructor. }
  destruct k as [[] [|w l]]; [by apply Hgo..| |by apply Hgo]. by rewrite bool_decide_eq_true_2 in H.
Qed.
End correct.
