(* ===== verification/Dfs.v ===== *)
(** The tables of the device file system: the lock, file descriptors ([dfs.c]), and the look-up
    of file systems ([dfs_fs.c]). *)

From stdpp Require Import base gmap list strings.
From Stdlib Require Import ZArith Lia.
From S2P Require Import Prelude Kservice Printf Halts DfsState DfsPath.

Open Scope Z_scope.

Section dfs.
Context {X : Type} `{!allocator, !fs_types X}.

(** * Start and lock *)

Definition dfs_init : D X Z :=
  modify (set_v_ops (replicate DFS_FILESYSTEM_TYPES_MAX 0));;
  modify (set_v_fs (replicate DFS_FILESYSTEMS_MAX zero_fs));;
  modify (λ s, set_v_fds (foldr (λ i, <[Z.of_nat i := zero_fd]>) (v_fds s) (seq 0 (Z.to_nat DFS_FD_MAX))) s);;
  modify (set_v_lock 0);;
  modify (set_v_cwd (SLASH :: replicate (DFS_PATH_MAX - 1) 0));;
  mret 0.

(** The thread that holds [fslock] takes it again at once; a release of a mutex that is not
    held is refused. *)
Definition dfs_lock : D X unit := modify (λ s, set_v_lock (v_lock s + 1) s).
Definition dfs_unlock : D X unit :=
  n ← getv v_lock; if n =? 0 then mret tt else modify (set_v_lock (n - 1)).

(** * File descriptors *)

Fixpoint free_fd (n : nat) (idx : Z) : D X Z :=
  match n with
  | O => mret idx
  | S n => d ← get_fd idx; if 0 <? fd_ref_count d then free_fd n (idx + 1) else mret idx
  end.
Definition fd_new : D X Z :=
  dfs_lock;;
  idx ← free_fd (Z.to_nat DFS_FD_MAX) 0;
  idx ← (if idx =? DFS_FD_MAX then mret (-1)
         else upd_fd idx (set_fd_ref_count 1);; upd_fd idx (set_fd_magic DFS_FD_MAGIC);; mret idx);
  dfs_unlock;;
  mret idx.

Definition fd_get (fd : Z) : D X (option Z) :=
  if (fd <? 0) || (DFS_FD_MAX <=? fd) then mret None
  else
    dfs_lock;;
    d ← get_fd fd;
    if negb (fd_magic d =? DFS_FD_MAGIC) then dfs_unlock;; mret None
    else
      put_fd fd (set_fd_ref_count (i32 (fd_ref_count d + 1)) d);;
      dfs_unlock;;
      mret (Some fd).

Definition fd_put (fd : option Z) : D X unit :=
  match fd with
  | None => fail AssertFailed
  | Some a =>
    dfs_lock;;
    upd_fd a (λ d, set_fd_ref_count (i32 (fd_ref_count d - 1)) d);;
    d ← get_fd a;
    (if fd_ref_count d =? 0 then put_fd a zero_fd else mret tt);;
    dfs_unlock
  end.

(** * Look-up of file systems *)

(** The loop over [filesystem_table]. *)
Fixpoint fs_lookup_scan (l : list dfs_filesystem) (i : nat) (path : list Z) (fs : option nat) (prefixlen : Z) :
    D X (option nat) :=
  match l with
  | [] => mret fs
  | iter :: l =>
    if (fs_path iter =? 0) || (fs_ops iter =? 0) then fs_lookup_scan l (S i) path fs prefixlen
    else
      p ← block (fs_path iter);
      fspath ← strlen p;
      same ← (if fspath <? prefixlen then mret false else strn_eq p path fspath);
      if negb same then fs_lookup_scan l (S i) path fs prefixlen
      else
        n ← strlen path;
        c ← (if (1 <? fspath) && (fspath <? n) then nth_char path (Z.to_nat fspath) else mret SLASH);
        if negb (c =? SLASH) then fs_lookup_scan l (S i) path fs prefixlen
        else fs_lookup_scan l (S i) path (Some i) fspath
  end.
Definition dfs_filesystem_lookup (path : list Z) : D X (option nat) :=
  dfs_lock;;
  l ← getv v_fs;
  fs ← fs_lookup_scan l 0 path None 0;
  dfs_unlock;;
  mret fs.

Fixpoint mounted_scan (l : list dfs_filesystem) (device : Z) : Z :=
  match l with
  | [] => 0
  | iter :: l =>
    if fs_ops iter =? 0 then mounted_scan l device
    else if fs_dev_id iter =? device then fs_path iter else mounted_scan l device
  end.
Definition dfs_filesystem_get_mounted_path (device : Z) : D X Z :=
  dfs_lock;;
  l ← getv v_fs;
  dfs_unlock;;
  mret (mounted_scan l device).

(** Is the file of the path in the descriptor table? *)
Fixpoint open_scan (n : nat) (index : Z) (fs : nat) (mountpath : list Z) : D X bool :=
  match n with
  | O => mret false
  | S n =>
    fd ← get_fd index;
    same ← (if decide (fd_fs fd = Some fs) then p ← block (fd_path fd); str_eq p mountpath else mret false);
    if (same : bool) then mret true else open_scan n (index + 1) fs mountpath
  end.
(** Is the file system mounted at the root? *)
Definition is_root (p : list Z) : D X bool :=
  c ← nth_char p 0;
  if c =? SLASH then c ← nth_char p 1; mret (c =? 0) else mret false.
Definition fd_is_open (pathname : list Z) : D X Z :=
  fullpath ← dfs_normalize_path None pathname;
  if fullpath =? 0 then mret (-1)
  else
    path ← block fullpath;
    fs ← dfs_filesystem_lookup path;
    match fs with
    | None => rt_free fullpath;; mret (-1)
    | Some i =>
      f ← get_fs i;
      p ← block (fs_path f);
      root ← is_root p;
      mountpath ← (if (root : bool) then mret path else n ← strlen p; mret (drop (Z.to_nat n) path));
      dfs_lock;;
      found ← open_scan (Z.to_nat DFS_FD_MAX) 0 i mountpath;
      (if (found : bool) then rt_free fullpath;; dfs_unlock;; mret 0
       else dfs_unlock;; rt_free fullpath;; mret (-1))
    end.

(** * File-system types *)

(** The loop of [dfs_register]: the empty entry, and whether the name is new. *)
Fixpoint register_scan (l : list Z) (i : nat) (empty : option nat) (name : list Z) : D X (option nat * bool) :=
  match l with
  | [] => mret (empty, true)
  | iter :: l =>
    if iter =? 0 then register_scan l (S i) (match empty with None => Some i | _ => empty end) name
    else
      o ← get_ops iter;
      same ← str_eq (op_name o) name;
      if (same : bool) then mret (empty, false) else register_scan l (S i) empty name
  end.
Definition dfs_register (ops : Z) : D X Z :=
  dfs_lock;;
  o ← get_ops ops;
  l ← getv v_ops;
  '((empty, new) : option nat * bool) ← register_scan l 0 None (op_name o);
  (match empty with
   | Some i => if new then modify (set_v_ops (<[i := ops]> l)) else mret tt
   | None => mret tt
   end);;
  dfs_unlock;;
  mret (if new then 0 else -1).

(** * Partitions *)

Record dfs_partition := Partition { part_type : Z; part_offset : Z; part_size : Z }.
(** Four bytes of the table, the least one first. *)
Definition dpt_word (buf : list Z) (a : nat) : D X Z :=
  b0 ← nth_char buf a; b1 ← nth_char buf (a + 1); b2 ← nth_char buf (a + 2); b3 ← nth_char buf (a + 3);
  mret (Z.lor b0 (Z.lor (Z.shiftl b1 8) (Z.lor (Z.shiftl b2 16) (Z.shiftl b3 24)))).
(** The size in the units of the message. *)
Definition print_part_size (size : Z) : D X unit :=
  if Z.shiftr size 11 =? 0 then kprintf (text "%d%s") [VInt (Z.shiftr size 1); VStr (Some (text "KB" ++ [10]))]
  else
    let part_size := Z.shiftr size 11 in
    if Z.shiftr part_size 10 =? 0 then
      kprintf (text "%d.%d%s") [VInt part_size; VInt (Z.land (Z.shiftr size 1) 0x3FF); VStr (Some (text "MB" ++ [10]))]
    else
      kprintf (text "%d.%d%s") [VInt (Z.shiftr part_size 10); VInt (Z.land part_size 0x3FF); VStr (Some (text "GB" ++ [10]))].
Definition dfs_filesystem_get_partition (buf : list Z) (pindex : Z) : D X (Z * option dfs_partition) :=
  let dpt := (0x1be + Z.to_nat pindex * 16)%nat in
  c ← nth_char buf dpt;
  if negb (c =? 0x80) && negb (c =? 0) then mret (-1, None)
  else
    type ← nth_char buf (dpt + 4);
    if type =? 0 then mret (-1, None)
    else
      offset ← dpt_word buf (dpt + 8);
      size ← dpt_word buf (dpt + 12);
      kprintf (text "found part[%d], begin: %d, size: ") [VInt pindex; VInt (i32 (i32 offset * 512))];;
      print_part_size (u32 size);;
      mret (0, Some (Partition type (i32 offset) (u32 size))).
End dfs.

(** The tables of the device file system: what the look-up of a file system finds, and the
    life of a descriptor. *)

(** A string of bytes in a block of the heap. *)
Definition cstr (h : gmap Z (list Z)) (p : Z) (t : list Z) : Prop := chars t ∧ ∃ r, h !! p = Some (t ++ 0 :: r).
Lemma chars_path t : chars t → path_chars t.
Proof. unfold chars, path_chars. rewrite Forall_forall. intros H Hin. apply H in Hin. lia. Qed.
#[export] Hint Resolve chars_path : kernel.

Section tables.
Context {X : Type} {M : allocator} {Types : fs_types X}.
Implicit Types s : dfs X.

(** * Small steps *)

Lemma getv_spec {A} (f : dfs X → A) s : getv f s = Done (f s) s.
Proof. done. Qed.
Lemma get_fd_spec a d s : v_fds s !! a = Some d → get_fd a s = Done d s.
Proof. intros H. unfold get_fd. erewrite bind_done by apply getv_spec. by rewrite H. Qed.
Definition fd_set a d s : dfs X := set_v_fds (<[a := d]> (v_fds s)) s.
Lemma put_fd_spec a d s : put_fd a d s = Done tt (fd_set a d s).
Proof. done. Qed.
Lemma upd_fd_spec a f d s : v_fds s !! a = Some d → upd_fd a f s = Done tt (fd_set a (f d) s).
Proof. intros H. unfold upd_fd. by erewrite bind_done by (by apply get_fd_spec). Qed.
Lemma get_fs_spec i f s : v_fs s !! i = Some f → get_fs i s = Done f s.
Proof. intros H. unfold get_fs. erewrite bind_done by apply getv_spec. by rewrite H. Qed.
Lemma block_spec p b s : v_heap s !! p = Some b → block p s = Done b s.
Proof. intros H. unfold block. erewrite bind_done by apply getv_spec. by rewrite H. Qed.
Lemma get_ops_spec a o s : a ≠ 0 → fs_type a = Some o → get_ops a s = Done o s.
Proof. intros Ha H. unfold get_ops. rewrite (proj2 (Z.eqb_neq a 0) Ha). by rewrite H. Qed.
Lemma strlen_spec t r s : chars t → strlen (t ++ 0 :: r) s = Done (Z.of_nat (length t)) s.
Proof. intros H. unfold strlen. by rewrite strlen_chars. Qed.
Lemma str_eq_spec t r u q s : chars t → chars u → str_eq (t ++ 0 :: r) (u ++ 0 :: q) s = Done (bool_decide (t = u)) s.
Proof.
  intros Ht Hu. unfold str_eq. destruct (strcmp_chars t u r q Ht Hu) as (v & -> & Hv).
  erewrite bind_done by done. f_equal. apply eq_true_iff_eq. by rewrite Z.eqb_eq, bool_decide_eq_true.
Qed.
Lemma strn_eq_spec t r u q n s : chars t → chars u →
  strn_eq (t ++ 0 :: r) (u ++ 0 :: q) n s = Done (bool_decide (take (Z.to_nat n) t = take (Z.to_nat n) u)) s.
Proof.
  intros Ht Hu. unfold strn_eq, rt_strncmp.
  destruct (strncmp_chars (Z.to_nat n) t u r q 0 Ht Hu) as (v & E & Hv); [by right|]. rewrite E.
  erewrite bind_done by done. f_equal. apply eq_true_iff_eq. by rewrite Z.eqb_eq, bool_decide_eq_true.
Qed.
Lemma is_root_spec t q s : chars t → is_root (t ++ 0 :: q) s = Done (bool_decide (t = [SLASH])) s.
Proof.
  intros Ht. unfold is_root. destruct t as [|c t]; [done|]. erewrite bind_done by done.
  destruct (Z.eqb_spec c SLASH) as [->|Hc]; [|by rewrite bool_decide_eq_false_2 by congruence].
  destruct t as [|c1 t]; [done|]. erewrite bind_done by done. apply Forall_cons in Ht as [_ Ht]. apply Forall_cons in Ht as [Hc1 _].
  rewrite (proj2 (Z.eqb_neq c1 0)) by lia. by rewrite bool_decide_eq_false_2 by congruence.
Qed.
(** The lock around a computation that leaves it alone. *)
Definition locked s : dfs X := set_v_lock (v_lock s + 1) s.
Lemma lock_spec s : dfs_lock s = Done tt (locked s).
Proof. done. Qed.
Lemma unlock_spec s : 0 ≤ v_lock s → dfs_unlock (locked s) = Done tt s.
Proof.
  intros H. unfold dfs_unlock. erewrite bind_done by apply getv_spec. unfold locked. destruct s; cbn in *.
  rewrite (proj2 (Z.eqb_neq _ 0)) by lia. unfold modify, set_v_lock. cbn. do 2 f_equal. lia.
Qed.

(** * The look-up of a file system *)

(** The entries in use, with the path and the operations of each. *)
Definition mounted s (i : nat) (f : dfs_filesystem) (m : list Z) : Prop :=
  v_fs s !! i = Some f ∧ fs_path f ≠ 0 ∧ fs_ops f ≠ 0 ∧ cstr (v_heap s) (fs_path f) m.
Definition entry_ok s (f : dfs_filesystem) : Prop :=
  fs_path f = 0 ∨ fs_ops f = 0 ∨ ∃ m, cstr (v_heap s) (fs_path f) m.
(** A mount point covers the paths that begin with it and go on with a new name. *)
Definition covers (m p : list Z) : Prop :=
  m `prefix_of` p ∧ ((length m ≤ 1)%nat ∨ p = m ∨ p !! length m = Some SLASH).

Lemma prefix_take (m p : list Z) : m `prefix_of` p ↔ take (length m) m = take (length m) p.
Proof.
  rewrite (take_ge m (length m)) by done. split; [intros [k ->]; by rewrite take_app_length|].
  intros E. exists (drop (length m) p). by rewrite E at 1; rewrite take_drop.
Qed.
Lemma scan_turn l i f m r path rest fs n s :
  fs_path f ≠ 0 → fs_ops f ≠ 0 → v_heap s !! fs_path f = Some (m ++ 0 :: r) → chars m → chars path →
  fs_lookup_scan (f :: l) i (path ++ 0 :: rest) fs n s =
  if bool_decide (n ≤ Z.of_nat (length m) ∧ covers m path)
  then fs_lookup_scan l (S i) (path ++ 0 :: rest) (Some i) (Z.of_nat (length m)) s
  else fs_lookup_scan l (S i) (path ++ 0 :: rest) fs n s.
Proof.
  intros Hp Ho Hb Hm Hpath. cbn [fs_lookup_scan].
  rewrite (proj2 (Z.eqb_neq _ 0) Hp), (proj2 (Z.eqb_neq _ 0) Ho). cbn [orb].
  erewrite bind_done by (by apply block_spec). erewrite bind_done by (by apply strlen_spec).
  destruct (Z.ltb_spec (Z.of_nat (length m)) n) as [Hlt|Hle].
  { erewrite bind_done by done. rewrite bool_decide_eq_false_2 by lia. done. }
  erewrite bind_done by (by apply strn_eq_spec). rewrite Nat2Z.id.
  rewrite (bool_decide_ext _ _ (iff_sym (prefix_take m path))).
  case_bool_decide as Hpre; cbn [negb].
  2:{ rewrite bool_decide_eq_false_2 by (unfold covers; naive_solver). done. }
  erewrite bind_done by (by apply strlen_spec). destruct Hpre as [k ->]. rewrite length_app.
  destruct (Z.ltb_spec 1 (Z.of_nat (length m))) as [H1|H1]; cbn [andb].
  2:{ erewrite bind_done by done. rewrite Z.eqb_refl. cbn [negb]. rewrite bool_decide_eq_true_2; [done|].
      split; [done|]. split; [by eexists|]. left. lia. }
  destruct (Z.ltb_spec (Z.of_nat (length m)) (Z.of_nat (length m + length k))) as [H2|H2].
  - destruct k as [|c k]; [simpl in H2; lia|]. rewrite <- app_assoc. unfold nth_char. rewrite ?Nat2Z.id. cbn [app].
    rewrite lookup_middle_at. erewrite bind_done by done. destruct (Z.eqb_spec c SLASH) as [->|Hc]; cbn [negb].
    + rewrite bool_decide_eq_true_2; [done|]. split; [done|]. split; [by eexists|]. right. right. apply lookup_middle_at.
    + rewrite bool_decide_eq_false_2; [done|]. intros (_ & _ & [Hl|[Hl|Hl]]); [lia| |].
      * apply (f_equal length) in Hl. rewrite length_app in Hl. simpl in Hl. lia.
      * rewrite lookup_middle_at in Hl. congruence.
  - destruct k as [|c k]; [|simpl in H2; lia]. erewrite bind_done by done. rewrite Z.eqb_refl. cbn [negb].
    rewrite bool_decide_eq_true_2; [done|]. split; [done|]. split; [by eexists|]. right. left. by rewrite app_nil_r.
Qed.
Lemma scan_skip l i f P fs n s : fs_path f = 0 ∨ fs_ops f = 0 →
  fs_lookup_scan (f :: l) i P fs n s = fs_lookup_scan l (S i) P fs n s.
Proof. intros [E|E]; cbn [fs_lookup_scan]; rewrite E; [done|]. by rewrite orb_comm. Qed.

(** The mount points of a part of the table, counted from [k]. *)
Definition mount_in s (l : list dfs_filesystem) (k i : nat) (m : list Z) : Prop :=
  (k ≤ i)%nat ∧ ∃ f, l !! (i - k)%nat = Some f ∧ fs_path f ≠ 0 ∧ fs_ops f ≠ 0 ∧ cstr (v_heap s) (fs_path f) m.
Definition longest s l k path (r : option nat) : Prop :=
  match r with
  | None => ∀ i m, mount_in s l k i m → ¬ covers m path
  | Some i => ∃ m, mount_in s l k i m ∧ covers m path ∧
      ∀ j m', mount_in s l k j m' → covers m' path → (length m' ≤ length m)%nat
  end.
Lemma mount_in_cons s f l k i m : mount_in s (f :: l) k i m ↔
  (i = k ∧ fs_path f ≠ 0 ∧ fs_ops f ≠ 0 ∧ cstr (v_heap s) (fs_path f) m) ∨ mount_in s l (S k) i m.
Proof.
  unfold mount_in. split.
  - intros (Hi & g & Hg & Hr). destruct (decide (i = k)) as [->|Hne].
    + rewrite Nat.sub_diag in Hg. injection Hg as <-. by left.
    + right. split; [lia|]. exists g. by replace (i - k)%nat with (S (i - S k)) in Hg by lia.
  - intros [(-> & Hr)|(Hi & g & Hg & Hr)].
    + split; [lia|]. exists f. by rewrite Nat.sub_diag.
    + split; [lia|]. exists g. by replace (i - k)%nat with (S (i - S k)) by lia.
Qed.
Lemma cstr_inj h p t t' : cstr h p t → cstr h p t' → t = t'.
Proof.
  intros [Ht [r Hr]] [Ht' [r' Hr']]. rewrite Hr in Hr'. injection Hr' as E. clear Hr. revert t' Ht' E.
  induction Ht as [|c t Hc _ IH]; intros t' Ht' E; destruct Ht' as [|c' t' Hc' Ht']; [done| | |]; simpl in E.
  - injection E as <- _. lia.
  - injection E as -> _. lia.
  - injection E as <- E. f_equal. by eapply IH.
Qed.

(** The rest of the loop: what was found last is kept unless an entry is at least as long. *)
Lemma scan_spec l k path rest fs (n : nat) s : Forall (entry_ok s) l → chars path →
  ∃ r, fs_lookup_scan l k (path ++ 0 :: rest) fs (Z.of_nat n) s = Done r s ∧
    ((r = fs ∧ ∀ i m, mount_in s l k i m → covers m path → (length m < n)%nat) ∨
     (∃ i m, r = Some i ∧ mount_in s l k i m ∧ covers m path ∧ (n ≤ length m)%nat ∧
        ∀ j m', mount_in s l k j m' → covers m' path → (length m' ≤ length m)%nat)).
Proof.
  intros Hl Hp. revert k fs n. induction Hl as [|f l Hf _ IH]; intros k fs n.
  { exists fs. split; [done|]. left. split; [done|]. by intros i m (_ & g & Hg & _). }
  destruct (decide (fs_path f = 0 ∨ fs_ops f = 0)) as [Hz|Hz].
  { rewrite scan_skip by done. destruct (IH (S k) fs n) as (r & E & H). exists r. split; [done|].
    destruct H as [[-> H]|(i & m & -> & Hi & Hc & Hn & H)].
    - left. split; [done|]. intros i m Hi. apply mount_in_cons in Hi as [Hi|Hi]; [naive_solver|by eapply H].
    - right. exists i, m. split_and!; [done|apply mount_in_cons; by right|done|done|].
      intros j m' Hj. apply mount_in_cons in Hj as [Hj|Hj]; [naive_solver|by eapply H]. }
  destruct Hf as [?|[?|[m Hm]]]; [naive_solver..|]. pose proof Hm as [Hmc [r0 Hr0]].
  rewrite (scan_turn _ _ _ m r0) by naive_solver. case_bool_decide as Hcov.
  - destruct Hcov as [Hn Hcov]. destruct (IH (S k) (Some k) (length m)) as (r & E & H). exists r. split; [done|].
    right. destruct H as [[-> H]|(i & m' & -> & Hi & Hc & Hn' & H)].
    + exists k, m. split_and!; [done|apply mount_in_cons; left; naive_solver|done|lia|].
      intros j m' Hj Hc. apply mount_in_cons in Hj as [(-> & _ & _ & Hm')|Hj].
      * by rewrite (cstr_inj _ _ _ _ Hm Hm').
      * specialize (H _ _ Hj Hc). lia.
    + exists i, m'. split_and!; [done|apply mount_in_cons; by right|done|lia|].
      intros j m1 Hj Hc1. apply mount_in_cons in Hj as [(-> & _ & _ & Hm1)|Hj]; [|by eapply H].
      rewrite <- (cstr_inj _ _ _ _ Hm Hm1). lia.
  - destruct (IH (S k) fs n) as (r & E & H). exists r. split; [done|].
    assert (Hk : ∀ m', cstr (v_heap s) (fs_path f) m' → covers m' path → (length m' < n)%nat).
    { intros m' Hm' Hc. rewrite <- (cstr_inj _ _ _ _ Hm Hm') in *. destruct (decide (n ≤ length m)%nat); [|lia].
      exfalso. apply Hcov. split; [lia|done]. }
    destruct H as [[-> H]|(i & m' & -> & Hi & Hc & Hn' & H)].
    + left. split; [done|]. intros i m' Hi Hc. apply mount_in_cons in Hi as [Hi|Hi]; [naive_solver|by eapply H].
    + right. exists i, m'. split_and!; [done|apply mount_in_cons; by right|done|done|].
      intros j m1 Hj Hc1. apply mount_in_cons in Hj as [(-> & _ & _ & Hm1)|Hj]; [|by eapply H].
      specialize (Hk _ Hm1 Hc1). lia.
Qed.
Lemma mount_in_mounted s i m : mount_in s (v_fs s) 0 i m ↔ ∃ f, mounted s i f m.
Proof. unfold mount_in, mounted. rewrite Nat.sub_0_r. naive_solver lia. Qed.

Lemma dfs_filesystem_lookup_spec path rest s :
  Forall (entry_ok s) (v_fs s) → chars path → 0 ≤ v_lock s →
  ∃ r, dfs_filesystem_lookup (path ++ 0 :: rest) s = Done r s ∧
    match r with
    | None => ∀ i f m, mounted s i f m → ¬ covers m path
    | Some i => ∃ f m, mounted s i f m ∧ covers m path ∧
        ∀ j f' m', mounted s j f' m' → covers m' path → (length m' ≤ length m)%nat
    end.
Proof.
  intros Hl Hp Hk. unfold dfs_filesystem_lookup. erewrite bind_done by apply lock_spec.
  erewrite bind_done by apply getv_spec.
  destruct (scan_spec (v_fs (locked s)) 0 path rest None 0 (locked s) Hl Hp) as (r & E & H). change (Z.of_nat 0) with 0 in E.
  erewrite bind_done by exact E. erewrite bind_done by (by apply unlock_spec). exists r. split; [done|].
  assert (Hm : ∀ i m, mount_in (locked s) (v_fs (locked s)) 0 i m ↔ ∃ f, mounted s i f m) by apply (mount_in_mounted (locked s)).
  destruct H as [[-> H]|(i & m & -> & Hi & Hc & _ & H)].
  - intros i f m Hi Hc. assert (length m < 0)%nat; [|lia]. apply (H i); [apply Hm; by exists f|done].
  - apply Hm in Hi as [f Hf]. exists f, m. split_and!; [done..|]. intros j f' m' Hj. apply (H j). apply Hm. by exists f'.
Qed.
(** C30. The look-up gives the file system mounted deepest on the way to the path: its mount point
    covers the path by whole names, and no other mount point that does is longer. *)
Theorem dfs_filesystem_lookup_correct path rest s :
  Forall (entry_ok s) (v_fs s) → chars path → 0 ≤ v_lock s →
  ∃ r, dfs_filesystem_lookup (path ++ 0 :: rest) s = Done r s ∧
    match r with
    | None => ∀ i f m, mounted s i f m → ¬ covers m path
    | Some i => ∃ f m, mounted s i f m ∧ covers m path ∧
        ∀ j f' m', mounted s j f' m' → covers m' path → (length m' ≤ length m)%nat
    end.
Proof. apply dfs_filesystem_lookup_spec. Qed.
End tables.
