(* ===== verification/DfsFile.v ===== *)
(** The file layer of the device file system ([dfs_file.c]): a path or a descriptor is
    resolved to its file system, whose operation does the work.

    The buffer a call fills is part of its result. *)

From stdpp Require Import base gmap list strings.
From Stdlib Require Import ZArith Lia.
From S2P Require Import Prelude Kservice Printf Halts DfsState DfsPath Dfs.

Open Scope Z_scope.

Section file.
Context {X : Type} `{!libc, !allocator, !fs_types X}.

Definition root_path : list Z := [SLASH; 0].

(** The path a file system gets to see: the part below the point where it is mounted. *)
Definition below (i : nat) (fullpath : list Z) : D X (option (list Z)) :=
  f ← get_fs i; mp ← block (fs_path f); dfs_subdir mp fullpath.

(** The way out of [dfs_file_open] after a failure of the file system. *)
Definition open_failed (fd : Z) (result : Z) : D X Z :=
  d ← get_fd fd; rt_free (fd_path d);; upd_fd fd (set_fd_path 0);; mret result.
(** The path of the descriptor. *)
Definition open_path (fd : Z) (i : nat) (fullpath : Z) : D X unit :=
  o ← ops_of i;
  if negb (flag_test (op_flags o) DFS_FS_FLAG_FULLPATH) then
    path ← block fullpath;
    sub ← below i path;
    p ← rt_strdup (default root_path sub);
    upd_fd fd (set_fd_path p);;
    rt_free fullpath
  else upd_fd fd (set_fd_path fullpath).
Definition dfs_file_open (fd : option Z) (path : list Z) (flags : Z) : D X Z :=
  match fd with
  | None => mret (- EINVAL)
  | Some fd =>
    fullpath ← dfs_normalize_path None path;
    if fullpath =? 0 then mret (-1)
    else
      p ← block fullpath;
      fs ← dfs_filesystem_lookup p;
      match fs with
      | None => rt_free fullpath;; mret (- ENOENT)
      | Some i =>
        upd_fd fd (set_fd_fs (Some i));;
        upd_fd fd (set_fd_type FT_REGULAR);;
        upd_fd fd (set_fd_flags (u32 flags));;
        upd_fd fd (set_fd_size 0);;
        upd_fd fd (set_fd_pos 0);;
        open_path fd i fullpath;;
        o ← ops_of i;
        match op_open o with
        | None => open_failed fd (- ENOSYS)
        | Some open =>
          result ← open fd;
          if result <? 0 then open_failed fd result
          else
            upd_fd fd (λ d, set_fd_flags (Z.lor (fd_flags d) DFS_F_OPEN) d);;
            (if flag_test flags O_DIRECTORY then
               upd_fd fd (set_fd_type FT_DIRECTORY);;
               upd_fd fd (λ d, set_fd_flags (Z.lor (fd_flags d) DFS_F_DIRECTORY) d)
             else mret tt);;
            mret 0
        end
      end
  end.

(** The operations of the file system of a descriptor. *)
Definition fd_ops (fd : Z) : D X (dfs_filesystem_operation X) :=
  d ← get_fd fd; i ← of_option BadPointer (fd_fs d); ops_of i.

Definition dfs_file_close (fd : option Z) : D X Z :=
  match fd with
  | None => mret (- ENXIO)
  | Some fd =>
    o ← fd_ops fd;
    result ← match op_close o with None => mret 0 | Some close => close fd end;
    if result <? 0 then mret result
    else d ← get_fd fd; rt_free (fd_path d);; upd_fd fd (set_fd_path 0);; mret result
  end.
Definition dfs_file_ioctl (fd : option Z) (cmd args : Z) : D X Z :=
  match fd with
  | None => mret (- EINVAL)
  | Some fd =>
    d ← get_fd fd;
    if negb (fd_type d =? FT_REGULAR) then mret (- EINVAL)
    else o ← fd_ops fd; match op_ioctl o with Some ioctl => ioctl fd cmd args | None => mret (- ENOSYS) end
  end.
Definition dfs_file_read (fd : option Z) (len : Z) : D X (Z * list Z) :=
  match fd with
  | None => mret (- EINVAL, [])
  | Some fd =>
    o ← fd_ops fd;
    match op_read o with
    | None => mret (- ENOSYS, [])
    | Some read =>
      r ← read fd len;
      (if (r : Z * list Z).1 <? 0 then upd_fd fd (λ d, set_fd_flags (Z.lor (fd_flags d) DFS_F_EOF) d) else mret tt);;
      mret r
    end
  end.
Definition dfs_file_getdents (fd : option Z) (nbytes : Z) : D X (Z * list dirent) :=
  match fd with
  | None => mret (- EINVAL, [])
  | Some fd =>
    d ← get_fd fd;
    if negb (fd_type d =? FT_DIRECTORY) then mret (- EINVAL, [])
    else
      o ← fd_ops fd;
      match op_getdents o with Some getdents => getdents fd nbytes | None => mret (- ENOSYS, []) end
  end.
Definition dfs_file_unlink (path : list Z) : D X Z :=
  fullpath ← dfs_normalize_path None path;
  if fullpath =? 0 then mret (- EINVAL)
  else
    p ← block fullpath;
    fs ← dfs_filesystem_lookup p;
    result ← match fs with
      | None => mret (- ENOENT)
      | Some i =>
        busy ← fd_is_open p;
        if busy =? 0 then mret (- EBUSY)
        else
          o ← ops_of i;
          match op_unlink o with
          | None => mret (- ENOSYS)
          | Some unlink =>
            if negb (flag_test (op_flags o) DFS_FS_FLAG_FULLPATH) then
              sub ← below i p; unlink i (default root_path sub)
            else unlink i p
          end
      end;
    rt_free fullpath;;
    mret result.
Definition dfs_file_write (fd : option Z) (buf : list Z) : D X Z :=
  match fd with
  | None => mret (- EINVAL)
  | Some fd => o ← fd_ops fd; match op_write o with None => mret (- ENOSYS) | Some write => write fd buf end
  end.
Definition dfs_file_flush (fd : option Z) : D X Z :=
  match fd with
  | None => mret (- EINVAL)
  | Some fd => o ← fd_ops fd; match op_flush o with None => mret (- ENOSYS) | Some flush => flush fd end
  end.
(** [fd->fs] is read before [fd] is compared with the null pointer. *)
Definition dfs_file_lseek (fd : option Z) (offset : Z) : D X Z :=
  fd ← of_option BadPointer fd;
  d ← get_fd fd;
  match fd_fs d with
  | None => mret (- EINVAL)
  | Some i =>
    o ← ops_of i;
    match op_lseek o with
    | None => mret (- ENOSYS)
    | Some lseek =>
      result ← lseek fd offset;
      (if 0 <=? result then upd_fd fd (set_fd_pos result) else mret tt);;
      mret result
    end
  end.
Definition root_stat : stat := Stat 0 (Z.lor S_IRWALL (Z.lor S_IFDIR S_IXALL)) 0 0.
Definition dfs_file_stat (path : list Z) : D X (Z * option stat) :=
  fullpath ← dfs_normalize_path None path;
  if fullpath =? 0 then mret (-1, None)
  else
    p ← block fullpath;
    fs ← dfs_filesystem_lookup p;
    match fs with
    | None => rt_free fullpath;; mret (- ENOENT, None)
    | Some i =>
      root ← is_root p;
      sub ← (if (root : bool) then mret None else below i p);
      match sub with
      | None => rt_free fullpath;; mret (DFS_STATUS_OK, Some root_stat)
      | Some sub =>
        o ← ops_of i;
        match op_stat o with
        | None => rt_free fullpath;; mret (- ENOSYS, None)
        | Some stat =>
          '((result, st) : Z * DfsState.stat) ←
            (if flag_test (op_flags o) DFS_FS_FLAG_FULLPATH then stat i p else stat i sub);
          rt_free fullpath;;
          mret (result, Some st)
        end
      end
    end.
(** The call of the file system for two paths on it. *)
Definition rename_in (oldfs newfs : nat) (old new : list Z) : D X Z :=
  o ← ops_of oldfs;
  match op_rename o with
  | None => mret (- ENOSYS)
  | Some rename =>
    if flag_test (op_flags o) DFS_FS_FLAG_FULLPATH then rename oldfs (Some old) (Some new)
    else a ← below oldfs old; b ← below newfs new; rename oldfs a b
  end.
Definition dfs_file_rename (oldpath newpath : list Z) : D X Z :=
  oldfullpath ← dfs_normalize_path None oldpath;
  if oldfullpath =? 0 then rt_free 0;; rt_free 0;; mret (- ENOENT)
  else
    newfullpath ← dfs_normalize_path None newpath;
    result ←
      (if newfullpath =? 0 then mret (- ENOENT)
       else
         old ← block oldfullpath;
         new ← block newfullpath;
         oldfs ← dfs_filesystem_lookup old;
         newfs ← dfs_filesystem_lookup new;
         if decide (oldfs = newfs) then
           match oldfs, newfs with
           | Some i, Some j => rename_in i j old new
           | _, _ => fail BadPointer
           end
         else mret (- EXDEV));
    rt_free oldfullpath;;
    rt_free newfullpath;;
    mret result.
End file.
