(* ===== verification/DfsFs.v ===== *)
(** Mounting and unmounting of file systems ([dfs_fs.c]). *)

From stdpp Require Import base gmap list strings.
From Stdlib Require Import ZArith Lia.
From S2P Require Import Prelude Kservice Printf Halts DfsState DfsPath Dfs DfsFile Device.

Open Scope Z_scope.

Section fs.
Context {X : Type} `{!libc, !allocator, !fs_types X, !device_calls X}.
(** What a local variable of type [struct dfs_fd] holds before it is assigned. *)
Context (junk : dfs_fd).

(** The loop over [filesystem_operation_table] in [dfs_mount], which does not skip empty
    entries. *)
Fixpoint type_scan (l : list Z) (name : list Z) : D X (option Z) :=
  match l with
  | [] => mret None
  | ops :: l =>
    o ← get_ops ops;
    same ← str_eq (op_name o) name;
    if (same : bool) then mret (Some ops) else type_scan l name
  end.
(** The loop over [filesystem_table]: the first empty entry, and whether the path is new. *)
Fixpoint entry_scan (l : list dfs_filesystem) (i : nat) (fs : option nat) (path : list Z) : D X (option nat * bool) :=
  match l with
  | [] => mret (fs, true)
  | iter :: l =>
    if fs_ops iter =? 0 then entry_scan l (S i) (match fs with None => Some i | _ => fs end) path
    else
      p ← block (fs_path iter);
      same ← str_eq p path;
      if (same : bool) then mret (fs, false) else entry_scan l (S i) fs path
  end.

Definition dev_path : list Z := text "/dev" ++ [0].
(** The test that the directory exists. *)
Definition directory_exists (fullpath : list Z) : D X bool :=
  root ← str_eq fullpath root_path;
  dev ← (if (root : bool) then mret false else str_eq fullpath dev_path);
  if root || dev then mret true
  else
    local_fd junk (λ fd,
      result ← dfs_file_open (Some fd) fullpath (Z.lor O_RDONLY O_DIRECTORY);
      if result <? 0 then mret false else _ ← dfs_file_close (Some fd); mret true).

(** The way out [err1], with the lock held. *)
Definition mount_failed (fullpath : Z) : D X Z := dfs_unlock;; rt_free fullpath;; mret (-1).
(** The device and the file system are opened. *)
Definition mount_entry (i : nat) (ops dev_id fullpath rwflag data : Z) : D X Z :=
  opened ← (if dev_id =? 0 then mret true
            else r ← device_open dev_id RT_DEVICE_OFLAG_RDWR; mret (r =? 0));
  if negb opened then dfs_lock;; put_fs i zero_fs;; mount_failed fullpath
  else
    o ← get_ops ops;
    mount ← of_option BadPointer (op_mount o);
    result ← mount i rwflag data;
    if result <? 0 then
      (if dev_id =? 0 then mret tt else f ← get_fs i; _ ← device_close (fs_dev_id f); mret tt);;
      dfs_lock;;
      put_fs i zero_fs;;
      mount_failed fullpath
    else mret 0.
(** From the search for an entry on. *)
Definition mount_at (ops dev_id fullpath : Z) (path : list Z) (rwflag data : Z) : D X Z :=
  dfs_lock;;
  l ← getv v_fs;
  '((fs, new) : option nat * bool) ← entry_scan l 0 None path;
  if negb new then rt_set_errno (- EINVAL);; mount_failed fullpath
  else
    match fs with
    | None => rt_set_errno (- ENOSPC);; mount_failed fullpath
    | Some i =>
      f ← get_fs i;
      put_fs i (Filesystem dev_id fullpath ops (fs_data f));;
      dfs_unlock;;
      mount_entry i ops dev_id fullpath rwflag data
    end.
Definition refuse (e : Z) : D X Z := rt_set_errno e;; mret (-1).
Definition dfs_mount (device_name : option (list Z)) (path filesystemtype : list Z) (rwflag data : Z) : D X Z :=
  dev_id ← match device_name with None => mret 0 | Some n => device_find n end;
  if bool_decide (device_name ≠ None) && (dev_id =? 0) then refuse (- ENODEV)
  else
    dfs_lock;;
    l ← getv v_ops;
    ops ← type_scan l filesystemtype;
    dfs_unlock;;
    match ops with
    | None => refuse (- ENODEV)
    | Some ops =>
      o ← get_ops ops;
      match op_mount o with
      | None => refuse (- ENOSYS)
      | Some _ =>
        fullpath ← dfs_normalize_path None path;
        if fullpath =? 0 then refuse (- ENOTDIR)
        else
          p ← block fullpath;
          found ← directory_exists p;
          if negb found then rt_free fullpath;; refuse (- ENOTDIR)
          else mount_at ops dev_id fullpath path rwflag data
      end
    end.

Fixpoint unmount_scan (l : list dfs_filesystem) (i : nat) (fullpath : list Z) : D X (option nat) :=
  match l with
  | [] => mret None
  | iter :: l =>
    same ← (if fs_path iter =? 0 then mret false else p ← block (fs_path iter); str_eq p fullpath);
    if (same : bool) then mret (Some i) else unmount_scan l (S i) fullpath
  end.
(** The unmounting of an entry by its file system. *)
Definition unmount_entry (i : nat) : D X bool :=
  o ← ops_of i;
  match op_unmount o with
  | None => mret false
  | Some unmount => r ← unmount i; mret (0 <=? r)
  end.
Definition dfs_unmount (specialfile : list Z) : D X Z :=
  fullpath ← dfs_normalize_path None specialfile;
  if fullpath =? 0 then refuse (- ENOTDIR)
  else
    p ← block fullpath;
    dfs_lock;;
    l ← getv v_fs;
    fs ← unmount_scan l 0 p;
    done ← match fs with None => mret false | Some i => unmount_entry i end;
    match fs, (done : bool) with
    | Some i, true =>
      f ← get_fs i;
      (if fs_dev_id f =? 0 then mret tt else _ ← device_close (fs_dev_id f); mret tt);;
      f ← get_fs i;
      rt_free (fs_path f);;
      put_fs i zero_fs;;
      dfs_unlock;;
      rt_free fullpath;;
      mret 0
    | _, _ => dfs_unlock;; rt_free fullpath;; mret (-1)
    end.

Fixpoint mkfs_scan (l : list Z) (name : list Z) : D X (option Z) :=
  match l with
  | [] => mret None
  | ops :: l =>
    same ← (if ops =? 0 then mret false else o ← get_ops ops; str_eq (op_name o) name);
    if (same : bool) then mret (Some ops) else mkfs_scan l name
  end.
Definition dfs_mkfs (fs_name : list Z) (device_name : option (list Z)) : D X Z :=
  dev_id ← match device_name with None => mret 0 | Some n => device_find n end;
  if dev_id =? 0 then refuse (- ENODEV)
  else
    dfs_lock;;
    l ← getv v_ops;
    ops ← mkfs_scan l fs_name;
    dfs_unlock;;
    match ops with
    | Some ops =>
      o ← get_ops ops;
      match op_mkfs o with None => refuse (- ENOSYS) | Some mkfs => mkfs dev_id end
    | None =>
      kprintf (text "Can not find the file system which named as %s." ++ [10]) [VStr (Some fs_name)];;
      mret (-1)
    end.

Definition dfs_statfs (path : list Z) : D X (Z * option statfs) :=
  fs ← dfs_filesystem_lookup path;
  match fs with
  | None => mret (-1, None)
  | Some i =>
    o ← ops_of i;
    match op_statfs o with
    | None => mret (-1, None)
    | Some statfs =>
      '((r, b) : Z * DfsState.statfs) ← statfs i;
      mret (r, Some b)
    end
  end.
End fs.
