(* ===== verification/DfsPosix.v ===== *)
(** The POSIX layer of the device file system ([dfs_posix.c]): file descriptors are numbers,
    every call counts its own reference, errors are -1 and [errno]. *)

From stdpp Require Import base gmap list strings.
From Stdlib Require Import ZArith Lia.
From S2P Require Import Prelude Kservice Printf Halts DfsState DfsPath Dfs DfsFile DfsFs.

Open Scope Z_scope.

Section posix.
Context {X : Type} `{!libc, !allocator, !fs_types X}.

(** [rt_set_errno(e); return -1;] *)
Definition failed (e : Z) : D X Z := rt_set_errno e;; mret (-1).
(** A call on a descriptor: [EBADF] when it is not open. *)
Definition with_fd {A} (fd : Z) (bad : A) (f : Z → D X A) : D X A :=
  d ← fd_get fd;
  match d with None => rt_set_errno (- EBADF);; mret bad | Some d => f d end.

(** * Files *)

Definition open (file : list Z) (flags : Z) : D X Z :=
  fd ← fd_new;
  if fd <? 0 then failed (- ENOMEM)
  else
    d ← fd_get fd;
    result ← dfs_file_open d file flags;
    if result <? 0 then fd_put d;; fd_put d;; failed result
    else fd_put d;; mret fd.
Definition close (fd : Z) : D X Z :=
  with_fd fd (-1) (λ d,
    result ← dfs_file_close (Some d);
    fd_put (Some d);;
    if result <? 0 then failed result else fd_put (Some d);; mret 0).
Definition read (fd len : Z) : D X (Z * list Z) :=
  with_fd fd (-1, []) (λ d,
    '((result, buf) : Z * list Z) ← dfs_file_read (Some d) len;
    fd_put (Some d);;
    if result <? 0 then rt_set_errno result;; mret (-1, buf) else mret (result, buf)).
Definition write (fd : Z) (buf : list Z) : D X Z :=
  with_fd fd (-1) (λ d,
    result ← dfs_file_write (Some d) buf;
    fd_put (Some d);;
    if result <? 0 then failed result else mret result).

(** The sum of two signed numbers, which C leaves undefined when it overflows. *)
Definition add_off (a b : Z) : D X Z :=
  if a + b =? i32 (a + b) then mret (a + b) else fail Undefined.
Definition lseek (fd offset whence : Z) : D X Z :=
  with_fd fd (-1) (λ d,
    f ← get_fd d;
    offset ←
      (if whence =? SEEK_SET then mret (Some offset)
       else if whence =? SEEK_CUR then o ← add_off offset (fd_pos f); mret (Some o)
       else if whence =? SEEK_END then mret (Some (i32 (offset + fd_size f)))
       else mret None);
    match offset with
    | None => fd_put (Some d);; failed (- EINVAL)
    | Some offset =>
      if offset <? 0 then fd_put (Some d);; failed (- EINVAL)
      else
        result ← dfs_file_lseek (Some d) offset;
        fd_put (Some d);;
        if result <? 0 then failed result else mret offset
    end).

(** The result of the file layer as one of POSIX. *)
Definition posix_result (result : Z) : D X Z := if result <? 0 then failed result else mret 0.
Definition rename (old new : list Z) : D X Z := result ← dfs_file_rename old new; posix_result result.
Definition unlink (pathname : list Z) : D X Z := result ← dfs_file_unlink pathname; posix_result result.
Definition rmdir (pathname : list Z) : D X Z := result ← dfs_file_unlink pathname; posix_result result.
Definition stat (file : list Z) : D X (Z * option DfsState.stat) :=
  '((result, buf) : Z * option DfsState.stat) ← dfs_file_stat file;
  if result <? 0 then rt_set_errno result;; mret (-1, buf) else mret (result, buf).
Definition fstat (fildes : Z) : D X (Z * option DfsState.stat) :=
  with_fd fildes (-1, None) (λ d,
    f ← get_fd d;
    let mode := Z.lor S_IFREG S_IRWALL in
    let mode := if fd_type f =? FT_DIRECTORY
                then Z.lor (Z.land mode (Z.lnot S_IFREG)) (Z.lor S_IFDIR S_IXALL) else mode in
    fd_put (Some d);;
    mret (DFS_STATUS_OK, Some (Stat 0 mode (fd_size f) 0))).
Definition fsync (fildes : Z) : D X Z :=
  with_fd fildes (-1) (λ d, ret ← dfs_file_flush (Some d); fd_put (Some d);; mret ret).
Definition ioctl (fildes cmd data : Z) : D X Z :=
  with_fd fildes (-1) (λ d,
    ret ← dfs_file_ioctl (Some d) cmd data;
    ret ← (if negb (ret =? DFS_STATUS_OK) then rt_set_errno ret;; mret (-1) else mret ret);
    fd_put (Some d);;
    mret ret).
Definition statfs (path : list Z) : D X (Z * option DfsState.statfs) :=
  '((result, buf) : Z * option DfsState.statfs) ← dfs_statfs path;
  if result <? 0 then rt_set_errno result;; mret (-1, buf) else mret (result, buf).

(** * Directories *)

Definition mkdir (path : list Z) : D X Z :=
  fd ← fd_new;
  if fd =? -1 then failed (- ENOMEM)
  else
    d ← fd_get fd;
    result ← dfs_file_open d path (Z.lor O_DIRECTORY O_CREAT);
    if result <? 0 then fd_put d;; fd_put d;; failed result
    else _ ← dfs_file_close d; fd_put d;; fd_put d;; mret 0.

Definition get_dir (p : Z) : D X dir := _ ← block p; m ← getv v_dirs; of_option BadPointer (m !! p).
Definition put_dir (p : Z) (d : dir) : D X unit := modify (λ s, set_v_dirs (<[p := d]> (v_dirs s)) s).

Definition opendir (name : list Z) : D X Z :=
  fd ← fd_new;
  if fd =? -1 then rt_set_errno (- ENOMEM);; mret 0
  else
    d ← fd_get fd;
    result ← dfs_file_open d name (Z.lor O_RDONLY O_DIRECTORY);
    if 0 <=? result then
      t ← rt_malloc sizeof_DIR;
      (if t =? 0 then _ ← dfs_file_close d; fd_put d else put_dir t (Dir fd [] 0 0));;
      fd_put d;;
      mret t
    else fd_put d;; fd_put d;; rt_set_errno result;; mret 0.

(** The entry at an offset of the buffer; the memory behind the entries is zero. *)
Definition entry_at_offset (buf : list dirent) (cur : Z) : D X dirent :=
  if (cur mod sizeof_dirent =? 0) && (0 <=? cur) && (cur <? sizeof_dir_buf)
  then mret (default (Dirent 0 0 0 []) (buf !! Z.to_nat (cur / sizeof_dirent)))
  else fail BadPointer.
Definition readdir (p : Z) : D X (option dirent) :=
  d ← get_dir p;
  with_fd (dir_fd d) None (λ fd,
    (if negb (dir_num d =? 0) then
       e ← entry_at_offset (dir_buf d) (dir_cur d);
       put_dir p (Dir (dir_fd d) (dir_buf d) (dir_num d) (i32 (dir_cur d + d_reclen e)))
     else mret tt);;
    d ← get_dir p;
    if (dir_num d =? 0) || (dir_num d <=? dir_cur d) then
      '((result, buf) : Z * list dirent) ← dfs_file_getdents (Some fd) (sizeof_dir_buf - 1);
      if result <=? 0 then fd_put (Some fd);; rt_set_errno result;; mret None
      else
        put_dir p (Dir (dir_fd d) buf result 0);;
        fd_put (Some fd);;
        e ← entry_at_offset buf 0;
        mret (Some e)
    else
      fd_put (Some fd);;
      e ← entry_at_offset (dir_buf d) (dir_cur d);
      mret (Some e)).
Definition telldir (p : Z) : D X Z :=
  d ← get_dir p;
  with_fd (dir_fd d) 0 (λ fd,
    f ← get_fd fd;
    fd_put (Some fd);;
    mret (i32 (fd_pos f - dir_num d + dir_cur d))).
Definition seekdir (p offset : Z) : D X unit :=
  d ← get_dir p;
  with_fd (dir_fd d) tt (λ fd,
    r ← dfs_file_lseek (Some fd) offset;
    (if 0 <=? r then put_dir p (Dir (dir_fd d) (dir_buf d) 0 0) else mret tt);;
    fd_put (Some fd)).
Definition rewinddir (p : Z) : D X unit :=
  d ← get_dir p;
  with_fd (dir_fd d) tt (λ fd,
    r ← dfs_file_lseek (Some fd) 0;
    (if 0 <=? r then put_dir p (Dir (dir_fd d) (dir_buf d) 0 0) else mret tt);;
    fd_put (Some fd)).
Definition free_dir (p : Z) : D X unit := rt_free p;; modify (λ s, set_v_dirs (delete p (v_dirs s)) s).
Definition closedir (p : Z) : D X Z :=
  d ← get_dir p;
  with_fd (dir_fd d) (-1) (λ fd,
    result ← dfs_file_close (Some fd);
    fd_put (Some fd);;
    fd_put (Some fd);;
    free_dir p;;
    if result <? 0 then failed result else mret 0).

(** * The working directory *)

(** The part of [chdir] with the lock held. *)
Definition chdir_locked (fullpath : Z) : D X Z :=
  p ← block fullpath;
  d ← opendir p;
  if d =? 0 then rt_free fullpath;; dfs_unlock;; mret (-1)
  else
    _ ← closedir d;
    cwd ← getv v_cwd;
    cwd ← of_option BadPointer (rt_strncpy cwd p DFS_PATH_MAX);
    modify (set_v_cwd cwd);;
    rt_free fullpath;;
    dfs_unlock;;
    mret 0.
Definition chdir (path : option (list Z)) : D X Z :=
  match path with
  | None =>
    dfs_lock;;
    cwd ← getv v_cwd;
    kprintf (text "%s" ++ [10]) [VStr (Some cwd)];;
    dfs_unlock;;
    mret 0
  | Some path =>
    n ← strlen path;
    if Z.of_nat DFS_PATH_MAX <? n then failed (- ENOTDIR)
    else
      fullpath ← dfs_normalize_path None path;
      if fullpath =? 0 then failed (- ENOTDIR) else dfs_lock;; chdir_locked fullpath
  end.
Definition getcwd (buf : list Z) (size : Z) : D X (list Z) :=
  cwd ← getv v_cwd; of_option BadPointer (rt_strncpy buf cwd (Z.to_nat size)).
End posix.
