(* ===== verification/DfsInv.v ===== *)
(** What file systems promise to the device file system, and the invariant of its state:
    every block of the heap has exactly one owner, descriptors are free or open on a mounted
    file system, and directory streams stand at an entry. *)

From stdpp Require Import base gmap list sorting.
From Stdlib Require Import ZArith Lia.
From S2P Require Import Prelude Halts Kservice DfsState DfsPath Dfs.

Open Scope Z_scope.

(** * Ownership *)

Definition keys {A} (m : gmap Z A) : list Z := (map_to_list m).*1.
Definition nz (p : Z) : list Z := if p =? 0 then [] else [p].
Definition fd_ids : list Z := [0; 1; 2; 3].
Definition fd_paths (m : gmap Z dfs_fd) : list Z := concat ((λ a, nz (from_option fd_path 0 (m !! a))) <$> fd_ids).
Definition fs_paths (l : list dfs_filesystem) : list Z := concat ((λ f, nz (fs_path f)) <$> l).

Lemma keys_insert {A} (m : gmap Z A) p x : m !! p = None → keys (<[p := x]> m) ≡ₚ p :: keys m.
Proof. intros H. unfold keys. by rewrite map_to_list_insert. Qed.
Lemma keys_delete {A} (m : gmap Z A) p x : m !! p = Some x → keys m ≡ₚ p :: keys (delete p m).
Proof. intros H. rewrite <- (insert_delete_id m p x H) at 1. by rewrite keys_insert by apply lookup_delete_eq. Qed.
Lemma keys_update {A} (m : gmap Z A) p x y : m !! p = Some x → keys (<[p := y]> m) ≡ₚ keys m.
Proof.
  intros H. rewrite (keys_delete m p x H). rewrite <- insert_delete_eq. by rewrite keys_insert by apply lookup_delete_eq.
Qed.
Lemma keys_nodup {A} (m : gmap Z A) : NoDup (keys m).
Proof. apply NoDup_fst_map_to_list. Qed.
Lemma elem_keys {A} (m : gmap Z A) p : p ∈ keys m ↔ is_Some (m !! p).
Proof.
  unfold keys. rewrite list_elem_of_fmap. split.
  - intros ([q x] & -> & H). apply elem_of_map_to_list in H. by exists x.
  - intros [x H]. exists (p, x). split; [done|]. by apply elem_of_map_to_list.
Qed.
Lemma nz_pos p : p ≠ 0 → nz p = [p].
Proof. intros H. unfold nz. by rewrite (proj2 (Z.eqb_neq p 0)). Qed.

(** The paths of the descriptors but one. *)
Lemma fd_paths_at m a d : a ∈ fd_ids → m !! a = Some d →
  ∃ r, fd_paths m ≡ₚ nz (fd_path d) ++ r ∧ ∀ d', fd_paths (<[a := d']> m) ≡ₚ nz (fd_path d') ++ r.
Proof.
  intros Ha Hd. unfold fd_paths. apply list_elem_of_split in Ha as (l1 & l2 & E).
  assert (NoDup fd_ids) as Hn by (repeat constructor; set_solver). rewrite E in *. clear E.
  exists (concat ((λ a, nz (from_option fd_path 0 (m !! a))) <$> l1 ++ l2)).
  assert (Hsplit : ∀ m' : gmap Z dfs_fd, concat ((λ a, nz (from_option fd_path 0 (m' !! a))) <$> l1 ++ a :: l2) ≡ₚ
    nz (from_option fd_path 0 (m' !! a)) ++ concat ((λ a, nz (from_option fd_path 0 (m' !! a))) <$> l1 ++ l2)).
  { intros m'. rewrite !fmap_app, !concat_app. simpl. by rewrite !(assoc_L (++)), (comm (++) (concat _)). }
  split; [by rewrite Hsplit, Hd|]. intros d'. rewrite Hsplit, lookup_insert_eq. simpl.
  rewrite (list_fmap_ext _ (λ b, nz (from_option fd_path 0 (m !! b)))); [done|]. intros i b Hb.
  rewrite lookup_insert_ne; [done|]. intros ->. apply NoDup_app in Hn as (_ & Hn & Hn2). apply NoDup_cons in Hn2 as [Hn2 _].
  apply list_elem_of_lookup_2, elem_of_app in Hb as [Hb|Hb]; [|done]. apply (Hn _ Hb). by left.
Qed.

(** * File systems *)

(** What a file system says about its data: [good_fs] of a mounted file system (the address of
    its operations, [fs->data]), [good_fd] of an open file (opened as a directory or not; size,
    position, data). *)
Class file_systems (X : Type) := {
  good_fs : Z → Z → X → Prop;
  good_fd : Z → bool → Z → Z → Z → X → Prop
}.

Section laws.
Context {X : Type} {C : libc} {M : allocator} {Types : fs_types X} {FS : file_systems X}.
Implicit Types s : dfs X.

Definition keeps (x x' : X) : Prop :=
  (∀ o v, good_fs o v x → good_fs o v x') ∧ (∀ o b z p v, good_fd o b z p v x → good_fd o b z p v x').
Definition is_dir (d : dfs_fd) : bool := fd_type d =? FT_DIRECTORY.
(** A descriptor on a mounted file system, and one that is open there. *)
Definition at_fs (o : Z) (d : dfs_fd) s : Prop :=
  ∃ i f, fd_fs d = Some i ∧ v_fs s !! i = Some f ∧ fs_ops f = o ∧ o ≠ 0 ∧ is_Some (fs_type o) ∧
    good_fs o (fs_data f) (v_data s) ∧ fd_path d ≠ 0 ∧ ∃ t, cstr (v_heap s) (fd_path d) t.
Definition good (o : Z) (d : dfs_fd) (x : X) : Prop := good_fd o (is_dir d) (fd_size d) (fd_pos d) (fd_data d) x.

(** A call on the descriptor [a] changes its size, position and data, and the data of the
    file systems. *)
Definition same_file (d d' : dfs_fd) : Prop :=
  fd_magic d' = fd_magic d ∧ fd_type d' = fd_type d ∧ fd_path d' = fd_path d ∧ fd_ref_count d' = fd_ref_count d ∧
  fd_fs d' = fd_fs d ∧ fd_flags d' = fd_flags d.
Definition does {A} (m : D X A) (a : Z) (d : dfs_fd) (Q : A → dfs_fd → X → Prop) s : Prop :=
  wp m (λ r s', ∃ d' x', s' = set_v_data x' (fd_set a d' s) ∧ same_file d d' ∧ keeps (v_data s) x' ∧ Q r d' x') s.

(** The promises. *)
Class file_system_laws : Prop := {
  law_pos o b z p v x : good_fd o b z p v x → 0 ≤ p < 2 ^ 30 ∧ 0 ≤ z < 2 ^ 30;
  law_open o ops f a d s : fs_type o = Some ops → op_open ops = Some f → v_fds s !! a = Some d → at_fs o d s →
    does (f a) a d (λ r d' x', 0 ≤ r → good_fd o (flag_test (fd_flags d) O_DIRECTORY) (fd_size d') (fd_pos d') (fd_data d') x') s;
  law_close o ops f a d s : fs_type o = Some ops → op_close ops = Some f → v_fds s !! a = Some d → at_fs o d s →
    good o d (v_data s) →
    does (f a) a d (λ r d' x', 0 ≤ r ∨ (is_dir d = false ∧ good o d' x')) s;
  law_read o ops f a d n s : fs_type o = Some ops → op_read ops = Some f → v_fds s !! a = Some d → at_fs o d s →
    good o d (v_data s) → 0 ≤ n < 2 ^ 31 → does (f a n) a d (λ r d' x', good o d' x') s;
  law_write o ops f a d b s : fs_type o = Some ops → op_write ops = Some f → v_fds s !! a = Some d → at_fs o d s →
    good o d (v_data s) → does (f a b) a d (λ r d' x', good o d' x') s;
  law_flush o ops f a d s : fs_type o = Some ops → op_flush ops = Some f → v_fds s !! a = Some d → at_fs o d s →
    good o d (v_data s) → does (f a) a d (λ r d' x', good o d' x') s;
  law_lseek o ops f a d n s : fs_type o = Some ops → op_lseek ops = Some f → v_fds s !! a = Some d → at_fs o d s →
    good o d (v_data s) → - 2 ^ 31 ≤ n < 2 ^ 31 →
    does (f a n) a d (λ r d' x', good o (if 0 <=? r then set_fd_pos r d' else d') x') s;
  law_getdents o ops f a d n s : fs_type o = Some ops → op_getdents ops = Some f → v_fds s !! a = Some d → at_fs o d s →
    good o d (v_data s) → is_dir d = true → 0 ≤ n < 2 ^ 31 →
    does (f a n) a d (λ '(r, l) d' x', good o d' x' ∧ (r ≤ 0 ∨ r = sizeof_dirent * Z.of_nat (length l) ∧ r ≤ n ∧
      Forall (λ e, d_reclen e = sizeof_dirent) l)) s;
  law_stat o ops f i e t r s : fs_type o = Some ops → op_stat ops = Some f → v_fs s !! i = Some e → fs_ops e = o →
    good_fs o (fs_data e) (v_data s) → chars t →
    wp (f i (t ++ 0 :: r)) (λ _ s', ∃ x', s' = set_v_data x' s ∧ keeps (v_data s) x') s;
  law_unlink o ops f i e t r s : fs_type o = Some ops → op_unlink ops = Some f → v_fs s !! i = Some e → fs_ops e = o →
    good_fs o (fs_data e) (v_data s) → chars t →
    wp (f i (t ++ 0 :: r)) (λ _ s', ∃ x', s' = set_v_data x' s ∧ keeps (v_data s) x') s;
  law_statfs o ops f i e s : fs_type o = Some ops → op_statfs ops = Some f → v_fs s !! i = Some e → fs_ops e = o →
    good_fs o (fs_data e) (v_data s) →
    wp (f i) (λ _ s', ∃ x', s' = set_v_data x' s ∧ keeps (v_data s) x') s;
  law_ioctl o ops f a d cmd args s : fs_type o = Some ops → op_ioctl ops = Some f → v_fds s !! a = Some d → at_fs o d s →
    good o d (v_data s) → does (f a cmd args) a d (λ r d' x', good o d' x') s
}.

(** * The invariant *)

Definition mount_ok s (f : dfs_filesystem) : Prop :=
  (fs_path f = 0 ∧ fs_ops f = 0) ∨
  fs_path f ≠ 0 ∧ fs_ops f ≠ 0 ∧ (∃ m, cstr (v_heap s) (fs_path f) m) ∧ is_Some (fs_type (fs_ops f)) ∧
  good_fs (fs_ops f) (fs_data f) (v_data s).
Definition fd_open (n : Z) s (d : dfs_fd) : Prop :=
  fd_magic d = DFS_FD_MAGIC ∧ fd_ref_count d = n ∧ ∃ o, at_fs o d s ∧ good o d (v_data s).
Definition fd_ok s (d : dfs_fd) : Prop := d = zero_fd ∨ fd_open 1 s d.
(** The buffer of a stream holds one entry at most: two do not fit. *)
Definition dir_ok (t : dir) : Prop :=
  dir_num t = 0 ∨
  dir_num t = sizeof_dirent ∧ (dir_cur t = 0 ∨ dir_cur t = sizeof_dirent) ∧
    ∃ e, dir_buf t = [e] ∧ d_reclen e = sizeof_dirent.
Definition owned s : list Z := fd_paths (v_fds s) ++ fs_paths (v_fs s) ++ keys (v_dirs s).
(** [T] are the blocks of the call that runs. *)
Record world (T : list Z) s : Prop := World {
  w_mounts : Forall (mount_ok s) (v_fs s);
  w_cwd : ∃ d r, v_cwd s = d ++ 0 :: r ∧ chars d ∧ length (v_cwd s) = DFS_PATH_MAX;
  w_dirs : map_Forall (λ _ t, dir_ok t) (v_dirs s);
  w_blocks : keys (v_heap s) ≡ₚ T ++ owned s;
  w_lock : 0 ≤ v_lock s
}.
Definition fds_ok (P : Z → Prop) s : Prop := ∀ a, a ∈ fd_ids → P a → ∃ d, v_fds s !! a = Some d ∧ fd_ok s d.
Definition inv (T : list Z) s : Prop := world T s ∧ fds_ok (λ _, True) s.
(** Between two calls. *)
Definition dfs_inv s : Prop := inv [] s.

(** Descriptors and mounts depend on the tables, the heap and the data only. *)
Definition agree s s' : Prop :=
  v_fs s' = v_fs s ∧ keeps (v_data s) (v_data s') ∧
  ∀ p t, p ∈ fd_paths (v_fds s) ++ fs_paths (v_fs s) → cstr (v_heap s) p t → cstr (v_heap s') p t.
Lemma keeps_refl x : keeps x x.
Proof. done. Qed.
Lemma at_fs_agree o d s s' : agree s s' → fd_path d ∈ fd_paths (v_fds s) → at_fs o d s → at_fs o d s'.
Proof.
  intros (E & [Hk _] & Hs) Hin (i & f & H1 & H2 & H3 & H4 & H5 & H6 & H7 & t & H8). exists i, f. rewrite E.
  split_and!; try done; [by apply Hk|]. exists t. apply Hs; [|done]. apply elem_of_app. by left.
Qed.
Lemma mount_ok_agree f s s' : agree s s' → f ∈ v_fs s → mount_ok s f → mount_ok s' f.
Proof.
  intros (E & [Hk _] & Hs) Hin [H|(H1 & H2 & [m Hm] & H4 & H5)]; [by left|right]. split_and!; try done; [|by apply Hk].
  exists m. apply Hs; [|done]. apply elem_of_app. right. unfold fs_paths.
  apply list_elem_of_In, in_concat. exists (nz (fs_path f)). rewrite <- !list_elem_of_In. rewrite nz_pos by done.
  split; [|by left]. apply list_elem_of_fmap. exists f. by rewrite nz_pos.
Qed.
Lemma fd_open_agree n d s s' : agree s s' → fd_path d ∈ fd_paths (v_fds s) → fd_open n s d → fd_open n s' d.
Proof.
  intros Ha Hin (H1 & H2 & o & H3 & H4). split_and!; [done..|]. exists o. split; [by eapply at_fs_agree|].
  destruct Ha as (_ & [_ Hk] & _). by apply Hk.
Qed.
Lemma fd_path_in s a d : a ∈ fd_ids → v_fds s !! a = Some d → fd_path d ≠ 0 → fd_path d ∈ fd_paths (v_fds s).
Proof.
  intros Ha Hd Hp. destruct (fd_paths_at _ _ _ Ha Hd) as (r & -> & _). rewrite nz_pos by done. by left.
Qed.
Lemma fds_ok_agree P s s' : agree s s' → (∀ a, a ∈ fd_ids → P a → v_fds s' !! a = v_fds s !! a) → fds_ok P s → fds_ok P s'.
Proof.
  intros Ha He H a Hin HP. destruct (H a Hin HP) as (d & Hd & Hok). exists d. rewrite He by done. split; [done|].
  destruct Hok as [->|Hok]; [by left|right]. eapply fd_open_agree; [exact Ha| |done].
  apply (fd_path_in _ a); [done..|]. by destruct Hok as (_ & _ & o & (i & f & ? & ? & ? & ? & ? & ? & ? & ?) & _).
Qed.

(** * Changes of the state *)

Lemma agree_trivial s s' : v_fs s' = v_fs s → v_data s' = v_data s → v_heap s' = v_heap s → agree s s'.
Proof. intros H1 H2 H3. split; [done|]. rewrite H2, H3. split; [apply keeps_refl|done]. Qed.
Lemma owned_in T s p : world T s → p ∈ fd_paths (v_fds s) ++ fs_paths (v_fs s) → p ∈ owned s.
Proof. intros _. unfold owned. rewrite !elem_of_app. tauto. Qed.

Lemma mounts_agree s s' : agree s s' → Forall (mount_ok s) (v_fs s) → Forall (mount_ok s') (v_fs s').
Proof.
  intros Ha W. pose proof Ha as (E & _). rewrite E. apply Forall_forall. intros f Hf.
  eapply mount_ok_agree; [exact Ha|done|]. by eapply Forall_forall in W.
Qed.
(** A state that differs in nothing the invariant speaks of. *)
Definition same s s' : Prop :=
  v_fs s' = v_fs s ∧ v_data s' = v_data s ∧ v_heap s' = v_heap s ∧ v_fds s' = v_fds s ∧ v_cwd s' = v_cwd s ∧
  v_dirs s' = v_dirs s ∧ v_lock s' = v_lock s.
Lemma world_same T s s' : world T s → same s s' → world T s'.
Proof.
  intros [W1 W2 W3 W4 W5] (E1 & E2 & E3 & E4 & E5 & E6 & E7).
  split; [by eapply mounts_agree, W1; apply agree_trivial|by rewrite E5|by rewrite E6| |by rewrite E7].
  unfold owned. by rewrite E3, E4, E1, E6.
Qed.
Lemma fds_ok_same P s s' : same s s' → fds_ok P s → fds_ok P s'.
Proof. intros (E1 & E2 & E3 & E4 & _). apply fds_ok_agree; [by apply agree_trivial|]. intros. by rewrite E4. Qed.

(** Allocation and release of a block. *)
Lemma agree_alloc p b s : v_heap s !! p = None → agree s (alloc p b s).
Proof.
  intros Hp. split; [done|]. split; [apply keeps_refl|]. intros q t _ [Ht [r Hr]]. split; [done|]. exists r.
  simpl. rewrite lookup_insert_ne; [done|]. congruence.
Qed.
Lemma world_alloc T p b s : world T s → v_heap s !! p = None → world (p :: T) (alloc p b s).
Proof.
  intros [W1 W2 W3 W4 W5] Hp. split; [by eapply mounts_agree, W1; apply agree_alloc|done|done| |done].
  simpl. rewrite keys_insert by done. by rewrite W4.
Qed.
Definition freed (p : Z) s : dfs X := set_v_heap (delete p (v_heap s)) s.
Lemma agree_free T p s : world (p :: T) s → agree s (freed p s).
Proof.
  intros W. split; [done|]. split; [apply keeps_refl|]. intros q t Hq [Ht [r Hr]]. split; [done|]. exists r.
  simpl. rewrite lookup_delete_ne; [done|]. intros ->. pose proof (keys_nodup (v_heap s)) as Hn.
  rewrite (w_blocks _ _ W) in Hn. apply NoDup_cons in Hn as [Hn _]. apply Hn, elem_of_app. right. by eapply owned_in.
Qed.
Lemma world_free T p s : world (p :: T) s → world T (freed p s).
Proof.
  intros W. pose proof (agree_free T p s W) as Ha. destruct W as [W1 W2 W3 W4 W5].
  split; [by eapply mounts_agree, W1|done|done| |done].
  assert (is_Some (v_heap s !! p)) as [b Hb]. { apply elem_keys. rewrite W4. by left. }
  apply (Permutation_cons_inv (a := p)). simpl. rewrite <- (keys_delete _ _ _ Hb), W4. reflexivity.
Qed.
Lemma rt_free_spec T p s : world (p :: T) s → p ≠ 0 → rt_free p s = Done tt (freed p s).
Proof.
  intros W Hp. unfold rt_free. rewrite (proj2 (Z.eqb_neq p 0) Hp).
  assert (is_Some (v_heap s !! p)) as [b Hb]. { apply elem_keys. rewrite (w_blocks _ _ W). by left. }
  by erewrite bind_done by (by apply block_spec).
Qed.
(** The block of the running call is overwritten. *)
Lemma temp_block T p s : world (p :: T) s → is_Some (v_heap s !! p).
Proof. intros W. apply elem_keys. rewrite (w_blocks _ _ W). by left. Qed.

(** A descriptor is changed; it keeps its path, gets one or gives it back. *)
Lemma agree_fd a d s : agree s (fd_set a d s).
Proof. by apply agree_trivial. Qed.
Lemma world_fd_perm T T' a d' s : world T s → T ++ owned s ≡ₚ T' ++ owned (fd_set a d' s) → world T' (fd_set a d' s).
Proof.
  intros [W1 W2 W3 W4 W5] Hp. split; [|done|done| |done].
  - by eapply (mounts_agree s), W1; apply agree_fd.
  - simpl. by rewrite W4.
Qed.
Lemma world_fd T a d d' s : world T s → a ∈ fd_ids → v_fds s !! a = Some d → fd_path d' = fd_path d → world T (fd_set a d' s).
Proof.
  intros W Ha Hd Hp. apply (world_fd_perm T); [done|]. unfold owned. simpl.
  destruct (fd_paths_at _ _ _ Ha Hd) as (r & E1 & E2). by rewrite E1, E2, Hp.
Qed.
Lemma world_fd_give T p a d d' s : world (p :: T) s → a ∈ fd_ids → v_fds s !! a = Some d → fd_path d = 0 → fd_path d' = p → p ≠ 0 →
  world T (fd_set a d' s).
Proof.
  intros W Ha Hd H0 Hp Hne. apply (world_fd_perm (p :: T)); [done|]. unfold owned. simpl.
  destruct (fd_paths_at _ _ _ Ha Hd) as (r & E1 & E2). rewrite E1, E2, H0, Hp, (nz_pos p Hne). simpl. by rewrite Permutation_middle.
Qed.
Lemma world_fd_take T a d d' s : world T s → a ∈ fd_ids → v_fds s !! a = Some d → fd_path d ≠ 0 → fd_path d' = 0 →
  world (fd_path d :: T) (fd_set a d' s).
Proof.
  intros W Ha Hd Hne H0. apply (world_fd_perm T); [done|]. unfold owned. simpl.
  destruct (fd_paths_at _ _ _ Ha Hd) as (r & E1 & E2). rewrite E1, E2, H0, (nz_pos _ Hne). simpl. by rewrite <- Permutation_middle.
Qed.
Lemma fds_ok_set (P : Z → Prop) a d' s : (∀ b, P b → b ≠ a) → fds_ok P s → fds_ok P (fd_set a d' s).
Proof.
  intros HP. apply fds_ok_agree; [by apply agree_fd|]. intros b _ Hb. simpl. rewrite lookup_insert_ne; [done|]. by apply not_eq_sym, HP.
Qed.

(** The data of the file systems changes. *)
Lemma agree_data x' s : keeps (v_data s) x' → agree s (set_v_data x' s).
Proof. done. Qed.
Lemma world_data T x' s : world T s → keeps (v_data s) x' → world T (set_v_data x' s).
Proof.
  intros [W1 W2 W3 W4 W5] Hk. split; [|done|done|done|done].
  by eapply (mounts_agree s), W1; apply agree_data.
Qed.
End laws.
