(* ===== verification/DfsCalls.v ===== *)
(** The POSIX calls keep the invariant: each of them returns, gives every block it does not
    hand over back, and leaves the lock as it was. *)

From stdpp Require Import base gmap list.
From Stdlib Require Import ZArith Lia.
From S2P Require Import Prelude Halts Kservice DfsState DfsPath Dfs DfsFile DfsFs DfsPosix DfsInv.

Open Scope Z_scope.

(** * Paths of bytes *)

Lemma split_chars l : chars l → Forall chars (split_path l).
Proof.
  induction 1 as [|c l Hc Hl IH]; [repeat constructor|]. simpl. destruct (c =? SLASH); [constructor; [constructor|exact IH]|].
  destruct (split_path l) as [|w ws]; [constructor|]. apply Forall_cons in IH as [Hw Hws]. constructor; [apply Forall_cons; split; [exact Hc|exact Hw]|exact Hws].
Qed.
Lemma visit_chars w k k' : chars w → Forall chars k.2 → visit w k = Some k' → Forall chars k'.2.
Proof.
  intros Hw Hk. unfold visit. case_bool_decide; [by intros [= <-]|]. case_bool_decide.
  - destruct k as [[] [|x s]]; intros [= <-]; simpl in *; auto; by apply Forall_cons in Hk as [_ Hk].
  - intros [= <-]. by apply Forall_cons.
Qed.
Lemma resolve_chars ws k k' : Forall chars ws → Forall chars k.2 → resolve ws k = Some k' → Forall chars k'.2.
Proof.
  intros Hws. revert k. induction Hws as [|w ws Hw _ IH]; intros k Hk; simpl; [by intros [= <-]|].
  destruct (visit w k) as [k1|] eqn:E; [|done]. simpl. intros H. by eapply IH, H; eapply visit_chars.
Qed.
Lemma slash_chars : chars [SLASH].
Proof. repeat constructor; unfold SLASH; lia. Qed.
Lemma walk_text_chars k : Forall chars k.2 → chars (walk_text k).
Proof.
  intros Hk. unfold walk_text. apply Forall_app. split; [destruct k.1; [apply slash_chars|constructor]|].
  apply Forall_concat, Forall_fmap, Forall_reverse. eapply Forall_impl; [exact Hk|]. intros w Hw.
  apply Forall_app. split; [done|apply slash_chars].
Qed.
Lemma path_text_chars full k : chars full → normal full = Some k → chars (path_text k).
Proof.
  intros Hf Hk. assert (Forall chars k.2) as H.
  { eapply resolve_chars, Hk; [by apply split_chars|constructor]. }
  unfold path_text. destruct k as [r [|w s]]; simpl in *.
  - destruct r; [apply slash_chars|constructor].
  - apply Forall_cons in H as [Hw Hs]. apply Forall_app. split; [by apply walk_text_chars|done].
Qed.
Lemma full_path_chars d f : chars d → chars f → chars (full_path d f).
Proof.
  intros Hd Hf. unfold full_path. destruct (starts_slash f); [done|]. apply Forall_app. split; [done|].
  apply Forall_cons. split; [unfold SLASH; lia|done].
Qed.
Lemma full_path_length d f : (length (full_path d f) ≤ length d + length f + 1)%nat.
Proof. unfold full_path. destruct (starts_slash f); [lia|]. rewrite length_app. simpl. lia. Qed.

(** An allocator that has room for a few paths. *)
Class allocator_room (M : allocator) : Prop := {
  place_room n h size : (length (keys h) < 32)%nat → 0 ≤ size < 2 ^ 15 → place n h size ≠ None
}.

Section calls.
Context {X : Type} {C : libc} {Cok : libc_ok C} {M : allocator} {Mok : allocator_ok M} {Mroom : allocator_room M}.
Context {Types : fs_types X} {FS : file_systems X} {Laws : file_system_laws}.
Implicit Types s : dfs X.

(** * Descriptors *)

Lemma fd_ids_range a : a ∈ fd_ids ↔ 0 ≤ a < DFS_FD_MAX.
Proof.
  unfold fd_ids, DFS_FD_MAX. rewrite !elem_of_cons. split; [intros [->|[->|[->|[->|H]]]]; [lia..|by apply elem_of_nil in H]|].
  intros H. assert (a = 0 ∨ a = 1 ∨ a = 2 ∨ a = 3) by lia. tauto.
Qed.
Lemma fd_set_set a d d' s : fd_set a d' (fd_set a d s) = fd_set a d' s.
Proof. unfold fd_set. simpl. by rewrite insert_insert_eq. Qed.
Lemma fd_set_id a d s : v_fds s !! a = Some d → fd_set a d s = s.
Proof. intros H. unfold fd_set, set_v_fds. rewrite insert_id by done. by destruct s. Qed.

Lemma free_fd_spec n idx s :
  (∀ a, idx ≤ a < idx + Z.of_nat n → ∃ d, v_fds s !! a = Some d ∧ (fd_ref_count d ≤ 0 → d = zero_fd)) →
  ∃ r, free_fd n idx s = Done r s ∧ idx ≤ r ≤ idx + Z.of_nat n ∧ (r < idx + Z.of_nat n → v_fds s !! r = Some zero_fd).
Proof.
  revert idx. induction n as [|n IH]; intros idx H; [exists idx; split; [done|lia]|]. cbn [free_fd].
  destruct (H idx) as (d & Hd & Hz); [lia|]. erewrite bind_done by (by apply get_fd_spec).
  destruct (Z.ltb_spec 0 (fd_ref_count d)) as [Hr|Hr].
  - destruct (IH (idx + 1)) as (r & E & Hr1 & Hr2); [intros a Ha; apply H; lia|]. exists r.
    split; [done|]. split; [lia|]. intros. apply Hr2. lia.
  - exists idx. split; [done|]. split; [lia|]. intros _. by rewrite Hd, Hz.
Qed.
Definition new_fd : dfs_fd := Fd DFS_FD_MAGIC 0 0 1 None 0 0 0 0.
Lemma fd_ok_free s d : fd_ok s d → fd_ref_count d ≤ 0 → d = zero_fd.
Proof. intros [->|(_ & E & _)]; [done|lia]. Qed.
Lemma fd_new_spec T s : inv T s →
  fd_new s = Done (-1) s ∨ ∃ a, a ∈ fd_ids ∧ v_fds s !! a = Some zero_fd ∧ fd_new s = Done a (fd_set a new_fd s).
Proof.
  intros [W Hok]. unfold fd_new. erewrite bind_done by apply lock_spec.
  destruct (free_fd_spec (Z.to_nat DFS_FD_MAX) 0 (locked s)) as (r & E & Hr & Hz).
  { intros a Ha. destruct (Hok a) as (d & Hd & Hd'); [by apply fd_ids_range|done|]. exists d. split; [done|].
    by apply (fd_ok_free s). }
  change (0 + Z.of_nat (Z.to_nat DFS_FD_MAX)) with DFS_FD_MAX in *. erewrite bind_done by exact E.
  destruct (Z.eqb_spec r DFS_FD_MAX) as [->|Hne].
  - left. erewrite bind_done by done. erewrite bind_done by (apply unlock_spec, (w_lock _ _ W)). done.
  - right. exists r. specialize (Hz ltac:(lia)). split; [apply fd_ids_range; lia|]. split; [done|].
    erewrite bind_done.
    2:{ erewrite bind_done by (by apply upd_fd_spec). 
        erewrite bind_done by (apply upd_fd_spec; simpl; by rewrite lookup_insert_eq). done. }
    rewrite fd_set_set. cbn [set_fd_ref_count set_fd_magic zero_fd].
    change (fd_set r ?d (locked s)) with (locked (fd_set r d s)).
    by erewrite bind_done by (apply unlock_spec, (w_lock _ _ W)).
Qed.
Lemma fd_get_spec a d s : 0 ≤ v_lock s → a ∈ fd_ids → v_fds s !! a = Some d → fd_magic d = DFS_FD_MAGIC →
  fd_get a s = Done (Some a) (fd_set a (set_fd_ref_count (i32 (fd_ref_count d + 1)) d) s).
Proof.
  intros Hl Ha Hd Hm. apply fd_ids_range in Ha. unfold fd_get.
  rewrite (proj2 (Z.ltb_ge a 0)), (proj2 (Z.leb_gt DFS_FD_MAX a)) by lia. cbn [orb].
  erewrite bind_done by apply lock_spec. erewrite bind_done by (by apply (get_fd_spec _ d (locked s))).
  rewrite Hm. cbn [negb Z.eqb]. rewrite Z.eqb_refl. cbn [negb].
  erewrite bind_done by apply put_fd_spec. change (fd_set a ?d (locked s)) with (locked (fd_set a d s)).
  by erewrite bind_done by (by apply unlock_spec).
Qed.
Lemma fd_get_none T fd s : inv T s → (fd ∈ fd_ids → v_fds s !! fd = Some zero_fd) → fd_get fd s = Done None s.
Proof.
  intros [W _] H. unfold fd_get. destruct (decide (fd ∈ fd_ids)) as [Hin|Hin].
  - specialize (H Hin). apply fd_ids_range in Hin.
    rewrite (proj2 (Z.ltb_ge fd 0)), (proj2 (Z.leb_gt DFS_FD_MAX fd)) by lia. cbn [orb].
    erewrite bind_done by apply lock_spec. erewrite bind_done by (by apply (get_fd_spec _ zero_fd (locked s))).
    change (negb (fd_magic zero_fd =? DFS_FD_MAGIC)) with true. cbn iota.
    by erewrite bind_done by (apply unlock_spec, (w_lock _ _ W)).
  - rewrite fd_ids_range in Hin. destruct (Z.ltb_spec fd 0); [done|]. by rewrite (proj2 (Z.leb_le DFS_FD_MAX fd)) by lia.
Qed.
Lemma fd_put_spec a d s : 0 ≤ v_lock s → v_fds s !! a = Some d →
  fd_put (Some a) s = Done tt (fd_set a
    (if i32 (fd_ref_count d - 1) =? 0 then zero_fd else set_fd_ref_count (i32 (fd_ref_count d - 1)) d) s).
Proof.
  intros Hl Hd. unfold fd_put. erewrite bind_done by apply lock_spec.
  erewrite bind_done by (by apply (upd_fd_spec _ _ d (locked s))). 
  erewrite bind_done by (apply get_fd_spec; simpl; by rewrite lookup_insert_eq).
  assert (E : ∀ n, fd_ref_count (set_fd_ref_count n d) = n) by (by destruct d). rewrite E.
  destruct (i32 (fd_ref_count d - 1) =? 0).
  - erewrite bind_done by apply put_fd_spec. rewrite fd_set_set. change (fd_set a ?d (locked s)) with (locked (fd_set a d s)).
    by apply unlock_spec.
  - erewrite bind_done by done. change (fd_set a ?d (locked s)) with (locked (fd_set a d s)). by apply unlock_spec.
Qed.

(** The descriptor [a] is in use by the running call, with [n] references. *)
Record held (T : list Z) (n : Z) (a : Z) (d : dfs_fd) s : Prop := Held {
  h_world : world T s;
  h_others : fds_ok (λ b, b ≠ a) s;
  h_id : a ∈ fd_ids;
  h_fd : v_fds s !! a = Some d;
  h_magic : fd_magic d = DFS_FD_MAGIC;
  h_count : fd_ref_count d = n
}.
(** What a call leaves alone. *)
Definition stable s s' : Prop := v_fs s' = v_fs s ∧ v_cwd s' = v_cwd s ∧ v_lock s' = v_lock s ∧ v_dirs s' = v_dirs s.
Lemma stable_trans s1 s2 s3 : stable s1 s2 → stable s2 s3 → stable s1 s3.
Proof. unfold stable. naive_solver congruence. Qed.
Lemma stable_refl s : stable s s.
Proof. done. Qed.

Lemma held_set T n m a d d' s : held T n a d s → fd_path d' = fd_path d → fd_magic d' = DFS_FD_MAGIC → fd_ref_count d' = m →
  held T m a d' (fd_set a d' s).
Proof.
  intros [W Ho Ha Hd Hm Hc] Hp Hm' Hc'. split; [by eapply world_fd| |done|simpl; by rewrite lookup_insert_eq|done|done].
  by apply fds_ok_set.
Qed.
Lemma held_data T n a d x' s : held T n a d s → keeps (v_data s) x' → held T n a d (set_v_data x' s).
Proof.
  intros [W Ho Ha Hd Hm Hc] Hk. split; try done; [by apply world_data|]. eapply fds_ok_agree, Ho; [by apply agree_data|done].
Qed.
Lemma held_same T n a d s s' : held T n a d s → same s s' → held T n a d s'.
Proof.
  intros [W Ho Ha Hd Hm Hc] Hs. split; try done; [by eapply world_same|by eapply fds_ok_same|].
  by destruct Hs as (_ & _ & _ & -> & _).
Qed.
Lemma held_alloc T n a d p b s : held T n a d s → v_heap s !! p = None → held (p :: T) n a d (alloc p b s).
Proof.
  intros [W Ho Ha Hd Hm Hc] Hp. split; try done; [by apply world_alloc|].
  eapply fds_ok_agree, Ho; [by apply agree_alloc|done].
Qed.
Lemma held_free T n a d p s : held (p :: T) n a d s → p ≠ 0 → rt_free p s = Done tt (freed p s) ∧ held T n a d (freed p s).
Proof.
  intros [W Ho Ha Hd Hm Hc] Hp. split; [by eapply rt_free_spec|]. split; try done; [by apply world_free|].
  eapply fds_ok_agree, Ho; [by eapply agree_free|done].
Qed.
Lemma held_give T n a d p s : held (p :: T) n a d s → fd_path d = 0 → p ≠ 0 →
  held T n a (set_fd_path p d) (fd_set a (set_fd_path p d) s).
Proof.
  intros [W Ho Ha Hd Hm Hc] H0 Hp. split; [|by apply fds_ok_set|done|simpl; by rewrite lookup_insert_eq|by destruct d|by destruct d].
  eapply world_fd_give; [exact W|done|done|done|by destruct d|done].
Qed.
Lemma held_take T n a d s : held T n a d s → fd_path d ≠ 0 →
  held (fd_path d :: T) n a (set_fd_path 0 d) (fd_set a (set_fd_path 0 d) s).
Proof.
  intros [W Ho Ha Hd Hm Hc] Hp. split; [|by apply fds_ok_set|done|simpl; by rewrite lookup_insert_eq|by destruct d|by destruct d].
  eapply world_fd_take; [exact W|done|done|done|by destruct d].
Qed.
(** The path of a descriptor is freed and forgotten. *)
Lemma held_free_path T n a d s : held T n a d s → fd_path d ≠ 0 →
  (rt_free (fd_path d);; upd_fd a (set_fd_path 0)) s = Done tt (fd_set a (set_fd_path 0 d) (freed (fd_path d) s)) ∧
  held T n a (set_fd_path 0 d) (fd_set a (set_fd_path 0 d) (freed (fd_path d) s)).
Proof.
  intros H Hp. pose proof (held_take _ _ _ _ _ H Hp) as Ht. destruct (held_free _ _ _ _ _ _ Ht Hp) as [_ Hf].
  split; [|exact Hf]. assert (is_Some (v_heap s !! fd_path d)) as [b Hb] by apply (temp_block _ _ _ (h_world _ _ _ _ _ Ht)).
  erewrite bind_done. 2:{ unfold rt_free. rewrite (proj2 (Z.eqb_neq _ 0) Hp). by erewrite bind_done by (by apply block_spec). }
  apply upd_fd_spec, (h_fd _ _ _ _ _ H).
Qed.

Lemma inv_held T a d s : inv T s → a ∈ fd_ids → v_fds s !! a = Some d → fd_open 1 s d → held T 1 a d s.
Proof. intros [W Ho] Ha Hd (Hm & Hc & _). split; try done. intros b Hb _. by apply Ho. Qed.
Lemma held_inv T n a d s : held T n a d s → fd_ok s d → inv T s.
Proof.
  intros [W Ho Ha Hd Hm Hc] Hok. split; [done|]. intros b Hb _. destruct (decide (b = a)) as [->|Hne]; [by exists d|by apply Ho].
Qed.
Lemma fd_open_ref n m s d : fd_open n s d → fd_open m s (set_fd_ref_count m d).
Proof. intros (H1 & _ & o & H2 & H3). split_and!; [by destruct d|by destruct d|]. exists o. by destruct d. Qed.
Lemma fd_open_set n a d' s d : fd_open n s d → fd_open n (fd_set a d' s) d.
Proof. done. Qed.

(** A reference is taken, given back, or the last one dropped. *)
Lemma inv_get T fd s : inv T s →
  (fd_get fd s = Done None s ∧ (fd ∈ fd_ids → v_fds s !! fd = Some zero_fd)) ∨
  ∃ d, fd_get fd s = Done (Some fd) (fd_set fd d s) ∧ held T 2 fd d (fd_set fd d s) ∧ fd_open 2 (fd_set fd d s) d ∧
    v_fds s !! fd = Some (set_fd_ref_count 1 d).
Proof.
  intros H. destruct (decide (fd ∈ fd_ids)) as [Ha|Ha].
  2:{ left. split; [by apply (fd_get_none T)|done]. }
  pose proof H as [W Ho]. destruct (Ho fd Ha I) as (d & Hd & [->|Hok]).
  - left. split; [by apply (fd_get_none T)|done].
  - right. pose proof (inv_held _ _ _ _ H Ha Hd Hok) as Hh. exists (set_fd_ref_count 2 d).
    pose proof Hok as (Hm & Hc & _). split; [rewrite (fd_get_spec fd d), Hc by (done || apply (w_lock _ _ W)); done|].
    split; [eapply held_set; [exact Hh|by destruct d..]|]. split; [by apply (fd_open_ref 1)|]. destruct d; simpl in *. by subst.
Qed.
Lemma held_get T a d s : held T 1 a d s → fd_get a s = Done (Some a) (fd_set a (set_fd_ref_count 2 d) s) ∧
  held T 2 a (set_fd_ref_count 2 d) (fd_set a (set_fd_ref_count 2 d) s).
Proof.
  intros H. pose proof H as [W Ho Ha Hd Hm Hc]. split; [|eapply held_set; [exact H|by destruct d..]].
  rewrite (fd_get_spec a d), Hc by (done || apply (w_lock _ _ W)). done.
Qed.
Lemma held_put T a d s : held T 2 a d s →
  fd_put (Some a) s = Done tt (fd_set a (set_fd_ref_count 1 d) s) ∧ held T 1 a (set_fd_ref_count 1 d) (fd_set a (set_fd_ref_count 1 d) s).
Proof.
  intros H. pose proof H as [W Ho Ha Hd Hm Hc]. split; [|eapply held_set; [exact H|by destruct d..]].
  rewrite (fd_put_spec a d), Hc by (done || apply (w_lock _ _ W)). done.
Qed.
Lemma held_put_open T a d s : held T 2 a d s → fd_open 2 s d →
  ∃ s', fd_put (Some a) s = Done tt s' ∧ inv T s' ∧ stable s s'.
Proof.
  intros H Hok. destruct (held_put _ _ _ _ H) as [E Hh]. eexists. split; [exact E|]. split; [|done].
  eapply held_inv; [exact Hh|]. right. by apply (fd_open_ref 2).
Qed.
Lemma held_drop T a d s : held T 1 a d s → fd_path d = 0 →
  ∃ s', fd_put (Some a) s = Done tt s' ∧ inv T s' ∧ stable s s'.
Proof.
  intros [W Ho Ha Hd Hm Hc] Hp. rewrite (fd_put_spec a d) by (done || apply (w_lock _ _ W)). rewrite Hc.
  change (i32 (1 - 1) =? 0) with true. cbn iota. eexists. split; [done|]. split; [|done]. split.
  - by eapply world_fd; [exact W|done|done|].
  - intros b Hb _. destruct (decide (b = a)) as [->|Hne]; [exists zero_fd; split; [simpl; by rewrite lookup_insert_eq|by left]|].
    eapply (fds_ok_set (λ b, b ≠ a)); done.
Qed.
(** Both references are given back. *)
Lemma held_drop_both T a d s : held T 2 a d s → fd_path d = 0 →
  ∃ s', (fd_put (Some a);; fd_put (Some a)) s = Done tt s' ∧ inv T s' ∧ stable s s'.
Proof.
  intros H Hp. destruct (held_put _ _ _ _ H) as [E Hh]. erewrite bind_done by exact E.
  destruct (held_drop _ _ _ _ Hh) as (s' & E' & Hi & Hs); [by destruct d|]. exists s'. split; [done|]. done.
Qed.

(** * Opening *)

(** A name that can be passed in: bytes, not too long, and not one whose walk ends nowhere
    (see [dfs_normalize_path_correct]). *)
Definition name_ok (f : list Z) s : Prop :=
  chars f ∧ Z.of_nat (length f) < 2 ^ 14 ∧ ∀ d r, v_cwd s = d ++ 0 :: r → chars d → normal (full_path d f) ≠ Some (false, []).
(** The path that such a name stands for can be passed in again. *)
Definition twice_ok (f : list Z) s : Prop :=
  ∀ d r k, v_cwd s = d ++ 0 :: r → chars d → normal (full_path d f) = Some k → name_ok (path_text k) s.
(** Room for [n] more blocks. *)
Definition room (n : nat) s : Prop := (length (keys (v_heap s)) + n ≤ 32)%nat.
Lemma room_alloc n p b s : room (S n) s → v_heap s !! p = None → room n (alloc p b s).
Proof. intros H Hp. unfold room in *. simpl. rewrite (Permutation_length (keys_insert (v_heap s) p b Hp)). simpl. lia. Qed.

Lemma new_block_room t n s : room (S n) s → Z.of_nat (length t) + 1 < 2 ^ 15 → is_Some (new_block t s).
Proof.
  intros Hr Ht. unfold new_block. destruct (place _ _ _) as [r|] eqn:E; [done|]. unfold room in Hr.
  destruct (place_room (v_calls s) (v_heap s) (Z.of_nat (length t) + 1)); [lia|lia|done].
Qed.
Lemma normalize_spec T f rf s n : world T s → name_ok f s → room (S n) s →
  dfs_normalize_path None (f ++ 0 :: rf) s = Done 0 (tick s) ∨
  ∃ p t q, dfs_normalize_path None (f ++ 0 :: rf) s = Done p (alloc p (t ++ 0 :: q) s) ∧ p ≠ 0 ∧
    v_heap s !! p = None ∧ chars t ∧ Z.of_nat (length t) + 1 < 2 ^ 15 ∧
    ∃ d r k, v_cwd s = d ++ 0 :: r ∧ chars d ∧ normal (full_path d f) = Some k ∧ t = path_text k.
Proof.
  intros W (Hf & Hlen & Hn) Hr. destruct (w_cwd _ _ W) as (d & r & Ed & Hd & Hl). specialize (Hn d r Ed Hd).
  rewrite Ed, length_app in Hl. simpl in Hl. unfold DFS_PATH_MAX in Hl.
  pose proof (full_path_length d f) as Hfl. pose proof (full_path_chars d f Hd Hf) as Hfc.
  pose proof (dfs_normalize_path_spec None (f ++ 0 :: rf) s d r f rf (chars_path _ Hd) (chars_path _ Hf) Ed eq_refl ltac:(lia)) as H.
  unfold normalized in H. destruct (new_block_room (full_path d f) n s Hr) as [[p b] E]; [lia|]. rewrite E in H.
  destruct (place_ok _ _ _ _ _ E) as (Hp & _ & Hnew & _).
  destruct (normal (full_path d f)) as [k|] eqn:Ek; [|by left].
  rewrite bool_decide_eq_false_2 in H by (intros ->; by apply Hn).
  destruct H as (q & H & Hq). right. exists p, (path_text k), q. split_and!; [done|lia|done|by eapply path_text_chars|lia|].
  by exists d, r, k.
Qed.

Lemma mount_entry_ok s f : mount_ok s f → entry_ok s f.
Proof. intros [[H _]|(_ & _ & H & _)]; [by left|right; by right]. Qed.
(** A mounted file system, as a look-up gives it. *)
Definition mount_base (i : nat) (f : dfs_filesystem) s : Prop :=
  v_fs s !! i = Some f ∧ fs_path f ≠ 0 ∧ fs_ops f ≠ 0 ∧ is_Some (fs_type (fs_ops f)) ∧
  good_fs (fs_ops f) (fs_data f) (v_data s).
Definition covering (i : nat) (f : dfs_filesystem) (t : list Z) s : Prop :=
  mount_base i f s ∧ ∃ m, cstr (v_heap s) (fs_path f) m ∧ m `prefix_of` t.
Lemma lookup_fs_spec T t q s : world T s → chars t →
  ∃ r, dfs_filesystem_lookup (t ++ 0 :: q) s = Done r s ∧ (∀ i, r = Some i → ∃ f, covering i f t s).
Proof.
  intros W Ht. destruct (dfs_filesystem_lookup_spec t q s) as (r & E & H); [|done|apply (w_lock _ _ W)|].
  { eapply Forall_impl; [apply (w_mounts _ _ W)|apply mount_entry_ok]. }
  exists r. split; [done|]. intros i ->. destruct H as (f & m & (Hf & Hp & Ho & Hm) & [Hpre _] & _). exists f.
  pose proof (w_mounts _ _ W) as Hw. eapply Forall_lookup in Hw; [|exact Hf].
  destruct Hw as [[? _]|(_ & _ & _ & Hty & Hg)]; [done|]. split; [done|]. by exists m.
Qed.
Lemma chars_drop n t : chars t → chars (drop n t).
Proof. apply Forall_drop. Qed.
Lemma below_spec i f t q s : covering i f t s → chars t →
  ∃ o, below i (t ++ 0 :: q) s = Done o s ∧ (o = None ∨ ∃ u, o = Some (u ++ 0 :: q) ∧ chars u ∧ (length u ≤ length t)%nat).
Proof.
  intros ((Hf & _) & m & [Hm [r Hr]] & k & Hk) Ht. unfold below. erewrite bind_done by (by apply get_fs_spec).
  erewrite bind_done by (by apply block_spec). unfold dfs_subdir. do 2 erewrite bind_done by (by apply strlen_spec).
  destruct (Z.eqb_spec (Z.of_nat (length m)) (Z.of_nat (length t))) as [E|E]; [exists None; split; [done|by left]|].
  assert ((length m < length t)%nat). { rewrite Hk, length_app in *. lia. }
  destruct (lookup_lt_is_Some_2 t (length m)) as [c Hc]; [done|].
  assert (Hn : nth_char (t ++ 0 :: q) (Z.to_nat (Z.of_nat (length m))) s = Done c s).
  { unfold nth_char. by rewrite Nat2Z.id, lookup_app_l, Hc. }
  erewrite bind_done by exact Hn. set (j := Z.to_nat _). assert ((j ≤ length t)%nat).
  { unfold j. destruct (negb (c =? SLASH) && negb (Z.of_nat (length m) =? 0)); lia. }
  eexists. split; [done|]. right. exists (drop j t). rewrite drop_app_le by done. split; [done|].
  split; [by apply chars_drop|]. rewrite length_drop. lia.
Qed.
Lemma covering_agree i f t s s' : agree s s' → covering i f t s → covering i f t s'.
Proof.
  intros (E & [Hk _] & Hs) ((Hf & Hp & H1 & H2 & H3) & m & Hm & Hpre). split; [split_and!; [by rewrite E|done|done|done|by apply Hk]|].
  exists m. split; [|done]. apply Hs; [|done]. apply elem_of_app. right. unfold fs_paths.
  apply list_elem_of_In, in_concat. exists (nz (fs_path f)). rewrite <- !list_elem_of_In. rewrite nz_pos by done.
  split; [|by left]. apply list_elem_of_fmap. exists f. rewrite nz_pos by done. split; [done|].
  by eapply list_elem_of_lookup_2.
Qed.

Lemma ops_of_spec i f s : mount_base i f s → ∃ o, fs_type (fs_ops f) = Some o ∧ ops_of i s = Done o s.
Proof.
  intros (Hf & _ & Ho & [o Hty] & _). exists o. split; [done|]. unfold ops_of.
  erewrite bind_done by (by apply get_fs_spec). by apply get_ops_spec.
Qed.
(** The path of the descriptor: the block itself, or a copy of the part below the mount point. *)
Lemma open_path_spec T n a d i f p t q s :
  held (p :: T) n a d s → fd_path d = 0 → p ≠ 0 → v_heap s !! p = Some (t ++ 0 :: q) → chars t →
  Z.of_nat (length t) + 1 < 2 ^ 15 → room 1 s → covering i f t s →
  ∃ p' s', open_path a i p s = Done tt s' ∧ held T n a (set_fd_path p' d) s' ∧ stable s s' ∧ p' ≠ 0 ∧
    v_data s' = v_data s ∧ ∃ u, cstr (v_heap s') p' u.
Proof.
  intros H H0 Hp Hb Ht Hl Hr Hm. unfold open_path. destruct (ops_of_spec _ _ _ (proj1 Hm)) as (o & _ & Eo).
  erewrite bind_done by exact Eo. destruct (negb (flag_test (op_flags o) DFS_FS_FLAG_FULLPATH)).
  2:{ exists p, (fd_set a (set_fd_path p d) s). split; [apply upd_fd_spec, (h_fd _ _ _ _ _ H)|].
      split; [by apply held_give|]. split_and!; try done. exists t. split; [done|by exists q]. }
  erewrite bind_done by (by apply block_spec). destruct (below_spec i f t q s Hm Ht) as (sub & Es & Hsub).
  erewrite bind_done by exact Es. assert (∃ u r, default root_path sub = u ++ 0 :: r ∧ chars u ∧ Z.of_nat (length u) + 1 < 2 ^ 15) as (u & r & -> & Hu & Hul).
  { destruct Hsub as [->|(u & -> & Hu & Hul)]; [by exists [SLASH], []; split; [|split; [apply slash_chars|]]|].
    exists u, q. split_and!; [done|done|lia]. }
  pose proof (strdup_spec u r s (chars_path _ Hu) ltac:(lia)) as Ed.
  destruct (new_block_room u 0 s Hr Hul) as [[p' b'] En]. rewrite En in Ed. erewrite bind_done by exact Ed.
  destruct (place_ok _ _ _ _ _ En) as (Hp' & _ & Hnew & _).
  pose proof (held_alloc _ _ _ _ p' (u ++ [0]) _ H Hnew) as Ha.
  assert (Hsw : held (p :: T) n a (set_fd_path p' d) (fd_set a (set_fd_path p' d) (alloc p' (u ++ [0]) s))).
  { apply held_give; [done|done|lia]. }
  erewrite bind_done by (apply upd_fd_spec, (h_fd _ _ _ _ _ Ha)).
  destruct (held_free _ _ _ _ _ _ Hsw Hp) as [Ef Hf]. exists p'. eexists. split; [exact Ef|]. split; [exact Hf|].
  split_and!; [done|lia|done|]. exists u. split; [done|]. exists []. simpl.
  rewrite lookup_delete_ne by (intros ->; congruence). by rewrite lookup_insert_eq.
Qed.

Definition opened_as (i : nat) (flags : Z) (d : dfs_fd) : dfs_fd :=
  set_fd_pos 0 (set_fd_size 0 (set_fd_flags (u32 flags) (set_fd_type FT_REGULAR (set_fd_fs (Some i) d)))).
(** The fields of the descriptor are set one by one. *)
Lemma init_fd_wp {A} a i flags d s (k : D X A) Q : v_fds s !! a = Some d → wp k Q (fd_set a (opened_as i flags d) s) →
  wp (upd_fd a (set_fd_fs (Some i));; upd_fd a (set_fd_type FT_REGULAR);; upd_fd a (set_fd_flags (u32 flags));;
   upd_fd a (set_fd_size 0);; upd_fd a (set_fd_pos 0);; k) Q s.
Proof.
  intros Hd. unfold opened_as, wp.
  do 5 (erewrite bind_done by (apply upd_fd_spec; simpl; rewrite ?lookup_insert_eq; done); rewrite ?fd_set_set). done.
Qed.

Lemma flag_test_u32 f a : 0 ≤ a < 2 ^ 32 → flag_test (u32 f) a = flag_test f a.
Proof.
  intros Ha. unfold flag_test, u32. rewrite <- Z.land_ones, <- Z.land_assoc, (Z.land_comm _ a), Z.land_ones by lia.
  by rewrite Z.mod_small.
Qed.
Lemma open_failed_spec T n a d r s : held T n a d s → fd_path d ≠ 0 →
  ∃ s', open_failed a r s = Done r s' ∧ held T n a (set_fd_path 0 d) s' ∧ stable s s'.
Proof.
  intros H Hp. destruct (held_free_path _ _ _ _ _ H Hp) as [E Hf]. eexists. split; [|split; [exact Hf|done]].
  unfold open_failed. erewrite bind_done by apply get_fd_spec, (h_fd _ _ _ _ _ H). revert E. unfold mbind, SM_bind.
  destruct (rt_free (fd_path d) s); [|done]. by intros ->.
Qed.
(** A call of the file system on the descriptor. *)
Lemma held_does {A} (m : D X A) T n a d Q s : held T n a d s → does m a d Q s →
  wp m (λ r s', ∃ d', held T n a d' s' ∧ stable s s' ∧ same_file d d' ∧ Q r d' (v_data s') ∧
    agree s s' ∧ v_heap s' = v_heap s) s.
Proof.
  intros H Hm. eapply wp_mono; [exact Hm|]. intros r s' (d' & x' & -> & Hs & Hk & HQ). exists d'.
  pose proof Hs as (H1 & H2 & H3 & H4 & H5 & H6). pose proof H as [W Ho Ha Hd Hmg Hc].
  split; [|split_and!; done]. apply held_data; [|done]. eapply held_set; [exact H|done|congruence|congruence].
Qed.
Lemma at_fs_file o d d' s s' : at_fs o d s → same_file d d' → agree s s' → v_heap s' = v_heap s → at_fs o d' s'.
Proof.
  intros (i & f & H1 & H2 & H3 & H4 & H5 & H6 & H7 & t & H8) (E1 & E2 & E3 & E4 & E5 & E6) (Hfs & [Hk _] & _) Hh.
  exists i, f. rewrite E3, E5, Hfs, Hh. split_and!; try done; [by apply Hk|by exists t].
Qed.

(** The last part of an open: the file system has accepted, the flags are completed. *)
Lemma open_done_spec T o n a d flags s : held T n a d s → at_fs o d s → fd_type d = FT_REGULAR →
  good_fd o (flag_test flags O_DIRECTORY) (fd_size d) (fd_pos d) (fd_data d) (v_data s) →
  wp (upd_fd a (λ d, set_fd_flags (Z.lor (fd_flags d) DFS_F_OPEN) d);;
      (if flag_test flags O_DIRECTORY then
         upd_fd a (set_fd_type FT_DIRECTORY);;
         upd_fd a (λ d, set_fd_flags (Z.lor (fd_flags d) DFS_F_DIRECTORY) d)
       else mret tt);;
      mret 0) (λ r s', r = 0 ∧ stable s s' ∧ ∃ d', held T n a d' s' ∧ fd_open n s' d' ∧ is_dir d' = flag_test flags O_DIRECTORY) s.
Proof.
  intros H Hat Hty Hg. pose proof H as [W Ho Ha Hd Hm Hc].
  apply (wp_done _ _ _ 0 (fd_set a (let d1 := set_fd_flags (Z.lor (fd_flags d) DFS_F_OPEN) d in
     if flag_test flags O_DIRECTORY then set_fd_flags (Z.lor (fd_flags d1) DFS_F_DIRECTORY) (set_fd_type FT_DIRECTORY d1) else d1) s)).
  - erewrite bind_done by (by apply upd_fd_spec). destruct (flag_test flags O_DIRECTORY).
    + erewrite bind_done; [done|]. erewrite bind_done by (apply upd_fd_spec; simpl; by rewrite lookup_insert_eq).
      rewrite fd_set_set. erewrite upd_fd_spec by (simpl; by rewrite lookup_insert_eq). rewrite fd_set_set. by destruct d.
    + by erewrite bind_done by done.
  - split; [done|]. split; [done|]. eexists. split.
    + eapply held_set; [exact H|by destruct (flag_test flags O_DIRECTORY), d..].
    + split; [|destruct d; simpl in Hty; subst; by destruct (flag_test flags O_DIRECTORY)].
      split_and!; [by destruct (flag_test flags O_DIRECTORY), d..|]. exists o.
      destruct Hat as (i & f & H1 & H2 & H3 & H4 & H5 & H6 & H7 & H8). destruct d; simpl in *. subst.
      destruct (flag_test flags O_DIRECTORY); (split; [exists i, f; split_and!; done|exact Hg]).
Qed.

Lemma errno_neg e : e ∈ [ENOENT; EIO; ENXIO; EBADF; ENOMEM; EBUSY; EEXIST; EXDEV; ENODEV; ENOTDIR; EINVAL; ENOSPC; ENOSYS] →
  - e < 0.
Proof. intros H. pose proof errnos_pos as He. rewrite Forall_forall in He. specialize (He _ H). lia. Qed.
(** What an open leaves behind: an open descriptor, or one without a path. *)
Definition open_result (T : list Z) (n a flags : Z) s (r : Z) s' : Prop :=
  stable s s' ∧ ∃ d', held T n a d' s' ∧ (r < 0 → fd_path d' = 0) ∧
    (0 ≤ r → fd_open n s' d' ∧ is_dir d' = flag_test flags O_DIRECTORY).
Lemma open_refused T n a flags d s s' r : held T n a d s' → fd_path d = 0 → stable s s' → r < 0 → open_result T n a flags s r s'.
Proof. intros H Hp Hs Hr. split; [done|]. exists d. split_and!; [done|done|lia]. Qed.
Lemma same_tick s : same s (tick s).
Proof. done. Qed.

(** From the call of the file system on. *)
Lemma open_call_spec T n a d flags i f ops s : held T n a d s → fd_path d ≠ 0 → fd_fs d = Some i → fd_type d = FT_REGULAR →
  fd_flags d = u32 flags → mount_base i f s → fs_type (fs_ops f) = Some ops → (∃ u, cstr (v_heap s) (fd_path d) u) →
  wp (match op_open ops with
      | None => open_failed a (- ENOSYS)
      | Some open =>
        result ← open a;
        if result <? 0 then open_failed a result
        else
          upd_fd a (λ d, set_fd_flags (Z.lor (fd_flags d) DFS_F_OPEN) d);;
          (if flag_test flags O_DIRECTORY then
             upd_fd a (set_fd_type FT_DIRECTORY);;
             upd_fd a (λ d, set_fd_flags (Z.lor (fd_flags d) DFS_F_DIRECTORY) d)
           else mret tt);;
          mret 0
      end) (open_result T n a flags s) s.
Proof.
  intros H Hp Hfs Hty Hfl Hm Hops Hu. destruct (op_open ops) as [open|] eqn:Eo.
  2:{ destruct (open_failed_spec _ _ _ _ (- ENOSYS) _ H Hp) as (s' & E & Hh & Hs). apply (wp_done _ _ _ _ _ E).
      eapply open_refused; [exact Hh|by destruct d|done|]. apply errno_neg. rewrite !elem_of_cons. tauto. }
  assert (Hat : at_fs (fs_ops f) d s).
  { destruct Hm as (H1 & H2 & H3 & H4 & H5). exists i, f. split_and!; done. }
  wp_step. eapply wp_mono.
  { eapply held_does; [exact H|]. by eapply law_open; [exact Hops|exact Eo|apply (h_fd _ _ _ _ _ H)|]. }
  intros r s1 (d1 & Hh & Hs & Hsame & Hg & Hagr & Hheap). cbv beta. pose proof Hsame as (_ & E2 & E3 & _ & _ & E6).
  destruct (Z.ltb_spec r 0) as [Hr|Hr].
  - destruct (open_failed_spec _ _ _ _ r _ Hh) as (s' & E & Hh' & Hs'); [congruence|]. apply (wp_done _ _ _ _ _ E).
    eapply open_refused; [exact Hh'|by destruct d1|by eapply stable_trans|done].
  - eapply wp_mono; [eapply open_done_spec; [exact Hh|by eapply at_fs_file|congruence|]|].
    + rewrite <- (flag_test_u32 flags), <- Hfl by (pose proof o_directory_fits; lia). by apply Hg.
    + intros r' s' (-> & Hs' & d' & Hd' & Hop). split; [by eapply stable_trans|]. exists d'. split_and!; [done|lia|done].
Qed.
Lemma file_open_spec T n a d f rf flags s : held T n a d s → fd_path d = 0 → name_ok f s → room 2 s →
  wp (dfs_file_open (Some a) (f ++ 0 :: rf) flags) (open_result T n a flags s) s.
Proof.
  intros H H0 Hf Hr. unfold dfs_file_open. pose proof H as [W Ho Ha Hd Hm Hc].
  destruct (normalize_spec _ f rf s 1 W Hf Hr) as [E|(p & t & q & E & Hp & Hnew & Ht & Htl & _)].
  { eapply wp_done; [by erewrite bind_done by exact E|]. eapply open_refused; [by eapply held_same, same_tick|done|done|lia]. }
  set (s1 := alloc p (t ++ 0 :: q) s) in *. wp_step. apply (wp_done _ _ _ _ _ E). rewrite (proj2 (Z.eqb_neq p 0) Hp).
  assert (H1 : held (p :: T) n a d s1) by (by apply held_alloc).
  assert (Hb : v_heap s1 !! p = Some (t ++ 0 :: q)) by apply lookup_insert_eq.
  wp_step. apply (wp_done _ _ _ _ _ (block_spec _ _ _ Hb)).
  destruct (lookup_fs_spec _ t q s1 (h_world _ _ _ _ _ H1) Ht) as (r & Er & Hl). wp_step. apply (wp_done _ _ _ _ _ Er).
  destruct r as [i|].
  2:{ destruct (held_free _ _ _ _ _ _ H1 Hp) as [Ef Hh]. wp_step. apply (wp_done _ _ _ _ _ Ef).
      eapply open_refused; [exact Hh|done|done|]. apply errno_neg. rewrite !elem_of_cons. tauto. }
  destruct (Hl i eq_refl) as (fs & Hfs). clear Hl.
  apply init_fd_wp with (d := d); [apply (h_fd _ _ _ _ _ H1)|].
  assert (H2 : held (p :: T) n a (opened_as i flags d) (fd_set a (opened_as i flags d) s1)).
  { eapply held_set; [exact H1|by destruct d..]. }
  destruct (open_path_spec T n a (opened_as i flags d) i fs p t q (fd_set a (opened_as i flags d) s1))
    as (p' & s2 & E2 & H3 & Hs2 & Hp' & Hx & Hu); [done|by destruct d|done|done|done|done| |done|].
  { change (room 1 s1). by apply room_alloc. }
  wp_step. apply (wp_done _ _ _ _ _ E2). 
  assert (Hfs2 : mount_base i fs s2).
  { destruct Hs2 as (Hv & _). destruct Hfs as [(G1 & G2 & G3 & G4 & G5) _]. unfold mount_base. rewrite Hv, Hx. done. }
  destruct (ops_of_spec _ _ _ Hfs2) as (ops & Hty & Eo). wp_step. apply (wp_done _ _ _ _ _ Eo).
  eapply wp_mono; [eapply open_call_spec; [exact H3|by destruct d|by destruct d|by destruct d|by destruct d|done|done|by destruct d]|].
  intros r s' [Hs' Hr']. split; [|done]. by eapply stable_trans, Hs'.
Qed.
End calls.
