(* ===== verification/DfsPosixSpec.v ===== *)
(** Every call of the POSIX interface from a state that satisfies the invariant. *)

From stdpp Require Import base gmap list.
From Stdlib Require Import ZArith Lia.
From S2P Require Import Prelude Halts Kservice Printf DfsState DfsPath Dfs DfsFile DfsFs DfsPosix DfsInv DfsCalls.

Open Scope Z_scope.

Section calls.
Context {X : Type} {C : libc} {Cok : libc_ok C} {M : allocator} {Mok : allocator_ok M} {Mroom : allocator_room M}.
Context {Types : fs_types X} {FS : file_systems X} {Laws : file_system_laws}.
Implicit Types s : dfs X.

(** * Opening and closing *)

(** Few blocks are in use: at most one for each descriptor, mount and stream. *)
Definition few s : Prop := (length (v_fs s) + length (keys (v_dirs s)) ≤ 20)%nat.
Lemma length_nz p : (length (nz p) ≤ 1)%nat.
Proof. unfold nz. destruct (p =? 0); simpl; lia. Qed.
Lemma length_nzs {A} (f : A → Z) l : (length (concat ((λ x, nz (f x)) <$> l)) ≤ length l)%nat.
Proof.
  induction l as [|x l IH]; [simpl; lia|]. rewrite fmap_cons. cbn [concat length]. rewrite length_app. pose proof (length_nz (f x)). lia.
Qed.
Lemma world_room T n s : world T s → few s → (length T + n ≤ 8)%nat → room n s.
Proof.
  intros W Hf Hn. unfold room. rewrite (Permutation_length (w_blocks _ _ W)). unfold owned, fd_paths, fs_paths.
  rewrite !length_app. pose proof (length_nzs (λ a, from_option fd_path 0 (v_fds s !! a)) fd_ids) as H1.
  pose proof (length_nzs fs_path (v_fs s)) as H2. unfold few in Hf. change (length fd_ids) with 4%nat in H1. lia.
Qed.

Lemma inv_same T s s' : inv T s → same s s' → inv T s'.
Proof. intros [W Ho] Hs. split; [by eapply world_same|by eapply fds_ok_same]. Qed.
Lemma errno_wp e (Q : unit → dfs X → Prop) s : (∀ s', same s s' → stable s s' → Q tt s') → wp (rt_set_errno e) Q s.
Proof. intros H. apply H; done. Qed.
Definition kept (T : list Z) s s' : Prop := inv T s' ∧ stable s s'.
Lemma kept_trans T s1 s2 s3 : stable s1 s2 → kept T s2 s3 → kept T s1 s3.
Proof. intros H1 [H2 H3]. split; [done|by eapply stable_trans]. Qed.
Lemma failed_wp T e s s0 (Q : Z → dfs X → Prop) : inv T s → stable s0 s → (∀ s', kept T s0 s' → Q (-1) s') → wp (failed e) Q s.
Proof. intros H Hs HQ. unfold failed. wp_step. apply errno_wp. intros s' H1 H2. apply HQ. split; [by eapply inv_same|by eapply stable_trans]. Qed.

(** A result of [open]: -1, or a descriptor that was free. *)
Definition opened T s (r : Z) s' : Prop :=
  kept T s s' ∧ (r = -1 ∨ r ∈ fd_ids ∧ v_fds s !! r = Some zero_fd ∧ ∃ d, v_fds s' !! r = Some d ∧ fd_open 1 s' d).

Lemma new_wp T s (Q : Z → dfs X → Prop) : inv T s → Q (-1) s →
  (∀ a, a ∈ fd_ids → v_fds s !! a = Some zero_fd → held T 1 a new_fd (fd_set a new_fd s) → Q a (fd_set a new_fd s)) →
  wp fd_new Q s.
Proof.
  intros H H1 H2. destruct (fd_new_spec T s H) as [E|(a & Ha & Hd & E)]; apply (wp_done _ _ _ _ _ E); [done|].
  apply H2; [done..|]. destruct H as [W Ho]. split; [by eapply world_fd| |done|simpl; by rewrite lookup_insert_eq|done|done].
  apply (fds_ok_set (λ b, b ≠ a)); [done|]. intros b Hb _. by apply Ho.
Qed.
Lemma drop_both_wp {A} T a d s (k : D X A) Q : held T 2 a d s → fd_path d = 0 →
  (∀ s', inv T s' → stable s s' → wp k Q s') → wp (fd_put (Some a);; fd_put (Some a);; k) Q s.
Proof.
  intros H Hp Hk. destruct (held_drop_both _ _ _ _ H Hp) as (s' & E & Hi & Hs). revert E. unfold mbind, SM_bind, wp.
  destruct (fd_put (Some a) s) as [[] s1|]; [|done]. destruct (fd_put (Some a) s1) as [[] s2|]; [|done].
  intros [= ->]. by apply Hk.
Qed.
(** The part that [open], [mkdir] and [opendir] share: the descriptor has two references. *)
Lemma open_fd_wp {A} T a f rf flags s (k : option Z → Z → D X A) Q :
  held T 1 a new_fd (fd_set a new_fd s) → name_ok f s → few s → (length T ≤ 4)%nat →
  (∀ r s' d, stable s s' → held T 2 a d s' → (r < 0 → fd_path d = 0) →
     (0 ≤ r → fd_open 2 s' d ∧ is_dir d = flag_test flags O_DIRECTORY) → wp (k (Some a) r) Q s') →
  wp (d ← fd_get a; result ← dfs_file_open d (f ++ 0 :: rf) flags; k d result) Q (fd_set a new_fd s).
Proof.
  intros H Hf Hr HT Hk. destruct (held_get _ _ _ _ H) as [E Hh]. wp_step. apply (wp_done _ _ _ _ _ E). wp_step.
  eapply wp_mono; [eapply file_open_spec; [exact Hh|done|exact Hf|]|].
  - apply (world_room T); [apply (h_world _ _ _ _ _ Hh)|done|lia].
  - intros r s' (Hs & d' & Hd' & H1 & H2). by eapply Hk.
Qed.
Lemma open_kept T f rf flags s : inv T s → name_ok f s → few s → (length T ≤ 4)%nat →
  wp (open (f ++ 0 :: rf) flags) (opened T s) s.
Proof.
  intros H Hf Hfew HT. unfold open. wp_step. apply (new_wp T); [done| |].
  { eapply failed_wp; [done|done|]. intros s' Hs'. split; [done|by left]. }
  intros a Ha Hz Hh. pose proof Ha as Hr. apply fd_ids_range in Hr. rewrite (proj2 (Z.ltb_ge a 0)) by lia.
  eapply open_fd_wp; [done..|]. intros r s' d Hs Hd Hneg Hpos. destruct (Z.ltb_spec r 0) as [Hr0|Hr0].
  - eapply drop_both_wp; [exact Hd|by apply Hneg|]. intros s2 Hi2 Hs2. eapply failed_wp; [exact Hi2|by eapply stable_trans, Hs2|].
    intros s3 Hk. split; [done|by left].
  - destruct (held_put _ _ _ _ Hd) as [E Hp]. wp_step. apply (wp_done _ _ _ _ _ E).
    assert (Hop : fd_open 1 (fd_set a (set_fd_ref_count 1 d) s') (set_fd_ref_count 1 d)) by (apply (fd_open_ref 2), Hpos; lia).
    split; [split; [|done]|].
    + eapply held_inv; [exact Hp|by right].
    + right. split_and!; [done|done|]. eexists. split; [simpl; by rewrite lookup_insert_eq|done].
Qed.

(** * Calls on a descriptor *)

(** The running call has the descriptor open. *)
Definition in_use T a d s : Prop := held T 2 a d s ∧ fd_open 2 s d.
Lemma with_fd_at_wp {A} T fd (bad : A) (f : Z → D X A) s (Q : A → dfs X → Prop) : inv T s →
  (∀ s', (fd ∈ fd_ids → v_fds s !! fd = Some zero_fd) → kept T s s' → Q bad s') →
  (∀ d s', v_fds s !! fd = Some (set_fd_ref_count 1 d) → stable s s' → in_use T fd d s' → wp (f fd) Q s') →
  wp (with_fd fd bad f) Q s.
Proof.
  intros H Hbad Hf. unfold with_fd.
  destruct (inv_get _ fd s H) as [[E Hz]|(d & E & Hh & Ho & Hd)]; wp_step; apply (wp_done _ _ _ _ _ E).
  - wp_step. apply errno_wp. intros s' H1 H2. apply Hbad; [done|]. split; [by eapply inv_same|done].
  - apply (Hf d); [done|done|by split].
Qed.
Lemma with_fd_wp {A} T fd (bad : A) (f : Z → D X A) s (Q : A → dfs X → Prop) : inv T s →
  (∀ s', kept T s s' → Q bad s') → (∀ d s', stable s s' → in_use T fd d s' → wp (f fd) Q s') →
  wp (with_fd fd bad f) Q s.
Proof. intros H Hbad Hf. apply (with_fd_at_wp T); [done|intros s' _; apply Hbad|]. intros d s' _. apply Hf. Qed.
Lemma put_wp T a d s (Q : unit → dfs X → Prop) : in_use T a d s → (∀ s', kept T s s' → Q tt s') → wp (fd_put (Some a)) Q s.
Proof.
  intros [H Ho] HQ. destruct (held_put_open _ _ _ _ H Ho) as (s' & E & Hi & Hs). apply (wp_done _ _ _ _ _ E), HQ. by split.
Qed.
Lemma in_use_ops T a d s : in_use T a d s → ∃ o ops, fs_type o = Some ops ∧ at_fs o d s ∧ good o d (v_data s) ∧
  fd_ops a s = Done ops s ∧ get_fd a s = Done d s.
Proof.
  intros [H (_ & _ & o & Hat & Hg)]. pose proof Hat as (i & f & H1 & H2 & H3 & H4 & [ops H5] & _).
  assert (Eg : get_fd a s = Done d s) by apply get_fd_spec, (h_fd _ _ _ _ _ H).
  exists o, ops. split_and!; try done. unfold fd_ops. erewrite bind_done by exact Eg. rewrite H1. erewrite bind_done by done.
  unfold ops_of. erewrite bind_done by (by apply get_fs_spec). rewrite H3. by apply get_ops_spec.
Qed.
Lemma in_use_same T a d s s' : in_use T a d s → same s s' → in_use T a d s'.
Proof.
  intros [H Ho] Hs. split; [by eapply held_same|]. pose proof Hs as (E1 & E2 & E3 & _).
  eapply fd_open_agree; [by apply agree_trivial| |exact Ho]. apply (fd_path_in _ a); [apply (h_id _ _ _ _ _ H)|apply (h_fd _ _ _ _ _ H)|].
  destruct Ho as (_ & _ & o & (?&?&?&?&?&?&?&?&Hp&_) & _). exact Hp.
Qed.
(** A call of the file system that leaves the file open. *)
Lemma in_use_does {A} (m : D X A) T a d s o (R : A → dfs_fd → Prop) : in_use T a d s → at_fs o d s →
  does m a d (λ r d' x', good o d' x' ∧ R r d') s →
  wp m (λ r s', stable s s' ∧ ∃ d', in_use T a d' s' ∧ same_file d d' ∧ R r d') s.
Proof.
  intros [H Ho] Hat Hm. eapply wp_mono; [by eapply held_does|].
  intros r s' (d' & Hh & Hs & Hsame & [Hg HR] & Hagr & Hheap). split; [done|]. exists d'. split; [|done]. split; [done|].
  split_and!; [apply (h_magic _ _ _ _ _ Hh)|apply (h_count _ _ _ _ _ Hh)|]. exists o. split; [by eapply at_fs_file|done].
Qed.
Lemma does_mono {A} (m : D X A) a d (Q Q' : A → dfs_fd → X → Prop) s :
  does m a d Q s → (∀ r d' x', Q r d' x' → Q' r d' x') → does m a d Q' s.
Proof. intros H HQ. eapply wp_mono; [exact H|]. intros r s' (d' & x' & ? & ? & ? & ?). exists d', x'. auto. Qed.
(** A descriptor keeps what counts when its flags or its position change. *)
Lemma in_use_set T a d d' s : in_use T a d s → fd_magic d' = fd_magic d → fd_type d' = fd_type d → fd_path d' = fd_path d →
  fd_ref_count d' = fd_ref_count d → fd_fs d' = fd_fs d → (∀ o, good o d (v_data s) → good o d' (v_data s)) →
  in_use T a d' (fd_set a d' s).
Proof.
  intros [H (H1 & H2 & o & (i & f & G1 & G2 & G3 & G4 & G5 & G6 & G7 & G8) & Hg)] E1 E2 E3 E4 E5 Hgood. split.
  - eapply held_set; [exact H|done|congruence|congruence].
  - split_and!; [congruence|congruence|]. exists o. split; [|by apply Hgood]. exists i, f. rewrite E3, E5. split_and!; done.
Qed.

Lemma file_close_wp T a d s : in_use T a d s →
  wp (dfs_file_close (Some a)) (λ r s', stable s s' ∧ ∃ d', held T 2 a d' s' ∧
    ((0 ≤ r ∧ fd_path d' = 0) ∨ (r < 0 ∧ is_dir d = false ∧ fd_open 2 s' d'))) s.
Proof.
  intros Hu. destruct (in_use_ops _ _ _ _ Hu) as (o & ops & Hty & Hat & Hg & Eops & _). unfold dfs_file_close.
  wp_step. apply (wp_done _ _ _ _ _ Eops). wp_step.
  assert (Hc : wp (match op_close ops with None => mret 0 | Some close => close a end)
    (λ r s', stable s s' ∧ ∃ d', held T 2 a d' s' ∧ same_file d d' ∧ (0 ≤ r ∨ is_dir d = false ∧ fd_open 2 s' d')) s).
  { destruct Hu as [Hh Ho]. destruct (op_close ops) as [close|] eqn:Ec; [|split; [done|]; exists d; split_and!; try done; by left].
    eapply wp_mono; [eapply held_does; [exact Hh|eapply law_close; try done; apply (h_fd _ _ _ _ _ Hh)]|].
    intros r s' (d' & Hh' & Hs & Hsame & Hr & Hagr & Hheap). split; [done|]. exists d'. split_and!; try done.
    destruct Hr as [Hr|[Hr1 Hr2]]; [by left|right]. split; [done|].
    split_and!; [apply (h_magic _ _ _ _ _ Hh')|apply (h_count _ _ _ _ _ Hh')|]. exists o. split; [by eapply at_fs_file|done]. }
  eapply wp_mono; [exact Hc|]. intros r s1 (Hs & d1 & Hh & Hsame & Hr). cbv beta.
  destruct (Z.ltb_spec r 0) as [Hr0|Hr0].
  - split; [done|]. exists d1. split; [done|]. right. destruct Hr as [?|[? ?]]; [lia|done].
  - assert (Hp : fd_path d1 ≠ 0). { destruct Hat as (?&?&?&?&?&?&?&?&Hp&_). destruct Hsame as (_&_&->&_). exact Hp. }
    wp_step. apply (wp_done _ _ _ _ _ (get_fd_spec _ _ _ (h_fd _ _ _ _ _ Hh))).
    destruct (held_free_path _ _ _ _ _ Hh Hp) as [E Hf]. 
    assert (E' : (rt_free (fd_path d1);; upd_fd a (set_fd_path 0);; mret r) s1 =
      Done r (fd_set a (set_fd_path 0 d1) (freed (fd_path d1) s1))).
    { revert E. unfold mbind, SM_bind. destruct (rt_free (fd_path d1) s1); [|done]. by intros ->. }
    apply (wp_done _ _ _ _ _ E'). split; [by eapply stable_trans|]. eexists. split; [exact Hf|]. left. split; [done|by destruct d1].
Qed.
Lemma close_kept T fd s : inv T s → wp (close fd) (λ _ s', kept T s s') s.
Proof.
  intros H. unfold close. eapply with_fd_wp; [done|done|]. intros d s1 Hs Hu. wp_step.
  eapply wp_mono; [by eapply file_close_wp|]. intros r s2 (Hs2 & d' & Hh & Hr). cbv beta. pose proof (stable_trans _ _ _ Hs Hs2) as Hs3.
  destruct Hr as [[Hr Hp]|(Hr & _ & Ho)].
  - destruct (held_put _ _ _ _ Hh) as [E Hp1]. wp_step. apply (wp_done _ _ _ _ _ E). rewrite (proj2 (Z.ltb_ge r 0)) by lia.
    destruct (held_drop _ _ _ _ Hp1) as (s' & E' & Hi & Hs'); [by destruct d'|]. wp_step. apply (wp_done _ _ _ _ _ E').
    split; [done|by eapply stable_trans].
  - wp_step. eapply put_wp; [by split|]. intros s3 [Hi Hs4]. rewrite (proj2 (Z.ltb_lt r 0)) by lia.
    apply (failed_wp T _ _ s); [exact Hi|by eapply stable_trans|done].
Qed.

Lemma set_flags_in_use T a d n s : in_use T a d s → in_use T a (set_fd_flags n d) (fd_set a (set_fd_flags n d) s).
Proof. intros H. eapply in_use_set; [exact H|by destruct d..|]. intros o Hg. by destruct d. Qed.
(** After the work of the file system: the reference is given back, a negative result is an
    error. *)
Lemma put_result_wp {A} T a d s s0 r (v : A) (good_v : A) (Q : A → dfs X → Prop) : in_use T a d s → stable s0 s →
  (∀ v s', kept T s0 s' → Q v s') →
  wp (fd_put (Some a);; if r <? 0 then rt_set_errno r;; mret v else mret good_v) Q s.
Proof.
  intros Hu Hs HQ. wp_step. eapply put_wp; [exact Hu|]. intros s' [Hi Hs']. pose proof (stable_trans _ _ _ Hs Hs') as Hst.
  destruct (r <? 0); [|apply HQ; done]. wp_step. apply errno_wp. intros s2 H1 H2. apply HQ.
  split; [by eapply inv_same|by eapply stable_trans].
Qed.
Lemma read_kept T fd len s : inv T s → 0 ≤ len < 2 ^ 31 → wp (read fd len) (λ _ s', kept T s s') s.
Proof.
  intros H Hl. unfold read. eapply with_fd_wp; [done|done|]. intros d s1 Hs Hu. unfold dfs_file_read.
  destruct (in_use_ops _ _ _ _ Hu) as (o & ops & Hty & Hat & Hg & Eops & _). wp_step. wp_step.
  apply (wp_done _ _ _ _ _ Eops). destruct (op_read ops) as [f|] eqn:Ef.
  2:{ cbv beta. eapply (put_result_wp T fd _ _ s); [exact Hu|done|done]. }
  wp_step. eapply wp_mono.
  { eapply (in_use_does _ _ _ _ _ _ (λ _ _, True)); [exact Hu|exact Hat|]. eapply does_mono.
    - eapply law_read; [exact Hty|exact Ef|apply (h_fd _ _ _ _ _ (proj1 Hu))|done|done|done].
    - intros. done. }
  intros [r b] s2 (Hs2 & d2 & Hu2 & _). cbv beta. pose proof (stable_trans _ _ _ Hs Hs2) as Hs3. cbn [fst].
  destruct (r <? 0) eqn:Er.
  - wp_step. apply (wp_done _ _ _ _ _ (upd_fd_spec _ _ _ _ (h_fd _ _ _ _ _ (proj1 Hu2)))). cbv beta. wp_step.
    eapply (put_result_wp T fd _ _ s); [by apply set_flags_in_use|done|done].
  - wp_step. wp_step. eapply (put_result_wp T fd _ _ s); [exact Hu2|done|done].
Qed.
Lemma write_kept T fd b s : inv T s → wp (write fd b) (λ _ s', kept T s s') s.
Proof.
  intros H. unfold write. eapply with_fd_wp; [done|done|]. intros d s1 Hs Hu. unfold dfs_file_write.
  destruct (in_use_ops _ _ _ _ Hu) as (o & ops & Hty & Hat & Hg & Eops & _). wp_step. wp_step.
  apply (wp_done _ _ _ _ _ Eops). destruct (op_write ops) as [f|] eqn:Ef.
  2:{ eapply (put_result_wp T fd _ _ s); [exact Hu|done|done]. }
  eapply wp_mono.
  { eapply (in_use_does _ _ _ _ _ _ (λ _ _, True)); [exact Hu|exact Hat|]. eapply does_mono.
    - eapply law_write; [exact Hty|exact Ef|apply (h_fd _ _ _ _ _ (proj1 Hu))|done|done].
    - intros. done. }
  intros r s2 (Hs2 & d2 & Hu2 & _). cbv beta. eapply (put_result_wp T fd _ _ s); [exact Hu2|by eapply stable_trans|done].
Qed.
Lemma fsync_kept T fd s : inv T s → wp (fsync fd) (λ _ s', kept T s s') s.
Proof.
  intros H. unfold fsync. eapply with_fd_wp; [done|done|]. intros d s1 Hs Hu. unfold dfs_file_flush.
  destruct (in_use_ops _ _ _ _ Hu) as (o & ops & Hty & Hat & Hg & Eops & _). wp_step. wp_step.
  apply (wp_done _ _ _ _ _ Eops). destruct (op_flush ops) as [f|] eqn:Ef.
  2:{ wp_step. wp_step. eapply put_wp; [exact Hu|]. intros s' Hk. by eapply kept_trans. }
  eapply wp_mono.
  { eapply (in_use_does _ _ _ _ _ _ (λ _ _, True)); [exact Hu|exact Hat|]. eapply does_mono.
    - eapply law_flush; [exact Hty|exact Ef|apply (h_fd _ _ _ _ _ (proj1 Hu))|done|done].
    - intros. done. }
  intros r s2 (Hs2 & d2 & Hu2 & _). cbv beta. wp_step. eapply put_wp; [exact Hu2|]. intros s' Hk.
  eapply kept_trans; [by eapply stable_trans|done].
Qed.
Lemma fstat_kept T fd s : inv T s → wp (fstat fd) (λ _ s', kept T s s') s.
Proof.
  intros H. unfold fstat. eapply with_fd_wp; [done|done|]. intros d s1 Hs Hu.
  wp_step. apply (wp_done _ _ _ _ _ (get_fd_spec _ _ _ (h_fd _ _ _ _ _ (proj1 Hu)))). wp_step.
  eapply put_wp; [exact Hu|]. intros s' Hk. wp_step. by eapply kept_trans.
Qed.

Lemma in_use_fs T a d s : in_use T a d s → ∃ i o ops, fd_fs d = Some i ∧ fs_type o = Some ops ∧ at_fs o d s ∧ good o d (v_data s) ∧
  ops_of i s = Done ops s ∧ get_fd a s = Done d s.
Proof.
  intros Hu. destruct (in_use_ops _ _ _ _ Hu) as (o & ops & Hty & Hat & Hg & Eops & Eg).
  destruct Hat as (i & f & H1 & Hat). exists i, o, ops. split_and!; try done; [by exists i, f|].
  unfold fd_ops in Eops. erewrite bind_done in Eops by exact Eg. by rewrite H1 in Eops.
Qed.
Lemma file_lseek_wp T a d n s : in_use T a d s → - 2 ^ 31 ≤ n < 2 ^ 31 →
  wp (dfs_file_lseek (Some a) n) (λ _ s', stable s s' ∧ ∃ d', in_use T a d' s' ∧ same_file d d') s.
Proof.
  intros Hu Hn. destruct (in_use_fs _ _ _ _ Hu) as (i & o & ops & Hi & Hty & Hat & Hg & Eops & Eg). unfold dfs_file_lseek.
  wp_step. cbn [of_option]. wp_step. wp_step. apply (wp_done _ _ _ _ _ Eg). rewrite Hi. wp_step. apply (wp_done _ _ _ _ _ Eops).
  destruct (op_lseek ops) as [f|] eqn:Ef; [|split; [done|]; by exists d]. wp_step. destruct Hu as [Hh Ho].
  eapply wp_mono; [eapply held_does; [exact Hh|eapply law_lseek; try done; apply (h_fd _ _ _ _ _ Hh)]|].
  intros r s1 (d1 & Hh1 & Hs & Hsame & Hgood & Hagr & Hheap). cbv beta. pose proof (at_fs_file _ _ _ _ _ Hat Hsame Hagr Hheap) as Hat1.
  destruct (0 <=? r).
  - assert (Hh2 : held T 2 a (set_fd_pos r d1) (fd_set a (set_fd_pos r d1) s1)).
    { eapply held_set; [exact Hh1|destruct d1; done|destruct d1; apply (h_magic _ _ _ _ _ Hh1)|destruct d1; apply (h_count _ _ _ _ _ Hh1)]. }
    wp_step. apply (wp_done _ _ _ _ _ (upd_fd_spec _ _ _ _ (h_fd _ _ _ _ _ Hh1))). wp_step. split; [done|]. eexists.
    split; [split; [exact Hh2|]|destruct d1; exact Hsame].
    split_and!; [apply (h_magic _ _ _ _ _ Hh2)|apply (h_count _ _ _ _ _ Hh2)|]. exists o. split; [by destruct d1|exact Hgood].
  - wp_step. wp_step. wp_step. split; [done|]. exists d1. split; [split; [done|]|done].
    split_and!; [apply (h_magic _ _ _ _ _ Hh1)|apply (h_count _ _ _ _ _ Hh1)|]. by exists o.
Qed.
Lemma put_failed_wp T a d s s0 e (Q : Z → dfs X → Prop) : in_use T a d s → stable s0 s →
  (∀ v s', kept T s0 s' → Q v s') → wp (fd_put (Some a);; failed e) Q s.
Proof.
  intros Hu Hs HQ. wp_step. eapply put_wp; [exact Hu|]. intros s' [Hi Hs'].
  apply (failed_wp T _ _ s0); [done|by eapply stable_trans|]. intros. by apply HQ.
Qed.
Lemma lseek_kept T fd off whence s : inv T s → - 2 ^ 30 ≤ off < 2 ^ 30 → wp (lseek fd off whence) (λ _ s', kept T s s') s.
Proof.
  intros H Hoff. unfold lseek. eapply with_fd_wp; [done|done|]. intros d s1 Hs Hu.
  destruct (in_use_ops _ _ _ _ Hu) as (o & ops & Hty & Hat & Hg & Eops & Eg). destruct (law_pos _ _ _ _ _ _ Hg) as [Hp Hz].
  wp_step. apply (wp_done _ _ _ _ _ Eg). wp_step.
  assert (E : ∃ r, (if whence =? SEEK_SET then mret (Some off)
     else if whence =? SEEK_CUR then o ← add_off off (fd_pos d); mret (Some o)
     else if whence =? SEEK_END then mret (Some (i32 (off + fd_size d))) else mret None) s1 = Done r s1 ∧
     ∀ n, r = Some n → - 2 ^ 31 ≤ n < 2 ^ 31).
  { destruct (whence =? SEEK_SET); [eexists; split; [done|]; intros n [= <-]; lia|].
    destruct (whence =? SEEK_CUR).
    - unfold add_off. rewrite i32_small, Z.eqb_refl by lia. eexists. split; [done|]. intros n [= <-]. lia.
    - destruct (whence =? SEEK_END); eexists; (split; [done|]); intros n; [|done]. intros [= <-]. apply i32_range. }
  destruct E as (r & E & Hr). apply (wp_done _ _ _ _ _ E). destruct r as [n|]; [|by eapply (put_failed_wp T fd _ _ s)].
  specialize (Hr n eq_refl). destruct (n <? 0); [by eapply (put_failed_wp T fd _ _ s)|]. wp_step.
  eapply wp_mono; [by apply (file_lseek_wp T fd d)|]. intros r s2 (Hs2 & d2 & Hu2 & _). cbv beta. wp_step.
  eapply put_wp; [exact Hu2|]. intros s3 [Hi3 Hs3]. assert (Hst : stable s s3) by (by eapply stable_trans, stable_trans).
  destruct (r <? 0); [|wp_step; by split]. by apply (failed_wp T _ _ s).
Qed.

(** * Calls on a path *)

(** The path on the heap is freed. *)
Lemma inv_alloc T p b s : inv T s → v_heap s !! p = None → inv (p :: T) (alloc p b s).
Proof.
  intros [W Ho] Hp. split; [by apply world_alloc|]. eapply fds_ok_agree, Ho; [by apply agree_alloc|done].
Qed.
Lemma free_wp T p s (Q : unit → dfs X → Prop) : inv (p :: T) s → p ≠ 0 →
  (∀ s', kept T s s' → Q tt s') → wp (rt_free p) Q s.
Proof.
  intros [W Ho] Hp HQ. apply (wp_done _ _ _ _ _ (rt_free_spec _ _ _ W Hp)), HQ. split; [|done].
  split; [by apply world_free|]. eapply fds_ok_agree, Ho; [by eapply agree_free|done].
Qed.
Lemma inv_data T x' s : inv T s → keeps (v_data s) x' → inv T (set_v_data x' s).
Proof. intros [W Ho] Hk. split; [by apply world_data|]. eapply fds_ok_agree, Ho; [by apply agree_data|done]. Qed.

Lemma free_ret_wp {A} T p s s0 (v : A) (Q : A → dfs X → Prop) : inv (p :: T) s → p ≠ 0 → stable s0 s →
  (∀ s', kept T s0 s' → Q v s') → wp (rt_free p;; mret v) Q s.
Proof.
  intros H Hp Hs HQ. wp_step. eapply free_wp; [exact H|done|]. intros s' [Hi Hs']. wp_step. apply HQ.
  split; [done|by eapply stable_trans].
Qed.
Lemma file_stat_wp T f rf s : inv T s → name_ok f s → few s → (length T ≤ 4)%nat →
  wp (dfs_file_stat (f ++ 0 :: rf)) (λ _ s', kept T s s') s.
Proof.
  intros H Hf Hfew HT. unfold dfs_file_stat. wp_step.
  destruct (normalize_spec T f rf s 0 (proj1 H) Hf) as [E|(p & t & q & E & Hp & Hnew & Ht & Htl & _)].
  { apply (world_room T); [apply H|done|lia]. }
  { apply (wp_done _ _ _ _ _ E). split; [by eapply inv_same|done]. }
  apply (wp_done _ _ _ _ _ E). rewrite (proj2 (Z.eqb_neq p 0) Hp). set (s1 := alloc p (t ++ 0 :: q) s) in *.
  assert (H1 : inv (p :: T) s1) by (by apply inv_alloc). assert (Hs1 : stable s s1) by done.
  wp_step. apply (wp_done _ _ _ _ _ (block_spec _ _ _ (lookup_insert_eq _ _ _))).
  destruct (lookup_fs_spec _ t q s1 (proj1 H1) Ht) as (r & Er & Hl). wp_step. apply (wp_done _ _ _ _ _ Er).
  destruct r as [i|]; [|by eapply free_ret_wp]. destruct (Hl i eq_refl) as (fs & Hfs). clear Hl.
  pose proof (is_root_spec t q s1 Ht) as Eroot. set (root := bool_decide (t = [SLASH])) in Eroot.
  wp_step. apply (wp_done _ _ _ _ _ Eroot). wp_step.
  assert (Hsub : ∃ o, (if (root : bool) then mret None else below i (t ++ 0 :: q)) s1 = Done o s1 ∧
    (o = None ∨ ∃ u, o = Some (u ++ 0 :: q) ∧ chars u)).
  { destruct root; [exists None; split; [done|by left]|]. destruct (below_spec i fs t q s1 Hfs Ht) as (o & Eo & Ho).
    exists o. split; [done|]. destruct Ho as [->|(u & -> & Hu & _)]; [by left|right; by exists u]. }
  destruct Hsub as (o & Eo & Ho). apply (wp_done _ _ _ _ _ Eo). destruct Ho as [->|(u & -> & Hu)]; [by eapply free_ret_wp|].
  destruct (ops_of_spec _ _ _ (proj1 Hfs)) as (ops & Hty & Eops). wp_step. apply (wp_done _ _ _ _ _ Eops).
  destruct (op_stat ops) as [stat|] eqn:Est; [|by eapply free_ret_wp]. wp_step.
  assert (Hst : ∀ w, chars w → wp (stat i (w ++ 0 :: q)) (λ _ s', ∃ x', s' = set_v_data x' s1 ∧ keeps (v_data s1) x') s1).
  { intros w Hw. destruct Hfs as [(G1 & G2 & G3 & G4 & G5) _]. by eapply law_stat. }
  assert (Hst' : wp (if flag_test (op_flags ops) DFS_FS_FLAG_FULLPATH then stat i (t ++ 0 :: q) else stat i (u ++ 0 :: q))
    (λ _ s', ∃ x', s' = set_v_data x' s1 ∧ keeps (v_data s1) x') s1) by (destruct (flag_test _ _); by apply Hst).
  eapply wp_mono; [exact Hst'|]. intros [res st] s2 (x' & -> & Hk). cbv beta iota.
  eapply free_ret_wp; [by apply inv_data|done|exact Hs1|]. intros s' Hkept. exact Hkept.
Qed.
Lemma stat_kept T f rf s : inv T s → name_ok f s → few s → (length T ≤ 4)%nat →
  wp (stat (f ++ 0 :: rf)) (λ _ s', kept T s s') s.
Proof.
  intros H Hf Hfew HT. unfold stat. wp_step. eapply wp_mono; [by apply (file_stat_wp T)|]. intros [r b] s' [Hi Hs]. cbv beta iota.
  destruct (r <? 0); [|by wp_step]. wp_step. apply errno_wp. intros s2 H1 H2. wp_step. split; [by eapply inv_same|by eapply stable_trans].
Qed.

(** * Directories *)

(** The tables a call on directories leaves alone. *)
Definition steady s s' : Prop := v_fs s' = v_fs s ∧ v_cwd s' = v_cwd s ∧ v_lock s' = v_lock s.
Lemma stable_steady s s' : stable s s' → steady s s'.
Proof. unfold stable, steady. tauto. Qed.
Lemma steady_trans s1 s2 s3 : steady s1 s2 → steady s2 s3 → steady s1 s3.
Proof. unfold steady. naive_solver congruence. Qed.

Definition dirs_set (p : Z) (t : dir) s : dfs X := set_v_dirs (<[p := t]> (v_dirs s)) s.
Lemma put_dir_spec p t s : put_dir p t s = Done tt (dirs_set p t s).
Proof. done. Qed.
Lemma dirs_fds P s (m : gmap Z dir) : fds_ok P s → fds_ok P (set_v_dirs m s).
Proof. intros H. eapply fds_ok_agree, H; [by apply agree_trivial|done]. Qed.
Lemma dir_block T p t s : world T s → v_dirs s !! p = Some t → is_Some (v_heap s !! p).
Proof.
  intros W Hp. apply elem_keys. rewrite (w_blocks _ _ W). unfold owned. rewrite !elem_of_app. right. right. right.
  apply elem_keys. by exists t.
Qed.
Lemma dir_fresh T p s : world T s → v_heap s !! p = None → v_dirs s !! p = None.
Proof. intros W Hp. destruct (v_dirs s !! p) eqn:E; [|done]. destruct (dir_block _ _ _ _ W E) as [b Hb]. congruence. Qed.
Lemma get_dir_spec T p t s : world T s → v_dirs s !! p = Some t → get_dir p s = Done t s.
Proof.
  intros W Hp. destruct (dir_block _ _ _ _ W Hp) as [b Hb]. unfold get_dir. erewrite bind_done by (by apply block_spec).
  erewrite bind_done by done. by rewrite Hp.
Qed.
Lemma world_new_dir T p t s : world (p :: T) s → v_dirs s !! p = None → dir_ok t → world T (dirs_set p t s).
Proof.
  intros [W1 W2 W3 W4 W5] Hp Ht. split; [by eapply mounts_agree, W1; apply agree_trivial|done| | |done].
  - by apply map_Forall_insert_2.
  - simpl. rewrite W4. unfold owned. simpl. rewrite keys_insert by done. by rewrite !(assoc_L (++)), Permutation_middle.
Qed.
Lemma world_set_dir T p t t0 s : world T s → v_dirs s !! p = Some t0 → dir_ok t → world T (dirs_set p t s).
Proof.
  intros [W1 W2 W3 W4 W5] Hp Ht. split; [by eapply mounts_agree, W1; apply agree_trivial|done| | |done].
  - by apply map_Forall_insert_2.
  - simpl. rewrite W4. unfold owned. simpl. by rewrite (keys_update _ _ t0).
Qed.
Lemma inv_del_dir T p t s : inv T s → v_dirs s !! p = Some t → inv (p :: T) (set_v_dirs (delete p (v_dirs s)) s).
Proof.
  intros [[W1 W2 W3 W4 W5] Ho] Hp. split; [|by apply dirs_fds]. split; [by eapply mounts_agree, W1; apply agree_trivial|done| | |done].
  - by apply map_Forall_delete.
  - simpl. rewrite W4. unfold owned. simpl. rewrite (keys_delete (v_dirs s) p t) by done.
    by rewrite !(assoc_L (++)), <- Permutation_middle.
Qed.
Lemma in_use_dirs T T' a d p t s : in_use T' a d s → world T (dirs_set p t s) → in_use T a d (dirs_set p t s).
Proof. intros [[W Ho Ha Hd Hm Hc] Hop] W'. split; [|done]. by split. Qed.

(** A stream that was opened, on a descriptor that is open as a directory. *)
Definition new_stream s (r : Z) s' : Prop :=
  r ≠ 0 ∧ v_dirs s !! r = None ∧ ∃ fd d, v_dirs s' = <[r := Dir fd [] 0 0]> (v_dirs s) ∧ fd ∈ fd_ids ∧
    v_fds s' !! fd = Some d ∧ is_dir d = true.
Lemma flag_directory_in n : flag_test (Z.lor n O_DIRECTORY) O_DIRECTORY = true.
Proof.
  unfold flag_test. replace (Z.land (Z.lor n O_DIRECTORY) O_DIRECTORY) with O_DIRECTORY.
  - pose proof o_directory_fits. rewrite (proj2 (Z.eqb_neq _ 0)); [done|lia].
  - apply Z.bits_inj'. intros j Hj. rewrite Z.land_spec, Z.lor_spec. by destruct (Z.testbit n j), (Z.testbit O_DIRECTORY j).
Qed.
Lemma flag_create : flag_test (Z.lor O_DIRECTORY O_CREAT) O_DIRECTORY = true.
Proof. rewrite Z.lor_comm. apply flag_directory_in. Qed.
Lemma opendir_wp T f rf s : inv T s → name_ok f s → few s → (length T ≤ 4)%nat →
  wp (opendir (f ++ 0 :: rf)) (λ r s', inv T s' ∧ steady s s' ∧ ((r = 0 ∧ v_dirs s' = v_dirs s) ∨ new_stream s r s')) s.
Proof.
  intros H Hf Hfew HT. unfold opendir. wp_step. apply (new_wp T); [done| |].
  { rewrite Z.eqb_refl. wp_step. apply errno_wp. intros s' H1 (? & ? & ? & ?). wp_step. split; [by eapply inv_same|]. split; [done|by left]. }
  intros a Ha Hz Hh. pose proof Ha as Hr. apply fd_ids_range in Hr. rewrite (proj2 (Z.eqb_neq a (-1))) by lia.
  eapply open_fd_wp; [done..|]. intros r s' d Hs Hd Hneg Hpos. destruct (Z.leb_spec 0 r) as [Hr0|Hr0].
  2:{ eapply drop_both_wp; [exact Hd|by apply Hneg|]. intros s2 Hi2 Hs2. wp_step. apply errno_wp. intros s3 H3 Hs3. wp_step.
      assert (stable s s3) as (E1 & E2 & E3 & E4) by (by eapply stable_trans, stable_trans).
      split; [by eapply inv_same|]. split; [done|by left]. }
  destruct (Hpos Hr0) as [Ho Hdir]. rewrite flag_directory_in in Hdir. wp_step.
  assert (Hroom : room 1 s').
  { apply (world_room T); [apply (h_world _ _ _ _ _ Hd)| |lia]. destruct Hs as (E1 & _ & _ & E4). unfold few. by rewrite E1, E4. }
  pose proof (rt_malloc_spec sizeof_DIR s' ltac:(done)) as E.
  destruct (place (v_calls s') (v_heap s') sizeof_DIR) as [[p b]|] eqn:Ep.
  2:{ exfalso. unfold room in Hroom. by apply (place_room (v_calls s') (v_heap s') sizeof_DIR); [lia|done|]. }
  apply (wp_done _ _ _ _ _ E). destruct (place_ok _ _ _ _ _ Ep) as (Hp & _ & Hnew & _).
  rewrite (proj2 (Z.eqb_neq p 0)) by lia. pose proof (held_alloc _ _ _ _ p b _ Hd Hnew) as Hd2.
  assert (Hu2 : in_use (p :: T) a d (alloc p b s')).
  { split; [done|]. eapply fd_open_agree; [by apply agree_alloc| |exact Ho].
    apply (fd_path_in _ a); [done|apply (h_fd _ _ _ _ _ Hd)|]. by destruct Ho as (_ & _ & o & (?&?&?&?&?&?&?&?&?&?) & _). }
  pose proof (dir_fresh _ _ _ (h_world _ _ _ _ _ Hd) Hnew) as Hfresh.
  assert (Hu3 : in_use T a d (dirs_set p (Dir a [] 0 0) (alloc p b s'))).
  { eapply in_use_dirs; [exact Hu2|]. apply world_new_dir; [apply (h_world _ _ _ _ _ Hd2)|done|by left]. }
  wp_step. apply (wp_done _ _ _ _ _ (put_dir_spec _ _ _)). destruct (held_put _ _ _ _ (proj1 Hu3)) as [E3 Hh3]. wp_step. apply (wp_done _ _ _ _ _ E3). wp_step.
  destruct Hs as (E1 & E2 & E4 & E5). split.
  { eapply held_inv; [exact Hh3|]. right. apply (fd_open_ref 2), (proj2 Hu3). }
  split; [done|]. right. split; [lia|]. split; [by rewrite <- E5|]. exists a, (set_fd_ref_count 1 d).
  split_and!; [simpl; by rewrite E5|done|simpl; by rewrite lookup_insert_eq|by destruct d].
Qed.

(** The entry at the position of a stream, and the position behind it: the buffer is used up. *)
Lemma in_use_set_dir T a d p t0 t s : in_use T a d s → v_dirs s !! p = Some t0 → dir_ok t → in_use T a d (dirs_set p t s).
Proof. intros H Hp Ht. eapply in_use_dirs; [exact H|]. eapply world_set_dir; [apply (h_world _ _ _ _ _ (proj1 H))|exact Hp|done]. Qed.
Lemma next_entry t s : dir_ok t → dir_num t ≠ 0 → ∃ e, entry_at_offset (dir_buf t) (dir_cur t) s = Done e s ∧
  i32 (dir_cur t + d_reclen e) = dir_num t.
Proof.
  intros [H|(Hn & [Hc|Hc] & e & Hb & He)] Hz; [done| |]; unfold entry_at_offset; rewrite Hb, Hc, Hn.
  - exists e. split; [done|]. by rewrite He.
  - eexists. split; [done|]. done.
Qed.
(** A stream has moved. *)
Definition streamed T p (t : dir) s s' : Prop :=
  inv T s' ∧ steady s s' ∧ ∃ t', dir_fd t' = dir_fd t ∧ v_dirs s' = <[p := t']> (v_dirs s).
Lemma streamed_kept T p t s s1 s' : v_dirs s1 = v_dirs s → steady s s1 → v_dirs s !! p = Some t → kept T s1 s' → streamed T p t s s'.
Proof.
  intros Hd Hs Hp [Hi Hk]. split; [done|]. split; [by eapply steady_trans, stable_steady|]. exists t. split; [done|].
  destruct Hk as (_ & _ & _ & ->). by rewrite Hd, insert_id.
Qed.

Lemma getdents_wp T a d s : in_use T a d s →
  wp (dfs_file_getdents (Some a) (sizeof_dir_buf - 1)) (λ '(r, l) s', stable s s' ∧ (∃ d', in_use T a d' s') ∧
    (r ≤ 0 ∨ r = sizeof_dirent ∧ ∃ e, l = [e] ∧ d_reclen e = sizeof_dirent)) s.
Proof.
  intros Hu. destruct (in_use_ops _ _ _ _ Hu) as (o & ops & Hty & Hat & Hg & Eops & Eg). unfold dfs_file_getdents.
  wp_step. apply (wp_done _ _ _ _ _ Eg). destruct (fd_type d =? FT_DIRECTORY) eqn:Et; cbn [negb].
  2:{ split; [done|]. split; [by exists d|]. left. assert (- EINVAL < 0) by (apply errno_neg; rewrite !elem_of_cons; tauto). lia. }
  wp_step. apply (wp_done _ _ _ _ _ Eops). destruct (op_getdents ops) as [f|] eqn:Ef.
  2:{ split; [done|]. split; [by exists d|]. left. assert (- ENOSYS < 0) by (apply errno_neg; rewrite !elem_of_cons; tauto). lia. }
  eapply wp_mono.
  { eapply (in_use_does _ _ _ _ _ _ (λ r _, r.1 ≤ 0 ∨ r.1 = sizeof_dirent * Z.of_nat (length r.2) ∧ r.1 ≤ sizeof_dir_buf - 1 ∧
      Forall (λ e, d_reclen e = sizeof_dirent) r.2)); [exact Hu|exact Hat|]. eapply does_mono.
    - eapply law_getdents; [exact Hty|exact Ef|apply (h_fd _ _ _ _ _ (proj1 Hu))|done|done|exact Et|done].
    - intros [r l] d' x'. simpl. tauto. }
  intros [r l] s' (Hs & d' & Hu' & _ & H). split; [done|]. split; [by exists d'|]. simpl in H.
  destruct H as [H|(Hr & Hn & Hl)]; [by left|]. unfold sizeof_dirent, sizeof_dir_buf in *.
  destruct l as [|e [|e' l]]; [left; simpl in Hr; lia| |simpl in Hr; lia]. right. split; [simpl in Hr; lia|]. exists e.
  split; [done|]. by apply Forall_cons in Hl as [? _].
Qed.
(** Stepping over the entry that was returned last uses the buffer up. *)
Lemma pass_entry_spec p t s : dir_ok t → v_dirs s !! p = Some t →
  ∃ t2, (if negb (dir_num t =? 0) then e ← entry_at_offset (dir_buf t) (dir_cur t);
       put_dir p (Dir (dir_fd t) (dir_buf t) (dir_num t) (i32 (dir_cur t + d_reclen e))) else mret tt) s =
     Done tt (dirs_set p t2 s) ∧ dir_ok t2 ∧ dir_fd t2 = dir_fd t ∧ (dir_num t2 =? 0) || (dir_num t2 <=? dir_cur t2) = true.
Proof.
  intros Hok Hp. destruct (Z.eqb_spec (dir_num t) 0) as [E|E]; cbn [negb].
  - exists t. split; [unfold dirs_set; rewrite insert_id by done; by destruct s|]. by rewrite E.
  - destruct (next_entry t s Hok E) as (e & Ee & En). exists (Dir (dir_fd t) (dir_buf t) (dir_num t) (dir_num t)).
    split; [erewrite bind_done by exact Ee; rewrite En; apply put_dir_spec|]. split_and!; [|done|].
    + destruct Hok as [?|(Hn & _ & e' & He & Hr)]; [done|]. right. split; [done|]. split; [by right|]. by exists e'.
    + cbn [dir_num dir_cur]. by rewrite Z.leb_refl, orb_true_r.
Qed.
Lemma readdir_wp T p t s : inv T s → v_dirs s !! p = Some t → wp (readdir p) (λ _ s', streamed T p t s s') s.
Proof.
  intros H Hp. unfold readdir. wp_step. apply (wp_done _ _ _ _ _ (get_dir_spec _ _ _ _ (proj1 H) Hp)).
  eapply with_fd_wp; [done|by intros s'; eapply streamed_kept|]. intros d s1 Hs Hu. wp_step.
  assert (Ed : v_dirs s1 = v_dirs s) by apply Hs. assert (Hp1 : v_dirs s1 !! p = Some t) by congruence.
  assert (Hok : dir_ok t). { apply (w_dirs _ _ (proj1 H) p t Hp). }
  destruct (pass_entry_spec p t s1 Hok Hp1) as (t2 & E2 & Hok2 & Hfd2 & Hend). apply (wp_done _ _ _ _ _ E2).
  pose proof (in_use_set_dir _ _ _ _ _ _ _ Hu Hp1 Hok2) as Hu2. wp_step.
  apply (wp_done _ _ _ _ _ (get_dir_spec _ _ _ _ (h_world _ _ _ _ _ (proj1 Hu2)) (lookup_insert_eq _ _ _))).
  rewrite Hend. wp_step. eapply wp_mono; [by apply (getdents_wp T _ d)|]. intros [r l] s3 (Hs3 & [d3 Hu3] & Hr). cbv beta iota.
  assert (Hst : steady s s3) by (eapply steady_trans; [by apply stable_steady|by apply (stable_steady _ _ Hs3)]).
  assert (Ed3 : v_dirs s3 = <[p := t2]> (v_dirs s)). { destruct Hs3 as (_ & _ & _ & ->). simpl. by rewrite Ed. }
  destruct (Z.leb_spec r 0) as [Hr0|Hr0].
  - wp_step. eapply put_wp; [exact Hu3|]. intros s4 [Hi4 Hs4]. wp_step. apply errno_wp. intros s5 H5 Hs5. wp_step.
    split; [by eapply inv_same|]. assert (stable s3 s5) as Hs35 by (by eapply stable_trans).
    split; [by eapply steady_trans, stable_steady|]. exists t2. split; [done|]. destruct Hs35 as (_ & _ & _ & ->). done.
  - destruct Hr as [?|(Hr & e & -> & He)]; [lia|]. wp_step. apply (wp_done _ _ _ _ _ (put_dir_spec _ _ _)).
    assert (Hu4 : in_use T (dir_fd t) d3 (dirs_set p (Dir (dir_fd t2) [e] r 0) s3)).
    { eapply in_use_set_dir; [exact Hu3|rewrite Ed3; apply lookup_insert_eq|]. right. split; [done|]. split; [by left|]. by exists e. }
    wp_step. eapply put_wp; [exact Hu4|]. intros s5 [Hi5 Hs5]. wp_step. apply (wp_done _ _ _ e s5); [done|]. wp_step.
    split; [done|]. split; [by eapply steady_trans, stable_steady, Hs5|]. exists (Dir (dir_fd t2) [e] r 0). split; [done|].
    destruct Hs5 as (_ & _ & _ & ->). simpl. by rewrite Ed3, insert_insert_eq.
Qed.

(** The other calls on a stream. *)
Lemma telldir_wp T p t s : inv T s → v_dirs s !! p = Some t → wp (telldir p) (λ _ s', streamed T p t s s') s.
Proof.
  intros H Hp. unfold telldir. wp_step. apply (wp_done _ _ _ _ _ (get_dir_spec _ _ _ _ (proj1 H) Hp)).
  eapply with_fd_wp; [done|by intros s'; eapply streamed_kept|]. intros d s1 Hs Hu. wp_step.
  apply (wp_done _ _ _ _ _ (get_fd_spec _ _ _ (h_fd _ _ _ _ _ (proj1 Hu)))). wp_step.
  eapply put_wp; [exact Hu|]. intros s' Hk. wp_step. eapply streamed_kept; [|by apply stable_steady|done|exact Hk].
  apply Hs.
Qed.
Lemma seek_stream_wp T p t off s : inv T s → v_dirs s !! p = Some t → - 2 ^ 31 ≤ off < 2 ^ 31 →
  wp (seekdir p off) (λ _ s', streamed T p t s s') s.
Proof.
  intros H Hp Hoff. unfold seekdir. wp_step. apply (wp_done _ _ _ _ _ (get_dir_spec _ _ _ _ (proj1 H) Hp)).
  eapply with_fd_wp; [done|by intros s'; eapply streamed_kept|]. intros d s1 Hs Hu. wp_step.
  eapply wp_mono; [by apply (file_lseek_wp T _ d)|]. intros r s2 (Hs2 & d2 & Hu2 & _). cbv beta.
  pose proof (stable_trans _ _ _ Hs Hs2) as Hs3. assert (Ed : v_dirs s2 = v_dirs s) by apply Hs3. wp_step.
  destruct (0 <=? r).
  - apply (wp_done _ _ _ _ _ (put_dir_spec _ _ _)). eapply put_wp.
    { eapply in_use_set_dir; [exact Hu2|by rewrite Ed|by left]. }
    intros s' [Hi Hs']. split; [done|]. split; [eapply steady_trans, stable_steady, Hs'; by apply (stable_steady s s2)|].
    eexists. split; [|destruct Hs' as (_ & _ & _ & ->); simpl; by rewrite Ed]. done.
  - wp_step. eapply put_wp; [exact Hu2|]. intros s' Hk.
    eapply streamed_kept; [exact Ed|by apply stable_steady|done|exact Hk].
Qed.
Lemma rewinddir_wp T p t s : inv T s → v_dirs s !! p = Some t → wp (rewinddir p) (λ _ s', streamed T p t s s') s.
Proof. intros H Hp. by apply (seek_stream_wp T p t 0). Qed.

Lemma free_dir_wp T p t s (Q : unit → dfs X → Prop) : inv T s → v_dirs s !! p = Some t → p ≠ 0 →
  (∀ s', inv T s' → steady s s' → v_dirs s' = delete p (v_dirs s) → Q tt s') → wp (free_dir p) Q s.
Proof.
  intros H Hp Hz HQ. pose proof (inv_del_dir _ _ _ _ H Hp) as [W Ho]. destruct (dir_block _ _ _ _ (proj1 H) Hp) as [b Hb].
  apply (wp_done _ _ _ tt (freed p (set_v_dirs (delete p (v_dirs s)) s))).
  - assert (E : rt_free p s = Done tt (freed p s)).
    { unfold rt_free. rewrite (proj2 (Z.eqb_neq p 0)) by done. by erewrite bind_done by (by apply block_spec). }
    unfold free_dir. by erewrite bind_done by exact E.
  - apply HQ; [|done..]. split; [by apply world_free|]. eapply fds_ok_agree, Ho; [by eapply agree_free|done].
Qed.
(** The descriptor of the stream is a directory, when it is still open. *)
Definition on_dir (t : dir) s : Prop := ∀ d, v_fds s !! dir_fd t = Some d → d = zero_fd ∨ is_dir d = true.
Lemma closedir_wp T p t s : inv T s → v_dirs s !! p = Some t → p ≠ 0 → on_dir t s →
  wp (closedir p) (λ _ s', inv T s' ∧ steady s s' ∧
    (v_dirs s' = delete p (v_dirs s) ∨
     v_dirs s' = v_dirs s ∧ (dir_fd t ∈ fd_ids → v_fds s !! dir_fd t = Some zero_fd))) s.
Proof.
  intros H Hp Hz Hdir. unfold closedir. wp_step. apply (wp_done _ _ _ _ _ (get_dir_spec _ _ _ _ (proj1 H) Hp)).
  apply (with_fd_at_wp T); [done| |].
  { intros s' Hfree [Hi Hs]. split; [done|]. split; [by apply stable_steady|]. right. split; [apply Hs|done]. }
  intros d s1 Hd Hs Hu. assert (Hd' : is_dir d = true). { destruct (Hdir _ Hd) as [E|E]; [by destruct d|by destruct d]. }
  wp_step. eapply wp_mono; [by eapply file_close_wp|]. intros r s2 (Hs2 & d' & Hh & Hr). cbv beta.
  destruct Hr as [[Hr Hpath]|(_ & E & _)]; [|congruence].
  eapply drop_both_wp; [exact Hh|done|]. intros s3 Hi3 Hs3.
  assert (Hst : stable s s3) by (by eapply stable_trans, stable_trans). assert (Ed : v_dirs s3 = v_dirs s) by apply Hst. wp_step.
  eapply free_dir_wp; [exact Hi3|by rewrite Ed|done|]. intros s4 Hi4 Hs4 Ed4. rewrite (proj2 (Z.ltb_ge r 0)) by lia. wp_step.
  split; [done|]. split; [by eapply steady_trans, Hs4; apply stable_steady|]. left. by rewrite Ed4, Ed.
Qed.

Lemma mkdir_kept T f rf s : inv T s → name_ok f s → few s → (length T ≤ 4)%nat →
  wp (mkdir (f ++ 0 :: rf)) (λ _ s', kept T s s') s.
Proof.
  intros H Hf Hfew HT. unfold mkdir. wp_step. apply (new_wp T); [done| |].
  { rewrite Z.eqb_refl. by apply (failed_wp T _ _ s). }
  intros a Ha Hz Hh. pose proof Ha as Hr. apply fd_ids_range in Hr. rewrite (proj2 (Z.eqb_neq a (-1))) by lia.
  eapply open_fd_wp; [done..|]. intros r s' d Hs Hd Hneg Hpos. destruct (Z.ltb_spec r 0) as [Hr0|Hr0].
  - eapply drop_both_wp; [exact Hd|by apply Hneg|]. intros s2 Hi2 Hs2.
    apply (failed_wp T _ _ s); [done|by eapply stable_trans, Hs2|done].
  - destruct (Hpos Hr0) as [Ho Hdir]. rewrite flag_create in Hdir. wp_step.
    eapply wp_mono; [by eapply file_close_wp|]. intros r' s2 (Hs2 & d2 & Hd2 & Hr'). cbv beta.
    destruct Hr' as [[_ Hp2]|(_ & E & _)]; [|congruence].
    eapply drop_both_wp; [exact Hd2|done|]. intros s3 Hi3 Hs3. wp_step. split; [done|].
    eapply stable_trans, Hs3. by eapply stable_trans, Hs2.
Qed.
Lemma ioctl_kept T fd cmd data s : inv T s → wp (ioctl fd cmd data) (λ _ s', kept T s s') s.
Proof.
  intros H. unfold ioctl. eapply with_fd_wp; [done|done|]. intros d s1 Hs Hu. unfold dfs_file_ioctl.
  destruct (in_use_ops _ _ _ _ Hu) as (o & ops & Hty & Hat & Hg & Eops & Eg). wp_step. wp_step. apply (wp_done _ _ _ _ _ Eg).
  assert (Hend : ∀ r d' s', in_use T fd d' s' → stable s s' →
    wp (ret ← (if negb (r =? DFS_STATUS_OK) then rt_set_errno r;; mret (-1) else mret r); fd_put (Some fd);; mret ret)
      (λ _ s', kept T s s') s').
  { intros r d' s' Hu' Hs'. destruct (negb _).
    - wp_step. wp_step. apply errno_wp. intros s2 H2 Hs2. wp_step. wp_step.
      eapply put_wp; [by eapply in_use_same|]. intros s3 Hk. wp_step. eapply kept_trans, Hk. by eapply stable_trans.
    - wp_step. wp_step. wp_step. eapply put_wp; [exact Hu'|]. intros s3 Hk. wp_step. by eapply kept_trans. }
  destruct (negb (fd_type d =? FT_REGULAR)); [wp_step; by eapply Hend|]. wp_step. apply (wp_done _ _ _ _ _ Eops).
  destruct (op_ioctl ops) as [f|] eqn:Ef; [|wp_step; by eapply Hend]. eapply wp_mono.
  { eapply (in_use_does _ _ _ _ _ _ (λ _ _, True)); [exact Hu|exact Hat|]. eapply does_mono.
    - eapply law_ioctl; [exact Hty|exact Ef|apply (h_fd _ _ _ _ _ (proj1 Hu))|done|done].
    - intros. done. }
  intros r s2 (Hs2 & d2 & Hu2 & _). cbv beta. eapply Hend; [exact Hu2|by eapply stable_trans].
Qed.
Lemma statfs_kept T f rf s : inv T s → chars f → wp (statfs (f ++ 0 :: rf)) (λ _ s', kept T s s') s.
Proof.
  intros H Hf. unfold statfs, dfs_statfs. wp_step. wp_step.
  destruct (lookup_fs_spec T f rf s (proj1 H) Hf) as (r & Er & Hl). apply (wp_done _ _ _ _ _ Er).
  assert (Hend : ∀ r b s', inv T s' → stable s s' →
    wp (if r <? 0 then rt_set_errno r;; mret (-1, b) else mret (r, b) : D X (Z * option DfsState.statfs)) (λ _ s', kept T s s') s').
  { intros r' b s' Hi Hs. destruct (r' <? 0); [|by wp_step]. wp_step. apply errno_wp. intros s2 H2 Hs2. wp_step.
    split; [by eapply inv_same|by eapply stable_trans]. }
  destruct r as [i|]; [|by apply (Hend (-1) None)]. destruct (Hl i eq_refl) as (fs & Hfs & _).
  destruct (ops_of_spec _ _ _ Hfs) as (ops & Hty & Eops). wp_step. apply (wp_done _ _ _ _ _ Eops).
  destruct (op_statfs ops) as [call|] eqn:Ec; [|by apply (Hend (-1) None)]. wp_step.
  destruct Hfs as (G1 & G2 & G3 & G4 & G5). eapply wp_mono; [by eapply law_statfs|].
  intros [r b] s' (x' & -> & Hk). cbv beta iota. wp_step. apply Hend; [by apply inv_data|done].
Qed.

(** * Removal *)

Lemma open_scan_spec n idx i u q s : chars u →
  (∀ a, idx ≤ a < idx + Z.of_nat n → ∃ d, v_fds s !! a = Some d ∧ (fd_fs d ≠ Some i ∨ ∃ t, cstr (v_heap s) (fd_path d) t)) →
  ∃ b, open_scan n idx i (u ++ 0 :: q) s = Done b s.
Proof.
  intros Hu. revert idx. induction n as [|n IH]; intros idx H; [by exists false|]. cbn [open_scan].
  destruct (H idx) as (d & Hd & Hc); [lia|]. erewrite bind_done by (by apply get_fd_spec).
  destruct (IH (idx + 1)) as [b Eb]; [intros a Ha; apply H; lia|]. destruct (decide (fd_fs d = Some i)) as [E|E].
  - destruct Hc as [?|(t & Ht & r & Hr)]; [done|]. erewrite bind_done.
    2:{ erewrite bind_done by (by apply block_spec). by apply str_eq_spec. }
    destruct (bool_decide _); [by exists true|by exists b].
  - erewrite bind_done by done. by exists b.
Qed.
Lemma fds_paths T s i : inv T s → ∀ a, 0 ≤ a < 0 + Z.of_nat (Z.to_nat DFS_FD_MAX) →
  ∃ d, v_fds s !! a = Some d ∧ (fd_fs d ≠ Some i ∨ ∃ t, cstr (v_heap s) (fd_path d) t).
Proof.
  intros [_ Ho] a Ha. destruct (Ho a) as (d & Hd & Hok); [apply fd_ids_range; unfold DFS_FD_MAX in *; lia|done|].
  exists d. split; [done|]. destruct Hok as [->|(_ & _ & o & (?&?&?&?&?&?&?&?&?&Ht) & _)]; [by left|by right].
Qed.
(** The test leaves nothing behind: the block of the path that it makes is freed. *)
Lemma fd_is_open_spec T t q s : inv T s → name_ok t s → room 1 s → ∃ b, fd_is_open (t ++ 0 :: q) s = Done b (tick s).
Proof.
  intros H Ht Hr. unfold fd_is_open.
  destruct (normalize_spec T t q s 0 (proj1 H) Ht Hr) as [E|(p & u & r & E & Hp & Hnew & Hu & _)].
  { exists (-1). by erewrite bind_done by exact E. }
  erewrite bind_done by exact E. rewrite (proj2 (Z.eqb_neq p 0) Hp). set (s1 := alloc p (u ++ 0 :: r) s) in *.
  assert (H1 : inv (p :: T) s1) by (by apply inv_alloc). erewrite bind_done by (apply block_spec, lookup_insert_eq).
  destruct (lookup_fs_spec _ u r s1 (proj1 H1) Hu) as (o & Eo & Hl). erewrite bind_done by exact Eo.
  destruct o as [i|]; [|exists (-1); by erewrite bind_done by (by apply free_alloc)].
  destruct (Hl i eq_refl) as (f & (Hf & _) & m & [Hm [rm Hrm]] & Hpre). clear Hl. erewrite bind_done by (by apply get_fs_spec).
  erewrite bind_done by (by apply block_spec). pose proof (is_root_spec m rm s1 Hm) as Eb.
  set (b := bool_decide (m = [SLASH])) in Eb. erewrite bind_done by exact Eb.
  assert (Hpath : ∃ w, chars w ∧ (if b then mret (u ++ 0 :: r) else n ← strlen (m ++ 0 :: rm); mret (drop (Z.to_nat n) (u ++ 0 :: r))) s1
    = Done (w ++ 0 :: r) s1).
  { destruct b; [by exists u|]. exists (drop (length m) u). split; [by apply chars_drop|].
    erewrite bind_done by (by apply strlen_spec). rewrite Nat2Z.id, drop_app_le by (by apply prefix_length). done. }
  destruct Hpath as (w & Hw & Ew). erewrite bind_done by exact Ew. erewrite bind_done by apply lock_spec.
  destruct (open_scan_spec (Z.to_nat DFS_FD_MAX) 0 i w r (locked s1) Hw (fds_paths _ s1 i H1)) as [found Es].
  erewrite bind_done by exact Es. pose proof (w_lock _ _ (proj1 H)) as Hlock. destruct found.
  - exists 0. erewrite bind_done by (by apply (free_alloc p _ (locked s))). by erewrite bind_done by (by apply (unlock_spec (tick s))).
  - exists (-1). erewrite bind_done by (by apply (unlock_spec s1)). by erewrite bind_done by (by apply free_alloc).
Qed.
Lemma file_unlink_wp T f rf s : inv T s → name_ok f s → twice_ok f s → few s → (length T ≤ 4)%nat →
  wp (dfs_file_unlink (f ++ 0 :: rf)) (λ _ s', kept T s s') s.
Proof.
  intros H Hf Htwo Hfew HT. unfold dfs_file_unlink. wp_step.
  destruct (normalize_spec T f rf s 0 (proj1 H) Hf) as [E|(p & t & q & E & Hp & Hnew & Ht & Htl & d & r & k & Hd1 & Hd2 & Hk & Htk)].
  { apply (world_room T); [apply H|done|lia]. }
  { apply (wp_done _ _ _ _ _ E). split; [by eapply inv_same|done]. }
  apply (wp_done _ _ _ _ _ E). rewrite (proj2 (Z.eqb_neq p 0) Hp). set (s1 := alloc p (t ++ 0 :: q) s) in *.
  assert (H1 : inv (p :: T) s1) by (by apply inv_alloc). assert (Hs1 : stable s s1) by done.
  assert (Hname : name_ok t s1). { rewrite Htk. by apply (Htwo d r k). }
  wp_step. apply (wp_done _ _ _ _ _ (block_spec _ _ _ (lookup_insert_eq _ _ _))).
  destruct (lookup_fs_spec _ t q s1 (proj1 H1) Ht) as (o & Eo & Hl). wp_step. apply (wp_done _ _ _ _ _ Eo).
  assert (Hend : ∀ (n : Z) s', inv (p :: T) s' → stable s s' → wp (rt_free p;; mret n : D X Z) (λ _ s', kept T s s') s').
  { intros n s' Hi Hs. eapply free_ret_wp; [exact Hi|exact Hp|exact Hs|]. intros s2 Hk2. exact Hk2. }
  wp_step. destruct o as [i|]; [|wp_step; by apply Hend]. destruct (Hl i eq_refl) as (fs & Hfs). clear Hl.
  destruct (fd_is_open_spec _ t q s1 H1 Hname) as [b Eb]; [apply (world_room (p :: T)); [apply H1|done|simpl; lia]|].
  wp_step. apply (wp_done _ _ _ _ _ Eb). set (s2 := tick s1).
  assert (H2 : inv (p :: T) s2) by (by eapply inv_same). assert (Hfs2 : covering i fs t s2) by exact Hfs.
  destruct (b =? 0); [wp_step; by apply Hend|].
  destruct (ops_of_spec _ _ _ (proj1 Hfs2)) as (ops & Hty & Eops). wp_step. apply (wp_done _ _ _ _ _ Eops).
  destruct (op_unlink ops) as [call|] eqn:Ec; [|wp_step; by apply Hend].
  assert (Hcall : ∀ w z, chars w → wp (call i (w ++ 0 :: z)) (λ r s', wp (rt_free p;; mret r : D X Z) (λ _ s'', kept T s s'') s') s2).
  { intros w z Hw. destruct Hfs2 as [(G1 & G2 & G3 & G4 & G5) _]. eapply wp_mono; [by eapply law_unlink|].
    intros n s' (x' & -> & Hx). apply Hend; [by apply inv_data|done]. }
  destruct (negb _); [|by apply Hcall]. destruct (below_spec i fs t q s2 Hfs2 Ht) as (o & Es & Ho).
  wp_step. apply (wp_done _ _ _ _ _ Es). destruct Ho as [->|(u & -> & Hu & _)]; [|by apply Hcall].
  apply (Hcall [SLASH] []), slash_chars.
Qed.
Lemma posix_result_wp {A} (m : D X A) (f : A → Z) T s : wp m (λ _ s', kept T s s') s →
  wp (r ← m; posix_result (f r)) (λ _ s', kept T s s') s.
Proof.
  intros H. wp_step. eapply wp_mono; [exact H|]. intros r s' [Hi Hs]. unfold posix_result.
  destruct (f r <? 0); [by apply (failed_wp T _ _ s)|by wp_step].
Qed.
Lemma unlink_kept T f rf s : inv T s → name_ok f s → twice_ok f s → few s → (length T ≤ 4)%nat →
  wp (unlink (f ++ 0 :: rf)) (λ _ s', kept T s s') s.
Proof. intros. by apply (posix_result_wp _ id), file_unlink_wp. Qed.
Lemma rmdir_kept T f rf s : inv T s → name_ok f s → twice_ok f s → few s → (length T ≤ 4)%nat →
  wp (rmdir (f ++ 0 :: rf)) (λ _ s', kept T s s') s.
Proof. intros. by apply (posix_result_wp _ id), file_unlink_wp. Qed.

(** * The working directory *)

Lemma nul_pad_spec dst n : length dst = n → nul_pad dst n = Some (replicate n 0).
Proof.
  revert dst. induction n as [|n IH]; intros [|c dst] H; try done. simpl. rewrite IH by (simpl in H; lia). done.
Qed.
Lemma strncpy_spec t q dst n : chars t → length dst = n → (length t < n)%nat →
  rt_strncpy dst (t ++ 0 :: q) n = Some (t ++ replicate (n - length t) 0).
Proof.
  intros Ht. revert dst n. induction Ht as [|c t Hc Ht IH]; intros [|x dst] [|n] Hd Hl; try (simpl in *; lia).
  - simpl. rewrite nul_pad_spec by (simpl in Hd; lia). done.
  - cbn [app rt_strncpy]. rewrite (proj2 (Z.eqb_neq c 0)) by lia. rewrite IH by (simpl in *; lia). done.
Qed.
Lemma inv_cwd T t s : inv T s → chars t → (length t < DFS_PATH_MAX)%nat →
  inv T (set_v_cwd (t ++ replicate (DFS_PATH_MAX - length t) 0) s).
Proof.
  intros [[W1 W2 W3 W4 W5] Ho] Ht Hl. split; [split; try done|done].
  destruct (DFS_PATH_MAX - length t)%nat as [|n] eqn:En; [lia|]. exists t, (replicate n 0).
  split_and!; [done|done|simpl; rewrite length_app; simpl; rewrite length_replicate; lia].
Qed.
Lemma inv_lock T l s : inv T s → 0 ≤ l → inv T (set_v_lock l s).
Proof. intros [[W1 W2 W3 W4 W5] Ho] Hl. split; [by split|done]. Qed.
(** The last steps of a change of the directory. *)
Lemma free_unlock_wp T p s s0 (v : Z) (Q : Z → dfs X → Prop) : inv (p :: T) s → p ≠ 0 → v_lock s = v_lock s0 + 1 → 0 ≤ v_lock s0 →
  (∀ s', inv T s' → v_fs s' = v_fs s → v_cwd s' = v_cwd s → v_dirs s' = v_dirs s → v_lock s' = v_lock s0 → Q v s') →
  wp (rt_free p;; dfs_unlock;; mret v) Q s.
Proof.
  intros H Hp Hl Hl0 HQ. wp_step. eapply free_wp; [exact H|done|]. intros s1 [Hi1 (E1 & E2 & E3 & E4)].
  set (s2 := set_v_lock (v_lock s0) s1). assert (E : dfs_unlock s1 = Done tt s2).
  { rewrite <- (unlock_spec s2) by done. f_equal. unfold locked, s2. simpl. rewrite <- Hl, <- E3. by destruct s1. }
  wp_step. apply (wp_done _ _ _ _ _ E). wp_step. by apply HQ; [apply inv_lock|..].
Qed.
(** The directory changes to the path that is opened, which must fit the buffer. *)
Definition fits (f : list Z) s : Prop :=
  ∀ d r k, v_cwd s = d ++ 0 :: r → chars d → normal (full_path d f) = Some k → (length (path_text k) < DFS_PATH_MAX)%nat.
Definition moved T s s' : Prop := inv T s' ∧ v_fs s' = v_fs s ∧ v_lock s' = v_lock s ∧ v_dirs s' = v_dirs s.
Lemma chdir_locked_wp T p t q s : inv (p :: T) s → p ≠ 0 → v_heap s !! p = Some (t ++ 0 :: q) → name_ok t s →
  (length t < DFS_PATH_MAX)%nat → few s → (length T ≤ 3)%nat →
  wp (chdir_locked p) (λ _ s', moved T s s') (locked s).
Proof.
  intros H Hp Hb Hname Hfit Hfew HT. unfold chdir_locked. pose proof (w_lock _ _ (proj1 H)) as Hlock.
  assert (H1 : inv (p :: T) (locked s)) by (apply inv_lock; [done|lia]). wp_step.
  apply (wp_done _ _ _ _ _ (block_spec _ _ (locked s) Hb)). wp_step.
  eapply wp_mono; [by apply (opendir_wp (p :: T)); [| | |simpl; lia]|]. intros r s2 (H2 & (E1 & E2 & E3) & Hr). cbv beta.
  destruct Hr as [[-> Ed]|(Hr & Hnone & fd & d & Ed & Hfd & Hd & Hdir)].
  - eapply (free_unlock_wp T p _ s); [exact H2|done|by rewrite E3|done|]. intros s' Hi F1 F2 F3 F4.
    split; [done|]. rewrite F1, F3. done.
  - rewrite (proj2 (Z.eqb_neq r 0)) by done. wp_step. eapply wp_mono.
    { eapply (closedir_wp (p :: T)); [exact H2|rewrite Ed; apply lookup_insert_eq|done|].
      intros d' Hd'. right. simpl in Hd'. congruence. }
    intros _ s3 (H3 & (G1 & G2 & G3) & Hclosed). cbv beta.
    assert (Ed3 : v_dirs s3 = v_dirs s).
    { destruct Hclosed as [->|[_ Hz]]; [by rewrite Ed, delete_insert_id|]. simpl in Hz. specialize (Hz Hfd).
      rewrite Hd in Hz. injection Hz as ->. discriminate Hdir. }
    wp_step. apply (wp_done _ _ _ (v_cwd s3) s3); [done|]. cbv beta.
    destruct (w_cwd _ _ (proj1 H3)) as (? & ? & _ & _ & Hlen).
    wp_step. eapply wp_option; [by apply strncpy_spec; [apply Hname|..]|]. wp_step. wp_step.
    eapply (free_unlock_wp T p _ s); [apply inv_cwd; [exact H3|apply Hname|done]|done|simpl; by rewrite G3, E3|done|].
    intros s' Hi F1 F2 F3 F4. split; [done|]. rewrite F1, F3. simpl. rewrite G1, E1. done.
Qed.
Lemma chdir_moved T f rf s : inv T s → name_ok f s → twice_ok f s → fits f s → few s → (length T ≤ 3)%nat →
  wp (chdir (Some (f ++ 0 :: rf))) (λ _ s', moved T s s') s.
Proof.
  intros H Hf Htwo Hfit Hfew HT. unfold chdir. wp_step.
  apply (wp_done _ _ _ _ _ (strlen_spec f rf s (proj1 Hf))).
  assert (Hfail : ∀ s', kept T s s' → wp (failed (- ENOTDIR) : D X Z) (λ _ s', moved T s s') s').
  { intros s' [Hi Hs]. apply (failed_wp T _ _ s); [done|done|]. intros s2 [Hi2 (E1 & E2 & E3 & E4)]. by split. }
  destruct (_ <? _); [by apply Hfail|]. wp_step.
  destruct (normalize_spec T f rf s 0 (proj1 H) Hf) as [E|(p & t & q & E & Hp & Hnew & Ht & Htl & d & r & k & Hd1 & Hd2 & Hk & ->)].
  { apply (world_room T); [apply H|done|lia]. }
  { apply (wp_done _ _ _ _ _ E). apply Hfail. split; [by eapply inv_same|done]. }
  apply (wp_done _ _ _ _ _ E). rewrite (proj2 (Z.eqb_neq p 0) Hp). wp_step. apply (wp_done _ _ _ _ _ (lock_spec _)).
  eapply wp_mono; [by eapply (chdir_locked_wp T); [apply inv_alloc| |apply lookup_insert_eq|by apply (Htwo d r k)|by apply (Hfit d r k)|..]|].
  intros _ s' (Hi & E1 & E2 & E3). by split.
Qed.
Lemma chdir_shown T s : inv T s → wp (chdir None) (λ _ s', moved T s s') s.
Proof.
  intros H. pose proof (w_lock _ _ (proj1 H)) as Hl. unfold chdir. wp_step. apply (wp_done _ _ _ _ _ (lock_spec s)). wp_step.
  apply (wp_done _ _ _ (v_cwd s) (locked s)); [done|]. cbv beta. wp_step. unfold kprintf. wp_step. wp_step.
  match goal with |- wp dfs_unlock _ (set_v_out ?o _) =>
    apply (wp_done _ _ _ _ _ (unlock_spec (set_v_out o s) Hl)) end.
  wp_step. split; [|done]. by eapply inv_same.
Qed.
Lemma getcwd_kept T buf n s : inv T s → length buf = n → (DFS_PATH_MAX ≤ n)%nat →
  wp (getcwd buf (Z.of_nat n)) (λ _ s', s' = s) s.
Proof.
  intros H Hb Hn. destruct (w_cwd _ _ (proj1 H)) as (d & r & Ed & Hd & Hl). unfold getcwd. wp_step.
  apply (wp_done _ _ _ (v_cwd s) s); [done|]. cbv beta. rewrite Nat2Z.id, Ed.
  assert ((length d < n)%nat) by (rewrite Ed, length_app in Hl; simpl in Hl; lia).
  eapply wp_option; [by apply strncpy_spec|done].
Qed.

(** * Sessions *)

(** The calls; names come without the zero behind them. *)
Inductive call :=
| Open (f : list Z) (flags : Z) | Close (fd : Z) | Read (fd n : Z) | Write (fd : Z) (b : list Z) | Lseek (fd off whence : Z)
| Fsync (fd : Z) | Fstat (fd : Z) | Ioctl (fd cmd data : Z) | Stat (f : list Z) | Statfs (f : list Z)
| Unlink (f : list Z) | Rmdir (f : list Z) | Mkdir (f : list Z)
| Opendir (f : list Z) | Readdir (p : Z) | Telldir (p : Z) | Seekdir (p off : Z) | Rewinddir (p : Z) | Closedir (p : Z)
| Chdir (f : list Z) | Showdir | Getcwd (buf : list Z).
Definition ignore {A} (m : D X A) : D X unit := _ ← m; mret tt.
Definition exec (c : call) : D X unit :=
  match c with
  | Open f flags => ignore (open (f ++ [0]) flags)
  | Close fd => ignore (close fd)
  | Read fd n => ignore (read fd n)
  | Write fd b => ignore (write fd b)
  | Lseek fd off whence => ignore (lseek fd off whence)
  | Fsync fd => ignore (fsync fd)
  | Fstat fd => ignore (fstat fd)
  | Ioctl fd cmd data => ignore (ioctl fd cmd data)
  | Stat f => ignore (stat (f ++ [0]))
  | Statfs f => ignore (statfs (f ++ [0]))
  | Unlink f => ignore (unlink (f ++ [0]))
  | Rmdir f => ignore (rmdir (f ++ [0]))
  | Mkdir f => ignore (mkdir (f ++ [0]))
  | Opendir f => ignore (opendir (f ++ [0]))
  | Readdir p => ignore (readdir p)
  | Telldir p => ignore (telldir p)
  | Seekdir p off => seekdir p off
  | Rewinddir p => rewinddir p
  | Closedir p => ignore (closedir p)
  | Chdir f => ignore (chdir (Some (f ++ [0])))
  | Showdir => ignore (chdir None)
  | Getcwd buf => ignore (getcwd buf (Z.of_nat (length buf)))
  end.
Definition stream (p : Z) s : Prop := is_Some (v_dirs s !! p).
(** What a call needs: names that can be resolved, numbers in range, streams that are open and
    not closed behind their back. *)
Definition ready (c : call) s : Prop :=
  match c with
  | Open f _ | Stat f | Mkdir f | Opendir f => name_ok f s
  | Unlink f | Rmdir f => name_ok f s ∧ twice_ok f s
  | Chdir f => name_ok f s ∧ twice_ok f s ∧ fits f s
  | Statfs f => chars f
  | Read _ n => 0 ≤ n < 2 ^ 31
  | Lseek _ off _ => - 2 ^ 30 ≤ off < 2 ^ 30
  | Readdir p | Telldir p | Rewinddir p => stream p s
  | Seekdir p off => stream p s ∧ - 2 ^ 31 ≤ off < 2 ^ 31
  | Closedir p => p ≠ 0 ∧ ∃ t, v_dirs s !! p = Some t ∧ on_dir t s
  | Getcwd buf => (DFS_PATH_MAX ≤ length buf)%nat
  | Close _ | Write _ _ | Fsync _ | Fstat _ | Ioctl _ _ _ | Showdir => True
  end.
(** After a call: the invariant, the same mounts, the lock as before. *)
Definition settled s s' : Prop := dfs_inv s' ∧ v_fs s' = v_fs s ∧ v_lock s' = v_lock s.
Lemma ignore_wp {A} (m : D X A) (P : dfs X → Prop) s : wp m (λ _ s', P s') s → wp (ignore m) (λ _ s', P s') s.
Proof. intros H. unfold ignore. wp_step. eapply wp_mono; [exact H|]. intros r s' Hs. by wp_step. Qed.
Lemma kept_settled {A} (m : D X A) s : wp m (λ _ s', kept [] s s') s → wp m (λ _ s', settled s s') s.
Proof. intros H. eapply wp_mono; [exact H|]. intros r s' [Hi (H1 & _ & H3 & _)]. by split. Qed.
Lemma streamed_settled {A} (m : D X A) p t s : wp m (λ _ s', streamed [] p t s s') s → wp m (λ _ s', settled s s') s.
Proof. intros H. eapply wp_mono; [exact H|]. intros r s' (Hi & (H1 & _ & H3) & _). by split. Qed.
Lemma exec_settled c s : dfs_inv s → few s → ready c s → wp (exec c) (λ _ s', settled s s') s.
Proof.
  intros H Hf Hr. unfold dfs_inv in H. destruct c; simpl in Hr; cbn [exec]; try apply ignore_wp.
  - eapply wp_mono; [apply (open_kept []); [done..|simpl; lia]|]. intros r s' [[Hi (H1 & _ & H3 & _)] _]. by split.
  - by apply kept_settled, close_kept.
  - by apply kept_settled, read_kept.
  - by apply kept_settled, write_kept.
  - by apply kept_settled, lseek_kept.
  - by apply kept_settled, fsync_kept.
  - by apply kept_settled, fstat_kept.
  - by apply kept_settled, ioctl_kept.
  - apply kept_settled, stat_kept; [done..|simpl; lia].
  - by apply kept_settled, statfs_kept.
  - destruct Hr. apply kept_settled, unlink_kept; [done..|simpl; lia].
  - destruct Hr. apply kept_settled, rmdir_kept; [done..|simpl; lia].
  - apply kept_settled, mkdir_kept; [done..|simpl; lia].
  - eapply wp_mono; [apply (opendir_wp []); [done..|simpl; lia]|]. intros r s' (Hi & (H1 & _ & H3) & _). by split.
  - destruct Hr as [t Ht]. by eapply streamed_settled, readdir_wp.
  - destruct Hr as [t Ht]. by eapply streamed_settled, telldir_wp.
  - destruct Hr as [[t Ht] Ho]. by eapply streamed_settled, seek_stream_wp.
  - destruct Hr as [t Ht]. by eapply streamed_settled, rewinddir_wp.
  - destruct Hr as (Hp & t & Ht & Hd). eapply wp_mono; [by eapply (closedir_wp [])|]. intros r s' (Hi & (H1 & _ & H3) & _). by split.
  - destruct Hr as (H1 & H2 & H3). eapply wp_mono; [apply (chdir_moved []); [done..|simpl; lia]|]. intros r s' (Hi & E1 & E2 & _). by split.
  - eapply wp_mono; [by apply (chdir_shown [])|]. intros r s' (Hi & E1 & E2 & _). by split.
  - eapply wp_mono; [by eapply (getcwd_kept [])|]. intros r s' ->. by split.
Qed.
Fixpoint run (l : list call) : D X unit := match l with [] => mret tt | c :: l => exec c;; run l end.
Fixpoint all_ready (l : list call) s : Prop :=
  match l with [] => True | c :: l => few s ∧ ready c s ∧ ∀ s', exec c s = Done tt s' → all_ready l s' end.

(** C27. A sequence of POSIX calls that are each [ready] when their turn comes runs to its end,
    from a state that satisfies the invariant of the device file system to one that does: each
    descriptor is free or open once on a mounted file system, and each block of the heap is the
    path of a descriptor or of a mount or a stream, so that these calls leak no block and free
    none twice, on their error paths too; the mounts are the same, and the lock is held as often
    as before.  A call is ready when there are at most 20 mounts and streams, its name is short
    and does not end above the root, its numbers are in range and its stream is open with its
    descriptor not reused for a file; the path of [chdir] must fit the buffer.  The file systems
    keep [file_system_laws], which leave out those that fail to close a directory. *)
Theorem posix_calls_keep_inv l s : dfs_inv s → all_ready l s →
  ∃ s', run l s = Done tt s' ∧ dfs_inv s' ∧ v_fs s' = v_fs s ∧ v_lock s' = v_lock s.
Proof.
  revert s. induction l as [|c l IH]; intros s H Hr; [by exists s|]. destruct Hr as (Hf & Hc & Hl).
  pose proof (exec_settled c s H Hf Hc) as Hw. unfold wp in Hw. destruct (exec c s) as [[] s1|] eqn:E; [|done].
  destruct Hw as (H1 & E1 & E2). destruct (IH s1 H1 (Hl s1 eq_refl)) as (s' & Er & H2 & E3 & E4).
  exists s'. cbn [run]. erewrite bind_done by exact E. split_and!; [done|done|congruence|congruence].
Qed.
End calls.
