(* ===== verification/RomFs.v ===== *)
(** The file system in read-only memory ([filesystems/romfs/dfs_romfs.c]). *)

From stdpp Require Import base gmap list strings.
From Stdlib Require Import ZArith Lia.
From S2P Require Import Prelude Kservice Printf Halts DfsState DfsPath Dfs DfsInv DfsCalls.

Open Scope Z_scope.

Definition ROMFS_DIRENT_FILE : Z := 0.
Definition ROMFS_DIRENT_DIR : Z := 1.
Record romfs_dirent := RomDirent { rom_type : Z; rom_name : list Z; rom_data : Z; rom_size : Z }.
Definition sizeof_romfs_dirent : Z := 16.

(** The image: the entries and the data at their addresses (a table of entries is an array);
    the data of a file is the bytes from its address on. *)
Class romfs_image := { rom_entry : Z → option romfs_dirent; rom_bytes : Z → option (list Z) }.

Section romfs.
Context {X : Type} `{!libc, !romfs_image}.

Definition entry (a : Z) : D X romfs_dirent := of_option BadPointer (rom_entry a).
Definition entry_addr (dirent index : Z) : Z := dirent + sizeof_romfs_dirent * index.

Definition dfs_romfs_mount (fs : nat) (rwflag data : Z) : D X Z :=
  if data =? 0 then mret (- EIO) else set_fs_data fs data;; mret DFS_STATUS_OK.
Definition dfs_romfs_unmount (fs : nat) : D X Z := mret DFS_STATUS_OK.
Definition dfs_romfs_ioctl (file cmd args : Z) : D X Z := mret (- EIO).

(** The result is compared with 0: [true] is 0. *)
Definition check_dirent (e : romfs_dirent) : bool :=
  negb ((negb (rom_type e =? ROMFS_DIRENT_FILE) && negb (rom_type e =? ROMFS_DIRENT_DIR))
        || (rom_size e =? 2 ^ 32 - 1)).

(** * Look-up *)

(** From [subpath_end]: the next name, and its length. *)
Fixpoint skip_slash (p : list Z) : option (list Z) :=
  match p with [] => None | c :: p' => if c =? SLASH then skip_slash p' else Some p end.
Fixpoint name_length (p : list Z) : option nat :=
  match p with
  | [] => None
  | c :: p => if (c =? SLASH) || (c =? 0) then Some O else n ← name_length p; Some (S n)
  end.
Definition next_name (p : list Z) : D X (list Z * nat) :=
  p ← of_option BadPointer (skip_slash p);
  n ← of_option BadPointer (name_length p);
  mret (p, n).

(** The search in a directory: the result of the call, or the directory to go on with. *)
Inductive search := Found (r : option (Z * Z)) | Enter (dirent size : Z) (subpath : list Z) (len : nat).
Definition entry_matches (e : romfs_dirent) (subpath : list Z) (len : nat) : D X bool :=
  n ← strlen (rom_name e);
  if n =? Z.of_nat len then strn_eq (rom_name e) subpath (Z.of_nat len) else mret false.
Fixpoint search_folder (n : nat) (dirent index : Z) (subpath : list Z) (len : nat) : D X search :=
  match n with
  | O => mret (Found None)
  | S n =>
    e ← entry (entry_addr dirent index);
    if negb (check_dirent e) then mret (Found None)
    else
      same ← entry_matches e subpath len;
      if negb same then search_folder n dirent (index + 1) subpath len
      else
        '((subpath, len) : list Z * nat) ← next_name (drop len subpath);
        c ← nth_char subpath 0;
        if c =? 0 then mret (Found (Some (entry_addr dirent index, rom_size e)))
        else if rom_type e =? ROMFS_DIRENT_DIR then mret (Enter (rom_data e) (rom_size e) subpath len)
        else mret (Found None)
  end.
Fixpoint lookup_loop (fuel : nat) (dirent size : Z) (subpath : list Z) (len : nat) : D X (option (Z * Z)) :=
  if dirent =? 0 then mret None
  else
    match fuel with
    | O => fail OutOfFuel
    | S fuel =>
      r ← search_folder (Z.to_nat size) dirent 0 subpath len;
      match r with
      | Found r => mret r
      | Enter dirent size subpath len => lookup_loop fuel dirent size subpath len
      end
    end.
(** The address of the entry and its size. *)
Definition dfs_romfs_lookup (root_dirent : Z) (path : list Z) : D X (option (Z * Z)) :=
  e ← entry root_dirent;
  if negb (check_dirent e) then mret None
  else
    root ← is_root path;
    if (root : bool) then mret (Some (root_dirent, rom_size e))
    else
      '((subpath, len) : list Z * nat) ← next_name path;
      lookup_loop (length path) (rom_data e) (rom_size e) subpath len.

(** * Files *)

Definition dfs_romfs_read (file count : Z) : D X (Z * list Z) :=
  d ← get_fd file;
  if fd_data d =? 0 then fail AssertFailed
  else
    e ← entry (fd_data d);
    if negb (check_dirent e) then mret (- EIO, [])
    else
      let left := u32 (fd_size d - fd_pos d) in
      let length := if count <? left then count else left in
      buf ← (if 0 <? length then
               b ← of_option BadPointer (rom_bytes (rom_data e));
               if (0 <=? fd_pos d) && (fd_pos d + length <=? Z.of_nat (List.length b))
               then mret (take (Z.to_nat length) (drop (Z.to_nat (fd_pos d)) b)) else fail BadPointer
             else mret []);
      put_fd file (set_fd_pos (i32 (fd_pos d + length)) d);;
      mret (i32 length, buf).
Definition dfs_romfs_lseek (file offset : Z) : D X Z :=
  d ← get_fd file;
  if u32 offset <=? fd_size d then put_fd file (set_fd_pos offset d);; mret offset else mret (- EIO).
Definition dfs_romfs_close (file : Z) : D X Z := upd_fd file (set_fd_data 0);; mret DFS_STATUS_OK.
Definition dfs_romfs_open (file : Z) : D X Z :=
  d ← get_fd file;
  fs ← of_option BadPointer (fd_fs d);
  f ← get_fs fs;
  e ← entry (fs_data f);
  if negb (check_dirent e) then mret (- EIO)
  else if flag_test (fd_flags d) (Z.lor O_CREAT (Z.lor O_WRONLY (Z.lor O_APPEND (Z.lor O_TRUNC O_RDWR))))
  then mret (- EINVAL)
  else
    path ← block (fd_path d);
    r ← dfs_romfs_lookup (fs_data f) path;
    match r with
    | None => mret (- ENOENT)
    | Some (dirent, size) =>
      e ← entry dirent;
      let dir := flag_test (fd_flags d) O_DIRECTORY in
      if negb (Bool.eqb (rom_type e =? ROMFS_DIRENT_DIR) dir) then mret (- ENOENT)
      else
        put_fd file (set_fd_data dirent (set_fd_size size (set_fd_pos 0 d)));;
        mret DFS_STATUS_OK
    end.
Definition dfs_romfs_stat (fs : nat) (path : list Z) : D X (Z * stat) :=
  f ← get_fs fs;
  r ← dfs_romfs_lookup (fs_data f) path;
  match r with
  | None => mret (- ENOENT, Stat 0 0 0 0)
  | Some (dirent, size) =>
    e ← entry dirent;
    let mode := Z.lor S_IFREG S_IRWALL in
    let mode := if rom_type e =? ROMFS_DIRENT_DIR
                then Z.lor (Z.land mode (Z.lnot S_IFREG)) (Z.lor S_IFDIR S_IXALL) else mode in
    mret (DFS_STATUS_OK, Stat 0 mode (rom_size e) 0)
  end.

(** The entry of the caller for one of the directory. *)
Definition fill_dirent (e : romfs_dirent) : D X dirent :=
  n ← strlen (rom_name e);
  if 256 <=? n then fail BadPointer
  else mret (Dirent (if rom_type e =? ROMFS_DIRENT_DIR then DT_DIR else DT_REG) (u8 n) sizeof_dirent
                    (take (Z.to_nat (n + 1)) (rom_name e))).
Fixpoint getdents_loop (n : nat) (file table : Z) : D X (list dirent) :=
  match n with
  | O => mret []
  | S n =>
    d ← get_fd file;
    if u32 (fd_pos d) <? fd_size d then
      e ← entry (entry_addr table (fd_pos d));
      x ← fill_dirent e;
      put_fd file (set_fd_pos (fd_pos d + 1) d);;
      r ← getdents_loop n file table;
      mret (x :: r)
    else mret []
  end.
Definition dfs_romfs_getdents (file count : Z) : D X (Z * list dirent) :=
  d ← get_fd file;
  e ← entry (fd_data d);
  if negb (check_dirent e) then mret (- EIO, [])
  else if negb (rom_type e =? ROMFS_DIRENT_DIR) then fail AssertFailed
  else
    let count := count / sizeof_dirent in
    if count =? 0 then mret (- EINVAL, [])
    else
      r ← getdents_loop (Z.to_nat count) file (rom_data e);
      mret (Z.of_nat (length r) * sizeof_dirent, r).

Definition romfs_name : list Z := text "rom" ++ [0].
Definition romfs_ops : dfs_filesystem_operation X := Operations X romfs_name 0
  (Some dfs_romfs_mount) (Some dfs_romfs_unmount) None None
  (Some dfs_romfs_open) (Some dfs_romfs_close) (Some dfs_romfs_ioctl) (Some dfs_romfs_read) None None
  (Some dfs_romfs_lseek) (Some dfs_romfs_getdents) None (Some dfs_romfs_stat) None.
End romfs.

(** The registration; [ops] is the address of [_romfs]. *)
Definition dfs_romfs_init {X} `{!fs_types X} (ops : Z) : D X Z := _ ← dfs_register ops; mret 0.

(** * The tree of an image *)

(** The names of a path, and the entry that they lead to. *)
Definition names (t : list Z) : list (list Z) := filter (λ w, w ≠ []) (split_path t).
Definition text_of (l : list Z) : list Z := from_option (λ n, take (Z.to_nat n) l) [] (rt_strlen l).

Section tree.
Context `{!romfs_image}.
Fixpoint first_child (n : nat) (table i : Z) (w : list Z) : option Z :=
  match n with
  | O => None
  | S n =>
    e ← rom_entry (entry_addr table i);
    if bool_decide (text_of (rom_name e) = w) then Some (entry_addr table i) else first_child n table (i + 1) w
  end.
Definition child (a : Z) (w : list Z) : option Z :=
  e ← rom_entry a;
  if rom_type e =? ROMFS_DIRENT_DIR then first_child (Z.to_nat (rom_size e)) (rom_data e) 0 w else None.
Fixpoint find (ws : list (list Z)) (a : Z) : option Z :=
  match ws with [] => Some a | w :: ws => c ← child a w; find ws c end.
Definition find_path (root : Z) (t : list Z) : option Z :=
  if bool_decide (t = [SLASH]) then Some root
  else match names t with [] => None | ws => find ws root end.
Definition size_at (a : Z) : Z := from_option rom_size 0 (rom_entry a).

(** A well-formed image: [P] holds of entries, whose names are strings and whose data is there;
    the table of a directory holds such entries. *)
Definition entry_fine (P : Z → Prop) (e : romfs_dirent) : Prop :=
  (∃ t r, rom_name e = t ++ 0 :: r ∧ chars t ∧ t ≠ [] ∧ (length t < 256)%nat) ∧
  0 ≤ rom_size e < 2 ^ 30 ∧
  (∃ b, rom_bytes (rom_data e) = Some b ∧ rom_size e ≤ Z.of_nat (length b)) ∧
  (rom_type e = ROMFS_DIRENT_FILE ∨
   rom_type e = ROMFS_DIRENT_DIR ∧ ∀ i, 0 ≤ i < rom_size e → P (entry_addr (rom_data e) i)).
Class rom_tree (P : Z → Prop) : Prop := {
  tree_entry a : P a → a ≠ 0 ∧ ∃ e, rom_entry a = Some e ∧ entry_fine P e
}.
End tree.

(** * Looking up *)

Lemma names_slash q : names (SLASH :: q) = names q.
Proof. done. Qed.
Lemma names_name w q : w ≠ [] → SLASH ∉ w → names (w ++ SLASH :: q) = w :: names q.
Proof. intros Hw Hs. unfold names. by rewrite split_name, filter_cons_True. Qed.
Lemma names_last w : w ≠ [] → SLASH ∉ w → names w = [w].
Proof. intros Hw Hs. unfold names. by rewrite split_last, filter_cons_True. Qed.
Lemma text_of_chars t r : chars t → text_of (t ++ 0 :: r) = t.
Proof. intros Ht. unfold text_of. rewrite strlen_chars by done. simpl. by rewrite Nat2Z.id, take_app_length. Qed.

(** The name at the head of a path, its length, and what comes behind it. *)
Definition at_name (u : list Z) (n : nat) (t : list Z) : Prop :=
  chars u ∧ (n ≤ length u)%nat ∧ (length u ≤ length t)%nat ∧
  ((u = [] ∧ n = 0%nat ∧ names t = []) ∨ ((0 < n)%nat ∧ names t = take n u :: names (drop n u))).
Lemma skip_slash_spec t r : chars t → ∃ u, skip_slash (t ++ 0 :: r) = Some (u ++ 0 :: r) ∧ chars u ∧
  (length u ≤ length t)%nat ∧ names t = names u ∧ (u = [] ∨ ∃ c v, u = c :: v ∧ c ≠ SLASH).
Proof.
  induction 1 as [|c t Hc Ht IH].
  { exists []. split_and!; [done|constructor|done|done|by left]. }
  cbn [app skip_slash].
  destruct (Z.eqb_spec c SLASH) as [->|E].
  - destruct IH as (u & -> & Hu & Hl & Hn & Hh). exists u. split_and!; [done|done|simpl; lia|by rewrite names_slash|done].
  - exists (c :: t). split_and!; [done|by apply Forall_cons|lia|done|right; by exists c, t].
Qed.
Lemma name_length_spec u r : chars u → ∃ n, name_length (u ++ 0 :: r) = Some n ∧ (n ≤ length u)%nat ∧ (SLASH ∉ take n u) ∧
  (drop n u = [] ∨ ∃ v, drop n u = SLASH :: v).
Proof.
  induction 1 as [|c u Hc Hu IH].
  { exists 0%nat. split_and!; [done|done|apply not_elem_of_nil|by left]. }
  cbn [app name_length].
  destruct (Z.eqb_spec c SLASH) as [->|E]; cbn [orb].
  - exists 0%nat. split_and!; [done|lia|by apply not_elem_of_nil|right; by exists u].
  - rewrite (proj2 (Z.eqb_neq c 0)) by lia. destruct IH as (n & -> & Hn & Hs & Hd). exists (S n).
    split_and!; [done|simpl; lia|by apply not_elem_of_cons|done].
Qed.
Section lookup.
Context {X : Type} {I : romfs_image} (P : Z → Prop) {R : rom_tree P}.
Implicit Types s : dfs X.

Lemma next_name_spec t r s : chars t → ∃ u n, next_name (t ++ 0 :: r) s = Done (u ++ 0 :: r, n) s ∧ at_name u n t.
Proof.
  intros Ht. destruct (skip_slash_spec t r Ht) as (u & E & Hu & Hl & Hn & Hh).
  destruct (name_length_spec u r Hu) as (n & En & Hln & Hs & Hd). exists u, n. unfold next_name.
  rewrite E. erewrite bind_done by done. rewrite En. erewrite bind_done by done. split; [done|].
  split_and!; [done..|]. destruct Hh as [->|(c & v & -> & Hc)]; [left; simpl in Hln; by split_and!; [|lia|]|]. right.
  assert (0 < n)%nat as H0.
  { destruct n as [|n]; [|lia]. exfalso. destruct Hd as [Hd|(v' & Hd)]; [done|]. by injection Hd as -> _. }
  assert (take n (c :: v) ≠ []) by (by destruct n; [lia|]). split; [done|]. rewrite Hn.
  rewrite <- (take_drop n (c :: v)) at 1. destruct Hd as [->|(v' & ->)].
  - by rewrite app_nil_r, names_last.
  - by rewrite names_slash, names_name.
Qed.

Lemma check_dirent_fine e : entry_fine P e → check_dirent e = true.
Proof.
  intros (_ & Hs & _ & Ht). unfold check_dirent. rewrite (proj2 (Z.eqb_neq (rom_size e) (2 ^ 32 - 1))) by lia.
  by destruct Ht as [->|[-> _]].
Qed.
Lemma entry_spec a s : P a → ∃ e, rom_entry a = Some e ∧ entry a s = Done e s ∧ entry_fine P e ∧ check_dirent e = true.
Proof.
  intros H. destruct (tree_entry a H) as (_ & e & E & He). exists e. unfold entry. rewrite E. split_and!; try done.
  by apply check_dirent_fine.
Qed.
Lemma entry_matches_spec e u n r s : entry_fine P e → chars u → (n ≤ length u)%nat →
  entry_matches e (u ++ 0 :: r) n s = Done (bool_decide (text_of (rom_name e) = take n u)) s.
Proof.
  intros ((t & z & Ez & Ht & _) & _) Hu Hn. unfold entry_matches. rewrite Ez, text_of_chars by done.
  erewrite bind_done by (by apply strlen_spec). destruct (Z.eqb_spec (Z.of_nat (length t)) (Z.of_nat n)) as [E|E].
  - rewrite strn_eq_spec by done. rewrite Nat2Z.id, (take_ge t) by lia. done.
  - rewrite bool_decide_eq_false_2; [done|]. intros ->. rewrite length_take in E. lia.
Qed.

(** What the search in a directory gives, for the child that it finds. *)
Definition enters (r : list Z) (q : list Z) (a : Z) (e : romfs_dirent) (res : search) : Prop :=
  (names q = [] ∧ res = Found (Some (a, rom_size e))) ∨
  (names q ≠ [] ∧ rom_type e ≠ ROMFS_DIRENT_DIR ∧ res = Found None) ∨
  (rom_type e = ROMFS_DIRENT_DIR ∧ ∃ u n, res = Enter (rom_data e) (rom_size e) (u ++ 0 :: r) n ∧ (0 < n)%nat ∧ at_name u n q).
Lemma search_folder_spec k table i u n r s : (∀ j, i ≤ j < i + Z.of_nat k → P (entry_addr table j)) →
  chars u → (n ≤ length u)%nat →
  ∃ res, search_folder k table i (u ++ 0 :: r) n s = Done res s ∧
    match first_child k table i (take n u) with
    | None => res = Found None
    | Some a => P a ∧ (0 < n)%nat ∧ ∃ e, rom_entry a = Some e ∧ enters r (drop n u) a e res
    end.
Proof.
  intros HP Hu Hn. revert i HP. induction k as [|k IH]; intros i HP; [by exists (Found None)|]. cbn [search_folder first_child].
  assert (Hi : P (entry_addr table i)) by (apply HP; lia). destruct (entry_spec _ s Hi) as (e & Ee & Es & He & Hc).
  erewrite bind_done by exact Es. rewrite Hc, Ee. cbn [negb]. erewrite bind_done by (by apply entry_matches_spec). simpl.
  case_bool_decide as Hm; cbn [negb]; [|apply IH; intros j Hj; apply HP; lia].
  assert (0 < n)%nat as H0. { destruct He as ((t & z & En & Ht & Hne & _) & _). rewrite En, text_of_chars in Hm by done.
    destruct n; [by destruct u|lia]. }
  rewrite drop_app_le by done. destruct (next_name_spec (drop n u) r s) as (u' & n' & E & Hat); [by apply Forall_drop|].
  erewrite bind_done by exact E. pose proof Hat as (Hu' & Hn' & _ & Hcase).
  destruct Hcase as [(-> & -> & Hq)|(Hn0 & Hq)].
  - eexists. split; [by erewrite bind_done by done|]. split_and!; [done|done|]. exists e. split; [done|]. by left.
  - destruct u' as [|c u']; [simpl in Hn'; lia|]. erewrite bind_done by done. apply Forall_cons in Hu' as [Hc' _].
    rewrite (proj2 (Z.eqb_neq c 0)) by lia. destruct (Z.eqb_spec (rom_type e) ROMFS_DIRENT_DIR) as [Hd|Hd].
    + eexists. split; [done|]. split_and!; [done|done|]. exists e. split; [done|]. right. right. split; [done|]. by exists (c :: u'), n'.
    + eexists. split; [done|]. split_and!; [done|done|]. exists e. split; [done|]. right. left. by rewrite Hq.
Qed.
Definition sized (a : Z) : Z * Z := (a, size_at a).
Lemma lookup_loop_spec fuel table size u n r s : (∀ j, 0 ≤ j < size → P (entry_addr table j)) →
  chars u → (n ≤ length u < fuel)%nat →
  lookup_loop fuel table size (u ++ 0 :: r) n s =
    Done (sized <$> (first_child (Z.to_nat size) table 0 (take n u) ≫= find (names (drop n u)))) s.
Proof.
  revert table size u n. induction fuel as [|fuel IH]; intros table size u n HP Hu Hn; [lia|]. cbn [lookup_loop].
  destruct (Z.eqb_spec table 0) as [->|Ht].
  { destruct (Z.to_nat size) eqn:E; [done|]. exfalso. destruct (tree_entry 0) as [H0 _]; [|done]. apply (HP 0). lia. }
  destruct (search_folder_spec (Z.to_nat size) table 0 u n r s) as (res & Es & Hres); [intros j Hj; apply HP; lia|done|lia|].
  erewrite bind_done by exact Es. destruct (first_child (Z.to_nat size) table 0 (take n u)) as [a|]; [|by rewrite Hres].
  destruct Hres as (Ha & Hn0 & e & Ee & [[Hq ->]|[(Hq & Hd & ->)|(Hd & u' & n' & -> & Hn' & Hat)]]); simpl.
  - rewrite Hq. simpl. unfold sized, size_at. by rewrite Ee.
  - destruct (names (drop n u)) as [|w ws]; [done|]. simpl. unfold child. rewrite Ee. simpl.
    by rewrite (proj2 (Z.eqb_neq _ _)).
  - pose proof Hat as (Hu' & Hl & Hlq & [(_ & ? & _)|(_ & Hq)]); [lia|]. rewrite length_drop in Hlq. rewrite IH; [|..|done|lia].
    + rewrite Hq. simpl. unfold child at 1. rewrite Ee. simpl. by rewrite Hd.
    + destruct (tree_entry a Ha) as (_ & e' & Ee' & He'). rewrite Ee in Ee'. injection Ee' as <-.
      destruct He' as (_ & _ & _ & [Hf|[_ Hc]]); [|exact Hc]. rewrite Hd in Hf. discriminate Hf.
Qed.
Definition rom_root (a : Z) : Prop := P a ∧ ∃ e, rom_entry a = Some e ∧ rom_type e = ROMFS_DIRENT_DIR.
Lemma table_entries a e : P a → rom_entry a = Some e → rom_type e = ROMFS_DIRENT_DIR →
  ∀ i, 0 ≤ i < rom_size e → P (entry_addr (rom_data e) i).
Proof.
  intros Ha Ee Hd. destruct (tree_entry a Ha) as (_ & e' & Ee' & He'). rewrite Ee in Ee'. injection Ee' as <-.
  destruct He' as (_ & _ & _ & [Hf|[_ Hc]]); [|exact Hc]. rewrite Hd in Hf. discriminate Hf.
Qed.
Lemma dfs_romfs_lookup_spec root t r s : rom_root root → chars t →
  dfs_romfs_lookup root (t ++ 0 :: r) s = Done (sized <$> find_path root t) s.
Proof.
  intros (HP & e & Ee & Hd) Ht. unfold dfs_romfs_lookup, find_path.
  destruct (entry_spec root s HP) as (e' & Ee' & Es & He & Hc). rewrite Ee in Ee'. injection Ee' as <-.
  erewrite bind_done by exact Es. rewrite Hc. cbn [negb]. erewrite bind_done by (by apply is_root_spec).
  case_bool_decide as Hroot; [simpl; unfold sized, size_at; by rewrite Ee|].
  destruct (next_name_spec t r s Ht) as (u & n & En & Hat). erewrite bind_done by exact En. cbv beta iota.
  pose proof Hat as (Hu & Hn & Hl & Hcase). pose proof (table_entries _ _ HP Ee Hd) as Hent.
  rewrite lookup_loop_spec; [|done|done|rewrite length_app; simpl; lia]. destruct Hcase as [(-> & -> & ->)|(Hn0 & ->)].
  - destruct (search_folder_spec (Z.to_nat (rom_size e)) (rom_data e) 0 [] 0 r s) as (res & _ & Hres); [intros j Hj; apply Hent; lia|done|done|].
    destruct (first_child _ _ _ _); [|done]. destruct Hres as (_ & ? & _). lia.
  - simpl. unfold child. rewrite Ee. simpl. by rewrite Hd.
Qed.
Lemma first_child_in k table i w c : first_child k table i w = Some c → ∃ j, i ≤ j < i + Z.of_nat k ∧ c = entry_addr table j.
Proof.
  revert i. induction k as [|k IH]; intros i H; [done|]. cbn [first_child] in H. destruct (rom_entry _); [|done]. simpl in H.
  case_bool_decide; [injection H as <-; exists i; split; [lia|done]|]. destruct (IH _ H) as (j & Hj & ->). exists j. split; [lia|done].
Qed.
Lemma find_in ws a b : P a → find ws a = Some b → P b.
Proof.
  revert a. induction ws as [|w ws IH]; intros a Ha H; [by injection H as <-|]. simpl in H. unfold child in H.
  destruct (rom_entry a) as [e|] eqn:Ee; [|done]. simpl in H. destruct (Z.eqb_spec (rom_type e) ROMFS_DIRENT_DIR) as [Hd|]; [|done].
  destruct (first_child _ _ _ _) as [c|] eqn:Ec; [|done]. simpl in H. eapply IH, H.
  apply first_child_in in Ec as (j & Hj & ->). eapply table_entries; [exact Ha|done|done|]. lia.
Qed.
Lemma find_path_in root t a : P root → find_path root t = Some a → P a.
Proof.
  intros Hr. unfold find_path. case_bool_decide; [by intros [= <-]|]. destruct (names t); [done|]. by apply find_in.
Qed.

(** C28. In a well-formed image the look-up of the read-only file system finds, for every
    string, the entry that the names of the path lead to from the root, each one the first of
    its name in the table of its parent, or none; whatever the number of slashes between the
    names; the size is that of the entry.  The root itself has only the name of one slash. *)
Theorem dfs_romfs_lookup_correct root t r s : rom_root root → chars t →
  dfs_romfs_lookup root (t ++ 0 :: r) s = Done (sized <$> find_path root t) s ∧
  (∀ a, find_path root t = Some a → P a).
Proof. intros Hr Ht. split; [by apply dfs_romfs_lookup_spec|]. intros a. apply find_path_in, Hr. Qed.
End lookup.

(** * The promises of a file system *)

Section promises.
Context {X : Type} {C : libc} {Cok : libc_ok C} {I : romfs_image} (P : Z → Prop) {R : rom_tree P}.
Context {Types : fs_types X} (only_romfs : ∀ a o, fs_type a = Some o → o = romfs_ops).
Implicit Types s : dfs X.

(** A mount has the root of a tree, an open file an entry of its kind and a position in it. *)
#[local] Instance rom_systems : file_systems X := {|
  good_fs _ v _ := rom_root P v;
  good_fd _ b z p v _ := P v ∧ ∃ e, rom_entry v = Some e ∧ z = rom_size e ∧ 0 ≤ p ≤ z ∧ (b = true ↔ rom_type e = ROMFS_DIRENT_DIR)
|}.
Lemma does_fd {A} (m : D X A) a d d' (Q : A → dfs_fd → X → Prop) s r :
  m s = Done r (fd_set a d' s) → same_file d d' → Q r d' (v_data s) → does m a d Q s.
Proof.
  intros E Hs HQ. unfold does, wp. rewrite E. exists d', (v_data s). by split_and!.
Qed.
Lemma does_nothing {A} (m : D X A) a d (Q : A → dfs_fd → X → Prop) s r :
  m s = Done r s → v_fds s !! a = Some d → Q r d (v_data s) → does m a d Q s.
Proof. intros E Hd HQ. apply (does_fd m a d d Q s r); [by rewrite fd_set_id|done|done]. Qed.
Lemma good_entry o d x : good o d x → ∃ e, rom_entry (fd_data d) = Some e ∧ P (fd_data d) ∧ entry_fine P e ∧ check_dirent e = true ∧
  fd_size d = rom_size e ∧ 0 ≤ fd_pos d ≤ rom_size e ∧ (is_dir d = true ↔ rom_type e = ROMFS_DIRENT_DIR).
Proof.
  intros (HP & e & Ee & Hz & Hp & Hd). exists e. destruct (tree_entry (P := P) _ HP) as (_ & e' & Ee' & He').
  rewrite Ee in Ee'. injection Ee' as <-. split_and!; first [done|lia|by eapply check_dirent_fine|apply Hd].
Qed.
Lemma good_move o d x p : good o d x → 0 ≤ p ≤ fd_size d → good o (set_fd_pos p d) x.
Proof. intros (HP & e & Ee & Hz & Hp & Hd) Hp'. destruct d. simpl in *. split; [done|]. exists e. split_and!; first [done|lia|apply Hd]. Qed.
Lemma get_done {A} a d s (k : dfs_fd → D X A) : v_fds s !! a = Some d → (d ← get_fd a; k d) s = k d s.
Proof. intros H. by erewrite bind_done by (by apply get_fd_spec). Qed.
Lemma entry_done {A} a e s (k : romfs_dirent → D X A) : rom_entry a = Some e → (e ← entry a; k e) s = k e s.
Proof. intros H. unfold entry. rewrite H. by erewrite bind_done by done. Qed.

Lemma u32_id x : 0 ≤ x < 2 ^ 32 → u32 x = x.
Proof. intros H. by apply Z.mod_small. Qed.
Lemma u32_neg x : - 2 ^ 31 ≤ x < 0 → 2 ^ 31 ≤ u32 x.
Proof. intros H. unfold u32. rewrite <- (Z.mod_unique x (2 ^ 32) (-1) (x + 2 ^ 32)); lia. Qed.

Lemma romfs_read_does o a d n s : v_fds s !! a = Some d → good o d (v_data s) → 0 ≤ n < 2 ^ 31 →
  does (dfs_romfs_read a n) a d (λ r d' x', good o d' x') s.
Proof.
  intros Hd Hg Hn. destruct (good_entry _ _ _ Hg) as (e & Ee & HP & (_ & Hsz & (b & Eb & Hb) & _) & Hc & Hz & Hp & _).
  destruct (tree_entry (P := P) _ HP) as [H0 _].
  set (k := if n <? fd_size d - fd_pos d then n else fd_size d - fd_pos d).
  assert (Hk : 0 ≤ k ∧ fd_pos d + k ≤ rom_size e) by (unfold k; destruct (Z.ltb_spec n (fd_size d - fd_pos d)); lia).
  assert (E : ∃ r, dfs_romfs_read a n s = Done r (fd_set a (set_fd_pos (fd_pos d + k) d) s)).
  { unfold dfs_romfs_read. rewrite (get_done a d) by done. rewrite (proj2 (Z.eqb_neq _ 0)) by done.
    rewrite (entry_done _ e) by done. rewrite Hc. cbn [negb]. rewrite (u32_id (fd_size d - fd_pos d)) by lia. fold k.
    destruct (Z.ltb_spec 0 k) as [Hk0|Hk0].
    - rewrite Eb. erewrite bind_done.
      2:{ erewrite bind_done by done. rewrite (proj2 (Z.leb_le 0 _)), (proj2 (Z.leb_le _ _)) by lia. done. }
      rewrite (i32_small (fd_pos d + k)) by lia. eexists. by erewrite bind_done by apply put_fd_spec.
    - erewrite bind_done by done. rewrite (i32_small (fd_pos d + k)) by lia. eexists. by erewrite bind_done by apply put_fd_spec. }
  destruct E as [r E]. eapply does_fd; [exact E|by destruct d|]. apply good_move; [done|lia].
Qed.
Lemma romfs_lseek_does o a d n s : v_fds s !! a = Some d → good o d (v_data s) → - 2 ^ 31 ≤ n < 2 ^ 31 →
  does (dfs_romfs_lseek a n) a d (λ r d' x', good o (if 0 <=? r then set_fd_pos r d' else d') x') s.
Proof.
  intros Hd Hg Hn. destruct (good_entry _ _ _ Hg) as (e & Ee & HP & (_ & Hsz & _) & Hc & Hz & Hp & _).
  assert (E : dfs_romfs_lseek a n s = if u32 n <=? fd_size d then Done n (fd_set a (set_fd_pos n d) s) else Done (- EIO) s).
  { unfold dfs_romfs_lseek. rewrite (get_done a d) by done. destruct (_ <=? _); [|done]. by erewrite bind_done by apply put_fd_spec. }
  destruct (Z.leb_spec (u32 n) (fd_size d)) as [Hle|Hle].
  - assert (0 ≤ n) as H0. { destruct (Z_lt_le_dec n 0); [|done]. pose proof (u32_neg n ltac:(lia)). lia. }
    rewrite u32_id in Hle by lia. eapply does_fd; [exact E|by destruct d|]. rewrite (proj2 (Z.leb_le 0 n)) by done.
    assert (good o (set_fd_pos n d) (v_data s)) as G by (apply good_move; [done|lia]). by destruct d.
  - eapply does_nothing; [exact E|done|]. assert (- EIO < 0) by (apply errno_neg; rewrite !elem_of_cons; tauto).
    by rewrite (proj2 (Z.leb_gt 0 (- EIO))).
Qed.

Lemma fill_dirent_spec e s : entry_fine P e → ∃ x, fill_dirent e s = Done x s ∧ d_reclen x = sizeof_dirent.
Proof.
  intros ((t & r & En & Ht & _ & Hl) & _). unfold fill_dirent. rewrite En. erewrite bind_done by (by apply strlen_spec).
  rewrite (proj2 (Z.leb_gt 256 _)) by lia. by eexists.
Qed.
Lemma getdents_loop_spec n a table d s : v_fds s !! a = Some d → 0 ≤ fd_pos d ≤ fd_size d → fd_size d < 2 ^ 30 →
  (∀ i, 0 ≤ i < fd_size d → P (entry_addr table i)) →
  ∃ l, getdents_loop n a table s = Done l (fd_set a (set_fd_pos (fd_pos d + Z.of_nat (length l)) d) s) ∧
    (length l ≤ n)%nat ∧ fd_pos d + Z.of_nat (length l) ≤ fd_size d ∧ Forall (λ e, d_reclen e = sizeof_dirent) l.
Proof.
  intros Hd Hp Hz HP. revert d s Hd Hp Hz HP. induction n as [|n IH]; intros d s Hd Hp Hz HP.
  all: assert (Hstop : s = fd_set a (set_fd_pos (fd_pos d + Z.of_nat (length (@nil dirent))) d) s)
    by (simpl; rewrite Z.add_0_r, fd_set_id by (by destruct d); done).
  { exists []. cbn [getdents_loop]. rewrite <- Hstop. split_and!; [done|done|simpl; lia|constructor]. }
  cbn [getdents_loop]. rewrite (get_done a d) by done. rewrite u32_id by lia. destruct (Z.ltb_spec (fd_pos d) (fd_size d)) as [Hlt|Hge].
  2:{ exists []. rewrite <- Hstop. split_and!; [done|simpl; lia|simpl; lia|constructor]. }
  destruct (entry_spec P (entry_addr table (fd_pos d)) s) as (e & Ee & Es & He & _); [apply HP; lia|].
  erewrite bind_done by exact Es. destruct (fill_dirent_spec e s He) as (x & Ex & Hx). erewrite bind_done by exact Ex.
  erewrite bind_done by apply put_fd_spec. set (d1 := set_fd_pos (fd_pos d + 1) d).
  assert (Ep : fd_pos d1 = fd_pos d + 1) by (by destruct d). assert (Ez : fd_size d1 = fd_size d) by (by destruct d).
  destruct (IH d1 (fd_set a d1 s)) as (l & E & Hl & Hlz & Hf); [simpl; by rewrite lookup_insert_eq|lia|lia|by rewrite Ez|].
  exists (x :: l). erewrite bind_done by exact E. rewrite fd_set_set. split_and!; [|simpl; lia| |by constructor].
  - replace (set_fd_pos (fd_pos d1 + Z.of_nat (length l)) d1) with
      (set_fd_pos (fd_pos d + Z.of_nat (length (x :: l))) d); [done|]. rewrite Ep. unfold d1. destruct d; simpl. f_equal; lia.
  - simpl. lia.
Qed.
Lemma romfs_getdents_does o a d n s : v_fds s !! a = Some d → good o d (v_data s) → is_dir d = true → 0 ≤ n < 2 ^ 31 →
  does (dfs_romfs_getdents a n) a d (λ '(r, l) d' x', good o d' x' ∧ (r ≤ 0 ∨ r = sizeof_dirent * Z.of_nat (length l) ∧ r ≤ n ∧
    Forall (λ e, d_reclen e = sizeof_dirent) l)) s.
Proof.
  intros Hd Hg Hdir Hn. destruct (good_entry _ _ _ Hg) as (e & Ee & HP & (_ & Hsz & _) & Hc & Hz & Hp & Hty).
  apply Hty in Hdir. unfold dfs_romfs_getdents.
  assert (E : ∃ r l k, dfs_romfs_getdents a n s = Done (r, l) (fd_set a (set_fd_pos k d) s) ∧ 0 ≤ k ≤ fd_size d ∧
    (r ≤ 0 ∨ r = sizeof_dirent * Z.of_nat (length l) ∧ r ≤ n ∧ Forall (λ e, d_reclen e = sizeof_dirent) l)).
  { unfold dfs_romfs_getdents. rewrite (get_done a d) by done. rewrite (entry_done _ e) by done. rewrite Hc, Hdir. cbn [negb Z.eqb].
    rewrite Z.eqb_refl. cbn [negb]. destruct (Z.eqb_spec (n / sizeof_dirent) 0) as [E0|E0].
    - exists (- EINVAL), [], (fd_pos d). rewrite fd_set_id by (by destruct d). split_and!; [done|lia|lia|]. left.
      assert (- EINVAL < 0) by (apply errno_neg; rewrite !elem_of_cons; tauto). lia.
    - destruct (getdents_loop_spec (Z.to_nat (n / sizeof_dirent)) a (rom_data e) d s) as (l & El & Hl & Hlz & Hf); [done|lia|lia| |].
      { intros i Hi. eapply (table_entries P); [exact HP|done|done|lia]. }
      erewrite bind_done by exact El. eexists _, l, _. split; [done|]. split; [lia|]. right.
      pose proof (Z.mul_div_le n sizeof_dirent ltac:(done)). unfold sizeof_dirent in *.
      assert (0 ≤ n / 260) by (apply Z.div_pos; lia). split_and!; [lia|lia|done]. }
  destruct E as (r & l & k & E & Hk & Hr). eapply does_fd; [exact E|by destruct d|]. split; [by apply good_move|done].
Qed.
Lemma romfs_open_does o a d s : v_fds s !! a = Some d → at_fs o d s →
  does (dfs_romfs_open a) a d (λ r d' x', 0 ≤ r →
    good_fd o (flag_test (fd_flags d) O_DIRECTORY) (fd_size d') (fd_pos d') (fd_data d') x') s.
Proof.
  intros Hd (i & f & Hfs & Hf & Ho & _ & _ & Hroot & _ & t & Ht & r & Hr). pose proof Hroot as (HP & e & Ee & _).
  destruct (entry_spec P (fs_data f) s HP) as (e' & Ee' & Es & _ & Hc). rewrite Ee in Ee'. injection Ee' as <-.
  assert (Hneg : ∀ n, n ∈ [ENOENT; EINVAL] → dfs_romfs_open a s = Done (- n) s → does (dfs_romfs_open a) a d (λ r d' x', 0 ≤ r →
    good_fd o (flag_test (fd_flags d) O_DIRECTORY) (fd_size d') (fd_pos d') (fd_data d') x') s).
  { intros n Hn E. eapply does_nothing; [exact E|done|]. intros H0. assert (- n < 0); [|lia]. apply errno_neg.
    rewrite !elem_of_cons in *. rewrite elem_of_nil in Hn. tauto. }
  assert (E : dfs_romfs_open a s =
    if flag_test (fd_flags d) (Z.lor O_CREAT (Z.lor O_WRONLY (Z.lor O_APPEND (Z.lor O_TRUNC O_RDWR)))) then Done (- EINVAL) s
    else match find_path (fs_data f) t with
      | None => Done (- ENOENT) s
      | Some b => (e ← entry b;
          if negb (Bool.eqb (rom_type e =? ROMFS_DIRENT_DIR) (flag_test (fd_flags d) O_DIRECTORY)) then mret (- ENOENT)
          else put_fd a (set_fd_data b (set_fd_size (size_at b) (set_fd_pos 0 d)));; mret DFS_STATUS_OK) s
      end).
  { unfold dfs_romfs_open. rewrite (get_done a d) by done. rewrite Hfs. erewrite bind_done by done.
    erewrite bind_done by (by apply get_fs_spec). erewrite bind_done by exact Es. rewrite Hc. cbn [negb].
    destruct (flag_test (fd_flags d) (Z.lor O_CREAT _)); [done|]. erewrite bind_done by (by apply block_spec).
    erewrite bind_done by (by apply (dfs_romfs_lookup_spec P)). by destruct (find_path _ _). }
  destruct (flag_test (fd_flags d) (Z.lor O_CREAT _)); [apply (Hneg EINVAL); [rewrite !elem_of_cons; tauto|done]|].
  destruct (find_path (fs_data f) t) as [b|] eqn:Ef; [|apply (Hneg ENOENT); [rewrite !elem_of_cons; tauto|done]].
  pose proof (find_path_in P _ _ _ HP Ef) as Hb. destruct (entry_spec P b s Hb) as (eb & Eeb & Esb & Heb & _).
  rewrite (entry_done b eb) in E by done.
  destruct (Bool.eqb (rom_type eb =? ROMFS_DIRENT_DIR) (flag_test (fd_flags d) O_DIRECTORY)) eqn:Eq; cbn [negb] in E.
  2:{ apply (Hneg ENOENT); [rewrite !elem_of_cons; tauto|done]. }
  erewrite bind_done in E by apply put_fd_spec. eapply does_fd; [exact E|by destruct d|]. intros _. destruct d; simpl in *.
  split; [done|]. exists eb. unfold size_at. rewrite Eeb. simpl. apply eqb_prop in Eq. destruct Heb as (_ & Hsz & _).
  split_and!; first [done|lia|by rewrite <- Eq, Z.eqb_eq].
Qed.
Lemma romfs_stat_wp i e t r s : v_fs s !! i = Some e → rom_root P (fs_data e) → chars t →
  wp (dfs_romfs_stat i (t ++ 0 :: r)) (λ _ s', s' = s) s.
Proof.
  intros He Hroot Ht. unfold dfs_romfs_stat. wp_step. apply (wp_done _ _ _ _ _ (get_fs_spec _ _ _ He)). wp_step.
  apply (wp_done _ _ _ _ _ (dfs_romfs_lookup_spec P _ _ _ _ Hroot Ht)). destruct (find_path _ _) as [a|] eqn:Ef; [|done]. simpl.
  pose proof (find_path_in P _ _ _ (proj1 Hroot) Ef) as Ha. destruct (entry_spec P a s Ha) as (x & _ & Es & _).
  wp_step. by apply (wp_done _ _ _ _ _ Es).
Qed.
#[local] Instance rom_promises : file_system_laws.
Proof.
  constructor.
  - intros o b z p v x (HP & e & Ee & -> & Hp & _). destruct (tree_entry (P := P) _ HP) as (_ & e' & Ee' & _ & Hz & _).
    rewrite Ee in Ee'. injection Ee' as <-. lia.
  - intros o ops f a d s Ho Hf Hd Hat. apply only_romfs in Ho as ->. injection Hf as <-. by apply romfs_open_does.
  - intros o ops f a d s Ho Hf Hd Hat Hg. apply only_romfs in Ho as ->. injection Hf as <-.
    eapply does_fd; [unfold dfs_romfs_close; by erewrite bind_done by (by apply upd_fd_spec)|by destruct d|by left].
  - intros o ops f a d n s Ho Hf Hd Hat Hg Hn. apply only_romfs in Ho as ->. injection Hf as <-. by apply romfs_read_does.
  - intros o ops f a d n s Ho Hf. apply only_romfs in Ho as ->. discriminate Hf.
  - intros o ops f a d s Ho Hf. apply only_romfs in Ho as ->. discriminate Hf.
  - intros o ops f a d n s Ho Hf Hd Hat Hg Hn. apply only_romfs in Ho as ->. injection Hf as <-. by apply romfs_lseek_does.
  - intros o ops f a d n s Ho Hf Hd Hat Hg Hn. apply only_romfs in Ho as ->. injection Hf as <-. by apply romfs_getdents_does.
  - intros o ops f i e t r s Ho Hf He Hoe Hg Ht. apply only_romfs in Ho as ->. injection Hf as <-.
    eapply wp_mono; [by eapply romfs_stat_wp|]. intros _ s' ->. exists (v_data s). split; [by destruct s|done].
  - intros o ops f i e t r s Ho Hf. apply only_romfs in Ho as ->. discriminate Hf.
  - intros o ops f i e s Ho Hf. apply only_romfs in Ho as ->. discriminate Hf.
  - intros o ops f a d cmd args s Ho Hf Hd Hat Hg. apply only_romfs in Ho as ->. injection Hf as <-. by eapply does_nothing.
Qed.
End promises.
