(* ===== verification/Scenario.v ===== *)
(** A running system: the kernel booted by the model's own operations, with three
    threads and one object of each kind, and the theorems on the scheduler, the
    timers, threads and objects applied to it.  Each hypothesis is established by evaluation on the state the
    operations reach. *)

From stdpp Require Import base gmap list fin_maps.
From Stdlib Require Import ZArith Lia.
From S2P Require Import Prelude IntrusiveList Ffs Kservice KState Object Sched Timer KInv WfCheck.
From S2P Require Import SchedFacts TimerFacts TimerCheck Thread Ipc IpcFacts.
From S2P Require Import Sem Mutex Event Ring Mailbox MsgQueue MemPool ThreadFacts ObjectFacts.

Open Scope Z_scope.

(** * The states *)

(** Memory before [rtthread_startup]. *)
Definition kernel0 : kstate := mk_kstate ∅ ∅ ∅ ∅ ∅ ∅ ∅ ∅ ∅ ∅ ∅ ∅ 0 None 0 0 0 0 0 [].

Definition state_after {A} (m : K A) (s : kstate) : kstate :=
  match m s with Done _ s' => s' | Fault _ => s end.
Definition succeeds {A} (m : K A) (s : kstate) : bool :=
  match m s with Done _ _ => true | Fault _ => false end.

(** Two application threads ([main] at priority 10, [aux] at 11) above the idle
    thread; nothing is running yet. *)
Definition main : Z := 10.
Definition aux : Z := 11.
Definition boot : K unit :=
  rt_system_scheduler_init;;
  rt_system_timer_init;;
  _ ← rt_thread_init idle [105] 0 0 100 512 31 32;
  _ ← rt_thread_startup idle;
  _ ← rt_thread_init main [109] 0 0 200 2048 10 20;
  _ ← rt_thread_startup main;
  _ ← rt_thread_init aux [97] 0 0 300 2048 11 20;
  _ ← rt_thread_startup aux;
  rt_system_scheduler_start.

(** One object of each kind: a semaphore without a unit, a mutex, an event, a
    mailbox of two mails, a queue of two messages and a pool of two blocks. *)
Definition pool_mem : gmap Z (list Z) := {[ 400 := [0; 0; 0; 0]; 408 := [0; 0; 0; 0] ]}.
Definition objects : K unit :=
  _ ← rt_sem_init 20 [115] 0 RT_IPC_FLAG_PRIO;
  _ ← rt_mutex_init 21 [117] RT_IPC_FLAG_FIFO;
  _ ← rt_event_init 22 [101] RT_IPC_FLAG_FIFO;
  _ ← rt_mb_init 23 [98] 500 [0; 0] 2 RT_IPC_FLAG_FIFO;
  _ ← rt_mq_init 24 [113] 400 pool_mem 4 16 RT_IPC_FLAG_FIFO;
  _ ← rt_mp_init 25 [112] 600 16 4;
  mret tt.

Definition system : kstate := Eval vm_compute in state_after (boot;; objects) kernel0.
Definition booted : bool := succeeds (boot;; objects) kernel0.

Example booted_ok : booted = true.
Proof. vm_compute. reflexivity. Qed.
Example system_wf : wf_check system = true.
Proof. vm_compute. reflexivity. Qed.

(** * Checks by evaluation *)

(** Evaluation of both sides of an equation or inequality. *)
Ltac comp := vm_compute; first [reflexivity | discriminate].

Definition thread_at (s : kstate) (t : Z) : rt_thread := default zero_thread (ks_threads s !! t).
Definition has_stat (s : kstate) (t stat : Z) : bool :=
  match ks_threads s !! t with Some th => th_stat th =? stat | None => false end.

Lemma has_stat_sound s t stat :
  has_stat s t stat = true → ks_threads s !! t = Some (thread_at s t) ∧ th_stat (thread_at s t) = stat.
Proof.
  unfold has_stat, thread_at. destruct (ks_threads s !! t); [|done]. intros E%Z.eqb_eq. done.
Qed.

(** [t] runs, another thread [u] is ready. *)
Definition running_check (s : kstate) (t u : Z) : bool :=
  wf_check s && bool_decide (ks_current s = Some t) && has_stat s t RT_THREAD_READY &&
  has_stat s u RT_THREAD_READY && negb (u =? t) && (ks_interrupt_nest s =? 0).
Lemma running_check_sound s t u : running_check s t u = true → running s t (thread_at s t).
Proof.
  unfold running_check. rewrite !andb_true_iff, negb_true_iff, Z.eqb_neq, Z.eqb_eq.
  intros [[[[[Hw Hc] [Ht Hs]%has_stat_sound] [Hu Hr]%has_stat_sound] Hne] Hi].
  split; [by apply wf_check_sound|by apply bool_decide_eq_true_1 in Hc|done|done| |done].
  by exists u, (thread_at s u).
Qed.
Lemma some_ready_sound s t : has_stat s t RT_THREAD_READY = true → some_ready s.
Proof. intros [Ht Hs]%has_stat_sound. by exists t, (thread_at s t). Qed.

Lemma main_runs : running system main (thread_at system main).
Proof. apply (running_check_sound _ _ idle). comp. Qed.
Lemma system_is_wf : wf system.
Proof. apply wf_check_sound. comp. Qed.
Lemma system_current : is_Some (ks_current system).
Proof. exists main. apply main_runs. Qed.
Lemma system_ready : some_ready system.
Proof. apply (some_ready_sound _ main). comp. Qed.

(** * Scheduler, timers and threads *)

Lemma rt_schedule_runs_highest_witness :
  wp rt_schedule (λ _ s', wf s' ∧ ∃ p t, highest_ready system p t ∧ ks_current s' = Some t) system.
Proof.
  eapply wp_mono; [apply (rt_schedule_runs_highest system main); [apply system_is_wf|apply system_ready|apply main_runs]|].
  intros ? s' (Hwf & _ & H). split; [done|exact H].
Defined.

(** A section that locks the scheduler, with nothing in it. *)
Lemma rt_exit_critical_balanced_witness :
  wp (critical (mret tt)) (λ _ s', wf s' ∧ ks_lock_nest s' = 0) system.
Proof.
  eapply wp_mono; [apply (rt_exit_critical_balanced system (mret tt) (λ _ _, True)); [split; [comp|comp]|]|].
  - apply wp_ret. split_and!; [|apply system_ready|apply system_current|done|done].
    apply wf_check_sound. comp.
  - intros ? s' (Hwf & El & _). split; [done|exact El].
Defined.

(** Starting the timer of [main] while it sleeps. *)
Definition asleep : kstate := Eval vm_compute in state_after (rt_thread_sleep 5) system.
Lemma asleep_wf : wf asleep.
Proof. apply wf_check_sound. comp. Qed.
Definition timer_at (s : kstate) (i : timer_id) : rt_timer :=
  default (mk_timer 0 FThreadTimeout 0 0 0) (ks_timers s !! i).

Lemma rt_timer_start_sorted_witness :
  wp (rt_timer_start (TThread main)) (λ r s', r = RT_EOK ∧ wf s' ∧
    row_sorted 0 (ks_timers s') (l_get (ks_rows s') HardRow)) asleep.
Proof.
  eapply wp_mono; [apply (rt_timer_start_sorted 0 asleep (TThread main) (timer_at asleep (TThread main)))|].
  - apply asleep_wf.
  - comp.
  - comp.
  - split; comp.
  - intros t [= <-]. exists (thread_at asleep main). split; comp.
  - split; [|repeat constructor]. repeat constructor.
  - comp.
  - intros r s' (Hr & Hwf & _ & _ & Hs & _). split_and!; done.
Defined.

(** A timeout function of the application that does nothing. *)
Definition no_callback (f p : Z) : K unit := mret tt.
Lemma no_callback_benign : benign_callback no_callback.
Proof.
  intros f p s Hwf Hc. apply wp_ret. split_and!; done.
Qed.

(** The tick before and the tick at which the sleep of [main] ends. *)
Definition before_wake : kstate := set_ks_tick 4 asleep.
Definition at_wake : kstate := set_ks_tick 5 asleep.
Lemma at_wake_checkable : checkable 0 at_wake.
Proof.
  split; [apply wf_check_sound; comp|exists aux; comp|comp|].
  split; [split; [|repeat constructor]; repeat constructor|].
  intros i Hi. assert (Hr : l_get (ks_rows at_wake) HardRow = [TThread main]) by comp.
  rewrite Hr in Hi. apply list_elem_of_singleton in Hi as ->.
  exists (timer_at asleep (TThread main)). split; [comp|].
  split; [intros a E; discriminate E|]. comp.
Qed.

Lemma rt_timer_check_terminates_witness :
  wp (rt_timer_check no_callback 1) (λ _ s', wf s' ∧ ks_tick s' = 5) at_wake.
Proof.
  eapply wp_mono; [apply (rt_timer_check_terminates no_callback no_callback_benign 0 1 at_wake)|].
  - apply at_wake_checkable.
  - apply le_n.
  - intros ? s' (Hwf & Ht & _). split; [exact Hwf|exact Ht].
Defined.

Lemma rt_tick_increase_correct_witness :
  wp (rt_tick_increase no_callback 1) (λ _ s', wf s' ∧ ks_tick s' = 5) before_wake.
Proof.
  eapply wp_mono; [apply (rt_tick_increase_correct no_callback 0 1 before_wake aux (thread_at asleep aux))|].
  - apply no_callback_benign.
  - comp.
  - comp.
  - apply at_wake_checkable.
  - apply le_n.
  - intros ? s' (Hwf & Ht & _). split; [exact Hwf|exact Ht].
Defined.

(** A third application thread. *)
Definition extra : Z := 12.
Definition with_extra : kstate :=
  Eval vm_compute in state_after (rt_thread_init extra [120] 0 0 700 512 9 20) system.

Definition unregistered_check (s : kstate) (t : Z) : bool :=
  negb (l_linked (ks_lists s) t) && negb (l_linked (ks_rows s) (TThread t)) &&
  negb (l_linked (ks_containers s) (OThread t)) && negb (l_linked (ks_containers s) (OTimer (TThread t))).
Lemma unregistered_check_sound s t : unregistered_check s t = true → unregistered s t.
Proof.
  unfold unregistered_check. rewrite !andb_true_iff, !negb_true_iff, !l_linked_false.
  intros [[[? ?] ?] ?]. by split.
Qed.

Lemma rt_thread_init_correct_witness :
  wp (rt_thread_init extra [120] 0 0 700 512 9 20)
    (λ r s', r = RT_EOK ∧ thread_initialised system extra 9 20 [120] s') system.
Proof.
  eapply wp_mono; [apply (rt_thread_init_correct system extra [120] 0 0 700 512 9 20)|].
  - apply system_is_wf.
  - apply unregistered_check_sound. comp.
  - repeat constructor.
  - split; [comp|comp].
  - intros r s' (Hr & Hti & _). by split.
Defined.

Lemma rt_thread_startup_correct_witness :
  wp (rt_thread_startup extra) (λ r s', r = RT_EOK ∧ wf s' ∧ picked s') with_extra.
Proof.
  eapply wp_mono; [apply (rt_thread_startup_correct with_extra extra (thread_at with_extra extra))|].
  - apply wf_check_sound. comp.
  - split; [comp|comp|split; [comp|comp]|].
    exists (timer_at with_extra (TThread extra)). split; [comp|by split].
  - intros r s' (Hr & Hwf & _ & _ & Hp). split_and!; done.
Defined.

Lemma rt_thread_suspend_resume_witness :
  wp (r ← rt_thread_suspend aux; r' ← rt_thread_resume aux; mret (r, r'))
    (λ r s', r = (RT_EOK, RT_EOK) ∧ wf s') system.
Proof.
  eapply wp_mono; [apply (rt_thread_suspend_resume system aux (thread_at system aux)); [apply system_is_wf|comp|comp]|].
  intros r s' (Hr & Hwf & _). by split.
Defined.

Lemma rt_thread_yield_round_robin_witness :
  wp rt_thread_yield (λ r s', r = RT_EOK ∧ ks_current s' = Some main) system.
Proof.
  eapply wp_mono; [apply (rt_thread_yield_round_robin system main (thread_at system main) [])|].
  - apply main_runs.
  - split_and!; [comp|comp|comp|]. change (th_current_priority (thread_at system main)) with 10.
    intros q Hq. assert (q = 0 ∨ q = 1 ∨ q = 2 ∨ q = 3 ∨ q = 4 ∨ q = 5 ∨ q = 6 ∨ q = 7 ∨ q = 8 ∨ q = 9) as Hc by lia.
    repeat destruct Hc as [->|Hc]; [comp..|]. subst q. comp.
  - comp.
  - comp.
  - intros r s' (Hr & _ & _ & _ & _ & Hc). by split.
Defined.

Lemma rt_thread_sleep_correct_witness :
  wp (rt_thread_sleep 5) (λ _ s', wf s' ∧ timeout_of (ks_timers s') (TThread main) = 5) system.
Proof.
  eapply wp_mono; [apply (rt_thread_sleep_correct system main (thread_at system main) 5);
    [apply main_runs|split; [comp|comp]]|].
  intros ? s' (Hwf & _ & _ & _ & _ & Ht). split; [exact Hwf|exact Ht].
Defined.

Lemma rt_thread_delete_correct_witness :
  wp (rt_thread_delete aux) (λ r s', r = RT_EOK ∧ wf s' ∧ l_get (ks_lists s') LDefunct = [aux]) system.
Proof.
  eapply wp_mono; [apply (rt_thread_delete_correct system aux (thread_at system aux));
    [apply system_is_wf|comp|left; comp]|].
  intros r s' (Hr & Hwf & _ & Hl & _). split_and!; [exact Hr|exact Hwf|]. exact (Hl LDefunct).
Defined.

Lemma rt_thread_exit_correct_witness :
  wp rt_thread_exit (λ _ s', wf s' ∧ picked s') system.
Proof.
  eapply wp_mono; [apply (rt_thread_exit_correct system main (thread_at system main)
    (default (mk_object [] 0) (ks_objects system !! OThread main))); [apply main_runs|comp]|].
  intros ? s' (Hwf & _ & Hp & _). split; [exact Hwf|exact Hp].
Defined.

(** The reaper finds [aux], a static thread, on the defunct list. *)
Definition with_defunct : kstate := Eval vm_compute in state_after (rt_thread_delete aux) system.
Definition no_cleanup (f t : Z) : K unit := mret tt.
Lemma no_cleanup_benign : benign_cleanup no_cleanup.
Proof. intros f t s. apply wp_ret. intros Hwf. by split_and!. Qed.
Lemma rt_thread_idle_excute_reaps_witness :
  wp (rt_thread_idle_excute no_cleanup 1) (λ _ s', wf s' ∧ l_get (ks_lists s') LDefunct = []) with_defunct.
Proof.
  eapply wp_mono; [apply (rt_thread_idle_excute_reaps no_cleanup no_cleanup_benign 1 with_defunct [aux])|].
  - apply wf_check_sound. comp.
  - comp.
  - apply le_n.
  - intros t ->%list_elem_of_singleton. by eexists.
  - comp.
  - intros ? s' (Hwf & Hl & _). split; [exact Hwf|exact Hl].
Defined.

(** The thread [main] is found by its name among the three threads. *)
Definition thread_name (o : oid) : list Z :=
  match o with OThread 2 => [105] | OThread 10 => [109] | _ => [97] end.
Lemma rt_object_find_correct_witness :
  wp (rt_object_find (Some [109]) 0) (λ r s', wf s' ∧
    found thread_name [OThread aux; OThread main; OThread idle] [109] r) system ∧
  rt_object_find (Some [109]) RT_Object_Class_Unknown system = Fault BadPointer.
Proof.
  destruct (rt_object_find_correct system thread_name [109] 0) as (Hf & _ & _ & Hb).
  - split; [apply system_is_wf|apply system_ready|apply system_current|split; [comp|comp]|comp].
  - repeat constructor.
  - comp.
  - intros o Ho. change (o ∈ [OThread aux; OThread main; OThread idle]) in Ho.
    rewrite !elem_of_cons, elem_of_nil in Ho.
    destruct Ho as [->|[->|[->|[]]]]; (split; [repeat constructor|eexists; split; comp]).
  - split; [|exact Hb]. eapply wp_mono; [apply Hf; comp|].
    intros r s' (Hwf & _ & _ & _ & Hr). split; [exact Hwf|exact Hr].
Defined.
