(* ===== verification/ScenarioIpc.v ===== *)
(** The theorems on semaphores, mutexes, events, mailboxes, message queues and
    memory pools applied to the running system of [Scenario]. *)

From stdpp Require Import base gmap list fin_maps.
From Stdlib Require Import ZArith Lia.
From S2P Require Import Prelude IntrusiveList Ffs Kservice KState Object Sched Timer KInv WfCheck.
From S2P Require Import SchedFacts TimerFacts TimerCheck Thread Ipc IpcFacts.
From S2P Require Import Sem Mutex Event Ring Mailbox Fmq MsgQueue MemPool ThreadFacts ObjectFacts FreeRtos Scenario.

Open Scope Z_scope.

(** * Semaphores *)

Definition sem0 : rt_semaphore := mk_sem 1 0.
Lemma sem0_ok : sem_ok system 20 sem0.
Proof. split; [split; comp|discriminate 1|right; comp]. Qed.

Lemma rt_sem_take_refines_witness : wp (rt_sem_take 20 5) (λ _ s', wf s') system.
Proof.
  eapply wp_mono; [apply (rt_sem_take_refines system main (thread_at system main) 20 sem0 5);
    [apply main_runs|comp|apply sem0_ok|comp]|].
  intros [e|w] s'.
  - intros [(_ & _ & x' & _ & _ & Hwf & _)|(_ & _ & E & _)]; [exact Hwf|discriminate E].
  - intros (_ & (x' & _ & _ & Hwf & _) & _). exact Hwf.
Defined.

(** [main] waits for the semaphore, [aux] runs. *)
Definition sem_waiting : kstate := state_after (rt_sem_take 20 5) system.
Lemma rt_sem_release_refines_witness :
  wp (rt_sem_release 20) (λ r s', r = RT_EOK ∧ picked s' ∧ ∀ r, TThread main ∉ l_get (ks_rows s') r) sem_waiting.
Proof.
  assert (Hl : l_get (ks_lists sem_waiting) (LSem 20) = [main]) by comp.
  eapply wp_mono; [apply (rt_sem_release_refines sem_waiting 20 sem0 (λ t l, l ++ [t]))|].
  - apply wf_check_sound. comp.
  - exists aux. comp.
  - comp.
  - split; [split; comp|discriminate 1|right; comp].
  - rewrite Hl. discriminate.
  - intros r s'. rewrite Hl. intros (Hr & _ & _ & Hp & Hrow & _). split_and!; [exact Hr|exact Hp|exact Hrow].
Defined.

Lemma rt_sem_control_reset_witness :
  wp (rt_sem_control 20 RT_IPC_CMD_RESET 3) (λ r s', r = RT_EOK ∧ wf s' ∧ l_get (ks_lists s') (LSem 20) = []) sem_waiting.
Proof.
  eapply wp_mono; [apply (rt_sem_control_reset sem_waiting 20 sem0 RT_IPC_CMD_RESET 3)|].
  - apply wf_check_sound. comp.
  - exists aux. comp.
  - apply (some_ready_sound _ aux). comp.
  - comp.
  - split; [split; comp|discriminate 1|right; comp].
  - intros r s' (Hr & Hwf & _ & _ & Hl & _). split_and!; [exact Hr|exact Hwf|exact Hl].
Defined.

(** * Mutexes *)

Lemma rt_mutex_take_correct_witness : wp (rt_mutex_take 21 5) (λ _ s', wf s') system.
Proof.
  eapply wp_mono; [apply (rt_mutex_take_correct system main (thread_at system main) 21 (new_mutex 0) 5)|].
  - apply main_runs.
  - comp.
  - apply mutex_ok_init; [left; comp|comp].
  - comp.
  - discriminate 1.
  - intros r s' (Hwf & _). exact Hwf.
Defined.

(** [main] holds the mutex. *)
Definition mutex_taken : kstate := state_after (rt_mutex_take 21 5) system.
Lemma rt_mutex_release_correct_witness : wp (rt_mutex_release 21) (λ r s', wf s' ∧ r = RT_EOK) mutex_taken.
Proof.
  assert (Hl : l_get (ks_lists mutex_taken) (LMutex 21) = []) by comp.
  eapply wp_mono; [apply (rt_mutex_release_correct mutex_taken main (thread_at mutex_taken main) 21 (mk_mutex 0 0 10 1 (Some main)))|].
  - apply (running_check_sound _ _ idle). comp.
  - comp.
  - split; [|left; comp|rewrite Hl; intros w Hw%not_elem_of_nil; destruct Hw].
    eapply (mutex_held _ _ _ main (thread_at mutex_taken main)); try comp; [split; comp..|].
    rewrite Hl. apply not_elem_of_nil.
  - intros r s' (Hwf & Hr). split; [exact Hwf|]. rewrite decide_True in Hr by reflexivity. apply Hr.
Defined.

(** * Events *)

(** [main] waits for bit 1 of the event, [aux] runs. *)
Definition event_waiting : kstate := state_after (rt_event_recv 22 2 RT_EVENT_FLAG_OR 5) system.
Lemma rt_event_recv_correct_witness : wp (rt_event_recv 22 2 RT_EVENT_FLAG_OR 5) (λ _ s', wf s') system.
Proof.
  eapply wp_mono; [apply (rt_event_recv_correct system main (thread_at system main) 22 (mk_event 0 0) 2 RT_EVENT_FLAG_OR 5)|].
  - apply main_runs.
  - comp.
  - assert (Hl : l_get (ks_lists system) (LEvent 22) = []) by comp.
    split; [left; comp|]. rewrite Hl. intros w Hw%not_elem_of_nil. destruct Hw.
  - comp.
  - comp.
  - intros r s' (Hwf & _). exact Hwf.
Defined.

Lemma rt_event_send_correct_witness :
  wp (rt_event_send 22 3) (λ r s', r = RT_EOK ∧ wf s' ∧ l_get (ks_lists s') (LEvent 22) = []) event_waiting.
Proof.
  eapply wp_mono; [apply (rt_event_send_correct event_waiting 22 (mk_event 0 0) 3 3 [(main, 2)] [])|].
  - apply wf_check_sound. comp.
  - exists aux. comp.
  - comp.
  - assert (Hl : l_get (ks_lists event_waiting) (LEvent 22) = [main]) by comp.
    split; [left; comp|]. rewrite Hl. intros w ->%list_elem_of_singleton.
    exists (thread_at event_waiting main). split_and!; comp.
  - comp.
  - intros r s' (Hr & Hwf & _ & _ & _ & Hl & _). split_and!; [exact Hr|exact Hwf|exact Hl].
Defined.

(** * Mailboxes *)

Definition mb0 : rt_mailbox := mk_mailbox 0 500 [0; 0] 2 0 0 0.
Lemma mb0_ok : mb_ok mb0.
Proof. split; try comp; try (split; comp). left. comp. Qed.

Lemma rt_mb_send_wait_refines_witness : wp (rt_mb_send_wait 23 7 0) (mb_sent 23 main 7 0 mb0 system) system.
Proof.
  refine (proj1 (rt_mb_send_wait_refines system 23 mb0 main (thread_at system main) 7 0 _ _ _ _));
    [apply main_runs|comp|apply mb0_ok|comp].
Defined.

Lemma rt_mb_recv_refines_witness : wp (rt_mb_recv 23 5) (mb_received 23 main 5 mb0 system) system.
Proof.
  refine (proj1 (rt_mb_recv_refines system 23 mb0 main (thread_at system main) 5 _ _ _ _));
    [apply main_runs|comp|apply mb0_ok|comp].
Defined.

(** [main] waits for a mail. *)
Definition mb_waiting : kstate := state_after (rt_mb_recv 23 5) system.
Lemma rt_mb_control_reset_witness :
  wp (rt_mb_control 23 RT_IPC_CMD_RESET) (λ r s', r = RT_EOK ∧ wf s' ∧ l_get (ks_lists s') (LMbRecv 23) = []) mb_waiting.
Proof.
  eapply wp_mono; [apply (rt_mb_control_reset mb_waiting 23 mb0 RT_IPC_CMD_RESET)|].
  - apply wf_check_sound. comp.
  - exists aux. comp.
  - apply (some_ready_sound _ aux). comp.
  - comp.
  - apply mb0_ok.
  - intros r s' (Hr & Hwf & _ & Hl & _). split_and!; [exact Hr|exact Hwf|exact Hl].
Defined.

(** * Queues of FreeRTOS *)

(** The constants of FreeRTOS and a port without a second processor. *)
#[local] Instance freertos_kit : freertos := {
  queueSEND_TO_BACK := 0; queueSEND_TO_FRONT := 1; queueOVERWRITE := 2;
  pdFALSE := 0; pdTRUE := 1; pdPASS := 1; pdFAIL := 0;
  errQUEUE_EMPTY := 0; errQUEUE_FULL := 0; errCOULD_NOT_ALLOCATE_REQUIRED_MEMORY := -1;
  queueQUEUE_TYPE_MUTEX := 1; queueQUEUE_TYPE_RECURSIVE_MUTEX := 4;
  portMAX_DELAY := 4294967295; portPRIVILEGE_BIT := 0; sizeof_StackType_t := 1;
  taskSCHEDULER_NOT_STARTED := 1; taskSCHEDULER_RUNNING := 2; taskSCHEDULER_SUSPENDED := 0;
  tmrCOMMAND_START := 1; tmrCOMMAND_STOP := 3; tmrCOMMAND_CHANGE_PERIOD := 4; tmrCOMMAND_DELETE := 5
}.
#[local] Instance port_kit : esp_idf := {
  vPortCPUAcquireMutex _ := mret tt; vPortCPUReleaseMutex _ := mret tt; esp_vApplicationTickHook := mret tt;
  xPortStartScheduler := mret tt
}.

Lemma positions : queueSEND_TO_BACK ≠ queueOVERWRITE.
Proof. comp. Qed.

(** The mailbox as a queue of two items of four bytes, and a queue that is not created yet. *)
Definition fmq0 : fmq := Fmq 4 [0; 0; 0; 0; 0; 0; 0; 0].
Definition rtos0 : rtos := Rtos {[ 23 := fmq0 ]} 0 0 0 0 0 0 true.
Lemma fmq0_ok : fmq_ok mb0 fmq0.
Proof. split; try comp; try (split; comp). left. comp. Qed.

Lemma rt_fmq_send_refines_witness :
  wp (rt_fmq_send 23 [1; 2; 3; 4] 1 5) (fmq_sent 23 main [1; 2; 3; 4] 1 5 mb0 fmq0 system rtos0) (Layer system rtos0).
Proof.
  refine (proj1 (rt_fmq_send_refines positions system rtos0 23 mb0 fmq0 main (thread_at system main) [1; 2; 3; 4] 1 5 _ _ _ _ _ _));
    [apply main_runs|comp|comp|apply fmq0_ok|comp|comp].
Defined.
Lemma rt_fmq_recv_refines_witness :
  wp (rt_fmq_recv 23 1 5) (fmq_received 23 main 1 5 mb0 fmq0 system rtos0) (Layer system rtos0).
Proof.
  refine (proj1 (rt_fmq_recv_refines system rtos0 23 mb0 fmq0 main (thread_at system main) 1 5 _ _ _ _ _));
    [apply main_runs|comp|comp|apply fmq0_ok|comp].
Defined.

(** [main] and [aux] wait for an item. *)
Definition two_waiting : kstate := Eval vm_compute in state_after (_ ← rt_mb_recv 23 5; rt_mb_recv 23 5) system.
Lemma fmq_peek_leaves_receivers_witness :
  wp (rt_fmq_send 23 [1; 2; 3; 4] 0 0) (λ r s1, r = Return RT_EOK ∧ l_get (ks_lists (l_kernel s1)) (LMbRecv 23) = [aux])
    (Layer two_waiting rtos0).
Proof.
  eapply wp_mono; [apply (fmq_peek_leaves_receivers positions two_waiting rtos0 23 mb0 fmq0 [1; 2; 3; 4] 0 0 main aux [])|].
  - apply wf_check_sound. comp.
  - exists idle. comp.
  - comp.
  - comp.
  - apply fmq0_ok.
  - comp.
  - comp.
  - comp.
  - intros r s1 (Hr & Hl & _). split; [exact Hr|exact Hl].
Defined.

Lemma xQueue_roundtrip_witness :
  wp (xQueueGenericCreate (Some 40) (Some (44, [0; 0; 0; 0])) 2 2 0) (λ r s1, r = Some 40 ∧
    wp (send_all 40 0 [[7; 8]; [9; 10; 11]]) (λ r s2, r = [Return 1; Return 1]) s1) (Layer system rtos0).
Proof.
  eapply wp_mono; [apply (xQueue_roundtrip positions system rtos0 40 44 [0; 0; 0; 0] 2 2 0 [[7; 8]; [9; 10; 11]] 0)|].
  - split.
    + apply wf_check_sound. comp.
    + exists main. comp.
    + comp.
    + intros o Ho. apply l_linked_false. rewrite !elem_of_cons, elem_of_nil in Ho. destruct Ho as [->|[->|[->|[]]]]; comp.
    + intros h [->| ->]; comp.
    + split; comp.
    + comp.
    + comp.
    + comp.
  - comp.
  - comp.
  - repeat constructor; comp.
  - intros r s1 [Hr Hs]. split; [exact Hr|]. eapply wp_mono; [exact Hs|]. intros r2 s2 [Hr2 _]. exact Hr2.
Defined.

(** A binary semaphore of the port counts on beyond its length of one: both sends pass. *)
Definition binary_given : F (call Z queue_wait * call Z queue_wait * Z) :=
  a ← xQueueGenericCreate (Some 40) None 1 0 3;
  a ← of_option BadPointer a;
  r1 ← xQueueGenericSend a [] 0 queueSEND_TO_BACK;
  r2 ← xQueueGenericSend a [] 0 queueSEND_TO_BACK;
  n ← uxQueueMessagesWaiting a; mret (r1, r2, n).
Example binary_counts_two :
  match binary_given (Layer system rtos0) with Done (r1, r2, n) _ => Some (r1, r2, n) | Fault _ => None end =
    Some (Return 1, Return 1, 2).
Proof. vm_compute. reflexivity. Qed.

(** * Message queues *)

(** The queue as [rt_mq_init] leaves it: both blocks free. *)
Definition mq0 : rt_messagequeue :=
  Eval vm_compute in mq_free_init 2 (mk_mq 0 400 ∅ pool_mem 4 2 0 None None None).
Lemma pool_mem_blocks b :
  b ∈ [408; 400] → ∃ d, pool_mem !! b = Some d ∧ length d = 4%nat.
Proof.
  rewrite !elem_of_cons, elem_of_nil. intros [->|[->|[]]]; (eexists; split; comp).
Qed.
Lemma mq0_rep : mq_rep mq0 [] [408; 400] [] [].
Proof.
  assert (E : mq0 = mq_free_init 2 (mk_mq 0 400 ∅ pool_mem 4 (Z.of_nat 2) 0 None None None)) by comp.
  rewrite E. apply (mq_init_rep 0 400 pool_mem 4 2); [comp|comp|apply pool_mem_blocks].
Qed.

(** A send takes the first free block, which is then in the hands of the call. *)
Definition mq1 : rt_messagequeue := match mq_alloc mq0 with Some (Some _, x) => x | _ => mq0 end.
Lemma mq_interleaving_safe_witness :
  (∃ Q F, mq_rep mq1 Q F [408] []) ∧ is_Some (mq_prepend 408 mq1).
Proof.
  destruct (mq_interleaving_safe 0 400 pool_mem 4 2 mq1 [408] []) as (Hrep & _ & _ & Hi & _).
  - comp.
  - comp.
  - apply pool_mem_blocks.
  - eapply rtc_l; [|apply rtc_refl]. apply step_alloc. comp.
  - split; [exact Hrep|]. apply Hi. by left.
Defined.

Lemma rt_mq_send_refines_witness :
  wp (rt_mq_send 24 [1; 2]) (mq_sent false 24 mq0 [] [408; 400] [] [] [1; 2] system) system.
Proof.
  refine (proj1 (rt_mq_send_refines system 24 mq0 [] [408; 400] [] [] [1; 2] _ _ _ _ _));
    [apply system_is_wf|apply system_current|comp|apply mq0_rep|discriminate].
Defined.

Lemma rt_mq_recv_refines_witness :
  wp (rt_mq_recv 24 4 5) (mq_received 24 main 4 5 mq0 [] [408; 400] [] [] system) system.
Proof.
  refine (proj1 (rt_mq_recv_refines system 24 mq0 [] [408; 400] [] [] main (thread_at system main) 4 5 _ _ _ _ _ _));
    [apply main_runs|comp|apply mq0_rep|comp|discriminate|left; comp].
Defined.

Lemma rt_mq_control_reset_witness :
  wp (rt_mq_control 24 RT_IPC_CMD_RESET) (λ r s', r = RT_EOK ∧ wf s') system.
Proof.
  eapply wp_mono; [apply (rt_mq_control_reset system 24 mq0 [] [408; 400] [] [] RT_IPC_CMD_RESET)|].
  - apply system_is_wf.
  - apply system_current.
  - apply system_ready.
  - comp.
  - apply mq0_rep.
  - intros r s' (Hr & Hwf & _). split; [exact Hr|exact Hwf].
Defined.

(** * Memory pools *)

Lemma mp_free_list_rep_witness :
  wp (mp_free_list 600 4 2) (λ _ s', s' = system) system.
Proof.
  eapply wp_mono; [apply (mp_free_list_rep system 25 600 16 4 2); [comp|lia|comp]|].
  intros blocks s' [Hs _]. exact Hs.
Defined.

Definition mp0 : rt_mempool := default (mk_mempool 0 0 0 None ∅ 0 0 0) (ks_mempools system !! 25).
Lemma mp0_rep : mp_rep 25 mp0 [600; 608] [].
Proof.
  split; try comp; [|intros b Hb%not_elem_of_nil; destruct Hb|].
  - repeat (split; [comp|]; eexists; split; [comp|]). comp.
  - repeat constructor; rewrite ?elem_of_cons, ?elem_of_nil; lia.
Qed.

Lemma rt_mp_alloc_correct_witness :
  wp (rt_mp_alloc 25 0) (mp_allocated 25 main 0 mp0 [600; 608] [] system) system.
Proof.
  refine (proj1 (rt_mp_alloc_correct system 25 mp0 [600; 608] [] main (thread_at system main) 0 _ _ _ _ _ _));
    [apply main_runs|comp|apply mp0_rep|comp|comp|comp].
Defined.

(** [main] holds the first block. *)
Definition mp_taken : kstate := state_after (rt_mp_alloc 25 0) system.
Definition mp1 : rt_mempool := default mp0 (ks_mempools mp_taken !! 25).
Lemma rt_mp_free_correct_witness : wp (rt_mp_free 25 604) (λ _ s', wf s') mp_taken.
Proof.
  eapply wp_mono; [apply (rt_mp_free_correct mp_taken 25 mp1 600 [608] [600] [])|].
  - apply wf_check_sound. comp.
  - exists main. comp.
  - comp.
  - split; try comp.
    + split; [comp|]. eexists. split; [comp|]. comp.
    + intros b ->%list_elem_of_singleton. comp.
    + repeat constructor; rewrite ?elem_of_cons, ?elem_of_nil; lia.
  - reflexivity.
  - comp.
  - comp.
  - intros _ s' (Hwf & _). exact Hwf.
Defined.

(** Both blocks are taken, [main] waits for a third one for ever. *)
Definition mp_waiting : kstate :=
  state_after (_ ← rt_mp_alloc 25 0; _ ← rt_mp_alloc 25 0; rt_mp_alloc 25 (-1)) system.
Definition mp2 : rt_mempool := default mp0 (ks_mempools mp_waiting !! 25).
Lemma rt_mp_free_after_timeout_witness :
  wp (rt_thread_timeout main) (λ _ s', rt_mp_free 25 604 s' = Fault BadPointer) mp_waiting.
Proof.
  apply (rt_mp_free_after_timeout mp_waiting 25 mp2 600 main (thread_at mp_waiting main)).
  - apply wf_check_sound. comp.
  - exists aux. comp.
  - comp.
  - comp.
  - apply l_linked_false. comp.
  - comp.
  - comp.
  - comp.
  - comp.
Defined.
