(* ===== verification/ScenarioHeap.v ===== *)
(** The theorems on memory heaps applied to a heap of 400 bytes in the running system
    of [Scenario]: initialised, then with three blocks allocated and the middle one
    freed again. *)

From stdpp Require Import base gmap list fin_maps.
From Stdlib Require Import ZArith Lia.
From S2P Require Import Prelude IntrusiveList Kservice KState Object Sched Timer Thread Ipc Sem MemPool.
From S2P Require Import Scenario MemHeap MemHeapFacts MemHeapSpec Memory MemHeapRealloc.

Open Scope Z_scope.

Definition no_heap : hstate := HState ∅ ∅ ∅ ∅ ∅ ∅ ∅.
Definition mstate_after {A} (m : SM mstate A) (s : mstate) : mstate :=
  match m s with Done _ s' => s' | Fault _ => s end.

(** The heap object at 1000, its pool at 2000. *)
Definition heap_a : Z := 1000.
Definition heap_boot : SM mstate Z := rt_memheap_init heap_a [104] 2000 400.
Definition heap_use : SM mstate unit :=
  _ ← heap_boot;
  _ ← rt_memheap_alloc heap_a 20;
  _ ← rt_memheap_alloc heap_a 33;
  _ ← rt_memheap_alloc heap_a 5;
  _ ← rt_memheap_free (Some 2068);
  mret tt.
Definition heap_state : mstate := Eval vm_compute in mstate_after heap_use (Layer system no_heap).
Definition heap_blocks : list block := [(20, true); (36, false); (12, true); (212, false)].
Definition heap_x : rt_memheap := MemHeap 2000 400 248 188 2000 1044.

Lemma heap_unlocked : unlocked (l_kernel heap_state) (mh_lock heap_a).
Proof. split; [exists (mk_sem 0 1); split; comp|comp]. Qed.
Lemma heap_is_rep : heap_rep (l_own heap_state) heap_a heap_x heap_blocks [2044; 2140].
Proof.
  constructor; try comp.
  - left. comp.
  - unfold heap_blocks. repeat (apply Forall_cons; split; [split; [cbn; lia|]|]);
      [by exists 5|by exists 9|by exists 3|by exists 53|constructor].
  - cbn. tauto.
  - repeat (constructor; [constructor; comp|]). constructor.
  - cbn. split_and!; comp.
Qed.

Lemma rt_memheap_init_correct_witness :
  wp heap_boot (λ r s', r = RT_EOK ∧ unlocked (l_kernel s') (mh_lock heap_a)) (Layer system no_heap).
Proof.
  eapply wp_mono; [apply (rt_memheap_init_correct system no_heap heap_a [104] 2000 400)|].
  - repeat constructor; lia.
  - intros c. apply (proj1 (l_linked_false _ _)). comp.
  - intros c. apply (proj1 (l_linked_false _ _)). comp.
  - lia.
  - comp.
  - lia.
  - left. comp.
  - intros r s' (Hr & Hu & _). split; [exact Hr|exact Hu].
Defined.

(** A request of 40 bytes does not fit into the block of 36 bytes. *)
Lemma rt_memheap_alloc_correct_witness :
  ∃ r h', rt_memheap_alloc heap_a 40 heap_state = Done (Return r) (Layer (l_kernel heap_state) h') ∧
    allocated heap_a heap_x heap_blocks [2044; 2140] 40 (l_own heap_state) h' r.
Proof.
  apply (rt_memheap_alloc_correct (l_kernel heap_state) (l_own heap_state) heap_a heap_x heap_blocks [2044; 2140] 40);
    [apply heap_unlocked|apply heap_is_rep|lia].
Defined.

(** The third block has free neighbours on both sides. *)
Lemma rt_memheap_free_correct_witness :
  ∃ h' x' F', rt_memheap_free (Some 2128) heap_state = Done (Return tt) (Layer (l_kernel heap_state) h') ∧
    same_pool heap_x x' ∧ heap_rep h' heap_a x' [(20, true); (308, false)] F'.
Proof.
  apply (rt_memheap_free_correct (l_kernel heap_state) (l_own heap_state) heap_a heap_x
    [(20, true); (36, false)] 12 [(212, false)] [2044; 2140]);
    [apply heap_unlocked|apply heap_is_rep].
Defined.

Definition heap_alloc_state : mstate := mstate_after (rt_memheap_alloc heap_a 40) heap_state.
Lemma heap_alloc_done : rt_memheap_alloc heap_a 40 heap_state = Done (Return (Some 2164)) heap_alloc_state.
Proof.
  assert (H : match rt_memheap_alloc heap_a 40 heap_state with
              | Done r _ => r = Return (Some 2164) | Fault _ => False end) by (vm_compute; reflexivity).
  unfold heap_alloc_state, mstate_after. destruct (rt_memheap_alloc heap_a 40 heap_state); [by rewrite H|done].
Qed.

Lemma rt_memheap_alloc_free_witness :
  ∃ h' x' F', rt_memheap_free (Some 2164) heap_alloc_state = Done (Return tt) (Layer (l_kernel heap_state) h') ∧
    same_pool heap_x x' ∧ heap_rep h' heap_a x' heap_blocks F'.
Proof.
  apply (rt_memheap_alloc_free (l_kernel heap_state) (l_own heap_state) heap_a heap_x heap_blocks [2044; 2140] 40 2164);
    [apply heap_unlocked|apply heap_is_rep|lia|apply heap_alloc_done].
Defined.

Lemma rt_memheap_alloc_safe_witness :
  ∃ n B' x' F', heap_rep (l_own heap_alloc_state) heap_a x' B' F' ∧ 40 ≤ n ∧ (2140, (n, true)) ∈ placed 2000 B'.
Proof.
  destruct (rt_memheap_alloc_safe (l_kernel heap_state) (l_own heap_state) heap_a heap_x heap_blocks [2044; 2140] 40 2164
    heap_alloc_state) as (n & B' & x' & F' & HR & _ & Hn & Hin & _);
    [apply heap_unlocked|apply heap_is_rep|lia|apply heap_alloc_done|].
  exists n, B', x', F'. split; [exact HR|]. split; [exact Hn|exact Hin].
Defined.

Lemma rt_memheap_alloc_overflow_witness :
  request_size (2 ^ 32 - 1) = 12 ∧
  rt_memheap_alloc heap_a (2 ^ 32 - 1) heap_state = rt_memheap_alloc heap_a 12 heap_state.
Proof. apply (rt_memheap_alloc_overflow heap_a (2 ^ 32 - 1) heap_state). lia. Defined.

(** The first block, of 20 bytes, is asked to hold 100: it moves. *)
Definition heap_memory : memory := λ a, a mod 256.
Lemma rt_memheap_realloc_correct_witness :
  ∃ q h' m', rt_memheap_realloc heap_a (Some 2024) 100 (heap_state, heap_memory) =
      Done (Return q) (Layer (l_kernel heap_state) h', m') ∧
    match q with Some q => same_bytes heap_memory m' 2024 q 20 | None => h' = l_own heap_state end.
Proof.
  destruct (rt_memheap_realloc_correct (l_kernel heap_state) (l_own heap_state) heap_memory heap_a heap_x [] 20
    [(36, false); (12, true); (212, false)] [2044; 2140] 100) as (q & h' & m' & E & Hq).
  - apply heap_unlocked.
  - apply heap_is_rep.
  - intros y. unfold heap_memory. apply Z.mod_pos_bound. lia.
  - lia.
  - lia.
  - exists q, h', m'. split; [exact E|]. destruct q as [q|]; [|apply Hq].
    destruct Hq as [(n' & B' & x' & F' & _ & _ & _ & _ & Hs & _) _]. exact Hs.
Defined.
(** A request of almost the whole address space wraps in the test of the free block and
    succeeds in its place. *)
Example rt_memheap_realloc_wraps :
  match rt_memheap_realloc heap_a (Some 2024) (2 ^ 32 - 8) (heap_state, heap_memory) with
  | Done (Return (Some q)) _ => q = 2024
  | _ => False
  end.
Proof. vm_compute. reflexivity. Qed.
