(* ===== verification/ScenarioSoft.v ===== *)
(** The theorems on software timers applied to a system with the timer thread, booted
    by the model's own operations. *)

From stdpp Require Import base gmap list fin_maps sorting.
From Stdlib Require Import ZArith Lia.
From S2P Require Import Prelude IntrusiveList Kservice KState Object Sched Timer KInv WfCheck SchedFacts.
From S2P Require Import TimerFacts TimerCheck Thread IpcFacts ThreadFacts SoftTimer Scenario.

Open Scope Z_scope.

(** The timer thread above [main] and the idle thread, and two soft timers: the one at
    30 runs the function 7 after 5 ticks, the one at 31 the function 8 after 6. *)
Definition SOFT : Z := RT_TIMER_FLAG_SOFT_TIMER.
Definition soft_boot : K unit :=
  rt_system_scheduler_init;;
  rt_system_timer_init;;
  rt_system_timer_thread_init 0 900;;
  _ ← rt_thread_init idle [105] 0 0 100 512 31 32;
  _ ← rt_thread_startup idle;
  _ ← rt_thread_init main [109] 0 0 200 2048 10 20;
  _ ← rt_thread_startup main;
  rt_system_scheduler_start;;
  rt_timer_init (TUser 30) [116] (FUser 7) 0 5 SOFT;;
  rt_timer_init (TUser 31) [117] (FUser 8) 0 6 SOFT.
(** The timer thread runs first; no soft timer is active. *)
Definition soft_idle : kstate := Eval vm_compute in state_after soft_boot kernel0.
(** Both timers run. *)
Definition soft_both : kstate := Eval vm_compute in
  state_after (_ ← rt_timer_start (TUser 31); _ ← rt_timer_start (TUser 30); mret tt) soft_idle.
(** The timer thread waits, no soft timer is active. *)
Definition soft_waiting : kstate := Eval vm_compute in state_after timer_entry_turn soft_idle.
(** Ten ticks later. *)
Definition soft_late : kstate := Eval vm_compute in set_ks_tick 10 soft_both.

Example soft_boot_ok : succeeds soft_boot kernel0 = true.
Proof. comp. Qed.
Example soft_order : l_get (ks_rows soft_both) SoftRow = [TUser 30; TUser 31].
Proof. comp. Qed.

Lemma timer_thread_runs s : running_check s timer_thread idle = true → running s timer_thread (thread_at s timer_thread).
Proof. apply running_check_sound. Qed.
Lemma soft_late_level : at_level 0 soft_late.
Proof.
  split; [apply wf_check_sound; comp| |exists timer_thread; comp|comp].
  exists (thread_at soft_late timer_thread). split; comp.
Qed.

Lemma no_callback_soft : soft_callback no_callback 0.
Proof. intros f p s Ha. apply wp_ret. split_and!; done. Qed.

Lemma soft_late_row : row_ready 0 (off 0 (ks_tick soft_late)) soft_late (l_get (ks_rows soft_late) SoftRow).
Proof.
  split; [split; [|repeat constructor]; repeat constructor; comp|].
  intros i Hi. assert (Hr : l_get (ks_rows soft_late) SoftRow = [TUser 30; TUser 31]) by comp.
  rewrite Hr in Hi. exists (timer_at soft_late i). rewrite !elem_of_cons in Hi.
  destruct Hi as [->|[->|Hi]]; [..|by apply not_elem_of_nil in Hi];
    (split; [comp|split; [intros a ?; eexists; comp|comp]]).
Qed.

Lemma rt_soft_timer_check_terminates_witness :
  wp (rt_soft_timer_check no_callback 2) (λ _ s', wf s' ∧ ks_lock_nest s' = 0) soft_late.
Proof.
  eapply wp_mono; [apply (rt_soft_timer_check_terminates no_callback 0 0 2 soft_late)|].
  - lia.
  - apply no_callback_soft.
  - apply soft_late_level.
  - comp.
  - apply soft_late_row.
  - apply le_n.
  - intros ? s' (Hwf & El & _). split; [exact Hwf|exact El].
Defined.

(** The function 7 stops the timer at 31, whose function 8 does nothing. *)
Lemma rt_soft_timer_check_diverges_witness :
  rt_soft_timer_check (λ h _, if h =? 7 then _ ← rt_timer_stop (TUser 31); mret tt else mret tt) 1000 soft_late
  = Fault OutOfFuel.
Proof.
  apply (rt_soft_timer_check_diverges 999 0 soft_late 30 31 7 8 []
    (timer_at soft_late (TUser 30)) (timer_at soft_late (TUser 31))).
  - lia.
  - apply soft_late_level.
  - lia.
  - comp.
  - comp.
  - comp.
  - comp.
  - comp.
  - comp.
  - comp.
  - comp.
  - comp.
Defined.

Lemma soft_timers_served_witness :
  wp timer_entry_turn (λ w s', w = Delayed ∧ timeout_of (ks_timers s') (TThread timer_thread) = 5) soft_both ∧
  wp (timer_expire no_callback (TThread timer_thread)) (λ _ s', timer_runs s') soft_waiting ∧
  wp (rt_timer_start (TUser 30)) (λ r s', r = RT_EOK ∧ timer_runs s') soft_waiting ∧
  wp (timer_entry_resumed no_callback 2 Delayed) (λ _ s', wf s') soft_late.
Proof.
  split; [|split; [|split]].
  - eapply wp_mono; [apply (proj1 (soft_timers_served soft_both (thread_at soft_both timer_thread))
      (timer_thread_runs soft_both ltac:(comp)) (TUser 30) [TUser 31] (timer_at soft_both (TUser 30)))|].
    + comp.
    + comp.
    + comp.
    + comp.
    + split; comp.
    + intros w s' (-> & _ & _ & _ & _ & E). split; [reflexivity|exact E].
  - eapply wp_mono; [apply (proj1 (proj2 (soft_timers_served soft_waiting (thread_at soft_waiting timer_thread))))|].
    + apply wf_check_sound. comp.
    + exists main. comp.
    + comp.
    + comp.
    + intros ? s' (_ & Hr & _). exact Hr.
  - eapply wp_mono; [apply (proj1 (proj2 (soft_timers_served soft_waiting (thread_at soft_waiting timer_thread))))
      with (i := 30) (tm := timer_at soft_waiting (TUser 30))|].
    + apply wf_check_sound. comp.
    + exists main. comp.
    + comp.
    + comp.
    + comp.
    + comp.
    + split; comp.
    + intros r s' (-> & _ & _ & Hr). split; [reflexivity|exact Hr].
  - eapply wp_mono; [apply (proj2 (proj2 (soft_timers_served soft_late zero_thread)) no_callback 0 2%nat Delayed)|].
    + apply soft_late_level.
    + apply no_callback_soft.
    + comp.
    + apply soft_late_row.
    + apply le_n.
    + intros ? s' (Hwf & _). exact Hwf.
Defined.

Lemma soft_timer_wakeup_lost_witness :
  wp (next_timeout ← rt_timer_list_next_timeout SoftRow;
      _ ← rt_timer_start (TUser 30);
      timer_entry_wait next_timeout)
    (λ w s', w = Suspended ∧ l_get (ks_rows s') SoftRow = [TUser 30]) soft_idle.
Proof.
  eapply wp_mono; [apply (soft_timer_wakeup_lost soft_idle (thread_at soft_idle timer_thread) 30
    (timer_at soft_idle (TUser 30)))|].
  - apply timer_thread_runs. comp.
  - comp.
  - comp.
  - comp.
  - split; comp.
  - intros w s' (-> & _ & E & _). split; [reflexivity|exact E].
Defined.
