(* ===== verification/ScenarioDrivers.v ===== *)
(** The theorems on data queues, completions and work queues applied to the running
    system of [Scenario]. *)

From stdpp Require Import base gmap list fin_maps.
From Stdlib Require Import ZArith Lia.
From S2P Require Import Prelude IntrusiveList Kservice KState Object Sched Timer KInv WfCheck SchedFacts TimerFacts.
From S2P Require Import Thread Ipc IpcFacts Sem DataQueue Completion WorkQueue Scenario.

Open Scope Z_scope.

Definition layer_after {X A} (m : SM (layer X) A) (s : layer X) : layer X :=
  match m s with Done _ s' => s' | Fault _ => s end.
Definition runs {X A} (m : SM (layer X) A) (s : layer X) : bool :=
  match m s with Done _ _ => true | Fault _ => false end.

(** * Data queues *)

(** A driver without a reaction to notifications. *)
Definition no_notify (f a e : Z) : SM (layer dqs) unit := mret tt.
Lemma no_notify_returns : notify_returns no_notify.
Proof. intros f a e s. by exists s. Qed.

(** A queue of two items at 900, with one item in it. *)
Definition dq_boot : SM (layer dqs) unit :=
  _ ← rt_data_queue_init 900 2 1 (Some 7) (Some [(0, 0); (0, 0)]);
  _ ← rt_data_queue_push no_notify 900 (500, 8) 0;
  mret tt.
Definition dq_state : layer dqs := Eval vm_compute in layer_after dq_boot (Layer system ∅).
Definition dq_x : rt_data_queue := DataQueue 2 1 0 1 (Some [(500, 8); (0, 0)]) (Some 7).
Lemma dq_main : running (l_kernel dq_state) main (thread_at (l_kernel dq_state) main).
Proof. apply (running_check_sound _ _ idle). comp. Qed.
Lemma dq_x_ok : dq_ok dq_x [(500, 8); (0, 0)].
Proof. split; cbn; lia || done. Qed.

Lemma rt_data_queue_push_refines_witness :
  wp (rt_data_queue_push no_notify 900 (600, 4) 0)
    (dq_pushed no_notify 900 main (600, 4) 0 dq_x (l_kernel dq_state) (l_own dq_state)) dq_state.
Proof.
  apply (rt_data_queue_push_refines no_notify no_notify_returns (l_kernel dq_state) (l_own dq_state) 900 dq_x
    [(500, 8); (0, 0)] main (thread_at (l_kernel dq_state) main) (600, 4) 0).
  - apply dq_main.
  - comp.
  - apply dq_x_ok.
  - comp.
  - comp.
Defined.

Lemma rt_data_queue_pop_refines_witness :
  wp (rt_data_queue_pop no_notify 900 0)
    (dq_popped no_notify 900 main 0 dq_x (l_kernel dq_state) (l_own dq_state)) dq_state.
Proof.
  apply (rt_data_queue_pop_refines no_notify no_notify_returns (l_kernel dq_state) (l_own dq_state) 900 dq_x
    [(500, 8); (0, 0)] main (thread_at (l_kernel dq_state) main) 0).
  - apply dq_main.
  - comp.
  - apply dq_x_ok.
  - comp.
Defined.

(** The state behind the wrap is reached: a queue of four items is used 65532 times, then
    filled. *)
Fixpoint dq_rounds (n : nat) : SM (layer dqs) unit :=
  match n with
  | O => mret tt
  | S n => _ ← rt_data_queue_push no_notify 900 (1, 1) 0; _ ← rt_data_queue_pop no_notify 900 0; dq_rounds n
  end.
Definition dq_wrap : SM (layer dqs) unit :=
  _ ← rt_data_queue_init 900 4 0 None (Some [(0, 0); (0, 0); (0, 0); (0, 0)]);
  dq_rounds (Z.to_nat 65532);;
  _ ← rt_data_queue_push no_notify 900 (10, 1) 0;
  _ ← rt_data_queue_push no_notify 900 (11, 1) 0;
  _ ← rt_data_queue_push no_notify 900 (12, 1) 0;
  _ ← rt_data_queue_push no_notify 900 (13, 1) 0;
  mret tt.
Definition dq_wrapped : rt_data_queue :=
  DataQueue 4 0 65532 0 (Some [(10, 1); (11, 1); (12, 1); (13, 1)]) None.
Example dq_wrap_reached : l_own (layer_after dq_wrap (Layer system ∅)) !! 900 = Some dq_wrapped.
Proof. vm_compute. reflexivity. Qed.

Lemma rt_data_queue_wrap_overwrites_witness :
  wp (r ← rt_data_queue_push no_notify 900 (14, 1) 0; p ← rt_data_queue_peak 900; mret (r, p))
    (λ rp _, rp = (Return RT_EOK, (RT_EOK, Some (14, 1)))) (Layer system {[ 900 := dq_wrapped ]}).
Proof.
  apply (rt_data_queue_wrap_overwrites no_notify system {[ 900 := dq_wrapped ]} 900 dq_wrapped
    [(10, 1); (11, 1); (12, 1); (13, 1)] (14, 1)).
  - comp.
  - comp.
  - comp.
  - comp.
  - exists 16384. comp.
  - comp.
  - comp.
  - split; comp.
  - comp.
  - comp.
Defined.

(** * Completions *)

Definition done_state : layer (gmap Z Z) := Layer system {[ 950 := RT_UNCOMPLETED ]}.

Lemma rt_completion_handshake_witness :
  wp (_ ← rt_completion_wait 950 100; rt_completion_done 950;; rt_completion_wait_resumed main 950)
    (λ e s', e = RT_EOK) done_state ∧
  wp (rt_completion_done 950;; rt_completion_wait 950 100) (λ r s', r = Return RT_EOK) done_state.
Proof.
  destruct (rt_completion_handshake system {[ 950 := RT_UNCOMPLETED ]} 950 RT_UNCOMPLETED main
    (thread_at system main) 100) as (_ & Hw & Hd).
  - apply main_runs.
  - comp.
  - comp.
  - comp.
  - split.
    + eapply wp_mono; [apply Hw; comp|]. intros e s' (He & _). exact He.
    + eapply wp_mono; [apply Hd|]. intros r s' (Hr & _). exact Hr.
Defined.

Lemma rt_completion_signal_lost_witness :
  wp (_ ← rt_completion_wait 950 100; kern (timer_remove (TThread main);; rt_thread_timeout main);;
      rt_completion_done 950;; rt_completion_wait_resumed main 950)
    (λ e s', e = - RT_ETIMEOUT) done_state.
Proof.
  eapply wp_mono; [apply (rt_completion_signal_lost system {[ 950 := RT_UNCOMPLETED ]} 950 RT_UNCOMPLETED main
    (thread_at system main) 100)|].
  - apply main_runs.
  - comp.
  - comp.
  - comp.
  - split; comp.
  - intros e s' (He & _). exact He.
Defined.

(** * Work queues *)

(** A queue at 1000 with the worker at 1100 above [main], and a work item at 1300. *)
Definition wq_boot : SM (layer wqs) unit :=
  _ ← rt_workqueue_create (Some 1000) (Some 1100) (Some 1200) [119] 0 512 5;
  own (rt_work_init 1300 7 8).
(** The worker runs for the first time. *)
Definition wq_fresh : layer wqs := Eval vm_compute in layer_after wq_boot (Layer system (WQS ∅ ∅ ∅)).
(** The worker waits for work. *)
Definition wq_idle : layer wqs := Eval vm_compute in layer_after (kern worker_suspend) wq_fresh.
(** The worker is busy with the item, and [main] waits until it is finished. *)
Definition wq_busy : layer wqs := Eval vm_compute in layer_after (
  _ ← rt_workqueue_dowork 1000 1300;
  _ ← own (worker_take 1000);
  kern (rt_thread_sleep 5);;
  _ ← rt_workqueue_cancel_work_sync 1000 1300;
  mret tt) wq_idle.

Example wq_boot_runs : runs wq_boot (Layer system (WQS ∅ ∅ ∅)) = true.
Proof. comp. Qed.
Example wq_main_waits : l_get (ks_lists (l_kernel wq_busy)) (LSem (wq_sem 1000)) = [main].
Proof. comp. Qed.

Definition wq_x : rt_workqueue := WorkQueue None (Some 1100).
Lemma wq_lists_ok (s : layer wqs) : l_get (wq_lists (l_own s)) 1000 = [] →
  wq_lists (l_own s) = {[ 1000 := [] ]} → l_ok (wq_lists (l_own s)).
Proof. intros _ ->. apply (l_init_ok _ ∅). apply l_empty_ok. Qed.

Lemma workqueue_completion_wakes_all_witness :
  wp (workqueue_work_completion 3 1000) (λ r s', r = RT_EOK ∧ is_ready s' main) (l_kernel wq_busy).
Proof.
  eapply wp_mono; [apply (workqueue_completion_wakes_all 3 1000 (mk_sem 0 0) 0 (l_kernel wq_busy))|].
  - split; [apply wf_check_sound; comp|exists aux; comp|comp|comp|comp].
  - lia.
  - apply (some_ready_sound _ idle). comp.
  - apply le_n.
  - intros r s' (Hr & _ & _ & Hw). split; [exact Hr|]. apply Hw. rewrite wq_main_waits. by left.
Defined.

Lemma rt_workqueue_dowork_queues_witness :
  wp (rt_workqueue_dowork 1000 1300) (λ r s', r = RT_EOK ∧ is_ready (l_kernel s') 1100) wq_idle.
Proof.
  eapply wp_mono; [apply (rt_workqueue_dowork_queues (l_kernel wq_idle) (l_own wq_idle) 1000 1300 wq_x 1100
    (thread_at (l_kernel wq_idle) 1100))|].
  - apply wf_check_sound. comp.
  - exists main. comp.
  - apply wq_lists_ok; comp.
  - comp.
  - comp.
  - comp.
  - comp.
  - intros r s' (Hr & _ & _ & _ & Hw). split; [exact Hr|exact Hw].
Defined.

Lemma workqueue_wakeup_lost_witness :
  wp (e ← worker_test 1000; _ ← rt_workqueue_dowork 1000 1300; if (e : bool) then kern worker_suspend else mret tt)
    (λ _ s', l_get (wq_lists (l_own s')) 1000 = [1300]) wq_fresh.
Proof.
  eapply wp_mono; [apply (workqueue_wakeup_lost (l_kernel wq_fresh) (l_own wq_fresh) 1000 1300 wq_x 1100
    (thread_at (l_kernel wq_fresh) 1100) 5)|].
  - apply (running_check_sound _ _ idle). comp.
  - split_and!; [lia|comp|comp|]. intros q Hq.
    assert (q = 0 ∨ q = 1 ∨ q = 2 ∨ q = 3 ∨ q = 4) as [-> | [-> | [-> | [-> | ->]]]] by lia; comp.
  - comp.
  - apply wq_lists_ok; comp.
  - comp.
  - comp.
  - comp.
  - comp.
  - intros ? s' (_ & E & _). exact E.
Defined.

Lemma workqueue_cancel_faults_witness :
  wp (_ ← rt_workqueue_dowork 1000 1300; rt_workqueue_cancel_work 1000 1300) (λ r s', r = RT_EOK ∧
    worker_turn (λ _ _ _, mret tt) 2 1000 s' = Fault BadPointer) wq_idle.
Proof.
  eapply wp_mono; [apply (workqueue_cancel_faults (λ _ _ _, mret tt) 2 (l_kernel wq_idle) (l_own wq_idle) 1000 1300
    wq_x 1100 (thread_at (l_kernel wq_idle) 1100))|].
  - apply wf_check_sound. comp.
  - exists main. comp.
  - apply wq_lists_ok; comp.
  - comp.
  - comp.
  - comp.
  - comp.
  - comp.
  - comp.
  - intros r s' (Hr & _ & E). split; [exact Hr|exact E].
Defined.

(** [rt_workqueue_destroy] frees the memory of the queue, with its semaphore in it, while
    the semaphore is still registered as a kernel object. *)
Example wq_destroy_leaves_sem :
  match rt_workqueue_destroy 1000 wq_idle with
  | Done _ s' => 1000 ∈ ks_freed (l_kernel s') ∧
      OSem (wq_sem 1000) ∈ l_get (ks_containers (l_kernel s')) (class_index ClassSemaphore)
  | Fault _ => False
  end.
Proof. vm_compute. split; [by left|by left]. Qed.
