(* ===== verification/ScenarioDevice.v ===== *)
(** The theorems on devices applied to a driver that counts its openings and cannot be
    closed, and those on pipes and portals applied to two portals over two pipes, in the
    running system of [Scenario]. *)

From stdpp Require Import base gmap list fin_maps.
From Stdlib Require Import ZArith Lia.
From S2P Require Import Prelude IntrusiveList Kservice KState Object Sched Timer KInv WfCheck SchedFacts Thread.
From S2P Require Import MemPool ObjectFacts Ipc IpcFacts Ring DataQueue Device DeviceSpec Pipe Scenario.

Open Scope Z_scope.

(** The driver: its private state is the number of times it was opened; closing fails
    with an input/output error. *)
Definition counted {A} (r : A) (f : Z → Z) : SM (layer (devs Z)) A :=
  modify (λ s, Layer (l_kernel s) (Devs (d_devices (l_own s)) (d_console (l_own s)) (f (d_priv (l_own s)))));;
  mret r.
#[local] Instance counter_ops : driver_ops Z := {
  drv_init f a := counted RT_EOK id;
  drv_open f a oflag := counted RT_EOK Z.succ;
  drv_close f a := counted (- RT_EIO) id;
  drv_read f a pos size := counted (0, []) id;
  drv_write f a pos buffer := counted 0 id;
  drv_control f a cmd arg := counted RT_EOK id;
  report a e := counted tt id
}.
Lemma counted_leaves {A} (r : A) f : leaves_devices (counted r f).
Proof. intros s. unfold counted. wp_step. wp_step. by wp_step. Qed.
#[local] Instance counter_laws : driver_laws Z.
Proof. split; intros; apply counted_leaves. Qed.

(** A standalone device at 1500, and the system in which it is registered as [d]. *)
Definition dev0 : rt_device :=
  Device 0 0 0 7 None None (Some 1) (Some 2) (Some 3) None None None.
Definition dev_start : layer (devs Z) := Layer system (Devs {[ 1500 := dev0 ]} None 0).
Definition dev_boot : SM (layer (devs Z)) Z := rt_device_register (Some 1500) [100] RT_DEVICE_FLAG_STANDALONE.
Definition dev_ready : layer (devs Z) := Eval vm_compute in
  match dev_boot dev_start with Done _ s => s | Fault _ => dev_start end.
Definition dev_opened : layer (devs Z) := Eval vm_compute in
  match rt_device_open 1500 3 dev_ready with Done _ s => s | Fault _ => dev_ready end.
Definition device_at (s : layer (devs Z)) : rt_device := default dev0 (d_devices (l_own s) !! 1500).

(** Two openings and two closings: the second user is refused, the first close fails, and
    the device is lost. *)
Example dev_calls :
  match device_run 1500 [COpen 3; COpen 3; CClose; COpen 3; CClose] dev_ready with
  | Done rs s => rs = [RT_EOK; - RT_EBUSY; - RT_EIO; - RT_EBUSY; - RT_ERROR] ∧ d_priv (l_own s) = 1
  | Fault _ => False
  end.
Proof. vm_compute. split; reflexivity. Qed.

(** The same system with a record of the driver's calls. *)
Definition dev_recorded : layer (devs (Z * list drv_event)) :=
  Layer (l_kernel dev_ready) (Devs (d_devices (l_own dev_ready)) None (0, [])).
(** The driver is initialised and opened once for the first user, and closed when it leaves. *)
Example dev_events :
  match device_run 1500 [COpen 3; COpen 3; CClose; COpen 3] dev_recorded with
  | Done _ s => (d_priv (l_own s)).2 = [EvInit 1 1500 RT_EOK; EvOpen 2 1500 3 RT_EOK; EvClose 3 1500 (- RT_EIO)]
  | Fault _ => False
  end.
Proof. vm_compute. reflexivity. Qed.

Lemma device_calls_refine_witness :
  wp (device_run 1500 [COpen 3; COpen 3; CClose]) (λ rs s', ∃ d', d_devices (l_own s') !! 1500 = Some d' ∧
    dview_ok true (dev_view d')) dev_recorded.
Proof.
  eapply wp_mono; [apply (device_calls_refine 1500 [COpen 3; COpen 3; CClose] (device_at dev_ready) dev_recorded)|].
  - comp.
  - comp.
  - cbn. lia.
  - intros rs s' (d' & es & E & _ & _ & Hok). exists d'. split; [rewrite E; apply lookup_insert_eq|exact Hok].
Defined.

Lemma rt_device_close_failure_wedges_witness :
  wp (r1 ← rt_device_close 1500; r2 ← rt_device_open 1500 3; r3 ← rt_device_close 1500; mret (r1, r2, r3))
    (λ r s', r = (- RT_EIO, - RT_EBUSY, - RT_ERROR)) dev_opened.
Proof.
  eapply wp_mono; [apply (rt_device_close_failure_wedges 1500 3 (device_at dev_opened) (- RT_EIO) 3 dev_opened)|].
  - comp.
  - comp.
  - comp.
  - comp.
  - comp.
  - comp.
  - comp.
  - intros s. cbn. reflexivity.
  - intros r s' (E & _). exact E.
Defined.

Lemma main_context : thread_context system.
Proof.
  split; [apply system_is_wf|apply system_ready|apply system_current|split; comp|comp].
Qed.

Lemma rt_device_register_find_witness :
  wp dev_boot (λ r s', r = RT_EOK → wp (rt_device_find [100]) (λ r _, r = Some 1500) (l_kernel s')) dev_start.
Proof.
  eapply wp_mono; [apply (rt_device_register_find system (λ _, []) 1500 [100] RT_DEVICE_FLAG_STANDALONE dev0
    (Devs {[ 1500 := dev0 ]} None 0))|].
  - apply main_context.
  - repeat constructor; lia.
  - intros o Ho. exfalso. revert Ho.
    assert (El : l_get (ks_containers system) (class_index ClassDevice) = []) by comp. rewrite El. apply not_elem_of_nil.
  - intros c. apply (proj1 (l_linked_false _ _)). comp.
  - comp.
  - intros r s' [(-> & _)|(_ & _ & _ & _ & Hf & _)]; [discriminate|]. intros _. exact Hf.
Defined.

(** * Pipes and portals *)

#[local] Instance addresses : stream_image := {
  rt_pipe_read_fn := 1; rt_pipe_write_fn := 2; rt_pipe_control_fn := 3;
  portal_init_fn := 4; portal_open_fn := 5; portal_close_fn := 6; portal_read_fn := 7; portal_write_fn := 8;
  portal_rx_indicate_fn := 9; portal_tx_complete_fn := 10
}.
(** The user of the second portal wants to hear of nothing. *)
Definition unheard : stream_calls := {|
  call_rx_indicate f a n := mret (- RT_ENOSYS);
  call_tx_complete f a b := mret (- RT_ENOSYS)
|}.
#[local] Instance portal_calls : stream_calls := {
  call_rx_indicate f a n := if f =? 9 then portal_rx_indicate (H0 := unheard) a n else mret (- RT_ENOSYS);
  call_tx_complete f a b := if f =? 10 then portal_tx_complete (H0 := unheard) a b else mret (- RT_ENOSYS)
}.
(** The answer of a call that did not have to wait. *)
Definition at_once {A B} (m : SM (layer (devs streams)) (call A B)) : SM (layer (devs streams)) A :=
  c ← m; match c with Return r => mret r | Wait _ => fail Undefined end.
#[local] Instance pipe_driver : driver_ops streams := {
  drv_init f a := mret RT_EOK;
  drv_open f a oflag := mret RT_EOK;
  drv_close f a := mret RT_EOK;
  drv_read f a pos size :=
    if f =? 1 then '(n, b) ← at_once (rt_pipe_read a (replicate (Z.to_nat size) 0) size); mret (n, take (Z.to_nat n) b)
    else mret (0, []);
  drv_write f a pos buffer :=
    if f =? 2 then at_once (rt_pipe_write a buffer (Z.of_nat (length buffer))) else mret 0;
  drv_control f a cmd arg := mret RT_EOK;
  report a e := mret tt
}.

Lemma unheard_rx a n r s s' : portal_rx_indicate a n s = Done r s' → portal_rx_indicate (H0 := unheard) a n s = Done r s'.
Proof.
  unfold portal_rx_indicate, get_device, get_pipe, the_device, mbind, SM_bind, get. simpl.
  destruct (d_devices (l_own s) !! a) as [d|]; [|done]. simpl. destruct (dev_type d =? RT_Device_Class_Pipe); [|done]. simpl.
  destruct (st_pipes (d_priv (l_own s)) !! a) as [x|]; [|done]. simpl. destruct (pipe_read_portal x) as [p|]; [|done]. simpl.
  destruct (d_devices (l_own s) !! p) as [dp|] eqn:Edp; [|done]. simpl. destruct (dev_rx_indicate dp) as [f|]; [|done].
  destruct (f =? 9); [|done]. unfold portal_rx_indicate, get_device, get_pipe, the_device, mbind, SM_bind, get. simpl. rewrite Edp. simpl.
  destruct (dev_type dp =? RT_Device_Class_Pipe); [|done]. simpl.
  destruct (st_pipes (d_priv (l_own s)) !! p) as [y|]; [|done]. simpl. destruct (pipe_read_portal y) as [q|]; [|done]. simpl.
  destruct (d_devices (l_own s) !! q) as [dq|]; [|done]. simpl. by destruct (dev_rx_indicate dq).
Qed.
Lemma pipe_driver_linked : linked.
Proof.
  split.
  - intros a pos size n b s s' E. cbn -[rt_pipe_read]. unfold at_once, mbind, SM_bind. by rewrite E.
  - intros a pos buffer n s s' E. cbn -[rt_pipe_write]. unfold at_once, mbind, SM_bind. by rewrite E.
  - intros a n r s s' E. cbn -[portal_rx_indicate]. by apply unheard_rx.
Qed.

(** Two pipes at 1600 and 1610 of eight bytes each, which block, and portals at 1700 and 1710
    that write to one and read from the other. *)
Definition stream_memory : devs streams :=
  Devs {[ 1600 := zero_device; 1610 := zero_device; 1700 := zero_device; 1710 := zero_device ]} None
    (Streams {[ 1600 := zero_pipe; 1610 := zero_pipe ]} {[ 1700 := Portal None None; 1710 := Portal None None ]}).
Definition stream_boot : SM (layer (devs streams)) unit :=
  e1 ← rt_pipe_init 1600 [112; 48] 3 (replicate 8 0) 8;
  e2 ← rt_pipe_init 1610 [112; 49] 3 (replicate 8 0) 8;
  e3 ← rt_portal_init 1700 [48] [112; 48] [112; 49];
  e4 ← rt_portal_init 1710 [49] [112; 49] [112; 48];
  e5 ← portal_open 1700 3;
  e6 ← portal_open 1710 3;
  RT_ASSERT (forallb (Z.eqb RT_EOK) [e1; e2; e3; e4; e5; e6]).
Definition stream_state : layer (devs streams) := Eval vm_compute in 
  match stream_boot (Layer system stream_memory) with Done _ s => s | Fault _ => Layer system stream_memory end.
Definition pipe_at (a : Z) : rt_pipe_device := default zero_pipe (st_pipes (d_priv (l_own stream_state)) !! a).
Definition pipe_dev (a : Z) : rt_device := default zero_device (d_devices (l_own stream_state) !! a).

Lemma stream_main : running (l_kernel stream_state) main (thread_at (l_kernel stream_state) main).
Proof. apply (running_check_sound _ _ idle). comp. Qed.
Lemma pipe_empty : rb_holds (pipe_ringbuffer (pipe_at 1600)) [].
Proof. split; cbn; lia || done. Qed.

Lemma pipe_told : rx_ok 1600 (pipe_at 1600) (pipe_dev 1600) (l_kernel stream_state) (l_own stream_state).
Proof.
  intros f n rb Ef D'. injection Ef as <-. exists (- RT_ENOSYS), (l_kernel stream_state). split; [reflexivity|].
  split_and!; [apply stream_main|exists main; apply stream_main|done].
Qed.


(** A portal made before the threads run, when only its first pipe exists. *)
Definition early_state : layer (devs streams) := Eval vm_compute in
  match rt_pipe_init 1600 [112; 48] 3 (replicate 8 0) 8 (Layer kernel0 stream_memory) with
  | Done _ s => s
  | Fault _ => Layer kernel0 stream_memory
  end.
Definition early_kernel : kstate := Eval vm_compute in l_kernel early_state.
Definition early_pipe : rt_pipe_device := default zero_pipe (st_pipes (d_priv (l_own early_state)) !! 1600).
Definition early_device : rt_device := default zero_device (d_devices (l_own early_state) !! 1600).
Lemma rt_portal_init_asserts_witness :
  rt_portal_init 1700 [48] [112; 48] [120] (Layer early_kernel (l_own early_state)) = Fault AssertFailed.
Proof.
  eapply (rt_portal_init_asserts 1700 [48] [112; 48] [120] early_kernel early_kernel early_kernel 1600 early_device zero_device
    (Portal None None) early_pipe (l_own early_state)).
  - comp.
  - comp.
  - discriminate.
  - comp.
  - comp.
  - comp.
  - comp.
  - comp.
Defined.
