(* ===== verification/ScenarioDfs.v ===== *)
(** A small image of the read-only file system, mounted at the root, on which the theorems
    about the device file system are tried. *)

From stdpp Require Import base gmap list strings.
From Stdlib Require Import ZArith Lia Ascii.
From S2P Require Import Prelude Halts Kservice Printf DfsState DfsPath Dfs DfsFile DfsFs DfsPosix DfsInv DfsCalls DfsPosixSpec RomFs.

Open Scope Z_scope.

Definition cs (s : string) : list Z := text s ++ [0].

(** The numbers of the C library, an image with the files [/hello.txt] and [/sub/x], an
    allocator that looks for a free place among 64. *)
#[local] Instance newlib : libc := Libc 2 5 6 9 12 16 17 18 19 20 22 28 88
  0 1 2 0x200 0x400 8 0x200000 0 1 2 0xf000 0x8000 0x4000 0x2000 0x6000 0x1b6 0x49.
#[local] Instance image : romfs_image := {|
  rom_entry a :=
    if a =? 1000 then Some (RomDirent ROMFS_DIRENT_DIR (cs "/") 2000 2)
    else if a =? 2000 then Some (RomDirent ROMFS_DIRENT_FILE (cs "hello.txt") 3000 5)
    else if a =? 2016 then Some (RomDirent ROMFS_DIRENT_DIR (cs "sub") 4000 1)
    else if a =? 4000 then Some (RomDirent ROMFS_DIRENT_FILE (cs "x") 5000 3) else None;
  rom_bytes a :=
    if a =? 3000 then Some (text "hello") else if a =? 5000 then Some (text "xyz")
    else if a =? 2000 then Some (repeat 1 32) else if a =? 4000 then Some (repeat 1 16) else None
|}.
Fixpoint free_place (n : nat) (p : Z) (h : gmap Z (list Z)) : option Z :=
  match n with
  | O => None
  | S n => if h !! p is Some _ then free_place n (p + 0x10000) h else Some p
  end.
#[local] Instance slots : allocator := {|
  place n h size :=
    if (0 <=? size) && (size <? 0x10000) then
      p ← free_place 64 0x20000 h; Some (p, replicate (Z.to_nat size) 0xa5)
    else None
|}.
#[local] Instance types : fs_types unit := {| fs_type a := if a =? 77 then Some romfs_ops else None |}.
#[local] Instance devices : device_calls unit :=
  {| device_find _ := mret 0; device_open _ _ := mret 0; device_close _ := mret 0 |}.

Lemma free_place_ok n p h q : free_place n p h = Some q → p ≤ q < p + 0x10000 * Z.of_nat n ∧ h !! q = None.
Proof.
  revert p. induction n as [|n IH]; intros p H; [done|]. cbn [free_place] in H.
  destruct (h !! p) eqn:E; [apply IH in H as [H ?]; split; [lia|done]|]. injection H as <-. split; [lia|done].
Qed.
#[local] Instance slots_ok : allocator_ok slots.
Proof.
  constructor. intros n h size p b H. cbv beta iota delta [place slots] in H.
  destruct (Z.leb_spec 0 size); [|done]. destruct (Z.ltb_spec size 0x10000); [|done]. cbn [andb] in H.
  destruct (free_place 64 0x20000 h) as [q|] eqn:E; [|done]. injection H as <- <-. apply free_place_ok in E as [E Hq].
  rewrite length_replicate. split_and!; [lia|lia|done|lia].
Qed.

Definition start : dfs unit := Dfs [] [] {[4 := zero_fd]} [] 0 0 ∅ ∅ 0 [] tt.
Definition after {A} (m : D unit A) (s : dfs unit) : dfs unit := match m s with Done _ s => s | Fault _ => s end.
Definition result {A} (m : D unit A) (s : dfs unit) : option A := match m s with Done a _ => Some a | Fault _ => None end.
Definition boot : D unit Z :=
  _ ← dfs_init; _ ← dfs_romfs_init 77; dfs_mount zero_fd None (cs "/") (cs "rom") 0 1000.
Definition booted : dfs unit := after boot start.

Example session :
  result (fd ← open (cs "/hello.txt") O_RDONLY; a ← read fd 3; b ← read fd 10; l ← lseek fd 1 SEEK_SET;
          c ← read fd 2; x ← close fd; y ← chdir (Some (cs "sub")); d ← opendir (cs "..");
          e ← readdir d; f ← readdir d; g ← readdir d; z ← closedir d;
          mret ([fd; l; x; y; z], [a; b; c], d_name <$> e, d_name <$> f, d_name <$> g)) booted =
  Some ([0; 1; 0; 0; 0], [(3, text "hel"); (2, text "lo"); (2, text "el")],
        Some (cs "hello.txt"), Some (cs "sub"), None).
Proof. vm_compute. reflexivity. Qed.

Ltac chars := unfold chars; cbn; repeat constructor; lia.
Ltac path := apply chars_path; chars.

Lemma dfs_normalize_path_correct_witness :
  (∃ q, dfs_normalize_path (Some (cs "/sub")) (cs "../a//./b/") booted =
     Done 0x30000 (alloc 0x30000 (text "/a/b" ++ 0 :: q) booted) ∧ (4 + length q = 15)%nat ∧
     (true = true → normal (text "/a/b") = Some (true, [text "b"; text "a"]))) ∧
  dfs_normalize_path None (cs "/..") booted = Fault BadPointer ∧
  dfs_normalize_path None (cs "/../..") booted = Done 0 (tick booted).
Proof.
  assert (Hs : path_chars (text "/sub")) by path. assert (Hr : path_chars [SLASH]) by path.
  assert (H1 : path_chars (text "../a//./b/")) by path. assert (H2 : path_chars (text "/..")) by path.
  assert (H3 : path_chars (text "/../..")) by path.
  split; [|split].
  - vm_cast_no_check (dfs_normalize_path_correct (Some (cs "/sub")) (cs "../a//./b/") booted (text "/sub") []
      (text "../a//./b/") [] Hs H1 eq_refl eq_refl eq_refl).
  - vm_cast_no_check (dfs_normalize_path_correct None (cs "/..") booted [SLASH] (repeat 0 254) (text "/..") []
      Hr H2 eq_refl eq_refl eq_refl).
  - vm_cast_no_check (dfs_normalize_path_correct None (cs "/../..") booted [SLASH] (repeat 0 254) (text "/../..") []
      Hr H3 eq_refl eq_refl eq_refl).
Defined.

Lemma dfs_filesystem_lookup_correct_witness :
  ∃ r, dfs_filesystem_lookup (cs "/sub/x") booted = Done r booted ∧
    match r with
    | None => ∀ i f m, mounted booted i f m → ¬ covers m (text "/sub/x")
    | Some i => ∃ f m, mounted booted i f m ∧ covers m (text "/sub/x") ∧
        ∀ j f' m', mounted booted j f' m' → covers m' (text "/sub/x") → (length m' ≤ length m)%nat
    end.
Proof.
  apply (dfs_filesystem_lookup_correct (text "/sub/x") [] booted); [|chars|vm_compute; done].
  vm_compute v_fs. constructor; [|repeat constructor; by left].
  right. right. exists [SLASH]. split; [chars|]. exists []. vm_compute. reflexivity.
Defined.

(** * The promises hold *)

#[local] Instance newlib_ok : libc_ok newlib.
Proof. constructor; [repeat constructor|done]. Qed.
Lemma free_place_full n p h : free_place n p h = None → (n ≤ length (keys h))%nat.
Proof.
  intros H. set (l := (λ i, p + 0x10000 * Z.of_nat i) <$> seq 0 n).
  assert (Hin : ∀ i, (i < n)%nat → is_Some (h !! (p + 0x10000 * Z.of_nat i))).
  { revert p l H. induction n as [|n IH]; intros p l H i Hi; [lia|]. cbn [free_place] in H.
    destruct (h !! p) eqn:E; [|done]. destruct i as [|i]; [rewrite Z.mul_0_r, Z.add_0_r; by eexists|].
    destruct (IH (p + 0x10000) H i) as [b Hb]; [lia|]. exists b. rewrite <- Hb. f_equal. lia. }
  assert (l ⊆+ keys h) as Hsub.
  { apply NoDup_submseteq; [apply NoDup_fmap; [intros i j; lia|apply NoDup_seq]|]. intros q Hq. apply elem_keys.
    apply list_elem_of_fmap in Hq as (i & -> & Hi). apply elem_of_seq in Hi. apply Hin. lia. }
  apply submseteq_length in Hsub. unfold l in Hsub. by rewrite length_fmap, length_seq in Hsub.
Qed.
#[local] Instance slots_room : allocator_room slots.
Proof.
  constructor. intros n h size Hh Hs H. cbv beta iota delta [place slots] in H.
  rewrite (proj2 (Z.leb_le 0 size)), (proj2 (Z.ltb_lt size 0x10000)) in H by lia. cbn [andb] in H.
  destruct (free_place 64 0x20000 h) eqn:E; [done|]. apply free_place_full in E. lia.
Qed.
Definition rom_entries (a : Z) : Prop := a ∈ [1000; 2000; 2016; 4000].
#[local] Instance rom_entries_tree : rom_tree rom_entries.
Proof.
  constructor. intros a Ha.
  assert (Hname : ∀ s, chars (text s) → text s ≠ [] → (length (text s) < 256)%nat →
    ∃ t r, cs s = t ++ 0 :: r ∧ chars t ∧ t ≠ [] ∧ (length t < 256)%nat) by (intros s ? ? ?; by exists (text s), []).
  unfold rom_entries in Ha. rewrite !elem_of_cons, elem_of_nil in Ha.
  destruct Ha as [->|[->|[->|[->|[]]]]]; (split; [done|]); (eexists; split; [done|]); unfold entry_fine; cbn [rom_name rom_size rom_data rom_type];
    (split; [apply Hname; [chars|done|cbn; lia]|]); (split; [lia|]); (split; [eexists; split; [done|vm_compute; done]|]).
  - right. split; [done|]. intros i Hi. assert (i = 0 ∨ i = 1) as [-> | ->] by lia; unfold rom_entries; set_solver.
  - by left.
  - right. split; [done|]. intros i Hi. assert (i = 0) as -> by lia; unfold rom_entries; set_solver.
  - by left.
Qed.
#[local] Instance systems : file_systems unit := rom_systems rom_entries.
Lemma only_romfs a o : fs_type a = Some o → o = romfs_ops.
Proof. cbv [fs_type types]. destruct (a =? 77); [|done]. by intros [= ->]. Qed.
#[local] Instance promises : file_system_laws := rom_promises rom_entries only_romfs.

(** A session: reading a file, listing a directory and moving there, failing to open, closing
    twice. *)
Definition calls : list call :=
  [Open (text "/hello.txt") O_RDONLY; Read 0 3; Lseek 0 1 SEEK_CUR; Opendir (text "sub"); Readdir 0x30000; Closedir 0x30000;
   Chdir (text "sub"); Open (text "../nothing") O_RDONLY; Stat (text "x"); Unlink (text "x"); Close 0; Close 0].
(** The states between the calls. *)
Definition st0 : dfs unit := Eval vm_compute in booted.
Definition st1 : dfs unit := Eval vm_compute in after (exec (nth 0 calls Showdir)) st0.
Definition st2 : dfs unit := Eval vm_compute in after (exec (nth 1 calls Showdir)) st1.
Definition st3 : dfs unit := Eval vm_compute in after (exec (nth 2 calls Showdir)) st2.
Definition st4 : dfs unit := Eval vm_compute in after (exec (nth 3 calls Showdir)) st3.
Definition st5 : dfs unit := Eval vm_compute in after (exec (nth 4 calls Showdir)) st4.
Definition st6 : dfs unit := Eval vm_compute in after (exec (nth 5 calls Showdir)) st5.
Definition st7 : dfs unit := Eval vm_compute in after (exec (nth 6 calls Showdir)) st6.
Definition st8 : dfs unit := Eval vm_compute in after (exec (nth 7 calls Showdir)) st7.
Definition st9 : dfs unit := Eval vm_compute in after (exec (nth 8 calls Showdir)) st8.
Definition st10 : dfs unit := Eval vm_compute in after (exec (nth 9 calls Showdir)) st9.
Definition st11 : dfs unit := Eval vm_compute in after (exec (nth 10 calls Showdir)) st10.
Definition st12 : dfs unit := Eval vm_compute in after (exec (nth 11 calls Showdir)) st11.

Lemma cwd_unique (d d' r r' : list Z) : chars d → chars d' → d ++ 0 :: r = d' ++ 0 :: r' → d = d'.
Proof.
  intros Hd Hd' E. apply (cstr_inj (<[0 := d ++ 0 :: r]> ∅) 0).
  - split; [done|]. exists r. by rewrite lookup_insert_eq.
  - split; [done|]. exists r'. by rewrite lookup_insert_eq, E.
Qed.
Definition byte_list (l : list Z) : bool := forallb (λ c, (1 <=? c) && (c <=? 255)) l.
Lemma byte_chars l : byte_list l = true → chars l.
Proof. intros H. apply Forall_forall. intros c Hc. apply list_elem_of_In in Hc. apply (proj1 (forallb_forall _ _) H) in Hc. lia. Qed.
(** The names of the session, from the working directory [d]. *)
Definition good_name (d f : list Z) : bool :=
  byte_list f && byte_list d && (Z.of_nat (length f) <? 2 ^ 14) && bool_decide (normal (full_path d f) ≠ Some (false, [])).
Lemma good_name_ok d r f (s : dfs unit) : v_cwd s = d ++ 0 :: r → good_name d f = true → name_ok f s.
Proof.
  intros Ed H. unfold good_name in H. rewrite !andb_true_iff in H. destruct H as [[[Hf Hd] Hl] Hn].
  split; [by apply byte_chars|]. split; [lia|]. intros d' r' Ed' Hd'. rewrite Ed in Ed'.
  rewrite <- (cwd_unique _ _ _ _ (byte_chars _ Hd) Hd' Ed'). by apply bool_decide_eq_true in Hn.
Qed.
Definition good_path (d f : list Z) : bool :=
  byte_list d && match normal (full_path d f) with Some k => good_name d (path_text k) | None => true end.
Lemma good_path_ok d r f (s : dfs unit) : v_cwd s = d ++ 0 :: r → good_path d f = true → twice_ok f s.
Proof.
  intros Ed H d' r' k Ed' Hd' Hk. unfold good_path in H. apply andb_true_iff in H as [Hd H]. rewrite Ed in Ed'.
  rewrite <- (cwd_unique _ _ _ _ (byte_chars _ Hd) Hd' Ed') in Hk. rewrite Hk in H. by eapply good_name_ok.
Qed.
Lemma fits_ok d r f (s : dfs unit) : v_cwd s = d ++ 0 :: r → byte_list d = true →
  (from_option (λ k, length (path_text k)) 0 (normal (full_path d f)) <? DFS_PATH_MAX)%nat = true → fits f s.
Proof.
  intros Ed Hd H d' r' k Ed' Hd' Hk. rewrite Ed in Ed'. rewrite <- (cwd_unique _ _ _ _ (byte_chars _ Hd) Hd' Ed') in Hk.
  rewrite Hk in H. by apply Nat.ltb_lt in H.
Qed.
Lemma ready_next c l s s' : (length (v_fs s) + length (keys (v_dirs s)) <=? 20)%nat = true → ready c s →
  exec c s = Done tt s' → all_ready l s' → all_ready (c :: l) s.
Proof. intros Hf Hc E H. split; [by apply Nat.leb_le|]. split; [done|]. intros s2 E2. rewrite E in E2. by injection E2 as <-. Qed.
Ltac turn s s' :=
  refine (ready_next _ _ s s' _ _ _ _);
    [vm_cast_no_check (eq_refl true)| |vm_cast_no_check (eq_refl (Done tt s'))|].
Ltac name d := apply (good_name_ok d (repeat 0 (256 - length d - 1))); [vm_compute; reflexivity|vm_compute; reflexivity].
Ltac again d := apply (good_path_ok d (repeat 0 (256 - length d - 1))); [vm_compute; reflexivity|vm_compute; reflexivity].

Lemma posix_calls_keep_inv_witness :
  ∃ s', run calls booted = Done tt s' ∧ dfs_inv s' ∧ v_fs s' = v_fs booted ∧ v_lock s' = v_lock booted.
Proof.
  apply (posix_calls_keep_inv calls booted).
  - split; [split|].
    + replace (v_fs booted) with [Filesystem 0 0x20000 77 1000; zero_fs; zero_fs; zero_fs] by (vm_compute; reflexivity).
      repeat (apply Forall_cons; split); [right|by left..|constructor]. split_and!; [done|done| |by eexists|].
      * exists [SLASH]. split; [chars|]. exists []. vm_compute. reflexivity.
      * split; [unfold rom_entries; set_solver|]. eexists. by split.
    + exists [SLASH], (repeat 0 254). split_and!; [vm_compute; reflexivity|chars|vm_compute; reflexivity].
    + intros p t Hp. vm_compute in Hp. discriminate Hp.
    + vm_compute. reflexivity.
    + vm_compute. discriminate.
    + intros a Ha _. exists zero_fd. split; [|by left]. unfold fd_ids in Ha. rewrite !elem_of_cons, elem_of_nil in Ha.
      destruct Ha as [->|[->|[->|[->|[]]]]]; vm_compute; reflexivity.
  - assert (E : booted = st0) by (vm_compute; reflexivity). rewrite E. clear E. unfold calls.
    turn st0 st1. { name [SLASH]. }
    turn st1 st2. { simpl. lia. }
    turn st2 st3. { simpl. lia. }
    turn st3 st4. { name [SLASH]. }
    turn st4 st5. { vm_compute. by eexists. }
    turn st5 st6. { split; [done|]. eexists. split; [vm_compute; reflexivity|]. intros d Hd. right. vm_compute in Hd. by injection Hd as <-. }
    turn st6 st7. { split_and!; [name [SLASH]|again [SLASH]|].
      apply (fits_ok [SLASH] (repeat 0 254)); vm_compute; reflexivity. }
    turn st7 st8. { name (text "/sub"). }
    turn st8 st9. { name (text "/sub"). }
    turn st9 st10. { split; [name (text "/sub")|again (text "/sub")]. }
    turn st10 st11. { exact I. }
    turn st11 st12. { exact I. }
    exact I.
Defined.

(** In the end only the path of the mount is on the heap, and every descriptor is free. *)
Example session_ends :
  (take 5 (v_cwd st12), keys (v_heap st12), v_fds st12) =
  (text "/sub" ++ [0], [0x20000], v_fds booted).
Proof. vm_compute. reflexivity. Qed.

Lemma dfs_romfs_lookup_correct_witness :
  dfs_romfs_lookup 1000 (cs "/sub//x") booted = Done (Some (4000, 3)) booted ∧
  (∀ a, Some 4000 = Some a → rom_entries a).
Proof.
  assert (Hr : rom_root rom_entries 1000).
  { split; [unfold rom_entries; set_solver|]. eexists. by split. }
  assert (Hc : chars (text "/sub//x")) by chars.
  vm_cast_no_check (dfs_romfs_lookup_correct rom_entries 1000 (text "/sub//x") [] booted Hr Hc).
Defined.
